(* ===== verification/_CoqProject ===== *)
-Q . S2P
Prelude.v
ArithUint256.v
Compact.v
Uint256.v
Chain.v
ChainTheory.v
ChainSearch.v
BigNum.v
Params.v
Pow.v
Kernel.v
KernelTheory.v
HashStream.v
Fips180.v
Sha2Lines.v
Sha2Theory.v
Sha256.v
Sha256Theory.v
Sha512.v
Rotate.v
Sha1.v
Ripemd160.v
Hash.v
SipHash.v
Serialize.v
Transaction.v
Merkle.v
MerkleBlock.v
MerkleBlockTheory.v
Compressor.v
Coins.v
CoinsTheory.v
CoinsMachine.v
Undo.v
BlockCoins.v
Script.v
TxCheck.v
TxVerify.v
Locks.v
Subsidy.v
BlockCheck.v
CuckooCache.v
CuckooTheory.v
CheckQueue.v
SigOps.v
Interp.v
InterpTheory.v
Pubkey.v
Sighash.v
SighashCommit.v
SigCache.v
VerifyScript.v
SoftFork.v
VerifyTheory.v
InputScripts.v
InputTheory.v
ScriptPatterns.v
Stake.v
ConnectBlock.v
ConnectTheory.v
Contextual.v
BlockIndex.v
IndexExtension.v
HeaderTheory.v
