(* ===== verification/Prelude.v ===== *)
(** * Nowp: a verification development

    Nowp is a node of a block chain secured by proof of work and proof of stake,
    derived from Bitcoin Core and Peercoin.  This library is a model of the part
    of the node that decides what the chain and the money are: big integers and
    targets, the block index, retargeting, the stake kernel, digests, wire and
    disk formats, Merkle trees, coins, the script interpreter and the signature
    hashes, the caches and the threads around it, and the checks of transactions
    and blocks, from accepting a header to connecting a block to the set of
    unspent coins and disconnecting it.  Definitions are translated from the C++ sources under
    [src/src/], keep their names, and can be evaluated.

    ** Conventions

    A [w]-bit integer is a [Z]; [u8], [u32], [i32], [u64], [i64] are the
    conversions of the language and stand where the code converts or overflows.
    An array or byte string is a [list Z].  A loop is a [for_range], or a
    [Fixpoint] on the data or on fuel; the fuel is a bound the code has (the
    length of a script, the height of a block, the width of a number) and the
    theorems show that it is enough.  A failed assertion, an exception and
    undefined behaviour are [None] or the left of a sum; in the interpreter they
    are [Abort], and [Fail] is a script error.  A local variable that the code
    leaves without a value, and memory it does not initialise, are arguments
    ([skipZeroValue], [junk]), so that the theorems hold for every content.  Pointers to index
    entries are keys of a heap ([Chain.heap], a [gmap]).  What is not in the
    sources is a parameter or a class with its documented laws: OpenSSL numbers,
    libsecp256k1 ([Pubkey.Secp256k1]), assembly versions of SHA-256, the
    transaction index, the proof-of-work hash.  Code that runs on several
    threads is a step relation, where a step is a critical section or a piece
    of work between two of them.

    ** Files and sources

    - [Prelude]: integers, loops, digits, tactics.
    - [ArithUint256], [Compact], [Uint256]: arith_uint256.{h,cpp}, uint256.{h,cpp}.
    - [BigNum]: bignum.h, over an interface to OpenSSL.
    - [Chain], [ChainTheory], [ChainSearch]: chain.{h,cpp}: index entries, skip
      list, active chain, locators, median time, trust.
    - [Params], [Pow]: consensus/params.h, chainparams.cpp and pow.cpp.
    - [Kernel], [KernelTheory]: kernel.cpp: stake modifiers and the kernel check.
    - [HashStream], [Fips180], [Sha2Lines], [Sha2Theory], [Sha256],
      [Sha256Theory], [Sha512], [Rotate], [Sha1], [Ripemd160], [SipHash],
      [Hash]: crypto/ and hash.{h,cpp}; [Fips180] is the standard they are
      compared with.
    - [Serialize], [Transaction]: serialize.h, primitives/.
    - [Merkle], [MerkleBlock], [MerkleBlockTheory]: consensus/merkle.cpp and
      merkleblock.{h,cpp}.
    - [Compressor], [Undo]: compressor.{h,cpp}, the stored form of coins and
      undo.h.
    - [Coins], [CoinsTheory], [CoinsMachine]: coins.{h,cpp}: the cache of unspent
      coins over a backing view, which is the class [CoinsView]; the base class
      and a cache are instances, so caches stack.
    - [Script]: script/script.{h,cpp}.
    - [TxCheck], [TxVerify], [Locks]: consensus/tx_check.cpp, tx_verify.cpp and
      GetCoinAge of validation.cpp.
    - [BlockCoins], [Subsidy], [BlockCheck]: validation.cpp: UpdateCoins,
      DisconnectBlock, GetBlockReward, CheckBlock.
    - [Interp], [InterpTheory], [ScriptPatterns]: script/interpreter.cpp:
      EvalScript with all its operations, and the encodings it checks.
    - [Pubkey]: pubkey.{h,cpp}.
    - [Sighash], [SighashCommit]: the signature hashes and the checker of a
      transaction, in script/interpreter.cpp.
    - [VerifyScript], [SoftFork], [VerifyTheory], [SigOps]: VerifyScript, witness
      programs and taproot, and the counts of signature operations, in
      script/interpreter.cpp and consensus/tx_verify.cpp.
    - [CuckooCache], [CuckooTheory]: cuckoocache.h and util/fastrange.h.  The
      class [ForgetfulSet] says what its users rely on.
    - [SigCache]: script/sigcache.{h,cpp}, shared by any number of threads.
    - [CheckQueue]: checkqueue.h, as a transition system.
    - [InputScripts], [InputTheory]: validation.cpp: CheckInputScripts, the cache
      of script executions and the flags of blocks; policy/policy.h.
    - [Stake]: CheckProofOfStake of kernel.cpp and NowpContextualBlockChecks of
      validation.cpp.
    - [ConnectBlock], [ConnectTheory]: CChainState::ConnectBlock of
      validation.cpp, which calls nearly all of the above.
    - [Contextual]: ContextualCheckBlock and GenerateCoinbaseCommitment of
      validation.cpp, GetWitnessCommitmentIndex of consensus/validation.h.
    - [BlockIndex], [IndexExtension], [HeaderTheory]: AddToBlockIndex and
      GetLastCheckpoint of node/blockstorage.cpp, and AcceptBlockHeader,
      ContextualCheckBlockHeader, ProcessNewBlockHeaders and InvalidBlockFound of
      validation.cpp, on a record of the index in memory ([BlockManager]);
      [IndexExtension] shows which answers a growing index keeps.

    ** What the theorems show

    - Numbers: the limb arrays of [base_uint] compute modulo [2^BITS] and divide
      exactly; compact targets decode and encode as specified.
    - Chain: the skip list finds the ancestor that walking would find, and the
      active chain, forks, locators and median times are what they should be.
    - Consensus: the retargets are the stated averages within their bounds; proof
      of work and stake kernels are accepted exactly below their targets; the
      stake modifier does not depend on the shuffle before its sort.
    - Digests: the streaming classes compute the standard digests, however the
      input is cut; the optimised routines agree with the plain ones.
    - Formats: what is written is read back, and readers of canonical formats
      accept nothing else; Merkle proofs bind up to a collision.
    - Coins: a stack of caches refines one set of coins; disconnecting a block
      undoes connecting it, except for outputs without value.
    - Checks: transactions, inputs, locks and blocks are accepted exactly when
      they satisfy their rules, without assertion failures or overflow.
    - Scripts: evaluation ends, within the limits and without undefined
      behaviour; every flag is a soft fork; the signature hashes commit to what
      they cover, up to a collision among the messages hashed.
    - Caches and threads: the cuckoo cache never finds what was not inserted, a
      cached signature check answers what the check would, and the queue of
      script checks returns their conjunction and does return.
    - Headers: after any history of headers and of invalid blocks the index is a
      tree whose entries obey the rules for headers, and a header gets a verdict
      and is accepted exactly if it is acceptable, provided that the retarget on
      its predecessor asserts nothing ([Pow] shows that it can); a coinbase does
      not come back at another height, and a miner's commitment is accepted.
    - Stake: what the contextual checks of a block write, and which second uses
      of a kernel they notice.
    - Money: a block that is connected adds no more than its reward to the value
      of all coins and has all its scripts verified, so that no chain brings
      more than [MAX_MONEY] into circulation.

    ** Not modelled

    Networking, chain activation and mempool acceptance around the modelled
    checks, the wallet, the user interface, RPC, logging and files are input and
    output, or orchestrate the checks under locks, notifications and disk state.
    Elliptic curve arithmetic and the functions behind the proof-of-work hash are
    parameters, as are the writing of undo data and InvalidateBlock where
    ConnectBlock and the stake checks call them, and the adjusted time and the tip
    where headers are accepted.  Loading and writing the block index, private
    keys, and the text forms of keys, addresses and numbers are left out. *)
From stdpp Require Import prelude.
From Stdlib Require Import ZArith.

#[global] Open Scope Z_scope.
Coercion Z.of_nat : nat >-> Z.

(** ** Machine integers

    The C++ sources use fixed-width integers.  A [w]-bit unsigned value is a
    [Z] in [[0, 2^w)] and every operation that can leave that range is followed
    by the wrap-around the language prescribes. *)

(** Conversion to an unsigned type of [w] bits: reduction modulo [2^w]. *)
Definition uwrap (w x : Z) : Z := x mod 2 ^ w.
(** Conversion to a signed two's complement type of [w] bits. *)
Definition swrap (w x : Z) : Z := (x + 2 ^ (w - 1)) mod 2 ^ w - 2 ^ (w - 1).

Definition u8 (x : Z) : Z := uwrap 8 x.
Definition u16 (x : Z) : Z := uwrap 16 x.
Definition u32 (x : Z) : Z := uwrap 32 x.
Definition u64 (x : Z) : Z := uwrap 64 x.
Definition i32 (x : Z) : Z := swrap 32 x.
Definition i64 (x : Z) : Z := swrap 64 x.

(** [x] is representable as a [w]-bit unsigned (signed) integer. *)
Definition in_u (w x : Z) : Prop := 0 <= x < 2 ^ w.
Definition in_s (w x : Z) : Prop := - 2 ^ (w - 1) <= x < 2 ^ (w - 1).

#[export] Instance in_u_dec w x : Decision (in_u w x).
Proof. unfold in_u. apply _. Defined.
#[export] Instance in_s_dec w x : Decision (in_s w x).
Proof. unfold in_s. apply _. Defined.

(** ** Loops

    [for (i = lo; i < hi; i++) s = body(i, s)]. *)

Fixpoint for_loop {S} (n i : nat) (body : nat -> S -> S) (s : S) : S :=
  match n with
  | O => s
  | Datatypes.S n' => for_loop n' (Datatypes.S i) body (body i s)
  end.

Definition for_range {S} (lo hi : nat) (body : nat -> S -> S) (s : S) : S :=
  for_loop (hi - lo) lo body s.

(** ** Positional notation

    [le_val w l] is the number whose base-[2^w] digits are [l], least
    significant first; [le_digits w n x] are the [n] low digits of [x]. *)

Fixpoint le_val (w : Z) (l : list Z) : Z :=
  match l with
  | [] => 0
  | x :: r => x + 2 ^ w * le_val w r
  end.

Fixpoint le_digits (w : Z) (n : nat) (x : Z) : list Z :=
  match n with
  | O => []
  | S n' => x mod 2 ^ w :: le_digits w n' (x / 2 ^ w)
  end.

(** Reading an array cell; the sources stay within bounds. *)
Declare Scope nowp_scope.
Delimit Scope nowp_scope with nowp.
#[global] Open Scope nowp_scope.
Notation "l .[ i ]" := (nth i l 0) (at level 1, left associativity, format "l .[ i ]") : nowp_scope.

(** Every element is a [w]-bit digit. *)
Definition digits (w : Z) (l : list Z) : Prop := Forall (in_u w) l.

(** ** Automation *)

Create HintDb nowp.

Ltac simpl_wrap :=
  unfold u8, u16, u32, u64, i32, i64, uwrap, swrap, in_u, in_s in *.

(** Case analysis on the boolean comparison (or conditional) in the goal or in
    a hypothesis, turning comparisons into arithmetic facts. *)
Ltac cases_bool :=
  repeat match goal with
  | H : (_ <? _) = true |- _ => apply Z.ltb_lt in H
  | H : (_ <? _) = false |- _ => apply Z.ltb_ge in H
  | H : (_ <=? _) = true |- _ => apply Z.leb_le in H
  | H : (_ <=? _) = false |- _ => apply Z.leb_gt in H
  | H : (_ =? _) = true |- _ => apply Z.eqb_eq in H
  | H : (_ =? _) = false |- _ => apply Z.eqb_neq in H
  | H : (_ <? _)%nat = true |- _ => apply Nat.ltb_lt in H
  | H : (_ <? _)%nat = false |- _ => apply Nat.ltb_ge in H
  | H : (_ <=? _)%nat = true |- _ => apply Nat.leb_le in H
  | H : (_ <=? _)%nat = false |- _ => apply Nat.leb_gt in H
  | H : (_ =? _)%nat = true |- _ => apply Nat.eqb_eq in H
  | H : (_ =? _)%nat = false |- _ => apply Nat.eqb_neq in H
  | H : (_ && _) = true |- _ => apply andb_true_iff in H; destruct H
  | H : (_ || _) = false |- _ => apply orb_false_iff in H; destruct H
  | H : negb _ = true |- _ => apply negb_true_iff in H
  | H : negb _ = false |- _ => apply negb_false_iff in H
  end.

Ltac case_if :=
  match goal with
  | |- context [if ?b then _ else _] =>
      lazymatch type of b with
      | bool => let E := fresh "E" in destruct b eqn:E; cases_bool
      end
  end.

Ltac case_if_in H :=
  match type of H with
  | context [if ?b then _ else _] =>
      lazymatch type of b with
      | bool => let E := fresh "E" in destruct b eqn:E; cases_bool
      end
  end.

(** Running a bind whose argument has a value, by rewriting. *)
Lemma bind_some {A B} (x : A) (f : A -> option B) : (Some x ≫= f) = f x.
Proof. reflexivity. Qed.

Ltac bind := rewrite !bind_some; cbv beta.

(** ** Arithmetic lemmas *)

Lemma pow2_pos w : 0 <= w -> 0 < 2 ^ w.
Proof. intros. apply Z.pow_pos_nonneg; lia. Qed.

Lemma uwrap_range w x : 0 <= w -> 0 <= uwrap w x < 2 ^ w.
Proof. intros. unfold uwrap. apply Z.mod_pos_bound. by apply pow2_pos. Qed.

Lemma uwrap_small w x : in_u w x -> uwrap w x = x.
Proof. intros. unfold uwrap, in_u in *. by apply Z.mod_small. Qed.

Lemma u32_small x : in_u 32 x -> u32 x = x.
Proof. apply uwrap_small. Qed.
Lemma u64_small x : in_u 64 x -> u64 x = x.
Proof. apply uwrap_small. Qed.

Lemma swrap_small w x : 0 < w -> in_s w x -> swrap w x = x.
Proof.
  unfold swrap, in_s. intros Hw Hx.
  replace (2 ^ w) with (2 * 2 ^ (w - 1)) in *
    by (rewrite <- Z.pow_succ_r by lia; f_equal; lia).
  rewrite Z.mod_small; lia.
Qed.

Lemma swrap_range w x : 0 < w -> in_s w (swrap w x).
Proof.
  unfold swrap, in_s. intros Hw.
  assert (2 ^ w = 2 * 2 ^ (w - 1)) as E
    by (rewrite <- Z.pow_succ_r by lia; f_equal; lia).
  pose proof (Z.mod_pos_bound (x + 2 ^ (w - 1)) (2 ^ w)
                ltac:(apply pow2_pos; lia)). lia.
Qed.

#[export] Hint Resolve pow2_pos : nowp.

Lemma lor_disjoint_add a b : Z.land a b = 0 -> Z.lor a b = a + b.
Proof. intros H. pose proof (Z.add_lor_land a b). lia. Qed.

(** Or-ing a number below [2^s] with a multiple of [2^s] adds them. *)
Lemma lor_low_high a b s : 0 <= s -> 0 <= a < 2 ^ s -> Z.lor a (b ≪ s) = a + b * 2 ^ s.
Proof.
  intros Hs Ha. rewrite <- Z.shiftl_mul_pow2 by done. apply lor_disjoint_add.
  apply Z.bits_inj'. intros n Hn. rewrite Z.land_spec, Z.bits_0, Z.shiftl_spec by done.
  destruct (decide (n < s)).
  - by rewrite (Z.testbit_neg_r b) by lia; rewrite andb_false_r.
  - rewrite <- (Z.mod_small a (2 ^ s)) by done.
    by rewrite Z.mod_pow2_bits_high by lia.
Qed.

Lemma land_ones_mod x w : 0 <= w -> Z.land x (2 ^ w - 1) = x mod 2 ^ w.
Proof.
  intros. rewrite <- Z.land_ones by done. f_equal. rewrite Z.ones_equiv. lia.
Qed.

Lemma testbit_small x w n : in_u w x -> w <= n -> Z.testbit x n = false.
Proof.
  unfold in_u. intros [? ?] ?. destruct (decide (w < 0)).
  { rewrite Z.pow_neg_r in * by done. lia. }
  rewrite <- (Z.mod_small x (2 ^ w)) by done. apply Z.mod_pow2_bits_high. lia.
Qed.

Lemma in_u_bits w x :
  0 <= w -> 0 <= x -> (forall n, w <= n -> Z.testbit x n = false) -> in_u w x.
Proof.
  intros Hw Hx Hb. enough (x = x mod 2 ^ w) as -> by by apply uwrap_range.
  apply Z.bits_inj'. intros n Hn. destruct (decide (n < w)).
  - by rewrite Z.mod_pow2_bits_low.
  - rewrite Z.mod_pow2_bits_high by lia. apply Hb. lia.
Qed.

Lemma in_u_lxor w x y : 0 <= w -> in_u w x -> in_u w y -> in_u w (Z.lxor x y).
Proof.
  intros Hw Hx Hy. apply in_u_bits; [done| |].
  - apply Z.lxor_nonneg. unfold in_u in *. tauto.
  - intros n Hn. by rewrite Z.lxor_spec, (testbit_small x w), (testbit_small y w).
Qed.

Lemma in_u_lor w x y : 0 <= w -> in_u w x -> in_u w y -> in_u w (Z.lor x y).
Proof.
  intros Hw Hx Hy. apply in_u_bits; [done| |].
  - apply Z.lor_nonneg. unfold in_u in *. tauto.
  - intros n Hn. by rewrite Z.lor_spec, (testbit_small x w), (testbit_small y w).
Qed.

Lemma in_u_land w x y : 0 <= w -> in_u w x -> 0 <= y -> in_u w (Z.land x y).
Proof.
  intros Hw Hx Hy. apply in_u_bits; [done| |].
  - apply Z.land_nonneg. tauto.
  - intros n Hn. by rewrite Z.land_spec, (testbit_small x w).
Qed.

Lemma in_u_uwrap w x : 0 <= w -> in_u w (uwrap w x).
Proof. apply uwrap_range. Qed.

Lemma in_u_u8 x : in_u 8 (u8 x).
Proof. apply uwrap_range. lia. Qed.
Lemma in_u_u32 x : in_u 32 (u32 x).
Proof. apply uwrap_range. lia. Qed.
Lemma in_u_u64 x : in_u 64 (u64 x).
Proof. apply uwrap_range. lia. Qed.

Lemma in_u_shiftr w x n : 0 <= w -> in_u w x -> 0 <= n -> in_u w (x ≫ n).
Proof.
  unfold in_u. intros Hw Hx Hn. rewrite Z.shiftr_div_pow2 by done.
  pose proof (pow2_pos n Hn). split; [apply Z.div_pos; lia|].
  apply Z.div_lt_upper_bound; nia.
Qed.

Lemma in_u_0 w : 0 <= w -> in_u w 0.
Proof. intros. pose proof (pow2_pos w). unfold in_u. lia. Qed.

(** The low and high halves of a double word. *)
Lemma split32 n : n = Z.land n 0xffffffff + 2 ^ 32 * (n ≫ 32).
Proof.
  change 0xffffffff with (2 ^ 32 - 1). rewrite land_ones_mod by lia.
  rewrite Z.shiftr_div_pow2 by lia. pose proof (Z.div_mod n (2 ^ 32)). lia.
Qed.

Lemma low32_range n : in_u 32 (Z.land n 0xffffffff).
Proof.
  change 0xffffffff with (2 ^ 32 - 1). rewrite land_ones_mod by lia. apply uwrap_range. lia.
Qed.

#[export] Hint Resolve in_u_lxor in_u_lor in_u_uwrap in_u_u8 in_u_u32 in_u_u64 in_u_shiftr in_u_0 low32_range : nowp.

(** ** Loop rule *)

Lemma for_loop_ind {S} (P : nat -> S -> Prop) n lo body s :
  P lo s ->
  (forall i s, (lo <= i < lo + n)%nat -> P i s -> P (Datatypes.S i) (body i s)) ->
  P (lo + n)%nat (for_loop n lo body s).
Proof.
  revert lo s. induction n as [|n IH]; intros lo s H0 Hstep; simpl.
  - by rewrite Nat.add_0_r.
  - rewrite <- Nat.add_succ_comm. apply IH.
    + apply Hstep; [lia | done].
    + intros i s' Hi. apply Hstep. lia.
Qed.

Lemma for_range_ind {S} (P : nat -> S -> Prop) lo hi body s :
  (lo <= hi)%nat -> P lo s ->
  (forall i s, (lo <= i < hi)%nat -> P i s -> P (Datatypes.S i) (body i s)) ->
  P hi (for_range lo hi body s).
Proof.
  intros Hle H0 Hstep. unfold for_range.
  replace hi with (lo + (hi - lo))%nat at 1 by lia.
  apply for_loop_ind; [done|]. intros i s' Hi. apply Hstep. lia.
Qed.

Lemma for_range_ext {S} lo hi (f g : nat -> S -> S) s :
  (forall i s, f i s = g i s) -> for_range lo hi f s = for_range lo hi g s.
Proof.
  intros Hfg. unfold for_range. generalize (hi - lo)%nat as n. intros n.
  revert lo s. induction n as [|n IH]; intros lo s; simpl; [done|]. by rewrite Hfg, IH.
Qed.

(** ** Array cells *)

Lemma nth_insert (l : list Z) i j x :
  (i < length l)%nat -> (<[i := x]> l) .[ j ] = if decide (i = j) then x else l .[ j ].
Proof.
  intros Hi. rewrite !nth_lookup. case_decide; subst.
  - by rewrite list_lookup_insert_eq.
  - by rewrite list_lookup_insert_ne.
Qed.

Lemma nth_ge (l : list Z) i : (length l <= i)%nat -> l .[ i ] = 0.
Proof. apply nth_overflow. Qed.

Lemma nth_replicate_0 n i : (replicate n 0) .[ i ] = 0.
Proof. revert i. induction n; intros [|i]; simpl; auto. Qed.

(** ** Positional notation lemmas *)

Section positional.
Context (w : Z) (Hw : 0 < w).
#[local] Abbreviation B := (2 ^ w).

Lemma digits_lookup l i : digits w l -> in_u w (l .[ i ]).
Proof.
  intros Hl. rewrite nth_lookup. destruct (l !! i) as [x|] eqn:E; simpl.
  - by eapply Forall_lookup_1.
  - unfold in_u. pose proof (pow2_pos w ltac:(lia)). lia.
Qed.

Lemma le_val_bound l : digits w l -> 0 <= le_val w l < 2 ^ (w * length l).
Proof.
  induction l as [|x l IH]; simpl; intros H; [rewrite Z.mul_0_r; simpl; lia|].
  apply Forall_cons in H as [Hx Hl]. specialize (IH Hl). unfold in_u in Hx.
  replace (w * S (length l)) with (w + w * length l) by lia.
  rewrite Z.pow_add_r by lia. nia.
Qed.

Lemma le_val_app l1 l2 : le_val w (l1 ++ l2) = le_val w l1 + 2 ^ (w * length l1) * le_val w l2.
Proof.
  induction l1 as [|x l IH]; simpl; [rewrite Z.mul_0_r; simpl; lia|].
  rewrite IH. replace (w * S (length l)) with (w + w * length l) by lia.
  rewrite Z.pow_add_r by lia. lia.
Qed.

Lemma le_val_insert l i x :
  (i < length l)%nat ->
  le_val w (<[i := x]> l) = le_val w l + (x - l .[ i ]) * 2 ^ (w * i).
Proof.
  revert i. induction l as [|y l IH]; intros [|i] Hi; simpl in *; try lia.
  - rewrite Z.mul_0_r. simpl. lia.
  - rewrite IH by lia.
    replace (w * S i) with (w + w * i) by lia. rewrite Z.pow_add_r by lia. lia.
Qed.

Lemma le_val_replicate_0 n : le_val w (replicate n 0) = 0.
Proof. induction n; simpl; lia. Qed.

Lemma le_val_take_S l i :
  (i < length l)%nat -> le_val w (take (S i) l) = le_val w (take i l) + l .[ i ] * 2 ^ (w * i).
Proof.
  intros Hi. destruct (lookup_lt_is_Some_2 l i Hi) as [x Hx].
  rewrite (take_S_r _ _ _ Hx), le_val_app. simpl.
  rewrite nth_lookup, Hx, length_take_le by lia. simpl. lia.
Qed.

Lemma digits_insert l i x : digits w l -> in_u w x -> digits w (<[i := x]> l).
Proof. intros. by apply Forall_insert. Qed.

Lemma digits_replicate n : digits w (replicate n 0).
Proof. apply Forall_replicate. unfold in_u. pose proof (pow2_pos w ltac:(lia)). lia. Qed.

Lemma digits_take n l : digits w l -> digits w (take n l).
Proof. apply Forall_take. Qed.

Lemma digits_app l1 l2 : digits w (l1 ++ l2) <-> digits w l1 /\ digits w l2.
Proof. apply Forall_app. Qed.

(** Bit [w*i + r] of the number is bit [r] of digit [i]. *)
Lemma le_val_testbit l n :
  digits w l -> 0 <= n ->
  Z.testbit (le_val w l) n = Z.testbit (l .[ Z.to_nat (n / w) ]) (n mod w).
Proof.
  revert n. induction l as [|x l IH]; intros n Hl Hn; simpl.
  - rewrite Z.bits_0. destruct (Z.to_nat _); by rewrite Z.bits_0.
  - apply Forall_cons in Hl as [Hx Hl].
    replace (x + B * le_val w l) with (Z.lor x (le_val w l ≪ w))
      by (rewrite lor_low_high by (try done; unfold in_u in *; lia); lia).
    rewrite Z.lor_spec, Z.shiftl_spec by lia.
    destruct (decide (n < w)).
    + rewrite (Z.testbit_neg_r _ (n - w)) by lia. rewrite orb_false_r.
      rewrite Z.div_small, Z.mod_small by lia. done.
    + rewrite (testbit_small x w n) by (done || lia). simpl.
      rewrite IH by (done || lia).
      replace (n - w) with (n + (-1) * w) by lia.
      rewrite Z.div_add, Z.mod_add by lia.
      assert (1 <= n / w) by (apply Z.div_le_lower_bound; lia).
      replace (Z.to_nat (n / w)) with (S (Z.to_nat (n / w + -1))) by lia. done.
Qed.

Lemma le_digits_length n x : length (le_digits w n x) = n.
Proof. revert x. induction n; intros; simpl; congruence. Qed.

Lemma le_digits_digits n x : digits w (le_digits w n x).
Proof.
  revert x. induction n; intros x; simpl; [constructor|].
  constructor; [apply uwrap_range; lia | apply IHn].
Qed.

Lemma le_val_digits n x : le_val w (le_digits w n x) = x mod 2 ^ (w * n).
Proof.
  revert x. induction n as [|n IH]; intros x; simpl.
  - rewrite Z.mul_0_r. change (2 ^ 0) with 1. by rewrite Z.mod_1_r.
  - rewrite IH. replace (w * S n) with (w + w * n) by lia.
    rewrite Z.pow_add_r by lia.
    pose proof (pow2_pos w ltac:(lia)). pose proof (pow2_pos (w * n) ltac:(lia)).
    rewrite (Z.rem_mul_r x (2 ^ w) (2 ^ (w * n))) by lia. lia.
Qed.

Lemma le_digits_val l : digits w l -> le_digits w (length l) (le_val w l) = l.
Proof.
  induction l as [|x l IH]; intros Hl; simpl; [done|].
  apply Forall_cons in Hl as [Hx Hl]. unfold in_u in Hx.
  rewrite (Z.mul_comm B), Z.mod_add, Z.mod_small, Z.div_add, Z.div_small, Z.add_0_l by lia.
  by rewrite IH.
Qed.

Lemma le_val_take l n : digits w l -> le_val w (take n l) = le_val w l mod 2 ^ (w * n).
Proof.
  intros Hl. pose proof (le_val_bound (take n l) (digits_take n l Hl)) as Hb. rewrite length_take in Hb.
  pose proof (pow2_pos (w * n) ltac:(lia)). destruct (decide (n <= length l)%nat).
  - rewrite Nat.min_l in Hb by lia. rewrite <- (take_drop n l) at 2.
    rewrite le_val_app, length_take, Nat.min_l, (Z.mul_comm (2 ^ _)), Z.mod_add by lia.
    symmetry. by apply Z.mod_small.
  - rewrite take_ge in * by lia. symmetry. apply Z.mod_small. rewrite Nat.min_r in Hb by lia.
    split; [lia|]. eapply Z.lt_le_trans; [apply Hb|]. apply Z.pow_le_mono_r; nia.
Qed.

Lemma le_val_inj l1 l2 :
  digits w l1 -> digits w l2 -> length l1 = length l2 -> le_val w l1 = le_val w l2 -> l1 = l2.
Proof.
  intros H1 H2 Hlen Hv. rewrite <- (le_digits_val l1), <- (le_digits_val l2) by done.
  by rewrite Hlen, Hv.
Qed.

End positional.

Lemma le_digits_mod w (n : nat) x : 0 < w -> le_digits w n (x mod 2 ^ (w * n)) = le_digits w n x.
Proof.
  intros Hw. apply (le_val_inj w); rewrite ?le_digits_length; auto using le_digits_digits.
  rewrite !le_val_digits by done. apply Z.mod_mod. pose proof (pow2_pos (w * n)). lia.
Qed.

#[export] Hint Resolve digits_lookup digits_insert digits_replicate digits_take
  le_digits_digits : nowp.

(** ** Collisions

    Two different elements of a list with the same image. *)
Definition collides {A B} (f : A -> B) (l : list A) : Prop := exists x y, x ∈ l /\ y ∈ l /\ x <> y /\ f x = f y.

Lemma collides_inj {A B} `{EqDecision A} (f : A -> B) l x y : x ∈ l -> y ∈ l -> f x = f y -> x = y \/ collides f l.
Proof. intros Hx Hy E. destruct (decide (x = y)); [by left|right]. by exists x, y. Qed.

Lemma collides_mono {A B} (f : A -> B) l l' : (forall x, x ∈ l -> x ∈ l') -> collides f l -> collides f l'.
Proof. intros Hl (x & y & Hx & Hy & H). exists x, y. auto. Qed.
