(* ===== verification/ArithUint256.v ===== *)
(** * Big unsigned integers ([arith_uint256.h], [arith_uint256.cpp])

    [base_uint<BITS>] keeps [WIDTH = BITS/32] limbs [pn] of 32 bits, least
    significant first; a value of the class is modelled by the list [pn].  Each
    operation is the loop of the source over the limbs; [le_val 32 pn] is the
    number the limbs denote, and the theorems say that every operation computes
    the arithmetic (or bitwise) operation on that number modulo [2^BITS].  The
    compact target encoding of [arith_uint256] and the conversions to and from
    the opaque [uint256] blob follow. *)
From stdpp Require Import prelude.
From S2P Require Import Prelude.

Module BaseUint.
Section ops.
Context (WIDTH : nat).

(** The default constructor. *)
Definition zero : list Z := replicate WIDTH 0.

(** [base_uint(uint64_t b)] and [operator=(uint64_t b)]. *)
Definition of_u64 (b : Z) : list Z :=
  u32 b :: u32 (b ≫ 32) :: replicate (WIDTH - 2) 0.

(** [operator~]. *)
Definition bnot (pn : list Z) : list Z :=
  for_range 0 WIDTH (fun i ret => <[i := u32 (Z.lnot pn.[i])]> ret) zero.

(** Prefix [operator++]: [while (i < WIDTH && ++pn[i] == 0) i++]. *)
Fixpoint incr_loop (fuel i : nat) (pn : list Z) : list Z :=
  match fuel with
  | O => pn
  | S fuel' =>
      let pn := <[i := u32 (pn.[i] + 1)]> pn in
      if pn.[i] =? 0 then incr_loop fuel' (S i) pn else pn
  end.
Definition incr (pn : list Z) : list Z := incr_loop WIDTH 0 pn.

(** Prefix [operator--]. *)
Fixpoint decr_loop (fuel i : nat) (pn : list Z) : list Z :=
  match fuel with
  | O => pn
  | S fuel' =>
      let pn := <[i := u32 (pn.[i] - 1)]> pn in
      if pn.[i] =? 0xffffffff then decr_loop fuel' (S i) pn else pn
  end.
Definition decr (pn : list Z) : list Z := decr_loop WIDTH 0 pn.

(** Unary [operator-]. *)
Definition opp (pn : list Z) : list Z := incr (bnot pn).

(** [operator^=], [operator&=] and [operator|=] with another [base_uint]. *)
Definition xor_assign (pn b : list Z) : list Z :=
  for_range 0 WIDTH (fun i pn => <[i := Z.lxor pn.[i] b.[i]]> pn) pn.
Definition and_assign (pn b : list Z) : list Z :=
  for_range 0 WIDTH (fun i pn => <[i := Z.land pn.[i] b.[i]]> pn) pn.
Definition or_assign (pn b : list Z) : list Z :=
  for_range 0 WIDTH (fun i pn => <[i := Z.lor pn.[i] b.[i]]> pn) pn.

(** [operator^=(uint64_t)] and [operator|=(uint64_t)]. *)
Definition xor_u64_assign (pn : list Z) (b : Z) : list Z :=
  let pn := <[0%nat := Z.lxor pn.[0] (u32 b)]> pn in
  <[1%nat := Z.lxor pn.[1] (u32 (b ≫ 32))]> pn.
Definition or_u64_assign (pn : list Z) (b : Z) : list Z :=
  let pn := <[0%nat := Z.lor pn.[0] (u32 b)]> pn in
  <[1%nat := Z.lor pn.[1] (u32 (b ≫ 32))]> pn.

(** [operator<<=]. *)
Definition shl_assign (a : list Z) (shift : Z) : list Z :=
  let k := Z.to_nat (shift / 32) in
  let shift := shift mod 32 in
  for_range 0 WIDTH (fun i pn =>
    let pn :=
      if (i + k + 1 <? WIDTH)%nat && negb (shift =? 0)
      then <[(i + k + 1)%nat := Z.lor pn.[i + k + 1] (a.[i] ≫ (32 - shift))]> pn
      else pn in
    if (i + k <? WIDTH)%nat
    then <[(i + k)%nat := Z.lor pn.[i + k] (u32 (a.[i] ≪ shift))]> pn
    else pn) zero.

(** [operator>>=]. *)
Definition shr_assign (a : list Z) (shift : Z) : list Z :=
  let k := Z.to_nat (shift / 32) in
  let shift := shift mod 32 in
  for_range 0 WIDTH (fun i pn =>
    let pn :=
      if (k + 1 <=? i)%nat && negb (shift =? 0)
      then <[(i - k - 1)%nat := Z.lor pn.[i - k - 1] (u32 (a.[i] ≪ (32 - shift)))]> pn
      else pn in
    if (k <=? i)%nat
    then <[(i - k)%nat := Z.lor pn.[i - k] (a.[i] ≫ shift)]> pn
    else pn) zero.

(** [operator+=]. *)
Definition add_assign (pn b : list Z) : list Z :=
  fst (for_range 0 WIDTH (fun i '(pn, carry) =>
    let n := u64 (carry + pn.[i] + b.[i]) in
    (<[i := Z.land n 0xffffffff]> pn, n ≫ 32)) (pn, 0)).

(** [operator-=]. *)
Definition sub_assign (pn b : list Z) : list Z := add_assign pn (opp b).

(** [operator+=(uint64_t)] and [operator-=(uint64_t)]. *)
Definition add_u64_assign (pn : list Z) (b64 : Z) : list Z := add_assign pn (of_u64 b64).
Definition sub_u64_assign (pn : list Z) (b64 : Z) : list Z := add_assign pn (opp (of_u64 b64)).

(** [operator*=(uint32_t)]. *)
Definition mul_u32_assign (pn : list Z) (b32 : Z) : list Z :=
  fst (for_range 0 WIDTH (fun i '(pn, carry) =>
    let n := u64 (carry + u64 (b32 * pn.[i])) in
    (<[i := Z.land n 0xffffffff]> pn, n ≫ 32)) (pn, 0)).

(** [operator*=(const base_uint&)]. *)
Definition mul_assign (pn b : list Z) : list Z :=
  for_range 0 WIDTH (fun j a =>
    fst (for_range 0 (WIDTH - j) (fun i '(a, carry) =>
      let n := u64 (carry + a.[i + j] + u64 (pn.[j] * b.[i])) in
      (<[(i + j)%nat := Z.land n 0xffffffff]> a, n ≫ 32)) (a, 0))) zero.

(** [CompareTo]: [cmp_loop n] visits the limbs [n-1], ..., [0]. *)
Fixpoint cmp_loop (n : nat) (pn b : list Z) : Z :=
  match n with
  | O => 0
  | S i =>
      if pn.[i] <? b.[i] then -1
      else if b.[i] <? pn.[i] then 1
      else cmp_loop i pn b
  end.
Definition CompareTo (pn b : list Z) : Z := cmp_loop WIDTH pn b.

(** [EqualTo]: the loop visits the limbs [WIDTH-1], ..., [2]. *)
Fixpoint high_limbs_zero (n : nat) (pn : list Z) : bool :=
  match n with
  | O => true
  | S i => if (2 <=? i)%nat then if negb (pn.[i] =? 0) then false else high_limbs_zero i pn
           else true
  end.
Definition EqualTo (pn : list Z) (b : Z) : bool :=
  if negb (high_limbs_zero WIDTH pn) then false
  else if negb (pn.[1] =? b ≫ 32) then false
  else if negb (pn.[0] =? Z.land b 0xffffffff) then false
  else true.

(** [bits]: position of the highest bit set plus one. *)
Fixpoint limb_bits (nbits : nat) (x : Z) (pos : nat) : Z :=
  match nbits with
  | O => 32 * pos + 1
  | S nb => if negb (Z.land x (u32 (1 ≪ nbits)) =? 0) then 32 * pos + nbits + 1
            else limb_bits nb x pos
  end.
Fixpoint bits_loop (n : nat) (pn : list Z) : Z :=
  match n with
  | O => 0
  | S pos => if negb (pn.[pos] =? 0) then limb_bits 31 pn.[pos] pos else bits_loop pos pn
  end.
Definition bits (pn : list Z) : Z := bits_loop WIDTH pn.

(** [operator/=]: long division, one quotient bit per iteration; [None] is the
    exception [uint_error("Division by zero")].  [n] counts the iterations
    left, the loop variable [shift] is [n - 1]. *)
Fixpoint div_loop (n : nat) (pn num div : list Z) : list Z :=
  match n with
  | O => pn
  | S shift =>
      let '(num, pn) :=
        if 0 <=? CompareTo num div
        then (sub_assign num div,
              <[(shift / 32)%nat :=
                 Z.lor pn.[shift / 32] (u32 (1 ≪ Z.land shift 31))]> pn)
        else (num, pn) in
      div_loop shift pn num (shr_assign div 1)
  end.
Definition div_assign (pn b : list Z) : option (list Z) :=
  let div := b in
  let num := pn in
  let pn := of_u64 0 in
  let num_bits := bits num in
  let div_bits := bits div in
  if div_bits =? 0 then None
  else if num_bits <? div_bits then Some pn
  else
    let shift := num_bits - div_bits in
    let div := shl_assign div shift in
    Some (div_loop (Z.to_nat (shift + 1)) pn num div).

(** [GetLow64]. *)
Definition GetLow64 (pn : list Z) : Z := Z.lor pn.[0] (u64 (pn.[1] ≪ 32)).

End ops.

(** The comparison operators. *)
Definition ltb (W : nat) (a b : list Z) : bool := CompareTo W a b <? 0.
Definition leb (W : nat) (a b : list Z) : bool := CompareTo W a b <=? 0.
Definition gtb (W : nat) (a b : list Z) : bool := 0 <? CompareTo W a b.
Definition geb (W : nat) (a b : list Z) : bool := 0 <=? CompareTo W a b.
(** [operator==] is a [memcmp] of the limbs. *)
Definition eqb (a b : list Z) : bool := bool_decide (a = b).

(** The class invariant: [W] limbs of 32 bits each. *)
Definition wf (W : nat) (pn : list Z) : Prop := length pn = W /\ digits 32 pn.

(** ** Arithmetic meaning of the operations *)

Section facts.
Context (W : nat).
#[local] Abbreviation val := (le_val 32).
#[local] Abbreviation M := (2 ^ (32 * W)).

Lemma wf_bound pn : wf W pn -> 0 <= val pn < M.
Proof. intros [Hlen Hd]. pose proof (le_val_bound 32 ltac:(lia) pn Hd). by rewrite Hlen in *. Qed.

Lemma wf_nth pn i : wf W pn -> in_u 32 pn.[i].
Proof. intros [_ Hd]. apply digits_lookup; [lia|done]. Qed.

Lemma wf_insert pn i x : wf W pn -> in_u 32 x -> wf W (<[i := x]> pn).
Proof. intros [Hl Hd] Hx. split; [by rewrite length_insert | by apply digits_insert]. Qed.

Lemma wf_zero : wf W (zero W).
Proof. split; [apply length_replicate | apply digits_replicate; lia]. Qed.

Lemma val_zero : val (zero W) = 0.
Proof. apply le_val_replicate_0. lia. Qed.

Lemma wf_inj a b : wf W a -> wf W b -> val a = val b -> a = b.
Proof. intros [? ?] [? ?] ?. apply (le_val_inj 32); [lia|done|done|congruence|done]. Qed.

(** Reduction to [[0, M)]: a bounded number congruent to [x] is [x mod M]. *)
Lemma mod_carry pn x c : wf W pn -> val pn + c * M = x -> val pn = x mod M.
Proof.
  intros Hwf <-. rewrite Z.mod_add by (pose proof (wf_bound _ Hwf); lia).
  symmetry. apply Z.mod_small. by apply wf_bound.
Qed.

Hint Resolve wf_zero wf_insert wf_nth : nowp.

(** A loop that rewrites every cell in turn. *)
Lemma for_cells (f : nat -> Z -> Z) pn :
  length pn = W ->
  let r := for_range 0 W (fun i p => <[i := f i p.[i]]> p) pn in
  length r = W /\ forall j, r.[j] = if (j <? W)%nat then f j pn.[j] else pn.[j].
Proof.
  intros Hlen. cbv zeta.
  apply (for_range_ind (fun i r => length r = W /\
     forall j, r.[j] = if (j <? i)%nat then f j pn.[j] else pn.[j])); [lia|done|].
  intros i r Hi [Hl Hr]. split; [by rewrite length_insert|]. intros j.
  rewrite nth_insert by lia. rewrite !Hr. case_decide; subst; repeat case_if; done || lia.
Qed.

Lemma wf_cells r : length r = W -> (forall j, (j < W)%nat -> in_u 32 r.[j]) -> wf W r.
Proof.
  intros Hl H. split; [done|]. apply Forall_lookup. intros i x Hx.
  specialize (H i). rewrite nth_lookup, Hx in H. apply H. rewrite <- Hl. by eapply lookup_lt_Some.
Qed.

(** Bitwise operations act on the bits of the number. *)
Lemma cells_bits (op : Z -> Z -> Z) (bop : bool -> bool -> bool) a b r :
  (forall x y n, 0 <= n -> Z.testbit (op x y) n = bop (Z.testbit x n) (Z.testbit y n)) ->
  bop false false = false ->
  wf W a -> wf W b -> wf W r -> (forall j, (j < W)%nat -> r.[j] = op a.[j] b.[j]) ->
  val r = op (val a) (val b).
Proof.
  intros Hop H0 [Hla Ha] [Hlb Hb] [Hlr Hr] Hcell. apply Z.bits_inj'. intros n Hn.
  rewrite Hop, !le_val_testbit by (done || lia).
  set (j := Z.to_nat (n / 32)). destruct (decide (j < W)%nat).
  - rewrite Hcell, Hop by (done || (apply Z.mod_pos_bound; lia)). done.
  - by rewrite !nth_ge, !Z.bits_0 by lia.
Qed.

Lemma cells_op (op : Z -> Z -> Z) (bop : bool -> bool -> bool) a b :
  (forall x y n, 0 <= n -> Z.testbit (op x y) n = bop (Z.testbit x n) (Z.testbit y n)) ->
  bop false false = false ->
  (forall x y, in_u 32 x -> in_u 32 y -> in_u 32 (op x y)) ->
  wf W a -> wf W b ->
  let r := for_range 0 W (fun i p => <[i := op p.[i] b.[i]]> p) a in
  wf W r /\ val r = op (val a) (val b).
Proof.
  intros Hop H0 Hrange Ha Hb r.
  destruct (for_cells (fun i x => op x b.[i]) a (proj1 Ha)) as [Hl Hr]. fold r in Hl, Hr.
  assert (Hcell : forall j, (j < W)%nat -> r.[j] = op a.[j] b.[j]).
  { intros j Hj. rewrite Hr. apply Nat.ltb_lt in Hj. by rewrite Hj. }
  assert (Hwf : wf W r).
  { apply wf_cells; [done|]. intros j Hj. rewrite Hcell by done. auto with nowp. }
  split; [done|]. by eapply cells_bits.
Qed.

Lemma xor_assign_spec a b : wf W a -> wf W b ->
  wf W (xor_assign W a b) /\ val (xor_assign W a b) = Z.lxor (val a) (val b).
Proof. apply (cells_op _ xorb); [intros; apply Z.lxor_spec|done|]. auto with nowp lia. Qed.

Lemma or_assign_spec a b : wf W a -> wf W b ->
  wf W (or_assign W a b) /\ val (or_assign W a b) = Z.lor (val a) (val b).
Proof. apply (cells_op _ orb); [intros; apply Z.lor_spec|done|]. auto with nowp lia. Qed.

Lemma and_assign_spec a b : wf W a -> wf W b ->
  wf W (and_assign W a b) /\ val (and_assign W a b) = Z.land (val a) (val b).
Proof.
  apply (cells_op _ andb); [intros; apply Z.land_spec|done|].
  intros x y Hx Hy. apply in_u_land; [lia|done|apply Hy].
Qed.

Lemma u32_lnot x : in_u 32 x -> u32 (Z.lnot x) = 2 ^ 32 - 1 - x.
Proof.
  intros Hx. unfold u32, uwrap. pose proof (Z.add_lnot_diag x). unfold in_u in Hx.
  replace (Z.lnot x) with ((2 ^ 32 - 1 - x) + (-1) * 2 ^ 32) by lia.
  rewrite Z.mod_add by lia. apply Z.mod_small. lia.
Qed.

Lemma pow_limb (i : nat) : 2 ^ (32 * S i) = 2 ^ 32 * 2 ^ (32 * i).
Proof. rewrite <- Z.pow_add_r by lia. f_equal. lia. Qed.

Lemma bnot_spec a : wf W a -> wf W (bnot W a) /\ val (bnot W a) = M - 1 - val a.
Proof.
  intros Ha. destruct Ha as [Hla Hda] eqn:E. clear E.
  enough (wf W (bnot W a) /\ val (bnot W a) = M - 1 - val (take W a) /\
          forall j : nat, (W <= j)%nat -> (bnot W a).[j] = 0) as (? & Hv & _).
  { split; [done|]. rewrite Hv, take_ge by lia. done. }
  unfold bnot.
  apply (for_range_ind (fun i r => wf W r /\ val r = 2 ^ (32 * i) - 1 - val (take i a) /\
     forall j : nat, (i <= j)%nat -> r.[j] = 0)); [lia| |].
  { split; [auto with nowp|]. rewrite val_zero. simpl. split; [lia|].
    intros. apply nth_replicate_0. }
  intros i r Hi (Hwf & Hv & Hz).
  pose proof (wf_nth a i Ha) as Hai. split; [auto with nowp|]. split.
  - rewrite le_val_insert by (lia || by rewrite (proj1 Hwf); lia).
    rewrite Hz, le_val_take_S, u32_lnot, pow_limb by (done || lia). lia.
  - intros j Hj. rewrite nth_insert by (rewrite (proj1 Hwf); lia).
    case_decide; [lia|]. apply Hz. lia.
Qed.

Lemma incr_loop_spec fuel i a :
  (i + fuel)%nat = W -> wf W a ->
  wf W (incr_loop fuel i a) /\ val (incr_loop fuel i a) = (val a + 2 ^ (32 * i)) mod M.
Proof.
  revert i a. induction fuel as [|fuel IH]; intros i a Hi Ha; simpl.
  - split; [done|]. replace i with W by lia. apply mod_carry with (c := 1); [done|lia].
  - pose proof (wf_nth a i Ha) as Hai. destruct Ha as [Hl Hd] eqn:E. clear E.
    assert (Hwf : wf W (<[i := u32 (a.[i] + 1)]> a)) by auto with nowp lia.
    assert (Hv := le_val_insert 32 ltac:(lia) a i (u32 (a.[i] + 1)) ltac:(lia)).
    rewrite nth_insert by lia. rewrite decide_True by done.
    unfold in_u in Hai. destruct (decide (a.[i] = 2 ^ 32 - 1)) as [Heq|Hne].
    + assert (u32 (a.[i] + 1) = 0) as E0 by (rewrite Heq; done). rewrite E0 in *. simpl.
      destruct (IH (S i) (<[i := 0]> a)) as [Hwf' Hv']; [lia|done|].
      split; [done|]. rewrite Hv', Hv, pow_limb, Heq. f_equal. lia.
    + assert (u32 (a.[i] + 1) = a.[i] + 1) as E1
        by (apply uwrap_small; unfold in_u; lia). rewrite E1 in *.
      destruct (a.[i] + 1 =? 0) eqn:E; cases_bool; [lia|]. split; [done|].
      apply mod_carry with (c := 0); [done|]. rewrite Hv. lia.
Qed.

Lemma incr_spec a : wf W a -> wf W (incr W a) /\ val (incr W a) = (val a + 1) mod M.
Proof. intros. apply (incr_loop_spec W 0); [lia|done]. Qed.

Lemma decr_loop_spec fuel i a :
  (i + fuel)%nat = W -> wf W a ->
  wf W (decr_loop fuel i a) /\ val (decr_loop fuel i a) = (val a - 2 ^ (32 * i)) mod M.
Proof.
  revert i a. induction fuel as [|fuel IH]; intros i a Hi Ha; simpl.
  - split; [done|]. replace i with W by lia. apply mod_carry with (c := -1); [done|lia].
  - pose proof (wf_nth a i Ha) as Hai. destruct Ha as [Hl Hd] eqn:E. clear E.
    assert (Hwf : wf W (<[i := u32 (a.[i] - 1)]> a)) by auto with nowp lia.
    assert (Hv := le_val_insert 32 ltac:(lia) a i (u32 (a.[i] - 1)) ltac:(lia)).
    rewrite nth_insert by lia. rewrite decide_True by done.
    unfold in_u in Hai. destruct (decide (a.[i] = 0)) as [Heq|Hne].
    + assert (u32 (a.[i] - 1) = 4294967295) as E0 by (rewrite Heq; done). rewrite E0 in *. simpl.
      destruct (IH (S i) (<[i := 4294967295]> a)) as [Hwf' Hv']; [lia|done|].
      split; [done|]. rewrite Hv', Hv, pow_limb, Heq. f_equal. lia.
    + assert (u32 (a.[i] - 1) = a.[i] - 1) as E1
        by (apply uwrap_small; unfold in_u; lia). rewrite E1 in *.
      destruct (a.[i] - 1 =? 4294967295) eqn:E; cases_bool; [lia|]. split; [done|].
      apply mod_carry with (c := 0); [done|]. rewrite Hv. lia.
Qed.

Lemma decr_spec a : wf W a -> wf W (decr W a) /\ val (decr W a) = (val a - 1) mod M.
Proof. intros. apply (decr_loop_spec W 0); [lia|done]. Qed.

Lemma opp_spec a : wf W a -> wf W (opp W a) /\ val (opp W a) = (- val a) mod M.
Proof.
  intros Ha. destruct (bnot_spec a Ha) as [Hwf Hv]. destruct (incr_spec _ Hwf) as [Hwf' Hv'].
  split; [done|]. unfold opp. rewrite Hv', Hv.
  replace (M - 1 - val a + 1) with (- val a + 1 * M) by lia.
  apply Z.mod_add. pose proof (wf_bound _ Ha). lia.
Qed.

(** One step of a carry loop: the low half is stored at [i], the high half is
    carried. *)
Lemma carry_step r i n c :
  wf W r -> (i < W)%nat -> n = c + r.[i] -> 0 <= n ->
  wf W (<[i := Z.land n 0xffffffff]> r) /\
  val (<[i := Z.land n 0xffffffff]> r) + (n ≫ 32) * 2 ^ (32 * S i)
    = val r + c * 2 ^ (32 * i).
Proof.
  intros Hr Hi Hn Hpos. split; [auto with nowp|].
  rewrite le_val_insert by (lia || by rewrite (proj1 Hr)).
  rewrite pow_limb. pose proof (split32 n). nia.
Qed.

Lemma shiftr32_bound n k : 0 <= n < 2 ^ 32 * k -> 0 <= n ≫ 32 < k.
Proof.
  intros. rewrite Z.shiftr_div_pow2 by lia. split; [apply Z.div_pos; lia|].
  apply Z.div_lt_upper_bound; lia.
Qed.

Lemma add_assign_spec a b :
  wf W a -> wf W b ->
  wf W (add_assign W a b) /\ val (add_assign W a b) = (val a + val b) mod M.
Proof.
  intros Ha Hb. unfold add_assign.
  set (body := fun (i : nat) '(pn, carry) => _).
  enough (let '(r, c) := for_range 0 W body (a, 0) in
    wf W r /\ 0 <= c < 2 /\ val r + c * 2 ^ (32 * W) = val a + val (take W b) /\
    forall j : nat, (W <= j)%nat -> r.[j] = a.[j]) as H.
  { destruct (for_range 0 W body (a, 0)) as [r c]. simpl.
    destruct H as (Hr & _ & Hv & _). split; [done|].
    rewrite take_ge in Hv by (rewrite (proj1 Hb); lia). by eapply mod_carry. }
  apply (for_range_ind (fun i '(r, c) => wf W r /\ 0 <= c < 2 /\
    val r + c * 2 ^ (32 * i) = val a + val (take i b) /\
    forall j : nat, (i <= j)%nat -> r.[j] = a.[j])); [lia|split; [done|simpl; split_and!; auto; lia]|].
  intros i [r c] Hi (Hr & Hc & Hv & Hsame). unfold body.
  pose proof (wf_nth a i Ha) as Hai. pose proof (wf_nth b i Hb) as Hbi. unfold in_u in Hai, Hbi.
  rewrite (Hsame i) by lia. rewrite u64_small by (unfold in_u; lia).
  destruct (carry_step r i (c + a.[i] + b.[i]) (c + b.[i])) as [Hwf Hstep];
    [done|lia|rewrite Hsame by lia; lia|lia|].
  split; [done|]. split; [apply shiftr32_bound; lia|]. split.
  - rewrite Hstep, le_val_take_S by (rewrite ?(proj1 Hb); lia). lia.
  - intros j Hj. rewrite nth_insert by (rewrite (proj1 Hr); lia).
    case_decide; [lia|]. apply Hsame. lia.
Qed.

Lemma sub_assign_spec a b :
  wf W a -> wf W b ->
  wf W (sub_assign W a b) /\ val (sub_assign W a b) = (val a - val b) mod M.
Proof.
  intros Ha Hb. destruct (opp_spec b Hb) as [Ho Hov].
  destruct (add_assign_spec a _ Ha Ho) as [Hwf Hv]. split; [done|].
  unfold sub_assign. rewrite Hv, Hov. rewrite Z.add_mod_idemp_r; [f_equal; lia|].
  pose proof (wf_bound _ Ha). lia.
Qed.

Lemma add_sub_u64_spec a b : (2 <= W)%nat -> wf W a -> in_u 64 b -> wf W (of_u64 W b) /\ val (of_u64 W b) = b.
Proof.
  intros HW Ha Hb. split.
  - split; [simpl; rewrite length_replicate; lia|].
    repeat constructor; try apply in_u_u32. apply digits_replicate. lia.
  - unfold of_u64. simpl. rewrite le_val_replicate_0 by lia. unfold u32, uwrap.
    rewrite Z.shiftr_div_pow2 by lia. unfold in_u in Hb.
    rewrite (Z.mod_small (b / 2 ^ 32)) by (split; [apply Z.div_pos; lia|apply Z.div_lt_upper_bound; lia]).
    pose proof (Z.div_mod b (2 ^ 32)). lia.
Qed.

Lemma mul32_bound x y : in_u 32 x -> in_u 32 y -> 0 <= x * y <= (2 ^ 32 - 1) * (2 ^ 32 - 1).
Proof. unfold in_u. intros. split; [nia|]. apply Z.mul_le_mono_nonneg; lia. Qed.

Lemma mul_u32_assign_spec a b :
  wf W a -> in_u 32 b ->
  wf W (mul_u32_assign W a b) /\ val (mul_u32_assign W a b) = (val a * b) mod M.
Proof.
  intros Ha Hb. unfold mul_u32_assign.
  set (body := fun (i : nat) '(pn, carry) => _).
  enough (let '(r, c) := for_range 0 W body (a, 0) in
    wf W r /\ 0 <= c < 2 ^ 32 /\
    val r + c * 2 ^ (32 * W) = val a + val (take W a) * (b - 1) /\
    forall j : nat, (W <= j)%nat -> r.[j] = a.[j]) as H.
  { destruct (for_range 0 W body (a, 0)) as [r c]. simpl.
    destruct H as (Hr & _ & Hv & _). split; [done|].
    rewrite take_ge in Hv by (rewrite (proj1 Ha); lia).
    apply mod_carry with (c := c); [done|lia]. }
  apply (for_range_ind (fun i '(r, c) => wf W r /\ 0 <= c < 2 ^ 32 /\
    val r + c * 2 ^ (32 * i) = val a + val (take i a) * (b - 1) /\
    forall j : nat, (i <= j)%nat -> r.[j] = a.[j])); [lia|split; [done|simpl; split_and!; auto; lia]|].
  intros i [r c] Hi (Hr & Hc & Hv & Hsame). unfold body.
  pose proof (mul32_bound b a.[i] Hb (wf_nth a i Ha)) as Hba.
  rewrite (Hsame i) by lia.
  rewrite (u64_small (b * _)), u64_small by (unfold in_u; lia).
  destruct (carry_step r i (c + b * a.[i]) (c + (b - 1) * a.[i])) as [Hwf Hstep];
    [done|lia|rewrite Hsame by lia; lia|lia|].
  split; [done|]. split; [apply shiftr32_bound; lia|]. split.
  - rewrite Hstep, le_val_take_S by (rewrite ?(proj1 Ha); lia). lia.
  - intros j Hj. rewrite nth_insert by (rewrite (proj1 Hr); lia).
    case_decide; [lia|]. apply Hsame. lia.
Qed.

(** The inner loop of the product: row [j] is added at offset [j]. *)
Lemma mul_row_spec a b p j :
  wf W a -> wf W b -> in_u 32 p -> (j <= W)%nat ->
  let r := fst (for_range 0 (W - j) (fun i '(a, carry) =>
      let n := u64 (carry + a.[i + j] + u64 (p * b.[i])) in
      (<[(i + j)%nat := Z.land n 0xffffffff]> a, n ≫ 32)) (a, 0)) in
  wf W r /\ exists c, val r + c * M = val a + p * val (take (W - j) b) * 2 ^ (32 * j).
Proof.
  intros Ha Hb Hp Hj. set (body := fun (i : nat) '(a, carry) => _). cbv zeta.
  enough (let '(r, c) := for_range 0 (W - j) body (a, 0) in
    wf W r /\ 0 <= c < 2 ^ 32 /\
    val r + c * 2 ^ (32 * (W - j + j)%nat) = val a + p * val (take (W - j) b) * 2 ^ (32 * j)) as H.
  { destruct (for_range 0 (W - j) body (a, 0)) as [r c]. simpl.
    destruct H as (Hr & _ & Hv). split; [done|]. exists c.
    by replace (W - j + j)%nat with W in Hv by lia. }
  apply (for_range_ind (fun i '(r, c) => wf W r /\ 0 <= c < 2 ^ 32 /\
    val r + c * 2 ^ (32 * (i + j)%nat) = val a + p * val (take i b) * 2 ^ (32 * j)));
    [lia|split; [done|simpl; split_and!; lia]|].
  intros i [r c] Hi (Hr & Hc & Hv). unfold body.
  pose proof (wf_nth r (i + j) Hr) as Hri. pose proof (wf_nth b i Hb) as Hbi.
  pose proof (mul32_bound p b.[i] Hp Hbi) as Hpb.
  unfold in_u in Hri. rewrite (u64_small (p * _)), u64_small by (unfold in_u; lia).
  destruct (carry_step r (i + j) (c + r.[i + j] + p * b.[i]) (c + p * b.[i])) as [Hwf Hstep];
    [done|lia|lia|lia|].
  split; [done|]. split; [apply shiftr32_bound; lia|].
  change (S i + j)%nat with (S (i + j)). rewrite Hstep, le_val_take_S by (rewrite ?(proj1 Hb); lia).
  replace (32 * (i + j)%nat) with (32 * i + 32 * j) in * by lia.
  rewrite Z.pow_add_r in * by lia. lia.
Qed.

Lemma mul_assign_spec a b :
  wf W a -> wf W b ->
  wf W (mul_assign W a b) /\ val (mul_assign W a b) = (val a * val b) mod M.
Proof.
  intros Ha Hb. unfold mul_assign.
  set (body := fun (j : nat) (acc : list Z) => _).
  enough (wf W (for_range 0 W body (zero W)) /\
    exists c, val (for_range 0 W body (zero W)) + c * M = val (take W a) * val b) as [Hr [c Hc]].
  { split; [done|]. rewrite take_ge in Hc by (rewrite (proj1 Ha); lia). by eapply mod_carry. }
  apply (for_range_ind (fun j r => wf W r /\ exists c, val r + c * M = val (take j a) * val b));
    [lia|split; [auto with nowp|exists 0; rewrite val_zero; simpl; lia]|].
  intros j r Hj (Hr & c & Hv).
  destruct (mul_row_spec r b a.[j] j Hr Hb (wf_nth a j Ha)) as [Hwf [c' Hv']]; [lia|].
  unfold body. split; [done|].
  assert (val b = val (take (W - j) b) + 2 ^ (32 * (W - j)%nat) * val (drop (W - j) b)) as Hsplit.
  { rewrite <- (take_drop (W - j) b) at 1. rewrite le_val_app by lia.
    rewrite length_take_le by (rewrite (proj1 Hb); lia). done. }
  assert (M = 2 ^ (32 * (W - j)%nat) * 2 ^ (32 * j)) as HM.
  { rewrite <- Z.pow_add_r by lia. f_equal. lia. }
  exists (c + c' + a.[j] * val (drop (W - j) b)).
  rewrite le_val_take_S by (rewrite ?(proj1 Ha); lia).
  match type of Hv' with val ?x + _ = _ => set (row := x) in * end.
  transitivity ((val row + c' * M) + c * M + a.[j] * val (drop (W - j) b) * M); [ring|].
  rewrite Hv', Z.mul_add_distr_r, <- Hv, Hsplit, HM. ring.
Qed.

(** Comparison from the most significant limb down. *)
Lemma cmp_loop_spec n a b :
  wf W a -> wf W b -> (n <= W)%nat ->
  cmp_loop n a b = match val (take n a) ?= val (take n b) with Lt => -1 | Eq => 0 | Gt => 1 end.
Proof.
  intros Ha Hb. induction n as [|n IH]; intros Hn; [done|].
  rewrite !le_val_take_S by (rewrite ?(proj1 Ha), ?(proj1 Hb); lia). simpl.
  pose proof (le_val_bound 32 ltac:(lia) (take n a) (digits_take 32 _ _ (proj2 Ha))) as HA.
  pose proof (le_val_bound 32 ltac:(lia) (take n b) (digits_take 32 _ _ (proj2 Hb))) as HB.
  rewrite length_take_le in HA by (rewrite (proj1 Ha); lia).
  rewrite length_take_le in HB by (rewrite (proj1 Hb); lia).
  pose proof (pow2_pos (32 * n) ltac:(lia)).
  repeat case_if.
  - destruct (Z.compare_spec (val (take n a) + a.[n] * 2 ^ (32 * n))
      (val (take n b) + b.[n] * 2 ^ (32 * n))); nia.
  - destruct (Z.compare_spec (val (take n a) + a.[n] * 2 ^ (32 * n))
      (val (take n b) + b.[n] * 2 ^ (32 * n))); nia.
  - rewrite IH by lia. replace b.[n] with a.[n] by lia. by rewrite !(Z.add_comm (val _)), Z.add_compare_mono_l.
Qed.

Lemma CompareTo_spec a b :
  wf W a -> wf W b ->
  CompareTo W a b = match val a ?= val b with Lt => -1 | Eq => 0 | Gt => 1 end.
Proof.
  intros Ha Hb. unfold CompareTo. rewrite cmp_loop_spec by (done || lia).
  by rewrite !take_ge by (rewrite ?(proj1 Ha), ?(proj1 Hb); lia).
Qed.

Lemma ltb_spec a b : wf W a -> wf W b -> ltb W a b = (val a <? val b).
Proof. intros. unfold ltb, Z.ltb. rewrite CompareTo_spec by done. by destruct (val a ?= val b). Qed.
Lemma leb_spec a b : wf W a -> wf W b -> leb W a b = (val a <=? val b).
Proof. intros. unfold leb, Z.leb. rewrite CompareTo_spec by done. by destruct (val a ?= val b). Qed.
Lemma gtb_spec a b : wf W a -> wf W b -> gtb W a b = (val b <? val a).
Proof.
  intros. unfold gtb, Z.ltb. rewrite CompareTo_spec, (Z.compare_antisym (val a) (val b)) by done. by destruct (val a ?= val b).
Qed.
Lemma geb_spec a b : wf W a -> wf W b -> geb W a b = (val b <=? val a).
Proof.
  intros. unfold geb, Z.leb. rewrite CompareTo_spec, (Z.compare_antisym (val a) (val b)) by done. by destruct (val a ?= val b).
Qed.

Lemma high_limbs_zero_spec n a :
  wf W a -> (n <= W)%nat -> high_limbs_zero n a = bool_decide (val (take n a) = val (take (2 `min` n) a)).
Proof.
  intros Ha. induction n as [|n IH]; intros Hn; [done|]. cbn [high_limbs_zero].
  destruct (decide (2 <= n)%nat) as [Hn2|Hn2].
  - rewrite (proj2 (Nat.leb_le 2 n)) by done.
    replace (2 `min` S n)%nat with 2%nat by lia. replace (2 `min` n)%nat with 2%nat in IH by lia.
    rewrite le_val_take_S by (rewrite ?(proj1 Ha); lia). pose proof (pow2_pos (32 * n) ltac:(lia)).
    pose proof (wf_nth a n Ha) as Hx. unfold in_u in Hx.
    destruct (a.[n] =? 0) eqn:E; cases_bool; simpl.
    + rewrite IH by lia. rewrite E. by replace (val (take n a) + 0 * 2 ^ (32 * n)) with (val (take n a)) by lia.
    + symmetry. apply bool_decide_eq_false. intros Heq.
      assert (val (take 2 a) <= val (take n a)); [|nia].
      replace n with (2 + (n - 2))%nat by lia. rewrite <- take_take_drop, le_val_app by lia.
      pose proof (le_val_bound 32 ltac:(lia) (take (n - 2) (drop 2 a))
        ltac:(apply Forall_take, Forall_drop, (proj2 Ha))).
      pose proof (pow2_pos (32 * length (take 2 a)) ltac:(lia)). nia.
  - rewrite (proj2 (Nat.leb_gt 2 n)) by lia.
    replace (2 `min` S n)%nat with (S n) by lia. by rewrite bool_decide_true.
Qed.

Lemma EqualTo_spec a b :
  (2 <= W)%nat -> wf W a -> in_u 64 b -> EqualTo W a b = (val a =? b).
Proof.
  intros HW Ha Hb. unfold EqualTo. rewrite high_limbs_zero_spec by (done || lia).
  replace (2 `min` W)%nat with 2%nat by lia. rewrite (take_ge a W) by (rewrite (proj1 Ha); lia).
  pose proof (split32 b) as Hs. pose proof (low32_range b) as Hlo.
  pose proof (wf_nth a 0 Ha) as H0. pose proof (wf_nth a 1 Ha) as H1.
  assert (val (take 2 a) = a.[0] + 2 ^ 32 * a.[1]) as Hv.
  { rewrite !le_val_take_S by (rewrite ?(proj1 Ha); lia). simpl. lia. }
  assert (val (take 2 a) <= val a) as Hle.
  { rewrite <- (take_drop 2 a) at 2. rewrite le_val_app by lia.
    pose proof (le_val_bound 32 ltac:(lia) (drop 2 a) ltac:(apply Forall_drop, (proj2 Ha))).
    pose proof (pow2_pos (32 * length (take 2 a)) ltac:(lia)). nia. }
  assert (val a <> val (take 2 a) -> 2 ^ 64 <= val a) as Hbig.
  { rewrite <- (take_drop 2 a) at 1 3. rewrite le_val_app by lia.
    rewrite length_take_le by (rewrite (proj1 Ha); lia).
    pose proof (le_val_bound 32 ltac:(lia) (drop 2 a) ltac:(apply Forall_drop, (proj2 Ha))).
    change (2 ^ (32 * 2%nat)) with (2 ^ 64). unfold in_u in *. lia. }
  unfold in_u in *. case_bool_decide; simpl; [|symmetry; apply Z.eqb_neq; lia].
  repeat case_if; symmetry; rewrite ?Z.eqb_eq, ?Z.eqb_neq; lia.
Qed.

Lemma limb_bits_spec (nb : nat) x pos :
  0 < x < 2 ^ (nb + 1) -> (nb <= 31)%nat -> limb_bits nb x pos = 32 * pos + Z.log2 x + 1.
Proof.
  induction nb as [|nb IH]; intros Hx Hnb; cbn [limb_bits].
  - replace x with 1 by (simpl in Hx; lia). simpl. lia.
  - replace (u32 (1 ≪ S nb)) with (2 ^ S nb).
    2:{ rewrite Z.shiftl_1_l. symmetry. apply uwrap_small. unfold in_u.
        pose proof (pow2_pos (S nb) ltac:(lia)).
        pose proof (Z.pow_lt_mono_r 2 (S nb) 32 ltac:(lia) ltac:(lia) ltac:(lia)). lia. }
    assert (Z.land x (2 ^ S nb) = if decide (2 ^ S nb <= x) then 2 ^ S nb else 0) as ->.
    { apply Z.bits_inj'. intros n Hn. rewrite Z.land_spec, Z.pow2_bits_eqb by lia.
      destruct (S nb =? n) eqn:E; cases_bool.
      - subst. case_decide.
        + rewrite Z.pow2_bits_true by lia. rewrite andb_true_r.
          replace (Z.of_nat (S nb)) with (Z.log2 x); [apply Z.bit_log2; lia|].
          apply Z.log2_unique; [lia|]. replace (Z.succ (S nb)) with (S nb + 1) by lia. lia.
        + rewrite Z.bits_0, andb_true_r. apply (testbit_small _ (S nb)); [unfold in_u; lia|lia].
      - rewrite andb_false_r. case_decide; [|by rewrite Z.bits_0].
        rewrite Z.pow2_bits_eqb by lia. symmetry. apply Z.eqb_neq. lia. }
    case_decide.
    + assert (Z.log2 x = S nb) as ->.
      { apply Z.log2_unique; [lia|]. replace (Z.succ (S nb)) with (S nb + 1) by lia. lia. }
      destruct (2 ^ S nb =? 0) eqn:E; cases_bool; [pose proof (pow2_pos (S nb)); lia|]. simpl. lia.
    + simpl. apply IH; [|lia]. replace (nb + 1) with (Z.of_nat (S nb)) by lia. lia.
Qed.

Lemma bits_loop_spec n a :
  wf W a -> (n <= W)%nat ->
  bits_loop n a = if val (take n a) =? 0 then 0 else Z.log2 (val (take n a)) + 1.
Proof.
  intros Ha. induction n as [|n IH]; intros Hn; [done|]. cbn [bits_loop].
  rewrite le_val_take_S by (rewrite ?(proj1 Ha); lia).
  pose proof (le_val_bound 32 ltac:(lia) (take n a) (digits_take 32 _ _ (proj2 Ha))) as HA.
  rewrite length_take_le in HA by (rewrite (proj1 Ha); lia).
  pose proof (pow2_pos (32 * n) ltac:(lia)). pose proof (wf_nth a n Ha) as Hx. unfold in_u in Hx.
  destruct (a.[n] =? 0) eqn:E; cases_bool; cbn [negb].
  - rewrite E, Z.mul_0_l, Z.add_0_r. apply IH. lia.
  - rewrite limb_bits_spec by (simpl; lia).
    assert (0 < a.[n] * 2 ^ (32 * n)) by (apply Z.mul_pos_pos; lia).
    case_if; [lia|].
    enough (Z.log2 (val (take n a) + a.[n] * 2 ^ (32 * n)) = Z.log2 a.[n] + 32 * n) by lia.
    pose proof (Z.log2_spec a.[n] ltac:(lia)) as Hl. pose proof (Z.log2_nonneg a.[n]).
    apply Z.log2_unique; [lia|]. rewrite <- Z.add_succ_l, !Z.pow_add_r by lia. nia.
Qed.

Lemma bits_spec a :
  wf W a -> bits W a = if val a =? 0 then 0 else Z.log2 (val a) + 1.
Proof.
  intros Ha. unfold bits. rewrite bits_loop_spec by (done || lia).
  by rewrite take_ge by (rewrite (proj1 Ha); lia).
Qed.

(** A loop that or-s two words per iteration into cells of a zeroed array: a
    bit of the result is set exactly when some iteration contributes it. *)
Definition or_at (o : option nat) (x : Z) (pn : list Z) : list Z :=
  match o with
  | Some p => <[p := Z.lor pn.[p] x]> pn
  | None => pn
  end.

Lemma or_at_wf o x pn : wf W pn -> in_u 32 x -> wf W (or_at o x pn).
Proof. intros Hp Hx. destruct o; simpl; auto with nowp lia. Qed.

Lemma or_at_bit o x pn j n :
  length pn = W -> (j < W)%nat -> 0 <= n ->
  Z.testbit (or_at o x pn).[j] n = true <->
  Z.testbit pn.[j] n = true \/ (o = Some j /\ Z.testbit x n = true).
Proof.
  intros Hl Hj Hn. destruct o as [p|]; simpl; [|naive_solver].
  destruct (decide (p < W)%nat).
  - rewrite nth_insert by lia. case_decide; subst; [|naive_solver].
    rewrite Z.lor_spec, orb_true_iff. naive_solver.
  - rewrite list_insert_ge by lia. split; [naive_solver|]. intros [?|[? ?]]; [done|]. simplify_eq. lia.
Qed.

Section or_loop.
Context (o1 o2 : nat -> option nat) (x1 x2 : nat -> Z).
Hypothesis Hx1 : forall i, in_u 32 (x1 i).
Hypothesis Hx2 : forall i, in_u 32 (x2 i).

Lemma or_loop_spec :
  let r := for_range 0 W (fun i pn => or_at (o2 i) (x2 i) (or_at (o1 i) (x1 i) pn)) (zero W) in
  wf W r /\ forall j n, (j < W)%nat -> 0 <= n ->
    (Z.testbit r.[j] n = true <->
     exists i, (i < W)%nat /\ ((o1 i = Some j /\ Z.testbit (x1 i) n = true) \/
                              (o2 i = Some j /\ Z.testbit (x2 i) n = true))).
Proof.
  cbv zeta. apply (for_range_ind (fun m r => wf W r /\ forall j n, (j < W)%nat -> 0 <= n ->
    (Z.testbit r.[j] n = true <->
     exists i, (i < m)%nat /\ ((o1 i = Some j /\ Z.testbit (x1 i) n = true) \/
                              (o2 i = Some j /\ Z.testbit (x2 i) n = true))))); [lia| |].
  - split; [auto with nowp|]. intros j n Hj Hn. unfold zero. rewrite nth_replicate_0, Z.bits_0.
    split; [done|]. intros (i & ? & _). lia.
  - intros m r Hm [Hr Hbits]. split; [auto using or_at_wf|]. intros j n Hj Hn.
    rewrite or_at_bit by (done || by apply or_at_wf).
    rewrite or_at_bit by (done || by destruct Hr). rewrite Hbits by done. split.
    + intros [[(i & Hi & H)|H]|H]; [exists i; split; [lia|done]| |]; (exists m; split; [lia|tauto]).
    + intros (i & Hi & H). destruct (decide (i = m)); [subst; tauto|].
      left. left. exists i. split; [lia|done].
Qed.
End or_loop.

Lemma bool_eq_iff_true (a b : bool) : (a = true <-> b = true) -> a = b.
Proof. destruct a, b; naive_solver. Qed.

(** A number is determined by the bits of its limbs. *)
Lemma val_of_bits r x :
  wf W r -> 0 <= x < M ->
  (forall (j : nat) n, (j < W)%nat -> 0 <= n < 32 ->
     (Z.testbit r.[j] n = true <-> Z.testbit x (32 * j + n) = true)) ->
  val r = x.
Proof.
  intros Hr Hx H. apply Z.bits_inj'. intros n Hn.
  rewrite le_val_testbit by (lia || apply Hr).
  pose proof (Z.div_mod n 32). pose proof (Z.mod_pos_bound n 32).
  pose proof (Z.div_pos n 32). set (j := Z.to_nat (n / 32)). destruct (decide (j < W)%nat).
  - apply bool_eq_iff_true. rewrite H by lia.
    replace (32 * j + n mod 32) with n by lia. done.
  - rewrite nth_ge, Z.bits_0 by (rewrite (proj1 Hr); lia).
    symmetry. apply (testbit_small _ (32 * W)); [done|lia].
Qed.

Lemma val_bit a (j : nat) n : wf W a -> 0 <= n < 32 -> Z.testbit a.[j] n = Z.testbit (val a) (32 * j + n).
Proof.
  intros Ha Hn. rewrite le_val_testbit by (lia || apply Ha).
  replace (32 * j + n) with (n + j * 32) by lia.
  rewrite Z.div_add, Z.mod_add, Z.div_small, Z.mod_small by lia. by rewrite Z.add_0_l, Nat2Z.id.
Qed.

Lemma testbit_u32 x n : 0 <= n < 32 -> Z.testbit (u32 x) n = Z.testbit x n.
Proof. intros. apply Z.mod_pow2_bits_low. lia. Qed.

Lemma shl_assign_spec a shift :
  wf W a -> 0 <= shift ->
  wf W (shl_assign W a shift) /\ val (shl_assign W a shift) = (val a * 2 ^ shift) mod M.
Proof.
  intros Ha Hs. unfold shl_assign.
  pose proof (Z.div_mod shift 32). pose proof (Z.mod_pos_bound shift 32). pose proof (Z.div_pos shift 32).
  set (k := Z.to_nat (shift / 32)). set (s := shift mod 32) in *.
  set (o1 := fun i => if (i + k + 1 <? W)%nat && negb (s =? 0) then Some (i + k + 1)%nat else None).
  set (o2 := fun i => if (i + k <? W)%nat then Some (i + k)%nat else None).
  destruct (or_loop_spec o1 o2 (fun i => a.[i] ≫ (32 - s)) (fun i => u32 (a.[i] ≪ s))) as [Hwf Hbits].
  { intros i. apply in_u_shiftr; [lia|by apply wf_nth|lia]. }
  { intros i. apply in_u_u32. }
  erewrite for_range_ext.
  2:{ intros i pn. instantiate (1 := fun i pn => or_at (o2 i) _ (or_at (o1 i) _ pn)). simpl.
      unfold o1, o2. repeat case_if; reflexivity. }
  split; [done|]. apply val_of_bits; [done|apply Z.mod_pos_bound; apply pow2_pos; lia|].
  intros j n Hj Hn. rewrite Hbits, Z.mod_pow2_bits_low, Z.mul_pow2_bits by lia. split.
  - unfold o1, o2. intros (i & Hi & [[Ho Hb]|[Ho Hb]]); case_if_in Ho; simplify_eq.
    + rewrite Z.shiftr_spec in Hb by lia. destruct (decide (n + (32 - s) < 32)).
      * rewrite val_bit in Hb by (done || lia). rewrite <- Hb. f_equal. lia.
      * rewrite (testbit_small _ 32) in Hb by (lia || by apply wf_nth). done.
    + rewrite testbit_u32, Z.shiftl_spec in Hb by lia. destruct (decide (n < s)).
      * rewrite Z.testbit_neg_r in Hb by lia. done.
      * rewrite val_bit in Hb by (done || lia). rewrite <- Hb. f_equal. lia.
  - intros Hb. destruct (decide (n < s)).
    + destruct (decide (j < k + 1)%nat); [rewrite Z.testbit_neg_r in Hb by lia; done|].
      exists (j - k - 1)%nat. split; [lia|]. left. unfold o1. case_if.
      * split; [f_equal; lia|]. rewrite Z.shiftr_spec, val_bit by (done || lia).
        rewrite <- Hb. f_equal. lia.
      * apply andb_false_iff in E as [E|E]; cases_bool; lia.
    + destruct (decide (j < k)%nat); [rewrite Z.testbit_neg_r in Hb by lia; done|].
      exists (j - k)%nat. split; [lia|]. right. unfold o2. case_if; [|lia].
      split; [f_equal; lia|]. rewrite testbit_u32, Z.shiftl_spec, val_bit by (done || lia).
      rewrite <- Hb. f_equal. lia.
Qed.

Lemma shr_assign_spec a shift :
  wf W a -> 0 <= shift ->
  wf W (shr_assign W a shift) /\ val (shr_assign W a shift) = val a / 2 ^ shift.
Proof.
  intros Ha Hs. unfold shr_assign.
  pose proof (Z.div_mod shift 32). pose proof (Z.mod_pos_bound shift 32). pose proof (Z.div_pos shift 32).
  set (k := Z.to_nat (shift / 32)). set (s := shift mod 32) in *.
  set (o1 := fun i => if (k + 1 <=? i)%nat && negb (s =? 0) then Some (i - k - 1)%nat else None).
  set (o2 := fun i => if (k <=? i)%nat then Some (i - k)%nat else None).
  destruct (or_loop_spec o1 o2 (fun i => u32 (a.[i] ≪ (32 - s))) (fun i => a.[i] ≫ s)) as [Hwf Hbits].
  { intros i. apply in_u_u32. }
  { intros i. apply in_u_shiftr; [lia|by apply wf_nth|lia]. }
  erewrite for_range_ext.
  2:{ intros i pn. instantiate (1 := fun i pn => or_at (o2 i) _ (or_at (o1 i) _ pn)). simpl.
      unfold o1, o2. repeat case_if; reflexivity. }
  pose proof (wf_bound a Ha). pose proof (pow2_pos shift Hs).
  split; [done|]. apply val_of_bits; [done| |].
  { split; [apply Z.div_pos; lia|]. apply Z.div_lt_upper_bound; nia. }
  intros j n Hj Hn. rewrite Hbits, Z.div_pow2_bits by lia. split.
  - unfold o1, o2. intros (i & Hi & [[Ho Hb]|[Ho Hb]]); case_if_in Ho; simplify_eq.
    + rewrite testbit_u32, Z.shiftl_spec in Hb by lia. destruct (decide (n < 32 - s)).
      * rewrite Z.testbit_neg_r in Hb by lia. done.
      * rewrite val_bit in Hb by (done || lia). rewrite <- Hb. f_equal. lia.
    + rewrite Z.shiftr_spec in Hb by lia. destruct (decide (n + s < 32)).
      * rewrite val_bit in Hb by (done || lia). rewrite <- Hb. f_equal. lia.
      * rewrite (testbit_small _ 32) in Hb by (lia || by apply wf_nth). done.
  - intros Hb.
    assert (32 * j + n + shift < 32 * W) as Hlt.
    { destruct (decide (32 * j + n + shift < 32 * W)); [done|].
      rewrite (testbit_small _ (32 * W)) in Hb by (done || lia). done. }
    destruct (decide (n + s < 32)).
    + exists (j + k)%nat. split; [lia|]. right. unfold o2. case_if; [|lia].
      split; [f_equal; lia|]. rewrite Z.shiftr_spec, val_bit by (done || lia).
      rewrite <- Hb. f_equal. lia.
    + exists (j + k + 1)%nat. split; [lia|]. left. unfold o1. case_if.
      * split; [f_equal; lia|]. rewrite testbit_u32, Z.shiftl_spec, val_bit by (done || lia).
        rewrite <- Hb. f_equal. lia.
      * apply andb_false_iff in E as [E|E]; cases_bool; lia.
Qed.

(** Setting a clear quotient bit adds its weight. *)
Lemma set_bit_spec pn (sh : nat) :
  wf W pn -> (sh < 32 * W)%nat -> Z.testbit (val pn) sh = false ->
  let pn' := <[(sh / 32)%nat := Z.lor pn.[sh / 32] (u32 (1 ≪ Z.land sh 31))]> pn in
  wf W pn' /\ val pn' = val pn + 2 ^ sh.
Proof.
  intros Hp Hsh Hbit. cbv zeta.
  assert (Z.land sh 31 = sh mod 32) as ->.
  { change 31 with (2 ^ 5 - 1). apply land_ones_mod. lia. }
  pose proof (Z.mod_pos_bound sh 32 ltac:(lia)) as Hm.
  pose proof (Z.div_mod sh 32 ltac:(lia)) as Hdm.
  assert (Z.of_nat (sh / 32)%nat = sh / 32) as Hq by apply Nat2Z.inj_div.
  rewrite Z.shiftl_1_l.
  assert (in_u 32 (2 ^ (sh mod 32))) as Hpow.
  { unfold in_u. pose proof (pow2_pos (sh mod 32) ltac:(lia)).
    split; [lia|]. apply Z.pow_lt_mono_r; lia. }
  rewrite (uwrap_small 32) by done.
  assert (Z.lor pn.[sh / 32] (2 ^ (sh mod 32)) = pn.[sh / 32] + 2 ^ (sh mod 32)) as Hlor.
  { apply lor_disjoint_add, Z.bits_inj'. intros n Hn. rewrite Z.land_spec, Z.bits_0, Z.pow2_bits_eqb by lia.
    destruct (_ =? _) eqn:E; cases_bool; [|by rewrite andb_false_r]. subst n.
    rewrite val_bit by (done || lia). rewrite andb_true_r, <- Hbit. f_equal. lia. }
  split.
  - apply wf_insert; [done|]. apply in_u_lor; [lia|by apply wf_nth|done].
  - rewrite le_val_insert by (lia || (rewrite (proj1 Hp); apply Nat.Div0.div_lt_upper_bound; lia)).
    rewrite Hlor. replace (2 ^ sh) with (2 ^ (sh mod 32) * 2 ^ (32 * (sh / 32)%nat)); [lia|].
    rewrite <- Z.pow_add_r by lia. f_equal. lia.
Qed.

Lemma div_loop_spec n pn num div D :
  wf W pn -> wf W num -> wf W div -> 0 < D -> (n <= 32 * W)%nat ->
  val div = D * 2 ^ n / 2 -> val num < D * 2 ^ n -> val pn mod 2 ^ n = 0 ->
  wf W (div_loop W n pn num div) /\ val (div_loop W n pn num div) = val pn + val num / D.
Proof.
  revert pn num div. induction n as [|n IH];
    intros pn num div Hpn Hnum Hdiv HD Hn Hvd Hlt Hmod; cbn [div_loop].
  - split; [done|]. change (2 ^ 0%nat) with 1 in *. rewrite Z.div_small; [lia|].
    pose proof (wf_bound _ Hnum). lia.
  - assert (2 ^ S n = 2 * 2 ^ n) as E2 by (rewrite <- Z.pow_succ_r by lia; f_equal; lia).
    pose proof (pow2_pos n ltac:(lia)) as Hpos. pose proof (wf_bound _ Hnum) as Hnb.
    rewrite E2, Z.mul_assoc, (Z.mul_comm D 2), <- Z.mul_assoc, Z.mul_comm, Z.div_mul in Hvd by lia.
    destruct (shr_assign_spec div 1 Hdiv ltac:(lia)) as [Hdiv' Hvd']. rewrite Hvd in Hvd'.
    assert (val pn mod 2 ^ n = 0) as Hmod'.
    { rewrite E2 in Hmod. pose proof (Z.rem_mul_r (val pn) (2 ^ n) 2 ltac:(lia) ltac:(lia)) as Hr.
      pose proof (Z.mod_pos_bound (val pn) (2 ^ n) Hpos).
      pose proof (Z.mod_pos_bound (val pn / 2 ^ n) 2 ltac:(lia)).
      rewrite (Z.mul_comm 2) in Hmod. rewrite Hmod in Hr. nia. }
    fold (geb W num div). rewrite geb_spec by done. rewrite Hvd.
    destruct (D * 2 ^ n <=? val num) eqn:E; cases_bool.
    + destruct (sub_assign_spec num div Hnum Hdiv) as [Hs Hsv].
      rewrite Z.mod_small in Hsv by lia.
      assert (Z.testbit (val pn) n = false) as Hbit.
      { replace (val pn) with (val pn / 2 ^ S n * 2 ^ S n)
          by (pose proof (Z.div_mod (val pn) (2 ^ S n)); lia).
        apply Z.mul_pow2_bits_low. lia. }
      destruct (set_bit_spec pn n Hpn ltac:(lia) Hbit) as [Hp' Hpv'].
      destruct (IH _ _ _ Hp' Hs Hdiv' HD ltac:(lia)) as [Hr Hrv]; [done|lia| |].
      { rewrite Hpv'. rewrite <- Z.add_mod_idemp_l, Hmod', Z.add_0_l by lia. apply Z.mod_same. lia. }
      split; [done|]. rewrite Hrv, Hpv', Hsv, Hvd.
      replace (val num - D * 2 ^ n) with (val num + (- 2 ^ n) * D) by lia.
      rewrite Z.div_add by lia. lia.
    + destruct (IH pn num _ Hpn Hnum Hdiv' HD ltac:(lia)) as [Hr Hrv]; [done..|]. by split.
Qed.

Lemma val_0_of_u64 : (2 <= W)%nat -> wf W (of_u64 W 0) /\ val (of_u64 W 0) = 0.
Proof. intros HW. apply (add_sub_u64_spec (zero W)); [done|auto with nowp|done]. Qed.

(** Long division computes the quotient; a zero divisor throws. *)
Lemma div_assign_spec a b :
  (2 <= W)%nat -> wf W a -> wf W b ->
  match div_assign W a b with
  | None => val b = 0
  | Some q => val b <> 0 /\ wf W q /\ val q = val a / val b
  end.
Proof.
  intros HW Ha Hb. unfold div_assign. rewrite !bits_spec by done.
  pose proof (wf_bound _ Ha) as HA. pose proof (wf_bound _ Hb) as HB.
  destruct (val_0_of_u64 HW) as [Hz Hzv].
  destruct (val b =? 0) eqn:Eb; cases_bool; [done|].
  pose proof (Z.log2_spec (val b) ltac:(lia)) as Hlb. pose proof (Z.log2_nonneg (val b)).
  destruct (Z.log2 (val b) + 1 =? 0) eqn:E; cases_bool; [lia|]. clear E.
  destruct (val a =? 0) eqn:Ea; cases_bool.
  { destruct (0 <? _) eqn:E; cases_bool; [|lia]. split_and!; [done..|].
    by rewrite Ea, Hzv, Z.div_0_l. }
  pose proof (Z.log2_spec (val a) ltac:(lia)) as Hla.
  assert (Z.log2 (val a) < 32 * W) as Hl by (apply Z.log2_lt_pow2; lia).
  case_if.
  { split_and!; [done..|]. rewrite Hzv. symmetry. apply Z.div_small. split; [lia|].
    apply Z.log2_lt_cancel. lia. }
  set (sh := Z.log2 (val a) + 1 - (Z.log2 (val b) + 1)).
  destruct (shl_assign_spec b sh Hb ltac:(lia)) as [Hd Hdv].
  assert (val b * 2 ^ sh < 2 ^ Z.succ (Z.log2 (val a))) as Hfit.
  { replace (Z.succ (Z.log2 (val a))) with (Z.succ (Z.log2 (val b)) + sh) by lia.
    rewrite Z.pow_add_r by lia. apply Z.mul_lt_mono_pos_r; [apply pow2_pos; lia|lia]. }
  assert (2 ^ Z.succ (Z.log2 (val a)) <= M) as HleM by (apply Z.pow_le_mono_r; lia).
  pose proof (pow2_pos sh ltac:(lia)).
  rewrite Z.mod_small in Hdv by nia.
  assert (2 ^ (sh + 1) = 2 * 2 ^ sh) as E2 by (rewrite <- Z.pow_succ_r by lia; f_equal; lia).
  assert (Z.of_nat (Z.to_nat (sh + 1)) = sh + 1) as En by lia.
  destruct (div_loop_spec (Z.to_nat (sh + 1)) (of_u64 W 0) a (shl_assign W b sh) (val b)) as [Hr Hrv];
    rewrite ?En; [done..|lia|lia| | | |].
  - rewrite E2, Hdv. replace (val b * (2 * 2 ^ sh)) with (val b * 2 ^ sh * 2) by lia.
    by rewrite Z.div_mul.
  - apply Z.lt_le_trans with (2 ^ Z.succ (Z.log2 (val a))); [lia|].
    replace (Z.succ (Z.log2 (val a))) with (Z.log2 (val b) + (sh + 1)) by lia.
    rewrite Z.pow_add_r by lia. apply Z.mul_le_mono_nonneg_r; [pose proof (pow2_pos (sh + 1)); lia|lia].
  - rewrite Hzv. apply Z.mod_0_l. pose proof (pow2_pos (sh + 1)). lia.
  - split_and!; [done..|]. by rewrite Hrv, Hzv.
Qed.

Lemma GetLow64_spec a : (2 <= W)%nat -> wf W a -> GetLow64 a = val a mod 2 ^ 64.
Proof.
  intros HW Ha. unfold GetLow64.
  pose proof (wf_nth a 0 Ha) as H0. pose proof (wf_nth a 1 Ha) as H1.
  assert (val (take 2 a) = a.[0] + 2 ^ 32 * a.[1]) as Hv.
  { rewrite !le_val_take_S by (rewrite ?(proj1 Ha); lia). simpl. lia. }
  unfold in_u in *. rewrite u64_small.
  2:{ rewrite Z.shiftl_mul_pow2 by lia. unfold in_u. lia. }
  rewrite lor_low_high by lia.
  rewrite <- (take_drop 2 a) at 3. rewrite le_val_app by lia.
  rewrite length_take_le by (rewrite (proj1 Ha); lia). change (2 ^ (32 * 2%nat)) with (2 ^ 64).
  rewrite (Z.mul_comm (2 ^ 64)), Z.mod_add, Hv by lia. rewrite Z.mod_small; lia.
Qed.

End facts.

(** ** The arithmetic of [base_uint] *)

(** The limb loops of [base_uint<BITS>] compute in the integers modulo
    [2^BITS]: addition, subtraction, multiplication (by a number or by a
    32-bit word), negation, complement and the two steps by one, for every
    width, and their results are again well-formed limb arrays. *)
Theorem base_uint_ring W a b x :
  wf W a -> wf W b -> in_u 32 x ->
  let M := 2 ^ (32 * W) in
  (wf W (add_assign W a b) /\ le_val 32 (add_assign W a b) = (le_val 32 a + le_val 32 b) mod M) /\
  (wf W (sub_assign W a b) /\ le_val 32 (sub_assign W a b) = (le_val 32 a - le_val 32 b) mod M) /\
  (wf W (mul_assign W a b) /\ le_val 32 (mul_assign W a b) = (le_val 32 a * le_val 32 b) mod M) /\
  (wf W (mul_u32_assign W a x) /\ le_val 32 (mul_u32_assign W a x) = (le_val 32 a * x) mod M) /\
  (wf W (opp W a) /\ le_val 32 (opp W a) = (- le_val 32 a) mod M) /\
  (wf W (bnot W a) /\ le_val 32 (bnot W a) = M - 1 - le_val 32 a) /\
  (wf W (incr W a) /\ le_val 32 (incr W a) = (le_val 32 a + 1) mod M) /\
  (wf W (decr W a) /\ le_val 32 (decr W a) = (le_val 32 a - 1) mod M).
Proof.
  intros Ha Hb Hx M.
  split_and!; [by apply add_assign_spec|by apply add_assign_spec|by apply sub_assign_spec|
    by apply sub_assign_spec|by apply mul_assign_spec|by apply mul_assign_spec|
    by apply mul_u32_assign_spec|by apply mul_u32_assign_spec|by apply opp_spec|by apply opp_spec|
    by apply bnot_spec|by apply bnot_spec|by apply incr_spec|by apply incr_spec|
    by apply decr_spec|by apply decr_spec].
Qed.

(** Division returns the Euclidean quotient, and raises its error exactly
    for a zero divisor; comparison, equality and bit length are those of the
    represented numbers. *)
Theorem base_uint_div W a b :
  (2 <= W)%nat -> wf W a -> wf W b ->
  match div_assign W a b with
  | None => le_val 32 b = 0
  | Some q => le_val 32 b <> 0 /\ wf W q /\ le_val 32 q = le_val 32 a / le_val 32 b
  end /\
  CompareTo W a b = match le_val 32 a ?= le_val 32 b with Lt => -1 | Eq => 0 | Gt => 1 end /\
  bits W a = (if le_val 32 a =? 0 then 0 else Z.log2 (le_val 32 a) + 1).
Proof.
  intros HW Ha Hb. split; [by apply div_assign_spec|].
  split; [by apply CompareTo_spec|by apply bits_spec].
Qed.

(** Shifting left multiplies by a power of two and drops what leaves the
    width, shifting right is the floor division, for every shift count. *)
Theorem base_uint_shift W a n :
  wf W a -> 0 <= n ->
  (wf W (shl_assign W a n) /\ le_val 32 (shl_assign W a n) = (le_val 32 a * 2 ^ n) mod 2 ^ (32 * W)) /\
  (wf W (shr_assign W a n) /\ le_val 32 (shr_assign W a n) = le_val 32 a / 2 ^ n).
Proof. intros Ha Hn. split; [by apply shl_assign_spec|by apply shr_assign_spec]. Qed.

Lemma base_uint_ring_witness :
  le_val 32 (sub_assign 8 (of_u64 8 5) (of_u64 8 7)) = 2 ^ 256 - 2 /\
  le_val 32 (mul_assign 8 (bnot 8 (zero 8)) (bnot 8 (zero 8))) = 1.
Proof.
  split.
  - assert (wf 8 (of_u64 8 5)) as H5 by (split; [reflexivity|repeat constructor; cbv; done]).
    assert (wf 8 (of_u64 8 7)) as H7 by (split; [reflexivity|repeat constructor; cbv; done]).
    destruct (base_uint_ring 8 _ _ 0 H5 H7 ltac:(unfold in_u; lia)) as (_ & [_ H] & _). exact H.
  - assert (wf 8 (bnot 8 (zero 8))) as Hm by (split; [reflexivity|repeat constructor; cbv; done]).
    destruct (base_uint_ring 8 _ _ 0 Hm Hm ltac:(unfold in_u; lia)) as (_ & _ & [_ H] & _). exact H.
Defined.

Lemma base_uint_div_witness :
  div_assign 8 (of_u64 8 1000) (zero 8) = None /\
  option_map (le_val 32) (div_assign 8 (of_u64 8 1000) (of_u64 8 7)) = Some 142.
Proof.
  assert (wf 8 (of_u64 8 1000)) as Ha by (split; [reflexivity|repeat constructor; cbv; done]).
  assert (wf 8 (zero 8)) as Hz by (split; [reflexivity|repeat constructor; cbv; done]).
  assert (wf 8 (of_u64 8 7)) as H7 by (split; [reflexivity|repeat constructor; cbv; done]).
  pose proof (base_uint_div 8 _ _ ltac:(lia) Ha Hz) as [H0 _].
  pose proof (base_uint_div 8 _ _ ltac:(lia) Ha H7) as [H _].
  split.
  - destruct (div_assign 8 (of_u64 8 1000) (zero 8)); [|done]. by destruct H0 as [[] _].
  - destruct (div_assign 8 (of_u64 8 1000) (of_u64 8 7)); [|done].
    destruct H as (_ & _ & Hq). cbn [option_map]. rewrite Hq. done.
Defined.

Lemma base_uint_shift_witness :
  le_val 32 (shl_assign 8 (of_u64 8 3) 255) = 2 ^ 255 /\ le_val 32 (shr_assign 8 (of_u64 8 3) 1) = 1.
Proof.
  assert (wf 8 (of_u64 8 3)) as Ha by (split; [reflexivity|repeat constructor; cbv; done]).
  destruct (base_uint_shift 8 _ 255 Ha ltac:(lia)) as ([_ H1] & _).
  destruct (base_uint_shift 8 _ 1 Ha ltac:(lia)) as (_ & [_ H2]). split; [exact H1|exact H2].
Defined.

End BaseUint.
