(* ===== verification/Compact.v ===== *)
(** * Compact targets and blob conversions ([arith_uint256.cpp])

    The 32-bit compact encoding of difficulty targets ([SetCompact],
    [GetCompact]), the conversions between the opaque blob [uint256] and the
    number [arith_uint256], and the 512-bit companion class. *)
From stdpp Require Import prelude.
From S2P Require Import Prelude ArithUint256.

(** ** [arith_uint256]: compact targets *)

Module Compact.
Import BaseUint.

(** [SetCompact]: the new value and the two flags. *)
Definition SetCompact (nCompact : Z) : list Z * bool * bool :=
  let nSize := nCompact ≫ 24 in
  let nWord := Z.land nCompact 0x007fffff in
  let '(nWord, this) :=
    if nSize <=? 3 then
      let nWord := nWord ≫ (8 * (3 - nSize)) in
      (nWord, of_u64 8 nWord)
    else
      (nWord, shl_assign 8 (of_u64 8 nWord) (8 * (nSize - 3))) in
  let fNegative := negb (nWord =? 0) && negb (Z.land nCompact 0x00800000 =? 0) in
  let fOverflow := negb (nWord =? 0) &&
    ((34 <? nSize) || ((0xff <? nWord) && (33 <? nSize)) || ((0xffff <? nWord) && (32 <? nSize))) in
  (this, fNegative, fOverflow).

(** [GetCompact]; [None] is a failed assertion. *)
Definition GetCompact (pn : list Z) (fNegative : bool) : option Z :=
  let nSize := (bits 8 pn + 7) / 8 in
  let nCompact :=
    if nSize <=? 3 then u32 (u64 (GetLow64 pn ≪ (8 * (3 - nSize))))
    else u32 (GetLow64 (shr_assign 8 pn (8 * (nSize - 3)))) in
  let '(nCompact, nSize) :=
    if negb (Z.land nCompact 0x00800000 =? 0) then (nCompact ≫ 8, nSize + 1)
    else (nCompact, nSize) in
  if negb (Z.land nCompact (u32 (Z.lnot 0x007fffff)) =? 0) then None
  else if negb (nSize <? 256) then None
  else
    let nCompact := Z.lor nCompact (u32 (nSize ≪ 24)) in
    Some (Z.lor nCompact
            (if fNegative && negb (Z.land nCompact 0x007fffff =? 0) then 0x00800000 else 0)).

(** Exponent and mantissa of a 32-bit compact number. *)
Definition exponent (c : Z) : Z := c / 2 ^ 24.
Definition mantissa (c : Z) : Z := c mod 2 ^ 23.

(** The number a compact encoding denotes, before reduction to 256 bits. *)
Definition compact_value (c : Z) : Z :=
  if exponent c <=? 3 then mantissa c / 256 ^ (3 - exponent c)
  else mantissa c * 256 ^ (exponent c - 3).

Lemma pow256 n : 0 <= n -> 256 ^ n = 2 ^ (8 * n).
Proof. intros. change 256 with (2 ^ 8). by rewrite <- Z.pow_mul_r by lia. Qed.

Lemma land_bit x n : 0 <= n -> Z.land x (2 ^ n) = if Z.testbit x n then 2 ^ n else 0.
Proof.
  intros Hn. apply Z.bits_inj'. intros m Hm. rewrite Z.land_spec, Z.pow2_bits_eqb by done.
  destruct (n =? m) eqn:E; cases_bool; subst.
  - rewrite andb_true_r. destruct (Z.testbit x m) eqn:Et; [by rewrite Z.pow2_bits_true|by rewrite Z.bits_0].
  - rewrite andb_false_r. destruct (Z.testbit x n); [|by rewrite Z.bits_0].
    rewrite Z.pow2_bits_eqb by done. symmetry. by apply Z.eqb_neq.
Qed.

Lemma SetCompact_parts c :
  in_u 32 c ->
  c ≫ 24 = exponent c /\ Z.land c 0x007fffff = mantissa c /\
  0 <= exponent c < 256 /\ 0 <= mantissa c < 2 ^ 23.
Proof.
  intros Hc. unfold in_u, exponent, mantissa in *.
  rewrite Z.shiftr_div_pow2 by lia. change 0x007fffff with (2 ^ 23 - 1). rewrite land_ones_mod by lia.
  split_and!; [done|done|apply Z.div_pos; lia|apply Z.div_lt_upper_bound; lia| |];
    apply Z.mod_pos_bound; lia.
Qed.

Lemma compact_value_nonneg c : in_u 32 c -> 0 <= compact_value c.
Proof.
  intros Hc. destruct (SetCompact_parts c Hc) as (_ & _ & Her & Hmr).
  unfold compact_value. case_if; [apply Z.div_pos; [lia|apply Z.pow_pos_nonneg; lia]|].
  apply Z.mul_nonneg_nonneg; [lia|apply Z.pow_nonneg; lia].
Qed.

(** The largest representable target leaves room for one more. *)
Lemma compact_value_not_max c : in_u 32 c -> compact_value c <> 2 ^ 256 - 1.
Proof.
  intros Hc. destruct (SetCompact_parts c Hc) as (_ & _ & Her & Hmr). unfold compact_value.
  case_if.
  - intros Heq. pose proof (Z.div_le_upper_bound (mantissa c) (256 ^ (3 - exponent c)) (2 ^ 23)
      ltac:(apply Z.pow_pos_nonneg; lia)) as H.
    pose proof (Z.pow_pos_nonneg 256 (3 - exponent c) ltac:(lia) ltac:(lia)).
    pose proof (H ltac:(nia)). lia.
  - replace (exponent c - 3) with (Z.succ (exponent c - 4)) by lia.
    rewrite Z.pow_succ_r by lia. intros Heq. apply (f_equal Z.odd) in Heq.
    rewrite !Z.odd_mul, andb_false_r in Heq. done.
Qed.

(** The decoded value, and what the two flags mean. *)
Lemma SetCompact_spec c :
  in_u 32 c ->
  let '(a, neg, ovf) := SetCompact c in
  wf 8 a /\ le_val 32 a = compact_value c mod 2 ^ 256 /\
  neg = negb (compact_value c =? 0) && Z.testbit c 23 /\
  ovf = (2 ^ 256 <=? compact_value c).
Proof.
  intros Hc. destruct (SetCompact_parts c Hc) as (He & Hm & Her & Hmr).
  unfold SetCompact. rewrite He, Hm. change 0x00800000 with (2 ^ 23). rewrite land_bit by lia.
  assert (negb ((if Z.testbit c 23 then 2 ^ 23 else 0) =? 0) = Z.testbit c 23) as Hneg
    by by destruct (Z.testbit c 23).
  unfold compact_value. destruct (exponent c <=? 3) eqn:E; cases_bool.
  - rewrite Z.shiftr_div_pow2, <- pow256 by lia. set (v := mantissa c / _).
    assert (0 <= v < 2 ^ 23).
    { pose proof (Z.pow_pos_nonneg 256 (3 - exponent c) ltac:(lia) ltac:(lia)).
      split; [apply Z.div_pos; lia|]. apply Z.div_lt_upper_bound; nia. }
    destruct (add_sub_u64_spec 8 (zero 8) v ltac:(lia) (wf_zero 8) ltac:(unfold in_u; lia)) as [Hw Hv].
    split_and!; [done|rewrite Hv, Z.mod_small; lia|by rewrite Hneg|].
    destruct (2 ^ 256 <=? v) eqn:E'; cases_bool; [lia|].
    rewrite (proj2 (Z.ltb_ge 34 _)), (proj2 (Z.ltb_ge 33 _)), (proj2 (Z.ltb_ge 32 _)) by lia.
    by rewrite !andb_false_r.
  - destruct (add_sub_u64_spec 8 (zero 8) (mantissa c) ltac:(lia) (wf_zero 8) ltac:(unfold in_u; lia)) as [Hw Hv].
    destruct (shl_assign_spec 8 _ (8 * (exponent c - 3)) Hw ltac:(lia)) as [Hw' Hv'].
    rewrite pow256 by lia. set (p := 2 ^ (8 * (exponent c - 3))) in *.
    assert (0 < p) by (apply pow2_pos; lia).
    split_and!; [done|by rewrite Hv', Hv| |].
    + rewrite Hneg. destruct (mantissa c =? 0) eqn:E0, (mantissa c * p =? 0) eqn:E1; cases_bool; (reflexivity || (exfalso; nia)).
    + destruct (mantissa c =? 0) eqn:E0; cases_bool; simpl.
      { rewrite E0, Z.mul_0_l. done. }
      destruct (decide (34 < exponent c)).
      * assert (2 ^ 256 <= p) by (apply Z.pow_le_mono_r; lia).
        rewrite (proj2 (Z.ltb_lt 34 _)) by lia. symmetry. simpl. apply Z.leb_le. nia.
      * destruct (decide (exponent c <= 32)).
        { assert (p <= 2 ^ 232) by (apply Z.pow_le_mono_r; lia).
          rewrite (proj2 (Z.ltb_ge 34 _)), (proj2 (Z.ltb_ge 33 _)), (proj2 (Z.ltb_ge 32 _)) by lia.
          rewrite !andb_false_r. simpl. symmetry. apply Z.leb_gt.
          apply Z.le_lt_trans with (mantissa c * 2 ^ 232); [nia|]. lia. }
        assert (exponent c = 33 \/ exponent c = 34) as [E3|E3] by lia; subst p; rewrite E3;
          cbn -[Z.pow Z.mul Z.ltb Z.leb];
          destruct (255 <? mantissa c) eqn:?, (65535 <? mantissa c) eqn:?; cases_bool; try lia;
          symmetry; (apply Z.leb_le; lia) || (apply Z.leb_gt; lia).
Qed.

Lemma log2_bytes v : 0 < v -> let n := (Z.log2 v + 1 + 7) / 8 in
  1 <= n /\ 256 ^ (n - 1) <= v < 256 ^ n.
Proof.
  intros Hv. cbv zeta. set (n := (Z.log2 v + 1 + 7) / 8).
  pose proof (Z.log2_spec v Hv). pose proof (Z.log2_nonneg v).
  assert (8 * n <= Z.log2 v + 8 < 8 * n + 8).
  { pose proof (Z.div_mod (Z.log2 v + 1 + 7) 8). pose proof (Z.mod_pos_bound (Z.log2 v + 1 + 7) 8). lia. }
  rewrite !pow256 by lia. split; [lia|]. split.
  - apply Z.le_trans with (2 ^ Z.log2 v); [apply Z.pow_le_mono_r; lia|lia].
  - apply Z.lt_le_trans with (2 ^ Z.succ (Z.log2 v)); [lia|apply Z.pow_le_mono_r; lia].
Qed.

(** The first stage of [GetCompact]: a 24-bit mantissa with its byte count. *)
Lemma GetCompact_mantissa a :
  wf 8 a ->
  let v := le_val 32 a in
  let n := (bits 8 a + 7) / 8 in
  let m := if n <=? 3 then u32 (u64 (GetLow64 a ≪ (8 * (3 - n))))
           else u32 (GetLow64 (shr_assign 8 a (8 * (n - 3)))) in
  (v = 0 /\ n = 0 /\ m = 0) \/
  (0 < v /\ 1 <= n <= 32 /\ 2 ^ 16 <= m < 2 ^ 24 /\
   256 ^ (n - 1) <= v < 256 ^ n /\
   m = if n <=? 3 then v * 256 ^ (3 - n) else v / 256 ^ (n - 3)).
Proof.
  intros Ha. cbv zeta. pose proof (wf_bound 8 _ Ha) as Hb. change (2 ^ (32 * 8%nat)) with (2 ^ 256) in Hb.
  rewrite bits_spec by done. destruct (le_val 32 a =? 0) eqn:E; cases_bool.
  { left. simpl. rewrite (GetLow64_spec 8), E by (done || lia). done. }
  right. set (v := le_val 32 a) in *. set (n := (Z.log2 v + 1 + 7) / 8).
  destruct (log2_bytes v ltac:(lia)) as [Hn [Hlo Hhi]]. fold n in Hn, Hlo, Hhi.
  assert (n <= 32) as Hn32.
  { destruct (decide (n <= 32)); [done|]. exfalso.
    assert (256 ^ 32 <= 256 ^ (n - 1)) by (apply Z.pow_le_mono_r; lia).
    change (256 ^ 32) with (2 ^ 256) in *. lia. }
  destruct (n <=? 3) eqn:E3; cases_bool.
  - assert (256 ^ n * 256 ^ (3 - n) = 2 ^ 24) as Ep
      by (rewrite <- Z.pow_add_r by lia; replace (n + (3 - n)) with 3 by lia; done).
    assert (256 ^ (n - 1) * 256 ^ (3 - n) = 2 ^ 16) as Ep'
      by (rewrite <- Z.pow_add_r by lia; replace (n - 1 + (3 - n)) with 2 by lia; done).
    pose proof (Z.pow_pos_nonneg 256 (3 - n) ltac:(lia) ltac:(lia)).
    assert (256 ^ n <= 256 ^ 3) by (apply Z.pow_le_mono_r; lia).
    change (256 ^ 3) with (2 ^ 24) in *.
    assert (2 ^ 16 <= v * 256 ^ (3 - n) < 2 ^ 24) by nia.
    rewrite (GetLow64_spec 8) by (done || lia). fold v.
    rewrite (Z.mod_small v) by lia. rewrite Z.shiftl_mul_pow2, <- pow256 by lia.
    rewrite u64_small, (uwrap_small 32) by (unfold in_u; lia). split_and!; lia.
  - destruct (shr_assign_spec 8 a (8 * (n - 3)) Ha ltac:(lia)) as [Hs Hsv].
    rewrite (GetLow64_spec 8) by (done || lia). rewrite Hsv, <- pow256 by lia. fold v.
    pose proof (Z.pow_pos_nonneg 256 (n - 3) ltac:(lia) ltac:(lia)).
    assert (256 ^ n = 256 ^ (n - 3) * 2 ^ 24) as Ep
      by (change (2 ^ 24) with (256 ^ 3); rewrite <- Z.pow_add_r by lia; f_equal; lia).
    assert (256 ^ (n - 1) = 256 ^ (n - 3) * 2 ^ 16) as Ep'
      by (change (2 ^ 16) with (256 ^ 2); rewrite <- Z.pow_add_r by lia; f_equal; lia).
    assert (2 ^ 16 <= v / 256 ^ (n - 3) < 2 ^ 24).
    { split; [apply Z.div_le_lower_bound; lia|apply Z.div_lt_upper_bound; lia]. }
    rewrite Z.mod_small, (uwrap_small 32) by (unfold in_u; lia). split_and!; lia.
Qed.

Lemma testbit_top m n : 0 <= n -> 0 <= m < 2 ^ (n + 1) -> Z.testbit m n = (2 ^ n <=? m).
Proof.
  intros Hn Hm. rewrite Z.pow_add_r in Hm by lia. change (2 ^ 1) with 2 in Hm.
  destruct (2 ^ n <=? m) eqn:E; cases_bool.
  - rewrite Z.testbit_true by done.
    replace (m / 2 ^ n) with 1; [done|]. apply (Z.div_unique _ _ _ (m - 2 ^ n)); lia.
  - apply (testbit_small _ n); [unfold in_u; lia|lia].
Qed.

(** [GetCompact] never fails its assertions; its mantissa is normalised and
    truncates the value towards zero. *)
Lemma GetCompact_spec a neg :
  wf 8 a ->
  let v := le_val 32 a in
  exists e m,
    GetCompact a neg = Some (e * 2 ^ 24 + m + (if neg && negb (m =? 0) then 2 ^ 23 else 0)) /\
    0 <= m < 2 ^ 23 /\ 0 <= e <= 33 /\
    (v = 0 -> e = 0 /\ m = 0) /\ (0 < v -> 1 <= e /\ 2 ^ 15 <= m) /\
    m = (if e <=? 3 then v * 256 ^ (3 - e) else v / 256 ^ (e - 3)).
Proof.
  intros Ha v. pose proof (GetCompact_mantissa a Ha) as HM. unfold GetCompact.
  cbv zeta in HM. fold v in HM. set (n := (bits 8 a + 7) / 8) in *.
  match type of HM with _ \/ (_ /\ _ /\ _ <= ?x < _ /\ _) => set (m := x) in * end.
  assert (0 <= m < 2 ^ 24 /\ 0 <= n <= 32) as [Hm Hn] by (destruct HM as [HM|HM]; lia).
  change 0x00800000 with (2 ^ 23). rewrite land_bit by lia. rewrite (testbit_top m 23) by lia.
  set (p := if negb ((if 2 ^ 23 <=? m then 2 ^ 23 else 0) =? 0) then (m ≫ 8, n + 1) else (m, n)).
  assert (exists m' e, p = (m', e) /\ 0 <= m' < 2 ^ 23 /\ 0 <= e <= 33 /\
    (v = 0 -> e = 0 /\ m' = 0) /\ (0 < v -> 1 <= e /\ 2 ^ 15 <= m') /\
    m' = (if e <=? 3 then v * 256 ^ (3 - e) else v / 256 ^ (e - 3))) as (m' & e & -> & Hm' & He & Hv0 & Hv1 & Hme).
  { subst p. destruct (2 ^ 23 <=? m) eqn:E; cases_bool; simpl.
    - destruct HM as [HM|(Hv & Hn1 & Hmr & Hvr & Hmeq)]; [lia|].
      exists (m / 2 ^ 8), (n + 1). rewrite Z.shiftr_div_pow2 by lia.
      assert (2 ^ 15 <= m / 2 ^ 8 < 2 ^ 16)
        by (split; [apply Z.div_le_lower_bound; lia|apply Z.div_lt_upper_bound; lia]).
      split_and!; try done || lia. rewrite Hmeq.
      destruct (n <=? 3) eqn:E3, (n + 1 <=? 3) eqn:E4; cases_bool; try lia.
      + replace (256 ^ (3 - n)) with (256 ^ (3 - (n + 1)) * 2 ^ 8)
          by (change (2 ^ 8) with (256 ^ 1); rewrite <- Z.pow_add_r by lia; f_equal; lia).
        by rewrite Z.mul_assoc, Z.div_mul.
      + replace n with 3 by lia. change (256 ^ (3 - 3)) with 1. by rewrite Z.mul_1_r.
      + replace (n + 1 - 3) with (n - 3 + 1) by lia. rewrite Z.pow_add_r by lia.
        by rewrite Z.div_div by lia.
    - exists m, n. destruct HM as [(-> & -> & ->)|(Hv & Hn1 & Hmr & Hvr & Hmeq)].
      + split_and!; done || lia.
      + split_and!; done || lia. }
  exists e, m'. 
  assert (Z.land m' (u32 (Z.lnot 8388607)) = 0) as ->.
  { apply Z.bits_inj'. intros i Hi. rewrite Z.land_spec, Z.bits_0. unfold u32, uwrap.
    destruct (decide (i < 23)).
    - rewrite Z.mod_pow2_bits_low, Z.lnot_spec by lia. change 8388607 with (Z.ones 23).
      rewrite Z.ones_spec_low by lia. by rewrite andb_false_r.
    - by rewrite (testbit_small m' 23) by (done || lia). }
  rewrite (proj2 (Z.ltb_lt e 256)) by lia. cbn [negb Z.eqb].
  assert (Z.lor m' (u32 (e ≪ 24)) = m' + e * 2 ^ 24) as ->.
  { rewrite u32_small by (rewrite Z.shiftl_mul_pow2 by lia; unfold in_u; lia). apply lor_low_high; lia. }
  assert (Z.land (m' + e * 2 ^ 24) 8388607 = m') as ->.
  { change 8388607 with (2 ^ 23 - 1). rewrite land_ones_mod by lia.
    replace (m' + e * 2 ^ 24) with (m' + e * 2 * 2 ^ 23) by lia. rewrite Z.mod_add by lia. by apply Z.mod_small. }
  split_and!; try done || lia. f_equal. destruct (neg && negb (m' =? 0)).
  - rewrite lor_disjoint_add; [lia|]. rewrite land_bit by lia.
    assert (Z.testbit (m' + e * 2 ^ 24) 23 = false) as ->; [|done].
    rewrite Z.testbit_false by lia. replace (m' + e * 2 ^ 24) with (m' + e * 2 * 2 ^ 23) by lia.
    rewrite Z.div_add, (Z.div_small m') by lia. rewrite Z.add_0_l, Z.mod_mul; lia.
  - rewrite Z.lor_0_r. lia.
Qed.

(** Mantissas in [[2^15, 2^23)] determine the exponent. *)
Lemma exponent_unique v e e' :
  0 <= e -> 0 <= e' ->
  2 ^ 15 * 256 ^ e <= v < 2 ^ 23 * 256 ^ e -> 2 ^ 15 * 256 ^ e' <= v < 2 ^ 23 * 256 ^ e' -> e = e'.
Proof.
  intros He He' H H'.
  assert (forall x y, 0 <= x < y -> 2 ^ 23 * 256 ^ x <= 2 ^ 15 * 256 ^ y) as Hmono.
  { intros x y Hxy. change (2 ^ 23) with (2 ^ 15 * 256 ^ 1). rewrite <- Z.mul_assoc, <- Z.pow_add_r by lia.
    apply Z.mul_le_mono_nonneg_l; [lia|]. apply Z.pow_le_mono_r; lia. }
  destruct (Z.lt_trichotomy e e') as [Hlt|[Heq|Hgt]]; [|done|].
  - specialize (Hmono e e'). lia.
  - specialize (Hmono e' e). lia.
Qed.

(** The range of a number whose truncated mantissa is [m] at exponent [e]. *)
Lemma mantissa_range v e m :
  0 <= v -> 0 <= e -> 2 ^ 15 <= m < 2 ^ 23 ->
  m = (if e <=? 3 then v * 256 ^ (3 - e) else v / 256 ^ (e - 3)) ->
  2 ^ 15 * 256 ^ e <= v * 256 ^ 3 < 2 ^ 23 * 256 ^ e.
Proof.
  intros Hv He Hm ->. destruct (e <=? 3) eqn:E; cases_bool.
  - replace (256 ^ 3) with (256 ^ (3 - e) * 256 ^ e) by (rewrite <- Z.pow_add_r by lia; f_equal; lia).
    pose proof (Z.pow_pos_nonneg 256 e ltac:(lia) ltac:(lia)). nia.
  - replace (256 ^ e) with (256 ^ (e - 3) * 256 ^ 3) by (rewrite <- Z.pow_add_r by lia; f_equal; lia).
    pose proof (Z.pow_pos_nonneg 256 (e - 3) ltac:(lia) ltac:(lia)) as Hp.
    pose proof (Z.div_mod v (256 ^ (e - 3)) ltac:(lia)).
    pose proof (Z.mod_pos_bound v (256 ^ (e - 3)) Hp). change (256 ^ 3) with 16777216. nia.
Qed.

(** A compact number that [GetCompact] can produce: positive, with a
    normalised mantissa, no discarded low bytes, and a value of 256 bits. *)
Definition canonical (c : Z) : Prop :=
  c = 0 \/
  (Z.testbit c 23 = false /\ 1 <= exponent c /\ 2 ^ 15 <= mantissa c /\
   (exponent c < 3 -> mantissa c mod 256 ^ (3 - exponent c) = 0) /\
   compact_value c < 2 ^ 256).

Lemma compact_split c : in_u 32 c -> Z.testbit c 23 = false -> c = exponent c * 2 ^ 24 + mantissa c.
Proof.
  unfold exponent, mantissa, in_u. intros Hc Hb. rewrite Z.testbit_false in Hb by lia.
  pose proof (Z.div_mod c (2 ^ 23) ltac:(lia)).
  pose proof (Z.div_mod (c / 2 ^ 23) 2 ltac:(lia)). rewrite Z.div_div in * by lia.
  change (2 ^ 23 * 2) with (2 ^ 24) in *. lia.
Qed.

(** Decoding a canonical compact target and encoding the 256-bit number
    again gives the same 32 bits. *)
Theorem SetCompact_roundtrip c :
  in_u 32 c -> canonical c -> GetCompact (SetCompact c).1.1 false = Some c.
Proof.
  intros Hc Hcan. pose proof (SetCompact_spec c Hc) as Hspec.
  destruct (SetCompact c) as [[a neg] ovf]. simpl. destruct Hspec as (Ha & Hv & _).
  destruct (GetCompact_spec a false Ha) as (e & m & Hget & Hm & He & Hv0 & Hv1 & Hme).
  rewrite Hget. simpl. f_equal. rewrite Z.add_0_r.
  destruct (SetCompact_parts c Hc) as (_ & _ & Her & Hmr).
  destruct Hcan as [->|(Hbit & Hexp & Hman & Hlow & Hfit)].
  { destruct Hv0 as [-> ->]; [by rewrite Hv|done]. }
  pose proof (compact_value_nonneg c Hc) as Hpos.
  rewrite Z.mod_small in Hv by done.
  assert (mantissa c = if exponent c <=? 3 then le_val 32 a * 256 ^ (3 - exponent c)
                       else le_val 32 a / 256 ^ (exponent c - 3)) as Hmc.
  { rewrite Hv. unfold compact_value.
    pose proof (Z.pow_pos_nonneg 256 (3 - exponent c) ltac:(lia)).
    pose proof (Z.pow_pos_nonneg 256 (exponent c - 3) ltac:(lia)). case_if.
    - pose proof (Z.div_mod (mantissa c) (256 ^ (3 - exponent c)) ltac:(lia)) as Hdm.
      destruct (decide (exponent c < 3)); [rewrite Hlow in Hdm by done; lia|].
      replace (exponent c) with 3 by lia. simpl. rewrite Z.div_1_r. lia.
    - by rewrite Z.div_mul by lia. }
  assert (0 < le_val 32 a) as Hvpos.
  { destruct (decide (le_val 32 a = 0)) as [E|]; [|lia]. exfalso. rewrite E in Hmc. case_if_in Hmc.
    - lia.
    - rewrite Z.div_0_l in Hmc; [lia|]. pose proof (Z.pow_pos_nonneg 256 (exponent c - 3)). lia. }
  destruct (Hv1 Hvpos) as [He1 Hm1].
  assert (e = exponent c) as ->.
  { apply (exponent_unique (le_val 32 a * 256 ^ 3)); [lia|lia| |];
      [apply (mantissa_range _ e m)|apply (mantissa_range _ _ (mantissa c))]; done || lia. }
  rewrite <- Hmc in Hme. subst m. symmetry. by apply compact_split.
Qed.

(** Encoding loses at most one part in [2^15], always downwards. *)
Lemma GetCompact_truncates a :
  wf 8 a ->
  exists c b, GetCompact a false = Some c /\ in_u 32 c /\ SetCompact c = (b, false, false) /\
    le_val 32 b <= le_val 32 a /\ (le_val 32 a - le_val 32 b) * 2 ^ 15 <= le_val 32 a.
Proof.
  intros Ha. destruct (GetCompact_spec a false Ha) as (e & m & Hget & Hm & He & Hv0 & Hv1 & Hme).
  set (v := le_val 32 a) in *. simpl in Hget. rewrite Z.add_0_r in Hget.
  set (c := e * 2 ^ 24 + m) in *.
  assert (in_u 32 c) as Hc by (unfold in_u; lia).
  assert (exponent c = e) as Hec.
  { unfold exponent. symmetry. apply (Z.div_unique _ _ _ m); lia. }
  assert (mantissa c = m) as Hmc.
  { unfold mantissa, c. replace (e * 2 ^ 24 + m) with (m + e * 2 * 2 ^ 23) by lia.
    rewrite Z.mod_add by lia. apply Z.mod_small. lia. }
  assert (Z.testbit c 23 = false) as Hbit.
  { rewrite Z.testbit_false by lia. unfold c. replace (e * 2 ^ 24 + m) with (m + e * 2 * 2 ^ 23) by lia.
    rewrite Z.div_add, Z.div_small, Z.add_0_l by lia. apply Z.mod_mul. lia. }
  pose proof (wf_bound 8 _ Ha) as Hb. change (2 ^ (32 * 8%nat)) with (2 ^ 256) in Hb. fold v in Hb.
  assert (0 <= compact_value c <= v /\ (v - compact_value c) * 2 ^ 15 <= v) as [Hcv Herr].
  { unfold compact_value. rewrite Hec, Hmc. subst m. case_if.
    - pose proof (Z.pow_pos_nonneg 256 (3 - e) ltac:(lia) ltac:(lia)). rewrite Z.div_mul by lia. lia.
    - pose proof (Z.pow_pos_nonneg 256 (e - 3) ltac:(lia) ltac:(lia)) as Hp.
      pose proof (Z.div_mod v (256 ^ (e - 3)) ltac:(lia)).
      pose proof (Z.mod_pos_bound v (256 ^ (e - 3)) Hp). nia. }
  pose proof (SetCompact_spec c Hc) as Hspec.
  destruct (SetCompact c) as [[b neg] ovf] eqn:E. destruct Hspec as (Hw & Hbv & -> & ->).
  exists c, b. rewrite Z.mod_small in Hbv by lia.
  rewrite Hbit, andb_false_r, (proj2 (Z.leb_gt _ _)) in E by lia.
  split_and!; [done..|lia|lia].
Qed.

(** [SetCompact] yields mantissa times 256 to the exponent minus three,
    reduced to 256 bits; it reports a negative number exactly for a set sign bit
    on a nonzero number and an overflow exactly when the number does not fit.
    [GetCompact] never asserts, and what it encodes decodes without flags to a
    number that is not larger and is off by less than one part in 2^15. *)
Theorem compact_codec c a :
  in_u 32 c -> wf 8 a ->
  (let '(v, neg, ovf) := SetCompact c in
   wf 8 v /\ le_val 32 v = compact_value c mod 2 ^ 256 /\
   neg = negb (compact_value c =? 0) && Z.testbit c 23 /\ ovf = (2 ^ 256 <=? compact_value c)) /\
  (exists c' b, GetCompact a false = Some c' /\ in_u 32 c' /\ SetCompact c' = (b, false, false) /\
    le_val 32 b <= le_val 32 a /\ (le_val 32 a - le_val 32 b) * 2 ^ 15 <= le_val 32 a).
Proof. intros Hc Ha. split; [by apply SetCompact_spec|by apply GetCompact_truncates]. Qed.

Lemma SetCompact_roundtrip_witness : GetCompact (SetCompact 0x1d00ffff).1.1 false = Some 0x1d00ffff.
Proof.
  apply (SetCompact_roundtrip 0x1d00ffff); [unfold in_u; lia|].
  right. split_and!; [reflexivity|vm_compute; done|vm_compute; done| |vm_compute; done].
  intros H. vm_compute in H. done.
Defined.

Lemma compact_codec_witness :
  (SetCompact 0x04923456).1.2 = true /\ (SetCompact 0xff123456).2 = true /\
  exists c' b, GetCompact (of_u64 8 0x123456789a) false = Some c' /\ SetCompact c' = (b, false, false).
Proof.
  assert (wf 8 (of_u64 8 0x123456789a)) as Ha by (split; [reflexivity|repeat constructor; cbv; done]).
  destruct (compact_codec 0x04923456 _ ltac:(unfold in_u; lia) Ha) as [H1 H2].
  destruct (compact_codec 0xff123456 _ ltac:(unfold in_u; lia) Ha) as [H3 _].
  split_and!.
  - destruct (SetCompact 0x04923456) as [[? ?] ?]. destruct H1 as (_ & _ & -> & _). vm_compute. reflexivity.
  - destruct (SetCompact 0xff123456) as [[? ?] ?]. destruct H3 as (_ & _ & _ & ->). vm_compute. reflexivity.
  - destruct H2 as (c' & b & Hg & _ & Hs & _). exists c', b. exact (conj Hg Hs).
Defined.

End Compact.
