(* ===== verification/Uint256.v ===== *)
(** * Opaque blobs ([uint256.h], [uint256.cpp], [crypto/common.h])

    [base_blob<BITS>] is an array of [BITS/8] bytes, modelled as a list of
    byte values.  The file has the little- and big-endian word accessors, the
    blob operations, hexadecimal input and output, the conversions between
    blobs and limb arrays, and the 512-bit classes. *)
From stdpp Require Import prelude.
From S2P Require Import Prelude ArithUint256.

(** ** Word accessors ([crypto/common.h]) *)

Definition ReadLE (n : nat) (buf : list Z) (off : nat) : Z := le_val 8 (take n (drop off buf)).
Definition ReadLE16 := ReadLE 2.
Definition ReadLE32 := ReadLE 4.
Definition ReadLE64 := ReadLE 8.

Definition WriteLE (n : nat) (buf : list Z) (off : nat) (x : Z) : list Z :=
  take off buf ++ le_digits 8 n x ++ drop (off + n) buf.
Definition WriteLE16 := WriteLE 2.
Definition WriteLE32 := WriteLE 4.
Definition WriteLE64 := WriteLE 8.

Definition ReadBE (n : nat) (buf : list Z) (off : nat) : Z := le_val 8 (rev (take n (drop off buf))).
Definition ReadBE32 := ReadBE 4.
Definition ReadBE64 := ReadBE 8.
Definition WriteBE (n : nat) (buf : list Z) (off : nat) (x : Z) : list Z :=
  take off buf ++ rev (le_digits 8 n x) ++ drop (off + n) buf.
Definition WriteBE32 := WriteBE 4.
Definition WriteBE64 := WriteBE 8.

(** [WriteBE(out + off, x0); WriteBE(out + off + n, x1); ...] *)
Fixpoint WriteBEs (n : nat) (out : list Z) (off : nat) (l : list Z) : list Z :=
  match l with
  | [] => out
  | x :: r => WriteBEs n (WriteBE n out off x) (off + n) r
  end.

(** The little-endian sequence of writes. *)
Fixpoint WriteLEs (n : nat) (out : list Z) (off : nat) (l : list Z) : list Z :=
  match l with
  | [] => out
  | x :: r => WriteLEs n (WriteLE n out off x) (off + n) r
  end.

(** [CountBits]: the portable loop. *)
Fixpoint CountBits_loop (fuel : nat) (x ret : Z) : Z :=
  match fuel with
  | O => ret
  | S fuel' => if negb (x =? 0) then CountBits_loop fuel' (x ≫ 1) (ret + 1) else ret
  end.
Definition CountBits (x : Z) : Z := CountBits_loop 64 x 0.

Module Blob.

(** A blob of [n] bytes. *)
Definition wf (n : nat) (b : list Z) : Prop := length b = n /\ digits 8 b.

(** The default (null) blob, and [SetNull]. *)
Definition null (n : nat) : list Z := replicate n 0.

(** [IsNull]. *)
Fixpoint IsNull (m_data : list Z) : bool :=
  match m_data with
  | [] => true
  | x :: r => if negb (x =? 0) then false else IsNull r
  end.

(** [Compare] is [memcmp]: the sign of the first difference. *)
Fixpoint Compare (a b : list Z) : Z :=
  match a, b with
  | x :: a', y :: b' => if x <? y then -1 else if y <? x then 1 else Compare a' b'
  | _, _ => 0
  end.
Definition blob_eqb (a b : list Z) : bool := Compare a b =? 0.
Definition blob_ltb (a b : list Z) : bool := Compare a b <? 0.

(** [GetUint64]. *)
Definition GetUint64 (m_data : list Z) (pos : nat) : Z :=
  let ptr := drop (pos * 8) m_data in
  Z.lor (Z.lor (Z.lor (Z.lor (Z.lor (Z.lor (Z.lor
    ptr.[0] (u64 (ptr.[1] ≪ 8))) (u64 (ptr.[2] ≪ 16))) (u64 (ptr.[3] ≪ 24)))
    (u64 (ptr.[4] ≪ 32))) (u64 (ptr.[5] ≪ 40))) (u64 (ptr.[6] ≪ 48))) (u64 (ptr.[7] ≪ 56)).

(** [uint256::GetNibble]: nibble 0 is the most significant one. *)
Definition GetNibble (m_data : list Z) (index : Z) : Z :=
  let index := 63 - index in
  if index mod 2 =? 1 then m_data.[Z.to_nat (index / 2)] ≫ 4
  else Z.land m_data.[Z.to_nat (index / 2)] 0x0F.

(** [uint256::GetCheapHash]. *)
Definition GetCheapHash (m_data : list Z) : Z := ReadLE64 m_data 0.

(** [uint512::trim256]: the first 32 bytes. *)
Definition trim256_blob (m_data : list Z) : list Z := take 32 m_data.

End Blob.

(** ** Conversions between blobs and numbers ([arith_uint256.cpp]) *)

Definition UintToArith256 (a : list Z) : list Z :=
  for_range 0 8 (fun x b => <[x := ReadLE32 a (x * 4)]> b) (BaseUint.zero 8).
Definition ArithToUint256 (a : list Z) : list Z :=
  for_range 0 8 (fun x b => WriteLE32 b (x * 4) a.[x]) (Blob.null 32).
Definition UintToArith512 (a : list Z) : list Z :=
  for_range 0 16 (fun x b => <[x := ReadLE32 a (x * 4)]> b) (BaseUint.zero 16).
Definition ArithToUint512 (a : list Z) : list Z :=
  for_range 0 16 (fun x b => WriteLE32 b (x * 4) a.[x]) (Blob.null 64).

(** [arith_uint512(const arith_uint256&)] and [arith_uint512::trim256]. *)
Definition arith_uint512_of_256 (b : list Z) : list Z :=
  for_range 0 8 (fun i pn => <[i := b.[i]]> pn) (BaseUint.zero 16).
Definition trim256 (pn : list Z) : list Z := take 8 pn.

(** ** Theorems *)

Lemma drop_add {A} n m (l : list A) : drop (n + m) l = drop m (drop n l).
Proof. by rewrite drop_drop. Qed.

Lemma le_val_zeros_tail w (l : list Z) n k :
  0 < w -> drop n l = replicate k 0 -> le_val w l = le_val w (take n l).
Proof.
  intros Hw H. rewrite <- (take_drop n l) at 1. rewrite le_val_app, H, le_val_replicate_0 by lia. lia.
Qed.

Section conv.
Context (W : nat).

Lemma UintToArith_spec a :
  Blob.wf (4 * W) a ->
  let b := for_range 0 W (fun x b => <[x := ReadLE32 a (x * 4)]> b) (BaseUint.zero W) in
  BaseUint.wf W b /\ le_val 32 b = le_val 8 a.
Proof.
  intros [Hl Hd]. cbv zeta.
  enough (let b := for_range 0 W (fun x b => <[x := ReadLE32 a (x * 4)]> b) (BaseUint.zero W) in
    BaseUint.wf W b /\ le_val 32 b = le_val 8 (take (4 * W) a) /\
    forall j : nat, (W <= j)%nat -> b.[j] = 0) as (? & Hv & _).
  { split; [done|]. rewrite Hv, take_ge by lia. done. }
  cbv zeta. apply (for_range_ind (fun i b => BaseUint.wf W b /\
    le_val 32 b = le_val 8 (take (4 * i) a) /\ forall j : nat, (i <= j)%nat -> b.[j] = 0)); [lia| |].
  { split; [apply BaseUint.wf_zero|]. rewrite BaseUint.val_zero. split; [done|].
    intros. apply nth_replicate_0. }
  intros i b Hi (Hb & Hv & Hz).
  assert (length (take 4 (drop (i * 4) a)) = 4%nat) as Hlen by (rewrite length_take, length_drop; lia).
  assert (digits 8 (take 4 (drop (i * 4) a))) as Hdig by (by apply Forall_take, Forall_drop).
  pose proof (le_val_bound 8 ltac:(lia) _ Hdig) as Hbound. rewrite Hlen in Hbound.
  split; [|split].
  - apply BaseUint.wf_insert; done.
  - rewrite le_val_insert by (lia || rewrite (proj1 Hb); lia). rewrite Hz by lia.
    replace (4 * S i)%nat with (4 * i + 4)%nat by lia. rewrite <- take_take_drop, le_val_app by lia.
    rewrite length_take_le by lia. rewrite Hv. unfold ReadLE32, ReadLE.
    replace (i * 4)%nat with (4 * i)%nat by lia. replace (8 * (4 * i)%nat) with (32 * i) by lia. lia.
  - intros j Hj. rewrite nth_insert by (rewrite (proj1 Hb); lia). case_decide; [lia|]. apply Hz. lia.
Qed.

Lemma ArithToUint_spec a :
  BaseUint.wf W a ->
  let b := for_range 0 W (fun x b => WriteLE32 b (x * 4) a.[x]) (Blob.null (4 * W)) in
  Blob.wf (4 * W) b /\ le_val 8 b = le_val 32 a.
Proof.
  intros Ha. cbv zeta.
  enough (let b := for_range 0 W (fun x b => WriteLE32 b (x * 4) a.[x]) (Blob.null (4 * W)) in
    Blob.wf (4 * W) b /\ le_val 8 b = le_val 32 (take W a) /\
    drop (4 * W) b = replicate (4 * W - 4 * W) 0) as (? & Hv & _).
  { split; [done|]. rewrite Hv, take_ge by (rewrite (proj1 Ha); lia). done. }
  cbv zeta. apply (for_range_ind (fun i b => Blob.wf (4 * W) b /\
    le_val 8 b = le_val 32 (take i a) /\ drop (4 * i) b = replicate (4 * W - 4 * i) 0)); [lia| |].
  { split; [split; [apply length_replicate|apply digits_replicate; lia]|].
    unfold Blob.null. rewrite le_val_replicate_0 by lia. split; [done|].
    by rewrite drop_replicate. }
  intros i b Hi ([Hl Hd] & Hv & Hz). unfold WriteLE32, WriteLE.
  replace (i * 4)%nat with (4 * i)%nat by lia.
  assert (length (take (4 * i) b) = (4 * i)%nat) as Hlt by (rewrite length_take; lia).
  assert (drop (4 * i + 4) b = replicate (4 * W - 4 * S i) 0) as Hrest.
  { rewrite drop_add, Hz, drop_replicate. f_equal. lia. }
  pose proof (BaseUint.wf_nth W a i Ha) as Hai.
  split; [|split].
  - split; [rewrite !length_app, le_digits_length, length_drop; lia|].
    rewrite !digits_app. split_and!; [by apply Forall_take|apply le_digits_digits; lia|by apply Forall_drop].
  - rewrite !le_val_app, Hrest, le_val_replicate_0, le_val_digits by lia.
    rewrite Hlt, Z.mul_0_r, Z.add_0_r.
    rewrite <- (le_val_zeros_tail 8 b (4 * i) (4 * W - 4 * i)) by (done || lia).
    rewrite Hv, le_val_take_S by (rewrite ?(proj1 Ha); lia).
    rewrite Z.mod_small by done. replace (8 * (4 * i)%nat) with (32 * i) by lia. lia.
  - replace (4 * S i)%nat with (4 * i + 4)%nat by lia.
    rewrite app_assoc, drop_app_length' by (rewrite length_app, le_digits_length; lia).
    rewrite Hrest. f_equal. lia.
Qed.
End conv.

Lemma UintToArith256_spec a :
  Blob.wf 32 a -> BaseUint.wf 8 (UintToArith256 a) /\ le_val 32 (UintToArith256 a) = le_val 8 a.
Proof. apply (UintToArith_spec 8). Qed.

Lemma ArithToUint256_spec a :
  BaseUint.wf 8 a -> Blob.wf 32 (ArithToUint256 a) /\ le_val 8 (ArithToUint256 a) = le_val 32 a.
Proof. apply (ArithToUint_spec 8). Qed.

Lemma blob_inj n a b : Blob.wf n a -> Blob.wf n b -> le_val 8 a = le_val 8 b -> a = b.
Proof. intros [? ?] [? ?] ?. apply (le_val_inj 8); [lia|done|done|congruence|done]. Qed.

Lemma uint256_roundtrip a : Blob.wf 32 a -> ArithToUint256 (UintToArith256 a) = a.
Proof.
  intros Ha. destruct (UintToArith256_spec a Ha) as [Hw Hv].
  destruct (ArithToUint256_spec _ Hw) as [Hw' Hv']. apply (blob_inj 32); [done..|congruence].
Qed.

Lemma arith_uint256_roundtrip a : BaseUint.wf 8 a -> UintToArith256 (ArithToUint256 a) = a.
Proof.
  intros Ha. destruct (ArithToUint256_spec a Ha) as [Hw Hv].
  destruct (UintToArith256_spec _ Hw) as [Hw' Hv']. apply (BaseUint.wf_inj 8); [done..|congruence].
Qed.

Lemma arith_uint512_of_256_spec b :
  BaseUint.wf 8 b ->
  BaseUint.wf 16 (arith_uint512_of_256 b) /\ le_val 32 (arith_uint512_of_256 b) = le_val 32 b.
Proof.
  intros Hb. unfold arith_uint512_of_256.
  enough (let r := for_range 0 8 (fun i pn => <[i := b.[i]]> pn) (BaseUint.zero 16) in
    BaseUint.wf 16 r /\ le_val 32 r = le_val 32 (take 8 b) /\
    forall j : nat, (8 <= j)%nat -> r.[j] = 0) as (? & Hv & _).
  { split; [done|]. rewrite Hv, take_ge by (rewrite (proj1 Hb); lia). done. }
  cbv zeta. apply (for_range_ind (fun i r => BaseUint.wf 16 r /\
    le_val 32 r = le_val 32 (take i b) /\ forall j : nat, (i <= j)%nat -> r.[j] = 0)); [lia| |].
  { split; [apply BaseUint.wf_zero|]. split; [done|]. intros. apply nth_replicate_0. }
  intros i r Hi (Hr & Hv & Hz). split; [|split].
  - apply BaseUint.wf_insert; [done|]. by eapply BaseUint.wf_nth.
  - rewrite le_val_insert by (lia || rewrite (proj1 Hr); lia).
    rewrite Hz, le_val_take_S by (rewrite ?(proj1 Hb); lia). lia.
  - intros j Hj. rewrite nth_insert by (rewrite (proj1 Hr); lia). case_decide; [lia|]. apply Hz. lia.
Qed.

Lemma trim256_spec a :
  BaseUint.wf 16 a -> BaseUint.wf 8 (trim256 a) /\ le_val 32 (trim256 a) = le_val 32 a mod 2 ^ 256.
Proof.
  intros [Hl Hd]. unfold trim256.
  assert (BaseUint.wf 8 (take 8 a)) as Hw
    by (split; [rewrite length_take; lia|by apply Forall_take]).
  split; [done|]. pose proof (BaseUint.wf_bound 8 _ Hw) as Hb.
  change (2 ^ (32 * 8%nat)) with (2 ^ 256) in Hb.
  rewrite <- (take_drop 8 a) at 2. rewrite le_val_app, length_take_le by lia.
  change (2 ^ (32 * 8%nat)) with (2 ^ 256). rewrite (Z.mul_comm (2 ^ 256)), Z.mod_add by lia.
  by rewrite Z.mod_small.
Qed.

(** [memcmp] on blobs of one size is zero exactly on equal blobs. *)
Lemma Compare_eq a b : length a = length b -> Blob.Compare a b = 0 <-> a = b.
Proof.
  revert b. induction a as [|x a IH]; intros [|y b] Hl; simpl in *; try done.
  injection Hl as Hl. repeat case_if; split; try done; intros H; try (simplify_eq; lia).
  - f_equal; [lia|by apply IH].
  - simplify_eq. by apply IH.
Qed.

Lemma Compare_antisym a b : Blob.Compare b a = - Blob.Compare a b.
Proof.
  revert b. induction a as [|x a IH]; intros [|y b]; simpl; try done.
  repeat case_if; try lia. apply IH.
Qed.

Lemma IsNull_spec b : Blob.IsNull b = true <-> b = replicate (length b) 0.
Proof.
  induction b as [|x b IH]; simpl; [done|]. case_if; cases_bool.
  - split; [done|]. congruence.
  - rewrite IH. subst. split; congruence.
Qed.

Lemma GetNibble_range b i : digits 8 b -> 0 <= Blob.GetNibble b i < 16.
Proof.
  intros Hb. unfold Blob.GetNibble.
  pose proof (digits_lookup 8 ltac:(lia) b (Z.to_nat ((63 - i) / 2)) Hb) as Hx. unfold in_u in Hx.
  case_if.
  - rewrite Z.shiftr_div_pow2 by lia. split; [apply Z.div_pos; lia|apply Z.div_lt_upper_bound; lia].
  - change 15 with (2 ^ 4 - 1). rewrite land_ones_mod by lia. apply Z.mod_pos_bound. lia.
Qed.

(** A 256-bit blob and the number it denotes in little-endian order
    determine each other: both conversions between [uint256] and
    [arith_uint256] keep the value, and each undoes the other. *)
Theorem uint256_conversion a n :
  Blob.wf 32 a -> BaseUint.wf 8 n ->
  le_val 32 (UintToArith256 a) = le_val 8 a /\ ArithToUint256 (UintToArith256 a) = a /\
  le_val 8 (ArithToUint256 n) = le_val 32 n /\ UintToArith256 (ArithToUint256 n) = n.
Proof.
  intros Ha Hn. split_and!.
  - by apply UintToArith256_spec.
  - by apply uint256_roundtrip.
  - by apply ArithToUint256_spec.
  - by apply arith_uint256_roundtrip.
Qed.

Lemma uint256_conversion_witness :
  le_val 32 (UintToArith256 (1 :: replicate 30 0 ++ [128])) = 2 ^ 255 + 1.
Proof.
  assert (Blob.wf 32 (1 :: replicate 30 0 ++ [128])) as Ha by (split; [reflexivity|repeat constructor; cbv; done]).
  assert (BaseUint.wf 8 (BaseUint.zero 8)) as Hz by (split; [reflexivity|repeat constructor; cbv; done]).
  destruct (uint256_conversion _ _ Ha Hz) as (H & _). exact H.
Defined.
