(* ===== verification/Chain.v ===== *)
(** * The block index and the active chain ([chain.h], [chain.cpp])

    Block index entries are heap objects linked by [pprev] and [pskip]
    pointers; the heap is a finite map from pointers to [CBlockIndex] records,
    and a null pointer is [None].  A function that dereferences a pointer
    returns [None] when the dereference (or an [assert]) fails; the theorems
    show this does not happen on a well-formed index. *)
From stdpp Require Import prelude gmap sorting.
From S2P Require Import Prelude ArithUint256 Compact Uint256.

(** ** Data *)

Record COutPoint := mkOutPoint { op_hash : list Z; op_n : Z }.

Abbreviation ptr := positive.

(** [BlockStatus] bits. *)
Definition BLOCK_VALID_UNKNOWN : Z := 0.
Definition BLOCK_VALID_RESERVED : Z := 1.
Definition BLOCK_VALID_TREE : Z := 2.
Definition BLOCK_VALID_TRANSACTIONS : Z := 3.
Definition BLOCK_VALID_CHAIN : Z := 4.
Definition BLOCK_VALID_SCRIPTS : Z := 5.
Definition BLOCK_VALID_MASK : Z :=
  Z.lor (Z.lor (Z.lor (Z.lor BLOCK_VALID_RESERVED BLOCK_VALID_TREE) BLOCK_VALID_TRANSACTIONS)
    BLOCK_VALID_CHAIN) BLOCK_VALID_SCRIPTS.
Definition BLOCK_HAVE_DATA : Z := 8.
Definition BLOCK_HAVE_UNDO : Z := 16.
Definition BLOCK_HAVE_MASK : Z := Z.lor BLOCK_HAVE_DATA BLOCK_HAVE_UNDO.
Definition BLOCK_FAILED_VALID : Z := 32.
Definition BLOCK_FAILED_CHILD : Z := 64.
Definition BLOCK_FAILED_MASK : Z := Z.lor BLOCK_FAILED_VALID BLOCK_FAILED_CHILD.
Definition BLOCK_OPT_WITNESS : Z := 128.
Definition BLOCK_ASSUMED_VALID : Z := 256.

(** [nFlags] bits. *)
Definition BLOCK_PROOF_OF_STAKE : Z := 1.
Definition BLOCK_STAKE_ENTROPY : Z := 2.
Definition BLOCK_STAKE_MODIFIER : Z := 4.

(** A block index entry. *)
Record CBlockIndex := mkBlockIndex {
  phashBlock : list Z;
  pprev : option ptr;
  pskip : option ptr;
  nHeight : Z;
  nFile : Z;
  nDataPos : Z;
  nUndoPos : Z;
  nChainTrust : list Z;
  nTx : Z;
  nChainTx : Z;
  nStatus : Z;
  nVersion : Z;
  hashMerkleRoot : list Z;
  nTime : Z;
  nBits : Z;
  nNonce : Z;
  nSequenceId : Z;
  nTimeMax : Z;
  nMint : Z;
  nMoneySupply : Z;
  nFlags : Z;
  nStakeModifier : Z;
  nStakeModifierChecksum : Z;
  prevoutStake : COutPoint;
  nStakeTime : Z;
  hashProofOfStake : list Z;
}.

Abbreviation heap := (gmap ptr CBlockIndex).

(** The default constructor. *)
Definition CBlockIndex_default : CBlockIndex := {|
  phashBlock := []; pprev := None; pskip := None; nHeight := 0; nFile := 0; nDataPos := 0;
  nUndoPos := 0; nChainTrust := BaseUint.zero 8; nTx := 0; nChainTx := 0; nStatus := 0;
  nVersion := 0; hashMerkleRoot := Blob.null 32; nTime := 0; nBits := 0; nNonce := 0;
  nSequenceId := 0; nTimeMax := 0; nMint := 0; nMoneySupply := 0; nFlags := 0;
  nStakeModifier := 0; nStakeModifierChecksum := 0;
  prevoutStake := mkOutPoint (Blob.null 32) 0xffffffff; nStakeTime := 0;
  hashProofOfStake := Blob.null 32 |}.

(** Assignments to the fields the operations change. *)
Definition set_nFlags (b : CBlockIndex) (x : Z) : CBlockIndex := {|
  phashBlock := phashBlock b; pprev := pprev b; pskip := pskip b; nHeight := nHeight b;
  nFile := nFile b; nDataPos := nDataPos b; nUndoPos := nUndoPos b; nChainTrust := nChainTrust b;
  nTx := nTx b; nChainTx := nChainTx b; nStatus := nStatus b; nVersion := nVersion b;
  hashMerkleRoot := hashMerkleRoot b; nTime := nTime b; nBits := nBits b; nNonce := nNonce b;
  nSequenceId := nSequenceId b; nTimeMax := nTimeMax b; nMint := nMint b;
  nMoneySupply := nMoneySupply b; nFlags := x; nStakeModifier := nStakeModifier b;
  nStakeModifierChecksum := nStakeModifierChecksum b; prevoutStake := prevoutStake b;
  nStakeTime := nStakeTime b; hashProofOfStake := hashProofOfStake b |}.
Definition set_nStakeModifier (b : CBlockIndex) (x : Z) : CBlockIndex := {|
  phashBlock := phashBlock b; pprev := pprev b; pskip := pskip b; nHeight := nHeight b;
  nFile := nFile b; nDataPos := nDataPos b; nUndoPos := nUndoPos b; nChainTrust := nChainTrust b;
  nTx := nTx b; nChainTx := nChainTx b; nStatus := nStatus b; nVersion := nVersion b;
  hashMerkleRoot := hashMerkleRoot b; nTime := nTime b; nBits := nBits b; nNonce := nNonce b;
  nSequenceId := nSequenceId b; nTimeMax := nTimeMax b; nMint := nMint b;
  nMoneySupply := nMoneySupply b; nFlags := nFlags b; nStakeModifier := x;
  nStakeModifierChecksum := nStakeModifierChecksum b; prevoutStake := prevoutStake b;
  nStakeTime := nStakeTime b; hashProofOfStake := hashProofOfStake b |}.
Definition set_nStatus (b : CBlockIndex) (x : Z) : CBlockIndex := {|
  phashBlock := phashBlock b; pprev := pprev b; pskip := pskip b; nHeight := nHeight b;
  nFile := nFile b; nDataPos := nDataPos b; nUndoPos := nUndoPos b; nChainTrust := nChainTrust b;
  nTx := nTx b; nChainTx := nChainTx b; nStatus := x; nVersion := nVersion b;
  hashMerkleRoot := hashMerkleRoot b; nTime := nTime b; nBits := nBits b; nNonce := nNonce b;
  nSequenceId := nSequenceId b; nTimeMax := nTimeMax b; nMint := nMint b;
  nMoneySupply := nMoneySupply b; nFlags := nFlags b; nStakeModifier := nStakeModifier b;
  nStakeModifierChecksum := nStakeModifierChecksum b; prevoutStake := prevoutStake b;
  nStakeTime := nStakeTime b; hashProofOfStake := hashProofOfStake b |}.
Definition set_pskip (b : CBlockIndex) (x : option ptr) : CBlockIndex := {|
  phashBlock := phashBlock b; pprev := pprev b; pskip := x; nHeight := nHeight b;
  nFile := nFile b; nDataPos := nDataPos b; nUndoPos := nUndoPos b; nChainTrust := nChainTrust b;
  nTx := nTx b; nChainTx := nChainTx b; nStatus := nStatus b; nVersion := nVersion b;
  hashMerkleRoot := hashMerkleRoot b; nTime := nTime b; nBits := nBits b; nNonce := nNonce b;
  nSequenceId := nSequenceId b; nTimeMax := nTimeMax b; nMint := nMint b;
  nMoneySupply := nMoneySupply b; nFlags := nFlags b; nStakeModifier := nStakeModifier b;
  nStakeModifierChecksum := nStakeModifierChecksum b; prevoutStake := prevoutStake b;
  nStakeTime := nStakeTime b; hashProofOfStake := hashProofOfStake b |}.

(** ** Entry accessors *)

Definition IsProofOfStake (b : CBlockIndex) : bool :=
  negb (Z.land (nFlags b) BLOCK_PROOF_OF_STAKE =? 0).
Definition IsProofOfWork (b : CBlockIndex) : bool :=
  negb (negb (Z.land (nFlags b) BLOCK_PROOF_OF_STAKE =? 0)).
Definition SetProofOfStake (b : CBlockIndex) : CBlockIndex :=
  set_nFlags b (Z.lor (nFlags b) BLOCK_PROOF_OF_STAKE).
Definition GetStakeEntropyBit (b : CBlockIndex) : Z :=
  Z.land (nFlags b) BLOCK_STAKE_ENTROPY ≫ 1.
(** [SetStakeEntropyBit]: the result and the entry afterwards. *)
Definition SetStakeEntropyBit (b : CBlockIndex) (nEntropyBit : Z) : bool * CBlockIndex :=
  if 1 <? nEntropyBit then (false, b)
  else (true, set_nFlags b (Z.lor (nFlags b)
          (if negb (nEntropyBit =? 0) then BLOCK_STAKE_ENTROPY else 0))).
Definition GeneratedStakeModifier (b : CBlockIndex) : bool :=
  negb (Z.land (nFlags b) BLOCK_STAKE_MODIFIER =? 0).
Definition SetStakeModifier (b : CBlockIndex) (nModifier : Z) (fGenerated : bool) : CBlockIndex :=
  let b := set_nStakeModifier b nModifier in
  if fGenerated then set_nFlags b (Z.lor (nFlags b) BLOCK_STAKE_MODIFIER) else b.

Definition GetBlockHash (b : CBlockIndex) : list Z := phashBlock b.
Definition GetBlockTime (b : CBlockIndex) : Z := nTime b.
Definition GetBlockTimeMax (b : CBlockIndex) : Z := nTimeMax b.
Definition HaveTxsDownloaded (b : CBlockIndex) : bool := negb (nChainTx b =? 0).

(** [IsValid]; [None] is a failed assertion on the level asked for. *)
Definition IsValid (b : CBlockIndex) (nUpTo : Z) : option bool :=
  if negb (Z.land nUpTo (u32 (Z.lnot BLOCK_VALID_MASK)) =? 0) then None
  else if negb (Z.land (nStatus b) BLOCK_FAILED_MASK =? 0) then Some false
  else Some (nUpTo <=? Z.land (nStatus b) BLOCK_VALID_MASK).
Definition IsAssumedValid (b : CBlockIndex) : bool :=
  negb (Z.land (nStatus b) BLOCK_ASSUMED_VALID =? 0).
(** [RaiseValidity]: the result and the entry afterwards. *)
Definition RaiseValidity (b : CBlockIndex) (nUpTo : Z) : option (bool * CBlockIndex) :=
  if negb (Z.land nUpTo (u32 (Z.lnot BLOCK_VALID_MASK)) =? 0) then None
  else if negb (Z.land (nStatus b) BLOCK_FAILED_MASK =? 0) then Some (false, b)
  else if Z.land (nStatus b) BLOCK_VALID_MASK <? nUpTo then
    let st := nStatus b in
    let st := if negb (Z.land st BLOCK_ASSUMED_VALID =? 0) && (BLOCK_VALID_SCRIPTS <=? nUpTo)
              then Z.land st (u32 (Z.lnot BLOCK_ASSUMED_VALID)) else st in
    Some (true, set_nStatus b (Z.lor (Z.land st (u32 (Z.lnot BLOCK_VALID_MASK))) nUpTo))
  else Some (false, b).

Definition nMedianTimeSpan : nat := 11.

(** [GetMedianTimePast]: the loop fills [pmedian] from the end, so the times
    are in chain order; [std::sort] then orders them. *)
Fixpoint collect_times (h : heap) (n : nat) (p : option ptr) : option (list Z) :=
  match n, p with
  | S n', Some q =>
      b ← h !! q; rest ← collect_times h n' (pprev b); Some (rest ++ [GetBlockTime b])
  | _, _ => Some []
  end.
Definition GetMedianTimePast (h : heap) (p : ptr) : option Z :=
  ts ← collect_times h nMedianTimeSpan (Some p);
  let sorted := merge_sort Z.le ts in
  sorted !! (length sorted / 2)%nat.

(** ** Block file statistics *)

Record CBlockFileInfo := mkBlockFileInfo {
  nBlocks : Z; nSize : Z; nUndoSize : Z; nHeightFirst : Z; nHeightLast : Z;
  nTimeFirst : Z; nTimeLast : Z }.
Definition CBlockFileInfo_null : CBlockFileInfo := mkBlockFileInfo 0 0 0 0 0 0 0.
Definition AddBlock (f : CBlockFileInfo) (nHeightIn nTimeIn : Z) : CBlockFileInfo := {|
  nBlocks := u32 (nBlocks f + 1); nSize := nSize f; nUndoSize := nUndoSize f;
  nHeightFirst := if (nBlocks f =? 0) || (nHeightIn <? nHeightFirst f) then nHeightIn else nHeightFirst f;
  nHeightLast := if nHeightLast f <? nHeightIn then nHeightIn else nHeightLast f;
  nTimeFirst := if (nBlocks f =? 0) || (nTimeIn <? nTimeFirst f) then nTimeIn else nTimeFirst f;
  nTimeLast := if nTimeLast f <? nTimeIn then nTimeIn else nTimeLast f |}.

(** ** The skip list *)

(** Turn the lowest '1' bit of a number into a '0'. *)
Definition InvertLowestOne (n : Z) : Z := Z.land n (n - 1).

(** The height the [pskip] pointer of an entry jumps back to. *)
Definition GetSkipHeight (height : Z) : Z :=
  if height <? 2 then 0
  else if negb (Z.land height 1 =? 0)
       then InvertLowestOne (InvertLowestOne (height - 1)) + 1
       else InvertLowestOne height.

(** The walk of [GetAncestor]; [fuel] bounds the number of steps. *)
Fixpoint GetAncestor_loop (h : heap) (fuel : nat) (height : Z) (pindexWalk : ptr) (heightWalk : Z)
  : option ptr :=
  if heightWalk <=? height then Some pindexWalk
  else match fuel with
  | O => None
  | S fuel' =>
      let heightSkip := GetSkipHeight heightWalk in
      let heightSkipPrev := GetSkipHeight (heightWalk - 1) in
      b ← h !! pindexWalk;
      match pskip b with
      | Some s =>
          if (heightSkip =? height) ||
             ((height <? heightSkip) &&
              negb ((heightSkipPrev <? heightSkip - 2) && (height <=? heightSkipPrev)))
          then GetAncestor_loop h fuel' height s heightSkip
          else q ← pprev b; GetAncestor_loop h fuel' height q (heightWalk - 1)
      | None => q ← pprev b; GetAncestor_loop h fuel' height q (heightWalk - 1)
      end
  end.

(** [GetAncestor]: the outer option is success, the inner one the pointer. *)
Definition GetAncestor (h : heap) (p : ptr) (height : Z) : option (option ptr) :=
  b ← h !! p;
  if (nHeight b <? height) || (height <? 0) then Some None
  else q ← GetAncestor_loop h (Z.to_nat (nHeight b - height)) height p (nHeight b); Some (Some q).

(** [BuildSkip]. *)
Definition BuildSkip (h : heap) (p : ptr) : option heap :=
  b ← h !! p;
  match pprev b with
  | None => Some h
  | Some q =>
      s ← GetAncestor h q (GetSkipHeight (nHeight b));
      Some (<[p := set_pskip b s]> h)
  end.

(** [LastCommonAncestor]: walk both sides in step. *)
Fixpoint lca_loop (h : heap) (fuel : nat) (pa pb : option ptr) : option (option ptr) :=
  if bool_decide (pa = pb) then Some pa
  else match pa, pb, fuel with
  | Some a, Some b, S fuel' =>
      ba ← h !! a; bb ← h !! b; lca_loop h fuel' (pprev ba) (pprev bb)
  | _, _, _ => None
  end.
Definition LastCommonAncestor (h : heap) (pa pb : ptr) : option (option ptr) :=
  ba ← h !! pa; bb ← h !! pb;
  '(pa, pb) ←
    (if nHeight bb <? nHeight ba then a ← GetAncestor h pa (nHeight bb); Some (a, Some pb)
     else if nHeight ba <? nHeight bb then b ← GetAncestor h pb (nHeight ba); Some (Some pa, b)
     else Some (Some pa, Some pb));
  lca_loop h (S (Z.to_nat (Z.min (nHeight ba) (nHeight bb)))) pa pb.

(** [GetLastBlockIndex]: the last entry of the wanted kind up to [pindex]. *)
Fixpoint GetLastBlockIndex_loop (h : heap) (fuel : nat) (p : ptr) (fProofOfStake : bool) : option ptr :=
  b ← h !! p;
  match pprev b with
  | None => Some p
  | Some q =>
      if negb (Bool.eqb (IsProofOfStake b) fProofOfStake) then
        match fuel with O => None | S fuel' => GetLastBlockIndex_loop h fuel' q fProofOfStake end
      else Some p
  end.
Definition GetLastBlockIndex (h : heap) (p : option ptr) (fProofOfStake : bool) : option (option ptr) :=
  match p with
  | None => Some None
  | Some p => b ← h !! p;
      r ← GetLastBlockIndex_loop h (Z.to_nat (nHeight b)) p fProofOfStake; Some (Some r)
  end.

(** ** Trust *)

(** [GetBlockTrust]; [None] is the division-by-zero exception. *)
Definition GetBlockTrust (block : CBlockIndex) : option (list Z) :=
  let '(bnTarget, fNegative, fOverflow) := Compact.SetCompact (nBits block) in
  if fNegative || fOverflow || BaseUint.EqualTo 8 bnTarget 0 then Some (BaseUint.of_u64 8 0)
  else if IsProofOfStake block then
    q ← BaseUint.div_assign 8 (BaseUint.bnot 8 bnTarget)
          (BaseUint.add_assign 8 bnTarget (BaseUint.of_u64 8 1));
    Some (BaseUint.add_assign 8 q (BaseUint.of_u64 8 1))
  else Some (BaseUint.of_u64 8 1).

Definition int64_max : Z := 2 ^ 63 - 1.

(** [GetBlockProofEquivalentTime]. *)
Definition GetBlockProofEquivalentTime (to from tip : CBlockIndex) (nPowTargetSpacing : Z) : option Z :=
  let '(r, sign) :=
    if BaseUint.gtb 8 (nChainTrust to) (nChainTrust from)
    then (BaseUint.sub_assign 8 (nChainTrust to) (nChainTrust from), 1)
    else (BaseUint.sub_assign 8 (nChainTrust from) (nChainTrust to), -1) in
  trust ← GetBlockTrust tip;
  r ← BaseUint.div_assign 8 (BaseUint.mul_assign 8 r (BaseUint.of_u64 8 (u64 nPowTargetSpacing))) trust;
  if 63 <? BaseUint.bits 8 r then Some (sign * int64_max)
  else Some (sign * i64 (BaseUint.GetLow64 r)).

(** ** The active chain ([CChain]) *)

Abbreviation CChain := (list (option ptr)).

Definition Genesis (vChain : CChain) : option ptr :=
  if (0 <? length vChain)%nat then default None (vChain !! 0%nat) else None.
Definition Tip (vChain : CChain) : option ptr :=
  if (0 <? length vChain)%nat then default None (vChain !! (length vChain - 1)%nat) else None.
(** [operator[]]. *)
Definition chain_at (vChain : CChain) (nHeight : Z) : option ptr :=
  if (nHeight <? 0) || (Z.of_nat (length vChain) <=? nHeight) then None
  else default None (vChain !! Z.to_nat nHeight).
Definition Contains (h : heap) (vChain : CChain) (p : ptr) : option bool :=
  b ← h !! p; Some (bool_decide (chain_at vChain (nHeight b) = Some p)).
Definition Next (h : heap) (vChain : CChain) (p : ptr) : option (option ptr) :=
  c ← Contains h vChain p;
  if (c : bool) then b ← h !! p; Some (chain_at vChain (nHeight b + 1)) else Some None.
Definition Height (vChain : CChain) : Z := Z.of_nat (length vChain) - 1.

(** [SetTip]: rewrite entries downwards until the chain already agrees. *)
Fixpoint SetTip_loop (h : heap) (fuel : nat) (vChain : CChain) (p : option ptr) : option CChain :=
  match p with
  | None => Some vChain
  | Some q =>
      b ← h !! q;
      e ← vChain !! Z.to_nat (nHeight b);
      if bool_decide (e = Some q) then Some vChain
      else match fuel with
      | O => None
      | S fuel' => SetTip_loop h fuel' (<[Z.to_nat (nHeight b) := Some q]> vChain) (pprev b)
      end
  end.
Definition SetTip (h : heap) (vChain : CChain) (p : option ptr) : option CChain :=
  match p with
  | None => Some []
  | Some q =>
      b ← h !! q;
      SetTip_loop h (S (Z.to_nat (nHeight b))) (resize (Z.to_nat (nHeight b + 1)) None vChain) p
  end.

(** [GetLocator]: hashes at exponentially increasing distances, down to the
    genesis block. *)
Fixpoint GetLocator_loop (h : heap) (vChain : CChain) (fuel : nat) (nStep : Z)
    (vHave : list (list Z)) (p : option ptr) : option (list (list Z)) :=
  match p with
  | None => Some vHave
  | Some q =>
      b ← h !! q;
      let vHave := vHave ++ [GetBlockHash b] in
      if nHeight b =? 0 then Some vHave
      else
        let nHeight' := Z.max (nHeight b - nStep) 0 in
        c ← Contains h vChain q;
        p' ← (if (c : bool) then Some (chain_at vChain nHeight') else GetAncestor h q nHeight');
        let nStep := if (10 <? length vHave)%nat then i32 (nStep * 2) else nStep in
        match fuel with
        | O => None
        | S fuel' => GetLocator_loop h vChain fuel' nStep vHave p'
        end
  end.
Definition GetLocator (h : heap) (vChain : CChain) (p : option ptr) : option (list (list Z)) :=
  let p := match p with None => Tip vChain | Some _ => p end in
  let fuel := match p with Some q => match h !! q with Some b => Z.to_nat (nHeight b) | None => O end
                         | None => O end in
  GetLocator_loop h vChain fuel 1 [] p.

(** [FindFork]: the last block of [p]'s branch that is in the chain. *)
Fixpoint FindFork_loop (h : heap) (vChain : CChain) (fuel : nat) (p : option ptr) : option (option ptr) :=
  match p with
  | None => Some None
  | Some q =>
      c ← Contains h vChain q;
      if (c : bool) then Some (Some q)
      else match fuel with
      | O => None
      | S fuel' => b ← h !! q; FindFork_loop h vChain fuel' (pprev b)
      end
  end.
Definition FindFork (h : heap) (vChain : CChain) (p : option ptr) : option (option ptr) :=
  match p with
  | None => Some None
  | Some q =>
      b ← h !! q;
      p ← (if Height vChain <? nHeight b then GetAncestor h q (Height vChain) else Some (Some q));
      FindFork_loop h vChain (S (Z.to_nat (nHeight b))) p
  end.

(** [std::lower_bound] by bisection, for a predicate that says "before". *)
Fixpoint lower_bound_loop (before : nat -> option bool) (fuel first count : nat) : option nat :=
  match count with
  | O => Some first
  | _ =>
      match fuel with
      | O => None
      | S fuel' =>
          let step := (count / 2)%nat in
          c ← before (first + step)%nat;
          if (c : bool) then lower_bound_loop before fuel' (first + step + 1) (count - (step + 1))
          else lower_bound_loop before fuel' first step
      end
  end.

(** [FindEarliestAtLeast]. *)
Definition earlier_than (h : heap) (vChain : CChain) (nTime height : Z) (i : nat) : option bool :=
  e ← vChain !! i; p ← e; b ← h !! p;
  Some ((GetBlockTimeMax b <? nTime) || (nHeight b <? height)).
Definition FindEarliestAtLeast (h : heap) (vChain : CChain) (nTime height : Z) : option (option ptr) :=
  i ← lower_bound_loop (earlier_than h vChain nTime height) (length vChain) 0 (length vChain);
  Some (if (i =? length vChain)%nat then None else default None (vChain !! i)).
