(* ===== verification/ChainTheory.v ===== *)
(** * Theorems on the block index and the active chain

    The reference definition of an ancestor follows [pprev] one block at a
    time ([parent_n]).  The skip list walk, the active chain vector and the
    fork searches of [chain.cpp] are shown to agree with it. *)
From stdpp Require Import prelude gmap sorting.
From S2P Require Import Prelude ArithUint256 Compact Uint256 Chain.

(** The [n]-th predecessor. *)
Fixpoint parent_n (h : heap) (n : nat) (p : ptr) : option ptr :=
  match n with
  | O => Some p
  | S n' => b ← h !! p; q ← pprev b; parent_n h n' q
  end.

(** Well-formed block index: heights count the distance to the root of the
    tree, parents exist, and skip pointers point where [GetSkipHeight] says. *)
Record wf_index (h : heap) : Prop := {
  wi_height : forall p b, h !! p = Some b -> 0 <= nHeight b < 2 ^ 31;
  wi_prev : forall p b, h !! p = Some b ->
    match pprev b with
    | None => nHeight b = 0
    | Some q => exists b', h !! q = Some b' /\ nHeight b = nHeight b' + 1
    end;
  wi_skip : forall p b s, h !! p = Some b -> pskip b = Some s ->
    parent_n h (Z.to_nat (nHeight b - GetSkipHeight (nHeight b))) p = Some s;
}.

Lemma parent_n_add h n m p : parent_n h (n + m) p = parent_n h n p ≫= parent_n h m.
Proof.
  revert p. induction n as [|n IH]; intros p; simpl; [done|].
  destruct (h !! p) as [b|]; simpl; [|done]. destruct (pprev b); simpl; [apply IH|done].
Qed.

Section index.
Context (h : heap) (Hwf : wf_index h).

Lemma parent_n_height (n : nat) p b :
  h !! p = Some b -> n <= nHeight b ->
  exists q b', parent_n h n p = Some q /\ h !! q = Some b' /\ nHeight b' = nHeight b - n.
Proof using Hwf.
  revert p b. induction n as [|n IH]; intros p b Hp Hn.
  - exists p, b. split_and!; [done..|lia].
  - simpl. rewrite Hp. simpl. pose proof (wi_prev h Hwf p b Hp) as Hprev.
    destruct (pprev b) as [q|]; [|lia]. destruct Hprev as (b' & Hq & Hh). simpl.
    destruct (IH q b' Hq ltac:(lia)) as (r & br & Hr & Hbr & Hhr).
    exists r, br. split_and!; [done..|lia].
Qed.

(** Nothing lies below the root. *)
Lemma parent_n_below (n : nat) p b : h !! p = Some b -> nHeight b < n -> parent_n h n p = None.
Proof using Hwf.
  revert p b. induction n as [|n IH]; intros p b Hp Hn.
  - pose proof (wi_height h Hwf p b Hp). lia.
  - simpl. rewrite Hp. simpl. pose proof (wi_prev h Hwf p b Hp) as Hprev.
    destruct (pprev b) as [q|]; [|done]. destruct Hprev as (b' & Hq & Hh). simpl.
    apply (IH q b' Hq). lia.
Qed.

Lemma land_le_l x y : 0 <= x -> 0 <= Z.land x y <= x.
Proof.
  intros Hx. split; [apply Z.land_nonneg; lia|].
  pose proof (Z.lor_ldiff_and x y) as E. rewrite <- E at 2.
  rewrite lor_disjoint_add.
  - assert (0 <= Z.ldiff x y) by (apply Z.ldiff_nonneg; lia). rewrite (Z.land_comm x y). lia.
  - apply Z.bits_inj'. intros n Hn. rewrite !Z.land_spec, Z.ldiff_spec, Z.bits_0.
    by destruct (Z.testbit x n), (Z.testbit y n).
Qed.

Lemma InvertLowestOne_bound n : 0 < n -> 0 <= InvertLowestOne n < n.
Proof.
  intros Hn. unfold InvertLowestOne. rewrite Z.land_comm.
  pose proof (land_le_l (n - 1) n). lia.
Qed.

Lemma GetSkipHeight_bound n : 0 < n -> 0 <= GetSkipHeight n < n.
Proof.
  intros Hn. unfold GetSkipHeight. repeat case_if; [lia| |apply InvertLowestOne_bound; lia].
  pose proof (InvertLowestOne_bound (n - 1) ltac:(lia)) as H1.
  unfold InvertLowestOne at 1 3. pose proof (land_le_l (InvertLowestOne (n - 1))
    (InvertLowestOne (n - 1) - 1) ltac:(lia)). lia.
Qed.

Lemma GetAncestor_loop_spec (fuel : nat) height p b :
  h !! p = Some b -> 0 <= height <= nHeight b -> nHeight b - height <= fuel ->
  GetAncestor_loop h fuel height p (nHeight b) = parent_n h (Z.to_nat (nHeight b - height)) p.
Proof using Hwf.
  revert p b. induction fuel as [|fuel IH]; intros p b Hp Hh Hf; cbn [GetAncestor_loop];
    destruct (nHeight b <=? height) eqn:E; cases_bool; try lia;
    try (replace (Z.to_nat (nHeight b - height)) with O by lia; done).
  rewrite Hp. simpl.
  assert (forall q, pprev b = Some q ->
    GetAncestor_loop h fuel height q (nHeight b - 1) = parent_n h (Z.to_nat (nHeight b - height)) p) as Hstep.
  { intros q Hq. pose proof (wi_prev h Hwf p b Hp) as Hprev. rewrite Hq in Hprev.
    destruct Hprev as (b' & Hb' & Hhb). replace (nHeight b - 1) with (nHeight b') by lia.
    rewrite (IH q b') by (done || lia).
    replace (Z.to_nat (nHeight b - height)) with (S (Z.to_nat (nHeight b' - height))) by lia.
    simpl. rewrite Hp. simpl. by rewrite Hq. }
  assert (exists q, pprev b = Some q) as [q Hq].
  { pose proof (wi_prev h Hwf p b Hp) as Hprev. destruct (pprev b); [eauto|lia]. }
  rewrite Hq. simpl. destruct (pskip b) as [s|] eqn:Es; [|by apply Hstep].
  case_if; [|by apply Hstep].
  pose proof (GetSkipHeight_bound (nHeight b) ltac:(lia)) as Hsk.
  assert (height <= GetSkipHeight (nHeight b)) as Hle.
  { apply orb_true_iff in E0 as [E0|E0]; cases_bool; lia. }
  pose proof (wi_skip h Hwf p b s Hp Es) as Hs.
  destruct (parent_n_height (Z.to_nat (nHeight b - GetSkipHeight (nHeight b))) p b Hp ltac:(lia))
    as (s' & bs & Hs' & Hbs & Hhs). rewrite Hs in Hs'. simplify_eq.
  replace (GetSkipHeight (nHeight b)) with (nHeight bs) by lia.
  rewrite (IH s' bs) by (done || lia).
  replace (Z.to_nat (nHeight b - height)) with
    (Z.to_nat (nHeight b - GetSkipHeight (nHeight b)) + Z.to_nat (nHeight bs - height))%nat by lia.
  by rewrite parent_n_add, Hs.
Qed.

(** The skip list finds the same block as following [pprev]. *)
Lemma GetAncestor_spec p b height :
  h !! p = Some b ->
  GetAncestor h p height =
    Some (if (0 <=? height) && (height <=? nHeight b)
          then parent_n h (Z.to_nat (nHeight b - height)) p else None).
Proof using Hwf.
  intros Hp. unfold GetAncestor. rewrite Hp. simpl.
  destruct (nHeight b <? height) eqn:E1, (height <? 0) eqn:E2; cases_bool; simpl;
    destruct (0 <=? height) eqn:E3, (height <=? nHeight b) eqn:E4; cases_bool; try lia; try done.
  rewrite GetAncestor_loop_spec by (done || lia).
  destruct (parent_n_height (Z.to_nat (nHeight b - height)) p b Hp ltac:(lia)) as (q & bq & -> & _).
  done.
Qed.

Lemma GetAncestor_Some p b height :
  h !! p = Some b -> 0 <= height <= nHeight b ->
  exists q bq, GetAncestor h p height = Some (Some q) /\
    parent_n h (Z.to_nat (nHeight b - height)) p = Some q /\ h !! q = Some bq /\ nHeight bq = height.
Proof using Hwf.
  intros Hp Hh. destruct (parent_n_height (Z.to_nat (nHeight b - height)) p b Hp ltac:(lia))
    as (q & bq & Hq & Hbq & Hhq).
  exists q, bq. rewrite (GetAncestor_spec p b) by done.
  rewrite (proj2 (Z.leb_le 0 height)), (proj2 (Z.leb_le height (nHeight b))) by lia. simpl.
  rewrite Hq. split_and!; [done..|lia].
Qed.

End index.

(** ** Building skip pointers *)

Lemma parent_n_ext (h h' : heap) n p :
  (forall q, pprev <$> h !! q = pprev <$> h' !! q) -> parent_n h n p = parent_n h' n p.
Proof.
  intros He. revert p. induction n as [|n IH]; intros p; simpl; [done|].
  specialize (He p). destruct (h !! p) as [b|], (h' !! p) as [b'|]; simpl in *; try done.
  injection He as ->. destruct (pprev b'); simpl; [apply IH|done].
Qed.

Lemma set_pskip_ext (h : heap) p b s q :
  h !! p = Some b -> pprev <$> h !! q = pprev <$> <[p := set_pskip b s]> h !! q.
Proof.
  intros Hp. destruct (decide (p = q)) as [->|]; [by rewrite lookup_insert_eq, Hp|by rewrite lookup_insert_ne].
Qed.

Lemma wf_set_pskip h p b s :
  wf_index h -> h !! p = Some b ->
  (forall s', s = Some s' -> parent_n h (Z.to_nat (nHeight b - GetSkipHeight (nHeight b))) p = Some s') ->
  wf_index (<[p := set_pskip b s]> h).
Proof.
  intros Hwf Hp Hs. split.
  - intros q bq. rewrite lookup_insert. case_decide; intros; simplify_eq; simpl; by eapply wi_height.
  - intros q bq Hq.
    assert (exists bq0, h !! q = Some bq0 /\ pprev bq = pprev bq0 /\ nHeight bq = nHeight bq0)
      as (bq0 & Hq0 & -> & ->).
    { rewrite lookup_insert in Hq. case_decide; simplify_eq; eauto. }
    pose proof (wi_prev h Hwf q bq0 Hq0) as Hprev. destruct (pprev bq0) as [r|]; [|done].
    destruct Hprev as (br & Hr & ->). destruct (decide (p = r)) as [->|].
    + exists (set_pskip b s). rewrite lookup_insert_eq. by simplify_eq.
    + exists br. by rewrite lookup_insert_ne.
  - intros q bq sq Hq Hsq.
    erewrite <- parent_n_ext by (intros; by apply set_pskip_ext).
    rewrite lookup_insert in Hq. case_decide; simplify_eq; simpl in *; [by apply Hs|by eapply wi_skip].
Qed.

Lemma BuildSkip_spec h p b :
  wf_index h -> h !! p = Some b ->
  exists h', BuildSkip h p = Some h' /\ wf_index h' /\
    (forall q, q <> p -> h' !! q = h !! q) /\
    (forall q, pprev b = Some q -> exists b', h' !! p = Some b' /\
       pskip b' = parent_n h (Z.to_nat (nHeight b - GetSkipHeight (nHeight b))) p /\ is_Some (pskip b')).
Proof.
  intros Hwf Hp. unfold BuildSkip. rewrite Hp. simpl.
  pose proof (wi_prev h Hwf p b Hp) as Hprev. destruct (pprev b) as [q|] eqn:Eq.
  2:{ exists h. split_and!; [done..|]. intros q Hq. done. }
  destruct Hprev as (b' & Hq & Hh). pose proof (wi_height h Hwf q b' Hq).
  pose proof (GetSkipHeight_bound (nHeight b) ltac:(lia)) as Hsk.
  destruct (GetAncestor_Some h Hwf q b' (GetSkipHeight (nHeight b)) Hq ltac:(lia))
    as (s & bs & -> & Hs & Hbs & Hhs). simpl.
  assert (parent_n h (Z.to_nat (nHeight b - GetSkipHeight (nHeight b))) p = Some s) as Hps.
  { replace (Z.to_nat (nHeight b - GetSkipHeight (nHeight b))) with
      (S (Z.to_nat (nHeight b' - GetSkipHeight (nHeight b)))) by lia. simpl. by rewrite Hp; simpl; rewrite Eq. }
  exists (<[p := set_pskip b (Some s)]> h). split_and!; [done| | |].
  - apply wf_set_pskip; [done..|]. intros. by simplify_eq.
  - intros r Hr. by rewrite lookup_insert_ne.
  - intros r Hr. exists (set_pskip b (Some s)). rewrite lookup_insert_eq. simpl. rewrite Hps. eauto.
Qed.

(** ** The active chain vector *)

(** Entry [i] of the vector is a block of height [i] whose parent is entry
    [i - 1]. *)
Definition wf_chain (h : heap) (c : CChain) : Prop :=
  forall i, (i < length c)%nat -> exists p b,
    c !! i = Some (Some p) /\ h !! p = Some b /\ nHeight b = i /\
    pprev b = match i with O => None | S j => default None (c !! j) end.

Section chain.
Context (h : heap) (Hwf : wf_index h).

(** Going down the vector is following [pprev]. *)
Lemma wf_chain_anc c k i q :
  wf_chain h c -> c !! k = Some (Some q) -> (i <= k)%nat -> c !! i = Some (parent_n h (k - i) q).
Proof using Type.
  intros Hc. revert i q. induction k as [|k IH]; intros i q Hk Hi.
  - replace i with O by lia. done.
  - destruct (decide (i = S k)) as [->|]; [by rewrite Nat.sub_diag|].
    pose proof (lookup_lt_Some _ _ _ Hk) as Hlt.
    destruct (Hc (S k) Hlt) as (p & b & Hp & Hb & _ & Hprev). rewrite Hk in Hp. simplify_eq.
    destruct (Hc k ltac:(lia)) as (p' & b' & Hp' & _). rewrite Hp' in Hprev. simpl in Hprev.
    rewrite (IH i p' Hp' ltac:(lia)).
    replace (S k - i)%nat with (S (k - i)) by lia. simpl. rewrite Hb. simpl. by rewrite Hprev.
Qed.

(** The chain that ends in [p]: entry [i] is the ancestor of height [i]. *)
Definition is_branch (c : CChain) (p : ptr) (b : CBlockIndex) : Prop :=
  length c = Z.to_nat (nHeight b + 1) /\
  forall i, (i < length c)%nat -> c !! i = Some (parent_n h (Z.to_nat (nHeight b) - i) p).

Lemma branch_wf c p b : h !! p = Some b -> is_branch c p b -> wf_chain h c /\ Tip c = Some p.
Proof using Hwf.
  intros Hp [Hl He]. pose proof (wi_height h Hwf p b Hp) as Hh. split.
  - intros i Hi. pose proof (He i Hi) as Hei.
    destruct (parent_n_height h Hwf (Z.to_nat (nHeight b) - i) p b Hp ltac:(lia)) as (q & bq & Hq & Hbq & Hhq).
    exists q, bq. rewrite Hei, Hq. split_and!; [done..|lia|].
    pose proof (wi_prev h Hwf q bq Hbq) as Hprev. destruct i as [|j].
    + destruct (pprev bq); [|done]. destruct Hprev as (b' & Hb' & ?).
      pose proof (wi_height h Hwf _ _ Hb'). lia.
    + rewrite (He j) by lia. simpl.
      replace (Z.to_nat (nHeight b) - j)%nat with ((Z.to_nat (nHeight b) - S j) + 1)%nat by lia.
      rewrite parent_n_add, Hq. simpl. rewrite Hbq. simpl. by destruct (pprev bq).
  - unfold Tip. case_if; [|lia]. rewrite He by lia.
    replace (Z.to_nat (nHeight b) - (length c - 1))%nat with O by lia. done.
Qed.

Lemma lookup_resize_old {A} (l : list (option A)) n i x :
  resize n None l !! i = Some (Some x) -> l !! i = Some (Some x).
Proof.
  destruct (decide (i < length l)%nat).
  - destruct (decide (i < n)%nat); [by rewrite lookup_resize|].
    intros H. apply lookup_lt_Some in H. rewrite length_resize in H. lia.
  - destruct (decide (i < n)%nat).
    + rewrite lookup_resize_new by lia. done.
    + intros H. apply lookup_lt_Some in H. rewrite length_resize in H. lia.
Qed.

Lemma SetTip_loop_spec fuel c0 vChain p b q bq :
  wf_chain h c0 -> h !! p = Some b -> h !! q = Some bq ->
  (Z.to_nat (nHeight bq) < fuel)%nat ->
  nHeight bq <= nHeight b -> parent_n h (Z.to_nat (nHeight b - nHeight bq)) p = Some q ->
  length vChain = Z.to_nat (nHeight b + 1) ->
  (forall i : nat, (i < length vChain)%nat -> nHeight bq < i ->
     vChain !! i = Some (parent_n h (Z.to_nat (nHeight b) - i) p)) ->
  (forall i : nat, i <= nHeight bq -> vChain !! i = resize (length vChain) None c0 !! i) ->
  exists c, SetTip_loop h fuel vChain (Some q) = Some c /\ is_branch c p b.
Proof using Hwf.
  intros Hc0 Hp. revert vChain q bq.
  induction fuel as [|fuel IH]; intros vChain q bq Hq Hf Hle Hpar Hlen Habove Hbelow; [lia|].
  pose proof (wi_height h Hwf q bq Hq) as Hhq.
  cbn [SetTip_loop]. rewrite Hq. simpl.
  destruct (lookup_lt_is_Some_2 vChain (Z.to_nat (nHeight bq)) ltac:(lia)) as [e He].
  rewrite He. simpl. case_bool_decide as Ee.
  - subst e. exists vChain. split; [done|]. split; [done|]. intros i Hi.
    destruct (decide (nHeight bq < i)); [by apply Habove|].
    assert (c0 !! Z.to_nat (nHeight bq) = Some (Some q)) as Hc.
    { apply (lookup_resize_old _ (length vChain)). rewrite <- Hbelow by lia. done. }
    pose proof (lookup_lt_Some _ _ _ Hc). rewrite Hbelow, lookup_resize by lia.
    rewrite (wf_chain_anc c0 (Z.to_nat (nHeight bq)) i q) by (done || lia).
    replace (Z.to_nat (nHeight b) - i)%nat with
      (Z.to_nat (nHeight b - nHeight bq) + (Z.to_nat (nHeight bq) - i))%nat by lia.
    by rewrite parent_n_add, Hpar.
  - assert (forall i : nat, (i < length vChain)%nat -> nHeight bq - 1 < i ->
       <[Z.to_nat (nHeight bq) := Some q]> vChain !! i = Some (parent_n h (Z.to_nat (nHeight b) - i) p)) as Habove'.
    { intros i Hi Hgt. destruct (decide (i = Z.to_nat (nHeight bq))) as [->|].
      - rewrite list_lookup_insert_eq by lia. rewrite <- Hpar. do 2 f_equal. lia.
      - rewrite list_lookup_insert_ne by lia. apply Habove; lia. }
    pose proof (wi_prev h Hwf q bq Hq) as Hprev. destruct (pprev bq) as [r|] eqn:Er.
    + destruct Hprev as (br & Hr & Hhr). pose proof (wi_height h Hwf r br Hr).
      apply (IH _ r br); rewrite ?length_insert; try done || lia.
      * replace (Z.to_nat (nHeight b - nHeight br)) with (Z.to_nat (nHeight b - nHeight bq) + 1)%nat by lia.
        rewrite parent_n_add, Hpar. simpl. rewrite Hq. simpl. by rewrite Er.
      * intros i Hi Hgt. apply Habove'; lia.
      * intros i Hi. rewrite list_lookup_insert_ne by lia. apply Hbelow. lia.
    + exists (<[Z.to_nat (nHeight bq) := Some q]> vChain).
      destruct fuel; cbn [SetTip_loop]; (split; [done|]);
        (split; rewrite ?length_insert; [done|]); intros i Hi; apply Habove'; lia.
Qed.

(** [SetTip] makes the vector the branch of the new tip, whatever consistent
    chain it held before. *)
Lemma SetTip_spec c0 p b :
  wf_chain h c0 -> h !! p = Some b ->
  exists c, SetTip h c0 (Some p) = Some c /\ is_branch c p b.
Proof using Hwf.
  intros Hc0 Hp. unfold SetTip. rewrite Hp. cbn [mbind option_bind].
  pose proof (wi_height h Hwf p b Hp).
  apply (SetTip_loop_spec _ c0 _ p b p b); rewrite ?length_resize; try done || lia.
  - by rewrite Z.sub_diag.
Qed.

Lemma chain_at_spec (c : CChain) (k : Z) : 0 <= k -> chain_at c k = default None (c !! Z.to_nat k).
Proof.
  intros Hk. unfold chain_at. case_if; [|done]. apply orb_true_iff in E as [E|E]; cases_bool; [lia|].
  rewrite lookup_ge_None_2 by lia. done.
Qed.

Lemma Contains_spec c q bq :
  h !! q = Some bq -> wf_chain h c ->
  Contains h c q = Some (bool_decide (Some q ∈ c)).
Proof using Hwf.
  intros Hq Hc. unfold Contains. rewrite Hq. simpl. f_equal.
  pose proof (wi_height h Hwf q bq Hq) as Hh. rewrite chain_at_spec by lia.
  apply bool_decide_ext. split.
  - destruct (c !! Z.to_nat (nHeight bq)) as [x|] eqn:E; simpl; [|done].
    intros ->. by eapply list_elem_of_lookup_2.
  - intros (i & Hi)%list_elem_of_lookup_1.
    destruct (Hc i (lookup_lt_Some _ _ _ Hi)) as (p' & b' & Hp' & Hb' & Hhb & _). simplify_eq.
    replace (Z.to_nat (nHeight bq)) with i by lia. by rewrite Hi.
Qed.

(** The ancestors of a block of the chain are in the chain. *)
Lemma wf_chain_closed c q n r :
  wf_chain h c -> Some q ∈ c -> parent_n h n q = Some r -> Some r ∈ c.
Proof using Hwf.
  intros Hc (k & Hk)%list_elem_of_lookup_1 Hr.
  destruct (Hc k (lookup_lt_Some _ _ _ Hk)) as (p' & b' & Hp' & Hb' & Hhb & _). simplify_eq.
  destruct (decide (n <= k)%nat).
  - pose proof (wf_chain_anc c k (k - n) q Hc Hk ltac:(lia)) as H.
    replace (k - (k - n))%nat with n in H by lia. rewrite Hr in H. by eapply list_elem_of_lookup_2.
  - rewrite (parent_n_below h Hwf n q b') in Hr by (done || lia). done.
Qed.

Lemma FindFork_loop_spec fuel c q bq :
  wf_chain h c -> h !! q = Some bq -> (Z.to_nat (nHeight bq) < fuel)%nat ->
  exists r, FindFork_loop h c fuel (Some q) = Some r /\
  match r with
  | Some f => Some f ∈ c /\ exists n, parent_n h n q = Some f /\
                forall m a, (m < n)%nat -> parent_n h m q = Some a -> Some a ∉ c
  | None => forall m a, parent_n h m q = Some a -> Some a ∉ c
  end.
Proof using Hwf.
  intros Hc. revert q bq. induction fuel as [|fuel IH]; intros q bq Hq Hf; [lia|].
  cbn [FindFork_loop]. rewrite (Contains_spec c q bq) by done. simpl.
  case_bool_decide as Hin.
  - exists (Some q). split; [done|]. split; [done|]. exists O. split; [done|]. intros. lia.
  - rewrite Hq. simpl. pose proof (wi_prev h Hwf q bq Hq) as Hprev.
    destruct (pprev bq) as [r|] eqn:Er.
    + destruct Hprev as (br & Hr & Hhr). pose proof (wi_height h Hwf _ _ Hr).
      destruct (IH r br Hr ltac:(lia)) as (res & -> & Hres). exists res. split; [done|].
      assert (forall m a, parent_n h (S m) q = Some a -> parent_n h m r = Some a) as Hdown.
      { intros m a. simpl. rewrite Hq. simpl. by rewrite Er. }
      destruct res as [f|].
      * destruct Hres as (Hf' & n & Hn & Hno). split; [done|]. exists (S n). split.
        { simpl. rewrite Hq. simpl. by rewrite Er. }
        intros [|m] a Hm Ha; [simpl in Ha; by simplify_eq|]. apply (Hno m a); [lia|by apply Hdown].
      * intros [|m] a Ha; [simpl in Ha; by simplify_eq|]. by apply (Hres m a), Hdown.
    + exists None. split; [by destruct fuel|].
      intros [|m] a Ha; [simpl in Ha; by simplify_eq|]. simpl in Ha. rewrite Hq in Ha. simpl in Ha.
      by rewrite Er in Ha.
Qed.

Lemma wf_chain_height c q bq :
  wf_chain h c -> Some q ∈ c -> h !! q = Some bq -> nHeight bq < length c.
Proof using Type.
  intros Hc (k & Hk)%list_elem_of_lookup_1 Hq.
  pose proof (lookup_lt_Some _ _ _ Hk).
  destruct (Hc k ltac:(done)) as (p' & b' & Hp' & Hb' & Hhb & _). simplify_eq. lia.
Qed.

(** [FindFork] returns the first ancestor of [p] that is in the chain. *)
Lemma FindFork_spec c p b :
  wf_chain h c -> h !! p = Some b ->
  exists r, FindFork h c (Some p) = Some r /\
  match r with
  | Some f => Some f ∈ c /\ exists n, parent_n h n p = Some f /\
                forall m a, (m < n)%nat -> parent_n h m p = Some a -> Some a ∉ c
  | None => forall m a, parent_n h m p = Some a -> Some a ∉ c
  end.
Proof using Hwf.
  intros Hc Hp. unfold FindFork. rewrite Hp. cbn [mbind option_bind].
  pose proof (wi_height h Hwf p b Hp) as Hh. unfold Height.
  destruct (Z.of_nat (length c) - 1 <? nHeight b) eqn:E; cases_bool.
  2:{ cbn [mbind option_bind]. apply (FindFork_loop_spec _ c p b); try done; lia. }
  assert (forall m a, parent_n h m p = Some a -> Some a ∈ c -> nHeight b < m + length c) as Hfar.
  { intros m a Ha Hin. destruct (decide (m <= nHeight b)).
    - destruct (parent_n_height h Hwf m p b Hp ltac:(done)) as (a' & ba & Ha' & Hba & Hha).
      rewrite Ha in Ha'. simplify_eq. pose proof (wf_chain_height c a' ba Hc Hin Hba). lia.
    - rewrite (parent_n_below h Hwf m p b) in Ha by (done || lia). done. }
  destruct (decide (length c = O)) as [Hz|Hz].
  - rewrite (GetAncestor_spec h Hwf p b) by done. rewrite (proj2 (Z.leb_gt 0 _)) by lia. simpl.
    exists None. split; [done|]. intros m a _ Hin. destruct c; [by apply not_elem_of_nil in Hin|done].
  - destruct (GetAncestor_Some h Hwf p b (length c - 1) Hp ltac:(lia)) as (q & bq & -> & Hq & Hbq & Hhq).
    cbn [mbind option_bind]. set (d := Z.to_nat (nHeight b - (length c - 1))) in *.
    destruct (FindFork_loop_spec (S (Z.to_nat (nHeight b))) c q bq Hc Hbq ltac:(lia)) as (r & -> & Hr).
    exists r. split; [done|].
    assert (forall m, parent_n h (d + m) p = parent_n h m q) as Hadd by (intros; by rewrite parent_n_add, Hq).
    destruct r as [f|].
    + destruct Hr as (Hf & n & Hn & Hno). split; [done|]. exists (d + n)%nat. rewrite Hadd. split; [done|].
      intros m a Hm Ha Hin. pose proof (Hfar m a Ha Hin).
      apply (Hno (m - d)%nat a); [lia| |done]. rewrite <- Hadd. replace (d + (m - d))%nat with m by lia. done.
    + intros m a Ha Hin. pose proof (Hfar m a Ha Hin).
      apply (Hr (m - d)%nat a); [|done]. rewrite <- Hadd. replace (d + (m - d))%nat with m by lia. done.
Qed.

End chain.

(** ** Deciding well-formedness on concrete data *)

Definition wf_entry (h : heap) (p : ptr) (b : CBlockIndex) : bool :=
  (0 <=? nHeight b) && (nHeight b <? 2 ^ 31) &&
  match pprev b with
  | None => nHeight b =? 0
  | Some q => match h !! q with Some b' => nHeight b =? nHeight b' + 1 | None => false end
  end &&
  match pskip b with
  | None => true
  | Some s => bool_decide (parent_n h (Z.to_nat (nHeight b - GetSkipHeight (nHeight b))) p = Some s)
  end.
Definition wf_index_b (h : heap) : bool := forallb (fun '(p, b) => wf_entry h p b) (map_to_list h).

Lemma wf_index_b_sound h : wf_index_b h = true -> wf_index h.
Proof.
  intros Hb. assert (forall p b, h !! p = Some b -> wf_entry h p b = true) as He.
  { intros p b Hp. unfold wf_index_b in Hb. rewrite forallb_forall in Hb.
    apply (Hb (p, b)), list_elem_of_In, elem_of_map_to_list. done. }
  split; intros p b; [intros Hp| intros Hp | intros s Hp Hs]; specialize (He p b Hp); unfold wf_entry in He;
    rewrite !andb_true_iff in He; destruct He as [[[H1 H2] H3] H4]; cases_bool.
  - lia.
  - destruct (pprev b) as [q|]; [|by cases_bool].
    destruct (h !! q) as [b'|]; [|done]. exists b'. cases_bool. done.
  - rewrite Hs in H4. by apply bool_decide_eq_true in H4.
Qed.

Definition wf_chain_b (h : heap) (c : CChain) : bool :=
  forallb (fun i : nat => match c !! i with
    | Some (Some p) => match h !! p with
      | Some b => (nHeight b =? i) &&
          bool_decide (pprev b = match i with O => None | S j => default None (c !! j) end)
      | None => false end
    | _ => false end) (seq 0 (length c)).

Lemma wf_chain_b_sound h c : wf_chain_b h c = true -> wf_chain h c.
Proof.
  unfold wf_chain_b. rewrite forallb_forall. intros Hb i Hi.
  specialize (Hb i). rewrite in_seq in Hb. specialize (Hb ltac:(lia)).
  destruct (c !! i) as [[p|]|] eqn:Ei; [|done..]. destruct (h !! p) as [b|] eqn:Ep; [|done].
  apply andb_true_iff in Hb as [Hh Hp]. cases_bool. apply bool_decide_eq_true in Hp.
  exists p, b. done.
Qed.

(** A block tree with a fork, for concrete instances: a trunk of heights 0..5
    at addresses 1..6 and a branch of heights 3, 4 on top of address 3. *)
Definition sample_entry (pprev' pskip' : option ptr) (height time flags : Z) : CBlockIndex := {|
  phashBlock := replicate 32 height; pprev := pprev'; pskip := pskip'; nHeight := height;
  nFile := 0; nDataPos := 0; nUndoPos := 0; nChainTrust := BaseUint.of_u64 8 (u64 height); nTx := 1;
  nChainTx := height + 1; nStatus := BLOCK_VALID_SCRIPTS; nVersion := 4; hashMerkleRoot := Blob.null 32;
  nTime := time; nBits := 0x1d00ffff; nNonce := 0; nSequenceId := 0; nTimeMax := time; nMint := 0;
  nMoneySupply := 0; nFlags := flags; nStakeModifier := 0; nStakeModifierChecksum := 0;
  prevoutStake := mkOutPoint (Blob.null 32) 0; nStakeTime := 0; hashProofOfStake := Blob.null 32 |}.
Definition sample_index : heap := list_to_map
  [(1, sample_entry None None 0 1000 0); (2, sample_entry (Some 1) (Some 1) 1 1600 0);
   (3, sample_entry (Some 2) (Some 1) 2 2200 1); (4, sample_entry (Some 3) (Some 2) 3 2800 0);
   (5, sample_entry (Some 4) (Some 1) 4 3400 1); (6, sample_entry (Some 5) (Some 2) 5 4000 0);
   (7, sample_entry (Some 3) (Some 2) 3 2900 1); (8, sample_entry (Some 7) (Some 1) 4 3500 0)]%positive.
Definition sample_chain : CChain := [Some 1; Some 2; Some 3; Some 4; Some 5; Some 6]%positive.

Lemma sample_index_wf : wf_index sample_index.
Proof. apply wf_index_b_sound. vm_compute. reflexivity. Qed.

Lemma sample_chain_wf : wf_chain sample_index sample_chain.
Proof. apply wf_chain_b_sound. vm_compute. reflexivity. Qed.
