(* ===== verification/ChainSearch.v ===== *)
(** * Searches in the block index and in the active chain

    [LastCommonAncestor], [GetLocator], [FindEarliestAtLeast],
    [GetLastBlockIndex], the median time past, and the trust a block adds,
    each shown to compute what its declarative description says. *)
From stdpp Require Import prelude gmap sorting.
From S2P Require Import Prelude ArithUint256 Compact Uint256 Chain ChainTheory.

(** [d] is [x] or one of its predecessors. *)
Definition is_anc (h : heap) (d x : ptr) : Prop := exists n, parent_n h n x = Some d.

Section search.
Context (h : heap) (Hwf : wf_index h).

Lemma is_anc_refl x : is_anc h x x.
Proof using Type. by exists O. Qed.

Lemma is_anc_trans a b c : is_anc h a b -> is_anc h b c -> is_anc h a c.
Proof using Type.
  intros [n Hn] [m Hm]. exists (m + n)%nat. by rewrite parent_n_add, Hm.
Qed.

(** An ancestor is determined by its height. *)
Lemma is_anc_height d x bx :
  h !! x = Some bx -> is_anc h d x ->
  exists bd, h !! d = Some bd /\ nHeight bd <= nHeight bx /\
    parent_n h (Z.to_nat (nHeight bx - nHeight bd)) x = Some d.
Proof using Hwf.
  intros Hx [n Hn]. destruct (decide (n <= nHeight bx)).
  - destruct (parent_n_height h Hwf n x bx Hx ltac:(done)) as (q & bq & Hq & Hbq & Hh).
    rewrite Hn in Hq. injection Hq as ->. exists bq. split_and!; [done|lia|].
    rewrite <- Hn. f_equal. lia.
  - rewrite (parent_n_below h Hwf n x bx) in Hn by (done || lia). done.
Qed.

Lemma is_anc_step d x bx :
  h !! x = Some bx -> is_anc h d x -> d = x \/ exists q, pprev bx = Some q /\ is_anc h d q.
Proof using Type.
  intros Hx [[|n] Hn]; simpl in Hn; [left; by simplify_eq|].
  rewrite Hx in Hn. simpl in Hn. destruct (pprev bx) as [q|]; [|done].
  right. exists q. split; [done|]. by exists n.
Qed.

(** Two ancestors of one block are ordered by height. *)
Lemma is_anc_total d a x bd ba bx :
  h !! x = Some bx -> h !! d = Some bd -> h !! a = Some ba ->
  is_anc h d x -> is_anc h a x -> nHeight bd <= nHeight ba -> is_anc h d a.
Proof using Hwf.
  intros Hx Hd Ha Hdx Hax Hle.
  destruct (is_anc_height d x bx Hx Hdx) as (bd' & Hd' & Hld & Hpd).
  destruct (is_anc_height a x bx Hx Hax) as (ba' & Ha' & Hla & Hpa). simplify_eq.
  exists (Z.to_nat (nHeight ba - nHeight bd)). rewrite <- Hpd.
  replace (Z.to_nat (nHeight bx - nHeight bd)) with
    (Z.to_nat (nHeight bx - nHeight ba) + Z.to_nat (nHeight ba - nHeight bd))%nat by lia.
  by rewrite parent_n_add, Hpa.
Qed.

(** ** [LastCommonAncestor] *)

(** [r] is the last common ancestor of [a] and [b], if there is one. *)
Definition is_lca (r : option ptr) (a b : ptr) : Prop :=
  match r with
  | Some c => is_anc h c a /\ is_anc h c b /\ forall d, is_anc h d a -> is_anc h d b -> is_anc h d c
  | None => forall d, is_anc h d a -> is_anc h d b -> False
  end.

Lemma lca_loop_spec fuel a b ba bb :
  h !! a = Some ba -> h !! b = Some bb -> nHeight ba = nHeight bb ->
  (Z.to_nat (nHeight ba) < fuel)%nat ->
  exists r, lca_loop h fuel (Some a) (Some b) = Some r /\ is_lca r a b.
Proof using Hwf.
  revert a b ba bb. induction fuel as [|fuel IH]; intros a b ba bb Ha Hb Hh Hf; [lia|].
  cbn [lca_loop]. case_bool_decide as Eab.
  { injection Eab as ->. exists (Some b). split; [done|]. split_and!; eauto using is_anc_refl. }
  rewrite Ha, Hb. cbn [mbind option_bind].
  assert (forall d, is_anc h d a -> is_anc h d b -> exists qa qb,
    pprev ba = Some qa /\ pprev bb = Some qb /\ is_anc h d qa /\ is_anc h d qb) as Hdown.
  { intros d Hda Hdb.
    destruct (is_anc_height d a ba Ha Hda) as (bd & Hd & Hda' & Hpa).
    destruct (is_anc_height d b bb Hb Hdb) as (bd' & Hd' & Hdb' & Hpb). simplify_eq.
    destruct (is_anc_step d a ba Ha Hda) as [->|(qa & ? & ?)];
      [rewrite Ha in Hd; injection Hd as <-; rewrite Hh, Z.sub_diag in Hpb; simpl in Hpb; congruence|].
    destruct (is_anc_step d b bb Hb Hdb) as [->|(qb & ? & ?)];
      [rewrite Hb in Hd; injection Hd as <-; rewrite Hh, Z.sub_diag in Hpa; simpl in Hpa; congruence|].
    eauto 10. }
  pose proof (wi_prev h Hwf a ba Ha) as Hpa. pose proof (wi_prev h Hwf b bb Hb) as Hpb.
  destruct (pprev ba) as [qa|] eqn:Eqa, (pprev bb) as [qb|] eqn:Eqb.
  - destruct Hpa as (ba' & Hqa & ?), Hpb as (bb' & Hqb & ?).
    pose proof (wi_height h Hwf qa ba' Hqa).
    destruct (IH qa qb ba' bb' Hqa Hqb ltac:(lia) ltac:(lia)) as (r & -> & Hr).
    exists r. split; [done|].
    assert (is_anc h qa a) by (exists 1%nat; simpl; rewrite Ha; simpl; by rewrite Eqa).
    assert (is_anc h qb b) by (exists 1%nat; simpl; rewrite Hb; simpl; by rewrite Eqb).
    destruct r as [c|]; simpl in *.
    + destruct Hr as (? & ? & Hmax). split_and!; eauto using is_anc_trans.
      intros d Hda Hdb. destruct (Hdown d Hda Hdb) as (qa' & qb' & ? & ? & ? & ?). simplify_eq. auto.
    + intros d Hda Hdb. destruct (Hdown d Hda Hdb) as (qa' & qb' & ? & ? & ? & ?). simplify_eq. eauto.
  - destruct Hpa as (ba' & Hqa & ?). pose proof (wi_height h Hwf _ _ Hqa). lia.
  - destruct Hpb as (bb' & Hqb & ?). pose proof (wi_height h Hwf _ _ Hqb). lia.
  - exists None. split; [by destruct fuel|]. intros d Hda Hdb.
    destruct (Hdown d Hda Hdb) as (? & ? & ? & _). done.
Qed.

(** The ancestor at the height of the other block keeps the common ancestors. *)
Lemma GetAncestor_common a b ba bb :
  h !! a = Some ba -> h !! b = Some bb -> nHeight bb < nHeight ba ->
  exists a' ba', GetAncestor h a (nHeight bb) = Some (Some a') /\ h !! a' = Some ba' /\
    nHeight ba' = nHeight bb /\ forall r, is_lca r a' b -> is_lca r a b.
Proof using Hwf.
  intros Ha Hb Hlt. pose proof (wi_height h Hwf b bb Hb).
  destruct (GetAncestor_Some h Hwf a ba (nHeight bb) Ha ltac:(lia)) as (a' & ba' & He & Hp & Ha' & Hh).
  exists a', ba'. split_and!; [done..|]. assert (is_anc h a' a) as Hanc by (by eexists).
  assert (forall d, is_anc h d a -> is_anc h d b -> is_anc h d a') as Hdown.
  { intros d Hda Hdb. destruct (is_anc_height d b bb Hb Hdb) as (bd & Hd & Hle & _).
    eapply (is_anc_total d a' a bd ba' ba); eauto. lia. }
  intros [c|]; simpl.
  - intros (? & ? & Hmax). split_and!; eauto using is_anc_trans.
  - intros Hno d Hda Hdb. eauto.
Qed.

Lemma is_lca_sym r a b : is_lca r a b -> is_lca r b a.
Proof using Type. destruct r; simpl; naive_solver. Qed.

Lemma LastCommonAncestor_spec a b ba bb :
  h !! a = Some ba -> h !! b = Some bb ->
  exists r, LastCommonAncestor h a b = Some r /\ is_lca r a b.
Proof using Hwf.
  intros Ha Hb. unfold LastCommonAncestor. rewrite Ha, Hb. cbn [mbind option_bind].
  pose proof (wi_height h Hwf a ba Ha). pose proof (wi_height h Hwf b bb Hb).
  destruct (nHeight bb <? nHeight ba) eqn:E1; [|destruct (nHeight ba <? nHeight bb) eqn:E2]; cases_bool.
  - destruct (GetAncestor_common a b ba bb Ha Hb E1) as (a' & ba' & -> & Ha' & Hh & Hup).
    cbn [mbind option_bind].
    destruct (lca_loop_spec (S (Z.to_nat (Z.min (nHeight ba) (nHeight bb)))) a' b ba' bb)
      as (r & -> & Hr); [done|done|done|lia|]. eauto.
  - destruct (GetAncestor_common b a bb ba Hb Ha E2) as (b' & bb' & -> & Hb' & Hh & Hup).
    cbn [mbind option_bind].
    destruct (lca_loop_spec (S (Z.to_nat (Z.min (nHeight ba) (nHeight bb)))) a b' ba bb')
      as (r & -> & Hr); [done|done|done|lia|]. exists r. split; [done|].
    by apply is_lca_sym, Hup, is_lca_sym.
  - apply (lca_loop_spec _ a b ba bb); [done|done|lia|lia].
Qed.

(** ** [GetLocator] *)

Definition hash_at (p : ptr) : list Z := from_option GetBlockHash [] (h !! p).

(** A locator for [p]: [p] first, each entry a proper ancestor of the one
    before, the root of the branch last. *)
Inductive locates : ptr -> list ptr -> Prop :=
  | locates_root p b : h !! p = Some b -> nHeight b = 0 -> locates p [p]
  | locates_step p b q bq ps :
      h !! p = Some b -> h !! q = Some bq -> nHeight bq < nHeight b -> is_anc h q p ->
      locates q ps -> locates p (p :: ps).

(** Both ways of going back reach the ancestor of the wanted height. *)
Lemma locator_step c q b k :
  wf_chain h c -> h !! q = Some b -> 0 <= k < nHeight b ->
  exists r br, (x ← Contains h c q; if (x : bool) then Some (chain_at c k) else GetAncestor h q k) = Some (Some r) /\
    h !! r = Some br /\ nHeight br = k /\ is_anc h r q.
Proof using Hwf.
  intros Hc Hq Hk. rewrite (Contains_spec h Hwf c q b) by done. cbn [mbind option_bind].
  destruct (GetAncestor_Some h Hwf q b k Hq ltac:(lia)) as (r & br & He & Hr & Hbr & Hh).
  exists r, br. split_and!; [|done|done|by eexists].
  case_bool_decide as Hin; [|done].
  apply list_elem_of_lookup_1 in Hin as (i & Hi).
  destruct (Hc i (lookup_lt_Some _ _ _ Hi)) as (p' & b' & Hp' & Hb' & Hhb & _). simplify_eq.
  rewrite chain_at_spec by lia.
  rewrite (wf_chain_anc h c i (Z.to_nat (nHeight br)) q Hc Hi ltac:(lia)). simpl. rewrite <- Hr. do 2 f_equal. lia.
Qed.

(** A bound on the entries still to come at height [H] with step [s], when the
    step doubles from the eleventh entry on. *)
Definition doubling_left (H s : Z) : Z :=
  if H =? 0 then 1 else if H <=? s then 2 else 3 + Z.log2 (H / s).

Lemma doubling_left_double H s :
  1 <= s -> 0 < H -> 1 + doubling_left (Z.max (H - s) 0) (2 * s) <= doubling_left H s.
Proof using Type.
  intros Hs HH. unfold doubling_left at 2. rewrite (proj2 (Z.eqb_neq H 0)) by lia.
  case_if; cases_bool; [by rewrite Z.max_r by lia|].
  rewrite Z.max_l by lia. pose proof (Z.log2_nonneg (H / s)). unfold doubling_left.
  case_if; cases_bool; [lia|]. case_if; cases_bool; [lia|].
  assert (3 <= H / s) by (apply Z.div_le_lower_bound; lia).
  assert ((H - s) / (2 * s) <= (H / s) / 2) as Hle.
  { rewrite Z.div_div, (Z.mul_comm s 2) by lia. apply Z.div_le_mono; lia. }
  apply Z.log2_le_mono in Hle. rewrite <- Z.div2_div, Z.div2_spec, Z.log2_shiftr in Hle by lia.
  assert (1 <= Z.log2 (H / s)) by (apply (Z.log2_le_mono 2); lia). lia.
Qed.

Lemma doubling_left_mono H : 0 < H -> doubling_left (Z.max (H - 1) 0) 1 <= doubling_left H 1.
Proof using Type.
  intros HH. rewrite Z.max_l by lia. unfold doubling_left. rewrite !Z.div_1_r.
  pose proof (Z.log2_nonneg H). pose proof (Z.log2_le_mono (H - 1) H ltac:(lia)).
  repeat case_if; cases_bool; lia.
Qed.

Lemma GetLocator_loop_spec fuel c nStep vHave q b :
  wf_chain h c -> h !! q = Some b -> (Z.to_nat (nHeight b) <= fuel)%nat ->
  nHeight b = 0 \/ (1 <= nStep < 2 ^ 31 /\ nHeight b <= 2 ^ 31 - nStep) ->
  ((length vHave <= 10)%nat -> nStep = 1) ->
  exists ps, GetLocator_loop h c fuel nStep vHave (Some q) = Some (vHave ++ map hash_at ps) /\
    locates q ps /\
    length ps <= (10 - length vHave)%nat + doubling_left (nHeight b) nStep.
Proof using Hwf.
  intros Hc. revert nStep vHave q b.
  induction fuel as [|fuel IH]; intros nStep vHave q b Hq Hf Hinv Hlen;
    pose proof (wi_height h Hwf q b Hq) as Hh;
    (destruct (nHeight b =? 0) eqn:E0; cases_bool;
      [exists [q]; cbn [GetLocator_loop map]; unfold hash_at; rewrite Hq; simpl; rewrite E0; simpl;
       split_and!; [done|by eapply locates_root|unfold doubling_left; simpl; lia]|]); [lia|].
  destruct Hinv as [?|[Hs Hb]]; [lia|].
  destruct (locator_step c q b (Z.max (nHeight b - nStep) 0) Hc Hq ltac:(lia)) as (r & br & Hstep & Hr & Hhr & Hanc).
  cbn [GetLocator_loop]. rewrite Hq. cbn [mbind option_bind].
  rewrite (proj2 (Z.eqb_neq _ 0)) by done. cbn zeta.
  rewrite (Contains_spec h Hwf c q b) in Hstep |- * by done. cbn [mbind option_bind] in Hstep |- *.
  rewrite Hstep. cbn [mbind option_bind]. rewrite length_app. cbn [length].
  match goal with |- context [GetLocator_loop _ _ _ ?s _ _] => set (s' := s) end.
  assert (s' = if (10 <? length vHave + 1)%nat then i32 (nStep * 2) else nStep) as Hs' by done. clearbody s'.
  assert (nHeight br = 0 \/ s' = if (10 <? length vHave + 1)%nat then 2 * nStep else nStep) as Hs2.
  { subst s'. case_if; [|by right]. destruct (decide (nHeight br = 0)); [by left|right].
    unfold i32. rewrite swrap_small; [lia|lia|]. unfold in_s. lia. }
  destruct (IH s' (vHave ++ [GetBlockHash b]) r br Hr ltac:(lia)) as (ps & -> & Hps & Hl).
  { destruct Hs2 as [?|Hs2]; [by left|]. rewrite Hs2. destruct (decide (nHeight br = 0)); [by left|right].
    case_if; lia. }
  { rewrite length_app. simpl. intros Hle. subst s'. rewrite (proj2 (Nat.ltb_ge _ _)) by lia. apply Hlen. lia. }
  exists (q :: ps). split_and!.
  - cbn [map]. rewrite <- app_assoc. unfold hash_at at 2. by rewrite Hq.
  - eapply locates_step; eauto. lia.
  - rewrite length_app in Hl. cbn [length] in Hl |- *.
    assert (doubling_left (nHeight br) s' + (if (length vHave <? 10)%nat then 0 else 1) <= doubling_left (nHeight b) nStep) as Hd.
    { rewrite Hhr. destruct Hs2 as [H0|Hs2].
      { rewrite <- Hhr, H0. unfold doubling_left. simpl. pose proof (Z.log2_nonneg (nHeight b / nStep)).
        repeat case_if; cases_bool; lia. }
      pose proof (doubling_left_double (nHeight b) nStep ltac:(lia) ltac:(lia)).
      pose proof (doubling_left_mono (nHeight b) ltac:(lia)).
      destruct (length vHave <? 10)%nat eqn:E; cases_bool.
      - rewrite (proj2 (Nat.ltb_ge _ _)) in Hs2 by lia. rewrite Hs2, Hlen by lia. lia.
      - rewrite (proj2 (Nat.ltb_lt _ _)) in Hs2 by lia. rewrite Hs2. lia. }
    case_if_in Hd; cases_bool; lia.
Qed.

(** [GetLocator] ends, and its list is a locator of at most
    [13 + log2 height] entries. *)
Lemma GetLocator_spec c p b :
  wf_chain h c -> h !! p = Some b ->
  exists ps, GetLocator h c (Some p) = Some (map hash_at ps) /\ locates p ps /\
    length ps <= 13 + Z.log2 (nHeight b).
Proof using Hwf.
  intros Hc Hp. unfold GetLocator. rewrite Hp. pose proof (wi_height h Hwf p b Hp).
  destruct (GetLocator_loop_spec (Z.to_nat (nHeight b)) c 1 [] p b) as (ps & He & Hps & Hl);
    [done|done|lia|lia|done|].
  exists ps. split; [done|]. split; [done|]. unfold doubling_left in Hl. simpl in Hl.
  rewrite Z.div_1_r in Hl. pose proof (Z.log2_nonneg (nHeight b)). repeat case_if_in Hl; lia.
Qed.

(** ** [FindEarliestAtLeast] *)

(** Bisection finds the partition point. *)
Lemma lower_bound_loop_spec (f : nat -> bool) before (n : nat) fuel first count :
  (forall i, (i < n)%nat -> before i = Some (f i)) ->
  (forall i j, (i <= j < n)%nat -> f j = true -> f i = true) ->
  (first + count <= n)%nat -> (count <= fuel)%nat ->
  (forall i, (i < first)%nat -> f i = true) ->
  (forall i, (first + count <= i < n)%nat -> f i = false) ->
  exists r, lower_bound_loop before fuel first count = Some r /\ (r <= n)%nat /\
    (forall i, (i < r)%nat -> f i = true) /\ (forall i, (r <= i < n)%nat -> f i = false).
Proof using Type.
  intros Hb Hmono. revert first count. induction fuel as [|fuel IH]; intros first count Hn Hf Hlo Hhi.
  - replace count with O in * by lia. exists first. simpl. rewrite Nat.add_0_r in *. by split_and!.
  - destruct count as [|count]; [exists first; simpl; rewrite Nat.add_0_r in *; by split_and!|].
    cbn [lower_bound_loop]. set (step := (S count / 2)%nat).
    assert (step <= count)%nat by (pose proof (Nat.div_lt (S count) 2 ltac:(lia) ltac:(lia)); lia).
    rewrite Hb by lia. cbn [mbind option_bind]. destruct (f (first + step)%nat) eqn:E.
    + apply IH; [lia|lia| |].
      * intros i Hi. apply (Hmono i (first + step)%nat); [lia|done].
      * intros i Hi. apply Hhi. lia.
    + apply IH; [lia|lia|done|]. intros i Hi. destruct (f i) eqn:Ei; [|done].
      rewrite (Hmono (first + step)%nat i) in E by (done || lia). done.
Qed.

(** The maximum time recorded in the entries does not go down along [pprev]. *)
Definition time_max_mono : Prop :=
  forall p b q b', h !! p = Some b -> pprev b = Some q -> h !! q = Some b' -> nTimeMax b' <= nTimeMax b.

Definition entry_of (c : CChain) (i : nat) : option CBlockIndex := e ← c !! i; p ← e; h !! p.

Lemma entry_of_spec c i : wf_chain h c -> (i < length c)%nat -> exists p b,
  c !! i = Some (Some p) /\ h !! p = Some b /\ nHeight b = i /\ entry_of c i = Some b.
Proof using Type.
  intros Hc Hi. destruct (Hc i Hi) as (p & b & Hp & Hb & Hh & _). exists p, b.
  split_and!; [done..|]. unfold entry_of. rewrite Hp. done.
Qed.

Lemma time_max_chain c i j bi bj :
  wf_chain h c -> time_max_mono -> (i <= j)%nat ->
  entry_of c i = Some bi -> entry_of c j = Some bj -> nTimeMax bi <= nTimeMax bj.
Proof using Type.
  intros Hc Hm. revert bj. induction j as [|j IH]; intros bj Hij Hi Hj.
  - replace i with O in Hi by lia. simplify_eq. lia.
  - destruct (decide (i = S j)) as [->|]; [simplify_eq; lia|].
    assert (S j < length c)%nat as Hlt.
    { unfold entry_of in Hj. destruct (c !! S j) eqn:E; [by eapply lookup_lt_Some|done]. }
    destruct (Hc (S j) Hlt) as (p & b & Hp & Hb & _ & Hprev).
    destruct (entry_of_spec c j Hc ltac:(lia)) as (p' & b' & Hp' & Hb' & _ & He).
    assert (b = bj) as ->. { unfold entry_of in Hj. rewrite Hp in Hj. simpl in Hj. simplify_eq. done. }
    rewrite Hp' in Hprev. simpl in Hprev. pose proof (IH b' ltac:(lia) Hi He).
    pose proof (Hm p bj p' b' Hb Hprev Hb'). lia.
Qed.

(** [b] is late and high enough for the query. *)
Definition late_enough (nTime height : Z) (b : CBlockIndex) : bool :=
  (nTime <=? nTimeMax b) && (height <=? nHeight b).

Lemma FindEarliestAtLeast_spec c t k :
  wf_chain h c -> time_max_mono ->
  exists r, FindEarliestAtLeast h c t k = Some r /\
  match r with
  | Some p => exists i b, c !! i = Some (Some p) /\ h !! p = Some b /\ late_enough t k b = true /\
      forall j bj, (j < i)%nat -> entry_of c j = Some bj -> late_enough t k bj = false
  | None => forall j bj, entry_of c j = Some bj -> late_enough t k bj = false
  end.
Proof using Type.
  intros Hc Hm. unfold FindEarliestAtLeast.
  set (f := fun i => from_option (fun b => negb (late_enough t k b)) true (entry_of c i)).
  destruct (lower_bound_loop_spec f (earlier_than h c t k) (length c) (length c) 0 (length c))
    as (r & -> & Hle & Hlo & Hhi); try lia.
  - intros i Hi. destruct (entry_of_spec c i Hc Hi) as (p & b & Hp & Hb & _ & He).
    unfold f, earlier_than. rewrite Hp, He. simpl. rewrite Hb. simpl. unfold late_enough, GetBlockTimeMax.
    f_equal. rewrite negb_andb, !Z.ltb_antisym. done.
  - intros i j Hij. destruct (entry_of_spec c i Hc ltac:(lia)) as (pi & bi & _ & _ & Hhi & Hei).
    destruct (entry_of_spec c j Hc ltac:(lia)) as (pj & bj & _ & _ & Hhj & Hej).
    unfold f. rewrite Hei, Hej. simpl. pose proof (time_max_chain c i j bi bj Hc Hm ltac:(lia) Hei Hej).
    unfold late_enough. rewrite !negb_true_iff, !andb_false_iff, !Z.leb_gt. lia.
  - cbn [mbind option_bind]. eexists. split; [done|].
    assert (forall j bj, (j < r)%nat -> entry_of c j = Some bj -> late_enough t k bj = false) as Hbefore.
    { intros j bj Hj Hej. specialize (Hlo j Hj). unfold f in Hlo. rewrite Hej in Hlo. simpl in Hlo.
      by apply negb_true_iff. }
    destruct (r =? length c)%nat eqn:E; cases_bool.
    + intros j bj Hej. apply (Hbefore j); [|done]. subst r.
      unfold entry_of in Hej. destruct (c !! j) eqn:Ej; [by eapply lookup_lt_Some|done].
    + destruct (entry_of_spec c r Hc ltac:(lia)) as (p & b & Hp & Hb & _ & He). rewrite Hp. simpl.
      exists r, b. split_and!; [done|done| |done].
      specialize (Hhi r ltac:(lia)). unfold f in Hhi. rewrite He in Hhi. by apply negb_false_iff.
Qed.

(** ** [GetLastBlockIndex] *)

Lemma GetLastBlockIndex_loop_spec fuel p b fPoS :
  h !! p = Some b -> (Z.to_nat (nHeight b) <= fuel)%nat ->
  exists r br n, GetLastBlockIndex_loop h fuel p fPoS = Some r /\ parent_n h n p = Some r /\
    h !! r = Some br /\ (IsProofOfStake br = fPoS \/ pprev br = None) /\
    forall m a ba, (m < n)%nat -> parent_n h m p = Some a -> h !! a = Some ba -> IsProofOfStake ba <> fPoS.
Proof using Hwf.
  revert p b. induction fuel as [|fuel IH]; intros p b Hp Hf;
    pose proof (wi_prev h Hwf p b Hp) as Hprev; pose proof (wi_height h Hwf p b Hp);
    cbn [GetLastBlockIndex_loop]; rewrite Hp; cbn [mbind option_bind];
    (destruct (pprev b) as [q|] eqn:Eq; [|by exists p, b, O; split_and!; auto; intros; lia]);
    destruct Hprev as (bq & Hq & Hh); pose proof (wi_height h Hwf q bq Hq); [lia|].
  destruct (Bool.eqb (IsProofOfStake b) fPoS) eqn:E; simpl.
  - apply eqb_prop in E. exists p, b, O. split_and!; auto. intros; lia.
  - apply eqb_false_iff in E. destruct (IH q bq Hq ltac:(lia)) as (r & br & n & He & Hn & Hr & Hk & Hno).
    exists r, br, (S n). split_and!; auto.
    + simpl. rewrite Hp. simpl. by rewrite Eq.
    + intros [|m] a ba Hm Ha Hba; simpl in Ha; [by simplify_eq|].
      rewrite Hp in Ha. simpl in Ha. rewrite Eq in Ha. simpl in Ha. apply (Hno m a ba); [lia|done..].
Qed.

(** ** [GetMedianTimePast] *)

(** The collected times are those of the block and of its ten predecessors,
    oldest first, fewer near the root. *)
Lemma collect_times_spec n p b :
  h !! p = Some b ->
  exists ts, collect_times h n (Some p) = Some ts /\
    length ts = Nat.min n (S (Z.to_nat (nHeight b))) /\
    forall i, (i < length ts)%nat -> exists q bq, parent_n h i p = Some q /\ h !! q = Some bq /\
      ts !! (length ts - 1 - i)%nat = Some (nTime bq).
Proof using Hwf.
  revert p b. induction n as [|n IH]; intros p b Hp; [exists []; split_and!; [done..|]; simpl; lia|].
  cbn [collect_times]. rewrite Hp. cbn [mbind option_bind].
  pose proof (wi_prev h Hwf p b Hp) as Hprev. pose proof (wi_height h Hwf p b Hp).
  assert (forall ts, (ts ++ [GetBlockTime b]) !! length ts = Some (nTime b)) as Hlast.
  { intros ts. rewrite lookup_app_r, Nat.sub_diag by lia. done. }
  destruct (pprev b) as [q|] eqn:Eq.
  - destruct Hprev as (bq & Hq & Hh). pose proof (wi_height h Hwf q bq Hq).
    destruct (IH q bq Hq) as (ts & -> & Hl & Hts). eexists. split; [done|].
    rewrite length_app. simpl. split; [lia|]. intros i Hi.
    replace (length ts + 1 - 1 - i)%nat with (length ts - i)%nat by lia.
    destruct i as [|i]; [exists p, b; split_and!; [done..|]; rewrite Nat.sub_0_r; apply Hlast|].
    destruct (Hts i ltac:(lia)) as (r & br & Hr & Hbr & Hlk). exists r, br.
    simpl. rewrite Hp. simpl. rewrite Eq. split_and!; [done..|].
    rewrite lookup_app_l by lia. rewrite <- Hlk. f_equal. lia.
  - replace (collect_times h n None) with (Some ([] : list Z)) by (by destruct n). simpl.
    eexists. split; [done|]. simpl. split; [lia|]. intros i Hi. replace i with O by lia.
    exists p, b. done.
Qed.

End search.

(** At least half of the list lies on each side of the middle of its sorting. *)
Definition is_median (m : Z) (l : list Z) : Prop :=
  m ∈ l /\ (length l / 2 < length (filter (fun x : Z => (x <= m)%Z) l))%nat /\
  (length l - length l / 2 <= length (filter (fun x : Z => (m <= x)%Z) l))%nat.

Lemma filter_all {A} (P : A -> Prop) `{!forall x, Decision (P x)} l : Forall P l -> filter P l = l.
Proof. induction 1 as [|x l Hx _ IH]; [done|]. by rewrite filter_cons_True, IH. Qed.

Lemma sorted_middle_median l m : merge_sort Z.le l !! (length l / 2)%nat = Some m -> is_median m l.
Proof.
  intros Hm. pose proof (merge_sort_Permutation Z.le l) as Hp.
  assert (StronglySorted Z.le (merge_sort Z.le l)) as Hs by (apply StronglySorted_merge_sort; apply _).
  revert Hs Hm Hp. generalize (merge_sort Z.le l) as s. intros s Hs Hm Hp.
  pose proof (Permutation_length Hp) as Hl. pose proof (lookup_lt_Some _ _ _ Hm) as Hlt.
  set (k := (length l / 2)%nat) in *. pose proof (take_drop_middle s k m Hm) as Hsplit.
  rewrite <- Hsplit in Hs. apply StronglySorted_app in Hs as (Hs1 & _ & Hs2).
  apply StronglySorted_cons in Hs2 as [Hge Hs2].
  assert (forall P `{!forall x, Decision (P x)}, length (filter P l) =
    length (filter P (take k s) ++ filter P (m :: drop (S k) s))) as Hf.
  { intros P HP. by rewrite <- filter_app, Hsplit, Hp. }
  unfold is_median. fold k. rewrite !Hf, !filter_cons_True, !length_app by lia. split_and!.
  - rewrite <- Hp. by eapply list_elem_of_lookup_2.
  - rewrite (filter_all _ (take k s)); [rewrite length_take; simpl; lia|].
    apply Forall_forall. intros x Hx. apply Hs1; [done|left].
  - rewrite (filter_all _ (drop (S k) s)) by done. simpl. rewrite length_drop. lia.
Qed.

Lemma GetMedianTimePast_spec h p b :
  wf_index h -> h !! p = Some b ->
  exists ts m, collect_times h nMedianTimeSpan (Some p) = Some ts /\
    length ts = Nat.min 11 (S (Z.to_nat (nHeight b))) /\
    GetMedianTimePast h p = Some m /\ is_median m ts.
Proof.
  intros Hwf Hp. destruct (collect_times_spec h Hwf nMedianTimeSpan p b Hp) as (ts & Hc & Hl & _).
  unfold GetMedianTimePast. rewrite Hc. cbn [mbind option_bind].
  pose proof (Permutation_length (merge_sort_Permutation Z.le ts)) as Hlm. rewrite Hlm.
  destruct (lookup_lt_is_Some_2 (merge_sort Z.le ts) (length ts / 2)) as [m Hm].
  { rewrite Hlm. apply Nat.div_lt; [rewrite Hl; unfold nMedianTimeSpan; lia|lia]. }
  exists ts, m. split_and!; [done|done|done|by apply sorted_middle_median].
Qed.

(** ** Trust *)

(** A block whose target is malformed, overflowing or zero adds no trust; a
    proof-of-stake block adds [2^256 / (target + 1)], computed without leaving
    256 bits; a proof-of-work block adds one.  The division never fails. *)
Lemma GetBlockTrust_spec b :
  in_u 32 (nBits b) ->
  exists t, GetBlockTrust b = Some t /\ BaseUint.wf 8 t /\
    le_val 32 t =
      (let v := Compact.compact_value (nBits b) in
       if (v =? 0) || Z.testbit (nBits b) 23 || (2 ^ 256 <=? v) then 0
       else if IsProofOfStake b then 2 ^ 256 / (v + 1) else 1).
Proof.
  intros Hb. unfold GetBlockTrust. pose proof (Compact.SetCompact_spec (nBits b) Hb) as Hs.
  destruct (Compact.SetCompact (nBits b)) as [[a neg] ovf]. destruct Hs as (Ha & Hv & -> & ->).
  pose proof (Compact.compact_value_nonneg (nBits b) Hb) as Hpos.
  rewrite (BaseUint.EqualTo_spec 8 a 0) by (done || lia || (unfold in_u; lia)). rewrite Hv. cbn zeta.
  set (v := Compact.compact_value (nBits b)) in *.
  destruct (BaseUint.add_sub_u64_spec 8 a 0) as [Hz Hz0]; [lia|done|unfold in_u; lia|].
  destruct (BaseUint.add_sub_u64_spec 8 a 1) as [Ho Ho1]; [lia|done|unfold in_u; lia|].
  destruct (2 ^ 256 <=? v) eqn:Eo; cases_bool.
  { rewrite !orb_true_r. eauto. }
  rewrite Z.mod_small by lia. rewrite !orb_false_r.
  destruct (v =? 0) eqn:E0; cases_bool; [rewrite !orb_true_r; simpl; eauto|].
  destruct (Z.testbit (nBits b) 23); simpl; [eauto|]. destruct (IsProofOfStake b); [|eauto].
  rewrite Z.mod_small in Hv by lia.
  destruct (BaseUint.bnot_spec 8 a Ha) as [Hn Hnv].
  destruct (BaseUint.add_assign_spec 8 a _ Ha Ho) as [Hs Hsv]. rewrite Ho1, Hv in Hsv.
  pose proof (BaseUint.div_assign_spec 8 _ _ ltac:(lia) Hn Hs) as Hd.
  pose proof (Compact.compact_value_not_max (nBits b) Hb) as Hmax. fold v in Hmax.
  change (2 ^ (32 * 8%nat)) with (2 ^ 256) in *. rewrite Z.mod_small in Hsv by lia.
  destruct (BaseUint.div_assign 8 _ _) as [q|]; [|lia]. destruct Hd as (_ & Hq & Hqv).
  cbn [mbind option_bind]. destruct (BaseUint.add_assign_spec 8 q _ Hq Ho) as [Hr Hrv].
  eexists. split_and!; [done|done|].
  rewrite Hrv, Ho1, Hqv, Hnv, Hsv, Hv. change (2 ^ (32 * 8%nat)) with (2 ^ 256).
  assert ((2 ^ 256 - 1 - v) / (v + 1) + 1 = 2 ^ 256 / (v + 1)) as ->.
  { rewrite <- Z.div_add by lia. f_equal. lia. }
  apply Z.mod_small. split; [apply Z.div_pos; lia|apply Z.div_lt; lia].
Qed.

(** ** The contract of the block index and of the active chain *)

(** The skip-list walk of [GetAncestor] returns exactly the block reached by
    following [pprev] down to the height asked for, and null outside
    [0, nHeight]; no assertion fails and the walk ends. *)
Theorem GetAncestor_correct (h : heap) p b k :
  wf_index h -> h !! p = Some b ->
  GetAncestor h p k =
    Some (if (0 <=? k) && (k <=? nHeight b) then parent_n h (Z.to_nat (nHeight b - k)) p else None).
Proof. intros Hwf Hp. by apply GetAncestor_spec. Qed.

(** [BuildSkip] keeps the block index well formed, touches no other entry,
    and gives every block but a root a skip pointer to its ancestor of height
    [GetSkipHeight]. *)
Theorem BuildSkip_correct (h : heap) p b :
  wf_index h -> h !! p = Some b ->
  exists h', BuildSkip h p = Some h' /\ wf_index h' /\ (forall q, q <> p -> h' !! q = h !! q) /\
    (forall q, pprev b = Some q -> exists b', h' !! p = Some b' /\
       pskip b' = parent_n h (Z.to_nat (nHeight b - GetSkipHeight (nHeight b))) p /\ is_Some (pskip b')).
Proof. intros Hwf Hp. by apply BuildSkip_spec. Qed.

(** [SetTip] turns any consistent chain vector into the branch that ends in
    the new tip, although it stops rewriting at the first entry that is already
    right; afterwards the vector is consistent, its tip is the block, and it
    contains exactly the block's ancestors. *)
Theorem SetTip_correct (h : heap) c0 p b :
  wf_index h -> wf_chain h c0 -> h !! p = Some b ->
  exists c, SetTip h c0 (Some p) = Some c /\ wf_chain h c /\ Tip c = Some p /\
    Height c = nHeight b /\ (forall q, Some q ∈ c <-> is_anc h q p).
Proof.
  intros Hwf Hc0 Hp. destruct (SetTip_spec h Hwf c0 p b Hc0 Hp) as (c & He & Hbr).
  destruct (branch_wf h Hwf c p b Hp Hbr) as [Hc Ht]. pose proof (wi_height h Hwf p b Hp).
  destruct Hbr as [Hl Hi]. exists c. split_and!; [done..|unfold Height; lia|]. intros q. split.
  - intros (i & Hlk)%list_elem_of_lookup_1. rewrite Hi in Hlk by (by eapply lookup_lt_Some).
    injection Hlk as Hlk. by eexists.
  - intros Hq. destruct (is_anc_height h Hwf q p b Hp Hq) as (bq & Hbq & Hle & Hpar).
    pose proof (wi_height h Hwf q bq Hbq).
    apply (list_elem_of_lookup_2 _ (Z.to_nat (nHeight bq))). rewrite Hi by lia.
    f_equal. rewrite <- Hpar. f_equal. lia.
Qed.

(** [FindFork] returns the highest ancestor of a block that is in the
    active chain, and null exactly when the branches share no block. *)
Theorem FindFork_correct (h : heap) c p b :
  wf_index h -> wf_chain h c -> h !! p = Some b ->
  exists r, FindFork h c (Some p) = Some r /\
  match r with
  | Some f => Some f ∈ c /\ is_anc h f p /\ (forall a, is_anc h a p -> Some a ∈ c -> is_anc h a f)
  | None => forall a, is_anc h a p -> Some a ∉ c
  end.
Proof.
  intros Hwf Hc Hp. destruct (FindFork_spec h Hwf c p b Hc Hp) as (r & -> & Hr).
  exists r. split; [done|]. destruct r as [f|]; [|intros a [m Hm]; by apply (Hr m)].
  destruct Hr as (Hf & n & Hn & Hno). split_and!; [done|by exists n|]. intros a [m Hm] Ha.
  destruct (decide (m < n)%nat) as [Hlt|Hge]; [by destruct (Hno m a Hlt Hm)|].
  exists (m - n)%nat. replace m with (n + (m - n))%nat in Hm by lia. by rewrite parent_n_add, Hn in Hm.
Qed.

(** [LastCommonAncestor] returns the last common ancestor: an ancestor of
    both blocks that every other common ancestor is an ancestor of.  Its final
    assertion cannot fail. *)
Theorem LastCommonAncestor_correct (h : heap) a b ba bb :
  wf_index h -> h !! a = Some ba -> h !! b = Some bb ->
  exists r, LastCommonAncestor h a b = Some r /\ is_lca h r a b.
Proof. intros Hwf Ha Hb. by eapply LastCommonAncestor_spec. Qed.

(** A block locator starts at the block asked for, goes back through
    proper ancestors to the root of its branch, and has at most
    [13 + log2 height] entries: the loop ends, the doubling step never wraps
    before the root is reached, and both ways of stepping back agree. *)
Theorem GetLocator_correct (h : heap) c p b :
  wf_index h -> wf_chain h c -> h !! p = Some b ->
  exists ps, GetLocator h c (Some p) = Some (map (hash_at h) ps) /\ locates h p ps /\
    length ps <= 13 + Z.log2 (nHeight b).
Proof. intros Hwf Hc Hp. by apply GetLocator_spec. Qed.

(** [FindEarliestAtLeast] finds by bisection the lowest block of the chain
    whose maximum time and height reach the bounds, and null exactly when there
    is none, provided the recorded maximum time does not go down. *)
Theorem FindEarliestAtLeast_correct (h : heap) c t k :
  wf_chain h c -> time_max_mono h ->
  exists r, FindEarliestAtLeast h c t k = Some r /\
  match r with
  | Some p => exists i b, c !! i = Some (Some p) /\ h !! p = Some b /\ late_enough t k b = true /\
      forall j bj, (j < i)%nat -> entry_of h c j = Some bj -> late_enough t k bj = false
  | None => forall j bj, entry_of h c j = Some bj -> late_enough t k bj = false
  end.
Proof. intros Hc Hm. by apply FindEarliestAtLeast_spec. Qed.

(** The median time past of a block is a median of the times of the block
    and its up to ten predecessors. *)
Theorem GetMedianTimePast_correct (h : heap) p b :
  wf_index h -> h !! p = Some b ->
  exists ts m, GetMedianTimePast h p = Some m /\ is_median m ts /\
    length ts = Nat.min 11 (S (Z.to_nat (nHeight b))) /\
    (forall i, (i < length ts)%nat -> exists q bq, parent_n h i p = Some q /\ h !! q = Some bq /\
      ts !! (length ts - 1 - i)%nat = Some (nTime bq)).
Proof.
  intros Hwf Hp. destruct (GetMedianTimePast_spec h p b Hwf Hp) as (ts & m & Hc & Hl & Hm & Hmed).
  destruct (collect_times_spec h Hwf nMedianTimeSpan p b Hp) as (ts' & Hc' & _ & Hts).
  rewrite Hc in Hc'. injection Hc' as <-. exists ts, m. done.
Qed.

(** The trust a block adds is [2^256 / (target + 1)] for proof of stake and
    one for proof of work, and nothing for a negative, overflowing or zero
    target; the 256-bit formula of the code neither wraps nor divides by zero. *)
Theorem GetBlockTrust_correct b :
  in_u 32 (nBits b) ->
  exists t, GetBlockTrust b = Some t /\ BaseUint.wf 8 t /\
    le_val 32 t =
      (let v := Compact.compact_value (nBits b) in
       if (v =? 0) || Z.testbit (nBits b) 23 || (2 ^ 256 <=? v) then 0
       else if IsProofOfStake b then 2 ^ 256 / (v + 1) else 1).
Proof. apply GetBlockTrust_spec. Qed.

Lemma GetAncestor_correct_witness : GetAncestor sample_index 8 1 = Some (Some 2%positive).
Proof. rewrite (GetAncestor_correct sample_index 8 _ 1 sample_index_wf eq_refl). vm_compute. reflexivity. Defined.

Lemma BuildSkip_correct_witness : exists h', BuildSkip sample_index 6 = Some h' /\ wf_index h'.
Proof.
  destruct (BuildSkip_correct sample_index 6 _ sample_index_wf eq_refl) as (h' & He & Hw & _).
  exists h'. exact (conj He Hw).
Defined.

Lemma SetTip_correct_witness : exists c, SetTip sample_index sample_chain (Some 8%positive) = Some c /\ Tip c = Some 8%positive.
Proof.
  destruct (SetTip_correct sample_index sample_chain 8 _ sample_index_wf sample_chain_wf eq_refl)
    as (c & He & _ & Ht & _). exists c. exact (conj He Ht).
Defined.

Lemma FindFork_correct_witness : exists r, FindFork sample_index sample_chain (Some 8%positive) = Some r.
Proof.
  destruct (FindFork_correct sample_index sample_chain 8 _ sample_index_wf sample_chain_wf eq_refl)
    as (r & He & _). exists r. exact He.
Defined.

Lemma LastCommonAncestor_correct_witness : exists r, LastCommonAncestor sample_index 6 8 = Some r /\ is_lca sample_index r 6 8.
Proof. exact (LastCommonAncestor_correct sample_index 6 8 _ _ sample_index_wf eq_refl eq_refl). Defined.

Lemma GetLocator_correct_witness : exists ps, GetLocator sample_index sample_chain (Some 8%positive) =
  Some (map (hash_at sample_index) ps) /\ length ps <= 15.
Proof.
  destruct (GetLocator_correct sample_index sample_chain 8 _ sample_index_wf sample_chain_wf eq_refl)
    as (ps & He & _ & Hl). exists ps. split; [exact He|exact Hl].
Defined.

Lemma sample_time_max_mono : time_max_mono sample_index.
Proof.
  assert (forallb (fun '(_, b) => match pprev b with Some q => match sample_index !! q with
    | Some b' => nTimeMax b' <=? nTimeMax b | None => true end | None => true end) (map_to_list sample_index) = true) as Hb
    by (vm_compute; reflexivity).
  rewrite forallb_forall in Hb. intros p b q b' Hp Hprev Hq.
  specialize (Hb (p, b) (proj1 (list_elem_of_In _ _) (proj2 (elem_of_map_to_list _ _ _) Hp))).
  simpl in Hb. rewrite Hprev, Hq in Hb. by apply Z.leb_le.
Qed.

Lemma FindEarliestAtLeast_correct_witness : exists r, FindEarliestAtLeast sample_index sample_chain 2500 2 = Some r.
Proof.
  destruct (FindEarliestAtLeast_correct sample_index sample_chain 2500 2 sample_chain_wf sample_time_max_mono)
    as (r & He & _). exists r. exact He.
Defined.

Lemma GetMedianTimePast_correct_witness : exists ts m, GetMedianTimePast sample_index 6 = Some m /\ is_median m ts.
Proof.
  destruct (GetMedianTimePast_correct sample_index 6 _ sample_index_wf eq_refl) as (ts & m & Hm & Hmed & _).
  exists ts, m. exact (conj Hm Hmed).
Defined.

Lemma GetBlockTrust_correct_witness :
  exists t, GetBlockTrust (sample_entry None None 0 0 1) = Some t /\ le_val 32 t = 2 ^ 256 / (0xffff * 2 ^ 208 + 1).
Proof.
  destruct (GetBlockTrust_correct (sample_entry None None 0 0 1)) as (t & He & _ & Hv);
    [unfold in_u; simpl; lia|]. exists t. split; [exact He|]. rewrite Hv. vm_compute. reflexivity.
Defined.
