(* ===== verification/BigNum.v ===== *)
(** * CBigNum ([bignum.h])

    The C++ wrapper over OpenSSL's [BIGNUM].  OpenSSL is an interface here: the
    class [BN] lists the functions the wrapper calls and [BNLaws] what their
    manual pages promise, as equations on the denoted integer.  The wrapper's
    own code - the MPI byte buffers, the compact format, the operators and their
    error paths - is translated and shown to compute on integers. *)
From stdpp Require Import prelude.
From S2P Require Import Prelude ArithUint256 Compact Uint256.

(** ** The OpenSSL interface *)

(** The functions of [openssl/bn.h] in value-passing style; [None] is the error
    return. *)
Class BN := {
  BIGNUM : Type;
  BN_new : BIGNUM;
  BN_value_one : BIGNUM;
  BN_set_word : Z -> BIGNUM;
  BN_get_word : BIGNUM -> Z;
  BN_is_negative : BIGNUM -> bool;
  BN_is_zero : BIGNUM -> bool;
  BN_set_negative : BIGNUM -> bool -> BIGNUM;
  BN_num_bytes : BIGNUM -> Z;
  BN_lshift : BIGNUM -> Z -> option BIGNUM;
  BN_rshift : BIGNUM -> Z -> option BIGNUM;
  BN_add : BIGNUM -> BIGNUM -> option BIGNUM;
  BN_sub : BIGNUM -> BIGNUM -> option BIGNUM;
  BN_mul : BIGNUM -> BIGNUM -> option BIGNUM;
  BN_div : BIGNUM -> BIGNUM -> option BIGNUM;
  BN_mod : BIGNUM -> BIGNUM -> option BIGNUM;
  BN_cmp : BIGNUM -> BIGNUM -> Z;
  BN_mpi2bn : list Z -> option BIGNUM;
  BN_bn2mpi : BIGNUM -> list Z;
}.

(** The MPI format: a big-endian magnitude whose first bit is the sign, after
    its length in four big-endian bytes. *)
Definition be_val (l : list Z) : Z := le_val 8 (rev l).
Definition mpi_val (d : list Z) : Z :=
  match d with
  | [] => 0
  | b :: r => let m := be_val (Z.land b 0x7f :: r) in if b <? 128 then m else - m
  end.
Definition be32 (n : Z) : list Z := rev (le_digits 8 4 n).
Definition mpi_message (d : list Z) : list Z := be32 (length d) ++ d.

(** Bytes of the magnitude, most significant first, without leading zeros. *)
Definition num_bits (v : Z) : Z := if v =? 0 then 0 else Z.log2 (Z.abs v) + 1.
Definition num_bytes (v : Z) : Z := (num_bits v + 7) / 8.
Definition magnitude (v : Z) : list Z := rev (le_digits 8 (Z.to_nat (num_bytes v)) (Z.abs v)).
Definition mpi_encoding (v : Z) : list Z :=
  let sign := if v <? 0 then 0x80 else 0 in
  match magnitude v with
  | [] => []
  | b :: r => if b <? 128 then Z.lor b sign :: r else sign :: b :: r
  end.

(** What the manual pages say, on the denoted integer. *)
Class BNLaws `(BN) := {
  bn_val : BIGNUM -> Z;
  val_new : bn_val BN_new = 0;
  val_one : bn_val BN_value_one = 1;
  val_set_word w : in_u 64 w -> bn_val (BN_set_word w) = w;
  get_word_val a : BN_get_word a = if Z.abs (bn_val a) <? 2 ^ 64 then Z.abs (bn_val a) else 2 ^ 64 - 1;
  is_negative_val a : BN_is_negative a = (bn_val a <? 0);
  is_zero_val a : BN_is_zero a = (bn_val a =? 0);
  set_negative_val a s : bn_val (BN_set_negative a s) = if s then - Z.abs (bn_val a) else Z.abs (bn_val a);
  num_bytes_val a : BN_num_bytes a = num_bytes (bn_val a);
  lshift_val a n : 0 <= n -> exists r, BN_lshift a n = Some r /\ bn_val r = bn_val a * 2 ^ n;
  rshift_val a n : 0 <= n -> exists r, BN_rshift a n = Some r /\ bn_val r = Z.quot (bn_val a) (2 ^ n);
  add_val a b : exists r, BN_add a b = Some r /\ bn_val r = bn_val a + bn_val b;
  sub_val a b : exists r, BN_sub a b = Some r /\ bn_val r = bn_val a - bn_val b;
  mul_val a b : exists r, BN_mul a b = Some r /\ bn_val r = bn_val a * bn_val b;
  div_val a b : bn_val b <> 0 -> exists r, BN_div a b = Some r /\ bn_val r = Z.quot (bn_val a) (bn_val b);
  div_zero a b : bn_val b = 0 -> BN_div a b = None;
  mod_val a b : bn_val b <> 0 -> exists r, BN_mod a b = Some r /\ bn_val r = Z.rem (bn_val a) (bn_val b);
  mod_zero a b : bn_val b = 0 -> BN_mod a b = None;
  cmp_val a b : BN_cmp a b = match bn_val a ?= bn_val b with Lt => -1 | Eq => 0 | Gt => 1 end;
  mpi2bn_val d : digits 8 d -> length d < 2 ^ 31 ->
    exists r, BN_mpi2bn (mpi_message d) = Some r /\ bn_val r = mpi_val d;
  bn2mpi_val a : BN_bn2mpi a = mpi_message (mpi_encoding (bn_val a));
}.

(** ** The wrapper *)
Module CBigNum.
Section ops.
Context `{!BN}.

Definition setulong (n : Z) : BIGNUM := BN_set_word (u64 n).
Definition getulong (self : BIGNUM) : Z := BN_get_word self.
Definition getuint (self : BIGNUM) : Z := u32 (BN_get_word self).
Definition getint (self : BIGNUM) : Z :=
  let n := BN_get_word self in
  if negb (BN_is_negative self) then (if 2 ^ 31 - 1 <? n then 2 ^ 31 - 1 else n)
  else (if 2 ^ 31 - 1 <? n then - 2 ^ 31 else - n).

(** The buffer is filled from its end: [*--p = x] is [x :: buf], and the byte
    that [*p] reads when nothing has been written is zero. *)
Fixpoint push_bytes (fuel : nat) (m : Z) (buf : list Z) : list Z :=
  match fuel with
  | O => buf
  | S fuel' => if m =? 0 then buf else push_bytes fuel' (m ≫ 8) (u8 m :: buf)
  end.
(** [*p |= neg]. *)
Definition or_first (neg : Z) (buf : list Z) : list Z :=
  match buf with [] => [] | b :: r => Z.lor b neg :: r end.
(** The length byte and the three zero bytes in front. *)
Definition push_length (buf : list Z) : list Z := 0 :: 0 :: 0 :: u8 (length buf) :: buf.

Definition setint64 (self : BIGNUM) (n : Z) : BIGNUM :=
  let neg := if n <? 0 then 0x80 else 0 in
  let m := if n <? 0 then u64 (- n) else u64 n in
  let buf := push_bytes 8 m [] in
  let buf := if 128 <=? hd 0 buf then neg :: buf else buf in
  let buf := or_first neg buf in
  default self (BN_mpi2bn (push_length buf)).
Definition setuint64 (self : BIGNUM) (n : Z) : BIGNUM :=
  let buf := push_bytes 8 n [] in
  let buf := if 128 <=? hd 0 buf then 0 :: buf else buf in
  default self (BN_mpi2bn (push_length buf)).

(** The constructors from built-in types. *)
Definition of_int (n : Z) : BIGNUM := if 0 <=? n then setulong n else setint64 BN_new n.
Definition of_int64 (n : Z) : BIGNUM := setint64 BN_new n.
Definition of_uint (n : Z) : BIGNUM := setulong n.
Definition of_uint64 (n : Z) : BIGNUM := setuint64 BN_new n.

(** [vch[4] &= 0x7f] and the copy loop that reads the bytes from the end. *)
Definition copy_back (size : nat) (vch : list Z) : list Z :=
  let vch := if (4 <? length vch)%nat then <[4%nat := Z.land vch.[4] 0x7f]> vch else vch in
  let src := take size (rev (drop 4 vch)) in
  src ++ replicate (size - length src) 0.
Definition getuint64 (self : BIGNUM) : Z :=
  let vch := BN_bn2mpi self in
  if (length vch <? 4)%nat then 0 else le_val 8 (copy_back 8 vch).

(** [setuint256]: leading zero bytes are skipped, and a zero byte is put before
    a first byte that would read as a sign. *)
Fixpoint skip_leading (src : list Z) : list Z :=
  match src with
  | [] => []
  | c :: r =>
      if c =? 0 then skip_leading r
      else if negb (Z.land c 0x80 =? 0) then 0 :: c :: r else c :: r
  end.
Definition size_bytes (nSize : Z) : list Z :=
  [Z.land (nSize ≫ 24) 0xff; Z.land (nSize ≫ 16) 0xff; Z.land (nSize ≫ 8) 0xff; Z.land (nSize ≫ 0) 0xff].
Definition setuint256 (self : BIGNUM) (n : list Z) : BIGNUM :=
  let data := skip_leading (rev n) in
  default self (BN_mpi2bn (size_bytes (length data) ++ data)).
Definition getuint256 (self : BIGNUM) : list Z :=
  let vch := BN_bn2mpi self in
  if (length vch <? 4)%nat then Blob.null 32 else copy_back 32 vch.
Definition of_uint256 (n : list Z) : BIGNUM := setuint256 BN_new n.

Definition setvch (self : BIGNUM) (vch : list Z) : BIGNUM :=
  default self (BN_mpi2bn (size_bytes (length vch) ++ rev vch)).
Definition getvch (self : BIGNUM) : list Z :=
  let vch := BN_bn2mpi self in
  if (length vch <=? 4)%nat then [] else rev (drop 4 vch).

(** The compact format; the results of [BN_lshift] and [BN_rshift] are not
    checked. *)
Definition SetCompact (nCompact : Z) : BIGNUM :=
  let nSize := nCompact ≫ 24 in
  let fNegative := negb (Z.land nCompact 0x00800000 =? 0) in
  let nWord := Z.land nCompact 0x007fffff in
  let self :=
    if nSize <=? 3 then BN_set_word (nWord ≫ (8 * (3 - nSize)))
    else let self := BN_set_word nWord in default self (BN_lshift self (8 * (nSize - 3))) in
  BN_set_negative self fNegative.

Definition GetCompact (self : BIGNUM) : Z :=
  let nSize := u32 (BN_num_bytes self) in
  let nCompact :=
    if nSize <=? 3 then u32 (u64 (BN_get_word self ≪ (8 * (3 - nSize))))
    else u32 (BN_get_word (default BN_new (BN_rshift self (8 * (nSize - 3))))) in
  let '(nCompact, nSize) :=
    if negb (Z.land nCompact 0x00800000 =? 0) then (nCompact ≫ 8, u32 (nSize + 1)) else (nCompact, nSize) in
  let nCompact := Z.lor nCompact (u32 (nSize ≪ 24)) in
  Z.lor nCompact (if BN_is_negative self then 0x00800000 else 0).

(** Arithmetic; [None] is a thrown [bignum_error]. *)
Definition add (a b : BIGNUM) : option BIGNUM := BN_add a b.
Definition sub (a b : BIGNUM) : option BIGNUM := BN_sub a b.
Definition neg (a : BIGNUM) : BIGNUM := BN_set_negative a (negb (BN_is_negative a)).
Definition mul (a b : BIGNUM) : option BIGNUM := BN_mul a b.
Definition div (a b : BIGNUM) : option BIGNUM := BN_div a b.
Definition modulo (a b : BIGNUM) : option BIGNUM := BN_mod a b.
Definition lshift (a : BIGNUM) (shift : Z) : option BIGNUM := BN_lshift a shift.
Definition rshift (self : BIGNUM) (shift : Z) : option BIGNUM :=
  a ← BN_lshift (of_int 1) shift;
  if 0 <? BN_cmp a self then Some (of_int 0) else BN_rshift self shift.
Definition incr (a : BIGNUM) : option BIGNUM := BN_add a BN_value_one.
Definition decr (a : BIGNUM) : option BIGNUM := BN_sub a BN_value_one.

Definition eqb (a b : BIGNUM) : bool := BN_cmp a b =? 0.
Definition neqb (a b : BIGNUM) : bool := negb (BN_cmp a b =? 0).
Definition leb (a b : BIGNUM) : bool := BN_cmp a b <=? 0.
Definition geb (a b : BIGNUM) : bool := 0 <=? BN_cmp a b.
Definition ltb (a b : BIGNUM) : bool := BN_cmp a b <? 0.
Definition gtb (a b : BIGNUM) : bool := 0 <? BN_cmp a b.

End ops.

(** ** Bytes of an integer *)

Lemma be_val_cons b r : be_val (b :: r) = be_val r + 2 ^ (8 * length r) * b.
Proof. unfold be_val. simpl. rewrite (le_val_app 8), length_rev by lia. simpl. lia. Qed.

Lemma be_val_bound l : digits 8 l -> 0 <= be_val l < 2 ^ (8 * length l).
Proof.
  intros Hl. unfold be_val. rewrite <- length_rev. apply (le_val_bound 8); [lia|]. by apply Forall_rev.
Qed.

Lemma num_bytes_step m : 0 < m -> num_bytes m = num_bytes (m / 256) + 1.
Proof.
  intros Hm. unfold num_bytes, num_bits. rewrite (proj2 (Z.eqb_neq m 0)) by lia.
  pose proof (Z.log2_nonneg m). destruct (m / 256 =? 0) eqn:E; cases_bool.
  - assert (m < 256). { pose proof (Z.div_mod m 256 ltac:(lia)). pose proof (Z.mod_pos_bound m 256 ltac:(lia)). lia. }
    rewrite Z.abs_eq by lia. pose proof (Z.log2_lt_pow2 m 8 Hm) as H8. change (2 ^ 8) with 256 in H8.
    change (0 + 7) with 7. change (7 / 8) with 0. symmetry. apply (Z.div_unique _ _ _ (Z.log2 m)); lia.
  - pose proof (Z.div_pos m 256 ltac:(lia) ltac:(lia)). rewrite !Z.abs_eq by lia.
    change 256 with (2 ^ 8) at 1. rewrite <- Z.shiftr_div_pow2, Z.log2_shiftr by lia.
    assert (8 <= Z.log2 m).
    { apply Z.log2_le_pow2; [lia|]. change (2 ^ 8) with 256.
      pose proof (Z.mul_div_le m 256 ltac:(lia)). lia. }
    rewrite Z.max_r by lia. replace (Z.log2 m + 1 + 7) with (Z.log2 m - 8 + 1 + 7 + 1 * 8) by lia.
    rewrite Z.div_add by lia. lia.
Qed.

Lemma num_bytes_nonneg v : 0 <= num_bytes v.
Proof.
  unfold num_bytes, num_bits. pose proof (Z.log2_nonneg (Z.abs v)). apply Z.div_pos; [|lia]. case_if; lia.
Qed.

Lemma num_bytes_bound v : Z.abs v < 2 ^ (8 * num_bytes v).
Proof.
  unfold num_bytes, num_bits. case_if; [by subst|].
  pose proof (Z.log2_spec (Z.abs v) ltac:(lia)) as [_ H]. eapply Z.lt_le_trans; [exact H|].
  apply Z.pow_le_mono_r; [lia|].
  pose proof (Z.div_mod (Z.log2 (Z.abs v) + 1 + 7) 8 ltac:(lia)).
  pose proof (Z.mod_pos_bound (Z.log2 (Z.abs v) + 1 + 7) 8 ltac:(lia)). lia.
Qed.

Lemma magnitude_digits v : digits 8 (magnitude v).
Proof. apply Forall_rev, le_digits_digits. lia. Qed.

Lemma magnitude_val v : be_val (magnitude v) = Z.abs v.
Proof.
  unfold be_val, magnitude. rewrite rev_involutive, (le_val_digits 8) by lia.
  pose proof (num_bytes_nonneg v). rewrite Z2Nat.id by done.
  apply Z.mod_small. pose proof (num_bytes_bound v). lia.
Qed.

Lemma magnitude_abs v : magnitude (Z.abs v) = magnitude v.
Proof.
  unfold magnitude, num_bytes, num_bits. rewrite Z.abs_idemp.
  destruct (Z.abs v =? 0) eqn:E, (v =? 0) eqn:E'; cases_bool; done || lia.
Qed.

(** Bytes without a leading zero are the magnitude of their value. *)
Lemma magnitude_be_val c r : digits 8 (c :: r) -> c <> 0 -> magnitude (be_val (c :: r)) = c :: r.
Proof.
  intros Hd Hc. pose proof (be_val_bound _ Hd) as Hb. apply Forall_cons in Hd as [Hc8 Hr].
  pose proof (be_val_bound r Hr) as Hrb. unfold in_u in Hc8.
  pose proof (be_val_cons c r) as Hv. pose proof (pow2_pos (8 * length r) ltac:(lia)).
  assert (num_bytes (be_val (c :: r)) = length (c :: r)) as Hn.
  { unfold num_bytes, num_bits. rewrite (proj2 (Z.eqb_neq _ 0)) by nia. rewrite Z.abs_eq by lia.
    assert (8 * length r <= Z.log2 (be_val (c :: r))) by (apply Z.log2_le_pow2; nia).
    assert (Z.log2 (be_val (c :: r)) < 8 * length (c :: r)) by (apply Z.log2_lt_pow2; nia).
    simpl length in *. set (x := Z.log2 _) in *. symmetry.
    apply (Z.div_unique _ _ _ (x - 8 * length r)); lia. }
  unfold magnitude. rewrite Hn, Nat2Z.id, Z.abs_eq by lia. unfold be_val.
  rewrite <- length_rev, le_digits_val; [by rewrite rev_involutive|lia|].
  apply Forall_rev. by constructor.
Qed.

Lemma push_bytes_spec (fuel : nat) m buf :
  0 <= m < 2 ^ (8 * fuel) -> push_bytes fuel m buf = magnitude m ++ buf.
Proof.
  revert m buf. induction fuel as [|fuel IH]; intros m buf Hm; simpl.
  - replace m with 0 by (simpl in Hm; lia). done.
  - destruct (m =? 0) eqn:E; cases_bool; [by subst|].
    rewrite Z.shiftr_div_pow2 by lia. change (2 ^ 8) with 256.
    rewrite IH.
    2:{ split; [apply Z.div_pos; lia|]. apply Z.div_lt_upper_bound; [lia|].
        replace (8 * S fuel) with (8 + 8 * fuel) in Hm by lia. rewrite Z.pow_add_r in Hm by lia. lia. }
    unfold magnitude at 2. rewrite num_bytes_step by lia. pose proof (num_bytes_nonneg (m / 256)).
    replace (Z.to_nat (num_bytes (m / 256) + 1)) with (S (Z.to_nat (num_bytes (m / 256)))) by lia.
    simpl. rewrite <- app_assoc. unfold magnitude.
    rewrite !Z.abs_eq by (try apply Z.div_pos; lia). done.
Qed.

(** ** The MPI format *)

Lemma lor_sign b s : 0 <= b < 128 -> s = 0 \/ s = 128 -> Z.lor b s = b + s /\ Z.land (b + s) 0x7f = b.
Proof.
  intros Hb Hs. change 0x7f with (2 ^ 7 - 1). rewrite land_ones_mod by lia. change (2 ^ 7) with 128.
  assert (Z.lor b s = b + s) as ->.
  { destruct Hs as [-> | ->]; [by rewrite Z.lor_0_r, Z.add_0_r|].
    change 128 with (1 ≪ 7) at 1. rewrite lor_low_high by (change (2 ^ 7) with 128; lia). done. }
  split; [done|]. destruct Hs as [-> | ->].
  - rewrite Z.add_0_r. apply Z.mod_small. lia.
  - replace (b + 128) with (b + 1 * 128) by lia. rewrite Z.mod_add by lia. apply Z.mod_small. lia.
Qed.

Lemma mpi_encoding_spec v : mpi_val (mpi_encoding v) = v /\ digits 8 (mpi_encoding v).
Proof.
  unfold mpi_encoding. pose proof (magnitude_val v) as Hv. pose proof (magnitude_digits v) as Hd.
  destruct (magnitude v) as [|b r]; [split; [simpl; unfold be_val in Hv; simpl in Hv; lia|constructor]|].
  pose proof Hd as [Hb Hr]%Forall_cons. unfold in_u in Hb.
  set (s := if v <? 0 then 0x80 else 0).
  assert (s = 0 /\ 0 <= v \/ s = 128 /\ v < 0) as Hs by (subst s; case_if; lia).
  destruct (b <? 128) eqn:E; cases_bool.
  - destruct (lor_sign b s ltac:(lia) ltac:(lia)) as [-> Hl]. split.
    + simpl. rewrite Hl, Hv. destruct Hs as [[-> ?]|[-> ?]]; case_if; lia.
    + constructor; [unfold in_u; lia|done].
  - split.
    + simpl. change (Z.land s 0x7f :: b :: r) with ([Z.land s 0x7f] ++ b :: r).
      replace (Z.land s 0x7f) with 0 by (destruct Hs as [[-> ?]|[-> ?]]; done). simpl.
      rewrite be_val_cons, Hv. destruct Hs as [[-> ?]|[-> ?]]; simpl; lia.
    + constructor; [unfold in_u; lia|done].
Qed.

Lemma push_length_message buf : length buf < 256 -> push_length buf = mpi_message buf.
Proof.
  intros Hl. unfold push_length, mpi_message, be32. simpl. 
  rewrite (Z.div_small (length buf) (2 ^ 8)) by (change (2 ^ 8) with 256; lia). done.
Qed.

Lemma size_bytes_be32 n : size_bytes n = be32 n.
Proof.
  unfold size_bytes, be32. simpl. change 0xff with (2 ^ 8 - 1). rewrite !land_ones_mod by lia.
  rewrite !Z.shiftr_div_pow2, !Z.div_div by lia. by rewrite Z.div_1_r.
Qed.

Lemma skip_leading_spec l : digits 8 l -> skip_leading l = mpi_encoding (be_val l).
Proof.
  induction l as [|c r IH]; intros Hd; [done|]. pose proof Hd as [Hc Hr]%Forall_cons.
  cbn [skip_leading]. destruct (c =? 0) eqn:E; cases_bool.
  - subst. rewrite IH by done. f_equal. rewrite be_val_cons. lia.
  - pose proof (be_val_bound _ Hd). unfold mpi_encoding. rewrite magnitude_be_val by done.
    rewrite (proj2 (Z.ltb_ge _ 0)) by lia. change 0x80 with (2 ^ 7). rewrite Compact.land_bit by lia.
    unfold in_u in Hc. rewrite (Compact.testbit_top c 7) by (change (2 ^ 8) with 256 in *; lia).
    rewrite Z.lor_0_r. change (2 ^ 7) with 128. destruct (128 <=? c) eqn:E1; cases_bool; simpl.
    + by rewrite (proj2 (Z.ltb_ge c 128)).
    + by rewrite (proj2 (Z.ltb_lt c 128)).
Qed.

(** ** The wrapper computes on integers *)
Section laws.
Context `{!BN} `{!BNLaws _}.

Lemma mpi2bn_encoding self v :
  length (mpi_encoding v) < 2 ^ 31 -> bn_val (default self (BN_mpi2bn (mpi_message (mpi_encoding v)))) = v.
Proof.
  intros Hl. destruct (mpi_encoding_spec v) as [Hv Hd].
  destruct (mpi2bn_val (mpi_encoding v) Hd Hl) as (r & -> & Hr). simpl. congruence.
Qed.

Lemma mpi_encoding_length v : length (mpi_encoding v) <= num_bytes v + 1.
Proof.
  unfold mpi_encoding. pose proof (num_bytes_nonneg v).
  assert (length (magnitude v) = Z.to_nat (num_bytes v)) as Hl.
  { unfold magnitude. by rewrite length_rev, le_digits_length. }
  destruct (magnitude v); simpl in *; [lia|]. case_if; simpl; lia.
Qed.

Lemma num_bytes_le (n : nat) v : Z.abs v < 2 ^ (8 * n) -> num_bytes v <= n.
Proof.
  intros Hv. unfold num_bytes, num_bits. case_if; [change ((0 + 7) / 8) with 0; lia|].
  assert (Z.log2 (Z.abs v) < 8 * n) by (apply Z.log2_lt_pow2; lia).
  assert ((Z.log2 (Z.abs v) + 1 + 7) / 8 < n + 1); [|lia]. apply Z.div_lt_upper_bound; lia.
Qed.

(** The buffer the two 64-bit setters build. *)
Lemma int64_buffer n : in_s 64 n ->
  let neg := if n <? 0 then 0x80 else 0 in
  let buf := push_bytes 8 (if n <? 0 then u64 (- n) else u64 n) [] in
  or_first neg (if 128 <=? hd 0 buf then neg :: buf else buf) = mpi_encoding n.
Proof.
  intros Hn neg buf. assert (buf = magnitude n) as ->.
  { subst buf. unfold in_s in Hn. change (2 ^ (64 - 1)) with (2 ^ 63) in Hn.
    assert ((if n <? 0 then u64 (- n) else u64 n) = Z.abs n) as ->
      by (case_if; rewrite u64_small by (unfold in_u; lia); lia).
    rewrite push_bytes_spec, app_nil_r by (change (8 * 8%nat) with 64; lia). apply magnitude_abs. }
  unfold mpi_encoding. fold neg. pose proof (magnitude_digits n) as Hd.
  destruct (magnitude n) as [|b r]; [done|]. simpl.
  assert (neg = 0 \/ neg = 128) as Hneg by (subst neg; case_if; lia).
  rewrite Z.ltb_antisym. destruct (128 <=? b); simpl; [|done].
  f_equal. destruct Hneg as [-> | ->]; done.
Qed.

Lemma mpi_message_int64 self n :
  Z.abs n < 2 ^ 64 -> bn_val (default self (BN_mpi2bn (push_length (mpi_encoding n)))) = n.
Proof.
  intros Hn. pose proof (mpi_encoding_length n). pose proof (num_bytes_le 8 n Hn).
  rewrite push_length_message by lia. apply mpi2bn_encoding. lia.
Qed.

Lemma setint64_spec self n : in_s 64 n -> bn_val (setint64 self n) = n.
Proof.
  intros Hn. unfold setint64. rewrite int64_buffer by done. apply mpi_message_int64.
  unfold in_s in Hn. change (2 ^ (64 - 1)) with (2 ^ 63) in Hn. lia.
Qed.

Lemma of_int64_spec n : in_s 64 n -> bn_val (of_int64 n) = n.
Proof. apply setint64_spec. Qed.

Lemma setuint64_spec self n : in_u 64 n -> bn_val (setuint64 self n) = n.
Proof.
  intros Hn. unfold setuint64. unfold in_u in Hn.
  rewrite push_bytes_spec, app_nil_r by (change (8 * 8%nat) with 64; lia).
  match goal with |- context [push_length ?x] => assert (x = mpi_encoding n) as -> end.
  2:{ apply mpi_message_int64. lia. }
  unfold mpi_encoding. rewrite (proj2 (Z.ltb_ge n 0)) by lia. destruct (magnitude n) as [|b r]; [done|]. simpl.
  rewrite Z.ltb_antisym, Z.lor_0_r. by destruct (128 <=? b).
Qed.

Lemma of_int_spec n : in_s 32 n -> bn_val (of_int n) = n.
Proof.
  unfold in_s. change (2 ^ (32 - 1)) with (2 ^ 31). intros Hn. unfold of_int, setulong. case_if.
  - rewrite u64_small by (unfold in_u; lia). apply val_set_word. unfold in_u. lia.
  - apply setint64_spec. unfold in_s. change (2 ^ (64 - 1)) with (2 ^ 63). lia.
Qed.

Lemma setuint256_spec self n : Blob.wf 32 n -> bn_val (setuint256 self n) = le_val 8 n.
Proof.
  intros [Hl Hd]. unfold setuint256. rewrite skip_leading_spec by (by apply Forall_rev).
  unfold be_val. rewrite rev_involutive, size_bytes_be32.
  pose proof (mpi_encoding_length (le_val 8 n)). pose proof (le_val_bound 8 ltac:(lia) n Hd) as Hb.
  rewrite Hl in Hb. pose proof (num_bytes_le 32 (le_val 8 n) ltac:(rewrite Z.abs_eq; lia)).
  apply mpi2bn_encoding. lia.
Qed.

(** What the copy loop reads back: the low bytes of the magnitude. *)
Definition clear_sign (d : list Z) : list Z := match d with [] => [] | b :: r => Z.land b 0x7f :: r end.

Lemma clear_sign_spec v :
  digits 8 (clear_sign (mpi_encoding v)) /\ be_val (clear_sign (mpi_encoding v)) = Z.abs v.
Proof.
  destruct (mpi_encoding_spec v) as [Hv Hd]. destruct (mpi_encoding v) as [|b r]; simpl in *.
  { split; [constructor|]. unfold be_val. simpl. lia. }
  pose proof Hd as [Hb Hr]%Forall_cons. unfold in_u in Hb.
  assert (digits 8 (Z.land b 127 :: r)) as Hd'.
  { constructor; [|done]. change 127 with (2 ^ 7 - 1). rewrite land_ones_mod by lia.
    pose proof (Z.mod_pos_bound b (2 ^ 7) ltac:(lia)). unfold in_u. lia. }
  split; [done|]. pose proof (be_val_bound _ Hd'). case_if_in Hv; lia.
Qed.

Lemma mpi_message_length d : length (mpi_message d) = (4 + length d)%nat.
Proof. unfold mpi_message. by rewrite length_app. Qed.

Lemma copy_back_message size d :
  copy_back size (mpi_message d) =
    let src := take size (rev (clear_sign d)) in src ++ replicate (size - length src) 0.
Proof.
  unfold copy_back. rewrite mpi_message_length. unfold mpi_message.
  destruct d as [|b r]; [done|].
  rewrite (proj2 (Nat.ltb_lt _ _)) by (simpl; lia). done.
Qed.

Lemma copy_back_spec size v :
  Blob.wf size (copy_back size (mpi_message (mpi_encoding v))) /\
  le_val 8 (copy_back size (mpi_message (mpi_encoding v))) = Z.abs v mod 2 ^ (8 * size).
Proof.
  rewrite copy_back_message. cbv zeta. destruct (clear_sign_spec v) as [Hd Hv].
  set (src := rev (clear_sign (mpi_encoding v))).
  assert (digits 8 src) as Hsrc by (by apply Forall_rev). split.
  - split.
    + rewrite length_app, length_replicate, length_take. lia.
    + apply Forall_app. split; [by apply Forall_take|]. apply digits_replicate. lia.
  - rewrite (le_val_app 8), le_val_replicate_0, Z.mul_0_r, Z.add_0_r by lia.
    rewrite (le_val_take 8) by (done || lia). by rewrite <- Hv.
Qed.

Lemma getuint256_spec a :
  Blob.wf 32 (getuint256 a) /\ le_val 8 (getuint256 a) = Z.abs (bn_val a) mod 2 ^ 256.
Proof.
  unfold getuint256. rewrite bn2mpi_val. rewrite mpi_message_length. simpl (_ <? _)%nat. apply (copy_back_spec 32).
Qed.

Lemma getuint64_spec a : getuint64 a = Z.abs (bn_val a) mod 2 ^ 64.
Proof.
  unfold getuint64. rewrite bn2mpi_val. rewrite mpi_message_length. simpl (_ <? _)%nat. apply (copy_back_spec 8).
Qed.

(** ** Stack numbers: little-endian MPI without the length *)

Lemma getvch_spec a : getvch a = rev (mpi_encoding (bn_val a)).
Proof.
  unfold getvch. rewrite bn2mpi_val. rewrite mpi_message_length. destruct (mpi_encoding (bn_val a)); done.
Qed.

Lemma setvch_spec self vch : digits 8 vch -> length vch < 2 ^ 31 -> bn_val (setvch self vch) = mpi_val (rev vch).
Proof.
  intros Hd Hl. unfold setvch. rewrite size_bytes_be32.
  destruct (mpi2bn_val (rev vch)) as (r & Hr & Hv); [by apply Forall_rev|rewrite length_rev; lia|].
  unfold mpi_message in Hr. rewrite length_rev in Hr. rewrite Hr. done.
Qed.

(** ** The compact format *)

Lemma SetCompact_val c : in_u 32 c ->
  bn_val (SetCompact c) = (if Z.testbit c 23 then -1 else 1) * Compact.compact_value c.
Proof.
  intros Hc. pose proof (Compact.compact_value_nonneg c Hc) as Hpos.
  destruct (Compact.SetCompact_parts c Hc) as (He & Hm & Her & Hmr).
  unfold SetCompact. rewrite He, Hm. change 0x00800000 with (2 ^ 23). rewrite Compact.land_bit by lia.
  rewrite set_negative_val.
  assert (negb ((if Z.testbit c 23 then 2 ^ 23 else 0) =? 0) = Z.testbit c 23) as ->
    by by destruct (Z.testbit c 23).
  match goal with |- context [Z.abs (bn_val ?x)] => assert (bn_val x = Compact.compact_value c) as -> end.
  2:{ destruct (Z.testbit c 23); lia. }
  unfold Compact.compact_value in *. destruct (Compact.exponent c <=? 3) eqn:E; cases_bool.
  - rewrite Z.shiftr_div_pow2, <- Compact.pow256 in * by lia. apply val_set_word.
    unfold in_u. split; [lia|]. apply Z.div_lt_upper_bound; [apply Z.pow_pos_nonneg; lia|].
    pose proof (Z.pow_pos_nonneg 256 (3 - Compact.exponent c) ltac:(lia) ltac:(lia)). nia.
  - assert (bn_val (BN_set_word (Compact.mantissa c)) = Compact.mantissa c) as Hw
      by (apply val_set_word; unfold in_u; lia).
    destruct (lshift_val (BN_set_word (Compact.mantissa c)) (8 * (Compact.exponent c - 3)) ltac:(lia))
      as (r & -> & Hr). simpl. by rewrite Hr, Hw, Compact.pow256 by lia.
Qed.

(** On the values an [arith_uint256] holds the two encoders work on the same
    size and mantissa. *)
Lemma GetCompact_words a x :
  BaseUint.wf 8 x -> bn_val a = le_val 32 x ->
  let n := (BaseUint.bits 8 x + 7) / 8 in
  u32 (BN_num_bytes a) = n /\ 0 <= n <= 32 /\
  (if n <=? 3 then BN_get_word a = BaseUint.GetLow64 x
   else BN_get_word (default BN_new (BN_rshift a (8 * (n - 3)))) =
        BaseUint.GetLow64 (BaseUint.shr_assign 8 x (8 * (n - 3)))).
Proof.
  intros Hx Ha n. pose proof (Compact.GetCompact_mantissa x Hx) as HM. cbv zeta in HM. fold n in HM.
  pose proof (BaseUint.wf_bound 8 x Hx) as Hb.
  assert (0 <= n <= 32) as Hn by (destruct HM as [HM|HM]; lia).
  assert (le_val 32 x < 256 ^ n) as Hlt by (destruct HM as [(-> & -> & _)|HM]; [done|lia]).
  assert (BN_num_bytes a = n) as ->.
  { rewrite num_bytes_val, Ha. unfold num_bytes, num_bits, n. rewrite (BaseUint.bits_spec 8) by done.
    by rewrite Z.abs_eq by lia. }
  rewrite u32_small by (unfold in_u; lia). split_and!; [done|lia..|].
  destruct (n <=? 3) eqn:E; cases_bool.
  - pose proof (Z.pow_le_mono_r 256 n 3 ltac:(lia) ltac:(lia)).
    rewrite get_word_val, Ha, (BaseUint.GetLow64_spec 8), Z.abs_eq by (done || lia).
    rewrite (proj2 (Z.ltb_lt _ _)) by lia. symmetry. apply Z.mod_small. lia.
  - destruct (BaseUint.shr_assign_spec 8 x (8 * (n - 3)) Hx ltac:(lia)) as [Hs Hsv].
    destruct (rshift_val a (8 * (n - 3)) ltac:(lia)) as (r & -> & Hr). simpl.
    rewrite get_word_val, Hr, Ha, (BaseUint.GetLow64_spec 8), Hsv by (done || lia).
    pose proof (pow2_pos (8 * (n - 3)) ltac:(lia)) as Hp.
    rewrite Z.quot_div_nonneg by lia. rewrite Compact.pow256 in Hlt by lia.
    assert (0 <= le_val 32 x / 2 ^ (8 * (n - 3)) < 2 ^ 24) as Hq.
    { split; [apply Z.div_pos; lia|]. apply Z.div_lt_upper_bound; [lia|]. rewrite <- Z.pow_add_r by lia.
      replace (8 * (n - 3) + 24) with (8 * n) by lia. done. }
    rewrite Z.abs_eq, (proj2 (Z.ltb_lt _ _)), Z.mod_small by lia. done.
Qed.

Lemma GetCompact_arith a x :
  BaseUint.wf 8 x -> bn_val a = le_val 32 x -> Compact.GetCompact x false = Some (GetCompact a).
Proof.
  intros Hx Ha. destruct (Compact.GetCompact_spec x false Hx) as (e & m & Hget & _).
  destruct (GetCompact_words a x Hx Ha) as (Hn & Hnr & Hw). pose proof (BaseUint.wf_bound 8 x Hx).
  unfold Compact.GetCompact, GetCompact in *. rewrite Hn, is_negative_val, Ha.
  rewrite (proj2 (Z.ltb_ge _ 0)) by lia.
  set (n := (BaseUint.bits 8 x + 7) / 8) in *.
  assert ((if n <=? 3 then u32 (u64 (BN_get_word a ≪ (8 * (3 - n))))
           else u32 (BN_get_word (default BN_new (BN_rshift a (8 * (n - 3)))))) =
          (if n <=? 3 then u32 (u64 (BaseUint.GetLow64 x ≪ (8 * (3 - n))))
           else u32 (BaseUint.GetLow64 (BaseUint.shr_assign 8 x (8 * (n - 3)))))) as ->
    by (destruct (n <=? 3); by rewrite Hw).
  match goal with |- context [Z.land ?x 0x00800000] => set (mm := x) in * end.
  rewrite (u32_small (n + 1)) by (unfold in_u; lia).
  destruct (if negb (Z.land mm 8388608 =? 0) then (mm ≫ 8, n + 1) else (mm, n)) as [mm' n'].
  destruct (negb (Z.land mm' _ =? 0)); [done|]. destruct (negb (n' <? 256)); [done|].
  cbn [andb]. done.
Qed.

(** Encoding any non-negative number: never more than the number, and off by
    less than one part in [2^15], as for [arith_uint256]. *)
Lemma BN_GetCompact_spec a :
  0 <= bn_val a < 2 ^ 256 ->
  exists b, in_u 32 (GetCompact a) /\ Compact.SetCompact (GetCompact a) = (b, false, false) /\
    BaseUint.wf 8 b /\ le_val 32 b <= bn_val a /\ (bn_val a - le_val 32 b) * 2 ^ 15 <= bn_val a.
Proof.
  intros Ha. set (x := le_digits 32 8 (bn_val a)).
  assert (BaseUint.wf 8 x) as Hx by (split; [apply le_digits_length|apply le_digits_digits; lia]).
  assert (le_val 32 x = bn_val a) as Hv.
  { unfold x. rewrite (le_val_digits 32) by lia. apply Z.mod_small. done. }
  destruct (Compact.GetCompact_truncates x Hx) as (c & b & Hc & Hcu & Hs & Hle & Herr).
  rewrite (GetCompact_arith a x Hx) in Hc by done. injection Hc as <-. rewrite Hv in *.
  exists b. pose proof (Compact.SetCompact_spec _ Hcu) as Hsp. rewrite Hs in Hsp. destruct Hsp as (Hb & _).
  done.
Qed.

End laws.

(** ** OpenSSL's contract can be met: integers with the MPI codec *)

#[local] Instance Z_BN : BN := {|
  BIGNUM := Z; BN_new := 0; BN_value_one := 1; BN_set_word := fun w => w;
  BN_get_word := fun a => if Z.abs a <? 2 ^ 64 then Z.abs a else 2 ^ 64 - 1;
  BN_is_negative := fun a => a <? 0; BN_is_zero := fun a => a =? 0;
  BN_set_negative := fun a (s : bool) => if s then - Z.abs a else Z.abs a;
  BN_num_bytes := num_bytes;
  BN_lshift := fun a n => Some (a * 2 ^ n); BN_rshift := fun a n => Some (Z.quot a (2 ^ n));
  BN_add := fun a b => Some (a + b); BN_sub := fun a b => Some (a - b); BN_mul := fun a b => Some (a * b);
  BN_div := fun a b => if b =? 0 then None else Some (Z.quot a b);
  BN_mod := fun a b => if b =? 0 then None else Some (Z.rem a b);
  BN_cmp := fun a b => match a ?= b with Lt => -1 | Eq => 0 | Gt => 1 end;
  BN_mpi2bn := fun l => if be_val (take 4 l) =? length (drop 4 l) then Some (mpi_val (drop 4 l)) else None;
  BN_bn2mpi := fun a => mpi_message (mpi_encoding a) |}.

#[local] Instance Z_BNLaws : BNLaws Z_BN.
Proof.
  refine {| bn_val := fun a : @BIGNUM Z_BN => a |}; intros; cbn -[take drop mpi_message be_val]; eauto.
  - case_if; [done|eauto].
  - case_if; [done|done].
  - case_if; [done|eauto].
  - case_if; [done|done].
  - exists (mpi_val d). split; [|done].
    unfold mpi_message. rewrite take_app_length', drop_app_length' by done.
    unfold be_val, be32. rewrite rev_involutive, (le_val_digits 8) by lia.
    rewrite Z.mod_small by (change (2 ^ (8 * 4%nat)) with (2 ^ 32); lia). by rewrite Z.eqb_refl.
Defined.

(** The wrapper computes on integers through the byte formats of OpenSSL:
    the 64-bit and 256-bit setters store the number they are given, reading a
    [uint256] back gives the same bytes, [SetCompact] is the signed compact
    value, and on the numbers an [arith_uint256] can hold [GetCompact] agrees
    with the limb implementation. *)
Theorem CBigNum_conversions `{HBN : BNLaws} self n u c x a :
  in_s 64 n -> Blob.wf 32 u -> in_u 32 c -> BaseUint.wf 8 x -> bn_val a = le_val 32 x ->
  bn_val (setint64 self n) = n /\
  bn_val (setuint256 self u) = le_val 8 u /\ getuint256 (setuint256 self u) = u /\
  bn_val (SetCompact c) = (if Z.testbit c 23 then -1 else 1) * Compact.compact_value c /\
  Compact.GetCompact x false = Some (GetCompact a).
Proof.
  intros Hn Hu Hc Hx Ha. pose proof (setuint256_spec self u Hu) as Hset.
  split_and!; [by apply setint64_spec|done| |by apply SetCompact_val|by apply GetCompact_arith].
  destruct (getuint256_spec (setuint256 self u)) as [Hw Hv]. apply (blob_inj 32); [done..|].
  rewrite Hv, Hset. destruct Hu as [Hl Hd]. pose proof (le_val_bound 8 ltac:(lia) u Hd) as Hb. rewrite Hl in Hb.
  rewrite Z.abs_eq by lia. apply Z.mod_small. exact Hb.
Qed.

Lemma CBigNum_conversions_witness :
  @setint64 Z_BN 0 (-129) = -129 /\ Compact.GetCompact (BaseUint.of_u64 8 0xc0de000000) false = Some (@GetCompact Z_BN 0xc0de000000).
Proof.
  assert (Blob.wf 32 (replicate 32 0)) as Hu by (split; [reflexivity|repeat constructor; cbv; done]).
  assert (BaseUint.wf 8 (BaseUint.of_u64 8 0xc0de000000)) as Hx by (split; [reflexivity|repeat constructor; cbv; done]).
  destruct (CBigNum_conversions (HBN := Z_BNLaws) 0 (-129) (replicate 32 0) 0 (BaseUint.of_u64 8 0xc0de000000) 0xc0de000000)
    as (H1 & _ & _ & _ & H2);
    [cbv; split; [discriminate|reflexivity]|exact Hu|cbv; split; [discriminate|reflexivity]|exact Hx|reflexivity|].
  exact (conj H1 H2).
Defined.

End CBigNum.
