(* ===== verification/Params.v ===== *)
(** * Consensus parameters ([consensus/params.h], [chainparams.cpp])

    The fields the modelled code reads, and the values the main and test
    networks give them.  256-bit constants are little-endian byte lists. *)
From stdpp Require Import prelude.
From S2P Require Import Prelude ArithUint256 Uint256.

Record Params := mkParams {
  nSubsidyHalvingInterval : Z;
  BIP34Height : Z;
  SegwitHeight : Z;
  powLimit : list Z;
  fPowAllowMinDifficultyBlocks : bool;
  fPowNoRetargeting : bool;
  nPowTargetSpacing : Z;
  nPowDGWHeight : Z;
  DGWBlocksAvg : Z;
  nPoSActivationHeight : Z;
  bnInitialHashTarget : list Z;
  nStakeTargetSpacing : Z;
  nTargetSpacingWorkMax : Z;
  nTargetTimespan : Z;
  nStakeMinAge : Z;
  nStakeMaxAge : Z;
  nModifierInterval : Z;
  nCoinbaseMaturity : Z;
}.

Definition DifficultyAdjustmentInterval (params : Params) : Z :=
  Z.quot (nTargetTimespan params) (nPowTargetSpacing params).

(** [uint256S("00ff..ff")]. *)
Definition limit_00ff : list Z := replicate 31 255 ++ [0].

Definition CMainParams : Params := {|
  BIP34Height := 1;
  powLimit := limit_00ff;
  bnInitialHashTarget := limit_00ff;
  nTargetTimespan := 24 * 60 * 60;
  nStakeTargetSpacing := 2 * 60;
  nTargetSpacingWorkMax := 12 * (2 * 60);
  nPowTargetSpacing := 2 * 60;
  nStakeMinAge := 60 * 60 * 24 * 14;
  nStakeMaxAge := 60 * 60 * 24 * 90;
  nModifierInterval := 6 * 60 * 60;
  nCoinbaseMaturity := 200;
  nSubsidyHalvingInterval := 525600;
  nPoSActivationHeight := 10000;
  nPowDGWHeight := 60;
  DGWBlocksAvg := 60;
  fPowAllowMinDifficultyBlocks := false;
  fPowNoRetargeting := false;
  SegwitHeight := 1;
|}.

Definition CTestNetParams : Params := {|
  BIP34Height := 60;
  powLimit := limit_00ff;
  bnInitialHashTarget := limit_00ff;
  nTargetTimespan := 24 * 60 * 60;
  nStakeTargetSpacing := 1 * 60;
  nTargetSpacingWorkMax := 12 * (1 * 60);
  nPowTargetSpacing := 1 * 60;
  nStakeMinAge := 60 * 60 * 2;
  nStakeMaxAge := 60 * 60 * 24 * 90;
  nModifierInterval := 60;
  nCoinbaseMaturity := 100;
  nSubsidyHalvingInterval := 21600;
  nPoSActivationHeight := 5000;
  nPowDGWHeight := 60;
  DGWBlocksAvg := 60;
  fPowAllowMinDifficultyBlocks := true;
  fPowNoRetargeting := false;
  SegwitHeight := 120;
|}.

(** What the difficulty and staking code relies on: positive spacings and
    timespans of moderate size, a proof-of-work limit that is a proper number. *)
Record sane (params : Params) : Prop := {
  sane_powLimit : Blob.wf 32 (powLimit params) /\ 0 < le_val 8 (powLimit params) <= 2 ^ 248 - 1;
  sane_initial : Blob.wf 32 (bnInitialHashTarget params) /\
                 0 < le_val 8 (bnInitialHashTarget params) <= le_val 8 (powLimit params);
  sane_spacing : 0 < nPowTargetSpacing params <= 2 ^ 16 /\ 0 < nStakeTargetSpacing params <= 2 ^ 16;
  sane_timespan : 0 < nTargetTimespan params < 2 ^ 30;
  sane_dgw : 1 < DGWBlocksAvg params <= 2 ^ 10 /\ 0 < nPowDGWHeight params <= 2 ^ 20;
  sane_age : 0 <= nStakeMinAge params <= nStakeMaxAge params /\ nStakeMaxAge params < 2 ^ 32;
  sane_modifier : 0 < nModifierInterval params < 2 ^ 31;
}.

Lemma limit_00ff_val : le_val 8 limit_00ff = 2 ^ 248 - 1.
Proof. reflexivity. Qed.

Lemma limit_00ff_wf : Blob.wf 32 limit_00ff.
Proof. split; [reflexivity|]. repeat constructor; cbv; done. Qed.

Ltac prove_sane :=
  split; [split; [apply limit_00ff_wf|]|split; [apply limit_00ff_wf|]|..];
  cbn [powLimit bnInitialHashTarget CMainParams CTestNetParams]; rewrite ?limit_00ff_val; simpl; lia.

Lemma main_sane : sane CMainParams.
Proof. prove_sane. Qed.

Lemma test_sane : sane CTestNetParams.
Proof. prove_sane. Qed.
