(* ===== verification/Pow.v ===== *)
(** * Difficulty ([pow.cpp])

    The DarkGravityWave average, the retargeting of every block, the search for
    the proof-of-stake blocks that switches between the two (with the static
    flag it keeps), and the proof-of-work check.  [None] is a failed assertion,
    a null dereference or a thrown error. *)
From stdpp Require Import prelude gmap.
From S2P Require Import Prelude ArithUint256 Compact Uint256 Chain ChainTheory ChainSearch BigNum Params.

Module Pow.
Import BaseUint.

(** ** [DarkGravityWave] *)

(** [while (pindex->IsProofOfStake() != fProofOfStake) { pindex = pindex->pprev; assert(pindex); }] *)
Fixpoint skip_other_kind (h : heap) (fuel : nat) (pindex : ptr) (fProofOfStake : bool) : option ptr :=
  b ← h !! pindex;
  if Bool.eqb (IsProofOfStake b) fProofOfStake then Some pindex
  else match pprev b, fuel with
       | Some q, S fuel' => skip_other_kind h fuel' q fProofOfStake
       | _, _ => None
       end.

(** The averaging loop; [n] iterations are left. *)
Fixpoint dgw_loop (h : heap) (fuel : nat) (fProofOfStake : bool) (nPastBlocks : Z)
    (n : nat) (nCountBlocks : Z) (pindex : ptr) (bnPastTargetAvg : list Z) : option (ptr * list Z) :=
  match n with
  | O => Some (pindex, bnPastTargetAvg)
  | S n' =>
      b ← h !! pindex;
      let bnTarget := arith_uint512_of_256 (Compact.SetCompact (nBits b)).1.1 in
      bnPastTargetAvg ←
        (if nCountBlocks =? 1 then Some bnTarget
         else div_assign 16 (add_assign 16 (mul_u32_assign 16 bnPastTargetAvg nCountBlocks) bnTarget)
                            (of_u64 16 (u32 (nCountBlocks + 1))));
      pindex ←
        (if negb (nCountBlocks =? nPastBlocks)
         then q ← pprev b; skip_other_kind h fuel q fProofOfStake
         else Some pindex);
      dgw_loop h fuel fProofOfStake nPastBlocks n' (u32 (nCountBlocks + 1)) pindex bnPastTargetAvg
  end.

(** [nTargetTimespan] and the two limits on [nActualTimespan]. *)
Definition dgw_target_timespan (params : Params) (fProofOfStake : bool) (height : Z) : Z :=
  let nTargetTimespan := DGWBlocksAvg params in
  let nTargetTimespan :=
    if fProofOfStake then nTargetTimespan * nStakeTargetSpacing params
    else nTargetTimespan * nPowTargetSpacing params in
  if nPoSActivationHeight params <? height then nTargetTimespan * 2 else nTargetTimespan.
Definition dgw_clamp (nTargetTimespan nActualTimespan : Z) : Z :=
  let nActualTimespan :=
    if nActualTimespan <? Z.quot nTargetTimespan 3 then Z.quot nTargetTimespan 3 else nActualTimespan in
  if nTargetTimespan * 3 <? nActualTimespan then nTargetTimespan * 3 else nActualTimespan.

Definition DarkGravityWave (h : heap) (pindexLast : option ptr) (params : Params) (fProofOfStake : bool) : option Z :=
  let bnPowLimit := UintToArith256 (powLimit params) in
  let nPastBlocks := DGWBlocksAvg params in
  match pindexLast with
  | None => Compact.GetCompact bnPowLimit false
  | Some last =>
      bl ← h !! last;
      if nHeight bl <? nPastBlocks then Compact.GetCompact bnPowLimit false
      else
        '(pindex, bnPastTargetAvg) ←
          dgw_loop h (Z.to_nat (nHeight bl)) fProofOfStake nPastBlocks (Z.to_nat nPastBlocks) 1 last (zero 16);
        b ← h !! pindex;
        let nActualTimespan := GetBlockTime bl - GetBlockTime b in
        let nTargetTimespan := dgw_target_timespan params fProofOfStake (nHeight bl) in
        let nActualTimespan := dgw_clamp nTargetTimespan nActualTimespan in
        let bnNew := mul_u32_assign 16 bnPastTargetAvg (u32 nActualTimespan) in
        bnNew ← div_assign 16 bnNew (of_u64 16 (u64 nTargetTimespan));
        let bnFinal := trim256 bnNew in
        let bnFinal := if leb 8 bnFinal (of_u64 8 0) || gtb 8 bnFinal bnPowLimit then bnPowLimit else bnFinal in
        Compact.GetCompact bnFinal false
  end.

(** ** [CalculateNextWorkRequired] *)

Definition CalculateNextWorkRequired (last : CBlockIndex) (nFirstBlockTime : Z) (params : Params) : option Z :=
  if fPowNoRetargeting params then Some (nBits last)
  else
    let nActualTimespan := GetBlockTime last - nFirstBlockTime in
    let nActualTimespan :=
      if nActualTimespan <? Z.quot (nTargetTimespan params) 4 then Z.quot (nTargetTimespan params) 4
      else nActualTimespan in
    let nActualTimespan :=
      if nTargetTimespan params * 4 <? nActualTimespan then nTargetTimespan params * 4 else nActualTimespan in
    let bnPowLimit := UintToArith256 (powLimit params) in
    let bnNew := (Compact.SetCompact (nBits last)).1.1 in
    let bnNew := mul_u32_assign 8 bnNew (u32 nActualTimespan) in
    bnNew ← div_assign 8 bnNew (of_u64 8 (u64 (nTargetTimespan params)));
    let bnNew := if gtb 8 bnNew bnPowLimit then bnPowLimit else bnNew in
    Compact.GetCompact bnNew false.

(** ** [IsPosDGWenabled] *)

(** [while (pindex && pindex->IsProofOfStake() != true) pindex = pindex->pprev;] *)
Fixpoint next_pos (h : heap) (fuel : nat) (pindex : option ptr) : option (option ptr) :=
  match pindex with
  | None => Some None
  | Some p =>
      b ← h !! p;
      if IsProofOfStake b then Some (Some p)
      else match fuel with O => None | S fuel' => next_pos h fuel' (pprev b) end
  end.

Fixpoint count_pos (h : heap) (fuel : nat) (params : Params) (pindex : ptr) (count : Z) : option bool :=
  b ← h !! pindex;
  next ← next_pos h fuel (pprev b);
  match next with
  | None => Some false
  | Some q =>
      let count := count + 1 in
      if nPowDGWHeight params + 1 <? count then Some true
      else match fuel with O => None | S fuel' => count_pos h fuel' params q count end
  end.

(** The answer, and the new value of the function's static flag. *)
Definition IsPosDGWenabled (h : heap) (DGWenabled : bool) (pindexLast : option ptr) (params : Params)
    : option (bool * bool) :=
  if DGWenabled then Some (true, true)
  else match pindexLast with
  | None => Some (false, false)
  | Some p =>
      b ← h !! p;
      r ← count_pos h (Z.to_nat (nHeight b)) params p 0;
      Some (r, r)
  end.

(** ** [GetNextTargetRequired] *)
Section retarget.
Context `{!BN}.

(** The spacing the retarget reacts to ([rfc20] for proof of work). *)
Definition actual_spacing (fProofOfStake : bool) (tLast tPrev tPrevPrev : Z) : Z :=
  let nActualSpacing := tPrev - tPrevPrev in
  let nHypotheticalSpacing := tLast - tPrev in
  if negb fProofOfStake && (nActualSpacing <? nHypotheticalSpacing) then nHypotheticalSpacing else nActualSpacing.

(** The exponential moving step toward the target spacing. *)
Definition retarget_step (bnNew : BIGNUM) (nInterval nTargetSpacing nActualSpacing : Z) : option BIGNUM :=
  bnNew ← CBigNum.mul bnNew
    (CBigNum.of_int64 (i64 ((nInterval - 1) * nTargetSpacing + nActualSpacing + nActualSpacing)));
  CBigNum.div bnNew (CBigNum.of_int64 (i64 ((nInterval + 1) * nTargetSpacing))).

Definition clamp_and_encode (params : Params) (bnNew : BIGNUM) : Z :=
  let limit := CBigNum.of_uint256 (powLimit params) in
  CBigNum.GetCompact (if CBigNum.gtb bnNew limit then limit else bnNew).

(** The compact target and the new static flag. *)
Definition GetNextTargetRequired (h : heap) (regtest DGWenabled : bool) (pindexLast : option ptr)
    (fProofOfStake : bool) (params : Params) : option (Z * bool) :=
  match pindexLast with
  | None => t ← Compact.GetCompact (UintToArith256 (powLimit params)) false; Some (t, DGWenabled)
  | Some last =>
      bl ← h !! last;
      prev ← GetLastBlockIndex h (Some last) fProofOfStake;
      pindexPrev ← prev;
      bp ← h !! pindexPrev;
      match pprev bp with
      | None => t ← Compact.GetCompact (UintToArith256 (bnInitialHashTarget params)) false; Some (t, DGWenabled)
      | Some pp =>
          prevprev ← GetLastBlockIndex h (Some pp) fProofOfStake;
          pindexPrevPrev ← prevprev;
          bpp ← h !! pindexPrevPrev;
          match pprev bpp with
          | None => t ← Compact.GetCompact (UintToArith256 (bnInitialHashTarget params)) false; Some (t, DGWenabled)
          | Some _ =>
              let nActualSpacing := actual_spacing fProofOfStake (GetBlockTime bl) (GetBlockTime bp) (GetBlockTime bpp) in
              let bnNew := CBigNum.SetCompact (nBits bp) in
              if regtest then Some (clamp_and_encode params bnNew, DGWenabled)
              else
                let nTargetSpacing :=
                  if fProofOfStake then nStakeTargetSpacing params * 2 else nPowTargetSpacing params in
                let nInterval := Z.quot (nTargetTimespan params) nTargetSpacing in
                '(early, DGWenabled) ←
                  (if fProofOfStake
                   then '(r, s) ← IsPosDGWenabled h DGWenabled (Some pindexPrev) params; Some (negb r, s)
                   else Some (false, DGWenabled));
                if early || (nHeight bl + 1 <? nPowDGWHeight params) then
                  bnNew ← retarget_step bnNew nInterval nTargetSpacing nActualSpacing;
                  Some (clamp_and_encode params bnNew, DGWenabled)
                else
                  t ← DarkGravityWave h (Some pindexPrev) params fProofOfStake;
                  Some (t, DGWenabled)
          end
      end
  end.

End retarget.

(** ** [CheckProofOfWork] *)

Definition CheckProofOfWork (hash : list Z) (nBits : Z) (params : Params) : bool :=
  let '(bnTarget, fNegative, fOverflow) := Compact.SetCompact nBits in
  if fNegative || EqualTo 8 bnTarget 0 || fOverflow || gtb 8 bnTarget (UintToArith256 (powLimit params)) then false
  else if gtb 8 (UintToArith256 hash) bnTarget then false
  else true.

(** ** The proof-of-work check *)

(** The number a valid compact target stands for. *)
Definition valid_target (nBits : Z) (limit : Z) : bool :=
  let v := Compact.compact_value nBits in negb (Z.testbit nBits 23) && (0 <? v) && (v <=? limit).

Lemma CheckProofOfWork_spec hash bits params :
  Blob.wf 32 hash -> in_u 32 bits -> Blob.wf 32 (powLimit params) ->
  CheckProofOfWork hash bits params =
    valid_target bits (le_val 8 (powLimit params)) && (le_val 8 hash <=? Compact.compact_value bits).
Proof.
  intros Hh Hb Hl. unfold CheckProofOfWork, valid_target. pose proof (Compact.SetCompact_spec bits Hb) as Hs.
  destruct (Compact.SetCompact bits) as [[a neg] ovf]. destruct Hs as (Ha & Hv & -> & ->).
  pose proof (Compact.compact_value_nonneg bits Hb) as Hpos. set (v := Compact.compact_value bits) in *.
  destruct (UintToArith256_spec _ Hh) as [Hwh Hvh]. destruct (UintToArith256_spec _ Hl) as [Hwl Hvl].
  rewrite (EqualTo_spec 8 a 0) by (done || lia || (unfold in_u; lia)).
  rewrite !(gtb_spec 8) by done. rewrite Hvh, Hvl, Hv.
  pose proof (wf_bound 8 _ Hwl) as Hlim. change (2 ^ (32 * 8%nat)) with (2 ^ 256) in Hlim. rewrite Hvl in Hlim.
  destruct (2 ^ 256 <=? v) eqn:Eo; cases_bool.
  { rewrite !orb_true_r. simpl. rewrite (proj2 (Z.leb_gt v _)) by lia. by rewrite !andb_false_r. }
  rewrite Z.mod_small by lia. rewrite !orb_false_r.
  destruct (v =? 0) eqn:E0; cases_bool.
  { rewrite E0. simpl. by rewrite !andb_false_r. }
  rewrite (proj2 (Z.ltb_lt 0 v)) by lia.
  destruct (Z.testbit bits 23); simpl; [done|].
  rewrite !Z.ltb_antisym. by destruct (v <=? _), (_ <=? v).
Qed.

(** ** DarkGravityWave on integers *)

(** [q] is the first block of the wanted kind at or below [r]. *)
Inductive first_of_kind (h : heap) (fPoS : bool) : ptr -> ptr -> Prop :=
  | fok_here r b : h !! r = Some b -> IsProofOfStake b = fPoS -> first_of_kind h fPoS r r
  | fok_below r b r' q : h !! r = Some b -> IsProofOfStake b <> fPoS -> pprev b = Some r' ->
      first_of_kind h fPoS r' q -> first_of_kind h fPoS r q.

(** The blocks the average runs over: [p], then the blocks of the kind below. *)
Inductive kind_blocks (h : heap) (fPoS : bool) : ptr -> list CBlockIndex -> Prop :=
  | kb_last p b : h !! p = Some b -> kind_blocks h fPoS p [b]
  | kb_next p b r q bs : h !! p = Some b -> pprev b = Some r -> first_of_kind h fPoS r q ->
      kind_blocks h fPoS q bs -> kind_blocks h fPoS p (b :: bs).

Definition target_of (b : CBlockIndex) : Z := Compact.compact_value (nBits b) mod 2 ^ 256.

(** The running average, from the [k]-th block on. *)
Fixpoint avg_from (k acc : Z) (ts : list Z) : Z :=
  match ts with
  | [] => acc
  | t :: r => avg_from (k + 1) ((acc * k + t) / (k + 1)) r
  end.
Definition dgw_average (bs : list CBlockIndex) : Z :=
  match map target_of bs with [] => 0 | t :: r => avg_from 2 t r end.

(** The new target. *)
Definition dgw_target (params : Params) (fPoS : bool) (bs : list CBlockIndex) (bl : CBlockIndex) : Z :=
  let limit := le_val 8 (powLimit params) in
  let T := dgw_target_timespan params fPoS (nHeight bl) in
  let A := dgw_clamp T (nTime bl - nTime (List.last bs bl)) in
  let f := (dgw_average bs * A / T) mod 2 ^ 256 in
  if (f <=? 0) || (limit <? f) then limit else f.

Section dgw.
Context (h : heap) (Hwf : wf_index h).

Lemma skip_other_kind_spec fuel r b q fPoS :
  h !! r = Some b -> (Z.to_nat (nHeight b) <= fuel)%nat -> first_of_kind h fPoS r q ->
  skip_other_kind h fuel r fPoS = Some q.
Proof using Hwf.
  revert r b. induction fuel as [|fuel IH]; intros r b Hr Hf Hk; destruct Hk as [r b' Hb Hkind|r b' r' q Hb Hkind Hp Hk];
    cbn [skip_other_kind]; rewrite Hb; cbn [mbind option_bind].
  1,3: by rewrite Hkind, eqb_reflx.
  all: simplify_eq; rewrite (proj2 (eqb_false_iff _ _)) by done; rewrite Hp;
    pose proof (wi_prev h Hwf r b Hr) as Hprev; rewrite Hp in Hprev; destruct Hprev as (b2 & Hb2 & Hh);
    pose proof (wi_height h Hwf r' b2 Hb2).
  - lia.
  - apply (IH r' b2); [done|lia|done].
Qed.

Lemma first_of_kind_block fPoS r q : first_of_kind h fPoS r q -> exists b, h !! q = Some b /\ is_anc h q r.
Proof using Type.
  induction 1 as [r b Hb _|r b r' q Hb _ Hp _ (bq & Hq & Hanc)].
  - exists b. split; [done|]. apply is_anc_refl.
  - exists bq. split; [done|]. eapply is_anc_trans; [exact Hanc|].
    exists 1%nat. simpl. rewrite Hb. simpl. by rewrite Hp.
Qed.

Lemma target_of_spec b :
  in_u 32 (nBits b) ->
  let t := arith_uint512_of_256 (Compact.SetCompact (nBits b)).1.1 in
  wf 16 t /\ le_val 32 t = target_of b /\ 0 <= target_of b < 2 ^ 256.
Proof using Type.
  intros Hb. pose proof (Compact.SetCompact_spec _ Hb) as Hs.
  destruct (Compact.SetCompact (nBits b)) as [[a neg] ovf]. destruct Hs as (Ha & Hv & _). cbn [fst].
  destruct (arith_uint512_of_256_spec a Ha) as [Hw Hv']. cbv zeta.
  split; [done|]. split; [by rewrite Hv', Hv|]. apply Z.mod_pos_bound. lia.
Qed.

Lemma avg_step_spec avg t k :
  wf 16 avg -> wf 16 t -> 1 < k < 2 ^ 31 -> le_val 32 avg < 2 ^ 256 -> le_val 32 t < 2 ^ 256 ->
  exists r, div_assign 16 (add_assign 16 (mul_u32_assign 16 avg k) t) (of_u64 16 (u32 (k + 1))) = Some r /\
    wf 16 r /\ le_val 32 r = (le_val 32 avg * k + le_val 32 t) / (k + 1) /\ le_val 32 r < 2 ^ 256.
Proof using Type.
  intros Ha Ht Hk Hav Htv. rewrite u32_small by (unfold in_u; lia).
  pose proof (wf_bound 16 _ Ha) as Hab. pose proof (wf_bound 16 _ Ht) as Htb.
  destruct (mul_u32_assign_spec 16 avg k Ha) as [Hm Hmv]; [unfold in_u; lia|].
  destruct (add_assign_spec 16 _ t Hm Ht) as [Hs Hsv].
  destruct (add_sub_u64_spec 16 avg (k + 1)) as [Hd Hdv]; [lia|done|unfold in_u; lia|].
  change (2 ^ (32 * 16%nat)) with (2 ^ 512) in *.
  assert (0 <= le_val 32 avg * k < 2 ^ 256 * 2 ^ 31) by (split; [nia|apply Z.mul_lt_mono_nonneg; lia]).
  rewrite Z.mod_small in Hmv by lia. rewrite Hmv, Z.mod_small in Hsv by lia.
  pose proof (div_assign_spec 16 _ _ ltac:(lia) Hs Hd) as Hq. rewrite Hdv, Hsv in Hq.
  destruct (div_assign 16 _ _) as [r|]; [|lia]. destruct Hq as (_ & Hr & Hrv).
  exists r. split_and!; [done|done|done|]. rewrite Hrv. apply Z.div_lt_upper_bound; nia.
Qed.

Context (Hbits : forall p b, h !! p = Some b -> in_u 32 (nBits b)).

Lemma kind_blocks_cons fPoS p bs : kind_blocks h fPoS p bs -> exists b r, bs = b :: r /\ h !! p = Some b.
Proof using Type. destruct 1; eauto. Qed.

(** The loop moves to the next block of the kind unless it is the last round. *)
Lemma dgw_next fuel fPoS k nPast p b bs :
  kind_blocks h fPoS p (b :: bs) -> (Z.to_nat (nHeight b) <= fuel)%nat -> nPast = k + length bs ->
  match bs with
  | [] => (if negb (k =? nPast) then q ← pprev b; skip_other_kind h fuel q fPoS else Some p) = Some p
  | b' :: _ => exists q,
      (if negb (k =? nPast) then q ← pprev b; skip_other_kind h fuel q fPoS else Some p) = Some q /\
      kind_blocks h fPoS q bs /\ h !! q = Some b' /\ nHeight b' <= nHeight b
  end.
Proof using Hwf.
  intros Hk Hf Hn. inversion Hk as [|p' b' r q bs' Hp Hr Hq Hbs]; subst.
  - simpl. by rewrite Z.add_0_r, Z.eqb_refl.
  - destruct (kind_blocks_cons _ _ _ Hbs) as (b' & r' & -> & Hqb). exists q.
    rewrite (proj2 (Z.eqb_neq k _)) by (simpl; lia). cbn [negb]. rewrite Hr. cbn [mbind option_bind].
    pose proof (wi_prev h Hwf p b Hp) as Hprev. rewrite Hr in Hprev. destruct Hprev as (br & Hbr & Hh).
    pose proof (wi_height h Hwf r br Hbr).
    rewrite (skip_other_kind_spec fuel r br q) by (done || lia). split_and!; [done..|].
    destruct (first_of_kind_block _ _ _ Hq) as (bq & Hqb' & Hanc). rewrite Hqb in Hqb'. injection Hqb' as <-.
    destruct (is_anc_height h Hwf q r br Hbr Hanc) as (bd & Hd & Hle & _).
    rewrite Hqb in Hd. injection Hd as <-. lia.
Qed.

(** One round of the loop. *)
Lemma dgw_loop_round fuel fPoS nPast n k p b avg a2 q :
  h !! p = Some b ->
  (if k =? 1 then Some (arith_uint512_of_256 (Compact.SetCompact (nBits b)).1.1)
   else div_assign 16 (add_assign 16 (mul_u32_assign 16 avg k)
          (arith_uint512_of_256 (Compact.SetCompact (nBits b)).1.1)) (of_u64 16 (u32 (k + 1)))) = Some a2 ->
  (if negb (k =? nPast) then q ← pprev b; skip_other_kind h fuel q fPoS else Some p) = Some q ->
  dgw_loop h fuel fPoS nPast (S n) k p avg = dgw_loop h fuel fPoS nPast n (u32 (k + 1)) q a2.
Proof using Type.
  intros Hp Ha Hq. cbn [dgw_loop]. rewrite Hp. cbn [mbind option_bind]. rewrite Ha. cbn [mbind option_bind].
  by rewrite Hq.
Qed.

Lemma last_default {A} (l : list A) x d d' : List.last (x :: l) d = List.last (x :: l) d'.
Proof using Type. revert x. induction l as [|y l IH]; intros x; [done|]. apply (IH y). Qed.

Lemma dgw_loop_spec fuel fPoS nPast k p b bs avg :
  kind_blocks h fPoS p (b :: bs) -> (Z.to_nat (nHeight b) <= fuel)%nat ->
  1 < k -> nPast = k + length bs -> nPast < 2 ^ 30 ->
  wf 16 avg -> le_val 32 avg < 2 ^ 256 ->
  exists q bq r, dgw_loop h fuel fPoS nPast (length (b :: bs)) k p avg = Some (q, r) /\
    h !! q = Some bq /\ bq = List.last bs b /\
    wf 16 r /\ le_val 32 r = avg_from k (le_val 32 avg) (map target_of (b :: bs)) /\ le_val 32 r < 2 ^ 256.
Proof using Hwf Hbits.
  revert k p b avg. induction bs as [|b' bs IH]; intros k p b avg Hk Hf Hk1 Hn HnB Ha Hav;
    destruct (kind_blocks_cons _ _ _ Hk) as (? & ? & [= <- <-] & Hp);
    pose proof (dgw_next fuel fPoS k nPast p b _ Hk Hf Hn) as Hnext;
    destruct (target_of_spec b (Hbits p b Hp)) as (Ht & Htv & Htb);
    simpl length in *;
    destruct (avg_step_spec avg _ k Ha Ht ltac:(lia) Hav ltac:(lia)) as (a2 & Hstep & Ha2 & Hav2 & Hb2);
    assert ((k =? 1) = false) as Hk2 by lia.
  - exists p, b, a2. rewrite (dgw_loop_round _ _ _ _ _ _ b _ a2 p) by (rewrite ?Hk2; done).
    split_and!; [done..| |done]. simpl. by rewrite Hav2, Htv.
  - destruct Hnext as (q & Hnext & Hkq & Hq & Hle).
    rewrite (dgw_loop_round _ _ _ _ _ _ b _ a2 q) by (rewrite ?Hk2; done).
    rewrite u32_small by (unfold in_u; lia).
    destruct (IH (k + 1) q b' a2) as (q' & bq & r & Hl & Hq' & Hlast & Hr & Hrv & Hrb); try done || lia.
    rewrite Hl. exists q', bq, r. split_and!; [done|done| |done| |done].
    + rewrite Hlast. destruct bs as [|c bs]; [done|]. exact (last_default bs c b' b).
    + rewrite Hrv, Hav2, Htv. done.
Qed.

(** From the first round, where the average is the target itself. *)
Lemma dgw_loop_start fPoS (nPast : Z) p b bs :
  kind_blocks h fPoS p (b :: bs) -> nPast = length (b :: bs) -> 1 < nPast < 2 ^ 30 ->
  exists q bq r, dgw_loop h (Z.to_nat (nHeight b)) fPoS nPast (Z.to_nat nPast) 1 p (zero 16) = Some (q, r) /\
    h !! q = Some bq /\ bq = List.last (b :: bs) b /\
    wf 16 r /\ le_val 32 r = dgw_average (b :: bs) /\ le_val 32 r < 2 ^ 256.
Proof using Hwf Hbits.
  intros Hk Hn HnB. destruct (kind_blocks_cons _ _ _ Hk) as (? & ? & [= <- <-] & Hp).
  simpl in Hn. pose proof (dgw_next (Z.to_nat (nHeight b)) fPoS 1 nPast p b bs Hk ltac:(lia) ltac:(lia)) as Hnext.
  destruct bs as [|b' bs]; [simpl in Hn; lia|]. destruct Hnext as (q & Hnext & Hkq & Hq & Hle).
  destruct (target_of_spec b (Hbits p b Hp)) as (Ht & Htv & Htb).
  replace (Z.to_nat nPast) with (S (length (b' :: bs))) by (cbn [length] in Hn |- *; lia).
  rewrite (dgw_loop_round _ _ _ _ _ _ b _ _ q) by done. change (u32 (1 + 1)) with 2.
  destruct (dgw_loop_spec (Z.to_nat (nHeight b)) fPoS nPast 2 q b' bs
    (arith_uint512_of_256 (Compact.SetCompact (nBits b)).1.1)) as (q' & bq & r & Hl & Hq' & Hlast & Hr & Hrv & Hrb);
    try done; try (cbn [length] in Hn; lia).
  exists q', bq, r. split_and!; [done|done| |done| |done].
  - rewrite Hlast. destruct bs as [|c bs]; [done|]. exact (last_default bs c b' b).
  - rewrite Hrv, Htv. done.
Qed.

Lemma dgw_clamp_range T A : 0 < T -> Z.quot T 3 <= dgw_clamp T A <= 3 * T.
Proof using Type.
  intros HT. unfold dgw_clamp. pose proof (Z.quot_le_upper_bound T 3 T ltac:(lia) ltac:(lia)).
  pose proof (Z.quot_pos T 3 ltac:(lia) ltac:(lia)). repeat case_if; lia.
Qed.

Lemma dgw_timespan_range params fPoS k : sane params -> 1 < dgw_target_timespan params fPoS k < 2 ^ 28.
Proof using Type.
  intros Hs. pose proof (sane_spacing _ Hs) as [? ?]. pose proof (sane_dgw _ Hs) as [? _].
  unfold dgw_target_timespan.
  assert (1 < (if fPoS then DGWBlocksAvg params * nStakeTargetSpacing params
               else DGWBlocksAvg params * nPowTargetSpacing params) <= 2 ^ 26) by (destruct fPoS; nia).
  case_if; lia.
Qed.

Lemma dgw_target_range params fPoS bs bl :
  sane params -> 0 < dgw_target params fPoS bs bl <= le_val 8 (powLimit params).
Proof using Type.
  intros Hs. pose proof (sane_powLimit _ Hs) as [_ ?]. unfold dgw_target.
  match goal with |- context [?x mod 2 ^ 256] => set (f := x mod 2 ^ 256) end.
  destruct (_ || _) eqn:E; [lia|]. apply orb_false_iff in E as [E1 E2]. cases_bool. lia.
Qed.

(** The last two lines of the function: trim, clamp to the limit, encode. *)
Lemma dgw_finish params new v :
  sane params -> wf 16 new -> le_val 32 new = v ->
  let limit := le_val 8 (powLimit params) in
  let F := let f := v mod 2 ^ 256 in if (f <=? 0) || (limit <? f) then limit else f in
  exists x, wf 8 x /\ le_val 32 x = F /\
    (let bnFinal := trim256 new in
     if leb 8 bnFinal (of_u64 8 0) || gtb 8 bnFinal (UintToArith256 (powLimit params))
     then UintToArith256 (powLimit params) else bnFinal) = x.
Proof using Type.
  intros Hs Hn Hv limit F. pose proof (sane_powLimit _ Hs) as [Hl _].
  destruct (UintToArith256_spec _ Hl) as [Hlw Hlv]. destruct (trim256_spec new Hn) as [Htw Htv].
  destruct (add_sub_u64_spec 8 (trim256 new) 0) as [Hzw Hzv]; [lia|done|unfold in_u; lia|].
  cbv zeta. rewrite (leb_spec 8), (gtb_spec 8), Hzv, Hlv, Htv, Hv by done. subst F. cbv zeta. fold limit.
  destruct (_ || _); eauto.
  exists (trim256 new). split_and!; [done|by rewrite Htv, Hv|done].
Qed.

Lemma DarkGravityWave_spec params fPoS p b bs :
  sane params -> kind_blocks h fPoS p (b :: bs) -> DGWBlocksAvg params = length (b :: bs) ->
  DGWBlocksAvg params <= nHeight b ->
  exists c t, DarkGravityWave h (Some p) params fPoS = Some c /\
    in_u 32 c /\ Compact.SetCompact c = (t, false, false) /\
    let F := dgw_target params fPoS (b :: bs) b in
    0 < le_val 32 t <= F /\ (F - le_val 32 t) * 2 ^ 15 <= F.
Proof using Hwf Hbits.
  intros Hs Hk Hn Hh. destruct (kind_blocks_cons _ _ _ Hk) as (? & ? & [= <- <-] & Hp).
  pose proof (sane_dgw _ Hs) as [Hdgw _]. pose proof (dgw_timespan_range params fPoS (nHeight b) Hs) as HT.
  destruct (dgw_loop_start fPoS (DGWBlocksAvg params) p b bs Hk Hn ltac:(lia))
    as (q & bq & r & Hl & Hq & Hlast & Hr & Hrv & Hrb).
  unfold DarkGravityWave. rewrite Hp. cbn [mbind option_bind]. rewrite (proj2 (Z.ltb_ge _ _)) by lia.
  rewrite Hl. cbn [mbind option_bind]. rewrite Hq. cbn [mbind option_bind].
  pose proof (dgw_target_range params fPoS (b :: bs) b Hs) as HF. unfold dgw_target in HF |- *.
  unfold GetBlockTime. rewrite <- Hlast in HF |- *.
  set (T := dgw_target_timespan params fPoS (nHeight b)) in *. set (A := dgw_clamp T (nTime b - nTime bq)) in *.
  pose proof (dgw_clamp_range T (nTime b - nTime bq) ltac:(lia)) as HA. fold A in HA.
  pose proof (Z.quot_pos T 3 ltac:(lia) ltac:(lia)).
  destruct (mul_u32_assign_spec 16 r A Hr) as [Hm Hmv]; [unfold in_u; lia|].
  destruct (add_sub_u64_spec 16 r T) as [Hd Hdv]; [lia|done|unfold in_u; lia|].
  pose proof (wf_bound 16 _ Hr) as Hrb'. change (2 ^ (32 * 16%nat)) with (2 ^ 512) in *.
  assert (0 <= le_val 32 r * A < 2 ^ 256 * 2 ^ 32) by (split; [nia|apply Z.mul_lt_mono_nonneg; lia]).
  rewrite Z.mod_small in Hmv by lia.
  rewrite u32_small, u64_small by (unfold in_u; lia).
  pose proof (div_assign_spec 16 _ _ ltac:(lia) Hm Hd) as Hq'. rewrite Hdv, Hmv in Hq'.
  destruct (div_assign 16 _ _) as [new|]; [|lia]. destruct Hq' as (_ & Hnew & Hnewv). cbn [mbind option_bind].
  rewrite Hrv in Hnewv. destruct (dgw_finish params new _ Hs Hnew Hnewv) as (x & Hx & Hxv & Hxe).
  cbv zeta in Hxe, Hxv, HF |- *. rewrite Hxe. destruct (Compact.GetCompact_truncates x Hx) as (c & t & Hc & Hcu & Hst & Hle & Herr).
  exists c, t. rewrite Hxv in Hle, Herr. split_and!; [done..| |done|done].
  pose proof (Compact.SetCompact_spec _ Hcu) as Hsp. rewrite Hst in Hsp. destruct Hsp as (Htw & _).
  pose proof (wf_bound 8 _ Htw). lia.
Qed.

(** ** Counting proof-of-stake blocks *)

(** The proof-of-stake blocks among [p] and its ancestors. *)
Fixpoint pos_count (n : nat) (p : option ptr) : Z :=
  match n, p with
  | S n', Some q => match h !! q with
      | Some b => (if IsProofOfStake b then 1 else 0) + pos_count n' (pprev b)
      | None => 0 end
  | _, _ => 0
  end.

Lemma pos_count_S n q b : h !! q = Some b ->
  pos_count (S n) (Some q) = (if IsProofOfStake b then 1 else 0) + pos_count n (pprev b).
Proof using Type. intros Hq. cbn [pos_count]. by rewrite Hq. Qed.

Lemma pos_count_nonneg n p : 0 <= pos_count n p.
Proof using Type.
  revert p. induction n as [|n IH]; intros [q|]; simpl; try lia.
  destruct (h !! q) as [b|]; [|lia]. specialize (IH (pprev b)). case_if; lia.
Qed.

(** More fuel than blocks does not change the count. *)
Lemma pos_count_fuel n m q b :
  h !! q = Some b -> (Z.to_nat (nHeight b) < n)%nat -> (Z.to_nat (nHeight b) < m)%nat ->
  pos_count n (Some q) = pos_count m (Some q).
Proof using Hwf.
  revert m q b. induction n as [|n IH]; intros [|m] q b Hq Hn Hm; try lia. simpl. rewrite Hq. f_equal.
  pose proof (wi_prev h Hwf q b Hq) as Hp. destruct (pprev b) as [r|]; [|by destruct n, m].
  destruct Hp as (br & Hr & Hh). pose proof (wi_height h Hwf r br Hr). apply (IH m r br); [done|lia|lia].
Qed.

(** The count of a non-null pointer does not depend on fuel above its height. *)
Definition fuel_ok (n : nat) (p : option ptr) : Prop :=
  match p with Some q => exists b, h !! q = Some b /\ (Z.to_nat (nHeight b) < n)%nat | None => True end.

Lemma pos_count_ok n m p : fuel_ok n p -> fuel_ok m p -> pos_count n p = pos_count m p.
Proof using Hwf.
  destruct p as [q|]; [|by destruct n, m]. intros (b & Hb & Hn) (b' & Hb' & Hm). simplify_eq.
  by apply (pos_count_fuel n m q b).
Qed.

Lemma fuel_ok_prev n q b : h !! q = Some b -> (Z.to_nat (nHeight b) <= n)%nat -> fuel_ok n (pprev b).
Proof using Hwf.
  intros Hq Hn. pose proof (wi_prev h Hwf q b Hq) as Hp. destruct (pprev b) as [r|]; [|done].
  destruct Hp as (br & Hr & Hh). pose proof (wi_height h Hwf r br Hr). exists br. split; [done|lia].
Qed.

Lemma next_pos_spec fuel p :
  fuel_ok fuel p -> exists r, next_pos h fuel p = Some r /\
  match r with
  | None => pos_count fuel p = 0
  | Some q => exists b, h !! q = Some b /\ (Z.to_nat (nHeight b) < fuel)%nat /\
                pos_count fuel p = 1 + pos_count fuel (pprev b)
  end.
Proof using Hwf.
  revert p. induction fuel as [|fuel IH]; intros [q|] Hok; try (by exists None; split).
  { destruct Hok as (b & _ & ?). lia. }
  destruct Hok as (b & Hq & Hf). cbn [next_pos]. rewrite Hq. cbn [mbind option_bind].
  pose proof (fuel_ok_prev fuel q b Hq ltac:(lia)) as Hok'.
  pose proof (fuel_ok_prev (S fuel) q b Hq ltac:(lia)) as Hok''.
  destruct (IsProofOfStake b) eqn:E.
  - exists (Some q). split; [done|]. exists b. split_and!; [done|lia|].
    rewrite (pos_count_S fuel q b), E by done. f_equal. by apply pos_count_ok.
  - destruct (IH (pprev b) Hok') as (r & -> & Hr). exists r. split; [done|].
    rewrite (pos_count_S fuel q b), E by done. destruct r as [q'|]; [|lia].
    destruct Hr as (b' & Hq' & Hf' & Hc). exists b'. split_and!; [done|lia|].
    rewrite Hc, Z.add_0_l. f_equal. apply pos_count_ok; apply (fuel_ok_prev _ q' b' Hq'); lia.
Qed.

Lemma count_pos_spec fuel params p b count :
  h !! p = Some b -> (Z.to_nat (nHeight b) <= fuel)%nat -> count <= nPowDGWHeight params + 1 ->
  count_pos h fuel params p count = Some (nPowDGWHeight params + 1 <? count + pos_count fuel (pprev b)).
Proof using Hwf.
  revert p b count. induction fuel as [|fuel IH]; intros p b count Hp Hf Hc;
    destruct (next_pos_spec _ (pprev b) (fuel_ok_prev _ p b Hp Hf)) as (r & Hr & Hspec);
    cbn [count_pos]; rewrite Hp; cbn [mbind option_bind]; rewrite Hr; cbn [mbind option_bind];
    (destruct r as [q|]; [|rewrite Hspec; f_equal; symmetry; apply Z.ltb_ge; lia]);
    destruct Hspec as (bq & Hq & Hfq & ->); [lia|].
  pose proof (pos_count_nonneg (S fuel) (pprev bq)).
  destruct (nPowDGWHeight params + 1 <? count + 1) eqn:E; cases_bool.
  - f_equal. symmetry. apply Z.ltb_lt. lia.
  - rewrite (IH q bq (count + 1)) by (done || lia).
    rewrite (pos_count_ok fuel (S fuel) (pprev bq)) by (apply (fuel_ok_prev _ q bq Hq); lia).
    do 2 f_equal. lia.
Qed.

(** The switch is on when the flag has been set before, or when more than
    [nPowDGWHeight + 1] proof-of-stake blocks precede the block. *)
Lemma IsPosDGWenabled_spec flag params p b :
  sane params -> h !! p = Some b ->
  IsPosDGWenabled h flag (Some p) params =
    let on := flag || (nPowDGWHeight params + 1 <? pos_count (Z.to_nat (nHeight b)) (pprev b)) in Some (on, on).
Proof using Hwf.
  intros Hs Hp. unfold IsPosDGWenabled. destruct flag; [done|]. rewrite Hp. cbn [mbind option_bind].
  pose proof (sane_dgw _ Hs). rewrite (count_pos_spec _ params p b 0) by (done || lia). done.
Qed.

(** ** The moving retarget *)
Section moving.
Context `{!BN} `{HBN : !BNLaws _}.

Definition spacing_of (params : Params) (fPoS : bool) : Z :=
  if fPoS then nStakeTargetSpacing params * 2 else nPowTargetSpacing params.
(** Numerator and denominator of the step. *)
Definition step_num (params : Params) (fPoS : bool) (A : Z) : Z :=
  (Z.quot (nTargetTimespan params) (spacing_of params fPoS) - 1) * spacing_of params fPoS + 2 * A.
Definition step_den (params : Params) (fPoS : bool) : Z :=
  (Z.quot (nTargetTimespan params) (spacing_of params fPoS) + 1) * spacing_of params fPoS.

Lemma step_range params fPoS A :
  sane params -> - 2 ^ 32 < A < 2 ^ 32 ->
  in_s 64 (step_num params fPoS A) /\ 0 < step_den params fPoS < 2 ^ 62.
Proof using Type.
  intros Hs HA. pose proof (sane_spacing _ Hs) as [? ?]. pose proof (sane_timespan _ Hs).
  unfold step_num, step_den, spacing_of, in_s. change (2 ^ (64 - 1)) with (2 ^ 63).
  set (S := if fPoS then _ else _). assert (0 < S <= 2 ^ 17) by (subst S; case_if; lia).
  pose proof (Z.quot_pos (nTargetTimespan params) S ltac:(lia) ltac:(lia)).
  pose proof (Z.mul_quot_le (nTargetTimespan params) S ltac:(lia) ltac:(lia)).
  split; nia.
Qed.

Lemma retarget_step_spec params fPoS A bn :
  sane params -> - 2 ^ 32 < A < 2 ^ 32 ->
  exists r, retarget_step bn (Z.quot (nTargetTimespan params) (spacing_of params fPoS)) (spacing_of params fPoS) A = Some r /\
    bn_val r = Z.quot (bn_val bn * step_num params fPoS A) (step_den params fPoS).
Proof using Type.
  intros Hs HA. destruct (step_range params fPoS A Hs HA) as [Hnum Hden]. unfold retarget_step.
  set (S := spacing_of params fPoS) in *. set (I := Z.quot (nTargetTimespan params) S).
  assert ((I - 1) * S + A + A = step_num params fPoS A) as -> by (unfold step_num, I, S; ring).
  assert (i64 (step_num params fPoS A) = step_num params fPoS A) as -> by (apply swrap_small; [lia|exact Hnum]).
  assert (in_s 64 (step_den params fPoS)) as Hds by (unfold in_s; change (2 ^ (64 - 1)) with (2 ^ 63); lia).
  assert (i64 ((I + 1) * S) = step_den params fPoS) as -> by (apply swrap_small; [lia|exact Hds]).
  destruct (mul_val bn (CBigNum.of_int64 (step_num params fPoS A))) as (m & Hm & Hmv).
  unfold CBigNum.mul. rewrite Hm. cbn [mbind option_bind].
  assert (bn_val (CBigNum.of_int64 (step_den params fPoS)) = step_den params fPoS) as Hdv
    by (by apply CBigNum.setint64_spec).
  destruct (div_val m (CBigNum.of_int64 (step_den params fPoS))) as (r & Hr & Hrv); [rewrite Hdv; lia|].
  exists r. split; [exact Hr|]. rewrite Hrv, Hmv, Hdv.
  do 2 f_equal. by apply CBigNum.setint64_spec.
Qed.

(** The clamp and the encoding of a non-negative target. *)
Lemma clamp_and_encode_spec params bn :
  sane params -> 0 <= bn_val bn ->
  let F := Z.min (bn_val bn) (le_val 8 (powLimit params)) in
  exists t, in_u 32 (clamp_and_encode params bn) /\
    Compact.SetCompact (clamp_and_encode params bn) = (t, false, false) /\ wf 8 t /\
    le_val 32 t <= F /\ (F - le_val 32 t) * 2 ^ 15 <= F.
Proof using Type.
  intros Hs Hv F. pose proof (sane_powLimit _ Hs) as [Hl Hlv]. unfold clamp_and_encode.
  assert (bn_val (CBigNum.of_uint256 (powLimit params)) = le_val 8 (powLimit params)) as Hlim
    by (by apply CBigNum.setuint256_spec).
  set (limit := CBigNum.of_uint256 (powLimit params)) in *.
  assert (bn_val (if CBigNum.gtb bn limit then limit else bn) = F) as HF.
  { unfold CBigNum.gtb. rewrite cmp_val, Hlim. subst F. rewrite Z.compare_antisym.
    destruct (Z.compare_spec (le_val 8 (powLimit params)) (bn_val bn)); simpl; lia. }
  destruct (CBigNum.BN_GetCompact_spec (if CBigNum.gtb bn limit then limit else bn)) as (t & Hc & Hst & Ht & Hle & Herr);
    [rewrite HF; lia|].
  exists t. rewrite HF in *. done.
Qed.

(** The target the moving step aims at. *)
Definition moving_target (params : Params) (fPoS : bool) (bits A : Z) : Z :=
  Z.min (Compact.compact_value bits * step_num params fPoS A / step_den params fPoS) (le_val 8 (powLimit params)).

(** Before DarkGravityWave applies. *)
Lemma GetNextTargetRequired_moving_spec params flag fPoS last bl p1 b1 pp p2 b2 :
  sane params -> (forall p b, h !! p = Some b -> in_u 32 (nTime b)) ->
  h !! last = Some bl ->
  GetLastBlockIndex h (Some last) fPoS = Some (Some p1) -> h !! p1 = Some b1 -> pprev b1 = Some pp ->
  GetLastBlockIndex h (Some pp) fPoS = Some (Some p2) -> h !! p2 = Some b2 -> is_Some (pprev b2) ->
  nHeight bl + 1 < nPowDGWHeight params ->
  Z.testbit (nBits b1) 23 = false ->
  let A := actual_spacing fPoS (nTime bl) (nTime b1) (nTime b2) in
  0 <= step_num params fPoS A ->
  let F := moving_target params fPoS (nBits b1) A in
  exists c flag' t, GetNextTargetRequired h false flag (Some last) fPoS params = Some (c, flag') /\
    in_u 32 c /\ Compact.SetCompact c = (t, false, false) /\ wf 8 t /\
    le_val 32 t <= F /\ (F - le_val 32 t) * 2 ^ 15 <= F.
Proof using Hwf Hbits HBN.
  intros Hs Htimes Hlast Hg1 Hb1 Hpp Hg2 Hb2 [x Hx] Hearly Hsign A Hnum F.
  assert (- 2 ^ 32 < A < 2 ^ 32) as HA.
  { pose proof (Htimes _ _ Hlast). pose proof (Htimes _ _ Hb1). pose proof (Htimes _ _ Hb2).
    unfold in_u in *. subst A. unfold actual_spacing. case_if; lia. }
  unfold GetNextTargetRequired. rewrite Hlast. cbn [mbind option_bind]. rewrite Hg1. cbn [mbind option_bind].
  rewrite Hb1. cbn [mbind option_bind]. rewrite Hpp, Hg2. cbn [mbind option_bind].
  rewrite Hb2. cbn [mbind option_bind]. rewrite Hx. fold (spacing_of params fPoS).
  assert (exists e s, (if fPoS then '(r, s) ← IsPosDGWenabled h flag (Some p1) params; Some (negb r, s)
          else Some (false, flag)) = Some (e, s)) as (e & s & ->).
  { destruct fPoS; [|eauto]. rewrite (IsPosDGWenabled_spec flag params p1 b1) by done. simpl. eauto. }
  cbn [mbind option_bind]. rewrite (proj2 (Z.ltb_lt (nHeight bl + 1) _)), orb_true_r by lia.
  destruct (retarget_step_spec params fPoS A (CBigNum.SetCompact (nBits b1)) Hs HA) as (r & Hr & Hrv).
  unfold GetBlockTime. fold A. rewrite Hr. cbn [mbind option_bind].
  pose proof (Hbits _ _ Hb1) as Hu. pose proof (Compact.compact_value_nonneg _ Hu).
  rewrite (CBigNum.SetCompact_val _ Hu), Hsign, Z.mul_1_l in Hrv.
  destruct (step_range params fPoS A Hs HA) as [_ Hden].
  rewrite Z.quot_div_nonneg in Hrv by nia.
  destruct (clamp_and_encode_spec params r Hs) as (t & Hspec); [rewrite Hrv; apply Z.div_pos; nia|].
  rewrite Hrv in Hspec. exists (clamp_and_encode params r), s, t. split; [done|]. exact Hspec.
Qed.

End moving.

End dgw.

(** ** Contracts *)

(** [CheckProofOfWork] accepts a hash exactly when the compact target is
    positive, not negative, within the network limit, and the hash read as a
    little-endian number does not exceed it. *)
Theorem CheckProofOfWork_correct hash bits params :
  Blob.wf 32 hash -> in_u 32 bits -> Blob.wf 32 (powLimit params) ->
  CheckProofOfWork hash bits params =
    negb (Z.testbit bits 23) && (0 <? Compact.compact_value bits) &&
    (Compact.compact_value bits <=? le_val 8 (powLimit params)) &&
    (le_val 8 hash <=? Compact.compact_value bits).
Proof. intros Hh Hb Hl. by apply CheckProofOfWork_spec. Qed.

(** With enough blocks of the kind below it, [DarkGravityWave] never
    asserts, and the compact number it returns encodes (rounded down by less than
    one part in 2^15) the running average of the last targets scaled by the
    clamped timespan, limited to [powLimit]: a positive target within the limit.
    No 512-bit intermediate wraps. *)
Theorem DarkGravityWave_correct (h : heap) params fPoS p b bs :
  wf_index h -> (forall p b, h !! p = Some b -> in_u 32 (nBits b)) -> sane params ->
  kind_blocks h fPoS p (b :: bs) -> DGWBlocksAvg params = length (b :: bs) ->
  DGWBlocksAvg params <= nHeight b ->
  exists c t, DarkGravityWave h (Some p) params fPoS = Some c /\
    in_u 32 c /\ Compact.SetCompact c = (t, false, false) /\
    (let F := dgw_target params fPoS (b :: bs) b in
     F <= le_val 8 (powLimit params) /\ 0 < le_val 32 t <= F /\ (F - le_val 32 t) * 2 ^ 15 <= F).
Proof.
  intros Hwf Hbits Hs Hk Hn Hh.
  destruct (DarkGravityWave_spec h Hwf Hbits params fPoS p b bs Hs Hk Hn Hh) as (c & t & He & Hc & Hst & HF & Herr).
  exists c, t. pose proof (dgw_target_range params fPoS (b :: bs) b Hs). split_and!; try done; lia.
Qed.

(** Before DarkGravityWave applies, [GetNextTargetRequired] returns the
    compact form of the previous target of the kind times
    [((I-1)*S + 2*A) / ((I+1)*S)], limited to [powLimit], where [A] is the last
    spacing of the kind (for proof of work the time since, if longer). *)
Theorem GetNextTargetRequired_moving `{HBN : BNLaws} (h : heap) params flag fPoS last bl p1 b1 pp p2 b2 :
  wf_index h -> (forall p b, h !! p = Some b -> in_u 32 (nBits b)) ->
  (forall p b, h !! p = Some b -> in_u 32 (nTime b)) -> sane params ->
  h !! last = Some bl ->
  GetLastBlockIndex h (Some last) fPoS = Some (Some p1) -> h !! p1 = Some b1 -> pprev b1 = Some pp ->
  GetLastBlockIndex h (Some pp) fPoS = Some (Some p2) -> h !! p2 = Some b2 -> is_Some (pprev b2) ->
  nHeight bl + 1 < nPowDGWHeight params -> Z.testbit (nBits b1) 23 = false ->
  let A := actual_spacing fPoS (nTime bl) (nTime b1) (nTime b2) in
  0 <= step_num params fPoS A ->
  let F := moving_target params fPoS (nBits b1) A in
  exists c flag' t, GetNextTargetRequired h false flag (Some last) fPoS params = Some (c, flag') /\
    in_u 32 c /\ Compact.SetCompact c = (t, false, false) /\ wf 8 t /\
    le_val 32 t <= F /\ (F - le_val 32 t) * 2 ^ 15 <= F.
Proof. intros Hwf Hbits Htimes Hs. intros. eapply GetNextTargetRequired_moving_spec; eauto. Qed.

(** The switch to DarkGravityWave for proof of stake is on exactly when it
    has been on before or more than [nPowDGWHeight + 1] proof-of-stake blocks
    precede the block; the search ends at the root without a null access. *)
Theorem IsPosDGWenabled_correct (h : heap) flag params p b :
  wf_index h -> sane params -> h !! p = Some b ->
  IsPosDGWenabled h flag (Some p) params =
    let on := flag || (nPowDGWHeight params + 1 <? pos_count h (Z.to_nat (nHeight b)) (pprev b)) in Some (on, on).
Proof. intros Hwf Hs Hp. by apply IsPosDGWenabled_spec. Qed.

(** ** A straight chain for concrete instances *)

(** Blocks [0 .. n-1] at addresses [1 .. n], 120 seconds apart; block [i] is
    proof of stake when [pos i]. *)
Definition line_block (pos : Z -> bool) (i : nat) : ptr * CBlockIndex :=
  (Pos.of_succ_nat i,
   sample_entry (match i with O => None | S j => Some (Pos.of_succ_nat j) end) None i (1000 + 120 * i)
     (if pos i then 1 else 0)).
Definition line (pos : Z -> bool) (n : nat) : heap := list_to_map (map (line_block pos) (seq 0 n)).

Definition heap_fields_ok (h : heap) : bool :=
  forallb (fun '(_, b) => bool_decide (in_u 32 (nBits b)) && bool_decide (in_u 32 (nTime b))) (map_to_list h).

Lemma heap_fields_sound h : heap_fields_ok h = true ->
  (forall p b, h !! p = Some b -> in_u 32 (nBits b)) /\ (forall p b, h !! p = Some b -> in_u 32 (nTime b)).
Proof.
  unfold heap_fields_ok. rewrite forallb_forall. intros Hf.
  split; intros p b Hp; specialize (Hf (p, b) (proj1 (list_elem_of_In _ _) (proj2 (elem_of_map_to_list _ _ _) Hp)));
    simpl in Hf; apply andb_true_iff in Hf as [H1 H2]; by apply bool_decide_eq_true in H1, H2.
Qed.

(** The blocks of a kind, computed. *)
Lemma skip_other_kind_sound (h : heap) fuel r q fPoS :
  skip_other_kind h fuel r fPoS = Some q -> first_of_kind h fPoS r q.
Proof.
  revert r. induction fuel as [|fuel IH]; intros r; cbn [skip_other_kind];
    destruct (h !! r) as [b|] eqn:Hr; cbn [mbind option_bind]; try done;
    destruct (Bool.eqb (IsProofOfStake b) fPoS) eqn:E;
    try (intros [= <-]; apply eqb_prop in E; by econstructor).
  - by destruct (pprev b).
  - destruct (pprev b) as [r'|] eqn:Ep; [|done]. intros Hq. apply eqb_false_iff in E.
    eapply fok_below; eauto.
Qed.

Fixpoint kind_list (h : heap) (fPoS : bool) (n : nat) (p : ptr) : option (list CBlockIndex) :=
  b ← h !! p;
  match n with
  | O => Some [b]
  | S n' => r ← pprev b; q ← skip_other_kind h (Z.to_nat (nHeight b)) r fPoS;
            bs ← kind_list h fPoS n' q; Some (b :: bs)
  end.

Lemma kind_list_sound (h : heap) fPoS n p bs : kind_list h fPoS n p = Some bs -> kind_blocks h fPoS p bs.
Proof.
  revert p bs. induction n as [|n IH]; intros p bs; cbn [kind_list];
    destruct (h !! p) as [b|] eqn:Hp; cbn [mbind option_bind]; try done.
  - intros [= <-]. by constructor.
  - destruct (pprev b) as [r|] eqn:Er; cbn [mbind option_bind]; [|done].
    destruct (skip_other_kind h _ r fPoS) as [q|] eqn:Eq; cbn [mbind option_bind]; [|done].
    destruct (kind_list h fPoS n q) as [bs'|] eqn:Ebs; cbn [mbind option_bind]; [|done].
    intros [= <-]. eapply kb_next; eauto using skip_other_kind_sound.
Qed.

(** The main network's parameters with a window of three blocks. *)
Definition small_params : Params := {|
  BIP34Height := 1; powLimit := limit_00ff; bnInitialHashTarget := limit_00ff;
  nTargetTimespan := 24 * 60 * 60; nStakeTargetSpacing := 2 * 60; nTargetSpacingWorkMax := 12 * (2 * 60);
  nPowTargetSpacing := 2 * 60; nStakeMinAge := 60 * 60 * 24 * 14; nStakeMaxAge := 60 * 60 * 24 * 90;
  nModifierInterval := 6 * 60 * 60; nCoinbaseMaturity := 200; nSubsidyHalvingInterval := 525600;
  nPoSActivationHeight := 10000; nPowDGWHeight := 60; DGWBlocksAvg := 3;
  fPowAllowMinDifficultyBlocks := false; fPowNoRetargeting := false; SegwitHeight := 1 |}.

Lemma small_sane : sane small_params.
Proof. prove_sane. Qed.

Definition alternating : Z -> bool := Z.odd.
Definition line8 : heap := line alternating 8.
Lemma line8_wf : wf_index line8.
Proof. apply wf_index_b_sound. vm_compute. reflexivity. Qed.
Lemma line8_fields :
  (forall p b, line8 !! p = Some b -> in_u 32 (nBits b)) /\ (forall p b, line8 !! p = Some b -> in_u 32 (nTime b)).
Proof. apply heap_fields_sound. vm_compute. reflexivity. Qed.

Lemma CheckProofOfWork_correct_witness :
  CheckProofOfWork (replicate 28 255 ++ replicate 4 0) 0x1d00ffff CMainParams = false /\
  CheckProofOfWork (replicate 26 255 ++ replicate 6 0) 0x1d00ffff CMainParams = true.
Proof.
  split.
  - rewrite (CheckProofOfWork_correct (replicate 28 255 ++ replicate 4 0) 0x1d00ffff CMainParams);
      [vm_compute; reflexivity|split; [reflexivity|repeat constructor; cbv; done]|unfold in_u; lia|apply limit_00ff_wf].
  - rewrite (CheckProofOfWork_correct (replicate 26 255 ++ replicate 6 0) 0x1d00ffff CMainParams);
      [vm_compute; reflexivity|split; [reflexivity|repeat constructor; cbv; done]|unfold in_u; lia|apply limit_00ff_wf].
Defined.

Lemma DarkGravityWave_correct_witness :
  exists c t, DarkGravityWave line8 (Some 7%positive) small_params false = Some c /\
    Compact.SetCompact c = (t, false, false) /\ 0 < le_val 32 t.
Proof.
  destruct line8_fields as [Hbits _].
  destruct (kind_list line8 false 2 7%positive) as [[|b bs]|] eqn:E; [vm_compute in E; discriminate E| |vm_compute in E; discriminate E].
  destruct (DarkGravityWave_correct line8 small_params false 7 b bs line8_wf Hbits small_sane
    (kind_list_sound _ _ _ _ _ E)) as (c & t & He & _ & Hs & _ & Ht & _).
  - vm_compute in E. injection E as <- <-. vm_compute. reflexivity.
  - vm_compute in E. injection E as <- _. vm_compute. discriminate.
  - exists c, t. exact (conj He (conj Hs (proj1 Ht))).
Defined.

Lemma GetNextTargetRequired_moving_witness :
  exists c flag t, @GetNextTargetRequired CBigNum.Z_BN line8 false false (Some 8%positive) true CMainParams = Some (c, flag) /\
    Compact.SetCompact c = (t, false, false).
Proof.
  destruct line8_fields as [Hbits Htimes].
  set (b7 := (line_block alternating 7).2). set (b5 := (line_block alternating 5).2).
  assert (line8 !! 8%positive = Some b7) as H8 by (vm_compute; reflexivity).
  assert (line8 !! 6%positive = Some b5) as H6 by (vm_compute; reflexivity).
  assert (GetLastBlockIndex line8 (Some 8%positive) true = Some (Some 8%positive)) as Hg1 by (vm_compute; reflexivity).
  assert (GetLastBlockIndex line8 (Some 7%positive) true = Some (Some 6%positive)) as Hg2 by (vm_compute; reflexivity).
  assert (0 <= step_num CMainParams true (actual_spacing true (nTime b7) (nTime b7) (nTime b5))) as Hnum
    by (vm_compute; discriminate).
  destruct (GetNextTargetRequired_moving (HBN := CBigNum.Z_BNLaws) line8 CMainParams false true 8 b7 8 b7 7 6 b5 line8_wf Hbits Htimes main_sane
    H8 Hg1 H8 eq_refl Hg2 H6 (ex_intro _ _ eq_refl) eq_refl eq_refl Hnum) as (c & flag & t & He & _ & Hs & _).
  exists c, flag, t. exact (conj He Hs).
Defined.

Lemma IsPosDGWenabled_correct_witness : IsPosDGWenabled line8 false (Some 8%positive) CMainParams = Some (false, false).
Proof.
  rewrite (IsPosDGWenabled_correct line8 false CMainParams 8 (line_block alternating 7).2 line8_wf main_sane);
    vm_compute; reflexivity.
Defined.

(** ** What the model shows about the code *)

(** The static flag outlives the chain it was computed for: on a chain with few
    proof-of-stake blocks the same question is answered when the flag is clear
    and fails an assertion when another branch has set it before. *)
Definition young_pos : Z -> bool := fun i => 65 <? i.
Theorem stale_flag_asserts :
  wf_index (line young_pos 70) /\
  (exists c, @GetNextTargetRequired CBigNum.Z_BN (line young_pos 70) false false (Some 70%positive) true CMainParams = Some (c, false)) /\
  @GetNextTargetRequired CBigNum.Z_BN (line young_pos 70) false true (Some 70%positive) true CMainParams = None.
Proof.
  split; [apply wf_index_b_sound; vm_compute; reflexivity|].
  split; [eexists; vm_compute; reflexivity|vm_compute; reflexivity].
Qed.

(** The 256-bit product of [CalculateNextWorkRequired] wraps with the main
    network's limit: after a block at minimum difficulty and the longest
    timespan, exact arithmetic asks for four times the target, hence the limit,
    and the code returns a target below a hundredth of it. *)
Definition easiest_block : CBlockIndex := {|
  phashBlock := []; pprev := None; pskip := None; nHeight := 1; nFile := 0; nDataPos := 0; nUndoPos := 0;
  nChainTrust := zero 8; nTx := 0; nChainTx := 0; nStatus := 0; nVersion := 0; hashMerkleRoot := Blob.null 32;
  nTime := 1000000; nBits := 0x2000ffff; nNonce := 0; nSequenceId := 0; nTimeMax := 0; nMint := 0;
  nMoneySupply := 0; nFlags := 0; nStakeModifier := 0; nStakeModifierChecksum := 0;
  prevoutStake := mkOutPoint (Blob.null 32) 0; nStakeTime := 0; hashProofOfStake := Blob.null 32 |}.
Theorem retarget_product_wraps :
  (2 ^ 256 - 1) / (nTargetTimespan CMainParams * 4) < le_val 8 (powLimit CMainParams) /\
  le_val 8 (powLimit CMainParams) < 4 * Compact.compact_value (nBits easiest_block) /\
  exists c, CalculateNextWorkRequired easiest_block 0 CMainParams = Some c /\
    100 * Compact.compact_value c < le_val 8 (powLimit CMainParams).
Proof.
  split_and!; [vm_compute; reflexivity..|]. exists 520142382. split; vm_compute; reflexivity.
Qed.

End Pow.
