(* ===== verification/Kernel.v ===== *)
(** * The proof-of-stake kernel ([kernel.cpp], [kernel.h])

    Stake modifiers (their selection from past blocks, their lookup, checksum and
    checkpoints), the kernel hash check, and the version supermajority.  The
    double-SHA256 [Hash] and the random shuffle are parameters of the section;
    the stake modifier is shown not to depend on the shuffle.

    A result [option (option A)] is [None] for a null access or failed
    assertion, [Some None] for [return false], [Some (Some a)] for success. *)
From stdpp Require Import prelude gmap sorting.
From S2P Require Import Prelude ArithUint256 Compact Uint256 Chain ChainTheory BigNum Params.

Module Kernel.
Import BaseUint.

Definition MODIFIER_INTERVAL_RATIO : Z := 3.
Definition COIN : Z := 1000000.

Definition nBTC16BIPsSwitchTime : Z := 1677525510.
Definition nBTC16BIPsTestSwitchTime : Z := 1677525510.
(** [IsBTC16BIPsEnabled]; [main] says that the network is the main one. *)
Definition IsBTC16BIPsEnabled (main : bool) (nTimeTx : Z) : bool :=
  let fTestNet := negb main in
  (if fTestNet then nBTC16BIPsTestSwitchTime else nBTC16BIPsSwitchTime) <=? nTimeTx.

(** The hard checkpoints. *)
Definition mapStakeModifierCheckpoints : gmap Z Z := {[ 1000000 := 0x0e00670b ]}.
Definition mapStakeModifierTestnetCheckpoints : gmap Z Z := {[ 1000000 := 0x0e00670b ]}.

(** ** Stake modifiers *)

(** [while (pindex && pindex->pprev && !pindex->GeneratedStakeModifier()) pindex = pindex->pprev;] *)
Fixpoint last_generated (h : heap) (fuel : nat) (pindex : ptr) : option ptr :=
  b ← h !! pindex;
  match pprev b with
  | None => Some pindex
  | Some q =>
      if GeneratedStakeModifier b then Some pindex
      else match fuel with O => None | S fuel' => last_generated h fuel' q end
  end.

(** [GetLastStakeModifier]: the modifier and its generation time. *)
Definition GetLastStakeModifier (h : heap) (pindex : option ptr) : option (option (Z * Z)) :=
  match pindex with
  | None => Some None
  | Some p =>
      b ← h !! p;
      q ← last_generated h (Z.to_nat (nHeight b)) p;
      bq ← h !! q;
      if negb (GeneratedStakeModifier bq) then Some None
      else Some (Some (nStakeModifier bq, GetBlockTime bq))
  end.

(** Length of one section of the selection interval, in seconds. *)
Definition GetStakeModifierSelectionIntervalSection (params : Params) (nSection : Z) : option Z :=
  if negb ((0 <=? nSection) && (nSection <? 64)) then None
  else Some (Z.quot (nModifierInterval params * 63) (63 + ((63 - nSection) * (MODIFIER_INTERVAL_RATIO - 1)))).

Definition GetStakeModifierSelectionInterval (params : Params) : option Z :=
  for_range 0 64 (fun nSection acc =>
    nSelectionInterval ← acc;
    s ← GetStakeModifierSelectionIntervalSection params (Z.of_nat nSection);
    Some (nSelectionInterval + s)) (Some 0).

(** [HowSuperMajority]: versions among the last [nToCheck] proof-of-stake blocks. *)
Fixpoint HowSuperMajority_loop (h : heap) (fuel : nat) (minVersion : Z) (pstart : option ptr)
    (nRequired nToCheck i nFound : Z) : option Z :=
  if (i <? nToCheck) && (nFound <? nRequired) then
    match pstart with
    | None => Some nFound
    | Some p =>
        match fuel with
        | O => None
        | S fuel' =>
            b ← h !! p;
            if negb (IsProofOfStake b) then HowSuperMajority_loop h fuel' minVersion (pprev b) nRequired nToCheck i nFound
            else
              let nFound := if minVersion <=? nVersion b then nFound + 1 else nFound in
              HowSuperMajority_loop h fuel' minVersion (pprev b) nRequired nToCheck (i + 1) nFound
        end
    end
  else Some nFound.
Definition HowSuperMajority (h : heap) (minVersion : Z) (pstart : option ptr) (nRequired nToCheck : Z) : option Z :=
  let fuel := match pstart with
    | Some p => match h !! p with Some b => S (Z.to_nat (nHeight b)) | None => O end | None => O end in
  HowSuperMajority_loop h fuel minVersion pstart nRequired nToCheck 0 0.
Definition IsSuperMajority (h : heap) (minVersion : Z) (pstart : option ptr) (nRequired nToCheck : Z) : option bool :=
  n ← HowSuperMajority h minVersion pstart nRequired nToCheck; Some (nRequired <=? n).

(** [CheckCoinStakeTimestamp]. *)
Definition CheckCoinStakeTimestamp (nTimeBlock nTimeTx : Z) : bool := nTimeBlock =? nTimeTx.

(** [CheckStakeModifierCheckpoints]; [testnet] is the network test. *)
Definition CheckStakeModifierCheckpoints (testnet : bool) (nHeight nStakeModifierChecksum : Z) : bool :=
  let fTestNet := testnet in
  match (if fTestNet then mapStakeModifierTestnetCheckpoints !! nHeight else None) with
  | Some x => nStakeModifierChecksum =? x
  | None =>
      match (if negb fTestNet then mapStakeModifierCheckpoints !! nHeight else None) with
      | Some x => nStakeModifierChecksum =? x
      | None => true
      end
  end.

(** [GetStakeEntropyBit(const CBlock&)]: the last bit of the block hash. *)
Definition GetStakeEntropyBit_block (blockHash : list Z) : Z :=
  Z.land (GetLow64 (UintToArith256 blockHash)) 1.

(** ** Candidates *)

(** A candidate: block time and hash. *)
Abbreviation candidate := (Z * list Z)%type.

(** The comparison of the sort: time, then the hash words from the last one. *)
Fixpoint words_lt (cnt : nat) (pa pb : list Z) : bool :=
  match cnt with
  | O => false
  | S cnt' => if negb (pa.[cnt'] =? pb.[cnt']) then pa.[cnt'] <? pb.[cnt'] else words_lt cnt' pa pb
  end.
(** [GetDataPtr]: the blob as native 32-bit words, on a little-endian machine. *)
Definition GetDataPtr (b : list Z) : list Z := UintToArith256 b.
Definition candidate_lt (a b : candidate) : bool :=
  if negb (fst a =? fst b) then fst a <? fst b
  else words_lt 8 (GetDataPtr (snd a)) (GetDataPtr (snd b)).

(** [std::sort] with this comparison. *)
Definition candidate_le (a b : candidate) : Prop := candidate_lt b a = false.
#[export] Instance candidate_le_dec a b : Decision (candidate_le a b).
Proof. unfold candidate_le. apply _. Defined.
Definition sort_candidates (v : list candidate) : list candidate := merge_sort candidate_le v.

(** The blocks back to the start of the selection interval. *)
Fixpoint collect_candidates (h : heap) (fuel : nat) (start : Z) (pindex : option ptr) : option (list candidate) :=
  match pindex with
  | None => Some []
  | Some p =>
      b ← h !! p;
      if start <=? GetBlockTime b then
        match fuel with
        | O => None
        | S fuel' => r ← collect_candidates h fuel' start (pprev b); Some ((GetBlockTime b, GetBlockHash b) :: r)
        end
      else Some []
  end.

(** [std::swap(v[i], v[j])]. *)
Definition swap (i j : nat) (v : list candidate) : list candidate :=
  match v !! i, v !! j with
  | Some x, Some y => <[j := x]> (<[i := y]> v)
  | _, _ => v
  end.
(** [for (int i = size - 1; i > 1; --i) swap(v[i], v[GetRand(i)])]. *)
Fixpoint shuffle (GetRand : nat -> nat) (i : nat) (v : list candidate) : list candidate :=
  match i with
  | S (S _ as i') => shuffle GetRand i' (swap i (GetRand i) v)
  | _ => v
  end.

Section hashing.
(** [Hash]: double SHA-256 of the serialized stream. *)
Context (Hash : list Z -> list Z).

Definition ser_u32 (x : Z) : list Z := le_digits 8 4 x.
Definition ser_u64 (x : Z) : list Z := le_digits 8 8 x.

(** [GetStakeModifierChecksum]. *)
Definition GetStakeModifierChecksum (h : heap) (hashGenesisBlock : list Z) (pindex : ptr) : option Z :=
  b ← h !! pindex;
  prev ← (match pprev b with
          | Some q => bq ← h !! q; Some (ser_u32 (nStakeModifierChecksum bq))
          | None => if Blob.blob_eqb (GetBlockHash b) hashGenesisBlock then Some [] else None
          end);
  let ss := prev ++ ser_u32 (nFlags b) ++ hashProofOfStake b ++ ser_u64 (nStakeModifier b) in
  let hashChecksum := UintToArith256 (Hash ss) in
  let hashChecksum := shr_assign 8 hashChecksum (256 - 32) in
  Some (u32 (GetLow64 hashChecksum)).

(** ** Selection *)

(** The selection hash of a block. *)
Definition selection_hash (b : CBlockIndex) (nStakeModifierPrev : Z) : list Z :=
  let hashProof := if IsProofOfStake b then hashProofOfStake b else GetBlockHash b in
  let hashSelection := UintToArith256 (Hash (hashProof ++ ser_u64 nStakeModifierPrev)) in
  if IsProofOfStake b then shr_assign 8 hashSelection 32 else hashSelection.

(** The loop of [SelectBlockFromCandidates]; [best] is [(hashBest, *pindexSelected)]
    once [fSelected] is set.  [Some None] is the error return. *)
Fixpoint select_loop (h : heap) (index : gmap (list Z) ptr) (v : list candidate)
    (mapSelectedBlocks : gmap (list Z) ptr) (stop nStakeModifierPrev : Z)
    (best : option (list Z * ptr)) : option (option (option (list Z * ptr))) :=
  match v with
  | [] => Some (Some best)
  | item :: v' =>
      match index !! snd item with
      | None => Some None
      | Some pindex =>
          b ← h !! pindex;
          if (match best with Some _ => true | None => false end) && (stop <? GetBlockTime b) then Some (Some best)
          else if (match mapSelectedBlocks !! GetBlockHash b with Some _ => true | None => false end)
          then select_loop h index v' mapSelectedBlocks stop nStakeModifierPrev best
          else
            let hashSelection := selection_hash b nStakeModifierPrev in
            let best' :=
              match best with
              | Some (hashBest, _) => if ltb 8 hashSelection hashBest then Some (hashSelection, pindex) else best
              | None => Some (hashSelection, pindex)
              end in
            select_loop h index v' mapSelectedBlocks stop nStakeModifierPrev best'
      end
  end.
Definition SelectBlockFromCandidates (h : heap) (index : gmap (list Z) ptr) (vSortedByTimestamp : list candidate)
    (mapSelectedBlocks : gmap (list Z) ptr) (nSelectionIntervalStop nStakeModifierPrev : Z) : option (option ptr) :=
  r ← select_loop h index vSortedByTimestamp mapSelectedBlocks nSelectionIntervalStop nStakeModifierPrev None;
  Some (match r with Some (Some (_, p)) => Some p | _ => None end).

(** The selection rounds; [n] are left, [nRound] is the current one. *)
Fixpoint select_rounds (h : heap) (index : gmap (list Z) ptr) (params : Params) (v : list candidate)
    (nStakeModifier : Z) (n : nat) (nRound : Z) (stop nNew : Z) (selected : gmap (list Z) ptr)
    : option (option (Z * gmap (list Z) ptr)) :=
  match n with
  | O => Some (Some (nNew, selected))
  | S n' =>
      s ← GetStakeModifierSelectionIntervalSection params nRound;
      let stop := stop + s in
      r ← SelectBlockFromCandidates h index v selected stop nStakeModifier;
      match r with
      | None => Some None
      | Some pindex =>
          b ← h !! pindex;
          let nNew := Z.lor nNew (u64 (GetStakeEntropyBit b ≪ nRound)) in
          select_rounds h index params v nStakeModifier n' (nRound + 1) stop nNew
            (match selected !! GetBlockHash b with
             | Some _ => selected                  (* map::insert keeps an old entry *)
             | None => <[GetBlockHash b := pindex]> selected end)
      end
  end.

(** [ComputeNextStakeModifier]: the modifier and whether it is new. *)
Definition ComputeNextStakeModifier (GetRand : nat -> nat) (h : heap) (index : gmap (list Z) ptr) (params : Params)
    (pindexCurrent : ptr) : option (option (Z * bool)) :=
  bc ← h !! pindexCurrent;
  match pprev bc with
  | None => Some (Some (0, true))
  | Some pindexPrev =>
      bp ← h !! pindexPrev;
      last ← GetLastStakeModifier h (Some pindexPrev);
      match last with
      | None => Some None
      | Some (nStakeModifier, nModifierTime) =>
          let I := nModifierInterval params in
          if Z.quot (GetBlockTime bp) I <=? Z.quot nModifierTime I then Some (Some (nStakeModifier, false))
          else if Z.quot (GetBlockTime bc) I <=? Z.quot nModifierTime I then Some (Some (nStakeModifier, false))
          else
            nSelectionInterval ← GetStakeModifierSelectionInterval params;
            let start := Z.quot (GetBlockTime bp) I * I - nSelectionInterval in
            v ← collect_candidates h (S (Z.to_nat (nHeight bp))) start (Some pindexPrev);
            let v := shuffle GetRand (length v - 1) v in
            let v := sort_candidates v in
            r ← select_rounds h index params v nStakeModifier (Nat.min 64 (length v)) 0 start 0 ∅;
            match r with
            | None => Some None
            | Some (nStakeModifierNew, _) => Some (Some (nStakeModifierNew, true))
            end
      end
  end.

(** ** The modifier of a kernel *)

(** The loop of [GetKernelStakeModifierV05]. *)
Fixpoint kernel_modifier_loop (h : heap) (fuel : nat) (slack nTimeTx : Z) (pindex : ptr) (mheight mtime : Z)
    : option (option (Z * Z * Z)) :=
  b ← h !! pindex;
  if nTimeTx <? mtime + slack then
    match pprev b, fuel with
    | None, _ => Some None
    | Some q, S fuel' =>
        bq ← h !! q;
        if GeneratedStakeModifier bq then kernel_modifier_loop h fuel' slack nTimeTx q (nHeight bq) (GetBlockTime bq)
        else kernel_modifier_loop h fuel' slack nTimeTx q mheight mtime
    | _, _ => None
    end
  else Some (Some (nStakeModifier b, mheight, mtime)).

(** [GetKernelStakeModifierV05]: modifier, its height and its time. *)
Definition GetKernelStakeModifierV05 (h : heap) (params : Params) (pindexPrev : ptr) (nTimeTx : Z)
    : option (option (Z * Z * Z)) :=
  b ← h !! pindexPrev;
  interval ← GetStakeModifierSelectionInterval params;
  let slack := nStakeMinAge params - interval in
  if GetBlockTime b + slack <=? nTimeTx then Some None
  else kernel_modifier_loop h (Z.to_nat (nHeight b)) slack nTimeTx pindexPrev (nHeight b) (GetBlockTime b).
(** [GetKernelStakeModifier] ignores the hash of the block the coin is from. *)
Definition GetKernelStakeModifier (h : heap) (params : Params) (pindexPrev : ptr) (hashBlockFrom : list Z) (nTimeTx : Z)
    : option (option (Z * Z * Z)) := GetKernelStakeModifierV05 h params pindexPrev nTimeTx.

(** ** The kernel hash *)
Section kernel.
Context `{!BN}.

(** The coin-day weight: value times held time, in coin days. *)
Definition coin_day_weight (nValueIn nTimeWeight : Z) : option BIGNUM :=
  x ← CBigNum.mul (CBigNum.of_int64 nValueIn) (CBigNum.of_int64 nTimeWeight);
  x ← CBigNum.div x (CBigNum.of_int64 COIN);
  CBigNum.div x (CBigNum.of_int (24 * 60 * 60)).

(** The message whose hash is the proof. *)
Definition kernel_message (nStakeModifier nTimeBlockFrom nTxPrevOffset nTimeTxPrev n nTimeTx : Z) : list Z :=
  ser_u64 nStakeModifier ++ ser_u32 nTimeBlockFrom ++ ser_u32 nTxPrevOffset ++ ser_u32 nTimeTxPrev ++
  ser_u32 n ++ ser_u32 nTimeTx.

(** [CheckStakeKernelHash]: the answer, and [hashProofOfStake] when it is set.
    [txPrev] is its time and the values of its outputs. *)
Definition CheckStakeKernelHash (h : heap) (params : Params) (nBits : Z) (pindexPrev : ptr)
    (blockFromHash : list Z) (nTimeBlockFrom nTxPrevOffset : Z) (txPrev_nTime : Z) (txPrev_vout : list Z)
    (prevout_n nTimeTx : Z) : option (bool * option (list Z)) :=
  let nTimeTxPrev := if negb (txPrev_nTime =? 0) then txPrev_nTime else nTimeBlockFrom in
  if nTimeTx <? nTimeTxPrev then Some (false, None)
  else if nTimeTx <? nTimeBlockFrom + nStakeMinAge params then Some (false, None)
  else
    let bnTargetPerCoinDay := CBigNum.SetCompact nBits in
    nValueIn ← txPrev_vout !! Z.to_nat prevout_n;
    let nTimeWeight := Z.min (nTimeTx - nTimeTxPrev) (nStakeMaxAge params) - nStakeMinAge params in
    bnCoinDayWeight ← coin_day_weight nValueIn nTimeWeight;
    m ← GetKernelStakeModifier h params pindexPrev blockFromHash nTimeTx;
    match m with
    | None => Some (false, None)
    | Some (nStakeModifier, _, _) =>
        let hashProofOfStake :=
          Hash (kernel_message nStakeModifier nTimeBlockFrom nTxPrevOffset nTimeTxPrev prevout_n nTimeTx) in
        bound ← CBigNum.mul bnCoinDayWeight bnTargetPerCoinDay;
        if CBigNum.gtb (CBigNum.of_uint256 hashProofOfStake) bound then Some (false, Some hashProofOfStake)
        else Some (true, Some hashProofOfStake)
    end.

End kernel.
End hashing.
End Kernel.
