(* ===== verification/KernelTheory.v ===== *)
(** * Theorems on the proof-of-stake kernel

    The stake modifier is a function of the chain (the shuffle before the sort
    does not matter), the selection never runs out of candidates, the modifier of
    a kernel is the latest one that is old enough, and the kernel check compares
    exact integers. *)
From stdpp Require Import prelude gmap sorting.
From S2P Require Import Prelude ArithUint256 Compact Uint256 Chain ChainTheory ChainSearch BigNum Params Kernel.

Module KernelTheory.
Import BaseUint Kernel.

(** ** The order of the candidates *)

(** The three-way comparison behind the sort. *)
Fixpoint words_cmp (cnt : nat) (pa pb : list Z) : comparison :=
  match cnt with
  | O => Eq
  | S cnt' => match pa.[cnt'] ?= pb.[cnt'] with Eq => words_cmp cnt' pa pb | c => c end
  end.
Definition candidate_cmp (a b : candidate) : comparison :=
  match fst a ?= fst b with Eq => words_cmp 8 (GetDataPtr (snd a)) (GetDataPtr (snd b)) | c => c end.

Lemma words_lt_cmp n pa pb : words_lt n pa pb = match words_cmp n pa pb with Lt => true | _ => false end.
Proof.
  induction n as [|n IH]; [done|]. cbn [words_lt words_cmp]. unfold Z.ltb.
  destruct (pa.[n] =? pb.[n]) eqn:E; cases_bool; simpl.
  - rewrite E, Z.compare_refl. done.
  - destruct (Z.compare_spec pa.[n] pb.[n]); done.
Qed.

Lemma candidate_lt_cmp a b : candidate_lt a b = match candidate_cmp a b with Lt => true | _ => false end.
Proof.
  unfold candidate_lt, candidate_cmp, Z.ltb. destruct (fst a =? fst b) eqn:E; cases_bool; cbn [negb].
  - rewrite E, Z.compare_refl. apply words_lt_cmp.
  - destruct (Z.compare_spec (fst a) (fst b)); done.
Qed.

Lemma words_cmp_antisym n pa pb : words_cmp n pb pa = CompOpp (words_cmp n pa pb).
Proof.
  induction n as [|n IH]; [done|]. cbn [words_cmp]. rewrite (Z.compare_antisym pa.[n] pb.[n]).
  destruct (pa.[n] ?= pb.[n]); simpl; done.
Qed.

Lemma candidate_cmp_antisym a b : candidate_cmp b a = CompOpp (candidate_cmp a b).
Proof.
  unfold candidate_cmp. rewrite (Z.compare_antisym (fst a)).
  destruct (fst a ?= fst b); cbn [CompOpp]; [apply words_cmp_antisym|done..].
Qed.

(** Lexicographic comparison is transitive on "not greater". *)
Lemma words_cmp_trans n a b c :
  words_cmp n a b <> Gt -> words_cmp n b c <> Gt -> words_cmp n a c <> Gt /\
  (words_cmp n a c = Eq -> words_cmp n a b = Eq /\ words_cmp n b c = Eq).
Proof.
  induction n as [|n IH]; [done|]. cbn [words_cmp].
  destruct (Z.compare_spec a.[n] b.[n]), (Z.compare_spec b.[n] c.[n]), (Z.compare_spec a.[n] c.[n]);
    try lia; intros; try done; auto.
Qed.

Lemma candidate_le_cmp a b : candidate_le a b <-> candidate_cmp a b <> Gt.
Proof.
  unfold candidate_le. rewrite candidate_lt_cmp, candidate_cmp_antisym.
  destruct (candidate_cmp a b); simpl; naive_solver.
Qed.

#[local] Instance candidate_le_trans : Transitive candidate_le.
Proof.
  intros a b c. rewrite !candidate_le_cmp. unfold candidate_cmp.
  destruct (Z.compare_spec (fst a) (fst b)), (Z.compare_spec (fst b) (fst c)), (Z.compare_spec (fst a) (fst c));
    try lia; intros; try done. by eapply words_cmp_trans.
Qed.

#[local] Instance candidate_le_total : Total candidate_le.
Proof.
  intros a b. rewrite !candidate_le_cmp, (candidate_cmp_antisym a b).
  destruct (candidate_cmp a b); simpl; [by left|by left|by right].
Qed.

Lemma words_cmp_eq n pa pb : words_cmp n pa pb = Eq -> forall i, (i < n)%nat -> pa.[i] = pb.[i].
Proof.
  induction n as [|n IH]; [lia|]. cbn [words_cmp]. destruct (Z.compare_spec pa.[n] pb.[n]); try done.
  intros He i Hi. destruct (decide (i = n)) as [->|]; [done|]. apply IH; [done|lia].
Qed.

(** Candidates with proper hashes are equal when the sort cannot tell them apart. *)
Lemma candidate_cmp_eq a b :
  Blob.wf 32 (snd a) -> Blob.wf 32 (snd b) -> candidate_cmp a b = Eq -> a = b.
Proof.
  intros Ha Hb. unfold candidate_cmp. destruct (Z.compare_spec (fst a) (fst b)) as [Hf| |]; try done.
  intros He. destruct a as [ta ha], b as [tb hb]. simpl in *. f_equal; [done|].
  destruct (UintToArith256_spec ha Ha) as [[Hla _] _]. destruct (UintToArith256_spec hb Hb) as [[Hlb _] _].
  rewrite <- (uint256_roundtrip ha Ha), <- (uint256_roundtrip hb Hb). f_equal.
  apply (nth_ext _ _ 0 0); [congruence|]. rewrite Hla. intros i Hi. by apply (words_cmp_eq 8).
Qed.

Lemma candidate_le_antisym a b :
  Blob.wf 32 (snd a) -> Blob.wf 32 (snd b) -> candidate_le a b -> candidate_le b a -> a = b.
Proof.
  rewrite !candidate_le_cmp, (candidate_cmp_antisym a b). intros Ha Hb H1 H2.
  apply candidate_cmp_eq; [done..|]. destruct (candidate_cmp a b); done.
Qed.

(** ** The shuffle does not matter *)

Lemma swap_perm i j v : swap i j v ≡ₚ v.
Proof.
  unfold swap. destruct (v !! i) as [x|] eqn:Ei; [|done]. destruct (v !! j) as [y|] eqn:Ej; [|done].
  by apply Permutation_insert_swap.
Qed.

Lemma shuffle_perm rnd i v : shuffle rnd i v ≡ₚ v.
Proof.
  revert v. induction i as [|[|i] IH]; intros v; [done|done|].
  change (shuffle rnd (S (S i)) v) with (shuffle rnd (S i) (swap (S (S i)) (rnd (S (S i))) v)).
  by rewrite IH, swap_perm.
Qed.

Lemma sort_perm v : sort_candidates v ≡ₚ v.
Proof. apply merge_sort_Permutation. Qed.

Lemma sort_candidates_perm v w :
  v ≡ₚ w -> Forall (fun a => Blob.wf 32 (snd a)) v -> sort_candidates v = sort_candidates w.
Proof.
  intros Hp Hv. apply (StronglySorted_unique_strong candidate_le).
  - intros a b Ha Hb. rewrite Forall_forall in Hv.
    apply candidate_le_antisym; apply Hv; [by rewrite <- (sort_perm v)|].
    rewrite Hp. by rewrite <- (sort_perm w).
  - apply StronglySorted_merge_sort; apply _.
  - apply StronglySorted_merge_sort; apply _.
  - by rewrite !sort_perm.
Qed.

(** Every block's hash is a proper 256-bit blob. *)
Definition hashes_wf (h : heap) : Prop := forall p b, h !! p = Some b -> Blob.wf 32 (GetBlockHash b).

Lemma collect_candidates_wf (h : heap) fuel start p v :
  hashes_wf h -> collect_candidates h fuel start p = Some v -> Forall (fun a => Blob.wf 32 (snd a)) v.
Proof.
  intros Hh. revert p v. induction fuel as [|fuel IH]; intros [q|] v; cbn [collect_candidates];
    try (intros [= <-]; constructor);
    destruct (h !! q) as [b|] eqn:Hq; cbn [mbind option_bind]; try done; case_if; try (intros [= <-]; constructor).
  destruct (collect_candidates h fuel start (pprev b)) as [r|] eqn:Er; cbn [mbind option_bind]; [|done].
  intros [= <-]. constructor; [by apply (Hh q)|by eapply IH].
Qed.

Lemma ComputeNextStakeModifier_rand Hash (h : heap) index params p rnd1 rnd2 :
  hashes_wf h ->
  ComputeNextStakeModifier Hash rnd1 h index params p = ComputeNextStakeModifier Hash rnd2 h index params p.
Proof.
  intros Hh. unfold ComputeNextStakeModifier. destruct (h !! p) as [bc|]; cbn [mbind option_bind]; [|done].
  destruct (pprev bc) as [pp|]; [|done]. destruct (h !! pp) as [bp|]; cbn [mbind option_bind]; [|done].
  destruct (GetLastStakeModifier h (Some pp)) as [[[m t]|]|]; cbn [mbind option_bind]; try done.
  case_if; [done|]. case_if; [done|].
  destruct (GetStakeModifierSelectionInterval params) as [len|]; cbn [mbind option_bind]; [|done].
  destruct (collect_candidates _ _ _ _) as [v|] eqn:Ev; cbn [mbind option_bind]; [|done].
  assert (forall rnd, sort_candidates (shuffle rnd (length v - 1) v) = sort_candidates v) as Hsort.
  { intros rnd. symmetry. apply sort_candidates_perm; [by rewrite shuffle_perm|by eapply collect_candidates_wf]. }
  by rewrite !Hsort.
Qed.

(** ** Selecting a block *)
Section selection.
Context (Hash : list Z -> list Z) (HHash : forall l, Blob.wf 32 (Hash l)).
Context (h : heap) (index : gmap (list Z) ptr).

(** The block index knows the candidate, under its hash and with its time. *)
Definition known (a : candidate) (p : ptr) (b : CBlockIndex) : Prop :=
  index !! snd a = Some p /\ h !! p = Some b /\ GetBlockHash b = snd a /\ GetBlockTime b = fst a.

Definition sel_val (m : Z) (b : CBlockIndex) : Z := le_val 32 (selection_hash Hash b m).

Lemma selection_hash_wf b m : wf 8 (selection_hash Hash b m).
Proof using HHash.
  unfold selection_hash. destruct (UintToArith256_spec _ (HHash ((if IsProofOfStake b then hashProofOfStake b
    else GetBlockHash b) ++ ser_u64 m))) as [Hw _]. case_if; [|done]. by apply shr_assign_spec.
Qed.

(** A proof-of-stake block hashes below [2^224]. *)
Lemma sel_val_range m b : 0 <= sel_val m b < (if IsProofOfStake b then 2 ^ 224 else 2 ^ 256).
Proof using HHash.
  unfold sel_val, selection_hash.
  destruct (UintToArith256_spec _ (HHash ((if IsProofOfStake b then hashProofOfStake b
    else GetBlockHash b) ++ ser_u64 m))) as [Hw _]. pose proof (wf_bound 8 _ Hw) as Hb.
  change (2 ^ (32 * 8%nat)) with (2 ^ 256) in Hb. case_if; [|done].
  destruct (shr_assign_spec 8 _ 32 Hw ltac:(lia)) as [_ ->].
  split; [apply Z.div_pos; lia|apply Z.div_lt_upper_bound; lia].
Qed.

Section round.
Context (sel : gmap (list Z) ptr) (stop m : Z).

(** Not selected in an earlier round. *)
Definition fresh (b : CBlockIndex) : Prop := sel !! GetBlockHash b = None.

(** [r] is at least as good as every fresh candidate of [v] within the stop. *)
Definition beats (v : list candidate) (r : CBlockIndex) : Prop :=
  forall a p b, a ∈ v -> known a p b -> fresh b -> GetBlockTime b <= stop -> sel_val m r <= sel_val m b.

(** The loop once a block has been found. *)
Lemma select_loop_found v pb bb :
  Forall (fun a => exists p b, known a p b) v ->
  StronglySorted (fun a b : candidate => fst a <= fst b) v ->
  h !! pb = Some bb ->
  exists p b, select_loop Hash h index v sel stop m (Some (selection_hash Hash bb m, pb)) =
      Some (Some (Some (selection_hash Hash b m, p))) /\ h !! p = Some b /\
    sel_val m b <= sel_val m bb /\ beats v b /\
    (p = pb /\ b = bb \/ fresh b /\ GetBlockTime b <= stop /\ exists a, a ∈ v /\ known a p b).
Proof using HHash.
  revert pb bb. induction v as [|a v IH]; intros pb bb Hk Hs Hpb.
  { exists pb, bb. split_and!; [done..|lia| |by left]. intros a p b Ha. by apply not_elem_of_nil in Ha. }
  apply Forall_cons in Hk as [(p & b & Hka) Hk]. pose proof Hka as (Hi & Hp & Hh & Ht).
  apply StronglySorted_cons in Hs as [Hle Hs].
  cbn [select_loop]. rewrite Hi, Hp. cbn [mbind option_bind andb].
  destruct (stop <? GetBlockTime b) eqn:Est; cases_bool.
  { exists pb, bb. split_and!; [done..|lia| |by left].
    intros a' p' b' Ha' (_ & _ & _ & Ht') _ Hle'. exfalso.
    apply elem_of_cons in Ha' as [->|Ha']; [rewrite <- Ht in Ht'; lia|].
    rewrite Forall_forall in Hle. specialize (Hle a' Ha'). lia. }
  assert (forall r, sel_val m r <= sel_val m b \/ ~ fresh b -> beats v r -> beats (a :: v) r) as Hbeats.
  { intros r Hr Hb a' p' b' Ha' Hk' Hf' Hst'. apply elem_of_cons in Ha' as [->|Ha']; [|by eapply Hb].
    destruct Hk' as (Hi' & Hp' & _). destruct Hka as (Hi2 & Hp2 & _). simplify_eq. destruct Hr; [done|naive_solver]. }
  destruct (sel !! GetBlockHash b) as [x|] eqn:Esel.
  { destruct (IH pb bb Hk Hs Hpb) as (p' & b' & -> & Hp' & Hv' & Hb' & Hor). exists p', b'.
    split_and!; [done..| |].
    - apply Hbeats; [|done]. right. unfold fresh. by rewrite Esel.
    - destruct Hor as [?|(? & ? & a' & ? & ?)]; [by left|right]. split_and!; [done..|]. exists a'. by split; [right|]. }
  cbn [fst]. rewrite (ltb_spec 8) by apply selection_hash_wf. fold (sel_val m b). fold (sel_val m bb).
  destruct (sel_val m b <? sel_val m bb) eqn:Elt; cases_bool.
  - destruct (IH p b Hk Hs Hp) as (p' & b' & -> & Hp' & Hv' & Hb' & Hor). exists p', b'.
    split_and!; [done..|lia|by apply Hbeats; auto|]. right.
    destruct Hor as [[-> ->]|(? & ? & a' & ? & ?)]; [split_and!; [done|lia|]; exists a; by split; [left|]|].
    split_and!; [done..|]. exists a'. by split; [right|].
  - destruct (IH pb bb Hk Hs Hpb) as (p' & b' & -> & Hp' & Hv' & Hb' & Hor). exists p', b'.
    split_and!; [done..|apply Hbeats; [left; lia|done]|].
    destruct Hor as [?|(? & ? & a' & ? & ?)]; [by left|right]. split_and!; [done..|]. exists a'. by split; [right|].
Qed.

(** A round succeeds while a candidate is left: it takes a fresh block with the
    least selection hash among those within the stop, or, when all fresh ones
    are later, the first of them. *)
Lemma select_spec v :
  Forall (fun a => exists p b, known a p b) v ->
  StronglySorted (fun a b : candidate => fst a <= fst b) v ->
  (exists a p b, a ∈ v /\ known a p b /\ fresh b) ->
  exists p b a, SelectBlockFromCandidates Hash h index v sel stop m = Some (Some p) /\ h !! p = Some b /\
    a ∈ v /\ known a p b /\ fresh b /\ beats v b /\
    (GetBlockTime b <= stop \/ forall a' p' b', a' ∈ v -> known a' p' b' -> fresh b' -> GetBlockTime b <= GetBlockTime b').
Proof using HHash.
  unfold SelectBlockFromCandidates. induction v as [|a v IH]; intros Hk Hs (a0 & p0 & b0 & Ha0 & Hk0 & Hf0).
  { by apply not_elem_of_nil in Ha0. }
  apply Forall_cons in Hk as [(p & b & Hka) Hk]. pose proof Hka as (Hi & Hp & Hh & Ht).
  apply StronglySorted_cons in Hs as [Hle Hs].
  assert (forall a' p' b', a' ∈ a :: v -> known a' p' b' -> a' ∈ v \/ p' = p /\ b' = b) as Hcons.
  { intros a' p' b' Ha' (Hi' & Hp' & _). apply elem_of_cons in Ha' as [->|Ha']; [right|by left].
    rewrite Hi in Hi'. injection Hi' as <-. rewrite Hp in Hp'. injection Hp' as <-. done. }
  cbn [select_loop]. rewrite Hi, Hp. cbn [mbind option_bind andb].
  destruct (sel !! GetBlockHash b) as [x|] eqn:Esel.
  - assert (~ fresh b) as Hnf by (unfold fresh; by rewrite Esel).
    destruct IH as (p' & b' & a' & He & Hp' & Ha' & Hk' & Hf' & Hb' & Hor); [done|done| |].
    { exists a0, p0, b0. destruct (Hcons a0 p0 b0 Ha0 Hk0) as [?|[-> ->]]; [done|by destruct Hnf]. }
    exists p', b', a'. split_and!; [done|done|by right|done|done| |].
    + intros a2 p2 b2 Ha2 Hk2 Hf2 Ht2. destruct (Hcons a2 p2 b2 Ha2 Hk2) as [?|[-> ->]]; [by eapply Hb'|by destruct Hnf].
    + destruct Hor as [?|Hor]; [by left|right]. intros a2 p2 b2 Ha2 Hk2 Hf2.
      destruct (Hcons a2 p2 b2 Ha2 Hk2) as [?|[-> ->]]; [by eapply Hor|by destruct Hnf].
  - destruct (select_loop_found v p b Hk Hs Hp) as (p' & b' & -> & Hp' & Hv' & Hb' & Hor).
    cbn [mbind option_bind]. exists p', b'.
    assert (beats (a :: v) b') as Hbeats.
    { intros a2 p2 b2 Ha2 Hk2 Hf2 Ht2. destruct (Hcons a2 p2 b2 Ha2 Hk2) as [?|[-> ->]]; [by eapply Hb'|done]. }
    destruct Hor as [[-> ->]|(Hf' & Ht' & a' & Ha' & Hk')].
    + exists a. split_and!; [done|done|by left|done|done|done|right].
      intros a2 p2 b2 Ha2 Hk2 Hf2. destruct (Hcons a2 p2 b2 Ha2 Hk2) as [Hv2|[-> ->]]; [|lia].
      destruct Hk2 as (_ & _ & _ & Ht2). rewrite Forall_forall in Hle. specialize (Hle a2 Hv2). lia.
    + exists a'. split_and!; [done|done|by right|done|done|done|by left].
Qed.

End round.

(** ** The selection rounds *)

Lemma section_spec params k :
  0 <= k < 64 -> GetStakeModifierSelectionIntervalSection params k =
    Some (Z.quot (nModifierInterval params * 63) (63 + (63 - k) * 2)).
Proof using Type.
  intros Hk. unfold GetStakeModifierSelectionIntervalSection.
  rewrite (proj2 (Z.leb_le 0 k)), (proj2 (Z.ltb_lt k 64)) by lia. done.
Qed.

(** The candidates are distinct and known; the selected ones are candidates. *)
Record rounds_ok (v : list candidate) (sel : gmap (list Z) ptr) (picks : list CBlockIndex) : Prop := {
  ro_known : Forall (fun a => exists p b, known a p b) v;
  ro_sorted : StronglySorted (fun a b : candidate => fst a <= fst b) v;
  ro_nodup : NoDup (map snd v);
  ro_dom : forall x, is_Some (sel !! x) <-> x ∈ map GetBlockHash picks;
  ro_picks : NoDup (map GetBlockHash picks);
  ro_sub : map GetBlockHash picks ⊆ map snd v;
}.

(** While fewer blocks are selected than there are candidates, one is fresh. *)
Lemma fresh_exists v sel picks :
  rounds_ok v sel picks -> (length picks < length v)%nat -> exists a p b, a ∈ v /\ known a p b /\ fresh sel b.
Proof using Type.
  intros Hr Hlt. destruct (list_exist_dec (fun x => x ∉ map GetBlockHash picks) (map snd v)) as [Hex|Hno].
  { intros x. apply _. }
  - destruct Hex as (x & Hx & Hnx). apply list_elem_of_fmap in Hx as (a & -> & Ha).
    pose proof (proj1 (Forall_forall _ _) (ro_known _ _ _ Hr) a Ha) as (p & b & Hk).
    exists a, p, b. split_and!; [done..|]. unfold fresh. destruct Hk as (_ & _ & -> & _).
    destruct (sel !! a.2) eqn:E; [|done]. destruct Hnx. apply (ro_dom _ _ _ Hr). by eexists.
  - exfalso. assert (map snd v ⊆ map GetBlockHash picks) as Hsub.
    { intros x Hx. destruct (decide (x ∈ map GetBlockHash picks)); [done|]. destruct Hno. by exists x. }
    pose proof (submseteq_length _ _ (NoDup_submseteq _ _ (ro_nodup _ _ _ Hr) Hsub)) as Hl.
    rewrite !length_fmap in Hl. lia.
Qed.

(** Entropy bits as a number: bit [i] is the bit of the [i]-th pick. *)
Fixpoint entropy (picks : list CBlockIndex) : Z :=
  match picks with
  | [] => 0
  | b :: r => GetStakeEntropyBit b + 2 * entropy r
  end.

Lemma entropy_bit b : 0 <= GetStakeEntropyBit b <= 1.
Proof using Type.
  unfold GetStakeEntropyBit, BLOCK_STAKE_ENTROPY. change 2 with (2 ^ 1). rewrite Compact.land_bit by lia.
  rewrite Z.shiftr_div_pow2 by lia. destruct (Z.testbit (nFlags b) 1); cbv; split; discriminate.
Qed.

Lemma entropy_range picks : 0 <= entropy picks < 2 ^ length picks.
Proof using Type.
  induction picks as [|b r IH]; simpl; [lia|]. pose proof (entropy_bit b).
  replace (Z.of_nat (S (length r))) with (1 + length r) by lia. rewrite Z.pow_add_r by lia. lia.
Qed.

Lemma entropy_app l b : entropy (l ++ [b]) = entropy l + GetStakeEntropyBit b * 2 ^ length l.
Proof using Type.
  induction l as [|c l IH]; [simpl; lia|]. cbn [app entropy length]. rewrite IH.
  replace (Z.of_nat (S (length l))) with (1 + length l) by lia. rewrite Z.pow_add_r by lia. ring.
Qed.

Lemma select_rounds_spec params v m n :
  forall sel picks stop, rounds_ok v sel picks -> (length picks + n <= Nat.min 64 (length v))%nat ->
  exists picks' sel', select_rounds Hash h index params v m n (length picks) stop (entropy picks) sel =
      Some (Some (entropy (picks ++ picks'), sel')) /\
    length picks' = n /\ rounds_ok v sel' (picks ++ picks').
Proof using HHash.
  induction n as [|n IH]; intros sel picks stop Hr Hn.
  { exists [], sel. rewrite app_nil_r. done. }
  cbn [select_rounds]. rewrite section_spec by lia. cbn [mbind option_bind].
  set (stop' := stop + _).
  destruct (select_spec sel stop' m v (ro_known _ _ _ Hr) (ro_sorted _ _ _ Hr)
    (fresh_exists v sel picks Hr ltac:(lia))) as (p & b & a & -> & Hp & Ha & Hk & Hf & _).
  cbn [mbind option_bind]. rewrite Hp. cbn [mbind option_bind]. unfold fresh in Hf. rewrite Hf.
  pose proof (entropy_bit b). pose proof (entropy_range picks) as He.
  assert (u64 (GetStakeEntropyBit b ≪ length picks) = GetStakeEntropyBit b ≪ length picks) as ->.
  { apply u64_small. unfold in_u. rewrite Z.shiftl_mul_pow2 by lia.
    pose proof (Z.pow_le_mono_r 2 (length picks) 63 ltac:(lia) ltac:(lia)).
    pose proof (pow2_pos (length picks) ltac:(lia)). nia. }
  rewrite lor_low_high by lia. rewrite <- entropy_app.
  destruct Hk as (Hi & Hp' & Hhash & Ht).
  assert (rounds_ok v (<[GetBlockHash b := p]> sel) (picks ++ [b])) as Hr'.
  { destruct Hr as [H1 H2 H3 H4 H5 H6]. split; [done..| | |].
    - intros x. rewrite map_app, elem_of_app, <- H4. simpl. rewrite list_elem_of_singleton.
      destruct (decide (x = GetBlockHash b)) as [->|Hne].
      + rewrite lookup_insert_eq. split; [by right|by eexists].
      + rewrite lookup_insert_ne by done. naive_solver.
    - rewrite map_app. apply NoDup_app. split_and!; [done| |apply NoDup_singleton].
      intros x Hx Hx'. simpl in Hx'. apply list_elem_of_singleton in Hx' as ->.
      apply H4 in Hx as [y Hy]. congruence.
    - rewrite map_app. intros x [Hx|Hx]%elem_of_app; [by apply H6|]. simpl in Hx.
      apply list_elem_of_singleton in Hx as ->. rewrite Hhash. by apply list_elem_of_fmap_2. }
  destruct (IH _ (picks ++ [b]) stop' Hr') as (picks' & sel' & Hs & Hl & Hr2); [rewrite length_app; cbn [length]; lia|].
  rewrite length_app in Hs. simpl in Hs.
  replace (Z.of_nat (length picks + 1)) with (length picks + 1) in Hs by lia. rewrite Hs.
  exists (b :: picks'), sel'. rewrite <- app_assoc in *. simpl in *. split_and!; [done|lia|done].
Qed.

End selection.

(** ** The selection interval *)

(** The interval is the sum of its 64 sections. *)
Definition section (params : Params) (k : Z) : Z := Z.quot (nModifierInterval params * 63) (63 + (63 - k) * 2).

Lemma section_range params k : sane params -> 0 <= k < 64 -> 0 <= section params k <= nModifierInterval params.
Proof.
  intros Hs Hk. pose proof (sane_modifier _ Hs). unfold section. split; [apply Z.quot_pos; nia|].
  apply Z.quot_le_upper_bound; nia.
Qed.

Lemma interval_spec params :
  sane params -> exists len, GetStakeModifierSelectionInterval params = Some len /\
    0 <= len <= 64 * nModifierInterval params.
Proof.
  intros Hs. unfold GetStakeModifierSelectionInterval.
  apply (for_range_ind (fun (k : nat) acc => exists len, acc = Some len /\ 0 <= len <= k * nModifierInterval params)).
  - lia.
  - exists 0. split; [done|]. pose proof (sane_modifier _ Hs). lia.
  - intros k acc Hk (len & -> & Hlen). cbn [mbind option_bind]. rewrite section_spec by lia.
    cbn [mbind option_bind]. eexists. split; [done|].
    pose proof (section_range params k Hs ltac:(lia)). unfold section in *. lia.
Qed.

(** ** The last modifier *)
Section modifier.
Context (h : heap) (Hwf : wf_index h).

Lemma last_generated_spec fuel p b :
  h !! p = Some b -> (Z.to_nat (nHeight b) <= fuel)%nat ->
  exists q bq n, last_generated h fuel p = Some q /\ parent_n h n p = Some q /\ h !! q = Some bq /\
    (GeneratedStakeModifier bq = true \/ pprev bq = None) /\
    forall k a ba, (k < n)%nat -> parent_n h k p = Some a -> h !! a = Some ba -> GeneratedStakeModifier ba = false.
Proof using Hwf.
  revert p b. induction fuel as [|fuel IH]; intros p b Hp Hf;
    pose proof (wi_prev h Hwf p b Hp) as Hprev; pose proof (wi_height h Hwf p b Hp);
    cbn [last_generated]; rewrite Hp; cbn [mbind option_bind];
    (destruct (pprev b) as [q|] eqn:Eq; [|exists p, b, O; split_and!; auto; intros; lia]);
    destruct Hprev as (bq & Hq & Hh); pose proof (wi_height h Hwf q bq Hq); [lia|].
  destruct (GeneratedStakeModifier b) eqn:E.
  - exists p, b, O. split_and!; auto. intros; lia.
  - destruct (IH q bq Hq ltac:(lia)) as (r & br & n & He & Hn & Hr & Hk & Hno).
    exists r, br, (S n). split_and!; auto.
    + simpl. rewrite Hp. simpl. by rewrite Eq.
    + intros [|m] a ba Hm Ha Hba; simpl in Ha; [by simplify_eq|].
      rewrite Hp in Ha. simpl in Ha. rewrite Eq in Ha. simpl in Ha. apply (Hno m a ba); [lia|done..].
Qed.

(** The root of every branch carries a generated modifier. *)
Definition root_generated : Prop :=
  forall p b, h !! p = Some b -> pprev b = None -> GeneratedStakeModifier b = true.

Lemma GetLastStakeModifier_spec p b :
  root_generated -> h !! p = Some b ->
  exists q bq n, GetLastStakeModifier h (Some p) = Some (Some (nStakeModifier bq, nTime bq)) /\
    parent_n h n p = Some q /\ h !! q = Some bq /\ GeneratedStakeModifier bq = true /\
    forall k a ba, (k < n)%nat -> parent_n h k p = Some a -> h !! a = Some ba -> GeneratedStakeModifier ba = false.
Proof using Hwf.
  intros Hroot Hp. unfold GetLastStakeModifier. rewrite Hp. cbn [mbind option_bind].
  destruct (last_generated_spec (Z.to_nat (nHeight b)) p b Hp ltac:(lia)) as (q & bq & n & -> & Hn & Hq & Hg & Hno).
  cbn [mbind option_bind]. rewrite Hq. cbn [mbind option_bind].
  assert (GeneratedStakeModifier bq = true) as Hgen by (destruct Hg; [done|by eapply Hroot]).
  rewrite Hgen. exists q, bq, n. done.
Qed.

(** ** Collecting the candidates *)

(** The block manager finds every entry under its hash. *)
Definition index_ok (index : gmap (list Z) ptr) : Prop :=
  forall p b, h !! p = Some b -> index !! GetBlockHash b = Some p.

Lemma collect_candidates_spec index fuel start p b :
  index_ok index -> h !! p = Some b -> (Z.to_nat (nHeight b) < fuel)%nat ->
  exists v, collect_candidates h fuel start (Some p) = Some v /\
    Forall (fun a => exists q bq, known h index a q bq /\ is_anc h q p /\ start <= nTime bq) v /\ NoDup (map snd v) /\
    (start <= nTime b -> (0 < length v)%nat).
Proof using Hwf.
  intros Hidx. revert p b. induction fuel as [|fuel IH]; intros p b Hp Hf; [lia|].
  cbn [collect_candidates]. rewrite Hp. cbn [mbind option_bind]. unfold GetBlockTime at 1.
  destruct (start <=? nTime b) eqn:Est; cases_bool; [|exists []; split_and!; [done|constructor|constructor|lia]].
  assert (known h index (GetBlockTime b, GetBlockHash b) p b) as Hk by (split_and!; [by apply Hidx|done..]).
  pose proof (wi_prev h Hwf p b Hp) as Hprev. destruct (pprev b) as [q|] eqn:Eq.
  - destruct Hprev as (bq & Hq & Hh). pose proof (wi_height h Hwf q bq Hq).
    destruct (IH q bq Hq ltac:(lia)) as (v & -> & Hv & Hnd & _). cbn [mbind option_bind].
    assert (is_anc h q p) as Hqp by (exists 1%nat; simpl; rewrite Hp; simpl; by rewrite Eq).
    eexists. split; [done|]. split_and!; [|cbn [map fst snd]|simpl; lia].
    + constructor; [exists p, b; split_and!; [done|apply is_anc_refl|done]|].
      eapply Forall_impl; [exact Hv|]. intros a (r & br & Hr & Hanc & Hst). exists r, br.
      split_and!; [done|by eapply is_anc_trans|done].
    + constructor; [|done]. intros Hin. apply list_elem_of_fmap in Hin as (a & Ha & Hin).
      rewrite Forall_forall in Hv. destruct (Hv a Hin) as (r & br & (Hr1 & Hr2 & Hr3 & _) & Hanc & _).
      rewrite <- Ha in Hr1. rewrite (Hidx p b Hp) in Hr1. injection Hr1 as <-.
      destruct (is_anc_height h Hwf p q bq Hq Hanc) as (bd & Hbd & Hle & _). simplify_eq. lia.
  - replace (collect_candidates h fuel start None) with (Some ([] : list candidate)) by (by destruct fuel).
    cbn [mbind option_bind]. eexists. split; [done|]. split_and!.
    + constructor; [|constructor]. exists p, b. split_and!; [done|apply is_anc_refl|done].
    + apply NoDup_singleton.
    + simpl. lia.
Qed.

End modifier.

Lemma candidate_le_fst a b : candidate_le a b -> fst a <= fst b.
Proof.
  rewrite candidate_le_cmp. unfold candidate_cmp. destruct (Z.compare_spec (fst a) (fst b)); try done; lia.
Qed.

Lemma sort_candidates_times v : StronglySorted (fun a b : candidate => fst a <= fst b) (sort_candidates v).
Proof.
  assert (StronglySorted candidate_le (sort_candidates v)) as Hs by (apply StronglySorted_merge_sort; apply _).
  induction Hs as [|a l _ IH Hf]; constructor; [done|].
  eapply Forall_impl; [exact Hf|]. intros b. apply candidate_le_fst.
Qed.

Section next.
Context (Hash : list Z -> list Z) (HHash : forall l, Blob.wf 32 (Hash l)).
Context (h : heap) (Hwf : wf_index h) (index : gmap (list Z) ptr) (Hidx : index_ok h index).

(** A new modifier is due: the last one lies in an earlier interval than both
    the previous and the current block. *)
Definition modifier_due (params : Params) (bp bc : CBlockIndex) (t : Z) : bool :=
  (Z.quot t (nModifierInterval params) <? Z.quot (nTime bp) (nModifierInterval params)) &&
  (Z.quot t (nModifierInterval params) <? Z.quot (nTime bc) (nModifierInterval params)).

(** The blocks that contribute: distinct ancestors of the previous block, at
    most 64. *)
Definition contributors (pp : ptr) (picks : list CBlockIndex) : Prop :=
  (length picks <= 64)%nat /\ NoDup (map GetBlockHash picks) /\
  forall b, b ∈ picks -> exists q, is_anc h q pp /\ exists bq, h !! q = Some bq /\ GetBlockHash bq = GetBlockHash b.

Lemma select_all params v m start pp :
  Forall (fun a => exists q bq, known h index a q bq /\ is_anc h q pp /\ start <= nTime bq) v -> NoDup (map snd v) ->
  exists picks sel, select_rounds Hash h index params (sort_candidates v) m (Nat.min 64 (length (sort_candidates v))) 0 start 0 ∅ =
      Some (Some (entropy picks, sel)) /\
    length picks = Nat.min 64 (length v) /\ contributors pp picks.
Proof using HHash.
  intros Hv Hnd. pose proof (sort_perm v) as Hp.
  assert (rounds_ok h index (sort_candidates v) ∅ []) as Hr.
  { split.
    - rewrite Hp. eapply Forall_impl; [exact Hv|]. intros a (q & bq & Hk & _). eauto.
    - apply sort_candidates_times.
    - by rewrite Hp.
    - intros x. rewrite lookup_empty. simpl. split; [by intros []|by intros ?%not_elem_of_nil].
    - constructor.
    - intros x Hx. by apply not_elem_of_nil in Hx. }
  destruct (select_rounds_spec Hash HHash h index params (sort_candidates v) m (Nat.min 64 (length (sort_candidates v)))
    ∅ [] start Hr) as (picks & sel & Hs & Hl & Hr'); [simpl length; lia|].
  simpl app in *. exists picks, sel. rewrite (Permutation_length Hp) in Hl.
  unfold contributors. split_and!; [exact Hs|done|lia|by apply (ro_picks _ _ _ _ _ Hr')|].
  intros b Hb. assert (GetBlockHash b ∈ map snd (sort_candidates v)) as Hin
    by (apply (ro_sub _ _ _ _ _ Hr'), list_elem_of_fmap; eauto).
  rewrite Hp in Hin. apply list_elem_of_fmap in Hin as (a & Ha & Hin).
  rewrite Forall_forall in Hv. destruct (Hv a Hin) as (q & bq & (_ & Hq & Hh & _) & Hanc & _).
  exists q. split; [done|]. exists bq. split; [done|]. congruence.
Qed.

Lemma ComputeNextStakeModifier_spec rnd params p bc pp bp :
  sane params -> hashes_wf h -> root_generated h ->
  h !! p = Some bc -> pprev bc = Some pp -> h !! pp = Some bp ->
  exists last t, GetLastStakeModifier h (Some pp) = Some (Some (last, t)) /\
    if modifier_due params bp bc t
    then exists picks, ComputeNextStakeModifier Hash rnd h index params p = Some (Some (entropy picks, true)) /\
           contributors pp picks
    else ComputeNextStakeModifier Hash rnd h index params p = Some (Some (last, false)).
Proof using HHash Hwf Hidx.
  intros Hs Hh Hroot Hp Hpp Hbp.
  destruct (GetLastStakeModifier_spec h Hwf pp bp Hroot Hbp) as (q & bq & n & Hlast & _).
  exists (nStakeModifier bq), (nTime bq). split; [done|].
  unfold modifier_due, ComputeNextStakeModifier. rewrite Hp. cbn [mbind option_bind].
  rewrite Hpp, Hbp. cbn [mbind option_bind]. rewrite Hlast.
  cbn [mbind option_bind]. unfold GetBlockTime. rewrite !Z.ltb_antisym.
  destruct (Z.quot (nTime bp) _ <=? _); cbn [negb andb]; [done|].
  destruct (Z.quot (nTime bc) _ <=? _); cbn [negb andb]; [done|].
  destruct (interval_spec params Hs) as (len & -> & Hlen). cbn [mbind option_bind].
  set (start := Z.quot (nTime bp) (nModifierInterval params) * nModifierInterval params - len) in *.
  destruct (collect_candidates_spec h Hwf index (S (Z.to_nat (nHeight bp))) start pp bp Hidx Hbp ltac:(lia))
    as (v & Hc & Hv & Hnd & _). rewrite Hc. cbn [mbind option_bind].
  rewrite (sort_candidates_perm (shuffle rnd (length v - 1) v) v).
  2:{ apply shuffle_perm. } 2:{ rewrite shuffle_perm. by eapply collect_candidates_wf. }
  destruct (select_all params v (nStakeModifier bq) start pp Hv Hnd) as (picks & sel & Hsel & _ & Hcon).
  rewrite Hsel. cbn [mbind option_bind]. eauto.
Qed.

End next.

(** ** The modifier of a kernel *)
Section kernel_modifier.
Context (h : heap) (Hwf : wf_index h).

(** [q], [n] steps below [p], carries the latest generated modifier below [p]
    that is old enough. *)
Definition latest_old (slack nTimeTx : Z) (p q : ptr) (n : nat) (bq : CBlockIndex) : Prop :=
  (0 < n)%nat /\ parent_n h n p = Some q /\ h !! q = Some bq /\ GeneratedStakeModifier bq = true /\
  nTime bq + slack <= nTimeTx /\
  forall k a ba, (0 < k < n)%nat -> parent_n h k p = Some a -> h !! a = Some ba ->
    GeneratedStakeModifier ba = true -> nTimeTx < nTime ba + slack.

Lemma kernel_modifier_loop_spec fuel slack nTimeTx p b mh mt :
  h !! p = Some b -> (Z.to_nat (nHeight b) <= fuel)%nat -> nTimeTx < mt + slack ->
  exists r, kernel_modifier_loop h fuel slack nTimeTx p mh mt = Some r /\
  match r with
  | Some (m, ht, t) => exists q n bq, latest_old slack nTimeTx p q n bq /\
      m = nStakeModifier bq /\ ht = nHeight bq /\ t = nTime bq
  | None => forall n q bq, (0 < n)%nat -> parent_n h n p = Some q -> h !! q = Some bq ->
      GeneratedStakeModifier bq = true -> nTimeTx < nTime bq + slack
  end.
Proof using Hwf.
  revert p b mh mt. induction fuel as [|fuel IH]; intros p b mh mt Hp Hf Ht;
    pose proof (wi_prev h Hwf p b Hp) as Hprev; pose proof (wi_height h Hwf p b Hp);
    cbn [kernel_modifier_loop]; rewrite Hp; cbn [mbind option_bind];
    rewrite (proj2 (Z.ltb_lt _ _)) by lia;
    (destruct (pprev b) as [q|] eqn:Eq;
      [|exists None; split; [done|]; intros [|n] q bq Hn Hq; [lia|]; simpl in Hq; rewrite Hp in Hq; simpl in Hq; by rewrite Eq in Hq]);
    destruct Hprev as (bq & Hq & Hh); pose proof (wi_height h Hwf q bq Hq); [lia|].
  rewrite Hq. cbn [mbind option_bind].
  assert (forall n, parent_n h (S n) p = parent_n h n q) as Hdown by (intros n; simpl; rewrite Hp; simpl; by rewrite Eq).
  destruct (GeneratedStakeModifier bq && (nTime bq + slack <=? nTimeTx)) eqn:Estop.
  - apply andb_true_iff in Estop as [Eg Et]. cases_bool. rewrite Eg. unfold GetBlockTime.
    exists (Some (nStakeModifier bq, nHeight bq, nTime bq)). split.
    + destruct fuel; cbn [kernel_modifier_loop]; rewrite Hq; cbn [mbind option_bind];
        by rewrite (proj2 (Z.ltb_ge _ _)) by lia.
    + exists q, 1%nat, bq. split; [|done].
      split_and!; [lia|by rewrite Hdown|done|done|done|]. intros k a ba Hk. lia.
  - assert (GeneratedStakeModifier bq = true -> nTimeTx < nTime bq + slack) as Hq0.
    { intros Eg. rewrite Eg in Estop. simpl in Estop. cases_bool. lia. }
    assert (exists r, (if GeneratedStakeModifier bq
        then kernel_modifier_loop h fuel slack nTimeTx q (nHeight bq) (GetBlockTime bq)
        else kernel_modifier_loop h fuel slack nTimeTx q mh mt) = Some r /\
      match r with
      | Some (m, ht, t) => exists q' n bq', latest_old slack nTimeTx q q' n bq' /\
          m = nStakeModifier bq' /\ ht = nHeight bq' /\ t = nTime bq'
      | None => forall n q' bq', (0 < n)%nat -> parent_n h n q = Some q' -> h !! q' = Some bq' ->
          GeneratedStakeModifier bq' = true -> nTimeTx < nTime bq' + slack
      end) as (r & -> & Hr).
    { destruct (GeneratedStakeModifier bq); apply (IH q bq); try done; try lia. by apply Hq0. }
    exists r. split; [done|]. destruct r as [[[m ht] t]|].
    + destruct Hr as (q' & n & bq' & (Hn & Hn' & Hq' & Hg & Hle & Hno) & Hm). exists q', (S n), bq'.
      split; [|done]. split_and!; [lia|by rewrite Hdown|done|done|done|].
      intros [|[|k]] a ba Hk Ha Hba Hga; [lia| |].
      * rewrite Hdown in Ha. injection Ha as <-. rewrite Hq in Hba. injection Hba as <-. by apply Hq0.
      * rewrite Hdown in Ha. apply (Hno (S k) a ba); [lia|done..].
    + intros [|[|n]] q' bq' Hn Hq' Hb' Hg; [lia| |].
      * rewrite Hdown in Hq'. injection Hq' as <-. rewrite Hq in Hb'. injection Hb' as <-. by apply Hq0.
      * rewrite Hdown in Hq'. apply (Hr (S n) q' bq'); [lia|done..].
Qed.

Lemma GetKernelStakeModifierV05_spec params p b nTimeTx :
  sane params -> h !! p = Some b ->
  exists len r, GetStakeModifierSelectionInterval params = Some len /\
  GetKernelStakeModifierV05 h params p nTimeTx = Some r /\
  let slack := nStakeMinAge params - len in
  match r with
  | Some (m, ht, t) => nTimeTx < nTime b + slack /\
      exists q n bq, latest_old slack nTimeTx p q n bq /\ m = nStakeModifier bq /\ ht = nHeight bq /\ t = nTime bq
  | None => nTime b + slack <= nTimeTx \/
      forall n q bq, (0 < n)%nat -> parent_n h n p = Some q -> h !! q = Some bq ->
        GeneratedStakeModifier bq = true -> nTimeTx < nTime bq + slack
  end.
Proof using Hwf.
  intros Hs Hp. destruct (interval_spec params Hs) as (len & Hlen & _). exists len.
  unfold GetKernelStakeModifierV05. rewrite Hp. bind. rewrite Hlen. bind.
  unfold GetBlockTime. destruct (nTime b + (nStakeMinAge params - len) <=? nTimeTx) eqn:E; cases_bool.
  { exists None. split_and!; [done..|by left]. }
  destruct (kernel_modifier_loop_spec (Z.to_nat (nHeight b)) (nStakeMinAge params - len) nTimeTx p b (nHeight b) (nTime b)
    Hp ltac:(lia) ltac:(lia)) as (r & -> & Hr).
  exists r. split_and!; [done..|]. destruct r as [[[m ht] t]|]; [|by right]. done.
Qed.

End kernel_modifier.

(** ** The kernel check on integers *)
Section kernel_check.
Context `{!BN} `{HBN : !BNLaws _}.
Context (Hash : list Z -> list Z) (HHash : forall l, Blob.wf 32 (Hash l)).

Lemma coin_day_weight_spec v t :
  in_s 64 v -> in_s 64 t ->
  exists w, coin_day_weight v t = Some w /\ bn_val w = Z.quot (Z.quot (v * t) COIN) 86400.
Proof using HBN.
  intros Hv Ht. unfold coin_day_weight, CBigNum.mul, CBigNum.div.
  destruct (mul_val (CBigNum.of_int64 v) (CBigNum.of_int64 t)) as (x & -> & Hx). cbn [mbind option_bind].
  rewrite !CBigNum.of_int64_spec in Hx by done.
  assert (bn_val (CBigNum.of_int64 COIN) = COIN) as HC by (apply CBigNum.setint64_spec; cbv; split; [discriminate|done]).
  assert (bn_val (CBigNum.of_int (24 * 60 * 60)) = 86400) as HD by (apply CBigNum.of_int_spec; cbv; split; [discriminate|done]).
  destruct (div_val x (CBigNum.of_int64 COIN)) as (y & -> & Hy); [by rewrite HC|]. cbn [mbind option_bind].
  destruct (div_val y (CBigNum.of_int (24 * 60 * 60))) as (z & -> & Hz); [by rewrite HD|].
  exists z. split; [done|]. by rewrite Hz, HD, Hy, HC, Hx.
Qed.

Lemma CheckStakeKernelHash_spec (h : heap) params bits pprev fromHash tb off tprev vout n tx value :
  sane params -> in_u 32 bits -> in_u 32 tb -> in_u 32 tx -> in_u 32 tprev ->
  vout !! Z.to_nat n = Some value -> in_s 64 value ->
  let tp := if negb (tprev =? 0) then tprev else tb in
  CheckStakeKernelHash Hash h params bits pprev fromHash tb off tprev vout n tx =
    if (tx <? tp) || (tx <? tb + nStakeMinAge params) then Some (false, None)
    else
      m ← GetKernelStakeModifier h params pprev fromHash tx;
      match m with
      | None => Some (false, None)
      | Some (modifier, _, _) =>
          let proof := Hash (kernel_message modifier tb off tp n tx) in
          let weight := Z.quot (Z.quot (value * (Z.min (tx - tp) (nStakeMaxAge params) - nStakeMinAge params)) COIN) 86400 in
          let target := (if Z.testbit bits 23 then -1 else 1) * Compact.compact_value bits in
          Some (le_val 8 proof <=? weight * target, Some proof)
      end.
Proof using HBN HHash.
  intros Hs Hb Htb Htx Htp Hv Hval tp. unfold CheckStakeKernelHash. fold tp.
  destruct (tx <? tp) eqn:E1; [done|]. destruct (tx <? tb + nStakeMinAge params) eqn:E2; [done|]. cbn [orb].
  rewrite Hv. cbn [mbind option_bind]. pose proof (sane_age _ Hs). cases_bool.
  assert (in_u 32 tp) as Htp' by (subst tp; case_if; done). unfold in_u in *.
  set (tw := Z.min (tx - tp) (nStakeMaxAge params) - nStakeMinAge params).
  destruct (coin_day_weight_spec value tw Hval) as (w & -> & Hw).
  { unfold in_s. change (2 ^ (64 - 1)) with (2 ^ 63). subst tw. lia. }
  cbn [mbind option_bind]. destruct (GetKernelStakeModifier h params pprev fromHash tx) as [[[[m ht] t]|]|];
    cbn [mbind option_bind]; try done.
  destruct (mul_val w (CBigNum.SetCompact bits)) as (bound & Hbd & Hbv). unfold CBigNum.mul. rewrite Hbd.
  cbn [mbind option_bind]. cbv zeta. set (proof := Hash _).
  assert (bn_val (CBigNum.of_uint256 proof) = le_val 8 proof) as Hpv by (apply CBigNum.setuint256_spec, HHash).
  unfold CBigNum.gtb. rewrite cmp_val, Hpv, Hbv, Hw, CBigNum.SetCompact_val by done.
  match goal with |- context [le_val 8 proof ?= ?x] => set (bd := x) end.
  unfold Z.leb. destruct (le_val 8 proof ?= bd); done.
Qed.

End kernel_check.

(** ** Supermajority *)

(** The proof-of-stake blocks from [p] down, latest first. *)
Fixpoint pos_blocks (h : heap) (fuel : nat) (p : option ptr) : list CBlockIndex :=
  match fuel, p with
  | S fuel', Some q => match h !! q with
      | Some b => if IsProofOfStake b then b :: pos_blocks h fuel' (pprev b) else pos_blocks h fuel' (pprev b)
      | None => [] end
  | _, _ => []
  end.

(** Blocks of at least the given version. *)
Definition voters (minVersion : Z) (l : list CBlockIndex) : Z :=
  length (filter (fun b => minVersion <= nVersion b) l).

Lemma voters_cons v b l : voters v (b :: l) = (if v <=? nVersion b then 1 else 0) + voters v l.
Proof.
  unfold voters. rewrite filter_cons. case_decide; case_if; simpl; lia.
Qed.

Lemma voters_nonneg v l : 0 <= voters v l.
Proof. unfold voters. lia. Qed.

Lemma HowSuperMajority_loop_spec (h : heap) fuel v p b R N i found :
  wf_index h -> h !! p = Some b -> (Z.to_nat (nHeight b) < fuel)%nat ->
  0 <= i <= N -> found <= R ->
  HowSuperMajority_loop h fuel v (Some p) R N i found =
    Some (Z.min R (found + voters v (take (Z.to_nat (N - i)) (pos_blocks h fuel (Some p))))).
Proof.
  intros Hwf. revert p b i found. induction fuel as [|fuel IH]; intros p b i found Hp Hf Hi Hfound; [lia|].
  cbn [HowSuperMajority_loop pos_blocks]. rewrite Hp. bind.
  pose proof (voters_nonneg v) as Hnn.
  destruct (i <? N) eqn:E1; cbn [andb]; cases_bool.
  2:{ replace (Z.to_nat (N - i)) with O by lia. rewrite take_0. change (voters v []) with 0. f_equal. lia. }
  destruct (found <? R) eqn:E2; cases_bool.
  2:{ f_equal. match goal with |- context [voters v ?l] => specialize (Hnn l) end. lia. }
  pose proof (wi_prev h Hwf p b Hp) as Hprev.
  assert (forall j f, 0 <= j <= N -> f <= R -> HowSuperMajority_loop h fuel v (pprev b) R N j f =
    Some (Z.min R (f + voters v (take (Z.to_nat (N - j)) (pos_blocks h fuel (pprev b)))))) as Hrest.
  { intros j f Hj Hfr. destruct (pprev b) as [q|].
    - destruct Hprev as (bq & Hq & Hh). pose proof (wi_height h Hwf q bq Hq). apply (IH q bq); [done|lia|done..].
    - replace (pos_blocks h fuel None) with ([] : list CBlockIndex) by (by destruct fuel).
      rewrite take_nil. change (voters v []) with 0. rewrite Z.add_0_r, Z.min_r by lia.
      destruct fuel; cbn [HowSuperMajority_loop]; by destruct (_ && _). }
  destruct (IsProofOfStake b); cbn [negb].
  - rewrite Hrest by (try case_if; lia). f_equal.
    replace (Z.to_nat (N - i)) with (S (Z.to_nat (N - (i + 1)))) by lia. cbn [take].
    rewrite voters_cons. case_if; f_equal; lia.
  - apply Hrest; lia.
Qed.

(** ** Contracts *)

(** Computing the next stake modifier never fails on a well-formed chain
    whose root has a modifier.  While no new interval has begun the last modifier
    is kept; otherwise the new one consists of the entropy bits of at most 64
    distinct ancestors of the previous block, one per round: the rounds never run
    out of unselected candidates. *)
Theorem ComputeNextStakeModifier_correct Hash (h : heap) index rnd params p bc pp bp :
  (forall l, Blob.wf 32 (Hash l)) -> wf_index h -> index_ok h index ->
  sane params -> hashes_wf h -> root_generated h ->
  h !! p = Some bc -> pprev bc = Some pp -> h !! pp = Some bp ->
  exists last t, GetLastStakeModifier h (Some pp) = Some (Some (last, t)) /\
    if modifier_due params bp bc t
    then exists picks, ComputeNextStakeModifier Hash rnd h index params p = Some (Some (entropy picks, true)) /\
           contributors h pp picks /\ in_u 64 (entropy picks)
    else ComputeNextStakeModifier Hash rnd h index params p = Some (Some (last, false)).
Proof.
  intros HH Hwf Hidx Hs Hh Hroot Hp Hpp Hbp.
  destruct (ComputeNextStakeModifier_spec Hash HH h Hwf index Hidx rnd params p bc pp bp Hs Hh Hroot Hp Hpp Hbp)
    as (last & t & Hl & Hr). exists last, t. split; [done|]. destruct (modifier_due params bp bc t); [|done].
  destruct Hr as (picks & He & Hc). exists picks. split_and!; [done..|].
  pose proof (entropy_range picks) as Hr. destruct Hc as [Hlen _].
  pose proof (Z.pow_le_mono_r 2 (length picks) 64 ltac:(lia) ltac:(lia)). unfold in_u. lia.
Qed.

(** C33: the stake modifier does not depend on the random shuffle that precedes
    the sort: the comparison is a total order on (time, hash) pairs, so every
    permutation of the candidates sorts to the same list. *)
Theorem ComputeNextStakeModifier_deterministic Hash (h : heap) index params p rnd1 rnd2 :
  hashes_wf h ->
  ComputeNextStakeModifier Hash rnd1 h index params p = ComputeNextStakeModifier Hash rnd2 h index params p.
Proof. apply ComputeNextStakeModifier_rand. Qed.

(** A selection round takes a candidate that no earlier round took, with
    the least selection hash among those up to the stop time; when all are later
    it takes one of the earliest time. *)
Theorem SelectBlockFromCandidates_correct Hash (h : heap) index v sel stop m :
  (forall l, Blob.wf 32 (Hash l)) ->
  Forall (fun a => exists p b, known h index a p b) v ->
  StronglySorted (fun a b : candidate => fst a <= fst b) v ->
  (exists a p b, a ∈ v /\ known h index a p b /\ fresh sel b) ->
  exists p b a, SelectBlockFromCandidates Hash h index v sel stop m = Some (Some p) /\ h !! p = Some b /\
    a ∈ v /\ known h index a p b /\ fresh sel b /\
    (forall a' p' b', a' ∈ v -> known h index a' p' b' -> fresh sel b' -> GetBlockTime b' <= stop ->
       sel_val Hash m b <= sel_val Hash m b') /\
    (GetBlockTime b <= stop \/
     forall a' p' b', a' ∈ v -> known h index a' p' b' -> fresh sel b' -> GetBlockTime b <= GetBlockTime b').
Proof. intros HH. apply (select_spec Hash HH). Qed.

(** The modifier a kernel is hashed with is the latest generated one below
    the previous block whose time is at least (minimum age minus selection
    interval) before the transaction; the lookup fails exactly when the previous
    block itself is that old or no such modifier exists. *)
Theorem GetKernelStakeModifier_correct (h : heap) params p b hashFrom nTimeTx :
  wf_index h -> sane params -> h !! p = Some b ->
  exists len r, GetStakeModifierSelectionInterval params = Some len /\
  GetKernelStakeModifier h params p hashFrom nTimeTx = Some r /\
  let slack := nStakeMinAge params - len in
  match r with
  | Some (m, ht, t) => nTimeTx < nTime b + slack /\
      exists q n bq, latest_old h slack nTimeTx p q n bq /\ m = nStakeModifier bq /\ ht = nHeight bq /\ t = nTime bq
  | None => nTime b + slack <= nTimeTx \/
      forall n q bq, (0 < n)%nat -> parent_n h n p = Some q -> h !! q = Some bq ->
        GeneratedStakeModifier bq = true -> nTimeTx < nTime bq + slack
  end.
Proof. intros Hwf Hs Hp. by apply GetKernelStakeModifierV05_spec. Qed.


(** [HowSuperMajority] counts the blocks of at least the given version
    among the last [nToCheck] proof-of-stake blocks, up to the required number. *)
Theorem HowSuperMajority_correct (h : heap) v p b R N :
  wf_index h -> h !! p = Some b -> 0 <= R -> 0 <= N ->
  HowSuperMajority h v (Some p) R N =
    Some (Z.min R (voters v (take (Z.to_nat N) (pos_blocks h (S (Z.to_nat (nHeight b))) (Some p))))).
Proof.
  intros Hwf Hp HR HN. unfold HowSuperMajority. rewrite Hp.
  rewrite (HowSuperMajority_loop_spec h _ v p b R N 0 0) by (done || lia). by rewrite Z.sub_0_r.
Qed.

(** ** Concrete instances *)

(** A chain of six blocks one day apart with modifiers at heights 0 and 2. *)
Definition day_block (i : nat) : ptr * CBlockIndex :=
  (Pos.of_succ_nat i,
   sample_entry (match i with O => None | S j => Some (Pos.of_succ_nat j) end) None i (100000 + 86400 * i)
     (if (i =? 0)%nat || (i =? 2)%nat then 6 else 1)).
Definition day_line : heap := list_to_map (map day_block (seq 0 6)).
Definition day_index : gmap (list Z) ptr := list_to_map (map (fun i => (GetBlockHash (day_block i).2, Pos.of_succ_nat i)) (seq 0 6)).
Definition sample_hash (l : list Z) : list Z := map u8 (take 32 (l ++ replicate 32 0)).

Lemma sample_hash_wf l : Blob.wf 32 (sample_hash l).
Proof.
  split; [unfold sample_hash; rewrite length_map, length_take, length_app, length_replicate; lia|].
  apply Forall_forall. intros x (y & -> & _)%list_elem_of_fmap. apply in_u_u8.
Qed.

Lemma day_line_wf : wf_index day_line.
Proof. apply wf_index_b_sound. vm_compute. reflexivity. Qed.

(** Checking a decidable fact of every entry. *)
Lemma heap_forall (h : heap) (P : ptr -> CBlockIndex -> bool) :
  forallb (fun '(p, b) => P p b) (map_to_list h) = true -> forall p b, h !! p = Some b -> P p b = true.
Proof.
  rewrite forallb_forall. intros Hf p b Hp.
  exact (Hf (p, b) (proj1 (list_elem_of_In _ _) (proj2 (elem_of_map_to_list _ _ _) Hp))).
Qed.

Definition hash_ok (p : ptr) (b : CBlockIndex) : bool :=
  (length (GetBlockHash b) =? 32)%nat && forallb (fun x => bool_decide (in_u 8 x)) (GetBlockHash b).
Definition indexed (p : ptr) (b : CBlockIndex) : bool := bool_decide (day_index !! GetBlockHash b = Some p).
Definition root_ok (p : ptr) (b : CBlockIndex) : bool :=
  match pprev b with None => GeneratedStakeModifier b | _ => true end.

Lemma day_hashes_wf : hashes_wf day_line.
Proof.
  intros p b Hp. pose proof (heap_forall day_line hash_ok ltac:(vm_compute; reflexivity) p b Hp) as Hb.
  apply andb_true_iff in Hb as [Hl Hd]. split; [by apply Nat.eqb_eq|].
  apply Forall_forall. intros x Hx. rewrite forallb_forall in Hd.
  apply (bool_decide_eq_true_1 (in_u 8 x)), Hd. by apply list_elem_of_In.
Qed.

Lemma day_index_ok : index_ok day_line day_index.
Proof.
  intros p b Hp. pose proof (heap_forall day_line indexed ltac:(vm_compute; reflexivity) p b Hp) as Hb.
  by apply bool_decide_eq_true in Hb.
Qed.

Lemma day_root_generated : root_generated day_line.
Proof.
  intros p b Hp Hn. pose proof (heap_forall day_line root_ok ltac:(vm_compute; reflexivity) p b Hp) as Hb.
  unfold root_ok in Hb. by rewrite Hn in Hb.
Qed.

Lemma ComputeNextStakeModifier_correct_witness :
  exists m, ComputeNextStakeModifier sample_hash (fun _ => O) day_line day_index CMainParams 6 = Some (Some (m, true)).
Proof.
  assert (day_line !! 6%positive = Some (day_block 5).2) as H6 by (vm_compute; reflexivity).
  assert (day_line !! 5%positive = Some (day_block 4).2) as H5 by (vm_compute; reflexivity).
  destruct (ComputeNextStakeModifier_correct sample_hash day_line day_index (fun _ => O) CMainParams 6 (day_block 5).2 5 (day_block 4).2
    sample_hash_wf day_line_wf day_index_ok main_sane day_hashes_wf day_root_generated H6 eq_refl H5)
    as (last & t & Hl & Hr).
  assert (GetLastStakeModifier day_line (Some 5%positive) = Some (Some (0, 272800))) as Hl' by (vm_compute; reflexivity).
  rewrite Hl' in Hl. injection Hl as <- <-.
  replace (modifier_due CMainParams (day_block 4).2 (day_block 5).2 272800) with true in Hr by (vm_compute; reflexivity).
  destruct Hr as (picks & He & _). exists (entropy picks). exact He.
Defined.

Lemma ComputeNextStakeModifier_deterministic_witness :
  ComputeNextStakeModifier sample_hash (fun _ => O) day_line day_index CMainParams 6 =
  ComputeNextStakeModifier sample_hash (fun i => Nat.div i 2) day_line day_index CMainParams 6.
Proof. exact (ComputeNextStakeModifier_deterministic sample_hash day_line day_index CMainParams 6 _ _ day_hashes_wf). Defined.

Lemma SelectBlockFromCandidates_correct_witness :
  exists p, SelectBlockFromCandidates sample_hash day_line day_index
    [(100000, replicate 32 0); (186400, replicate 32 1)] ∅ 150000 7 = Some (Some p).
Proof.
  destruct (SelectBlockFromCandidates_correct sample_hash day_line day_index
    [(100000, replicate 32 0); (186400, replicate 32 1)] ∅ 150000 7 sample_hash_wf) as (p & b & a & He & _).
  - repeat constructor; [exists 1%positive, (day_block 0).2|exists 2%positive, (day_block 1).2];
      repeat split; vm_compute; reflexivity.
  - repeat constructor; simpl; lia.
  - exists (100000, replicate 32 0), 1%positive, (day_block 0).2. split; [left|].
    repeat split; vm_compute; reflexivity.
  - exists p. exact He.
Defined.

Lemma GetKernelStakeModifier_correct_witness :
  exists len r, GetStakeModifierSelectionInterval CTestNetParams = Some len /\
    GetKernelStakeModifier day_line CTestNetParams 6 [] 400000 = Some r.
Proof.
  assert (day_line !! 6%positive = Some (day_block 5).2) as H6 by (vm_compute; reflexivity).
  destruct (GetKernelStakeModifier_correct day_line CTestNetParams 6 (day_block 5).2 [] 400000 day_line_wf test_sane H6)
    as (len & r & Hl & Hr & _). exists len, r. exact (conj Hl Hr).
Defined.


Lemma HowSuperMajority_correct_witness : HowSuperMajority day_line 4 (Some 6%positive) 2 10 = Some 2.
Proof.
  assert (day_line !! 6%positive = Some (day_block 5).2) as H6 by (vm_compute; reflexivity).
  rewrite (HowSuperMajority_correct day_line 4 6 (day_block 5).2 2 10 day_line_wf H6 ltac:(lia) ltac:(lia)).
  vm_compute. reflexivity.
Defined.

End KernelTheory.
