(* ===== verification/HashStream.v ===== *)
(** * Streaming hash contexts ([crypto/sha1.cpp], [crypto/sha256.cpp],
    [crypto/sha512.cpp], [crypto/ripemd160.cpp])

    The four block hashes share the shape of their context: a chaining state, a
    buffer of one block and a byte counter.  This file has the context, the two
    forms of [Write] the sources use, and the refinement theorem all of them
    rest on: whatever the split of a message into [Write] calls, the context
    represents the message, that is the chaining value of its complete blocks
    and the bytes of its last, incomplete block. *)
From stdpp Require Import prelude.
From S2P Require Import Prelude.

Record Ctx (St : Type) := mkCtx { s : St; buf : list Z; bytes : Z }.
Arguments mkCtx {St}. Arguments s {St}. Arguments buf {St}. Arguments bytes {St}.

(** [memcpy(buf + off, src, n)]. *)
Definition memcpy (dst : list Z) (off : nat) (src : list Z) (n : nat) : list Z :=
  take off dst ++ take n src ++ drop (off + n) dst.

Section Write.
Context {St : Type} (B : nat) (Transform : St -> list Z -> St).

(** The first conditional of [Write]: complete a partly filled buffer and
    process it.  The result has the context, the unread data and [bufsize]. *)
Definition fill_buffer (c : Ctx St) (data : list Z) : Ctx St * list Z * nat :=
  let bufsize := Z.to_nat (bytes c mod B) in
  if negb (bufsize =? 0)%nat && (B <=? bufsize + length data)%nat then
    let b := memcpy (buf c) bufsize data (B - bufsize) in
    (mkCtx (Transform (s c) b) b (u64 (bytes c + (B - bufsize))), drop (B - bufsize) data, 0%nat)
  else (c, data, bufsize).

(** [while (end - data >= B) { Transform(s, data); bytes += B; data += B; }]. *)
Fixpoint full_chunks (fuel : nat) (c : Ctx St) (data : list Z) : Ctx St * list Z :=
  match fuel with
  | O => (c, data)
  | S fuel' =>
      if (B <=? length data)%nat
      then full_chunks fuel' (mkCtx (Transform (s c) data) (buf c) (u64 (bytes c + B))) (drop B data)
      else (c, data)
  end.

(** The last conditional: keep what remains in the buffer. *)
Definition keep_rest (c : Ctx St) (data : list Z) (bufsize : nat) : Ctx St :=
  if (0 <? length data)%nat
  then mkCtx (s c) (memcpy (buf c) bufsize data (length data)) (u64 (bytes c + length data))
  else c.

(** [Write] of [CSHA1], [CRIPEMD160] and [CSHA512]. *)
Definition Write (c : Ctx St) (data : list Z) : Ctx St :=
  let '(c, data, bufsize) := fill_buffer c data in
  let '(c, data) := full_chunks (length data) c data in
  keep_rest c data bufsize.

(** A [Transform] over several blocks, [while (blocks--)]. *)
Fixpoint transform_blocks (blocks : nat) (st : St) (chunk : list Z) : St :=
  match blocks with
  | O => st
  | S blocks' => transform_blocks blocks' (Transform st chunk) (drop B chunk)
  end.

(** The complete blocks of a message, and its digest state. *)
Definition absorb (st : St) (msg : list Z) : St := transform_blocks (length msg / B) st msg.

(** The context [c] has absorbed [msg] from the chaining value [s0]. *)
Definition represents (s0 : St) (c : Ctx St) (msg : list Z) : Prop :=
  exists k dn rest, msg = dn ++ rest /\ length dn = (k * B)%nat /\ (length rest < B)%nat /\
    s c = transform_blocks k s0 dn /\ take (length rest) (buf c) = rest /\
    length (buf c) = B /\ bytes c = u64 (length msg).

(** ** Refinement *)

Hypothesis B_pos : (0 < B)%nat.
Hypothesis B_divides : (B | 2 ^ 64).
(** A transformation reads one block. *)
Hypothesis Transform_take : forall st chunk, (B <= length chunk)%nat ->
  Transform st (take B chunk) = Transform st chunk.

Lemma transform_blocks_app k st x y :
  length x = (k * B)%nat -> transform_blocks k st (x ++ y) = transform_blocks k st x.
Proof using B_pos Transform_take.
  revert st x. induction k as [|k IH]; intros st x Hx; simpl; [done|].
  simpl in Hx. rewrite <- (Transform_take st (x ++ y)) by (rewrite length_app; lia).
  rewrite <- (Transform_take st x) by lia. rewrite take_app_le, drop_app_le by lia.
  apply IH. rewrite length_drop. lia.
Qed.

Lemma transform_blocks_add j k st x :
  transform_blocks (j + k) st x = transform_blocks k (transform_blocks j st x) (drop (j * B) x).
Proof.
  revert st x. induction j as [|j IH]; intros st x; simpl; [done|]. rewrite IH, drop_drop. do 2 f_equal.
Qed.

Lemma transform_blocks_split j k st x y :
  length x = (j * B)%nat ->
  transform_blocks (j + k) st (x ++ y) = transform_blocks k (transform_blocks j st x) y.
Proof using B_pos Transform_take.
  intros Hx. by rewrite transform_blocks_add, transform_blocks_app, <- Hx, drop_app_length.
Qed.

Lemma length_memcpy dst off src n :
  (off + n <= length dst)%nat -> (n <= length src)%nat -> length (memcpy dst off src n) = length dst.
Proof. intros. unfold memcpy. rewrite !length_app, !length_take, length_drop. lia. Qed.

Lemma take_memcpy dst off src n :
  (off + n <= length dst)%nat -> (n <= length src)%nat ->
  take (off + n) (memcpy dst off src n) = take off dst ++ take n src.
Proof.
  intros. unfold memcpy. rewrite app_assoc, take_app_length'; [done|].
  rewrite length_app, !length_take. lia.
Qed.

(** The counter modulo the block size survives its wrap-around. *)
Lemma u64_mod_block (n : nat) : u64 n mod B = (n mod B)%nat.
Proof using B_pos B_divides.
  unfold u64, uwrap. destruct B_divides as [q Hq]. rewrite Nat2Z.inj_mod.
  rewrite Hq, Z.mul_comm, Z.rem_mul_r by nia.
  rewrite (Z.mul_comm B), Z.mod_add, Z.mod_mod by lia. done.
Qed.

Lemma u64_add_l x y : u64 (u64 x + y) = u64 (x + y).
Proof. unfold u64, uwrap. by rewrite Zplus_mod_idemp_l. Qed.

Lemma represents_bufsize s0 c msg k dn rest :
  msg = dn ++ rest -> length dn = (k * B)%nat -> (length rest < B)%nat ->
  bytes c = u64 (length msg) -> represents s0 c msg -> Z.to_nat (bytes c mod B) = length rest.
Proof using B_pos B_divides.
  intros -> Hd Hr Hb _. rewrite Hb, u64_mod_block, length_app, Hd, Nat2Z.id.
  rewrite Nat.add_comm, Nat.Div0.mod_add. apply Nat.mod_small. done.
Qed.

(** What [fill_buffer] leaves: either an empty buffer, or the old context with
    data that does not complete a block. *)
Lemma fill_buffer_spec s0 c msg data :
  represents s0 c msg ->
  let '(c', data', bufsize) := fill_buffer c data in
  exists msg', msg' ++ data' = msg ++ data /\ represents s0 c' msg' /\
    bufsize = Z.to_nat (bytes c' mod B) /\ (bufsize = 0 \/ bufsize + length data' < B)%nat.
Proof using All.
  intros Hrep. pose proof Hrep as (k & dn & rest & Hm & Hd & Hr & Hs & Hbuf & Hlb & Hby).
  pose proof (represents_bufsize _ _ _ _ _ _ Hm Hd Hr Hby Hrep) as Hbs.
  unfold fill_buffer. rewrite Hbs. case_if.
  2:{ exists msg. split_and!; [done|done|done|]. apply andb_false_iff in E as [E|E]; cases_bool; lia. }
  set (n := (B - length rest)%nat).
  assert (memcpy (buf c) (length rest) data n = rest ++ take n data) as Hblk.
  { rewrite <- (take_ge (memcpy _ _ _ _) (length rest + n)) by (rewrite length_memcpy; lia).
    rewrite take_memcpy by lia. by rewrite Hbuf. }
  exists (msg ++ take n data). split; [by rewrite <- app_assoc, take_drop|].
  assert (length (rest ++ take n data) = B) as Hlen by (rewrite length_app, length_take; lia).
  assert (bytes c + (B - length rest) = bytes c + n) as En by lia.
  assert (represents s0 (mkCtx (Transform (s c) (memcpy (buf c) (length rest) data n))
    (memcpy (buf c) (length rest) data n) (u64 (bytes c + (B - length rest)))) (msg ++ take n data)) as Hnew.
  { exists (k + 1)%nat, (dn ++ rest ++ take n data), []. simpl. rewrite Hblk. split_and!.
    - subst msg. by rewrite app_nil_r, app_assoc.
    - rewrite length_app, Hd, Hlen. lia.
    - lia.
    - rewrite (transform_blocks_split k 1) by done. by rewrite Hs.
    - done.
    - done.
    - rewrite En, Hby, u64_add_l, length_app, length_take. f_equal. lia. }
  split_and!; [exact Hnew| |by left].
  rewrite (represents_bufsize s0 _ (msg ++ take n data) (k + 1) (dn ++ rest ++ take n data) []); try done.
  - by rewrite Hm, app_nil_r, app_assoc.
  - rewrite length_app, Hd, Hlen. lia.
  - simpl. rewrite En, Hby, u64_add_l, length_app, length_take. f_equal. lia.
Qed.

(** From an empty buffer the loop takes the complete blocks of the data. *)
Lemma full_chunks_spec fuel s0 c msg data :
  represents s0 c msg -> (length msg mod B = 0)%nat -> (length data <= fuel)%nat ->
  let '(c', data') := full_chunks fuel c data in
  exists msg', msg' ++ data' = msg ++ data /\ represents s0 c' msg' /\
    (length msg' mod B = 0)%nat /\ (length data' < B)%nat.
Proof using All.
  revert c msg data. induction fuel as [|fuel IH]; intros c msg data Hrep Hmod Hf; simpl.
  { exists msg. split_and!; [done..|lia]. }
  case_if; [|exists msg; split_and!; [done..|lia]].
  destruct Hrep as (k & dn & rest & Hm & Hd & Hr & Hs & Hbuf & Hlb & Hby).
  assert (rest = []) as ->.
  { rewrite Hm, length_app, Hd, Nat.add_comm, Nat.Div0.mod_add, Nat.mod_small in Hmod by done. by destruct rest. }
  rewrite app_nil_r in Hm. subst dn.
  specialize (IH (mkCtx (Transform (s c) data) (buf c) (u64 (bytes c + B))) (msg ++ take B data) (drop B data)).
  rewrite <- app_assoc, take_drop in IH. apply IH; clear IH.
  - exists (k + 1)%nat, (msg ++ take B data), []. simpl. split_and!; try done.
    + by rewrite app_nil_r.
    + rewrite length_app, length_take. lia.
    + rewrite (transform_blocks_split k 1) by done. simpl. by rewrite Transform_take, Hs by lia.
    + rewrite Hby, u64_add_l, length_app, length_take. f_equal. lia.
  - rewrite length_app, length_take, Nat.min_l, Hd by lia.
    replace (k * B + B)%nat with ((k + 1) * B)%nat by lia. apply Nat.Div0.mod_mul.
  - rewrite length_drop. lia.
Qed.

(** The rest of the data fits in the buffer. *)
Lemma keep_rest_spec s0 c msg data bufsize :
  represents s0 c msg -> bufsize = Z.to_nat (bytes c mod B) -> (bufsize + length data < B)%nat ->
  represents s0 (keep_rest c data bufsize) (msg ++ data).
Proof using All.
  intros Hrep Hbs Hfit. pose proof Hrep as (k & dn & rest & Hm & Hd & Hr & Hs & Hbuf & Hlb & Hby).
  rewrite (represents_bufsize _ _ _ _ _ _ Hm Hd Hr Hby Hrep) in Hbs. subst bufsize.
  unfold keep_rest. case_if.
  2:{ destruct data; [|simpl in *; lia]. by rewrite app_nil_r. }
  exists k, dn, (rest ++ data). simpl. split_and!.
  - by rewrite Hm, app_assoc.
  - done.
  - rewrite length_app. lia.
  - done.
  - rewrite length_app, take_memcpy by lia. by rewrite Hbuf, take_ge.
  - rewrite length_memcpy; lia.
  - rewrite Hby, u64_add_l, length_app. f_equal. lia.
Qed.

Lemma Write_represents s0 c msg data :
  represents s0 c msg -> represents s0 (Write c data) (msg ++ data).
Proof using All.
  intros Hrep. unfold Write. pose proof (fill_buffer_spec s0 c msg data Hrep) as Hfill.
  destruct (fill_buffer c data) as [[c1 d1] bs]. destruct Hfill as (m1 & E1 & H1 & Hbs & Hcase).
  rewrite <- E1. destruct (decide (bs = 0)%nat) as [Hz|Hz].
  - assert (length m1 mod B = 0)%nat as Hm1.
    { destruct H1 as (k & dn & rest & Hm & Hd & Hr & Hs & Hbuf & Hlb & Hby).
      rewrite Hby, u64_mod_block, Nat2Z.id in Hbs. lia. }
    pose proof (full_chunks_spec (length d1) s0 c1 m1 d1 H1 Hm1 ltac:(lia)) as Hfull.
    destruct (full_chunks _ c1 d1) as [c2 d2]. destruct Hfull as (m2 & E2 & H2 & Hmod & Hlt).
    rewrite <- E2. apply keep_rest_spec; [done| |lia]. subst bs.
    destruct H2 as (k & dn & rest & Hm & Hd & Hr & Hs & Hbuf & Hlb & Hby).
    by rewrite Hby, u64_mod_block, Nat2Z.id, Hmod.
  - assert (full_chunks (length d1) c1 d1 = (c1, d1)) as ->.
    { destruct (length d1) as [|n] eqn:En; simpl; [done|]. case_if; [lia|done]. }
    apply keep_rest_spec; [done|done|lia].
Qed.

(** The loop over complete blocks in one call. *)
Lemma full_chunks_blocks fuel c data :
  (length data <= fuel)%nat ->
  full_chunks fuel c data =
    if (B <=? length data)%nat
    then (mkCtx (transform_blocks (length data / B) (s c) data) (buf c) (u64 (bytes c + B * (length data / B)%nat)),
          drop (B * (length data / B)) data)
    else (c, data).
Proof using B_pos.
  revert c data. induction fuel as [|fuel IH]; intros c data Hf; simpl.
  { case_if; [lia|done]. }
  case_if; [|done]. rewrite IH by (rewrite length_drop; lia). rewrite length_drop.
  assert (length data / B = S ((length data - B) / B))%nat as ->.
  { replace (length data) with (1 * B + (length data - B))%nat at 1 by lia. rewrite Nat.div_add_l by lia. done. }
  simpl. case_if.
  - rewrite u64_add_l, drop_drop. f_equal; [f_equal; f_equal|f_equal]; lia.
  - rewrite (Nat.div_small (length data - B)) by lia. simpl. f_equal; [f_equal; f_equal|f_equal]; lia.
Qed.

(** A context whose buffer is empty holds the digest of its message. *)
Lemma represents_absorb s0 c msg :
  represents s0 c msg -> (length msg mod B = 0)%nat -> s c = absorb s0 msg.
Proof using B_pos.
  intros (k & dn & rest & Hm & Hd & Hr & Hs & _) Hmod.
  assert (rest = []) as ->.
  { rewrite Hm, length_app, Hd, Nat.add_comm, Nat.Div0.mod_add, Nat.mod_small in Hmod by done. by destruct rest. }
  rewrite app_nil_r in Hm. subst dn. unfold absorb. by rewrite Hd, Nat.div_mul, Hs by lia.
Qed.

Lemma represents_nil s0 b : length b = B -> represents s0 (mkCtx s0 b 0) [].
Proof using B_pos. intros Hb. by exists 0%nat, [], []. Qed.

End Write.
