(* ===== verification/Fips180.v ===== *)
(** * The SHA-2 reference (FIPS 180-4)

    A direct transcription of the standard for the two word sizes the sources
    use, 32 bits for SHA-256 and 64 bits for SHA-512: the functions of section
    4.1, the constants as what the standard says they are (fractional parts of
    square and cube roots of the first primes), padding, message schedule,
    compression and digest.  The implementations are compared with it. *)
From stdpp Require Import prelude.
From S2P Require Import Prelude.

Module FIPS.

(** The word size, the number of rounds and the rotation counts. *)
Record sha2 := {
  width : Z; rounds : nat;
  bigsigma0 : Z * Z * Z; bigsigma1 : Z * Z * Z;      (* three rotations *)
  smallsigma0 : Z * Z * Z; smallsigma1 : Z * Z * Z   (* two rotations and a shift *)
}.

Definition sha256 : sha2 := {|
  width := 32; rounds := 64;
  bigsigma0 := (2, 13, 22); bigsigma1 := (6, 11, 25);
  smallsigma0 := (7, 18, 3); smallsigma1 := (17, 19, 10) |}.

Definition sha512 : sha2 := {|
  width := 64; rounds := 80;
  bigsigma0 := (28, 34, 39); bigsigma1 := (14, 18, 41);
  smallsigma0 := (1, 8, 7); smallsigma1 := (19, 61, 6) |}.

(** ** Constants *)

Definition is_prime (n : nat) : bool := forallb (fun d => negb (n mod d =? 0)%nat) (seq 2 (n - 2)).
Definition primes (n : nat) : list Z := take n (map Z.of_nat (List.filter is_prime (seq 2 410))).

(** The integer cube root, one binary digit at a time. *)
Fixpoint icbrt_digits (n : nat) (x r : Z) : Z :=
  match n with
  | O => r
  | S n' => icbrt_digits n' x (if (r + 2 ^ n') ^ 3 <=? x then r + 2 ^ n' else r)
  end.
Definition icbrt (x : Z) : Z := icbrt_digits 80 x 0.

Section Sha2.
Context (p : sha2).
#[local] Abbreviation w := (width p).

(** The first [w] bits of the fractional part of the square (cube) root. *)
Definition sqrt_frac (q : Z) : Z := Z.sqrt (q * 2 ^ (2 * w)) mod 2 ^ w.
Definition cbrt_frac (q : Z) : Z := icbrt (q * 2 ^ (3 * w)) mod 2 ^ w.
Definition H0 : list Z := map sqrt_frac (primes 8).
Definition K : list Z := map cbrt_frac (primes (rounds p)).

(** ** Functions *)

Definition ROTR (n x : Z) : Z := Z.lor (x ≫ n) ((x ≪ (w - n)) mod 2 ^ w).
Definition SHR (n x : Z) : Z := x ≫ n.
Definition Ch (x y z : Z) : Z := Z.lxor (Z.land x y) (Z.land (Z.lnot x) z).
Definition Maj (x y z : Z) : Z := Z.lxor (Z.lxor (Z.land x y) (Z.land x z)) (Z.land y z).
Definition Sigma '(r1, r2, r3) (x : Z) : Z := Z.lxor (Z.lxor (ROTR r1 x) (ROTR r2 x)) (ROTR r3 x).
Definition sigma '(r1, r2, r3) (x : Z) : Z := Z.lxor (Z.lxor (ROTR r1 x) (ROTR r2 x)) (SHR r3 x).

(** ** Compression *)

(** The message schedule, extended one word at a time: [W_t] from the words
    2, 7, 15 and 16 places back. *)
Definition next_word (W : list Z) : Z :=
  let t := length W in
  (sigma (smallsigma1 p) W.[t - 2] + W.[t - 7] + sigma (smallsigma0 p) W.[t - 15] + W.[t - 16]) mod 2 ^ w.
Fixpoint schedule (n : nat) (W : list Z) : list Z :=
  match n with
  | O => W
  | S n' => schedule n' (W ++ [next_word W])
  end.

Definition step (st : list Z) (kw : Z) : list Z :=
  match st with
  | [a; b; c; d; e; f; g; h] =>
      let T1 := h + Sigma (bigsigma1 p) e + Ch e f g + kw in
      let T2 := Sigma (bigsigma0 p) a + Maj a b c in
      [(T1 + T2) mod 2 ^ w; a; b; c; (d + T1) mod 2 ^ w; e; f; g]
  | _ => st
  end.

(** The big-endian words of a block, of [w/8] bytes each. *)
Definition block_words (M : list Z) : list Z :=
  map (fun i => le_val 8 (rev (take (Z.to_nat (w / 8)) (drop (i * Z.to_nat (w / 8)) M)))) (seq 0 16).

Definition compress (H M : list Z) : list Z :=
  let W := schedule (rounds p - 16) (block_words M) in
  zip_with (fun x y => (x + y) mod 2 ^ w) H (foldl step H (zip_with Z.add K W)).

(** ** Padding and digest *)

Definition block_size : nat := Z.to_nat (2 * w).
(** The length field has two words. *)
Definition length_size : nat := Z.to_nat (w / 4).
Definition pad_zeros (n : nat) : nat := Z.to_nat ((block_size - length_size - 1 - n) mod block_size).
Definition pad (n : nat) : list Z :=
  [0x80] ++ replicate (pad_zeros n) 0 ++ rev (le_digits 8 length_size (8 * n)).

Fixpoint compress_blocks (n : nat) (H M : list Z) : list Z :=
  match n with
  | O => H
  | S n' => compress_blocks n' (compress H (take block_size M)) (drop block_size M)
  end.

Definition digest (M : list Z) : list Z :=
  let M := M ++ pad (length M) in
  concat (map (fun x => rev (le_digits 8 (Z.to_nat (w / 8)) x))
    (compress_blocks (length M / block_size) H0 M)).

End Sha2.

(** ** The cube root and the padding are what they should be *)

Lemma icbrt_digits_spec (n : nat) x r :
  0 <= r -> r ^ 3 <= x < (r + 2 ^ n) ^ 3 ->
  let q := icbrt_digits n x r in 0 <= q /\ q ^ 3 <= x < (q + 1) ^ 3.
Proof.
  revert r. induction n as [|n IH]; intros r Hr Hx; simpl; [done|].
  pose proof (pow2_pos n ltac:(lia)).
  assert (2 ^ S n = 2 ^ n + 2 ^ n) as E by (rewrite Nat2Z.inj_succ, Z.pow_succ_r; lia).
  apply IH; case_if; try lia; split; try lia.
Qed.

Lemma icbrt_spec x : 0 <= x < 2 ^ 240 -> 0 <= icbrt x /\ icbrt x ^ 3 <= x < (icbrt x + 1) ^ 3.
Proof.
  intros Hx. pose proof (icbrt_digits_spec 80 x 0) as Hs.
  replace ((0 + 2 ^ 80%nat) ^ 3) with (2 ^ 240) in Hs by (vm_compute; reflexivity).
  apply Hs; lia.
Qed.

(** Padding completes the last block with the fewest zeros. *)
Lemma pad_spec p (n : nat) :
  width p = 32 \/ width p = 64 ->
  ((n + length (pad p n)) mod block_size p = 0)%nat /\ (pad_zeros p n < block_size p)%nat.
Proof.
  intros Hw. unfold pad. rewrite !length_app, length_replicate, length_rev, le_digits_length.
  unfold pad_zeros, block_size, length_size.
  destruct Hw as [-> | ->].
  - change (Z.to_nat (2 * 32)) with 64%nat. change (Z.to_nat (32 / 4)) with 8%nat. cbn [length].
    change (Z.of_nat 64) with 64. change (Z.of_nat 8) with 8. pose proof (Z.mod_pos_bound (64 - 8 - 1 - n) 64). split; [|lia].
    apply Nat2Z.inj. rewrite Nat2Z.inj_mod, !Nat2Z.inj_add, Z2Nat.id by lia. change (Z.of_nat 64) with 64.
    Z.to_euclidean_division_equations. lia.
  - change (Z.to_nat (2 * 64)) with 128%nat. change (Z.to_nat (64 / 4)) with 16%nat. cbn [length].
    change (Z.of_nat 128) with 128. change (Z.of_nat 16) with 16. pose proof (Z.mod_pos_bound (128 - 16 - 1 - n) 128). split; [|lia].
    apply Nat2Z.inj. rewrite Nat2Z.inj_mod, !Nat2Z.inj_add, Z2Nat.id by lia. change (Z.of_nat 128) with 128.
    Z.to_euclidean_division_equations. lia.
Qed.

Lemma schedule_length p n W : length (schedule p n W) = (n + length W)%nat.
Proof. revert W. induction n as [|n IH]; intros W; simpl; [done|]. rewrite IH, length_app. simpl. lia. Qed.

(** The words of the prefix are unchanged, and each later word satisfies the
    recurrence of the standard. *)
Lemma schedule_prefix p n W t : (t < length W)%nat -> (schedule p n W).[t] = W.[t].
Proof.
  revert W. induction n as [|n IH]; intros W Ht; simpl; [done|].
  rewrite IH by (rewrite length_app; lia). by rewrite app_nth1.
Qed.

Lemma schedule_next p n W t :
  (16 <= length W)%nat -> (length W <= t < n + length W)%nat ->
  let w := schedule p n W in
  w.[t] = (sigma p (smallsigma1 p) w.[t - 2] + w.[t - 7] + sigma p (smallsigma0 p) w.[t - 15] + w.[t - 16])
            mod 2 ^ width p.
Proof.
  revert W. induction n as [|n IH]; intros W HW Ht; cbv zeta; simpl; [lia|].
  destruct (decide (t = length W)) as [->|].
  - rewrite schedule_prefix by (rewrite length_app; simpl; lia).
    rewrite app_nth2, Nat.sub_diag by lia. cbn [nth]. unfold next_word.
    rewrite !schedule_prefix by (rewrite length_app; simpl; lia).
    by rewrite !app_nth1 by lia.
  - apply IH; rewrite length_app; simpl; lia.
Qed.

End FIPS.
