(* ===== verification/Sha2Lines.v ===== *)
(** * Unrolled SHA-2 code

    The compression functions of [crypto/sha256.cpp] and [crypto/sha512.cpp]
    are straight lines of calls [Round(r0, ..., r7, k)] over eight state
    variables, in which the last argument may also assign one of the sixteen
    schedule variables [w0 ... w15].  This file has the lines as data, their
    execution, and a checker: a list of lines that passes it computes the
    rounds of the standard.  Its soundness is proved once and serves every
    unrolled function, including the ones specialised to constant blocks. *)
From stdpp Require Import prelude.
From S2P Require Import Prelude Fips180.

(** ** Lines *)

(** Sums over the schedule variables: [wi], [sigma0(wi)], [sigma1(wi)],
    constants. *)
Inductive term :=
  | Wd (i : nat) | Sg0 (i : nat) | Sg1 (i : nat) | Cst (c : Z) | Plus (x y : term).

(** The last argument of a round. *)
Inductive karg :=
  | Const (k : Z)                   (* k *)
  | Load (k : Z) (i off : nat)      (* k + (wi = ReadBE(chunk + off)) *)
  | Assign (k : Z) (i : nat) (t : term)   (* k + (wi = t) *)
  | Incr (k : Z) (i : nat) (t : term)     (* k + (wi += t) *)
  | Use (k : Z) (t : term).         (* k + t *)

(** The positions of the eight state variables, and the last argument. *)
Definition line : Type := list nat * karg.

Section Exec.
Context (w : Z) (sigma0 sigma1 : Z -> Z) (load : list Z -> nat -> Z).
(** The round function: the new values of its fourth and eighth argument.  The
    last arguments are the constant and the word added to it, if any. *)
Context (Round : Z -> Z -> Z -> Z -> Z -> Z -> Z -> Z -> Z -> option Z -> Z * Z).

Fixpoint eval_term (ws : list Z) (t : term) : Z :=
  match t with
  | Wd i => ws.[i]
  | Sg0 i => sigma0 ws.[i]
  | Sg1 i => sigma1 ws.[i]
  | Cst c => c
  | Plus x y => uwrap w (eval_term ws x + eval_term ws y)
  end.

Definition eval_arg (chunk ws : list Z) (a : karg) : Z * option Z * list Z :=
  match a with
  | Const k => (k, None, ws)
  | Load k i off => let x := load chunk off in (k, Some x, <[i := x]> ws)
  | Assign k i t => let x := uwrap w (eval_term ws t) in (k, Some x, <[i := x]> ws)
  | Incr k i t => let x := uwrap w (ws.[i] + eval_term ws t) in (k, Some x, <[i := x]> ws)
  | Use k t => (k, Some (eval_term ws t), ws)
  end.

Definition exec_line (chunk : list Z) (st : list Z * list Z) (l : line) : list Z * list Z :=
  let '(v, ws) := st in
  let '(k, x, ws) := eval_arg chunk ws l.2 in
  match l.1 with
  | [a; b; c; d; e; f; g; h] =>
      let '(d', h') := Round v.[a] v.[b] v.[c] v.[d] v.[e] v.[f] v.[g] v.[h] k x in
      (<[h := h']> (<[d := d']> v), ws)
  | _ => (v, ws)
  end.

Definition exec (chunk : list Z) (ls : list line) (st : list Z * list Z) : list Z * list Z :=
  foldl (exec_line chunk) st ls.

End Exec.

(** ** The checker *)

(** An atom of a symbolic sum, over the indices of the message schedule. *)
Inductive atom := AW (t : nat) | A0 (t : nat) | A1 (t : nat).
#[export] Instance atom_eq_dec : EqDecision atom.
Proof. solve_decision. Defined.
Definition sym : Type := list atom * Z.
Definition sym_add (x y : sym) : sym := (x.1 ++ y.1, x.2 + y.2).

Fixpoint remove_atom (x : atom) (l : list atom) : option (list atom) :=
  match l with
  | [] => None
  | y :: r => if decide (x = y) then Some r else cons y <$> remove_atom x r
  end.

Fixpoint same_atoms (l1 l2 : list atom) : bool :=
  match l1 with
  | [] => match l2 with [] => true | _ => false end
  | x :: r => match remove_atom x l2 with Some l2' => same_atoms r l2' | None => false end
  end.

(** The variables of round [i]: the eight names rotated by [i]. *)
Definition rot (i j : nat) : nat := ((j + 7 * i) mod 8)%nat.

Section Check.
Context (w : Z) (wb : nat) (sigma0 sigma1 : Z -> Z).
(** The schedule words known in advance. *)
Context (known : nat -> option Z) (Ks : list Z) (loads : bool).

Definition sym_W (t : nat) : sym := match known t with Some c => ([], c) | None => ([AW t], 0) end.
Definition sym_0 (t : nat) : sym := match known t with Some c => ([], sigma0 c) | None => ([A0 t], 0) end.
Definition sym_1 (t : nat) : sym := match known t with Some c => ([], sigma1 c) | None => ([A1 t], 0) end.

(** [slots] says which schedule word each variable holds. *)
Fixpoint sym_term (slots : list (option nat)) (x : term) : option sym :=
  match x with
  | Wd i => sym_W <$> mjoin (slots !! i)
  | Sg0 i => sym_0 <$> mjoin (slots !! i)
  | Sg1 i => sym_1 <$> mjoin (slots !! i)
  | Cst c => Some ([], c)
  | Plus x y => sx ← sym_term slots x; sy ← sym_term slots y; Some (sym_add sx sy)
  end.

Definition expected (t : nat) : sym :=
  if (t <? 16)%nat then sym_W t
  else match known t with
  | Some c => ([], c)
  | None => sym_add (sym_add (sym_add (sym_1 (t - 2)) (sym_W (t - 7))) (sym_0 (t - 15))) (sym_W (t - 16))
  end.

Definition sym_eqb (x y : sym) : bool := same_atoms x.1 y.1 && (x.2 mod 2 ^ w =? y.2 mod 2 ^ w).
Definition is_expected (t : nat) (x : option sym) : bool :=
  match x with Some x => sym_eqb x (expected t) | None => false end.

(** Checking the last argument of round [t]; the result is the new slots. *)
Definition check_arg (t : nat) (slots : list (option nat)) (a : karg) : option (list (option nat)) :=
  match a with
  | Const k =>
      if sym_eqb ([], k - Ks.[t]) (expected t) then Some slots else None
  | Load k i off =>
      if loads && (k =? Ks.[t]) && (t <? 16)%nat && (off =? t * wb)%nat && (i <? length slots)%nat
      then Some (<[i := Some t]> slots) else None
  | Assign k i x =>
      if (k =? Ks.[t]) && (16 <=? t)%nat && is_expected t (sym_term slots x) && (i <? length slots)%nat
      then Some (<[i := Some t]> slots) else None
  | Incr k i x =>
      if (k =? Ks.[t]) && (16 <=? t)%nat && is_expected t (sym_term slots (Plus (Wd i) x)) && (i <? length slots)%nat
      then Some (<[i := Some t]> slots) else None
  | Use k x =>
      if (k =? Ks.[t]) && is_expected t (sym_term slots x) then Some slots else None
  end.

Fixpoint check (t : nat) (slots : list (option nat)) (ls : list line) : bool :=
  match ls with
  | [] => true
  | (regs, a) :: r =>
      bool_decide (regs = map (rot t) (seq 0 8)) &&
      match check_arg t slots a with Some slots' => check (S t) slots' r | None => false end
  end.

End Check.

(** ** Soundness *)

Lemma remove_atom_perm x l l' : remove_atom x l = Some l' -> l ≡ₚ x :: l'.
Proof.
  revert l'. induction l as [|y l IH]; intros l' H; simpl in H; [done|].
  destruct (decide (x = y)) as [->|]; [by simplify_eq|].
  destruct (remove_atom x l) as [l''|]; simplify_eq/=. rewrite (IH l'') by done. constructor.
Qed.

Lemma same_atoms_perm l1 l2 : same_atoms l1 l2 = true -> l1 ≡ₚ l2.
Proof.
  revert l2. induction l1 as [|x l1 IH]; intros l2 H; simpl in H; [by destruct l2|].
  destruct (remove_atom x l2) as [l'|] eqn:E; [|done]. rewrite (remove_atom_perm _ _ _ E). by rewrite (IH l').
Qed.

(** Execution only looks at the chunk through its loads, and keeps the number
    of variables. *)
Section Frame.
Context (w : Z) (sigma0 sigma1 : Z -> Z) (load : list Z -> nat -> Z).
Context (Round : Z -> Z -> Z -> Z -> Z -> Z -> Z -> Z -> Z -> option Z -> Z * Z).

Definition loads_within (n : nat) (l : line) : bool :=
  match l.2 with Load _ _ off => (off <=? n)%nat | _ => true end.

Lemma exec_chunk_ext n c1 c2 ls st :
  forallb (loads_within n) ls = true -> (forall off, (off <= n)%nat -> load c1 off = load c2 off) ->
  exec w sigma0 sigma1 load Round c1 ls st = exec w sigma0 sigma1 load Round c2 ls st.
Proof.
  intros Hls Hc. revert st. induction ls as [|[regs a] ls IH]; intros st; [done|].
  cbn [forallb] in Hls. apply andb_true_iff in Hls as [Ha Hls]. unfold exec. cbn [foldl].
  replace (exec_line w sigma0 sigma1 load Round c1 st (regs, a))
    with (exec_line w sigma0 sigma1 load Round c2 st (regs, a)); [by apply IH|].
  destruct st as [v ws]. unfold exec_line. destruct a; try done.
  unfold loads_within in Ha. cbn in Ha. cases_bool. cbn. by rewrite Hc.
Qed.

Lemma exec_words_length c ls st : length (exec w sigma0 sigma1 load Round c ls st).2 = length st.2.
Proof.
  revert st. induction ls as [|[regs a] ls IH]; intros [v ws]; [done|].
  unfold exec in *. cbn [foldl]. rewrite IH.
  unfold exec_line. cbn [fst snd].
  assert (length (eval_arg w sigma0 sigma1 load c ws a).2 = length ws) as Hl.
  { destruct a; cbn; rewrite ?length_insert; done. }
  destruct (eval_arg _ _ _ _ _ _ a) as [[k x] ws']. cbn in Hl.
  destruct regs as [|r0 [|r1 [|r2 [|r3 [|r4 [|r5 [|r6 [|r7 [|]]]]]]]]]; try done.
  by destruct (Round _ _ _ _ _ _ _ _ _ _).
Qed.

End Frame.

Section Sound.
Context (p : FIPS.sha2) (n wb : nat) (loads : bool).
#[local] Abbreviation w := (FIPS.width p).
#[local] Abbreviation sigma0 := (FIPS.sigma p (FIPS.smallsigma0 p)).
#[local] Abbreviation sigma1 := (FIPS.sigma p (FIPS.smallsigma1 p)).
Context (load : list Z -> nat -> Z) (chunk W Ks : list Z) (known : nat -> option Z).
Context (Round : Z -> Z -> Z -> Z -> Z -> Z -> Z -> Z -> Z -> option Z -> Z * Z).
Hypothesis w_pos : 0 < w.
(** The round function is a round of the standard. *)
Hypothesis Round_spec : forall a b c d e f g h k x,
  let T1 := h + FIPS.Sigma p (FIPS.bigsigma1 p) e + FIPS.Ch e f g + (k + default 0 x) in
  Round a b c d e f g h k x =
    (uwrap w (d + T1), uwrap w (T1 + (FIPS.Sigma p (FIPS.bigsigma0 p) a + FIPS.Maj a b c))).
(** [W] is a message schedule, of the block that is loaded. *)
Hypothesis W_next : forall t, (16 <= t < n)%nat ->
  W.[t] = (sigma1 W.[t - 2] + W.[t - 7] + sigma0 W.[t - 15] + W.[t - 16]) mod 2 ^ w.
Hypothesis W_known : forall t c, (t < n)%nat -> known t = Some c -> W.[t] = c.
Hypothesis W_load : loads = true -> forall t : nat, (t < 16)%nat -> load chunk (t * wb) = W.[t].

Definition den_atom (a : atom) : Z :=
  match a with AW t => W.[t] | A0 t => sigma0 W.[t] | A1 t => sigma1 W.[t] end.
Definition den (x : sym) : Z := foldr (fun a z => den_atom a + z) x.2 x.1.

Lemma den_app l1 l2 c1 c2 : den (l1 ++ l2, c1 + c2) = den (l1, c1) + den (l2, c2).
Proof.
  unfold den. simpl. induction l1 as [|a l1 IH]; simpl; [|lia].
  induction l2 as [|a l2 IH]; simpl; lia.
Qed.

Lemma den_add x y : den (sym_add x y) = den x + den y.
Proof. unfold sym_add. rewrite den_app. by destruct x, y. Qed.

Lemma den_const l c : den (l, c) = den (l, 0) + c.
Proof. unfold den. simpl. induction l as [|a l IH]; simpl; lia. Qed.

Lemma den_perm l1 l2 c : l1 ≡ₚ l2 -> den (l1, c) = den (l2, c).
Proof. unfold den. simpl. induction 1; simpl; lia. Qed.

Lemma sym_eqb_den x y : sym_eqb w x y = true -> den x mod 2 ^ w = den y mod 2 ^ w.
Proof.
  destruct x as [l1 c1], y as [l2 c2]. unfold sym_eqb. simpl. intros H. cases_bool.
  rewrite (den_const l1), (den_const l2), (den_perm l1 l2) by by apply same_atoms_perm.
  rewrite Z.add_mod, H0, <- Z.add_mod by (pose proof (pow2_pos w); lia). done.
Qed.

Lemma den_W t : (t < n)%nat -> den (sym_W known t) = W.[t].
Proof using W_known.
  intros Ht. unfold sym_W. destruct (known t) eqn:E; unfold den; simpl; [|lia]. symmetry. by apply W_known.
Qed.
Lemma den_0 t : (t < n)%nat -> den (sym_0 sigma0 known t) = sigma0 W.[t].
Proof using W_known.
  intros Ht. unfold sym_0. destruct (known t) eqn:E; unfold den; simpl; [|lia]. by rewrite (W_known _ _ Ht E).
Qed.
Lemma den_1 t : (t < n)%nat -> den (sym_1 sigma1 known t) = sigma1 W.[t].
Proof using W_known.
  intros Ht. unfold sym_1. destruct (known t) eqn:E; unfold den; simpl; [|lia]. by rewrite (W_known _ _ Ht E).
Qed.

Lemma expected_den t :
  (t < n)%nat -> den (expected sigma0 sigma1 known t) mod 2 ^ w = W.[t] mod 2 ^ w.
Proof using W_known W_next w_pos.
  intros Ht. unfold expected. case_if; [by rewrite den_W|].
  destruct (known t) as [c|] eqn:Ek; [unfold den; simpl; by rewrite (W_known _ _ Ht Ek)|].
  rewrite (W_next t), Z.mod_mod by (pose proof (pow2_pos w); lia).
  by rewrite !den_add, !den_W, den_0, den_1 by lia.
Qed.

(** Each variable holds the schedule word its slot says. *)
Definition slots_ok (slots : list (option nat)) (ws : list Z) : Prop :=
  length slots = length ws /\ forall i t, mjoin (slots !! i) = Some t -> (t < n)%nat /\ ws.[i] = W.[t].

Lemma sym_term_den slots ws x sx :
  slots_ok slots ws -> sym_term sigma0 sigma1 known slots x = Some sx ->
  eval_term w sigma0 sigma1 ws x mod 2 ^ w = den sx mod 2 ^ w.
Proof using W_known w_pos.
  intros [_ Hok]. revert sx. induction x as [i|i|i|c|x IHx y IHy]; intros sx H; simpl in *.
  1-3: destruct (mjoin (slots !! i)) as [t|] eqn:E; simplify_eq/=; destruct (Hok i t E) as [Ht ->];
    by rewrite ?den_W, ?den_0, ?den_1.
  - by simplify_eq/=.
  - destruct (sym_term _ _ _ slots x) as [sx'|] eqn:Ex; [|done].
    destruct (sym_term _ _ _ slots y) as [sy'|] eqn:Ey; [|done]. simplify_eq/=.
    unfold uwrap. pose proof (pow2_pos w). rewrite Z.mod_mod, den_add by lia.
    rewrite Z.add_mod, (IHx _ eq_refl), (IHy _ eq_refl), <- Z.add_mod by lia. done.
Qed.

Lemma is_expected_eval slots ws t x :
  (t < n)%nat -> slots_ok slots ws ->
  is_expected w sigma0 sigma1 known t (sym_term sigma0 sigma1 known slots x) = true ->
  eval_term w sigma0 sigma1 ws x mod 2 ^ w = W.[t] mod 2 ^ w.
Proof using W_known W_next w_pos.
  intros Ht Hok H. destruct (sym_term _ _ _ slots x) as [sx|] eqn:E; [|done]. simpl in H.
  rewrite (sym_term_den _ _ _ _ Hok E), (sym_eqb_den _ _ H). by apply expected_den.
Qed.

Lemma W_reduced t : (16 <= t < n)%nat -> W.[t] mod 2 ^ w = W.[t].
Proof using W_next w_pos. intros Ht. rewrite (W_next t Ht). apply Z.mod_mod. pose proof (pow2_pos w). lia. Qed.

Lemma slots_ok_insert slots ws i t x :
  slots_ok slots ws -> (i < length slots)%nat -> (t < n)%nat -> x = W.[t] ->
  slots_ok (<[i := Some t]> slots) (<[i := x]> ws).
Proof.
  intros [Hl Hok] Hi Ht ->. split; [by rewrite !length_insert|]. intros j t' H.
  rewrite nth_insert by lia. case_decide; subst.
  - rewrite list_lookup_insert_eq in H by done. by simplify_eq/=.
  - rewrite list_lookup_insert_ne in H by done. by apply Hok.
Qed.

Lemma check_arg_sound t slots slots' ws a :
  (t < n)%nat -> slots_ok slots ws ->
  check_arg w wb sigma0 sigma1 known Ks loads t slots a = Some slots' ->
  let '(k, x, ws') := eval_arg w sigma0 sigma1 load chunk ws a in
  slots_ok slots' ws' /\ (k + default 0 x) mod 2 ^ w = (Ks.[t] + W.[t]) mod 2 ^ w.
Proof using W_known W_next W_load w_pos.
  intros Ht Hok H. pose proof (pow2_pos w ltac:(lia)) as Hp.
  destruct a as [k|k i off|k i x|k i x|k x]; cbn [check_arg eval_arg] in *; case_if_in H; simplify_eq; cases_bool;
    cbn [default from_option id]; subst.
  - apply sym_eqb_den in E. rewrite expected_den in E by done. unfold den in E. simpl in E. split; [done|].
    replace (k + 0) with (Ks.[t] + (k - Ks.[t])) by lia.
    by rewrite Z.add_mod, E, <- Z.add_mod by lia.
  - split; [|by rewrite W_load]. apply slots_ok_insert; try done. by apply W_load.
  - assert (uwrap w (eval_term w sigma0 sigma1 ws x) = W.[t]) as Ex.
    { unfold uwrap. rewrite (is_expected_eval slots ws t) by done. apply W_reduced. lia. }
    rewrite Ex. split; [by apply slots_ok_insert|done].
  - assert (uwrap w (ws.[i] + eval_term w sigma0 sigma1 ws x) = W.[t]) as Ex.
    { pose proof (is_expected_eval slots ws t (Plus (Wd i) x) Ht Hok ltac:(done)) as Hx. simpl in Hx.
      unfold uwrap in *. rewrite Z.mod_mod in Hx by lia. rewrite Hx. apply W_reduced. lia. }
    rewrite Ex. split; [by apply slots_ok_insert|done].
  - split; [done|]. rewrite Z.add_mod, (is_expected_eval slots' ws t), <- Z.add_mod by (done || lia). done.
Qed.

(** The state as round [i] sees it. *)
Definition view (i : nat) (v : list Z) : list Z := map (fun j => v.[rot i j]) (seq 0 8).

Lemma step_mod st k1 k2 : k1 mod 2 ^ w = k2 mod 2 ^ w -> FIPS.step p st k1 = FIPS.step p st k2.
Proof using w_pos.
  intros Hk. destruct st as [|a [|b [|c [|d [|e [|f [|g [|h [|]]]]]]]]]; try done. simpl.
  pose proof (pow2_pos w ltac:(lia)). f_equal.
  - rewrite !(Z.add_comm _ k1), !(Z.add_comm _ k2), <- !Z.add_assoc.
    by rewrite Z.add_mod, Hk, <- Z.add_mod by lia.
  - do 4 f_equal. rewrite !Z.add_assoc. by rewrite Z.add_mod, Hk, <- Z.add_mod by lia.
Qed.

Lemma rot_mod i j : rot i j = rot (i mod 8) j.
Proof. unfold rot. rewrite <- Nat.Div0.add_mod_idemp_r, <- Nat.Div0.mul_mod_idemp_r, Nat.Div0.add_mod_idemp_r. done. Qed.

Lemma view_mod i v : view i v = view (i mod 8) v.
Proof. unfold view. apply map_ext. intros j. by rewrite rot_mod. Qed.

Lemma list8 (v : list Z) : length v = 8%nat -> exists a b c d e f g h, v = [a; b; c; d; e; f; g; h].
Proof.
  intros H. destruct v as [|a [|b [|c [|d [|e [|f [|g [|h [|]]]]]]]]]; simpl in H; try lia. eauto 10.
Qed.

(** A line whose variables are rotated by [i] is a round of the standard. *)
Lemma exec_line_view i v ws a :
  length v = 8%nat ->
  let '(k, x, ws') := eval_arg w sigma0 sigma1 load chunk ws a in
  let '(v', ws'') := exec_line w sigma0 sigma1 load Round chunk (v, ws) (map (rot i) (seq 0 8), a) in
  ws'' = ws' /\ length v' = 8%nat /\ view (S i) v' = FIPS.step p (view i v) (k + default 0 x).
Proof using Round_spec.
  intros Hv. destruct (eval_arg _ _ _ _ _ _ a) as [[k x] ws'] eqn:Ee.
  destruct (exec_line _ _ _ _ _ _ _ _) as [v' ws''] eqn:El.
  rewrite (view_mod (S i)), (view_mod i), <- (Nat.add_1_r i), <- Nat.Div0.add_mod_idemp_l.
  rewrite (map_ext (rot i) (rot (i mod 8))) in El by (intros; apply rot_mod).
  pose proof (Nat.mod_upper_bound i 8 ltac:(lia)) as Hi. revert Hi El. generalize (i mod 8)%nat as r. intros r Hr El.
  destruct (list8 v Hv) as (x0 & x1 & x2 & x3 & x4 & x5 & x6 & x7 & ->).
  unfold exec_line in El. cbn [fst snd] in El. rewrite Ee in El.
  do 8 (destruct r as [|r]; [cbn in El; rewrite Round_spec in El; simplify_eq; split_and!; reflexivity|]). lia.
Qed.

Lemma exec_sound t slots ls v ws :
  check w wb sigma0 sigma1 known Ks loads t slots ls = true ->
  (t + length ls <= n)%nat -> slots_ok slots ws -> length v = 8%nat ->
  let '(v', ws') := exec w sigma0 sigma1 load Round chunk ls (v, ws) in
  length v' = 8%nat /\
  view (t + length ls) v' = foldl (FIPS.step p) (view t v) (map (fun i => Ks.[i] + W.[i]) (seq t (length ls))).
Proof using All.
  revert t slots v ws. induction ls as [|[regs a] ls IH]; intros t slots v ws Hc Hn Hok Hv.
  { simpl. by rewrite Nat.add_0_r. }
  cbn [check] in Hc. apply andb_true_iff in Hc as [Hr Hc]. apply bool_decide_eq_true in Hr. subst regs.
  destruct (check_arg _ _ _ _ _ _ _ t slots a) as [slots'|] eqn:Ea; [|done]. simpl in Hn.
  pose proof (check_arg_sound t slots slots' ws a ltac:(lia) Hok Ea) as Ha.
  pose proof (exec_line_view t v ws a Hv) as Hl. unfold exec. cbn [foldl].
  destruct (eval_arg _ _ _ _ _ _ a) as [[k x] ws'] eqn:Ee.
  destruct (exec_line _ _ _ _ _ _ _ _) as [v' ws'']. destruct Hl as (-> & Hv' & Hs), Ha as [Hok' Hk].
  specialize (IH (S t) slots' v' ws' Hc ltac:(lia) Hok' Hv'). unfold exec in IH.
  destruct (foldl _ (v', ws') ls) as [v2 ws2]. destruct IH as [Hl2 IH]. split; [done|].
  cbn [length seq map foldl]. rewrite <- Nat.add_succ_comm, IH, Hs.
  f_equal. by apply step_mod.
Qed.

Lemma view_0 v : length v = 8%nat -> view 0 v = v.
Proof. intros Hv. destruct (list8 v Hv) as (x0 & x1 & x2 & x3 & x4 & x5 & x6 & x7 & ->). reflexivity. Qed.

Lemma zip_map_nth (l1 l2 : list Z) :
  length l1 = length l2 -> map (fun i => l1.[i] + l2.[i]) (seq 0 (length l1)) = zip_with Z.add l1 l2.
Proof.
  revert l2. induction l1 as [|x l1 IH]; intros [|y l2] H; simpl in *; try done.
  f_equal. rewrite <- IH by lia. rewrite <- seq_shift, map_map. done.
Qed.

(** Lines that pass the check compute the rounds of the standard. *)
Theorem exec_rounds slots ls v ws :
  check w wb sigma0 sigma1 known Ks loads 0 slots ls = true ->
  length ls = n -> length Ks = n -> length W = n -> (n mod 8 = 0)%nat ->
  slots_ok slots ws -> length v = 8%nat ->
  (exec w sigma0 sigma1 load Round chunk ls (v, ws)).1 = foldl (FIPS.step p) v (zip_with Z.add Ks W).
Proof using All.
  intros Hc Hls HK HW Hn Hok Hv.
  pose proof (exec_sound 0 slots ls v ws Hc ltac:(lia) Hok Hv) as H.
  destruct (exec _ _ _ _ _ _ ls (v, ws)) as [v' ws']. destruct H as [Hv' H]. simpl.
  rewrite <- (view_0 v') by done. rewrite <- zip_map_nth, HK by lia.
  rewrite view_0, Nat.add_0_l, view_mod, Hls, Hn, view_0 in H by done. rewrite view_0 by done.
  exact H.
Qed.

End Sound.
