(* ===== verification/Sha2Theory.v ===== *)
(** * SHA-2 implementations against the standard

    What SHA-256 and SHA-512 share: an unrolled compression function whose
    lines pass the check of [Sha2Lines] is the compression of FIPS 180-4, and a
    streaming context over it holds the digest of its message.  The two
    instances are [Sha256Theory] and [Sha512]. *)
From stdpp Require Import prelude.
From S2P Require Import Prelude Uint256 HashStream Fips180 Sha2Lines.

(** ** Big-endian words *)

(** The bytes of a list of words of [n] bytes, most significant byte first. *)
Definition be_words (n : nat) (l : list Z) : list Z := concat (map (fun x => rev (le_digits 8 n x)) l).

Lemma be_words_cons n x l : be_words n (x :: l) = rev (le_digits 8 n x) ++ be_words n l.
Proof. reflexivity. Qed.

Lemma be_words_length n l : length (be_words n l) = (n * length l)%nat.
Proof.
  induction l as [|x l IH]; [simpl; lia|].
  rewrite be_words_cons, length_app, IH, length_rev, le_digits_length. cbn [length]. lia.
Qed.

(** Words written one after the other, in either byte order. *)
Fixpoint write_all (enc : Z -> list Z) (n : nat) (out : list Z) (off : nat) (l : list Z) : list Z :=
  match l with
  | [] => out
  | x :: r => write_all enc n (take off out ++ enc x ++ drop (off + n) out) (off + n) r
  end.

Lemma write_all_spec enc n out off l :
  (forall x, length (enc x) = n) -> (off + n * length l <= length out)%nat ->
  write_all enc n out off l = take off out ++ concat (map enc l) ++ drop (off + n * length l) out.
Proof.
  intros Hn. revert out off. induction l as [|x l IH]; intros out off H; cbn [write_all length] in *.
  { rewrite Nat.mul_0_r, Nat.add_0_r. cbn [map concat app]. by rewrite take_drop. }
  rewrite IH by (rewrite !length_app, length_take, length_drop, Hn; lia).
  rewrite (app_assoc (take off out) (enc x)). set (pre := take off out ++ enc x).
  assert (length pre = off + n)%nat as Hpre by (unfold pre; rewrite length_app, length_take, Hn; lia).
  rewrite (take_app_length' pre) by lia. rewrite (drop_app_ge pre) by lia. rewrite drop_drop.
  cbn [map concat]. unfold pre at 1. rewrite <- !app_assoc. do 4 f_equal. lia.
Qed.

Lemma WriteBEs_spec n out off l :
  (off + n * length l <= length out)%nat ->
  WriteBEs n out off l = take off out ++ be_words n l ++ drop (off + n * length l) out.
Proof.
  intros H. unfold be_words. rewrite <- write_all_spec; [|intros; by rewrite length_rev, le_digits_length|done].
  clear H. revert out off. induction l as [|x l IH]; intros out off; simpl; [done|]. apply IH.
Qed.

Lemma WriteBEs_all n out l : length out = (n * length l)%nat -> WriteBEs n out 0 l = be_words n l.
Proof. intros H. rewrite WriteBEs_spec by lia. by rewrite drop_ge, app_nil_r by lia. Qed.

(** The little-endian bytes of a list of words. *)
Definition le_words (n : nat) (l : list Z) : list Z := concat (map (le_digits 8 n) l).

Lemma WriteLEs_all n out l : length out = (n * length l)%nat -> WriteLEs n out 0 l = le_words n l.
Proof.
  intros H. replace (WriteLEs n out 0 l) with (write_all (le_digits 8 n) n out 0 l).
  - rewrite write_all_spec; [|intros; apply le_digits_length|lia]. by rewrite drop_ge, app_nil_r by lia.
  - clear H. generalize 0%nat. revert out. induction l as [|x l IH]; intros out off; simpl; [done|]. apply IH.
Qed.

Lemma be_words_read (n : nat) l r (i : nat) :
  digits (8 * n) l -> (i < length l)%nat -> ReadBE n (be_words n l ++ r) (i * n) = l.[i].
Proof.
  intros Hl. revert i. induction Hl as [|x l Hx Hl IH]; intros i Hi; [simpl in Hi; lia|].
  assert (length (rev (le_digits 8 n x)) = n) as Hn by (by rewrite length_rev, le_digits_length).
  rewrite be_words_cons. destruct i as [|i].
  - unfold ReadBE. rewrite Nat.mul_0_l, drop_0, <- app_assoc, take_app_length' by done.
    rewrite rev_involutive, le_val_digits by lia. by apply uwrap_small.
  - cbn [length] in Hi. change ((x :: l).[S i]) with (l.[i]). rewrite <- (IH i ltac:(lia)). unfold ReadBE.
    replace (S i * n)%nat with (length (rev (le_digits 8 n x)) + i * n)%nat by (rewrite Hn; lia).
    by rewrite <- app_assoc, drop_app_add.
Qed.

Lemma be_words_read_ge (n : nat) l r (i : nat) :
  ReadBE n (be_words n l ++ r) ((length l + i) * n) = ReadBE n r (i * n).
Proof.
  unfold ReadBE. replace ((length l + i) * n)%nat with (length (be_words n l) + i * n)%nat
    by (rewrite be_words_length; lia). by rewrite drop_app_add.
Qed.

Lemma le_digits_app w (a b : nat) x :
  0 < w -> le_digits w (a + b) x = le_digits w a x ++ le_digits w b (x / 2 ^ (w * a)).
Proof.
  intros Hw. revert x. induction a as [|a IH]; intros x; cbn [le_digits Nat.add app].
  - by rewrite Z.mul_0_r, Z.div_1_r.
  - rewrite IH. f_equal. f_equal. f_equal. rewrite Z.div_div by (apply pow2_pos || (pose proof (pow2_pos w); lia); lia).
    rewrite <- Z.pow_add_r by lia. do 2 f_equal. lia.
Qed.

(** The two writes of [Finalize] of [CSHA1] and [CSHA256] are the padding of the
    standard. *)
Lemma pad_64 (n : nat) :
  take (Z.to_nat (1 + (119 - u64 n mod 64) mod 64)) (0x80 :: replicate 63 0) ++ WriteBE64 (replicate 8 0) 0 (u64 (u64 n ≪ 3)) = FIPS.pad FIPS.sha256 n.
Proof.
  assert (u64 n mod 64 = n mod 64) as Hm.
  { rewrite (u64_mod_block 64 ltac:(lia)); [by rewrite Nat2Z.inj_mod|]. by exists (2 ^ 58). }
  rewrite Hm. unfold FIPS.pad, FIPS.pad_zeros. change (FIPS.block_size FIPS.sha256) with 64%nat. change (FIPS.length_size FIPS.sha256) with 8%nat.
  change (Z.of_nat 64) with 64. change (Z.of_nat 8) with 8.
  replace ((119 - n mod 64) mod 64) with ((64 - 8 - 1 - n) mod 64) by (Z.to_euclidean_division_equations; lia).
  pose proof (Z.mod_pos_bound (64 - 8 - 1 - n) 64 ltac:(lia)).
  set (k := (64 - 8 - 1 - n) mod 64) in *.
  replace (Z.to_nat (1 + k)) with (S (Z.to_nat k)) by lia. cbn [take app]. f_equal.
  rewrite take_replicate, Nat.min_l by lia. f_equal.
  unfold WriteBE64, WriteBE. cbn [take app]. rewrite drop_ge, app_nil_r by (simpl; lia). rewrite take_0, app_nil_l. f_equal.
  rewrite Z.shiftl_mul_pow2 by lia. unfold u64, uwrap. rewrite Zmult_mod_idemp_l.
  change (2 ^ 64) with (2 ^ (8 * 8%nat)). rewrite le_digits_mod by lia. f_equal. lia.
Qed.

(** The two forms of the selection and majority functions. *)
Lemma Ch_bits x y z : Z.lxor z (Z.land x (Z.lxor y z)) = FIPS.Ch x y z.
Proof.
  unfold FIPS.Ch. apply Z.bits_inj'. intros n Hn.
  rewrite !Z.lxor_spec, !Z.land_spec, Z.lxor_spec, Z.lnot_spec by done.
  by destruct (Z.testbit x n), (Z.testbit y n), (Z.testbit z n).
Qed.

Lemma Maj_bits x y z : Z.lor (Z.land x y) (Z.land z (Z.lor x y)) = FIPS.Maj x y z.
Proof.
  unfold FIPS.Maj. apply Z.bits_inj'. intros n Hn.
  rewrite !Z.lxor_spec, !Z.lor_spec, !Z.land_spec, !Z.lor_spec.
  by destruct (Z.testbit x n), (Z.testbit y n), (Z.testbit z n).
Qed.

Lemma slots_none n W ws : length ws = 16%nat -> slots_ok n W (replicate 16 None) ws.
Proof.
  intros Hws. split; [by rewrite Hws|]. intros i t H.
  destruct (replicate 16 None !! i) as [[|]|] eqn:E; try done. by apply lookup_replicate in E as [? _].
Qed.

Section Sha2.
Context (p : FIPS.sha2) (wb : nat).
#[local] Abbreviation w := (FIPS.width p).
#[local] Abbreviation n := (FIPS.rounds p).
#[local] Abbreviation sigma0 := (FIPS.sigma p (FIPS.smallsigma0 p)).
#[local] Abbreviation sigma1 := (FIPS.sigma p (FIPS.smallsigma1 p)).
Context (Round : Z -> Z -> Z -> Z -> Z -> Z -> Z -> Z -> Z -> option Z -> Z * Z).
Hypothesis width_bytes : w = 8 * wb.
Hypothesis wb_pos : (0 < wb)%nat.
Hypothesis rounds_16 : (16 <= n)%nat.
Hypothesis rounds_8 : (n mod 8 = 0)%nat.
Hypothesis K_length : length (FIPS.K p) = n.
Hypothesis H0_length : length (FIPS.H0 p) = 8%nat.
Hypothesis Round_spec : forall a b c d e f g h k x,
  let T1 := h + FIPS.Sigma p (FIPS.bigsigma1 p) e + FIPS.Ch e f g + (k + default 0 x) in
  Round a b c d e f g h k x =
    (uwrap w (d + T1), uwrap w (T1 + (FIPS.Sigma p (FIPS.bigsigma0 p) a + FIPS.Maj a b c))).

(** Execution of lines, and the schedule of a block. *)
Definition run (chunk : list Z) (ls : list line) (st : list Z * list Z) : list Z * list Z :=
  exec w sigma0 sigma1 (ReadBE wb) Round chunk ls st.
Definition words (M : list Z) : list Z := FIPS.schedule p (n - 16) (FIPS.block_words p M).
Definition addw : list Z -> list Z -> list Z := zip_with (fun x y => uwrap w (x + y)).

Lemma block_words_length M : length (FIPS.block_words p M) = 16%nat.
Proof. unfold FIPS.block_words. by rewrite length_map, length_seq. Qed.

Lemma word_bytes : Z.to_nat (w / 8) = wb.
Proof using width_bytes. clear -width_bytes. rewrite width_bytes, Z.mul_comm, Z.div_mul by lia. lia. Qed.

Lemma block_words_nth M t : (t < 16)%nat -> (FIPS.block_words p M).[t] = ReadBE wb M (t * wb).
Proof using width_bytes.
  clear -width_bytes. intros Ht. unfold FIPS.block_words. rewrite word_bytes.
  rewrite (nth_indep _ 0 (le_val 8 (rev (take wb (drop (0 * wb) M))))) by (rewrite length_map, length_seq; lia).
  rewrite (map_nth (fun i => le_val 8 (rev (take wb (drop (i * wb) M))))).
  by rewrite seq_nth by lia.
Qed.

Lemma words_length M : length (words M) = n.
Proof using rounds_16. clear -rounds_16. unfold words. rewrite FIPS.schedule_length, block_words_length. lia. Qed.

Lemma words_prefix M t : (t < 16)%nat -> (words M).[t] = ReadBE wb M (t * wb).
Proof using width_bytes.
  clear -width_bytes. intros Ht. unfold words. rewrite FIPS.schedule_prefix by (rewrite block_words_length; lia). by apply block_words_nth.
Qed.

Lemma run_rounds loads known slots chunk ls (M v ws : list Z) :
  check w wb sigma0 sigma1 known (FIPS.K p) loads 0 slots ls = true -> length ls = n ->
  (forall t c, (t < n)%nat -> known t = Some c -> (words M).[t] = c) ->
  (loads = true -> chunk = M) -> slots_ok n (words M) slots ws -> length v = 8%nat ->
  (run chunk ls (v, ws)).1 = foldl (FIPS.step p) v (zip_with Z.add (FIPS.K p) (words M)).
Proof using All.
  intros Hc Hlen Hk Hch Hok Hv.
  apply (exec_rounds p n wb loads (ReadBE wb) chunk (words M) (FIPS.K p) known Round) with (slots := slots);
    [lia|exact Round_spec| |exact Hk| |exact Hc|exact Hlen|exact K_length|exact (words_length M)|exact rounds_8|exact Hok|exact Hv].
  - intros t Ht. apply (FIPS.schedule_next p (n - 16) (FIPS.block_words p M)); rewrite block_words_length; lia.
  - intros Hl t Ht. rewrite (Hch Hl). symmetry. by apply words_prefix.
Qed.

Lemma run_words_length inp ls st : length (run inp ls st).2 = length st.2.
Proof. apply exec_words_length. Qed.

Lemma compress_def s M :
  FIPS.compress p s M = addw s (foldl (FIPS.step p) s (zip_with Z.add (FIPS.K p) (words M))).
Proof. reflexivity. Qed.

Lemma addw_comm x y : addw x y = addw y x.
Proof. unfold addw. revert y. induction x as [|a x IH]; intros [|b y]; simpl; [done..|]. by rewrite Z.add_comm, IH. Qed.

Lemma block_size_16 : FIPS.block_size p = (16 * wb)%nat.
Proof using width_bytes. clear -width_bytes. unfold FIPS.block_size. rewrite width_bytes. lia. Qed.

Lemma compress_take s M : FIPS.compress p s (take (16 * wb) M) = FIPS.compress p s M.
Proof using width_bytes.
  clear -width_bytes. rewrite !compress_def. unfold words.
  replace (FIPS.block_words p (take (16 * wb) M)) with (FIPS.block_words p M); [done|].
  unfold FIPS.block_words. rewrite word_bytes. apply map_ext_in. intros i Hi. apply in_seq in Hi.
  by rewrite !take_drop_commute, take_take, Nat.min_l by nia.
Qed.

Lemma compress_length s M : length s = 8%nat -> length (FIPS.compress p s M) = 8%nat.
Proof.
  clear. intros Hs. rewrite compress_def. unfold addw. rewrite length_zip_with, Hs. apply Nat.min_l.
  generalize (zip_with Z.add (FIPS.K p) (words M)). intros l. revert s Hs.
  induction l as [|x l IH]; intros s Hs; cbn [foldl]; [lia|]. apply IH.
  destruct (list8 s Hs) as (x0 & x1 & x2 & x3 & x4 & x5 & x6 & x7 & ->). done.
Qed.

Lemma compress_digits s M : digits w (FIPS.compress p s M).
Proof using width_bytes.
  clear -width_bytes. rewrite compress_def. generalize (foldl (FIPS.step p) s (zip_with Z.add (FIPS.K p) (words M))). intros v.
  revert v. induction s as [|x s IH]; intros [|y v]; simpl; constructor; [apply uwrap_range; lia|apply IH].
Qed.

Lemma compress_blocks_length k s M : length s = 8%nat -> length (FIPS.compress_blocks p k s M) = 8%nat.
Proof. revert s M. induction k as [|k IH]; intros s M Hs; [done|]. apply IH. by apply compress_length. Qed.

(** ** A compression function made of checked lines *)

Context (Transform : list Z -> list Z -> list Z) (lines : list line).
Hypothesis Transform_lines : forall s chunk,
  Transform s chunk = addw s (run chunk lines (s, replicate 16 0)).1.
Hypothesis lines_check : check w wb sigma0 sigma1 (fun _ => None) (FIPS.K p) true 0 (replicate 16 None) lines = true.
Hypothesis lines_length : length lines = n.
Hypothesis lines_within : forallb (loads_within (15 * wb)) lines = true.

Lemma Transform_fips s chunk : length s = 8%nat -> Transform s chunk = FIPS.compress p s chunk.
Proof using All.
  intros Hs. rewrite Transform_lines, compress_def. f_equal.
  apply (run_rounds true (fun _ => None) (replicate 16 None)); try done. by apply slots_none.
Qed.

Lemma Transform_take s chunk :
  (16 * wb <= length chunk)%nat -> Transform s (take (16 * wb) chunk) = Transform s chunk.
Proof using Transform_lines lines_within.
  clear -Transform_lines lines_within. intros Hc. rewrite !Transform_lines. unfold run.
  rewrite (exec_chunk_ext _ _ _ _ _ (15 * wb) (take (16 * wb) chunk) chunk); [done|exact lines_within|].
  intros off Hoff. unfold ReadBE. by rewrite !take_drop_commute, take_take, Nat.min_l by lia.
Qed.

Lemma Transform_blocks_fips k s chunk :
  length s = 8%nat -> transform_blocks (16 * wb) Transform k s chunk = FIPS.compress_blocks p k s chunk.
Proof using All.
  revert s chunk. induction k as [|k IH]; intros s chunk Hs; [done|].
  cbn [transform_blocks FIPS.compress_blocks]. rewrite block_size_16, compress_take, <- Transform_fips by done.
  apply IH. rewrite Transform_fips by done. by apply compress_length.
Qed.

Lemma digest_absorb msg :
  FIPS.digest p msg = be_words wb (absorb (16 * wb) Transform (FIPS.H0 p) (msg ++ FIPS.pad p (length msg))).
Proof using All.
  unfold FIPS.digest, absorb. rewrite Transform_blocks_fips by apply H0_length.
  rewrite block_size_16, word_bytes. reflexivity.
Qed.

(** A context that has absorbed a message and its padding holds the digest. *)
Lemma represents_digest c msg hash :
  w = 32 \/ w = 64 ->
  represents (16 * wb) Transform (FIPS.H0 p) c (msg ++ FIPS.pad p (length msg)) ->
  length hash = (wb * 8)%nat -> WriteBEs wb hash 0 (s c) = FIPS.digest p msg.
Proof using All.
  intros Hw Hrep Hh. rewrite digest_absorb.
  assert (length (msg ++ FIPS.pad p (length msg)) mod (16 * wb) = 0)%nat as Hmod.
  { rewrite length_app, <- block_size_16. by apply FIPS.pad_spec. }
  rewrite (represents_absorb (16 * wb) Transform ltac:(lia) _ _ _ Hrep Hmod).
  apply WriteBEs_all. unfold absorb. rewrite Transform_blocks_fips by apply H0_length.
  rewrite compress_blocks_length by apply H0_length. done.
Qed.

End Sha2.
