(* ===== verification/Sha256.v ===== *)
(** * SHA-256 ([crypto/sha256.cpp])

    The portable implementation: the unrolled compression function
    [Transform], the double hash of a 64-byte block [TransformD64] with its
    precomputed padding, the streaming class [CSHA256], the batched [SHA256D64]
    and the start-up self test.  The lines of the unrolled functions are kept
    one by one. *)
From stdpp Require Import prelude strings.
From Stdlib Require Import Ascii.
From S2P Require Import Prelude Uint256 HashStream Sha2Lines.

Module Sha256.

Definition Ch (x y z : Z) : Z := Z.lxor z (Z.land x (Z.lxor y z)).
Definition Maj (x y z : Z) : Z := Z.lor (Z.land x y) (Z.land z (Z.lor x y)).
Definition Sigma0 (x : Z) : Z :=
  Z.lxor (Z.lxor (Z.lor (x ≫ 2) (u32 (x ≪ 30))) (Z.lor (x ≫ 13) (u32 (x ≪ 19)))) (Z.lor (x ≫ 22) (u32 (x ≪ 10))).
Definition Sigma1 (x : Z) : Z :=
  Z.lxor (Z.lxor (Z.lor (x ≫ 6) (u32 (x ≪ 26))) (Z.lor (x ≫ 11) (u32 (x ≪ 21)))) (Z.lor (x ≫ 25) (u32 (x ≪ 7))).
Definition sigma0 (x : Z) : Z :=
  Z.lxor (Z.lxor (Z.lor (x ≫ 7) (u32 (x ≪ 25))) (Z.lor (x ≫ 18) (u32 (x ≪ 14)))) (x ≫ 3).
Definition sigma1 (x : Z) : Z :=
  Z.lxor (Z.lxor (Z.lor (x ≫ 17) (u32 (x ≪ 15))) (Z.lor (x ≫ 19) (u32 (x ≪ 13)))) (x ≫ 10).

(** One round; the result is the new [d] and [h]. *)
Definition Round (a b c d e f g h k : Z) : Z * Z :=
  let t1 := u32 (u32 (u32 (h + Sigma1 e) + Ch e f g) + k) in
  let t2 := u32 (Sigma0 a + Maj a b c) in
  (u32 (d + t1), u32 (t1 + t2)).

(** The last argument of a round is a constant, or a constant plus a word. *)
Definition Round_arg (a b c d e f g h k : Z) (x : option Z) : Z * Z :=
  Round a b c d e f g h (match x with Some x => u32 (k + x) | None => k end).

Definition Initialize : list Z :=
  [0x6a09e667; 0xbb67ae85; 0x3c6ef372; 0xa54ff53a; 0x510e527f; 0x9b05688c; 0x1f83d9ab; 0x5be0cd19].

(** ** The unrolled lines *)

Section lines.
#[local] Abbreviation a := 0%nat (only parsing).
#[local] Abbreviation b := 1%nat (only parsing).
#[local] Abbreviation c := 2%nat (only parsing).
#[local] Abbreviation d := 3%nat (only parsing).
#[local] Abbreviation e := 4%nat (only parsing).
#[local] Abbreviation f := 5%nat (only parsing).
#[local] Abbreviation g := 6%nat (only parsing).
#[local] Abbreviation h := 7%nat (only parsing).
#[local] Abbreviation w0 := 0%nat (only parsing).
#[local] Abbreviation w1 := 1%nat (only parsing).
#[local] Abbreviation w2 := 2%nat (only parsing).
#[local] Abbreviation w3 := 3%nat (only parsing).
#[local] Abbreviation w4 := 4%nat (only parsing).
#[local] Abbreviation w5 := 5%nat (only parsing).
#[local] Abbreviation w6 := 6%nat (only parsing).
#[local] Abbreviation w7 := 7%nat (only parsing).
#[local] Abbreviation w8 := 8%nat (only parsing).
#[local] Abbreviation w9 := 9%nat (only parsing).
#[local] Abbreviation w10 := 10%nat (only parsing).
#[local] Abbreviation w11 := 11%nat (only parsing).
#[local] Abbreviation w12 := 12%nat (only parsing).
#[local] Abbreviation w13 := 13%nat (only parsing).
#[local] Abbreviation w14 := 14%nat (only parsing).
#[local] Abbreviation w15 := 15%nat (only parsing).
#[local] Abbreviation R a b c d e f g h k := ([a; b; c; d; e; f; g; h], k) (only parsing).
#[local] Infix "⊞" := Plus (at level 50, left associativity, only parsing).

Definition Transform_lines : list line :=
  [ R a b c d e f g h (Load 0x428a2f98 w0 0);
    R h a b c d e f g (Load 0x71374491 w1 4);
    R g h a b c d e f (Load 0xb5c0fbcf w2 8);
    R f g h a b c d e (Load 0xe9b5dba5 w3 12);
    R e f g h a b c d (Load 0x3956c25b w4 16);
    R d e f g h a b c (Load 0x59f111f1 w5 20);
    R c d e f g h a b (Load 0x923f82a4 w6 24);
    R b c d e f g h a (Load 0xab1c5ed5 w7 28);
    R a b c d e f g h (Load 0xd807aa98 w8 32);
    R h a b c d e f g (Load 0x12835b01 w9 36);
    R g h a b c d e f (Load 0x243185be w10 40);
    R f g h a b c d e (Load 0x550c7dc3 w11 44);
    R e f g h a b c d (Load 0x72be5d74 w12 48);
    R d e f g h a b c (Load 0x80deb1fe w13 52);
    R c d e f g h a b (Load 0x9bdc06a7 w14 56);
    R b c d e f g h a (Load 0xc19bf174 w15 60);
    R a b c d e f g h (Incr 0xe49b69c1 w0 (Sg1 w14 ⊞ Wd w9 ⊞ Sg0 w1));
    R h a b c d e f g (Incr 0xefbe4786 w1 (Sg1 w15 ⊞ Wd w10 ⊞ Sg0 w2));
    R g h a b c d e f (Incr 0x0fc19dc6 w2 (Sg1 w0 ⊞ Wd w11 ⊞ Sg0 w3));
    R f g h a b c d e (Incr 0x240ca1cc w3 (Sg1 w1 ⊞ Wd w12 ⊞ Sg0 w4));
    R e f g h a b c d (Incr 0x2de92c6f w4 (Sg1 w2 ⊞ Wd w13 ⊞ Sg0 w5));
    R d e f g h a b c (Incr 0x4a7484aa w5 (Sg1 w3 ⊞ Wd w14 ⊞ Sg0 w6));
    R c d e f g h a b (Incr 0x5cb0a9dc w6 (Sg1 w4 ⊞ Wd w15 ⊞ Sg0 w7));
    R b c d e f g h a (Incr 0x76f988da w7 (Sg1 w5 ⊞ Wd w0 ⊞ Sg0 w8));
    R a b c d e f g h (Incr 0x983e5152 w8 (Sg1 w6 ⊞ Wd w1 ⊞ Sg0 w9));
    R h a b c d e f g (Incr 0xa831c66d w9 (Sg1 w7 ⊞ Wd w2 ⊞ Sg0 w10));
    R g h a b c d e f (Incr 0xb00327c8 w10 (Sg1 w8 ⊞ Wd w3 ⊞ Sg0 w11));
    R f g h a b c d e (Incr 0xbf597fc7 w11 (Sg1 w9 ⊞ Wd w4 ⊞ Sg0 w12));
    R e f g h a b c d (Incr 0xc6e00bf3 w12 (Sg1 w10 ⊞ Wd w5 ⊞ Sg0 w13));
    R d e f g h a b c (Incr 0xd5a79147 w13 (Sg1 w11 ⊞ Wd w6 ⊞ Sg0 w14));
    R c d e f g h a b (Incr 0x06ca6351 w14 (Sg1 w12 ⊞ Wd w7 ⊞ Sg0 w15));
    R b c d e f g h a (Incr 0x14292967 w15 (Sg1 w13 ⊞ Wd w8 ⊞ Sg0 w0));
    R a b c d e f g h (Incr 0x27b70a85 w0 (Sg1 w14 ⊞ Wd w9 ⊞ Sg0 w1));
    R h a b c d e f g (Incr 0x2e1b2138 w1 (Sg1 w15 ⊞ Wd w10 ⊞ Sg0 w2));
    R g h a b c d e f (Incr 0x4d2c6dfc w2 (Sg1 w0 ⊞ Wd w11 ⊞ Sg0 w3));
    R f g h a b c d e (Incr 0x53380d13 w3 (Sg1 w1 ⊞ Wd w12 ⊞ Sg0 w4));
    R e f g h a b c d (Incr 0x650a7354 w4 (Sg1 w2 ⊞ Wd w13 ⊞ Sg0 w5));
    R d e f g h a b c (Incr 0x766a0abb w5 (Sg1 w3 ⊞ Wd w14 ⊞ Sg0 w6));
    R c d e f g h a b (Incr 0x81c2c92e w6 (Sg1 w4 ⊞ Wd w15 ⊞ Sg0 w7));
    R b c d e f g h a (Incr 0x92722c85 w7 (Sg1 w5 ⊞ Wd w0 ⊞ Sg0 w8));
    R a b c d e f g h (Incr 0xa2bfe8a1 w8 (Sg1 w6 ⊞ Wd w1 ⊞ Sg0 w9));
    R h a b c d e f g (Incr 0xa81a664b w9 (Sg1 w7 ⊞ Wd w2 ⊞ Sg0 w10));
    R g h a b c d e f (Incr 0xc24b8b70 w10 (Sg1 w8 ⊞ Wd w3 ⊞ Sg0 w11));
    R f g h a b c d e (Incr 0xc76c51a3 w11 (Sg1 w9 ⊞ Wd w4 ⊞ Sg0 w12));
    R e f g h a b c d (Incr 0xd192e819 w12 (Sg1 w10 ⊞ Wd w5 ⊞ Sg0 w13));
    R d e f g h a b c (Incr 0xd6990624 w13 (Sg1 w11 ⊞ Wd w6 ⊞ Sg0 w14));
    R c d e f g h a b (Incr 0xf40e3585 w14 (Sg1 w12 ⊞ Wd w7 ⊞ Sg0 w15));
    R b c d e f g h a (Incr 0x106aa070 w15 (Sg1 w13 ⊞ Wd w8 ⊞ Sg0 w0));
    R a b c d e f g h (Incr 0x19a4c116 w0 (Sg1 w14 ⊞ Wd w9 ⊞ Sg0 w1));
    R h a b c d e f g (Incr 0x1e376c08 w1 (Sg1 w15 ⊞ Wd w10 ⊞ Sg0 w2));
    R g h a b c d e f (Incr 0x2748774c w2 (Sg1 w0 ⊞ Wd w11 ⊞ Sg0 w3));
    R f g h a b c d e (Incr 0x34b0bcb5 w3 (Sg1 w1 ⊞ Wd w12 ⊞ Sg0 w4));
    R e f g h a b c d (Incr 0x391c0cb3 w4 (Sg1 w2 ⊞ Wd w13 ⊞ Sg0 w5));
    R d e f g h a b c (Incr 0x4ed8aa4a w5 (Sg1 w3 ⊞ Wd w14 ⊞ Sg0 w6));
    R c d e f g h a b (Incr 0x5b9cca4f w6 (Sg1 w4 ⊞ Wd w15 ⊞ Sg0 w7));
    R b c d e f g h a (Incr 0x682e6ff3 w7 (Sg1 w5 ⊞ Wd w0 ⊞ Sg0 w8));
    R a b c d e f g h (Incr 0x748f82ee w8 (Sg1 w6 ⊞ Wd w1 ⊞ Sg0 w9));
    R h a b c d e f g (Incr 0x78a5636f w9 (Sg1 w7 ⊞ Wd w2 ⊞ Sg0 w10));
    R g h a b c d e f (Incr 0x84c87814 w10 (Sg1 w8 ⊞ Wd w3 ⊞ Sg0 w11));
    R f g h a b c d e (Incr 0x8cc70208 w11 (Sg1 w9 ⊞ Wd w4 ⊞ Sg0 w12));
    R e f g h a b c d (Incr 0x90befffa w12 (Sg1 w10 ⊞ Wd w5 ⊞ Sg0 w13));
    R d e f g h a b c (Incr 0xa4506ceb w13 (Sg1 w11 ⊞ Wd w6 ⊞ Sg0 w14));
    R c d e f g h a b (Use 0xbef9a3f7 (Wd w14 ⊞ Sg1 w12 ⊞ Wd w7 ⊞ Sg0 w15));
    R b c d e f g h a (Use 0xc67178f2 (Wd w15 ⊞ Sg1 w13 ⊞ Wd w8 ⊞ Sg0 w0)) ].

Definition D64_lines1 : list line :=
  [ R a b c d e f g h (Load 0x428a2f98 w0 0);
    R h a b c d e f g (Load 0x71374491 w1 4);
    R g h a b c d e f (Load 0xb5c0fbcf w2 8);
    R f g h a b c d e (Load 0xe9b5dba5 w3 12);
    R e f g h a b c d (Load 0x3956c25b w4 16);
    R d e f g h a b c (Load 0x59f111f1 w5 20);
    R c d e f g h a b (Load 0x923f82a4 w6 24);
    R b c d e f g h a (Load 0xab1c5ed5 w7 28);
    R a b c d e f g h (Load 0xd807aa98 w8 32);
    R h a b c d e f g (Load 0x12835b01 w9 36);
    R g h a b c d e f (Load 0x243185be w10 40);
    R f g h a b c d e (Load 0x550c7dc3 w11 44);
    R e f g h a b c d (Load 0x72be5d74 w12 48);
    R d e f g h a b c (Load 0x80deb1fe w13 52);
    R c d e f g h a b (Load 0x9bdc06a7 w14 56);
    R b c d e f g h a (Load 0xc19bf174 w15 60);
    R a b c d e f g h (Incr 0xe49b69c1 w0 (Sg1 w14 ⊞ Wd w9 ⊞ Sg0 w1));
    R h a b c d e f g (Incr 0xefbe4786 w1 (Sg1 w15 ⊞ Wd w10 ⊞ Sg0 w2));
    R g h a b c d e f (Incr 0x0fc19dc6 w2 (Sg1 w0 ⊞ Wd w11 ⊞ Sg0 w3));
    R f g h a b c d e (Incr 0x240ca1cc w3 (Sg1 w1 ⊞ Wd w12 ⊞ Sg0 w4));
    R e f g h a b c d (Incr 0x2de92c6f w4 (Sg1 w2 ⊞ Wd w13 ⊞ Sg0 w5));
    R d e f g h a b c (Incr 0x4a7484aa w5 (Sg1 w3 ⊞ Wd w14 ⊞ Sg0 w6));
    R c d e f g h a b (Incr 0x5cb0a9dc w6 (Sg1 w4 ⊞ Wd w15 ⊞ Sg0 w7));
    R b c d e f g h a (Incr 0x76f988da w7 (Sg1 w5 ⊞ Wd w0 ⊞ Sg0 w8));
    R a b c d e f g h (Incr 0x983e5152 w8 (Sg1 w6 ⊞ Wd w1 ⊞ Sg0 w9));
    R h a b c d e f g (Incr 0xa831c66d w9 (Sg1 w7 ⊞ Wd w2 ⊞ Sg0 w10));
    R g h a b c d e f (Incr 0xb00327c8 w10 (Sg1 w8 ⊞ Wd w3 ⊞ Sg0 w11));
    R f g h a b c d e (Incr 0xbf597fc7 w11 (Sg1 w9 ⊞ Wd w4 ⊞ Sg0 w12));
    R e f g h a b c d (Incr 0xc6e00bf3 w12 (Sg1 w10 ⊞ Wd w5 ⊞ Sg0 w13));
    R d e f g h a b c (Incr 0xd5a79147 w13 (Sg1 w11 ⊞ Wd w6 ⊞ Sg0 w14));
    R c d e f g h a b (Incr 0x06ca6351 w14 (Sg1 w12 ⊞ Wd w7 ⊞ Sg0 w15));
    R b c d e f g h a (Incr 0x14292967 w15 (Sg1 w13 ⊞ Wd w8 ⊞ Sg0 w0));
    R a b c d e f g h (Incr 0x27b70a85 w0 (Sg1 w14 ⊞ Wd w9 ⊞ Sg0 w1));
    R h a b c d e f g (Incr 0x2e1b2138 w1 (Sg1 w15 ⊞ Wd w10 ⊞ Sg0 w2));
    R g h a b c d e f (Incr 0x4d2c6dfc w2 (Sg1 w0 ⊞ Wd w11 ⊞ Sg0 w3));
    R f g h a b c d e (Incr 0x53380d13 w3 (Sg1 w1 ⊞ Wd w12 ⊞ Sg0 w4));
    R e f g h a b c d (Incr 0x650a7354 w4 (Sg1 w2 ⊞ Wd w13 ⊞ Sg0 w5));
    R d e f g h a b c (Incr 0x766a0abb w5 (Sg1 w3 ⊞ Wd w14 ⊞ Sg0 w6));
    R c d e f g h a b (Incr 0x81c2c92e w6 (Sg1 w4 ⊞ Wd w15 ⊞ Sg0 w7));
    R b c d e f g h a (Incr 0x92722c85 w7 (Sg1 w5 ⊞ Wd w0 ⊞ Sg0 w8));
    R a b c d e f g h (Incr 0xa2bfe8a1 w8 (Sg1 w6 ⊞ Wd w1 ⊞ Sg0 w9));
    R h a b c d e f g (Incr 0xa81a664b w9 (Sg1 w7 ⊞ Wd w2 ⊞ Sg0 w10));
    R g h a b c d e f (Incr 0xc24b8b70 w10 (Sg1 w8 ⊞ Wd w3 ⊞ Sg0 w11));
    R f g h a b c d e (Incr 0xc76c51a3 w11 (Sg1 w9 ⊞ Wd w4 ⊞ Sg0 w12));
    R e f g h a b c d (Incr 0xd192e819 w12 (Sg1 w10 ⊞ Wd w5 ⊞ Sg0 w13));
    R d e f g h a b c (Incr 0xd6990624 w13 (Sg1 w11 ⊞ Wd w6 ⊞ Sg0 w14));
    R c d e f g h a b (Incr 0xf40e3585 w14 (Sg1 w12 ⊞ Wd w7 ⊞ Sg0 w15));
    R b c d e f g h a (Incr 0x106aa070 w15 (Sg1 w13 ⊞ Wd w8 ⊞ Sg0 w0));
    R a b c d e f g h (Incr 0x19a4c116 w0 (Sg1 w14 ⊞ Wd w9 ⊞ Sg0 w1));
    R h a b c d e f g (Incr 0x1e376c08 w1 (Sg1 w15 ⊞ Wd w10 ⊞ Sg0 w2));
    R g h a b c d e f (Incr 0x2748774c w2 (Sg1 w0 ⊞ Wd w11 ⊞ Sg0 w3));
    R f g h a b c d e (Incr 0x34b0bcb5 w3 (Sg1 w1 ⊞ Wd w12 ⊞ Sg0 w4));
    R e f g h a b c d (Incr 0x391c0cb3 w4 (Sg1 w2 ⊞ Wd w13 ⊞ Sg0 w5));
    R d e f g h a b c (Incr 0x4ed8aa4a w5 (Sg1 w3 ⊞ Wd w14 ⊞ Sg0 w6));
    R c d e f g h a b (Incr 0x5b9cca4f w6 (Sg1 w4 ⊞ Wd w15 ⊞ Sg0 w7));
    R b c d e f g h a (Incr 0x682e6ff3 w7 (Sg1 w5 ⊞ Wd w0 ⊞ Sg0 w8));
    R a b c d e f g h (Incr 0x748f82ee w8 (Sg1 w6 ⊞ Wd w1 ⊞ Sg0 w9));
    R h a b c d e f g (Incr 0x78a5636f w9 (Sg1 w7 ⊞ Wd w2 ⊞ Sg0 w10));
    R g h a b c d e f (Incr 0x84c87814 w10 (Sg1 w8 ⊞ Wd w3 ⊞ Sg0 w11));
    R f g h a b c d e (Incr 0x8cc70208 w11 (Sg1 w9 ⊞ Wd w4 ⊞ Sg0 w12));
    R e f g h a b c d (Incr 0x90befffa w12 (Sg1 w10 ⊞ Wd w5 ⊞ Sg0 w13));
    R d e f g h a b c (Incr 0xa4506ceb w13 (Sg1 w11 ⊞ Wd w6 ⊞ Sg0 w14));
    R c d e f g h a b (Use 0xbef9a3f7 (Wd w14 ⊞ Sg1 w12 ⊞ Wd w7 ⊞ Sg0 w15));
    R b c d e f g h a (Use 0xc67178f2 (Wd w15 ⊞ Sg1 w13 ⊞ Wd w8 ⊞ Sg0 w0)) ].

(** The second block of the first hash is padding only: its words are folded
    into the constants. *)
Definition D64_lines2 : list line :=
  [ R a b c d e f g h (Const 0xc28a2f98);
    R h a b c d e f g (Const 0x71374491);
    R g h a b c d e f (Const 0xb5c0fbcf);
    R f g h a b c d e (Const 0xe9b5dba5);
    R e f g h a b c d (Const 0x3956c25b);
    R d e f g h a b c (Const 0x59f111f1);
    R c d e f g h a b (Const 0x923f82a4);
    R b c d e f g h a (Const 0xab1c5ed5);
    R a b c d e f g h (Const 0xd807aa98);
    R h a b c d e f g (Const 0x12835b01);
    R g h a b c d e f (Const 0x243185be);
    R f g h a b c d e (Const 0x550c7dc3);
    R e f g h a b c d (Const 0x72be5d74);
    R d e f g h a b c (Const 0x80deb1fe);
    R c d e f g h a b (Const 0x9bdc06a7);
    R b c d e f g h a (Const 0xc19bf374);
    R a b c d e f g h (Const 0x649b69c1);
    R h a b c d e f g (Const 0xf0fe4786);
    R g h a b c d e f (Const 0x0fe1edc6);
    R f g h a b c d e (Const 0x240cf254);
    R e f g h a b c d (Const 0x4fe9346f);
    R d e f g h a b c (Const 0x6cc984be);
    R c d e f g h a b (Const 0x61b9411e);
    R b c d e f g h a (Const 0x16f988fa);
    R a b c d e f g h (Const 0xf2c65152);
    R h a b c d e f g (Const 0xa88e5a6d);
    R g h a b c d e f (Const 0xb019fc65);
    R f g h a b c d e (Const 0xb9d99ec7);
    R e f g h a b c d (Const 0x9a1231c3);
    R d e f g h a b c (Const 0xe70eeaa0);
    R c d e f g h a b (Const 0xfdb1232b);
    R b c d e f g h a (Const 0xc7353eb0);
    R a b c d e f g h (Const 0x3069bad5);
    R h a b c d e f g (Const 0xcb976d5f);
    R g h a b c d e f (Const 0x5a0f118f);
    R f g h a b c d e (Const 0xdc1eeefd);
    R e f g h a b c d (Const 0x0a35b689);
    R d e f g h a b c (Const 0xde0b7a04);
    R c d e f g h a b (Const 0x58f4ca9d);
    R b c d e f g h a (Const 0xe15d5b16);
    R a b c d e f g h (Const 0x007f3e86);
    R h a b c d e f g (Const 0x37088980);
    R g h a b c d e f (Const 0xa507ea32);
    R f g h a b c d e (Const 0x6fab9537);
    R e f g h a b c d (Const 0x17406110);
    R d e f g h a b c (Const 0x0d8cd6f1);
    R c d e f g h a b (Const 0xcdaa3b6d);
    R b c d e f g h a (Const 0xc0bbbe37);
    R a b c d e f g h (Const 0x83613bda);
    R h a b c d e f g (Const 0xdb48a363);
    R g h a b c d e f (Const 0x0b02e931);
    R f g h a b c d e (Const 0x6fd15ca7);
    R e f g h a b c d (Const 0x521afaca);
    R d e f g h a b c (Const 0x31338431);
    R c d e f g h a b (Const 0x6ed41a95);
    R b c d e f g h a (Const 0x6d437890);
    R a b c d e f g h (Const 0xc39c91f2);
    R h a b c d e f g (Const 0x9eccabbd);
    R g h a b c d e f (Const 0xb5c9a0e6);
    R f g h a b c d e (Const 0x532fb63c);
    R e f g h a b c d (Const 0xd2c741c6);
    R d e f g h a b c (Const 0x07237ea3);
    R c d e f g h a b (Const 0xa4954b68);
    R b c d e f g h a (Const 0x4c191d76) ].

(** The second hash: its last eight words are padding. *)
Definition D64_lines3 : list line :=
  [ R a b c d e f g h (Use 0x428a2f98 (Wd w0));
    R h a b c d e f g (Use 0x71374491 (Wd w1));
    R g h a b c d e f (Use 0xb5c0fbcf (Wd w2));
    R f g h a b c d e (Use 0xe9b5dba5 (Wd w3));
    R e f g h a b c d (Use 0x3956c25b (Wd w4));
    R d e f g h a b c (Use 0x59f111f1 (Wd w5));
    R c d e f g h a b (Use 0x923f82a4 (Wd w6));
    R b c d e f g h a (Use 0xab1c5ed5 (Wd w7));
    R a b c d e f g h (Const 0x5807aa98);
    R h a b c d e f g (Const 0x12835b01);
    R g h a b c d e f (Const 0x243185be);
    R f g h a b c d e (Const 0x550c7dc3);
    R e f g h a b c d (Const 0x72be5d74);
    R d e f g h a b c (Const 0x80deb1fe);
    R c d e f g h a b (Const 0x9bdc06a7);
    R b c d e f g h a (Const 0xc19bf274);
    R a b c d e f g h (Incr 0xe49b69c1 w0 (Sg0 w1));
    R h a b c d e f g (Incr 0xefbe4786 w1 (Cst 0xa00000 ⊞ Sg0 w2));
    R g h a b c d e f (Incr 0x0fc19dc6 w2 (Sg1 w0 ⊞ Sg0 w3));
    R f g h a b c d e (Incr 0x240ca1cc w3 (Sg1 w1 ⊞ Sg0 w4));
    R e f g h a b c d (Incr 0x2de92c6f w4 (Sg1 w2 ⊞ Sg0 w5));
    R d e f g h a b c (Incr 0x4a7484aa w5 (Sg1 w3 ⊞ Sg0 w6));
    R c d e f g h a b (Incr 0x5cb0a9dc w6 (Sg1 w4 ⊞ Cst 0x100 ⊞ Sg0 w7));
    R b c d e f g h a (Incr 0x76f988da w7 (Sg1 w5 ⊞ Wd w0 ⊞ Cst 0x11002000));
    R a b c d e f g h (Assign 0x983e5152 w8 (Cst 0x80000000 ⊞ Sg1 w6 ⊞ Wd w1));
    R h a b c d e f g (Assign 0xa831c66d w9 (Sg1 w7 ⊞ Wd w2));
    R g h a b c d e f (Assign 0xb00327c8 w10 (Sg1 w8 ⊞ Wd w3));
    R f g h a b c d e (Assign 0xbf597fc7 w11 (Sg1 w9 ⊞ Wd w4));
    R e f g h a b c d (Assign 0xc6e00bf3 w12 (Sg1 w10 ⊞ Wd w5));
    R d e f g h a b c (Assign 0xd5a79147 w13 (Sg1 w11 ⊞ Wd w6));
    R c d e f g h a b (Assign 0x06ca6351 w14 (Sg1 w12 ⊞ Wd w7 ⊞ Cst 0x400022));
    R b c d e f g h a (Assign 0x14292967 w15 (Cst 0x100 ⊞ Sg1 w13 ⊞ Wd w8 ⊞ Sg0 w0));
    R a b c d e f g h (Incr 0x27b70a85 w0 (Sg1 w14 ⊞ Wd w9 ⊞ Sg0 w1));
    R h a b c d e f g (Incr 0x2e1b2138 w1 (Sg1 w15 ⊞ Wd w10 ⊞ Sg0 w2));
    R g h a b c d e f (Incr 0x4d2c6dfc w2 (Sg1 w0 ⊞ Wd w11 ⊞ Sg0 w3));
    R f g h a b c d e (Incr 0x53380d13 w3 (Sg1 w1 ⊞ Wd w12 ⊞ Sg0 w4));
    R e f g h a b c d (Incr 0x650a7354 w4 (Sg1 w2 ⊞ Wd w13 ⊞ Sg0 w5));
    R d e f g h a b c (Incr 0x766a0abb w5 (Sg1 w3 ⊞ Wd w14 ⊞ Sg0 w6));
    R c d e f g h a b (Incr 0x81c2c92e w6 (Sg1 w4 ⊞ Wd w15 ⊞ Sg0 w7));
    R b c d e f g h a (Incr 0x92722c85 w7 (Sg1 w5 ⊞ Wd w0 ⊞ Sg0 w8));
    R a b c d e f g h (Incr 0xa2bfe8a1 w8 (Sg1 w6 ⊞ Wd w1 ⊞ Sg0 w9));
    R h a b c d e f g (Incr 0xa81a664b w9 (Sg1 w7 ⊞ Wd w2 ⊞ Sg0 w10));
    R g h a b c d e f (Incr 0xc24b8b70 w10 (Sg1 w8 ⊞ Wd w3 ⊞ Sg0 w11));
    R f g h a b c d e (Incr 0xc76c51a3 w11 (Sg1 w9 ⊞ Wd w4 ⊞ Sg0 w12));
    R e f g h a b c d (Incr 0xd192e819 w12 (Sg1 w10 ⊞ Wd w5 ⊞ Sg0 w13));
    R d e f g h a b c (Incr 0xd6990624 w13 (Sg1 w11 ⊞ Wd w6 ⊞ Sg0 w14));
    R c d e f g h a b (Incr 0xf40e3585 w14 (Sg1 w12 ⊞ Wd w7 ⊞ Sg0 w15));
    R b c d e f g h a (Incr 0x106aa070 w15 (Sg1 w13 ⊞ Wd w8 ⊞ Sg0 w0));
    R a b c d e f g h (Incr 0x19a4c116 w0 (Sg1 w14 ⊞ Wd w9 ⊞ Sg0 w1));
    R h a b c d e f g (Incr 0x1e376c08 w1 (Sg1 w15 ⊞ Wd w10 ⊞ Sg0 w2));
    R g h a b c d e f (Incr 0x2748774c w2 (Sg1 w0 ⊞ Wd w11 ⊞ Sg0 w3));
    R f g h a b c d e (Incr 0x34b0bcb5 w3 (Sg1 w1 ⊞ Wd w12 ⊞ Sg0 w4));
    R e f g h a b c d (Incr 0x391c0cb3 w4 (Sg1 w2 ⊞ Wd w13 ⊞ Sg0 w5));
    R d e f g h a b c (Incr 0x4ed8aa4a w5 (Sg1 w3 ⊞ Wd w14 ⊞ Sg0 w6));
    R c d e f g h a b (Incr 0x5b9cca4f w6 (Sg1 w4 ⊞ Wd w15 ⊞ Sg0 w7));
    R b c d e f g h a (Incr 0x682e6ff3 w7 (Sg1 w5 ⊞ Wd w0 ⊞ Sg0 w8));
    R a b c d e f g h (Incr 0x748f82ee w8 (Sg1 w6 ⊞ Wd w1 ⊞ Sg0 w9));
    R h a b c d e f g (Incr 0x78a5636f w9 (Sg1 w7 ⊞ Wd w2 ⊞ Sg0 w10));
    R g h a b c d e f (Incr 0x84c87814 w10 (Sg1 w8 ⊞ Wd w3 ⊞ Sg0 w11));
    R f g h a b c d e (Incr 0x8cc70208 w11 (Sg1 w9 ⊞ Wd w4 ⊞ Sg0 w12));
    R e f g h a b c d (Incr 0x90befffa w12 (Sg1 w10 ⊞ Wd w5 ⊞ Sg0 w13));
    R d e f g h a b c (Incr 0xa4506ceb w13 (Sg1 w11 ⊞ Wd w6 ⊞ Sg0 w14));
    R c d e f g h a b (Use 0xbef9a3f7 (Wd w14 ⊞ Sg1 w12 ⊞ Wd w7 ⊞ Sg0 w15));
    R b c d e f g h a (Use 0xc67178f2 (Wd w15 ⊞ Sg1 w13 ⊞ Wd w8 ⊞ Sg0 w0)) ].

End lines.

Definition run : list Z -> list line -> list Z * list Z -> list Z * list Z :=
  exec 32 sigma0 sigma1 ReadBE32 Round_arg.
Definition add32 : list Z -> list Z -> list Z := zip_with (fun x y => u32 (x + y)).

(** [w0 ... w15] before their first assignment. *)
Definition no_words : list Z := replicate 16 0.

(** One turn of the loop of [Transform], and the loop. *)
Definition Transform_block (s chunk : list Z) : list Z :=
  let '(v, _) := run chunk Transform_lines (s, no_words) in
  add32 s v.
Definition Transform (s chunk : list Z) (blocks : nat) : list Z :=
  transform_blocks 64 Transform_block blocks s chunk.

Definition TransformD64 (out inp : list Z) : list Z :=
  let '(v, ws) := run inp D64_lines1 (Initialize, no_words) in
  let t := add32 v Initialize in
  let '(v, ws) := run inp D64_lines2 (t, ws) in
  let ws := add32 t v ++ drop 8 ws in
  let '(v, _) := run inp D64_lines3 (Initialize, ws) in
  WriteBEs 4 out 0 (add32 v Initialize).

Definition padding1 : list Z := 0x80 :: replicate 61 0 ++ [2; 0].
Definition buffer2 : list Z := replicate 32 0 ++ [0x80] ++ replicate 29 0 ++ [1; 0].
Definition TransformD64Wrapper (tr : list Z -> list Z -> nat -> list Z) (out inp : list Z) : list Z :=
  let s := tr Initialize inp 1%nat in
  let s := tr s padding1 1%nat in
  let buffer2 := WriteBEs 4 buffer2 0 s in
  let s := tr Initialize buffer2 1%nat in
  WriteBEs 4 out 0 s.

(** ** The streaming class *)

Definition CSHA256 : Type := Ctx (list Z).
(** The buffer of a new object has arbitrary contents. *)
Definition CSHA256_init (junk : list Z) : CSHA256 := mkCtx Initialize junk 0.

Definition Write (c : CSHA256) (data : list Z) : CSHA256 :=
  let '(c, data, bufsize) := fill_buffer 64 (fun s b => Transform s b 1) c data in
  let '(c, data) :=
    if (64 <=? length data)%nat then
      let blocks := (length data / 64)%nat in
      (mkCtx (Transform (s c) data blocks) (buf c) (u64 (bytes c + 64 * blocks)), drop (64 * blocks) data)
    else (c, data) in
  keep_rest c data bufsize.

Definition pad : list Z := 0x80 :: replicate 63 0.

(** [Finalize]: the context after it, and the hash. *)
Definition Finalize (c : CSHA256) (hash : list Z) : CSHA256 * list Z :=
  let sizedesc := WriteBE64 (replicate 8 0) 0 (u64 (bytes c ≪ 3)) in
  let c := Write c (take (Z.to_nat (1 + (119 - bytes c mod 64) mod 64)) pad) in
  let c := Write c sizedesc in
  (c, WriteBEs 4 hash 0 (s c)).

Definition Reset (c : CSHA256) : CSHA256 := mkCtx Initialize (buf c) 0.

(** ** Batches *)

(** [while (blocks >= n) { f(out, in); out += 32 n; in += 64 n; blocks -= n; }]:
    the output so far, the rest of the input and the blocks left. *)
Fixpoint D64_batch (fuel n : nat) (f : list Z -> list Z) (st : list Z * list Z * nat) : list Z * list Z * nat :=
  match fuel with
  | O => st
  | S fuel' =>
      let '(out, inp, blocks) := st in
      if (n <=? blocks)%nat
      then D64_batch fuel' n f (out ++ f inp, drop (64 * n) inp, (blocks - n)%nat) else st
  end.
Definition D64_way (n : nat) (f : option (list Z -> list Z)) (st : list Z * list Z * nat) : list Z * list Z * nat :=
  match f with Some f => D64_batch st.2 n f st | None => st end.

(** [SHA256D64]; the multi-way routines are function pointers set at start-up. *)
Definition SHA256D64 (way8 way4 way2 : option (list Z -> list Z)) (way1 : list Z -> list Z)
    (inp : list Z) (blocks : nat) : list Z :=
  let st := D64_way 8 way8 ([], inp, blocks) in
  let st := D64_way 4 way4 st in
  let st := D64_way 2 way2 st in
  (D64_way 1 (Some way1) st).1.1.

(** ** The self test *)

Definition bytes_of (t : string) : list Z := map (fun x => Z.of_nat (nat_of_ascii x)) (String.list_ascii_of_string t).
#[local] Open Scope string_scope.
Definition data_text : string :=
    "Lorem ipsum dolor sit amet, consectetur adipiscing elit, sed do " +:+
    "eiusmod tempor incididunt ut labore et dolore magna aliqua. Et m" +:+
    "olestie ac feugiat sed lectus vestibulum mattis ullamcorper. Mor" +:+
    "bi blandit cursus risus at ultrices mi tempus imperdiet nulla. N" +:+
    "unc congue nisi vita suscipit tellus mauris. Imperdiet proin fer" +:+
    "mentum leo vel orci. Massa tempor nec feugiat nisl pretium fusce" +:+
    " id velit. Telus in metus vulputate eu scelerisque felis. Mi tem" +:+
    "pus imperdiet nulla malesuada pellentesque. Tristique magna sit.".
#[local] Close Scope string_scope.
Definition data : list Z := bytes_of data_text.
Definition result : list (list Z) :=
  [ [0x6a09e667; 0xbb67ae85; 0x3c6ef372; 0xa54ff53a; 0x510e527f; 0x9b05688c; 0x1f83d9ab; 0x5be0cd19];
    [0x91f8ec6b; 0x4da10fe3; 0x1c9c292c; 0x45e18185; 0x435cc111; 0x3ca26f09; 0xeb954cae; 0x402a7069];
    [0xcabea5ac; 0x374fb97c; 0x182ad996; 0x7bd69cbf; 0x450ff900; 0xc1d2be8a; 0x6a41d505; 0xe6212dc3];
    [0xbcff09d6; 0x3e76f36e; 0x3ecb2501; 0x78866e97; 0xe1c1e2fd; 0x32f4eaff; 0x8aa6c4e5; 0xdfc024bc];
    [0xa08c5d94; 0x0a862f93; 0x6b7f2f40; 0x8f9fae76; 0x6d40439f; 0x79dcee0c; 0x3e39ff3a; 0xdc3bdbb1];
    [0x216a0895; 0x9f1a3662; 0xe99946f9; 0x87ba4364; 0x0fb5db2c; 0x12bed3d3; 0x6689c0c7; 0x292f1b04];
    [0xca3067f8; 0xbc8c2656; 0x37cb7e0d; 0x9b6b8b0f; 0x46dc380b; 0xf1287f57; 0xc42e4b23; 0x3fefe94d];
    [0x3e4c4039; 0xbb6fca8c; 0x6f27d2f7; 0x301e44a4; 0x8352ba14; 0x5769ce37; 0x48a1155f; 0xc0e1c4c6];
    [0xfe2fa9dd; 0x69d0862b; 0x1ae0db23; 0x471f9244; 0xf55c0145; 0xc30f9c3b; 0x40a84ea0; 0x5b8a266c] ].
Definition result_d64 : list Z :=
  [ 0x09; 0x3a; 0xc4; 0xd0; 0x0f; 0xf7; 0x57; 0xe1; 0x72; 0x85; 0x79; 0x42; 0xfe; 0xe7; 0xe0; 0xa0;
    0xfc; 0x52; 0xd7; 0xdb; 0x07; 0x63; 0x45; 0xfb; 0x53; 0x14; 0x7d; 0x17; 0x22; 0x86; 0xf0; 0x52;
    0x48; 0xb6; 0x11; 0x9e; 0x6e; 0x48; 0x81; 0x6d; 0xcc; 0x57; 0x1f; 0xb2; 0x97; 0xa8; 0xd5; 0x25;
    0x9b; 0x82; 0xaa; 0x89; 0xe2; 0xfd; 0x2d; 0x56; 0xe8; 0x28; 0x83; 0x0b; 0xe2; 0xfa; 0x53; 0xb7;
    0xd6; 0x6b; 0x07; 0x85; 0x83; 0xb0; 0x10; 0xa2; 0xf5; 0x51; 0x3c; 0xf9; 0x60; 0x03; 0xab; 0x45;
    0x6c; 0x15; 0x6e; 0xef; 0xb5; 0xac; 0x3e; 0x6c; 0xdf; 0xb4; 0x92; 0x22; 0x2d; 0xce; 0xbf; 0x3e;
    0xe9; 0xe5; 0xf6; 0x29; 0x0e; 0x01; 0x4f; 0xd2; 0xd4; 0x45; 0x65; 0xb3; 0xbb; 0xf2; 0x4c; 0x16;
    0x37; 0x50; 0x3c; 0x6e; 0x49; 0x8c; 0x5a; 0x89; 0x2b; 0x1b; 0xab; 0xc4; 0x37; 0xd1; 0x46; 0xe9;
    0x3d; 0x0e; 0x85; 0xa2; 0x50; 0x73; 0xa1; 0x5e; 0x54; 0x37; 0xd7; 0x94; 0x17; 0x56; 0xc2; 0xd8;
    0xe5; 0x9f; 0xed; 0x4e; 0xae; 0x15; 0x42; 0x06; 0x0d; 0x74; 0x74; 0x5e; 0x24; 0x30; 0xce; 0xd1;
    0x9e; 0x50; 0xa3; 0x9a; 0xb8; 0xf0; 0x4a; 0x57; 0x69; 0x78; 0x67; 0x12; 0x84; 0x58; 0xbe; 0xc7;
    0x36; 0xaa; 0xee; 0x7c; 0x64; 0xa3; 0x76; 0xec; 0xff; 0x55; 0x41; 0x00; 0x2a; 0x44; 0x68; 0x4d;
    0xb6; 0x53; 0x9e; 0x1c; 0x95; 0xb7; 0xca; 0xdc; 0x7f; 0x7d; 0x74; 0x27; 0x5c; 0x8e; 0xa6; 0x84;
    0xb5; 0xac; 0x87; 0xa9; 0xf3; 0xff; 0x75; 0xf2; 0x34; 0xcd; 0x1a; 0x3b; 0x82; 0x2c; 0x2b; 0x4e;
    0x6a; 0x46; 0x30; 0xa6; 0x89; 0x86; 0x23; 0xac; 0xf8; 0xa5; 0x15; 0xe9; 0x0a; 0xaa; 0x1e; 0x9a;
    0xd7; 0x93; 0x6b; 0x28; 0xe4; 0x3b; 0xfd; 0x59; 0xc6; 0xed; 0x7c; 0x5f; 0xa5; 0x41; 0xcb; 0x51 ].

Definition SelfTest_way (n : nat) (f : option (list Z -> list Z)) : bool :=
  match f with Some f => bool_decide (f data = take (32 * n) result_d64) | None => true end.
Definition SelfTest (tr : list Z -> list Z -> nat -> list Z) (way1 : list Z -> list Z)
    (way2 way4 way8 : option (list Z -> list Z)) : bool :=
  forallb (fun i => bool_decide (tr Initialize data i = nth i result [])) (seq 0 9) &&
  SelfTest_way 1 (Some way1) && SelfTest_way 2 way2 && SelfTest_way 4 way4 && SelfTest_way 8 way8.

End Sha256.
