(* ===== verification/Sha256Theory.v ===== *)
(** * SHA-256: the implementation computes the standard

    The unrolled compression function is compression of FIPS 180-4, the
    streaming class computes the digest of the concatenation of what it is
    given, and the routines specialised to 64-byte inputs compute the double
    digest. *)
From stdpp Require Import prelude.
From S2P Require Import Prelude Uint256 HashStream Fips180 Sha2Lines Sha2Theory Sha256.

Module Sha256Theory.
Import Sha256.

#[local] Abbreviation P := FIPS.sha256.

(** ** Rounds *)

Lemma u32_add_l x y : u32 (u32 x + y) = u32 (x + y).
Proof. unfold u32, uwrap. by rewrite Zplus_mod_idemp_l. Qed.
Lemma u32_add_r x y : u32 (x + u32 y) = u32 (x + y).
Proof. unfold u32, uwrap. by rewrite Zplus_mod_idemp_r. Qed.

Lemma Round_arg_fips256 a b c d e f g h k x :
  let T1 := h + FIPS.Sigma P (FIPS.bigsigma1 P) e + FIPS.Ch e f g + (k + default 0 x) in
  Round_arg a b c d e f g h k x =
    (uwrap 32 (d + T1), uwrap 32 (T1 + (FIPS.Sigma P (FIPS.bigsigma0 P) a + FIPS.Maj a b c))).
Proof.
  cbv zeta. rewrite <- Ch_bits, <- Maj_bits.
  change (FIPS.Sigma P (FIPS.bigsigma1 P) e) with (Sigma1 e).
  change (FIPS.Sigma P (FIPS.bigsigma0 P) a) with (Sigma0 a).
  unfold Round_arg, Round. cbv zeta. change (uwrap 32) with u32. fold (Ch e f g) (Maj a b c).
  generalize (Sigma1 e) (Ch e f g) (Sigma0 a) (Maj a b c). intros S1 C S0 M.
  replace (u32 (u32 (u32 (h + S1) + C) + match x with Some x => u32 (k + x) | None => k end)) with (u32 (h + S1 + C + (k + default 0 x)))
    by (rewrite (u32_add_l (h + S1)), u32_add_l; destruct x as [x|]; simpl; rewrite ?u32_add_r; f_equal; lia).
  rewrite u32_add_r, u32_add_l, u32_add_r. done.
Qed.

(** ** Checked lines *)

(** The schedule of the padding block of a 64-byte message. *)
Definition known2 (t : nat) : option Z := Some (words P (FIPS.pad P 64)).[t].
(** The padding of a 32-byte message. *)
Definition known3 (t : nat) : option Z :=
  if (t <? 8)%nat then None else if (t =? 8)%nat then Some 0x80000000
  else if (t <? 15)%nat then Some 0 else if (t =? 15)%nat then Some 0x100 else None.
Definition slots3 : list (option nat) := map Some (seq 0 8) ++ replicate 8 None.

Lemma Transform_lines_check256 :
  check 32 4 sigma0 sigma1 (fun _ => None) (FIPS.K P) true 0 (replicate 16 None) Transform_lines = true.
Proof. vm_compute. reflexivity. Qed.
Lemma D64_lines1_check :
  check 32 4 sigma0 sigma1 (fun _ => None) (FIPS.K P) true 0 (replicate 16 None) D64_lines1 = true.
Proof. vm_compute. reflexivity. Qed.
Lemma D64_lines2_check :
  check 32 4 sigma0 sigma1 known2 (FIPS.K P) false 0 (replicate 16 None) D64_lines2 = true.
Proof. vm_compute. reflexivity. Qed.
Lemma D64_lines3_check :
  check 32 4 sigma0 sigma1 known3 (FIPS.K P) false 0 slots3 D64_lines3 = true.
Proof. vm_compute. reflexivity. Qed.
Lemma Initialize_fips256 : Initialize = FIPS.H0 P.
Proof. vm_compute. reflexivity. Qed.

Lemma K_length256 : length (FIPS.K P) = 64%nat.
Proof. vm_compute. reflexivity. Qed.

Lemma H0_length256 : length (FIPS.H0 P) = 8%nat.
Proof. by rewrite <- Initialize_fips256. Qed.

Lemma run_generic256 chunk ls st : run chunk ls st = Sha2Theory.run P 4 Round_arg chunk ls st.
Proof. reflexivity. Qed.

(** Lines that pass the check compute the rounds over the schedule of [M]. *)
Lemma run_rounds256 loads known slots chunk ls (M v ws : list Z) :
  check 32 4 sigma0 sigma1 known (FIPS.K P) loads 0 slots ls = true -> length ls = 64%nat ->
  (forall t c, (t < 64)%nat -> known t = Some c -> (words P M).[t] = c) ->
  (loads = true -> chunk = M) -> slots_ok 64 (words P M) slots ws -> length v = 8%nat ->
  (run chunk ls (v, ws)).1 = foldl (FIPS.step P) v (zip_with Z.add (FIPS.K P) (words P M)).
Proof.
  rewrite run_generic256. apply (Sha2Theory.run_rounds P 4 Round_arg);
    [reflexivity|lia|simpl; lia|reflexivity|exact K_length256|exact H0_length256|exact Round_arg_fips256].
Qed.

#[local] Abbreviation compress_length := (Sha2Theory.compress_length P).
#[local] Abbreviation compress_take := (Sha2Theory.compress_take P 4 eq_refl).
#[local] Abbreviation compress_def := (Sha2Theory.compress_def P).

(** ** [Transform] *)

Lemma Transform_block_lines s chunk :
  Transform_block s chunk = addw P s (Sha2Theory.run P 4 Round_arg chunk Transform_lines (s, replicate 16 0)).1.
Proof.
  unfold Transform_block, no_words. rewrite run_generic256.
  by destruct (Sha2Theory.run P 4 Round_arg chunk Transform_lines _).
Qed.

Lemma Transform_block_fips256 s chunk : length s = 8%nat -> Transform_block s chunk = FIPS.compress P s chunk.
Proof.
  apply (Transform_fips P 4 Round_arg) with (lines := Transform_lines);
    [reflexivity|lia|simpl; lia|reflexivity|exact K_length256|exact H0_length256|exact Round_arg_fips256|
     exact Transform_block_lines|exact Transform_lines_check256|reflexivity|vm_compute; reflexivity].
Qed.

Lemma Transform_take256 s chunk : (64 <= length chunk)%nat -> Transform_block s (take 64 chunk) = Transform_block s chunk.
Proof.
  apply (Sha2Theory.Transform_take P 4 Round_arg) with (lines := Transform_lines);
    [exact Transform_block_lines|vm_compute; reflexivity].
Qed.

Lemma Transform_blocks_fips256 n s chunk :
  length s = 8%nat -> transform_blocks 64 Transform_block n s chunk = FIPS.compress_blocks P n s chunk.
Proof.
  apply (Sha2Theory.Transform_blocks_fips P 4 Round_arg) with (lines := Transform_lines);
    [reflexivity|lia|simpl; lia|reflexivity|exact K_length256|exact H0_length256|exact Round_arg_fips256|
     exact Transform_block_lines|exact Transform_lines_check256|reflexivity|vm_compute; reflexivity].
Qed.

(** ** The streaming class *)

Lemma Write_generic c data : Write c data = HashStream.Write 64 Transform_block c data.
Proof.
  unfold Write, HashStream.Write. change (fun s b => Transform s b 1) with Transform_block.
  destruct (fill_buffer 64 Transform_block c data) as [[c' data'] bs].
  rewrite full_chunks_blocks by lia. done.
Qed.

Lemma Write_ok256 s0 c msg data :
  represents 64 Transform_block s0 c msg -> represents 64 Transform_block s0 (Write c data) (msg ++ data).
Proof.
  intros H. rewrite Write_generic. apply Write_represents; [lia| |exact Transform_take256|done].
  by exists (2 ^ 58).
Qed.

Lemma Writes_ok256 s0 c msg ds :
  represents 64 Transform_block s0 c msg ->
  represents 64 Transform_block s0 (foldl Write c ds) (msg ++ concat ds).
Proof.
  revert c msg. induction ds as [|d ds IH]; intros c msg H; simpl; [by rewrite app_nil_r|].
  rewrite app_assoc. apply IH. by apply Write_ok256.
Qed.

(** A context that represents a message finalizes to its digest. *)
Lemma Finalize_digest256 c msg hash :
  represents 64 Transform_block Initialize c msg -> length hash = 32%nat ->
  (Finalize c hash).2 = FIPS.digest P msg.
Proof.
  intros Hrep Hh. assert (bytes c = u64 (length msg)) as Hb by (by destruct Hrep as (?&?&?&?&?&?&?&?&?&?)).
  unfold Finalize, pad. cbn [snd]. rewrite Hb.
  pose proof (Write_ok256 _ _ _ (take (Z.to_nat (1 + (119 - u64 (length msg) mod 64) mod 64)) pad) Hrep) as H1.
  pose proof (Write_ok256 _ _ _ (WriteBE64 (replicate 8 0) 0 (u64 (u64 (length msg) ≪ 3))) H1) as H2.
  unfold pad in H2. rewrite <- app_assoc, (pad_64 (length msg)) in H2.
  rewrite Initialize_fips256 in H2.
  refine (represents_digest P 4 Round_arg _ _ _ _ _ _ _ Transform_block Transform_lines _ _ _ _ _ msg hash _ H2 Hh);
    [reflexivity|lia|simpl; lia|reflexivity|exact K_length256|exact H0_length256|exact Round_arg_fips256|
     exact Transform_block_lines|exact Transform_lines_check256|reflexivity|vm_compute; reflexivity|by left].
Qed.

(** ** The double hash of a block *)

(** The words of the padding of a 32-byte message. *)
Lemma pad_32_word D i :
  length D = 8%nat -> (i < 8)%nat ->
  (words P (be_words 4 D ++ FIPS.pad P 32)).[8 + i] = ReadBE32 (FIPS.pad P 32) (i * 4).
Proof.
  intros HD Hi. rewrite (words_prefix P 4 eq_refl) by lia. unfold ReadBE32.
  replace (8 + i)%nat with (length D + i)%nat by lia. apply be_words_read_ge.
Qed.

Lemma known3_spec D t c :
  length D = 8%nat -> known3 t = Some c ->
  (words P (be_words 4 D ++ FIPS.pad P 32)).[t] = c.
Proof.
  intros HD Hk. assert (8 <= t < 16)%nat as Ht.
  { unfold known3 in Hk. repeat (case_if_in Hk; [first [done|lia]|]). done. }
  replace t with (8 + (t - 8))%nat in * by lia. rewrite pad_32_word by (done || lia).
  revert Hk Ht. generalize (t - 8)%nat as i. intros i Hk Ht.
  do 8 (destruct i as [|i]; [injection Hk as <-; vm_compute; reflexivity|]). lia.
Qed.

Lemma slots3_ok D ws :
  length D = 8%nat -> digits 32 D -> length ws = 8%nat ->
  slots_ok 64 (words P (be_words 4 D ++ FIPS.pad P 32)) slots3 (D ++ ws).
Proof.
  intros HD Hdig Hws. split; [by rewrite length_app, HD, Hws|]. intros i t H.
  assert (i = t /\ t < 8)%nat as [-> Ht].
  { do 8 (destruct i as [|i]; [simpl in H; simplify_eq; lia|]). cbn in H.
    do 8 (destruct i as [|i]; [done|]). done. }
  split; [lia|]. rewrite app_nth1 by lia.
  rewrite (words_prefix P 4 eq_refl) by lia. by rewrite be_words_read by (done || lia).
Qed.

Lemma be_words_fips l :
  concat (map (fun x => rev (le_digits 8 (Z.to_nat (FIPS.width P / 8)) x)) l) = be_words 4 l.
Proof. reflexivity. Qed.

Definition double_digest (M : list Z) : list Z := FIPS.digest P (FIPS.digest P M).

Lemma digest_64 M :
  length M = 64%nat ->
  FIPS.digest P M = be_words 4 (FIPS.compress P (FIPS.compress P (FIPS.H0 P) M) (FIPS.pad P 64)).
Proof.
  intros HM. unfold FIPS.digest. rewrite HM. change (FIPS.block_size P) with 64%nat.
  replace (length (M ++ FIPS.pad P 64) / 64)%nat with 2%nat by (rewrite length_app, HM; reflexivity).
  cbn [FIPS.compress_blocks]. change (FIPS.block_size P) with 64%nat.
  rewrite take_app_length', drop_app_length', compress_take by done. apply be_words_fips.
Qed.

Lemma digest_32 D :
  length D = 8%nat ->
  FIPS.digest P (be_words 4 D) = be_words 4 (FIPS.compress P (FIPS.H0 P) (be_words 4 D ++ FIPS.pad P 32)).
Proof.
  intros HD. unfold FIPS.digest. rewrite be_words_length, HD. change (4 * 8)%nat with 32%nat.
  change (FIPS.block_size P) with 64%nat.
  replace (length (be_words 4 D ++ FIPS.pad P 32) / 64)%nat with 1%nat
    by (rewrite length_app, be_words_length, HD; reflexivity).
  cbn [FIPS.compress_blocks]. change (FIPS.block_size P) with 64%nat. rewrite compress_take. apply be_words_fips.
Qed.

Lemma known2_spec t c :
  (t < 64)%nat -> known2 t = Some c -> (words P (FIPS.pad P 64)).[t] = c.
Proof. intros _ Hk. unfold known2 in Hk. apply Some_inj in Hk. exact Hk. Qed.

#[local] Opaque FIPS.K FIPS.schedule FIPS.compress FIPS.pad FIPS.H0.

(** The three passes of [TransformD64]. *)
Lemma D64_first inp :
  add32 (run inp D64_lines1 (Initialize, no_words)).1 Initialize = FIPS.compress P (FIPS.H0 P) inp.
Proof.
  rewrite compress_def, <- Initialize_fips256, addw_comm. f_equal.
  exact (run_rounds256 true (fun _ => None) (replicate 16 None) inp D64_lines1 inp Initialize no_words
    D64_lines1_check eq_refl ltac:(discriminate) ltac:(done) (slots_none 64 _ no_words eq_refl) eq_refl).
Qed.

Lemma D64_second inp t ws :
  length t = 8%nat -> length ws = 16%nat ->
  add32 t (run inp D64_lines2 (t, ws)).1 = FIPS.compress P t (FIPS.pad P 64).
Proof.
  intros Ht Hws. rewrite compress_def. f_equal.
  exact (run_rounds256 false known2 (replicate 16 None) inp D64_lines2 (FIPS.pad P 64) t ws
    D64_lines2_check eq_refl known2_spec ltac:(done) (slots_none 64 _ ws Hws) Ht).
Qed.

Lemma D64_third inp D ws :
  length D = 8%nat -> digits 32 D -> length ws = 8%nat ->
  add32 (run inp D64_lines3 (Initialize, D ++ ws)).1 Initialize =
    FIPS.compress P (FIPS.H0 P) (be_words 4 D ++ FIPS.pad P 32).
Proof.
  intros HD HdD Hws. rewrite compress_def, <- Initialize_fips256, addw_comm. f_equal.
  exact (run_rounds256 false known3 slots3 inp D64_lines3 (be_words 4 D ++ FIPS.pad P 32) Initialize (D ++ ws)
    D64_lines3_check eq_refl (fun t c _ => known3_spec D t c HD) ltac:(done) (slots3_ok D ws HD HdD Hws) eq_refl).
Qed.

Lemma run_words_length256 inp ls st : length (run inp ls st).2 = length st.2.
Proof. rewrite run_generic256. apply Sha2Theory.run_words_length. Qed.

Lemma TransformD64_spec out inp :
  (64 <= length inp)%nat -> length out = 32%nat -> TransformD64 out inp = double_digest (take 64 inp).
Proof.
  intros Hinp Hout. unfold TransformD64.
  pose proof (D64_first inp) as H1. pose proof (run_words_length256 inp D64_lines1 (Initialize, no_words)) as L1.
  destruct (run inp D64_lines1 _) as [v1 ws1]. cbn [fst snd] in H1, L1. rewrite H1. clear H1.
  pose proof (compress_length _ inp H0_length256) as Ht.
  remember (FIPS.compress P (FIPS.H0 P) inp) as t eqn:Et.
  pose proof (D64_second inp t ws1 Ht L1) as H2. pose proof (run_words_length256 inp D64_lines2 (t, ws1)) as L2.
  destruct (run inp D64_lines2 _) as [v2 ws2]. cbn [fst snd] in H2, L2. rewrite H2. clear H2.
  pose proof (compress_length _ (FIPS.pad P 64) Ht) as HD. pose proof (compress_digits P 4 eq_refl t (FIPS.pad P 64)) as HdD.
  remember (FIPS.compress P t (FIPS.pad P 64)) as D eqn:ED.
  pose proof (D64_third inp D (drop 8 ws2) HD HdD ltac:(by rewrite length_drop, L2, L1)) as H3.
  destruct (run inp D64_lines3 _) as [v3 ws3]. cbn [fst snd] in H3. rewrite H3.
  rewrite WriteBEs_all by (pose proof (compress_length _ (be_words 4 D ++ FIPS.pad P 32) H0_length256); lia).
  unfold double_digest. rewrite (digest_64 (take 64 inp)) by (rewrite length_take; lia).
  rewrite compress_take, <- Et, <- ED. symmetry. exact (digest_32 D HD).
Qed.

Lemma TransformD64Wrapper_spec out inp :
  (64 <= length inp)%nat -> length out = 32%nat ->
  TransformD64Wrapper Transform out inp = double_digest (take 64 inp).
Proof.
  intros Hinp Hout. unfold TransformD64Wrapper, Transform. cbn [transform_blocks].
  rewrite (Transform_block_fips256 Initialize inp) by done. rewrite Initialize_fips256.
  pose proof (compress_length _ inp H0_length256) as Ht.
  remember (FIPS.compress P (FIPS.H0 P) inp) as t eqn:Et.
  rewrite (Transform_block_fips256 t padding1) by done.
  replace padding1 with (FIPS.pad P 64) by (vm_compute; reflexivity).
  pose proof (compress_length _ (FIPS.pad P 64) Ht) as HD.
  remember (FIPS.compress P t (FIPS.pad P 64)) as D eqn:ED.
  rewrite (WriteBEs_spec 4 buffer2 0 D) by (rewrite HD; simpl; lia). rewrite HD.
  replace (drop (0 + 4 * 8) buffer2) with (FIPS.pad P 32) by (vm_compute; reflexivity). rewrite take_0, app_nil_l.
  rewrite (Transform_block_fips256 (FIPS.H0 P)) by apply H0_length256.
  pose proof (compress_length _ (be_words 4 D ++ FIPS.pad P 32) H0_length256) as HE.
  rewrite WriteBEs_all by lia. unfold double_digest.
  rewrite (digest_64 (take 64 inp)) by (rewrite length_take; lia).
  rewrite compress_take, <- Et, <- ED. symmetry. exact (digest_32 D HD).
Qed.

(** ** Batches *)

(** The double digests of the first [n] blocks. *)
Fixpoint double_digests (n : nat) (M : list Z) : list Z :=
  match n with
  | O => []
  | S n' => double_digest (take 64 M) ++ double_digests n' (drop 64 M)
  end.

Lemma double_digests_add m n M :
  double_digests (m + n) M = double_digests m M ++ double_digests n (drop (64 * m) M).
Proof.
  revert M. induction m as [|m IH]; intros M; cbn [double_digests Nat.add]; [by rewrite Nat.mul_0_r, drop_0|].
  rewrite IH, <- app_assoc, drop_drop. do 3 f_equal. f_equal. lia.
Qed.

Definition way_ok (n : nat) (f : list Z -> list Z) : Prop :=
  forall inp, (64 * n <= length inp)%nat -> f inp = double_digests n inp.

Lemma D64_batch_spec fuel n f out inp blocks :
  (0 < n)%nat -> way_ok n f -> (64 * blocks <= length inp)%nat -> (blocks <= fuel)%nat ->
  let '(out', inp', blocks') := D64_batch fuel n f (out, inp, blocks) in
  (blocks' < n)%nat /\ (64 * blocks' <= length inp')%nat /\
  out' ++ double_digests blocks' inp' = out ++ double_digests blocks inp.
Proof.
  intros Hn Hf. revert out inp blocks. induction fuel as [|fuel IH]; intros out inp blocks Hlen Hfuel; cbn [D64_batch].
  { split_and!; [lia|lia|done]. }
  case_if; [|split_and!; [lia|lia|done]].
  specialize (IH (out ++ f inp) (drop (64 * n) inp) (blocks - n)%nat ltac:(rewrite length_drop; lia) ltac:(lia)).
  destruct (D64_batch _ _ _ _) as [[out' inp'] blocks']. destruct IH as (? & ? & IH). split_and!; [done..|].
  rewrite IH, <- app_assoc, Hf by lia. replace blocks with (n + (blocks - n))%nat at 2 by lia.
  by rewrite double_digests_add.
Qed.

Lemma D64_way_spec n f out inp blocks :
  (0 < n)%nat -> (forall g, f = Some g -> way_ok n g) -> (64 * blocks <= length inp)%nat ->
  let '(out', inp', blocks') := D64_way n f (out, inp, blocks) in
  (64 * blocks' <= length inp')%nat /\ out' ++ double_digests blocks' inp' = out ++ double_digests blocks inp.
Proof.
  intros Hn Hf Hlen. unfold D64_way. destruct f as [f|]; [|done]. cbn [snd].
  pose proof (D64_batch_spec blocks n f out inp blocks Hn (Hf f eq_refl) Hlen ltac:(lia)) as H.
  destruct (D64_batch _ _ _ _) as [[out' inp'] blocks']. tauto.
Qed.

Lemma way1_ok out : length out = 32%nat -> way_ok 1 (TransformD64 out).
Proof.
  intros Ho inp Hinp. cbn [double_digests]. rewrite app_nil_r. apply TransformD64_spec; [lia|done].
Qed.

(** ** Properties *)

(** [Transform] over [n] chunks is [n] compressions of FIPS 180-4, for
    every chaining value and input, so its 64 unrolled lines, their constants
    and the in-place message schedule are right; and the start-up self test
    accepts the portable routines. *)
Theorem Transform_correct s chunk n :
  length s = 8%nat ->
  Transform s chunk n = FIPS.compress_blocks P n s chunk /\
  SelfTest Transform (TransformD64 (replicate 32 0)) None None None = true.
Proof.
  intros Hs. split; [|vm_compute; reflexivity]. apply (Transform_blocks_fips256 n s chunk Hs).
Qed.

Lemma Transform_correct_witness :
  Transform Initialize data 2 = FIPS.compress_blocks P 2 Initialize data /\
  SelfTest Transform (TransformD64 (replicate 32 0)) None None None = true.
Proof. exact (Transform_correct Initialize data 2 eq_refl). Defined.

(** C40: [CSHA256] computes the SHA-256 digest of the concatenation of the data
    written to it, however the message is cut into [Write] calls and whatever
    the buffer held before; a [Reset] object starts again. *)
Theorem CSHA256_correct junk hash used ds :
  length junk = 64%nat -> length hash = 32%nat ->
  (Finalize (foldl Write (CSHA256_init junk) ds) hash).2 = FIPS.digest P (concat ds) /\
  (Finalize (foldl Write (Reset (Finalize (foldl Write (CSHA256_init junk) used) hash).1) ds) hash).2 =
    FIPS.digest P (concat ds).
Proof.
  intros Hj Hh. split; (apply Finalize_digest256; [|exact Hh]).
  - apply (Writes_ok256 _ _ []). apply represents_nil; [lia|exact Hj].
  - apply (Writes_ok256 _ _ []). apply represents_nil; [lia|]. unfold Finalize. cbn [fst].
    set (c := foldl Write (CSHA256_init junk) used).
    assert (represents 64 Transform_block Initialize c (concat used)) as Hc
      by (apply (Writes_ok256 _ _ []); apply represents_nil; [lia|exact Hj]).
    pose proof (Write_ok256 _ _ _ (WriteBE64 (replicate 8 0) 0 (u64 (bytes c ≪ 3)))
      (Write_ok256 _ _ _ (take (Z.to_nat (1 + (119 - bytes c mod 64) mod 64)) pad) Hc)) as H.
    by destruct H as (? & ? & ? & _ & _ & _ & _ & _ & Hb & _).
Qed.

Lemma CSHA256_correct_witness :
  (Finalize (foldl Write (CSHA256_init (replicate 64 7)) [[97]; [98; 99]]) (replicate 32 0)).2 = FIPS.digest P [97; 98; 99] /\
  (Finalize (foldl Write (Reset (Finalize (foldl Write (CSHA256_init (replicate 64 7)) [data]) (replicate 32 0)).1)
     [[97]; [98; 99]]) (replicate 32 0)).2 = FIPS.digest P [97; 98; 99].
Proof. exact (CSHA256_correct (replicate 64 7) (replicate 32 0) [data] [[97]; [98; 99]] eq_refl eq_refl). Defined.

Lemma SHA256D64_ways way8 way4 way2 f inp blocks :
  (forall f, way8 = Some f -> way_ok 8 f) -> (forall f, way4 = Some f -> way_ok 4 f) ->
  (forall f, way2 = Some f -> way_ok 2 f) -> way_ok 1 f -> (64 * blocks <= length inp)%nat ->
  SHA256D64 way8 way4 way2 f inp blocks = double_digests blocks inp.
Proof.
  intros H8 H4 H2 Hf Hlen. unfold SHA256D64.
  pose proof (D64_way_spec 8 way8 [] inp blocks ltac:(lia) H8 Hlen) as E8.
  destruct (D64_way 8 way8 _) as [[o8 i8] b8]. destruct E8 as [L8 E8].
  pose proof (D64_way_spec 4 way4 o8 i8 b8 ltac:(lia) H4 L8) as E4.
  destruct (D64_way 4 way4 _) as [[o4 i4] b4]. destruct E4 as [L4 E4].
  pose proof (D64_way_spec 2 way2 o4 i4 b4 ltac:(lia) H2 L4) as E2.
  destruct (D64_way 2 way2 _) as [[o2 i2] b2]. destruct E2 as [L2 E2].
  pose proof (D64_batch_spec b2 1 f o2 i2 b2 ltac:(lia) Hf L2 ltac:(lia)) as E1.
  unfold D64_way. cbn [snd]. destruct (D64_batch b2 1 f _) as [[o1 i1] b1]. destruct E1 as (Hb & _ & E1).
  replace b1 with 0%nat in E1 by lia. cbn [double_digests] in E1. rewrite app_nil_r in E1. cbn [fst].
  by rewrite E1, E2, E4, E8.
Qed.

(** [SHA256D64] writes the double SHA-256 of every 64-byte block of its
    input, in order, whichever multi-way routines are installed, provided those
    agree with the standard on their own blocks; the portable [TransformD64]
    with its folded constants, and the wrapper around [Transform], do. *)
Theorem SHA256D64_correct way8 way4 way2 out inp blocks :
  (forall f, way8 = Some f -> way_ok 8 f) -> (forall f, way4 = Some f -> way_ok 4 f) ->
  (forall f, way2 = Some f -> way_ok 2 f) ->
  length out = 32%nat -> (64 * blocks <= length inp)%nat ->
  SHA256D64 way8 way4 way2 (TransformD64 out) inp blocks = double_digests blocks inp /\
  SHA256D64 way8 way4 way2 (TransformD64Wrapper Transform out) inp blocks = double_digests blocks inp.
Proof.
  intros H8 H4 H2 Ho Hlen. split; apply SHA256D64_ways; try done; [by apply way1_ok|].
  intros i Hi. cbn [double_digests]. rewrite app_nil_r. apply TransformD64Wrapper_spec; [lia|done].
Qed.

Lemma SHA256D64_correct_witness :
  SHA256D64 None (Some (double_digests 4)) None (TransformD64 (replicate 32 0)) data 5 = double_digests 5 data /\
  SHA256D64 None (Some (double_digests 4)) None (TransformD64Wrapper Transform (replicate 32 0)) data 5 = double_digests 5 data.
Proof.
  apply (SHA256D64_correct None (Some (double_digests 4)) None (replicate 32 0) data 5).
  - intros f Hf. discriminate Hf.
  - intros f Hf. apply Some_inj in Hf. subst f. intros i _. reflexivity.
  - intros f Hf. discriminate Hf.
  - reflexivity.
  - apply Nat.leb_le. vm_compute. reflexivity.
Defined.

End Sha256Theory.
