(* ===== verification/Sha512.v ===== *)
(** * SHA-512 ([crypto/sha512.cpp])

    The unrolled compression function, the streaming class [CSHA512], and the
    proof that they compute FIPS 180-4. *)
From stdpp Require Import prelude.
From S2P Require Import Prelude Uint256 HashStream Fips180 Sha2Lines Sha2Theory.

Module Sha512.

Definition Ch (x y z : Z) : Z := Z.lxor z (Z.land x (Z.lxor y z)).
Definition Maj (x y z : Z) : Z := Z.lor (Z.land x y) (Z.land z (Z.lor x y)).
Definition Sigma0 (x : Z) : Z :=
  Z.lxor (Z.lxor (Z.lor (x ≫ 28) (u64 (x ≪ 36))) (Z.lor (x ≫ 34) (u64 (x ≪ 30)))) (Z.lor (x ≫ 39) (u64 (x ≪ 25))).
Definition Sigma1 (x : Z) : Z :=
  Z.lxor (Z.lxor (Z.lor (x ≫ 14) (u64 (x ≪ 50))) (Z.lor (x ≫ 18) (u64 (x ≪ 46)))) (Z.lor (x ≫ 41) (u64 (x ≪ 23))).
Definition sigma0 (x : Z) : Z :=
  Z.lxor (Z.lxor (Z.lor (x ≫ 1) (u64 (x ≪ 63))) (Z.lor (x ≫ 8) (u64 (x ≪ 56)))) (x ≫ 7).
Definition sigma1 (x : Z) : Z :=
  Z.lxor (Z.lxor (Z.lor (x ≫ 19) (u64 (x ≪ 45))) (Z.lor (x ≫ 61) (u64 (x ≪ 3)))) (x ≫ 6).

(** One round; the result is the new [d] and [h]. *)
Definition Round (a b c d e f g h k w : Z) : Z * Z :=
  let t1 := u64 (u64 (u64 (u64 (h + Sigma1 e) + Ch e f g) + k) + w) in
  let t2 := u64 (Sigma0 a + Maj a b c) in
  (u64 (d + t1), u64 (t1 + t2)).
Definition Round_arg (a b c d e f g h k : Z) (x : option Z) : Z * Z := Round a b c d e f g h k (default 0 x).

Definition Initialize : list Z :=
  [0x6a09e667f3bcc908; 0xbb67ae8584caa73b; 0x3c6ef372fe94f82b; 0xa54ff53a5f1d36f1;
   0x510e527fade682d1; 0x9b05688c2b3e6c1f; 0x1f83d9abfb41bd6b; 0x5be0cd19137e2179].

Section lines.
#[local] Abbreviation a := 0%nat (only parsing).
#[local] Abbreviation b := 1%nat (only parsing).
#[local] Abbreviation c := 2%nat (only parsing).
#[local] Abbreviation d := 3%nat (only parsing).
#[local] Abbreviation e := 4%nat (only parsing).
#[local] Abbreviation f := 5%nat (only parsing).
#[local] Abbreviation g := 6%nat (only parsing).
#[local] Abbreviation h := 7%nat (only parsing).
#[local] Abbreviation w0 := 0%nat (only parsing).
#[local] Abbreviation w1 := 1%nat (only parsing).
#[local] Abbreviation w2 := 2%nat (only parsing).
#[local] Abbreviation w3 := 3%nat (only parsing).
#[local] Abbreviation w4 := 4%nat (only parsing).
#[local] Abbreviation w5 := 5%nat (only parsing).
#[local] Abbreviation w6 := 6%nat (only parsing).
#[local] Abbreviation w7 := 7%nat (only parsing).
#[local] Abbreviation w8 := 8%nat (only parsing).
#[local] Abbreviation w9 := 9%nat (only parsing).
#[local] Abbreviation w10 := 10%nat (only parsing).
#[local] Abbreviation w11 := 11%nat (only parsing).
#[local] Abbreviation w12 := 12%nat (only parsing).
#[local] Abbreviation w13 := 13%nat (only parsing).
#[local] Abbreviation w14 := 14%nat (only parsing).
#[local] Abbreviation w15 := 15%nat (only parsing).
#[local] Abbreviation R a b c d e f g h k := ([a; b; c; d; e; f; g; h], k) (only parsing).
#[local] Infix "⊞" := Plus (at level 50, left associativity, only parsing).

Definition Transform_lines : list line :=
  [ R a b c d e f g h (Load 0x428a2f98d728ae22 w0 0);
    R h a b c d e f g (Load 0x7137449123ef65cd w1 8);
    R g h a b c d e f (Load 0xb5c0fbcfec4d3b2f w2 16);
    R f g h a b c d e (Load 0xe9b5dba58189dbbc w3 24);
    R e f g h a b c d (Load 0x3956c25bf348b538 w4 32);
    R d e f g h a b c (Load 0x59f111f1b605d019 w5 40);
    R c d e f g h a b (Load 0x923f82a4af194f9b w6 48);
    R b c d e f g h a (Load 0xab1c5ed5da6d8118 w7 56);
    R a b c d e f g h (Load 0xd807aa98a3030242 w8 64);
    R h a b c d e f g (Load 0x12835b0145706fbe w9 72);
    R g h a b c d e f (Load 0x243185be4ee4b28c w10 80);
    R f g h a b c d e (Load 0x550c7dc3d5ffb4e2 w11 88);
    R e f g h a b c d (Load 0x72be5d74f27b896f w12 96);
    R d e f g h a b c (Load 0x80deb1fe3b1696b1 w13 104);
    R c d e f g h a b (Load 0x9bdc06a725c71235 w14 112);
    R b c d e f g h a (Load 0xc19bf174cf692694 w15 120);
    R a b c d e f g h (Incr 0xe49b69c19ef14ad2 w0 (Sg1 w14 ⊞ Wd w9 ⊞ Sg0 w1));
    R h a b c d e f g (Incr 0xefbe4786384f25e3 w1 (Sg1 w15 ⊞ Wd w10 ⊞ Sg0 w2));
    R g h a b c d e f (Incr 0x0fc19dc68b8cd5b5 w2 (Sg1 w0 ⊞ Wd w11 ⊞ Sg0 w3));
    R f g h a b c d e (Incr 0x240ca1cc77ac9c65 w3 (Sg1 w1 ⊞ Wd w12 ⊞ Sg0 w4));
    R e f g h a b c d (Incr 0x2de92c6f592b0275 w4 (Sg1 w2 ⊞ Wd w13 ⊞ Sg0 w5));
    R d e f g h a b c (Incr 0x4a7484aa6ea6e483 w5 (Sg1 w3 ⊞ Wd w14 ⊞ Sg0 w6));
    R c d e f g h a b (Incr 0x5cb0a9dcbd41fbd4 w6 (Sg1 w4 ⊞ Wd w15 ⊞ Sg0 w7));
    R b c d e f g h a (Incr 0x76f988da831153b5 w7 (Sg1 w5 ⊞ Wd w0 ⊞ Sg0 w8));
    R a b c d e f g h (Incr 0x983e5152ee66dfab w8 (Sg1 w6 ⊞ Wd w1 ⊞ Sg0 w9));
    R h a b c d e f g (Incr 0xa831c66d2db43210 w9 (Sg1 w7 ⊞ Wd w2 ⊞ Sg0 w10));
    R g h a b c d e f (Incr 0xb00327c898fb213f w10 (Sg1 w8 ⊞ Wd w3 ⊞ Sg0 w11));
    R f g h a b c d e (Incr 0xbf597fc7beef0ee4 w11 (Sg1 w9 ⊞ Wd w4 ⊞ Sg0 w12));
    R e f g h a b c d (Incr 0xc6e00bf33da88fc2 w12 (Sg1 w10 ⊞ Wd w5 ⊞ Sg0 w13));
    R d e f g h a b c (Incr 0xd5a79147930aa725 w13 (Sg1 w11 ⊞ Wd w6 ⊞ Sg0 w14));
    R c d e f g h a b (Incr 0x06ca6351e003826f w14 (Sg1 w12 ⊞ Wd w7 ⊞ Sg0 w15));
    R b c d e f g h a (Incr 0x142929670a0e6e70 w15 (Sg1 w13 ⊞ Wd w8 ⊞ Sg0 w0));
    R a b c d e f g h (Incr 0x27b70a8546d22ffc w0 (Sg1 w14 ⊞ Wd w9 ⊞ Sg0 w1));
    R h a b c d e f g (Incr 0x2e1b21385c26c926 w1 (Sg1 w15 ⊞ Wd w10 ⊞ Sg0 w2));
    R g h a b c d e f (Incr 0x4d2c6dfc5ac42aed w2 (Sg1 w0 ⊞ Wd w11 ⊞ Sg0 w3));
    R f g h a b c d e (Incr 0x53380d139d95b3df w3 (Sg1 w1 ⊞ Wd w12 ⊞ Sg0 w4));
    R e f g h a b c d (Incr 0x650a73548baf63de w4 (Sg1 w2 ⊞ Wd w13 ⊞ Sg0 w5));
    R d e f g h a b c (Incr 0x766a0abb3c77b2a8 w5 (Sg1 w3 ⊞ Wd w14 ⊞ Sg0 w6));
    R c d e f g h a b (Incr 0x81c2c92e47edaee6 w6 (Sg1 w4 ⊞ Wd w15 ⊞ Sg0 w7));
    R b c d e f g h a (Incr 0x92722c851482353b w7 (Sg1 w5 ⊞ Wd w0 ⊞ Sg0 w8));
    R a b c d e f g h (Incr 0xa2bfe8a14cf10364 w8 (Sg1 w6 ⊞ Wd w1 ⊞ Sg0 w9));
    R h a b c d e f g (Incr 0xa81a664bbc423001 w9 (Sg1 w7 ⊞ Wd w2 ⊞ Sg0 w10));
    R g h a b c d e f (Incr 0xc24b8b70d0f89791 w10 (Sg1 w8 ⊞ Wd w3 ⊞ Sg0 w11));
    R f g h a b c d e (Incr 0xc76c51a30654be30 w11 (Sg1 w9 ⊞ Wd w4 ⊞ Sg0 w12));
    R e f g h a b c d (Incr 0xd192e819d6ef5218 w12 (Sg1 w10 ⊞ Wd w5 ⊞ Sg0 w13));
    R d e f g h a b c (Incr 0xd69906245565a910 w13 (Sg1 w11 ⊞ Wd w6 ⊞ Sg0 w14));
    R c d e f g h a b (Incr 0xf40e35855771202a w14 (Sg1 w12 ⊞ Wd w7 ⊞ Sg0 w15));
    R b c d e f g h a (Incr 0x106aa07032bbd1b8 w15 (Sg1 w13 ⊞ Wd w8 ⊞ Sg0 w0));
    R a b c d e f g h (Incr 0x19a4c116b8d2d0c8 w0 (Sg1 w14 ⊞ Wd w9 ⊞ Sg0 w1));
    R h a b c d e f g (Incr 0x1e376c085141ab53 w1 (Sg1 w15 ⊞ Wd w10 ⊞ Sg0 w2));
    R g h a b c d e f (Incr 0x2748774cdf8eeb99 w2 (Sg1 w0 ⊞ Wd w11 ⊞ Sg0 w3));
    R f g h a b c d e (Incr 0x34b0bcb5e19b48a8 w3 (Sg1 w1 ⊞ Wd w12 ⊞ Sg0 w4));
    R e f g h a b c d (Incr 0x391c0cb3c5c95a63 w4 (Sg1 w2 ⊞ Wd w13 ⊞ Sg0 w5));
    R d e f g h a b c (Incr 0x4ed8aa4ae3418acb w5 (Sg1 w3 ⊞ Wd w14 ⊞ Sg0 w6));
    R c d e f g h a b (Incr 0x5b9cca4f7763e373 w6 (Sg1 w4 ⊞ Wd w15 ⊞ Sg0 w7));
    R b c d e f g h a (Incr 0x682e6ff3d6b2b8a3 w7 (Sg1 w5 ⊞ Wd w0 ⊞ Sg0 w8));
    R a b c d e f g h (Incr 0x748f82ee5defb2fc w8 (Sg1 w6 ⊞ Wd w1 ⊞ Sg0 w9));
    R h a b c d e f g (Incr 0x78a5636f43172f60 w9 (Sg1 w7 ⊞ Wd w2 ⊞ Sg0 w10));
    R g h a b c d e f (Incr 0x84c87814a1f0ab72 w10 (Sg1 w8 ⊞ Wd w3 ⊞ Sg0 w11));
    R f g h a b c d e (Incr 0x8cc702081a6439ec w11 (Sg1 w9 ⊞ Wd w4 ⊞ Sg0 w12));
    R e f g h a b c d (Incr 0x90befffa23631e28 w12 (Sg1 w10 ⊞ Wd w5 ⊞ Sg0 w13));
    R d e f g h a b c (Incr 0xa4506cebde82bde9 w13 (Sg1 w11 ⊞ Wd w6 ⊞ Sg0 w14));
    R c d e f g h a b (Incr 0xbef9a3f7b2c67915 w14 (Sg1 w12 ⊞ Wd w7 ⊞ Sg0 w15));
    R b c d e f g h a (Incr 0xc67178f2e372532b w15 (Sg1 w13 ⊞ Wd w8 ⊞ Sg0 w0));
    R a b c d e f g h (Incr 0xca273eceea26619c w0 (Sg1 w14 ⊞ Wd w9 ⊞ Sg0 w1));
    R h a b c d e f g (Incr 0xd186b8c721c0c207 w1 (Sg1 w15 ⊞ Wd w10 ⊞ Sg0 w2));
    R g h a b c d e f (Incr 0xeada7dd6cde0eb1e w2 (Sg1 w0 ⊞ Wd w11 ⊞ Sg0 w3));
    R f g h a b c d e (Incr 0xf57d4f7fee6ed178 w3 (Sg1 w1 ⊞ Wd w12 ⊞ Sg0 w4));
    R e f g h a b c d (Incr 0x06f067aa72176fba w4 (Sg1 w2 ⊞ Wd w13 ⊞ Sg0 w5));
    R d e f g h a b c (Incr 0x0a637dc5a2c898a6 w5 (Sg1 w3 ⊞ Wd w14 ⊞ Sg0 w6));
    R c d e f g h a b (Incr 0x113f9804bef90dae w6 (Sg1 w4 ⊞ Wd w15 ⊞ Sg0 w7));
    R b c d e f g h a (Incr 0x1b710b35131c471b w7 (Sg1 w5 ⊞ Wd w0 ⊞ Sg0 w8));
    R a b c d e f g h (Incr 0x28db77f523047d84 w8 (Sg1 w6 ⊞ Wd w1 ⊞ Sg0 w9));
    R h a b c d e f g (Incr 0x32caab7b40c72493 w9 (Sg1 w7 ⊞ Wd w2 ⊞ Sg0 w10));
    R g h a b c d e f (Incr 0x3c9ebe0a15c9bebc w10 (Sg1 w8 ⊞ Wd w3 ⊞ Sg0 w11));
    R f g h a b c d e (Incr 0x431d67c49c100d4c w11 (Sg1 w9 ⊞ Wd w4 ⊞ Sg0 w12));
    R e f g h a b c d (Incr 0x4cc5d4becb3e42b6 w12 (Sg1 w10 ⊞ Wd w5 ⊞ Sg0 w13));
    R d e f g h a b c (Incr 0x597f299cfc657e2a w13 (Sg1 w11 ⊞ Wd w6 ⊞ Sg0 w14));
    R c d e f g h a b (Use 0x5fcb6fab3ad6faec (Wd w14 ⊞ Sg1 w12 ⊞ Wd w7 ⊞ Sg0 w15));
    R b c d e f g h a (Use 0x6c44198c4a475817 (Wd w15 ⊞ Sg1 w13 ⊞ Wd w8 ⊞ Sg0 w0)) ].

End lines.

Definition run : list Z -> list line -> list Z * list Z -> list Z * list Z :=
  exec 64 sigma0 sigma1 ReadBE64 Round_arg.
Definition Transform (s chunk : list Z) : list Z :=
  let '(v, _) := run chunk Transform_lines (s, replicate 16 0) in
  zip_with (fun x y => u64 (x + y)) s v.

(** ** The streaming class *)

Definition CSHA512 : Type := Ctx (list Z).
Definition CSHA512_init (junk : list Z) : CSHA512 := mkCtx Initialize junk 0.
Definition Write (c : CSHA512) (data : list Z) : CSHA512 := HashStream.Write 128 Transform c data.
Definition pad : list Z := 0x80 :: replicate 127 0.
Definition Finalize (c : CSHA512) (hash : list Z) : CSHA512 * list Z :=
  let sizedesc := WriteBE64 (replicate 16 0) 8 (u64 (bytes c ≪ 3)) in
  let c := Write c (take (Z.to_nat (1 + (239 - bytes c mod 128) mod 128)) pad) in
  let c := Write c sizedesc in
  (c, WriteBEs 8 hash 0 (s c)).
Definition Reset (c : CSHA512) : CSHA512 := mkCtx Initialize (buf c) 0.

(** ** Rounds *)

#[local] Abbreviation P := FIPS.sha512.

Lemma u64_add_r x y : u64 (x + u64 y) = u64 (x + y).
Proof. unfold u64, uwrap. by rewrite Zplus_mod_idemp_r. Qed.

Lemma Round_arg_fips512 a b c d e f g h k x :
  let T1 := h + FIPS.Sigma P (FIPS.bigsigma1 P) e + FIPS.Ch e f g + (k + default 0 x) in
  Round_arg a b c d e f g h k x =
    (uwrap 64 (d + T1), uwrap 64 (T1 + (FIPS.Sigma P (FIPS.bigsigma0 P) a + FIPS.Maj a b c))).
Proof.
  cbv zeta. rewrite <- Ch_bits, <- Maj_bits.
  change (FIPS.Sigma P (FIPS.bigsigma1 P) e) with (Sigma1 e).
  change (FIPS.Sigma P (FIPS.bigsigma0 P) a) with (Sigma0 a).
  unfold Round_arg, Round. cbv zeta. change (uwrap 64) with u64. fold (Ch e f g) (Maj a b c).
  generalize (Sigma1 e) (Ch e f g) (Sigma0 a) (Maj a b c) (default 0 x). intros S1 C S0 M y.
  replace (u64 (u64 (u64 (u64 (h + S1) + C) + k) + y)) with (u64 (h + S1 + C + (k + y)))
    by (rewrite (u64_add_l (h + S1)), (u64_add_l (h + S1 + C)), u64_add_l; f_equal; lia).
  rewrite u64_add_r, u64_add_l, u64_add_r. done.
Qed.

Lemma Transform_lines_check512 :
  check 64 8 sigma0 sigma1 (fun _ => None) (FIPS.K P) true 0 (replicate 16 None) Transform_lines = true.
Proof. vm_compute. reflexivity. Qed.
Lemma Initialize_fips512 : Initialize = FIPS.H0 P.
Proof. vm_compute. reflexivity. Qed.
Lemma K_length512 : length (FIPS.K P) = 80%nat.
Proof. vm_compute. reflexivity. Qed.
Lemma H0_length512 : length (FIPS.H0 P) = 8%nat.
Proof. by rewrite <- Initialize_fips512. Qed.

Lemma run_generic512 chunk ls st : run chunk ls st = Sha2Theory.run P 8 Round_arg chunk ls st.
Proof. reflexivity. Qed.

Lemma Transform_lines_run512 s chunk :
  Transform s chunk = addw P s (Sha2Theory.run P 8 Round_arg chunk Transform_lines (s, replicate 16 0)).1.
Proof.
  unfold Transform. rewrite run_generic512. by destruct (Sha2Theory.run P 8 Round_arg chunk Transform_lines _).
Qed.

Lemma Transform_take512 s chunk : (128 <= length chunk)%nat -> Transform s (take 128 chunk) = Transform s chunk.
Proof.
  apply (Sha2Theory.Transform_take P 8 Round_arg) with (lines := Transform_lines);
    [exact Transform_lines_run512|vm_compute; reflexivity].
Qed.

(** ** Streaming *)

Lemma Write_ok512 s0 c msg data :
  represents 128 Transform s0 c msg -> represents 128 Transform s0 (Write c data) (msg ++ data).
Proof. intros H. apply Write_represents; [lia|by exists (2 ^ 57)|exact Transform_take512|done]. Qed.

Lemma Writes_ok512 s0 c msg ds :
  represents 128 Transform s0 c msg -> represents 128 Transform s0 (foldl Write c ds) (msg ++ concat ds).
Proof.
  revert c msg. induction ds as [|d ds IH]; intros c msg H; simpl; [by rewrite app_nil_r|].
  rewrite app_assoc. apply IH. by apply Write_ok512.
Qed.

(** The two writes of [Finalize] are the padding of the standard, whose length
    field has 128 bits: the high half is zero. *)
Lemma Finalize_pad512 (n : nat) :
  n < 2 ^ 61 ->
  take (Z.to_nat (1 + (239 - u64 n mod 128) mod 128)) pad ++ WriteBE64 (replicate 16 0) 8 (u64 (u64 n ≪ 3)) = FIPS.pad P n.
Proof.
  intros Hn. rewrite (u64_small n) by (unfold in_u; lia). rewrite Z.shiftl_mul_pow2 by lia.
  rewrite u64_small by (unfold in_u; lia).
  unfold FIPS.pad, FIPS.pad_zeros. change (FIPS.block_size P) with 128%nat. change (FIPS.length_size P) with (8 + 8)%nat.
  change (Z.of_nat 128) with 128. change (Z.of_nat (8 + 8)) with 16.
  replace ((239 - n mod 128) mod 128) with ((128 - 16 - 1 - n) mod 128) by (Z.to_euclidean_division_equations; lia).
  pose proof (Z.mod_pos_bound (128 - 16 - 1 - n) 128 ltac:(lia)).
  set (k := (128 - 16 - 1 - n) mod 128) in *.
  replace (Z.to_nat (1 + k)) with (S (Z.to_nat k)) by lia. unfold pad. cbn [take app]. f_equal.
  rewrite take_replicate, Nat.min_l by lia. f_equal.
  rewrite le_digits_app, rev_app_distr by lia. unfold WriteBE64, WriteBE.
  rewrite (Z.div_small (8 * n)) by (simpl; lia). rewrite drop_ge, app_nil_r by (simpl; lia).
  f_equal. f_equal. f_equal. lia.
Qed.

Lemma Finalize_digest512 c msg hash :
  represents 128 Transform Initialize c msg -> length msg < 2 ^ 61 -> length hash = 64%nat ->
  (Finalize c hash).2 = FIPS.digest P msg.
Proof.
  intros Hrep Hm Hh. assert (bytes c = u64 (length msg)) as Hb by (by destruct Hrep as (?&?&?&?&?&?&?&?&?&?)).
  unfold Finalize. cbn [snd]. rewrite Hb.
  pose proof (Write_ok512 _ _ _ (take (Z.to_nat (1 + (239 - u64 (length msg) mod 128) mod 128)) pad) Hrep) as H1.
  pose proof (Write_ok512 _ _ _ (WriteBE64 (replicate 16 0) 8 (u64 (u64 (length msg) ≪ 3))) H1) as H2.
  rewrite <- app_assoc, Finalize_pad512, Initialize_fips512 in H2 by done.
  refine (represents_digest P 8 Round_arg _ _ _ _ _ _ _ Transform Transform_lines _ _ _ _ _ msg hash _ H2 Hh);
    [reflexivity|lia|simpl; lia|reflexivity|exact K_length512|exact H0_length512|exact Round_arg_fips512|
     exact Transform_lines_run512|exact Transform_lines_check512|reflexivity|vm_compute; reflexivity|by right].
Qed.

(** [CSHA512] computes the SHA-512 digest of FIPS 180-4 of the
    concatenation of the data written to it, for messages shorter than [2^61]
    bytes (whose length in bits fits the 64 bits the code writes), however the
    message is cut into [Write] calls and whatever the buffer held before. *)
Theorem CSHA512_correct junk hash ds :
  length junk = 128%nat -> length hash = 64%nat -> length (concat ds) < 2 ^ 61 ->
  (Finalize (foldl Write (CSHA512_init junk) ds) hash).2 = FIPS.digest P (concat ds).
Proof.
  intros Hj Hh Hd. apply Finalize_digest512; [|exact Hd|exact Hh].
  apply (Writes_ok512 _ _ []). apply represents_nil; [lia|exact Hj].
Qed.

Lemma CSHA512_correct_witness :
  (Finalize (foldl Write (CSHA512_init (replicate 128 5)) [[97]; [98; 99]]) (replicate 64 0)).2 = FIPS.digest P [97; 98; 99].
Proof. apply (CSHA512_correct (replicate 128 5) (replicate 64 0) [[97]; [98; 99]]); reflexivity. Defined.

End Sha512.
