(* ===== verification/Rotate.v ===== *)
(** * Rotating registers

    Unrolled compression functions rename their state variables from one round
    to the next instead of moving values: round [i] uses the variables rotated
    by [i].  This file has the update of the variables a round names and the
    fact that such a sequence of rounds is the same as moving the values. *)
From stdpp Require Import prelude.
From S2P Require Import Prelude.

(** The variables [regs] take the values [f] gives for their contents. *)
Definition update_regs (v : list Z) (regs : list nat) (f : list Z -> list Z) : list Z :=
  foldl (fun v p => <[p.1 := p.2]> v) v (zip regs (f (map (fun r => v.[r]) regs))).

(** The variable in position [j] of round [i], among [n]. *)
Definition rotated (n i j : nat) : nat := ((j + (n - 1) * i) mod n)%nat.

(** The values round [i] sees. *)
Definition seen (n i : nat) (v : list Z) : list Z := map (fun j => v.[rotated n i j]) (seq 0 n).

(** Moving the values of five registers by one place. *)
Definition shift5 (l : list Z) : list Z :=
  match l with [a; b; c; d; e] => [e; a; b; c; d] | _ => l end.

Lemma rotated_mod n i j : rotated n i j = rotated n (i mod n) j.
Proof. unfold rotated. by rewrite <- Nat.Div0.add_mod_idemp_r, <- Nat.Div0.mul_mod_idemp_r, Nat.Div0.add_mod_idemp_r. Qed.

Lemma seen_mod n i v : seen n i v = seen n (i mod n) v.
Proof. unfold seen. apply map_ext. intros j. by rewrite rotated_mod. Qed.

Lemma list5 (v : list Z) : length v = 5%nat -> exists a b c d e, v = [a; b; c; d; e].
Proof. intros H. destruct v as [|a [|b [|c [|d [|e [|]]]]]]; simpl in H; try lia. eauto 6. Qed.

Lemma seen5_0 v : length v = 5%nat -> seen 5 0 v = v.
Proof. intros Hv. destruct (list5 v Hv) as (a & b & c & d & e & ->). reflexivity. Qed.

(** A round over renamed registers moves the values by one place. *)
Lemma update_rotated5 i v f :
  length v = 5%nat -> (forall l, length l = 5%nat -> length (f l) = 5%nat) ->
  let v' := update_regs v (map (rotated 5 i) (seq 0 5)) f in
  length v' = 5%nat /\ seen 5 (S i) v' = shift5 (f (seen 5 i v)).
Proof.
  intros Hv Hf. cbv zeta. rewrite (seen_mod 5 (S i)), (seen_mod 5 i), <- (Nat.add_1_r i), <- Nat.Div0.add_mod_idemp_l.
  rewrite (map_ext (rotated 5 i) (rotated 5 (i mod 5))) by (intros; apply rotated_mod).
  pose proof (Nat.mod_upper_bound i 5 ltac:(lia)) as Hi. revert Hi. generalize (i mod 5)%nat as r. intros r Hr.
  destruct (list5 v Hv) as (x0 & x1 & x2 & x3 & x4 & ->). unfold update_regs, seen.
  do 5 (destruct r as [|r];
    [cbn; match goal with |- context [f ?l] => destruct (list5 (f l) (Hf l eq_refl)) as (y0 & y1 & y2 & y3 & y4 & ->) end;
     split; reflexivity|]). lia.
Qed.
