(* ===== verification/Sha1.v ===== *)
(** * SHA-1 ([crypto/sha1.cpp])

    The unrolled compression function and the streaming class [CSHA1], against
    the definition of FIPS 180-4. *)
From stdpp Require Import prelude.
From S2P Require Import Prelude Uint256 HashStream Fips180 Sha2Theory Rotate.

Module Sha1.

Definition f1 (b c d : Z) : Z := Z.lxor d (Z.land b (Z.lxor c d)).
Definition f2 (b c d : Z) : Z := Z.lxor (Z.lxor b c) d.
Definition f3 (b c d : Z) : Z := Z.lor (Z.land b c) (Z.land d (Z.lor b c)).
Definition left (x : Z) : Z := Z.lor (u32 (x ≪ 1)) (x ≫ 31).
Definition k1 : Z := 0x5A827999.
Definition k2 : Z := 0x6ED9EBA1.
Definition k3 : Z := 0x8F1BBCDC.
Definition k4 : Z := 0xCA62C1D6.
Definition Initialize : list Z := [0x67452301; 0xEFCDAB89; 0x98BADCFE; 0x10325476; 0xC3D2E1F0].

(** One round: the new values of its five arguments. *)
Definition Round (a b c d e f k w : Z) : list Z :=
  let e := u32 (e + u32 (u32 (u32 (Z.lor (u32 (a ≪ 5)) (a ≫ 27) + f) + k) + w)) in
  let b := Z.lor (u32 (b ≪ 30)) (b ≫ 2) in
  [a; b; c; d; e].

(** The lines of [Transform]: the state variables, the function, the constant
    and the word, which may assign a schedule variable. *)
Inductive fn := F1 | F2 | F3.
Inductive word :=
  | WLoad (i off : nat)                (* wi = ReadBE32(chunk + off) *)
  | WSet (i a b c d : nat)             (* wi = left(wa ^ wb ^ wc ^ wd) *)
  | WUse (a b c d : nat).              (* left(wa ^ wb ^ wc ^ wd) *)
Record line := mkLine { regs : list nat; func : fn; const : Z; warg : word }.

Section lines.
#[local] Abbreviation a := 0%nat (only parsing).
#[local] Abbreviation b := 1%nat (only parsing).
#[local] Abbreviation c := 2%nat (only parsing).
#[local] Abbreviation d := 3%nat (only parsing).
#[local] Abbreviation e := 4%nat (only parsing).
#[local] Abbreviation w0 := 0%nat (only parsing).
#[local] Abbreviation w1 := 1%nat (only parsing).
#[local] Abbreviation w2 := 2%nat (only parsing).
#[local] Abbreviation w3 := 3%nat (only parsing).
#[local] Abbreviation w4 := 4%nat (only parsing).
#[local] Abbreviation w5 := 5%nat (only parsing).
#[local] Abbreviation w6 := 6%nat (only parsing).
#[local] Abbreviation w7 := 7%nat (only parsing).
#[local] Abbreviation w8 := 8%nat (only parsing).
#[local] Abbreviation w9 := 9%nat (only parsing).
#[local] Abbreviation w10 := 10%nat (only parsing).
#[local] Abbreviation w11 := 11%nat (only parsing).
#[local] Abbreviation w12 := 12%nat (only parsing).
#[local] Abbreviation w13 := 13%nat (only parsing).
#[local] Abbreviation w14 := 14%nat (only parsing).
#[local] Abbreviation w15 := 15%nat (only parsing).
#[local] Abbreviation R a b c d e f k w := (mkLine [a; b; c; d; e] f k w) (only parsing).

Definition Transform_lines : list line :=
  [ R a b c d e F1 k1 (WLoad w0 0);
    R e a b c d F1 k1 (WLoad w1 4);
    R d e a b c F1 k1 (WLoad w2 8);
    R c d e a b F1 k1 (WLoad w3 12);
    R b c d e a F1 k1 (WLoad w4 16);
    R a b c d e F1 k1 (WLoad w5 20);
    R e a b c d F1 k1 (WLoad w6 24);
    R d e a b c F1 k1 (WLoad w7 28);
    R c d e a b F1 k1 (WLoad w8 32);
    R b c d e a F1 k1 (WLoad w9 36);
    R a b c d e F1 k1 (WLoad w10 40);
    R e a b c d F1 k1 (WLoad w11 44);
    R d e a b c F1 k1 (WLoad w12 48);
    R c d e a b F1 k1 (WLoad w13 52);
    R b c d e a F1 k1 (WLoad w14 56);
    R a b c d e F1 k1 (WLoad w15 60);
    R e a b c d F1 k1 (WSet w0 w0 w13 w8 w2);
    R d e a b c F1 k1 (WSet w1 w1 w14 w9 w3);
    R c d e a b F1 k1 (WSet w2 w2 w15 w10 w4);
    R b c d e a F1 k1 (WSet w3 w3 w0 w11 w5);
    R a b c d e F2 k2 (WSet w4 w4 w1 w12 w6);
    R e a b c d F2 k2 (WSet w5 w5 w2 w13 w7);
    R d e a b c F2 k2 (WSet w6 w6 w3 w14 w8);
    R c d e a b F2 k2 (WSet w7 w7 w4 w15 w9);
    R b c d e a F2 k2 (WSet w8 w8 w5 w0 w10);
    R a b c d e F2 k2 (WSet w9 w9 w6 w1 w11);
    R e a b c d F2 k2 (WSet w10 w10 w7 w2 w12);
    R d e a b c F2 k2 (WSet w11 w11 w8 w3 w13);
    R c d e a b F2 k2 (WSet w12 w12 w9 w4 w14);
    R b c d e a F2 k2 (WSet w13 w13 w10 w5 w15);
    R a b c d e F2 k2 (WSet w14 w14 w11 w6 w0);
    R e a b c d F2 k2 (WSet w15 w15 w12 w7 w1);
    R d e a b c F2 k2 (WSet w0 w0 w13 w8 w2);
    R c d e a b F2 k2 (WSet w1 w1 w14 w9 w3);
    R b c d e a F2 k2 (WSet w2 w2 w15 w10 w4);
    R a b c d e F2 k2 (WSet w3 w3 w0 w11 w5);
    R e a b c d F2 k2 (WSet w4 w4 w1 w12 w6);
    R d e a b c F2 k2 (WSet w5 w5 w2 w13 w7);
    R c d e a b F2 k2 (WSet w6 w6 w3 w14 w8);
    R b c d e a F2 k2 (WSet w7 w7 w4 w15 w9);
    R a b c d e F3 k3 (WSet w8 w8 w5 w0 w10);
    R e a b c d F3 k3 (WSet w9 w9 w6 w1 w11);
    R d e a b c F3 k3 (WSet w10 w10 w7 w2 w12);
    R c d e a b F3 k3 (WSet w11 w11 w8 w3 w13);
    R b c d e a F3 k3 (WSet w12 w12 w9 w4 w14);
    R a b c d e F3 k3 (WSet w13 w13 w10 w5 w15);
    R e a b c d F3 k3 (WSet w14 w14 w11 w6 w0);
    R d e a b c F3 k3 (WSet w15 w15 w12 w7 w1);
    R c d e a b F3 k3 (WSet w0 w0 w13 w8 w2);
    R b c d e a F3 k3 (WSet w1 w1 w14 w9 w3);
    R a b c d e F3 k3 (WSet w2 w2 w15 w10 w4);
    R e a b c d F3 k3 (WSet w3 w3 w0 w11 w5);
    R d e a b c F3 k3 (WSet w4 w4 w1 w12 w6);
    R c d e a b F3 k3 (WSet w5 w5 w2 w13 w7);
    R b c d e a F3 k3 (WSet w6 w6 w3 w14 w8);
    R a b c d e F3 k3 (WSet w7 w7 w4 w15 w9);
    R e a b c d F3 k3 (WSet w8 w8 w5 w0 w10);
    R d e a b c F3 k3 (WSet w9 w9 w6 w1 w11);
    R c d e a b F3 k3 (WSet w10 w10 w7 w2 w12);
    R b c d e a F3 k3 (WSet w11 w11 w8 w3 w13);
    R a b c d e F2 k4 (WSet w12 w12 w9 w4 w14);
    R e a b c d F2 k4 (WSet w13 w13 w10 w5 w15);
    R d e a b c F2 k4 (WSet w14 w14 w11 w6 w0);
    R c d e a b F2 k4 (WSet w15 w15 w12 w7 w1);
    R b c d e a F2 k4 (WSet w0 w0 w13 w8 w2);
    R a b c d e F2 k4 (WSet w1 w1 w14 w9 w3);
    R e a b c d F2 k4 (WSet w2 w2 w15 w10 w4);
    R d e a b c F2 k4 (WSet w3 w3 w0 w11 w5);
    R c d e a b F2 k4 (WSet w4 w4 w1 w12 w6);
    R b c d e a F2 k4 (WSet w5 w5 w2 w13 w7);
    R a b c d e F2 k4 (WSet w6 w6 w3 w14 w8);
    R e a b c d F2 k4 (WSet w7 w7 w4 w15 w9);
    R d e a b c F2 k4 (WSet w8 w8 w5 w0 w10);
    R c d e a b F2 k4 (WSet w9 w9 w6 w1 w11);
    R b c d e a F2 k4 (WSet w10 w10 w7 w2 w12);
    R a b c d e F2 k4 (WSet w11 w11 w8 w3 w13);
    R e a b c d F2 k4 (WSet w12 w12 w9 w4 w14);
    R d e a b c F2 k4 (WUse w13 w10 w5 w15);
    R c d e a b F2 k4 (WUse w14 w11 w6 w0);
    R b c d e a F2 k4 (WUse w15 w12 w7 w1) ].

End lines.

Definition apply_fn (f : fn) : Z -> Z -> Z -> Z := match f with F1 => f1 | F2 => f2 | F3 => f3 end.
Definition mix (ws : list Z) (a b c d : nat) : Z :=
  left (Z.lxor (Z.lxor (Z.lxor ws.[a] ws.[b]) ws.[c]) ws.[d]).
Definition eval_word (chunk ws : list Z) (x : word) : Z * list Z :=
  match x with
  | WLoad i off => let y := ReadBE32 chunk off in (y, <[i := y]> ws)
  | WSet i a b c d => let y := mix ws a b c d in (y, <[i := y]> ws)
  | WUse a b c d => (mix ws a b c d, ws)
  end.

(** The arguments of a round, and their new values. *)
Definition round_args (f : fn) (k w : Z) (args : list Z) : list Z :=
  match args with
  | [a; b; c; d; e] => Round a b c d e (apply_fn f b c d) k w
  | _ => args
  end.
Definition exec_line (chunk : list Z) (st : list Z * list Z) (l : line) : list Z * list Z :=
  let '(v, ws) := st in
  let '(x, ws) := eval_word chunk ws (warg l) in
  (update_regs v (regs l) (round_args (func l) (const l) x), ws).

Definition Transform (s chunk : list Z) : list Z :=
  let '(v, _) := foldl (exec_line chunk) (s, replicate 16 0) Transform_lines in
  zip_with (fun x y => u32 (x + y)) s v.

(** ** The streaming class *)

Definition CSHA1 : Type := Ctx (list Z).
Definition CSHA1_init (junk : list Z) : CSHA1 := mkCtx Initialize junk 0.
Definition Write (c : CSHA1) (data : list Z) : CSHA1 := HashStream.Write 64 Transform c data.
Definition pad : list Z := 0x80 :: replicate 63 0.
Definition Finalize (c : CSHA1) (hash : list Z) : CSHA1 * list Z :=
  let sizedesc := WriteBE64 (replicate 8 0) 0 (u64 (bytes c ≪ 3)) in
  let c := Write c (take (Z.to_nat (1 + (119 - bytes c mod 64) mod 64)) pad) in
  let c := Write c sizedesc in
  (c, WriteBEs 4 hash 0 (s c)).
Definition Reset (c : CSHA1) : CSHA1 := mkCtx Initialize (buf c) 0.

(** ** The standard *)

Definition ROTL (n x : Z) : Z := Z.lor (u32 (x ≪ n)) (x ≫ (32 - n)).
(** The constants: thirty bits of the square roots of 2, 3, 5 and 10. *)
Definition K (t : nat) : Z := Z.sqrt (nth (t / 20) [2; 3; 5; 10] 0 * 2 ^ 60).
Definition f_ref (t : nat) : Z -> Z -> Z -> Z :=
  match (t / 20)%nat with 0%nat => FIPS.Ch | 2%nat => FIPS.Maj | _ => fun x y z => Z.lxor (Z.lxor x y) z end.
Fixpoint schedule (n : nat) (W : list Z) : list Z :=
  match n with
  | O => W
  | S n' => let t := length W in
      schedule n' (W ++ [ROTL 1 (Z.lxor (Z.lxor (Z.lxor W.[t - 3] W.[t - 8]) W.[t - 14]) W.[t - 16])])
  end.
Definition step (st : list Z) (t : nat) (Wt : Z) : list Z :=
  match st with
  | [a; b; c; d; e] => [(ROTL 5 a + f_ref t b c d + e + K t + Wt) mod 2 ^ 32; a; ROTL 30 b; c; d]
  | _ => st
  end.
Definition compress (H M : list Z) : list Z :=
  let W := schedule 64 (map (fun i => ReadBE32 M (4 * i)) (seq 0 16)) in
  zip_with (fun x y => (x + y) mod 2 ^ 32) H (foldl (fun st t => step st t W.[t]) H (seq 0 80)).
Definition digest (M : list Z) : list Z :=
  let M := M ++ FIPS.pad FIPS.sha256 (length M) in
  be_words 4 (transform_blocks 64 compress (length M / 64) Initialize M).

(** ** Equivalence *)

Lemma u32_sum5 a f k w e :
  u32 (e + u32 (u32 (u32 (a + f) + k) + w)) = (a + f + e + k + w) mod 2 ^ 32.
Proof.
  unfold u32, uwrap. rewrite Zplus_mod_idemp_r, (Z.add_comm e), <- Z.add_assoc, Zplus_mod_idemp_l.
  rewrite <- Z.add_assoc, Zplus_mod_idemp_l. f_equal. lia.
Qed.

(** The lines follow a rule, so that the schedule variable of round [t] is
    number [t mod 16]. *)
Definition rule (t : nat) : line := {|
  regs := map (rotated 5 t) (seq 0 5);
  func := match (t / 20)%nat with 0%nat => F1 | 2%nat => F3 | _ => F2 end;
  const := K t;
  warg := if (t <? 16)%nat then WLoad t (4 * t)
    else if (t <? 77)%nat then WSet (t mod 16) (t mod 16) ((t - 3) mod 16) ((t - 8) mod 16) ((t - 14) mod 16)
    else WUse (t mod 16) ((t - 3) mod 16) ((t - 8) mod 16) ((t - 14) mod 16) |}.

Lemma Transform_lines_rule : Transform_lines = map rule (seq 0 80).
Proof. vm_compute. reflexivity. Qed.

Lemma schedule_length1 n W : length (schedule n W) = (n + length W)%nat.
Proof. revert W. induction n as [|n IH]; intros W; simpl; [done|]. rewrite IH, length_app. simpl. lia. Qed.

Lemma schedule_prefix1 n W t : (t < length W)%nat -> (schedule n W).[t] = W.[t].
Proof.
  revert W. induction n as [|n IH]; intros W Ht; simpl; [done|].
  rewrite IH by (rewrite length_app; lia). by rewrite app_nth1.
Qed.

Lemma schedule_next1 n W t :
  (16 <= length W)%nat -> (length W <= t < n + length W)%nat ->
  let w := schedule n W in
  w.[t] = ROTL 1 (Z.lxor (Z.lxor (Z.lxor w.[t - 3] w.[t - 8]) w.[t - 14]) w.[t - 16]).
Proof.
  revert W. induction n as [|n IH]; intros W HW Ht; cbv zeta; simpl; [lia|].
  destruct (decide (t = length W)) as [->|].
  - rewrite schedule_prefix1 by (rewrite length_app; simpl; lia).
    rewrite app_nth2, Nat.sub_diag by lia. cbn [nth].
    rewrite !schedule_prefix1 by (rewrite length_app; simpl; lia).
    by rewrite !app_nth1 by lia.
  - apply IH; rewrite length_app; simpl; lia.
Qed.

Section Rounds.
Context (chunk W : list Z).
Hypothesis W_load : forall t : nat, (t < 16)%nat -> W.[t] = ReadBE32 chunk (4 * t).
Hypothesis W_next : forall t, (16 <= t < 80)%nat ->
  W.[t] = ROTL 1 (Z.lxor (Z.lxor (Z.lxor W.[t - 3] W.[t - 8]) W.[t - 14]) W.[t - 16]).

(** Before round [t] the variables hold the last sixteen words. *)
Definition holds (t : nat) (ws : list Z) : Prop :=
  length ws = 16%nat /\ forall j, (j < t <= j + 16)%nat -> ws.[j mod 16] = W.[j].

Lemma holds_set t ws : holds t ws -> holds (S t) (<[(t mod 16)%nat := W.[t]]> ws).
Proof.
  intros [Hl Hh]. split; [by rewrite length_insert|]. intros j Hj.
  pose proof (Nat.mod_upper_bound t 16 ltac:(lia)).
  rewrite nth_insert by lia. case_decide as E.
  - assert (j = t) as ->; [|done]. pose proof (Nat.div_mod_eq t 16). pose proof (Nat.div_mod_eq j 16). lia.
  - apply Hh. assert (j <> t) by (intros ->; done). lia.
Qed.

Lemma mix_next t u ws : (16 <= t < 80)%nat -> (t - 3 < u <= t)%nat -> holds u ws ->
  mix ws (t mod 16) ((t - 3) mod 16) ((t - 8) mod 16) ((t - 14) mod 16) = W.[t].
Proof using W_next.
  intros Ht Hu [_ Hh]. rewrite W_next by done. unfold mix.
  rewrite (Hh (t - 3)%nat), (Hh (t - 8)%nat), (Hh (t - 14)%nat) by lia.
  replace (t mod 16)%nat with ((t - 16) mod 16)%nat.
  2:{ replace t with ((t - 16) + 1 * 16)%nat at 2 by lia. by rewrite Nat.Div0.mod_add. }
  rewrite (Hh (t - 16)%nat) by lia.
  change left with (ROTL 1). f_equal. by rewrite !Z.lxor_assoc, (Z.lxor_comm W.[t - 16]), !Z.lxor_assoc.
Qed.

Lemma eval_rule t ws :
  (t < 80)%nat -> holds (t `min` 77) ws ->
  exists ws', eval_word chunk ws (warg (rule t)) = (W.[t], ws') /\ holds (S t `min` 77) ws'.
Proof using W_load W_next.
  intros Ht Hh. unfold rule. cbn [warg]. case_if; [|case_if]; cbn [eval_word].
  - rewrite <- W_load by done. eexists. split; [done|]. rewrite Nat.min_l in * by lia.
    replace t with (t mod 16)%nat at 2 by (by apply Nat.mod_small). by apply holds_set.
  - rewrite (mix_next t (t `min` 77)) by (done || lia). eexists. split; [done|]. rewrite Nat.min_l in * by lia.
    by apply holds_set.
  - exists ws. split; [f_equal; apply (mix_next t (t `min` 77)); [lia|lia|done]|].
    by rewrite Nat.min_r in * by lia.
Qed.

(** One line of [Transform] is one step of the standard. *)
Lemma round_args_step t x st : length st = 5%nat -> (t < 80)%nat ->
  shift5 (round_args (func (rule t)) (const (rule t)) x st) = step st t x.
Proof.
  intros Hst Ht. destruct (list5 st Hst) as (a & b & c & d & e & ->). unfold rule. cbn [func const round_args Round shift5 step].
  assert (apply_fn match (t / 20)%nat with 0%nat => F1 | 2%nat => F3 | _ => F2 end b c d = f_ref t b c d) as ->.
  { unfold f_ref. destruct (t / 20)%nat as [|[|[|]]]; [apply Ch_bits|reflexivity|apply Maj_bits|reflexivity]. }
  unfold Round. cbn [shift5]. f_equal. rewrite (u32_sum5 (Z.lor (u32 (a ≪ 5)) (a ≫ 27))). done.
Qed.

Lemma exec_lines n t v ws :
  (t + n <= 80)%nat -> holds (t `min` 77) ws -> length v = 5%nat ->
  let '(v', _) := foldl (exec_line chunk) (v, ws) (map rule (seq t n)) in
  length v' = 5%nat /\ seen 5 (t + n) v' = foldl (fun st i => step st i W.[i]) (seen 5 t v) (seq t n).
Proof using W_load W_next.
  revert t v ws. induction n as [|n IH]; intros t v ws Hn Hh Hv; cbn [seq map foldl]; [by rewrite Nat.add_0_r|].
  destruct (eval_rule t ws ltac:(lia) Hh) as (ws' & He & Hh').
  assert (exec_line chunk (v, ws) (rule t) =
    (update_regs v (map (rotated 5 t) (seq 0 5)) (round_args (func (rule t)) (const (rule t)) W.[t]), ws')) as ->
    by (unfold exec_line; by rewrite He).
  destruct (update_rotated5 t v (round_args (func (rule t)) (const (rule t)) W.[t]) Hv) as [Hv' Hs].
  { intros l Hl. by destruct (list5 l Hl) as (a & b & c & d & e & ->). }
  specialize (IH (S t) _ ws' ltac:(lia) Hh' Hv').
  destruct (foldl _ _ (map rule (seq (S t) n))) as [v2 ws2]. destruct IH as [Hv2 IH]. split; [done|].
  rewrite <- Nat.add_succ_comm, IH, Hs. f_equal. apply round_args_step; [by unfold seen; rewrite length_map|lia].
Qed.
End Rounds.

Lemma Transform_compress s chunk : length s = 5%nat -> Transform s chunk = compress s chunk.
Proof.
  intros Hs. unfold Transform, compress. set (W := schedule 64 _).
  assert (forall t : nat, (t < 16)%nat -> W.[t] = ReadBE32 chunk (4 * t)) as HWl.
  { intros t Ht. unfold W. rewrite schedule_prefix1 by (simpl; lia).
    do 16 (destruct t as [|t]; [reflexivity|]). lia. }
  assert (forall t, (16 <= t < 80)%nat ->
    W.[t] = ROTL 1 (Z.lxor (Z.lxor (Z.lxor W.[t - 3] W.[t - 8]) W.[t - 14]) W.[t - 16])) as HWn.
  { intros t Ht. apply schedule_next1; simpl; lia. }
  clearbody W. rewrite Transform_lines_rule.
  pose proof (exec_lines chunk W HWl HWn 80 0 s (replicate 16 0) ltac:(lia) ltac:(split; [done|intros; lia]) Hs) as H.
  destruct (foldl (exec_line chunk) _ _) as [v ws]. destruct H as [Hv H].
  rewrite seen_mod in H. change ((0 + 80) mod 5)%nat with 0%nat in H. rewrite !seen5_0 in H by done. by rewrite H.
Qed.

Lemma Transform_take1 s chunk : (64 <= length chunk)%nat -> Transform s (take 64 chunk) = Transform s chunk.
Proof.
  intros Hc. unfold Transform.
  assert (forall ls st, forallb (fun l => match warg l with WLoad _ off => (off <=? 60)%nat | _ => true end) ls = true ->
    foldl (exec_line (take 64 chunk)) st ls = foldl (exec_line chunk) st ls) as Hext.
  { induction ls as [|l ls IH]; intros st Hl; [done|]. cbn [forallb foldl] in *. cases_bool. rewrite IH by done. f_equal.
    destruct st as [v ws]. unfold exec_line. destruct (warg l) as [i off| |]; try done. cases_bool.
    cbn [eval_word]. unfold ReadBE32, ReadBE. by rewrite !take_drop_commute, take_take, Nat.min_l by lia. }
  rewrite Hext; [done|vm_compute; reflexivity].
Qed.

Lemma compress_length1 s M : length s = 5%nat -> length (compress s M) = 5%nat.
Proof.
  intros Hs. unfold compress. cbv zeta. rewrite length_zip_with, Hs. apply Nat.min_l.
  generalize (seq 0 80). intros l. revert s Hs. induction l as [|t l IH]; intros s Hs; cbn [foldl]; [lia|].
  apply IH. by destruct (list5 s Hs) as (a & b & c & d & e & ->).
Qed.

Lemma Transform_blocks1 n s M :
  length s = 5%nat -> transform_blocks 64 Transform n s M = transform_blocks 64 compress n s M /\
    length (transform_blocks 64 compress n s M) = 5%nat.
Proof.
  revert s M. induction n as [|n IH]; intros s M Hs; cbn [transform_blocks]; [done|].
  rewrite (Transform_compress s M) by done. apply IH. by apply compress_length1.
Qed.

(** ** Streaming *)

Lemma Write_ok1 s0 c msg data :
  represents 64 Transform s0 c msg -> represents 64 Transform s0 (Write c data) (msg ++ data).
Proof. intros H. apply Write_represents; [lia|by exists (2 ^ 58)|exact Transform_take1|done]. Qed.

Lemma Writes_ok1 s0 c msg ds :
  represents 64 Transform s0 c msg -> represents 64 Transform s0 (foldl Write c ds) (msg ++ concat ds).
Proof.
  revert c msg. induction ds as [|d ds IH]; intros c msg H; simpl; [by rewrite app_nil_r|].
  rewrite app_assoc. apply IH. by apply Write_ok1.
Qed.

(** [CSHA1] computes the SHA-1 digest of FIPS 180-4 of the concatenation
    of the data written to it, however the message is cut into [Write] calls:
    its 80 unrolled lines with renamed variables and a schedule kept in sixteen
    words are the 80 steps of the standard. *)
Theorem CSHA1_correct junk hash ds :
  length junk = 64%nat -> length hash = 20%nat ->
  (Finalize (foldl Write (CSHA1_init junk) ds) hash).2 = digest (concat ds).
Proof.
  intros Hj Hh. set (c := foldl Write (CSHA1_init junk) ds).
  assert (represents 64 Transform Initialize c (concat ds)) as Hc
    by (apply (Writes_ok1 _ _ []); apply represents_nil; [lia|exact Hj]).
  assert (bytes c = u64 (length (concat ds))) as Hb by (by destruct Hc as (?&?&?&?&?&?&?&?&?&?)).
  unfold Finalize, pad. cbn [snd]. rewrite Hb.
  pose proof (Write_ok1 _ _ _ (take (Z.to_nat (1 + (119 - u64 (length (concat ds)) mod 64) mod 64)) pad) Hc) as H1.
  pose proof (Write_ok1 _ _ _ (WriteBE64 (replicate 8 0) 0 (u64 (u64 (length (concat ds)) ≪ 3))) H1) as H2.
  unfold pad in H2. rewrite <- app_assoc, (pad_64 (length (concat ds))) in H2.
  assert (length (concat ds ++ FIPS.pad FIPS.sha256 (length (concat ds))) mod 64 = 0)%nat as Hmod.
  { rewrite length_app. apply (FIPS.pad_spec FIPS.sha256). by left. }
  rewrite (represents_absorb 64 Transform ltac:(lia) _ _ _ H2 Hmod). unfold absorb.
  destruct (Transform_blocks1 (length (concat ds ++ FIPS.pad FIPS.sha256 (length (concat ds))) / 64) Initialize
    (concat ds ++ FIPS.pad FIPS.sha256 (length (concat ds))) eq_refl) as [-> Hl].
  unfold digest. apply WriteBEs_all. by rewrite Hl.
Qed.

Lemma CSHA1_correct_witness :
  (Finalize (foldl Write (CSHA1_init (replicate 64 9)) [[97]; [98; 99]]) (replicate 20 0)).2 = digest [97; 98; 99].
Proof. apply (CSHA1_correct (replicate 64 9) (replicate 20 0) [[97]; [98; 99]]); reflexivity. Defined.

End Sha1.
