(* ===== verification/Ripemd160.v ===== *)
(** * RIPEMD-160 ([crypto/ripemd160.cpp])

    The unrolled compression function, with its two interleaved lines of five
    rounds, and the streaming class [CRIPEMD160], against the definition of the
    RIPEMD-160 paper: message word orders from the permutations [rho] and [pi],
    the shift table, and constants from square and cube roots. *)
From stdpp Require Import prelude.
From S2P Require Import Prelude Uint256 HashStream Fips180 Sha2Theory Rotate.

Module Ripemd160.

Definition not32 (x : Z) : Z := u32 (Z.lnot x).
Definition f1 (x y z : Z) : Z := Z.lxor (Z.lxor x y) z.
Definition f2 (x y z : Z) : Z := Z.lor (Z.land x y) (Z.land (not32 x) z).
Definition f3 (x y z : Z) : Z := Z.lxor (Z.lor x (not32 y)) z.
Definition f4 (x y z : Z) : Z := Z.lor (Z.land x z) (Z.land y (not32 z)).
Definition f5 (x y z : Z) : Z := Z.lxor x (Z.lor y (not32 z)).
Definition Initialize : list Z := [0x67452301; 0xEFCDAB89; 0x98BADCFE; 0x10325476; 0xC3D2E1F0].
Definition rol (x i : Z) : Z := Z.lor (u32 (x ≪ i)) (x ≫ (32 - i)).

(** One round: the new values of its five register arguments. *)
Definition Round (a b c d e f x k r : Z) : list Z :=
  let a := u32 (rol (u32 (u32 (u32 (a + f) + x) + k)) r + e) in
  let c := rol c 10 in
  [a; b; c; d; e].

(** The ten round functions. *)
Inductive fn := R11_ | R21_ | R31_ | R41_ | R51_ | R12_ | R22_ | R32_ | R42_ | R52_.
Definition fn_round (n : fn) (a b c d e x r : Z) : list Z :=
  match n with
  | R11_ => Round a b c d e (f1 b c d) x 0 r
  | R21_ => Round a b c d e (f2 b c d) x 0x5A827999 r
  | R31_ => Round a b c d e (f3 b c d) x 0x6ED9EBA1 r
  | R41_ => Round a b c d e (f4 b c d) x 0x8F1BBCDC r
  | R51_ => Round a b c d e (f5 b c d) x 0xA953FD4E r
  | R12_ => Round a b c d e (f5 b c d) x 0x50A28BE6 r
  | R22_ => Round a b c d e (f4 b c d) x 0x5C4DD124 r
  | R32_ => Round a b c d e (f3 b c d) x 0x6D703EF3 r
  | R42_ => Round a b c d e (f2 b c d) x 0x7A6D76E9 r
  | R52_ => Round a b c d e (f1 b c d) x 0 r
  end.

(** The lines of [Transform]: [a1 ... e1] for the functions that end in 1, and
    [a2 ... e2] for the others. *)
Record line := mkLine { func : fn; regs : list nat; word : nat; rot_by : Z }.

Section lines.
#[local] Abbreviation a := 0%nat (only parsing).
#[local] Abbreviation b := 1%nat (only parsing).
#[local] Abbreviation c := 2%nat (only parsing).
#[local] Abbreviation d := 3%nat (only parsing).
#[local] Abbreviation e := 4%nat (only parsing).
#[local] Abbreviation w0 := 0%nat (only parsing).
#[local] Abbreviation w1 := 1%nat (only parsing).
#[local] Abbreviation w2 := 2%nat (only parsing).
#[local] Abbreviation w3 := 3%nat (only parsing).
#[local] Abbreviation w4 := 4%nat (only parsing).
#[local] Abbreviation w5 := 5%nat (only parsing).
#[local] Abbreviation w6 := 6%nat (only parsing).
#[local] Abbreviation w7 := 7%nat (only parsing).
#[local] Abbreviation w8 := 8%nat (only parsing).
#[local] Abbreviation w9 := 9%nat (only parsing).
#[local] Abbreviation w10 := 10%nat (only parsing).
#[local] Abbreviation w11 := 11%nat (only parsing).
#[local] Abbreviation w12 := 12%nat (only parsing).
#[local] Abbreviation w13 := 13%nat (only parsing).
#[local] Abbreviation w14 := 14%nat (only parsing).
#[local] Abbreviation w15 := 15%nat (only parsing).
#[local] Abbreviation R11 a b c d e x r := (mkLine R11_ [a; b; c; d; e] x r) (only parsing).
#[local] Abbreviation R12 a b c d e x r := (mkLine R12_ [a; b; c; d; e] x r) (only parsing).
#[local] Abbreviation R21 a b c d e x r := (mkLine R21_ [a; b; c; d; e] x r) (only parsing).
#[local] Abbreviation R22 a b c d e x r := (mkLine R22_ [a; b; c; d; e] x r) (only parsing).
#[local] Abbreviation R31 a b c d e x r := (mkLine R31_ [a; b; c; d; e] x r) (only parsing).
#[local] Abbreviation R32 a b c d e x r := (mkLine R32_ [a; b; c; d; e] x r) (only parsing).
#[local] Abbreviation R41 a b c d e x r := (mkLine R41_ [a; b; c; d; e] x r) (only parsing).
#[local] Abbreviation R42 a b c d e x r := (mkLine R42_ [a; b; c; d; e] x r) (only parsing).
#[local] Abbreviation R51 a b c d e x r := (mkLine R51_ [a; b; c; d; e] x r) (only parsing).
#[local] Abbreviation R52 a b c d e x r := (mkLine R52_ [a; b; c; d; e] x r) (only parsing).

Definition Transform_lines : list line :=
  [ R11 a b c d e w0 11;
    R12 a b c d e w5 8;
    R11 e a b c d w1 14;
    R12 e a b c d w14 9;
    R11 d e a b c w2 15;
    R12 d e a b c w7 9;
    R11 c d e a b w3 12;
    R12 c d e a b w0 11;
    R11 b c d e a w4 5;
    R12 b c d e a w9 13;
    R11 a b c d e w5 8;
    R12 a b c d e w2 15;
    R11 e a b c d w6 7;
    R12 e a b c d w11 15;
    R11 d e a b c w7 9;
    R12 d e a b c w4 5;
    R11 c d e a b w8 11;
    R12 c d e a b w13 7;
    R11 b c d e a w9 13;
    R12 b c d e a w6 7;
    R11 a b c d e w10 14;
    R12 a b c d e w15 8;
    R11 e a b c d w11 15;
    R12 e a b c d w8 11;
    R11 d e a b c w12 6;
    R12 d e a b c w1 14;
    R11 c d e a b w13 7;
    R12 c d e a b w10 14;
    R11 b c d e a w14 9;
    R12 b c d e a w3 12;
    R11 a b c d e w15 8;
    R12 a b c d e w12 6;
    R21 e a b c d w7 7;
    R22 e a b c d w6 9;
    R21 d e a b c w4 6;
    R22 d e a b c w11 13;
    R21 c d e a b w13 8;
    R22 c d e a b w3 15;
    R21 b c d e a w1 13;
    R22 b c d e a w7 7;
    R21 a b c d e w10 11;
    R22 a b c d e w0 12;
    R21 e a b c d w6 9;
    R22 e a b c d w13 8;
    R21 d e a b c w15 7;
    R22 d e a b c w5 9;
    R21 c d e a b w3 15;
    R22 c d e a b w10 11;
    R21 b c d e a w12 7;
    R22 b c d e a w14 7;
    R21 a b c d e w0 12;
    R22 a b c d e w15 7;
    R21 e a b c d w9 15;
    R22 e a b c d w8 12;
    R21 d e a b c w5 9;
    R22 d e a b c w12 7;
    R21 c d e a b w2 11;
    R22 c d e a b w4 6;
    R21 b c d e a w14 7;
    R22 b c d e a w9 15;
    R21 a b c d e w11 13;
    R22 a b c d e w1 13;
    R21 e a b c d w8 12;
    R22 e a b c d w2 11;
    R31 d e a b c w3 11;
    R32 d e a b c w15 9;
    R31 c d e a b w10 13;
    R32 c d e a b w5 7;
    R31 b c d e a w14 6;
    R32 b c d e a w1 15;
    R31 a b c d e w4 7;
    R32 a b c d e w3 11;
    R31 e a b c d w9 14;
    R32 e a b c d w7 8;
    R31 d e a b c w15 9;
    R32 d e a b c w14 6;
    R31 c d e a b w8 13;
    R32 c d e a b w6 6;
    R31 b c d e a w1 15;
    R32 b c d e a w9 14;
    R31 a b c d e w2 14;
    R32 a b c d e w11 12;
    R31 e a b c d w7 8;
    R32 e a b c d w8 13;
    R31 d e a b c w0 13;
    R32 d e a b c w12 5;
    R31 c d e a b w6 6;
    R32 c d e a b w2 14;
    R31 b c d e a w13 5;
    R32 b c d e a w10 13;
    R31 a b c d e w11 12;
    R32 a b c d e w0 13;
    R31 e a b c d w5 7;
    R32 e a b c d w4 7;
    R31 d e a b c w12 5;
    R32 d e a b c w13 5;
    R41 c d e a b w1 11;
    R42 c d e a b w8 15;
    R41 b c d e a w9 12;
    R42 b c d e a w6 5;
    R41 a b c d e w11 14;
    R42 a b c d e w4 8;
    R41 e a b c d w10 15;
    R42 e a b c d w1 11;
    R41 d e a b c w0 14;
    R42 d e a b c w3 14;
    R41 c d e a b w8 15;
    R42 c d e a b w11 14;
    R41 b c d e a w12 9;
    R42 b c d e a w15 6;
    R41 a b c d e w4 8;
    R42 a b c d e w0 14;
    R41 e a b c d w13 9;
    R42 e a b c d w5 6;
    R41 d e a b c w3 14;
    R42 d e a b c w12 9;
    R41 c d e a b w7 5;
    R42 c d e a b w2 12;
    R41 b c d e a w15 6;
    R42 b c d e a w13 9;
    R41 a b c d e w14 8;
    R42 a b c d e w9 12;
    R41 e a b c d w5 6;
    R42 e a b c d w7 5;
    R41 d e a b c w6 5;
    R42 d e a b c w10 15;
    R41 c d e a b w2 12;
    R42 c d e a b w14 8;
    R51 b c d e a w4 9;
    R52 b c d e a w12 8;
    R51 a b c d e w0 15;
    R52 a b c d e w15 5;
    R51 e a b c d w5 5;
    R52 e a b c d w10 12;
    R51 d e a b c w9 11;
    R52 d e a b c w4 9;
    R51 c d e a b w7 6;
    R52 c d e a b w1 12;
    R51 b c d e a w12 8;
    R52 b c d e a w5 5;
    R51 a b c d e w2 13;
    R52 a b c d e w8 14;
    R51 e a b c d w10 12;
    R52 e a b c d w7 6;
    R51 d e a b c w14 5;
    R52 d e a b c w6 8;
    R51 c d e a b w1 12;
    R52 c d e a b w2 13;
    R51 b c d e a w3 13;
    R52 b c d e a w13 6;
    R51 a b c d e w8 14;
    R52 a b c d e w14 5;
    R51 e a b c d w11 11;
    R52 e a b c d w0 15;
    R51 d e a b c w6 8;
    R52 d e a b c w3 13;
    R51 c d e a b w15 5;
    R52 c d e a b w9 11;
    R51 b c d e a w13 6;
    R52 b c d e a w11 11 ].

End lines.

Definition left_line (n : fn) : bool :=
  match n with R11_ | R21_ | R31_ | R41_ | R51_ => true | _ => false end.
Definition round_args (n : fn) (x r : Z) (args : list Z) : list Z :=
  match args with [a; b; c; d; e] => fn_round n a b c d e x r | _ => args end.
Definition exec_line (ws : list Z) (st : list Z * list Z) (l : line) : list Z * list Z :=
  let '(v1, v2) := st in
  let f := round_args (func l) ws.[word l] (rot_by l) in
  if left_line (func l) then (update_regs v1 (regs l) f, v2) else (v1, update_regs v2 (regs l) f).

Definition Transform (s chunk : list Z) : list Z :=
  let ws := map (fun i => ReadLE32 chunk (4 * i)) (seq 0 16) in
  let '(v1, v2) := foldl (exec_line ws) (s, s) Transform_lines in
  let t := s.[0] in
  [u32 (u32 (s.[1] + v1.[2]) + v2.[3]); u32 (u32 (s.[2] + v1.[3]) + v2.[4]);
   u32 (u32 (s.[3] + v1.[4]) + v2.[0]); u32 (u32 (s.[4] + v1.[0]) + v2.[1]); u32 (u32 (t + v1.[1]) + v2.[2])].

(** ** The streaming class *)

Definition CRIPEMD160 : Type := Ctx (list Z).
Definition CRIPEMD160_init (junk : list Z) : CRIPEMD160 := mkCtx Initialize junk 0.
Definition Write (c : CRIPEMD160) (data : list Z) : CRIPEMD160 := HashStream.Write 64 Transform c data.
Definition pad : list Z := 0x80 :: replicate 63 0.
Definition Finalize (c : CRIPEMD160) (hash : list Z) : CRIPEMD160 * list Z :=
  let sizedesc := WriteLE64 (replicate 8 0) 0 (u64 (bytes c ≪ 3)) in
  let c := Write c (take (Z.to_nat (1 + (119 - bytes c mod 64) mod 64)) pad) in
  let c := Write c sizedesc in
  (c, WriteLEs 4 hash 0 (s c)).
Definition Reset (c : CRIPEMD160) : CRIPEMD160 := mkCtx Initialize (buf c) 0.

(** ** The reference *)

Definition rho : list nat := [7; 4; 13; 1; 10; 6; 15; 3; 12; 0; 9; 5; 2; 14; 11; 8]%nat.
Definition pi (i : nat) : nat := ((9 * i + 5) mod 16)%nat.
(** Word [i] of the round [k] of the left (right) line. *)
Definition rho_pow (k i : nat) : nat := Nat.iter k (fun j => nth j rho 0%nat) i.
Definition word_ref (left : bool) (j : nat) : nat :=
  rho_pow (j / 16) (if left then (j mod 16)%nat else pi (j mod 16)).
(** The rotation depends on the round and the word. *)
Definition shifts : list (list Z) :=
  [ [11; 14; 15; 12; 5; 8; 7; 9; 11; 13; 14; 15; 6; 7; 9; 8];
    [12; 13; 11; 15; 6; 9; 9; 7; 12; 15; 11; 13; 7; 8; 7; 7];
    [13; 15; 14; 11; 7; 7; 6; 8; 13; 14; 13; 12; 5; 5; 6; 9];
    [14; 11; 12; 14; 8; 6; 5; 5; 15; 12; 15; 14; 9; 9; 8; 6];
    [15; 12; 13; 13; 9; 5; 8; 6; 14; 11; 12; 11; 8; 6; 5; 5] ].
Definition shift_ref (left : bool) (j : nat) : Z := nth (word_ref left j) (nth (j / 16) shifts []) 0.
(** Thirty bits of square and cube roots. *)
Definition K_left : list Z := 0 :: map (fun q => Z.sqrt (q * 2 ^ 60)) [2; 3; 5; 7].
Definition K_right : list Z := map (fun q => FIPS.icbrt (q * 2 ^ 90)) [2; 3; 5; 7] ++ [0].
Definition K_ref (left : bool) (j : nat) : Z := nth (j / 16) (if left then K_left else K_right) 0.
Definition f_ref (left : bool) (j : nat) : Z -> Z -> Z -> Z :=
  nth (if left then (j / 16)%nat else (4 - j / 16)%nat) [f1; f2; f3; f4; f5] f1.

Definition step (left : bool) (X st : list Z) (j : nat) : list Z :=
  match st with
  | [A; B; C; D; E] =>
      let T := (rol ((A + f_ref left j B C D + X.[word_ref left j] + K_ref left j) mod 2 ^ 32) (shift_ref left j) + E) mod 2 ^ 32 in
      [E; T; B; rol C 10; D]
  | _ => st
  end.
Definition compress (H M : list Z) : list Z :=
  let X := map (fun i => ReadLE32 M (4 * i)) (seq 0 16) in
  let l := foldl (step true X) H (seq 0 80) in
  let r := foldl (step false X) H (seq 0 80) in
  map (fun i => (H.[(i + 1) mod 5] + l.[(i + 2) mod 5] + r.[(i + 3) mod 5]) mod 2 ^ 32) (seq 0 5).
(** The padding of SHA-256 with the length in little-endian order. *)
Definition pad_ref (n : nat) : list Z :=
  [0x80] ++ replicate (FIPS.pad_zeros FIPS.sha256 n) 0 ++ le_digits 8 8 (8 * n).
Definition digest (M : list Z) : list Z :=
  let M := M ++ pad_ref (length M) in
  le_words 4 (transform_blocks 64 compress (length M / 64) Initialize M).

(** ** Equivalence *)

Definition fn_of (left : bool) (j : nat) : fn :=
  if left then nth (j / 16) [R11_; R21_; R31_; R41_; R51_] R11_ else nth (j / 16) [R12_; R22_; R32_; R42_; R52_] R12_.
Definition rule (left : bool) (j : nat) : line :=
  {| func := fn_of left j; regs := map (rotated 5 j) (seq 0 5); word := word_ref left j; rot_by := shift_ref left j |}.

Lemma Transform_lines_rule160 : Transform_lines = concat (map (fun j => [rule true j; rule false j]) (seq 0 80)).
Proof. vm_compute. reflexivity. Qed.

Lemma u32_sum4 a f x k : u32 (u32 (u32 (a + f) + x) + k) = (a + f + x + k) mod 2 ^ 32.
Proof.
  unfold u32, uwrap. by rewrite (Zplus_mod_idemp_l (a + f)), Zplus_mod_idemp_l.
Qed.

Lemma K_left_value : K_left = [0; 0x5A827999; 0x6ED9EBA1; 0x8F1BBCDC; 0xA953FD4E].
Proof. vm_compute. reflexivity. Qed.
Lemma K_right_value : K_right = [0x50A28BE6; 0x5C4DD124; 0x6D703EF3; 0x7A6D76E9; 0].
Proof. vm_compute. reflexivity. Qed.

(** The round functions are the reference's functions and constants. *)
Lemma fn_round_ref left j a b c d e x r : (j < 80)%nat ->
  fn_round (fn_of left j) a b c d e x r = Round a b c d e (f_ref left j b c d) x (K_ref left j) r.
Proof.
  intros Hj. assert (j / 16 < 5)%nat as Hq by (apply Nat.Div0.div_lt_upper_bound; lia).
  unfold fn_of, f_ref, K_ref. rewrite K_left_value, K_right_value. revert Hq. generalize (j / 16)%nat as q. intros q Hq.
  do 5 (destruct q as [|q]; [by destruct left|]). lia.
Qed.

Lemma round_step left X j st : length st = 5%nat -> (j < 80)%nat ->
  shift5 (round_args (fn_of left j) X.[word_ref left j] (shift_ref left j) st) = step left X st j.
Proof.
  intros Hst Hj. destruct (list5 st Hst) as (a & b & c & d & e & ->). cbn [round_args]. rewrite fn_round_ref by done.
  unfold Round. cbn [shift5 step]. by rewrite u32_sum4.
Qed.

Lemma left_line_fn left j : left_line (fn_of left j) = left.
Proof. unfold fn_of. destruct left; destruct (j / 16)%nat as [|[|[|[|[|[|]]]]]]; done. Qed.

Lemma round_args_length n x r l : length l = 5%nat -> length (round_args n x r l) = 5%nat.
Proof. intros Hl. destruct (list5 l Hl) as (a & b & c & d & e & ->). by destruct n. Qed.

Lemma exec_lines160 X n j v1 v2 :
  (j + n <= 80)%nat -> length v1 = 5%nat -> length v2 = 5%nat ->
  let '(v1', v2') := foldl (exec_line X) (v1, v2) (concat (map (fun j => [rule true j; rule false j]) (seq j n))) in
  length v1' = 5%nat /\ length v2' = 5%nat /\
  seen 5 (j + n) v1' = foldl (step true X) (seen 5 j v1) (seq j n) /\
  seen 5 (j + n) v2' = foldl (step false X) (seen 5 j v2) (seq j n).
Proof.
  revert j v1 v2. induction n as [|n IH]; intros j v1 v2 Hn H1 H2; cbn [seq map concat foldl app]; [by rewrite Nat.add_0_r|].
  assert (forall l, length (seen 5 j l) = 5%nat) as Hseen by (intros; unfold seen; by rewrite length_map).
  unfold exec_line at 2 3, rule. cbn [func word rot_by regs]. rewrite !left_line_fn. cbn beta iota.
  destruct (update_rotated5 j v1 (round_args (fn_of true j) X.[word_ref true j] (shift_ref true j)) H1) as [H1' E1];
    [intros; by apply round_args_length|].
  destruct (update_rotated5 j v2 (round_args (fn_of false j) X.[word_ref false j] (shift_ref false j)) H2) as [H2' E2];
    [intros; by apply round_args_length|].
  rewrite round_step in E1, E2 by (apply Hseen || lia). rewrite <- E1, <- E2, <- Nat.add_succ_comm.
  apply IH; [lia|done|done].
Qed.

Lemma Transform_compress160 s chunk : length s = 5%nat -> Transform s chunk = compress s chunk.
Proof.
  intros Hs. unfold Transform, compress. set (X := map _ (seq 0 16)). clearbody X. rewrite Transform_lines_rule160.
  pose proof (exec_lines160 X 80 0 s s ltac:(lia) Hs Hs) as H.
  destruct (foldl (exec_line X) _ _) as [v1 v2]. destruct H as (L1 & L2 & E1 & E2).
  rewrite seen_mod in E1, E2. change ((0 + 80) mod 5)%nat with 0%nat in E1, E2. rewrite !seen5_0 in E1, E2 by done.
  rewrite <- E1, <- E2. cbn [seq map]. unfold u32, uwrap. rewrite !Zplus_mod_idemp_l. reflexivity.
Qed.

Lemma Transform_take160 s chunk : (64 <= length chunk)%nat -> Transform s (take 64 chunk) = Transform s chunk.
Proof.
  intros Hc. unfold Transform.
  replace (map (fun i => ReadLE32 (take 64 chunk) (4 * i)) (seq 0 16)) with (map (fun i => ReadLE32 chunk (4 * i)) (seq 0 16)); [done|].
  apply map_ext_in. intros i Hi. apply in_seq in Hi. unfold ReadLE32, ReadLE.
  by rewrite !take_drop_commute, take_take, Nat.min_l by lia.
Qed.

Lemma Transform_blocks160 n s M :
  length s = 5%nat -> transform_blocks 64 Transform n s M = transform_blocks 64 compress n s M /\
    length (transform_blocks 64 compress n s M) = 5%nat.
Proof.
  revert s M. induction n as [|n IH]; intros s M Hs; cbn [transform_blocks]; [done|].
  rewrite (Transform_compress160 s M) by done. by apply IH.
Qed.

(** ** Streaming *)

Lemma Write_ok160 s0 c msg data :
  represents 64 Transform s0 c msg -> represents 64 Transform s0 (Write c data) (msg ++ data).
Proof. intros H. apply Write_represents; [lia|by exists (2 ^ 58)|exact Transform_take160|done]. Qed.

Lemma Writes_ok160 s0 c msg ds :
  represents 64 Transform s0 c msg -> represents 64 Transform s0 (foldl Write c ds) (msg ++ concat ds).
Proof.
  revert c msg. induction ds as [|d ds IH]; intros c msg H; simpl; [by rewrite app_nil_r|].
  rewrite app_assoc. apply IH. by apply Write_ok160.
Qed.

(** The two writes of [Finalize] are the padding. *)
Lemma pad_160 (n : nat) :
  take (Z.to_nat (1 + (119 - u64 n mod 64) mod 64)) pad ++ WriteLE64 (replicate 8 0) 0 (u64 (u64 n ≪ 3)) = pad_ref n /\
  ((n + length (pad_ref n)) mod 64 = 0)%nat.
Proof.
  pose proof (pad_64 n) as H. unfold FIPS.pad in H. change (FIPS.length_size FIPS.sha256) with 8%nat in H.
  assert (length (rev (le_digits 8 8 (8 * n))) = length (WriteBE64 (replicate 8 0) 0 (u64 (u64 n ≪ 3)))) as Hl by done.
  rewrite app_assoc in H. apply app_inj_2 in H as [H1 H2]; [|by rewrite length_rev].
  unfold pad_ref, pad. rewrite H1, app_assoc. split.
  - f_equal. unfold WriteBE64, WriteBE, WriteLE64, WriteLE in *. rewrite take_0, app_nil_l in *.
    rewrite drop_ge, app_nil_r in * by (simpl; lia). apply (f_equal (@rev Z)) in H2. by rewrite !rev_involutive in H2.
  - destruct (FIPS.pad_spec FIPS.sha256 n) as [Hm _]; [by left|].
    unfold FIPS.pad in Hm. rewrite !length_app, length_rev, le_digits_length in *. exact Hm.
Qed.

(** A context that represents a message finalizes to its digest. *)
Lemma Finalize_digest160 c msg hash :
  represents 64 Transform Initialize c msg -> length hash = 20%nat -> (Finalize c hash).2 = digest msg.
Proof.
  intros Hc Hh. assert (bytes c = u64 (length msg)) as Hb by (by destruct Hc as (?&?&?&?&?&?&?&?&?&?)).
  unfold Finalize. cbn [snd]. rewrite Hb.
  pose proof (Write_ok160 _ _ _ (take (Z.to_nat (1 + (119 - u64 (length msg) mod 64) mod 64)) pad) Hc) as H1.
  pose proof (Write_ok160 _ _ _ (WriteLE64 (replicate 8 0) 0 (u64 (u64 (length msg) ≪ 3))) H1) as H2.
  destruct (pad_160 (length msg)) as [Hpad Hmod]. rewrite <- app_assoc, Hpad in H2. rewrite <- length_app in Hmod.
  rewrite (represents_absorb 64 Transform ltac:(lia) _ _ _ H2 Hmod). unfold absorb.
  destruct (Transform_blocks160 (length (msg ++ pad_ref (length msg)) / 64) Initialize
    (msg ++ pad_ref (length msg)) eq_refl) as [-> Hl].
  unfold digest. apply WriteLEs_all. by rewrite Hl.
Qed.

(** [CRIPEMD160] computes the RIPEMD-160 digest of the concatenation of the
    data written to it, however the message is cut into [Write] calls: the 160
    interleaved lines with renamed variables are the two lines of 80 steps of
    the definition. *)
Theorem CRIPEMD160_correct junk hash ds :
  length junk = 64%nat -> length hash = 20%nat ->
  (Finalize (foldl Write (CRIPEMD160_init junk) ds) hash).2 = digest (concat ds).
Proof.
  intros Hj Hh. apply Finalize_digest160; [|done].
  apply (Writes_ok160 _ _ []). apply represents_nil; [lia|exact Hj].
Qed.

Lemma CRIPEMD160_correct_witness :
  (Finalize (foldl Write (CRIPEMD160_init (replicate 64 9)) [[97]; [98; 99]]) (replicate 20 0)).2 = digest [97; 98; 99].
Proof. apply (CRIPEMD160_correct (replicate 64 9) (replicate 20 0) [[97]; [98; 99]]); reflexivity. Defined.

End Ripemd160.
