(* ===== verification/Hash.v ===== *)
(** * Hashers built on the block hashes ([hash.h], [hash.cpp],
    [crypto/hmac_sha256.cpp], [crypto/hmac_sha512.cpp])

    Double SHA-256, SHA-256 followed by RIPEMD-160, the hashing stream writer,
    HMAC over both SHA-2 functions and the BIP 32 derivation hash; each computes
    the composition of digests it stands for. *)
From stdpp Require Import prelude.
From S2P Require Import Prelude Uint256 HashStream Fips180 Sha2Theory Sha256 Sha256Theory Sha512 Ripemd160.

Module Hash.

(** Local buffers and new objects have arbitrary contents: [junk] stands for
    the 64 (128) bytes a hasher's buffer starts with. *)
Section Hashers.
Context (junk junk128 : list Z).

(** ** [CHash256], [CHash160] *)

Definition CHash256_Write (sha : Sha256.CSHA256) (input : list Z) : Sha256.CSHA256 := Sha256.Write sha input.
Definition CHash256_Finalize (sha : Sha256.CSHA256) (output : list Z) : option (list Z) :=
  if (length output =? 32)%nat then
    let '(sha, buf) := Sha256.Finalize sha (replicate 32 0) in
    Some (Sha256.Finalize (Sha256.Write (Sha256.Reset sha) buf) output).2
  else None.
Definition CHash256_Reset (sha : Sha256.CSHA256) : Sha256.CSHA256 := Sha256.Reset sha.

Definition CHash160_Finalize (sha : Sha256.CSHA256) (output : list Z) : option (list Z) :=
  if (length output =? 20)%nat then
    let '(sha, buf) := Sha256.Finalize sha (replicate 32 0) in
    Some (Ripemd160.Finalize (Ripemd160.Write (Ripemd160.CRIPEMD160_init junk) buf) output).2
  else None.

(** [Hash(in1)], [Hash(in1, in2)], [Hash160(in1)]; [uint256 result] starts null. *)
Definition Hash1 (in1 : list Z) : option (list Z) :=
  CHash256_Finalize (CHash256_Write (Sha256.CSHA256_init junk) in1) (Blob.null 32).
Definition Hash2 (in1 in2 : list Z) : option (list Z) :=
  CHash256_Finalize (CHash256_Write (CHash256_Write (Sha256.CSHA256_init junk) in1) in2) (Blob.null 32).
Definition Hash160 (in1 : list Z) : option (list Z) :=
  CHash160_Finalize (CHash256_Write (Sha256.CSHA256_init junk) in1) (Blob.null 20).

(** ** [CHashWriter] *)

Definition CHashWriter_init : Sha256.CSHA256 := Sha256.CSHA256_init junk.
Definition CHashWriter_write (ctx : Sha256.CSHA256) (src : list Z) : Sha256.CSHA256 := Sha256.Write ctx src.
Definition GetHash (ctx : Sha256.CSHA256) : list Z :=
  let '(ctx, result) := Sha256.Finalize ctx (Blob.null 32) in
  (Sha256.Finalize (Sha256.Write (Sha256.Reset ctx) (take 32 result)) result).2.
Definition GetSHA256 (ctx : Sha256.CSHA256) : list Z := (Sha256.Finalize ctx (Blob.null 32)).2.
Definition GetCheapHash (ctx : Sha256.CSHA256) : Z := ReadLE64 (GetHash ctx) 0.
Definition SHA256Uint256 (input : list Z) : list Z :=
  (Sha256.Finalize (Sha256.Write (Sha256.CSHA256_init junk) (take 32 input)) (Blob.null 32)).2.

(** [TaggedHash]: a writer that starts with the digest of the tag, twice. *)
Definition TaggedHash (tag : list Z) : Sha256.CSHA256 :=
  let taghash := (Sha256.Finalize (Sha256.Write (Sha256.CSHA256_init junk) tag) (Blob.null 32)).2 in
  CHashWriter_write (CHashWriter_write CHashWriter_init taghash) taghash.

(** ** HMAC *)

Definition xor_bytes (k : Z) (l : list Z) : list Z := map (fun x => Z.lxor x k) l.

(** The constructor: the outer and the inner hasher, with their keys written. *)
Definition CHMAC_SHA256 (key : list Z) : Sha256.CSHA256 * Sha256.CSHA256 :=
  let rkey :=
    if (length key <=? 64)%nat then key ++ replicate (64 - length key) 0
    else (Sha256.Finalize (Sha256.Write (Sha256.CSHA256_init junk) key) (replicate 32 0)).2 ++ replicate 32 0 in
  let rkey := xor_bytes 0x5c rkey in
  let outer := Sha256.Write (Sha256.CSHA256_init junk) rkey in
  let rkey := xor_bytes (Z.lxor 0x5c 0x36) rkey in
  let inner := Sha256.Write (Sha256.CSHA256_init junk) rkey in
  (outer, inner).
Definition HMAC256_Write (h : Sha256.CSHA256 * Sha256.CSHA256) (data : list Z) : Sha256.CSHA256 * Sha256.CSHA256 :=
  (h.1, Sha256.Write h.2 data).
Definition HMAC256_Finalize (h : Sha256.CSHA256 * Sha256.CSHA256) (hash : list Z) : list Z :=
  let temp := (Sha256.Finalize h.2 (replicate 32 0)).2 in
  (Sha256.Finalize (Sha256.Write h.1 temp) hash).2.

Definition CHMAC_SHA512 (key : list Z) : Sha512.CSHA512 * Sha512.CSHA512 :=
  let rkey :=
    if (length key <=? 128)%nat then key ++ replicate (128 - length key) 0
    else (Sha512.Finalize (Sha512.Write (Sha512.CSHA512_init junk128) key) (replicate 64 0)).2 ++ replicate 64 0 in
  let rkey := xor_bytes 0x5c rkey in
  let outer := Sha512.Write (Sha512.CSHA512_init junk128) rkey in
  let rkey := xor_bytes (Z.lxor 0x5c 0x36) rkey in
  let inner := Sha512.Write (Sha512.CSHA512_init junk128) rkey in
  (outer, inner).
Definition HMAC512_Write (h : Sha512.CSHA512 * Sha512.CSHA512) (data : list Z) : Sha512.CSHA512 * Sha512.CSHA512 :=
  (h.1, Sha512.Write h.2 data).
Definition HMAC512_Finalize (h : Sha512.CSHA512 * Sha512.CSHA512) (hash : list Z) : list Z :=
  let temp := (Sha512.Finalize h.2 (replicate 64 0)).2 in
  (Sha512.Finalize (Sha512.Write h.1 temp) hash).2.

(** [BIP32Hash]. *)
Definition BIP32Hash (chainCode : list Z) (nChild header : Z) (data output : list Z) : list Z :=
  let num := WriteBE32 (replicate 4 0) 0 nChild in
  HMAC512_Finalize (HMAC512_Write (HMAC512_Write (HMAC512_Write (CHMAC_SHA512 chainCode) [header]) (take 32 data)) num) output.

End Hashers.

(** ** What they compute *)

Definition sha256 : list Z -> list Z := FIPS.digest FIPS.sha256.
Definition sha512 : list Z -> list Z := FIPS.digest FIPS.sha512.

(** RFC 2104, for a hash function [H] with blocks of [B] bytes. *)
Definition hmac_key (H : list Z -> list Z) (B : nat) (key : list Z) : list Z :=
  let key := if (length key <=? B)%nat then key else H key in
  key ++ replicate (B - length key) 0.
Definition hmac (H : list Z -> list Z) (B : nat) (key text : list Z) : list Z :=
  H (xor_bytes 0x5c (hmac_key H B key) ++ H (xor_bytes 0x36 (hmac_key H B key) ++ text)).

#[local] Abbreviation rep256 := (represents 64 Sha256.Transform_block Sha256.Initialize).
#[local] Abbreviation rep512 := (represents 128 Sha512.Transform Sha512.Initialize).

Lemma digest_length p msg :
  length (FIPS.H0 p) = 8%nat -> length (FIPS.digest p msg) = (Z.to_nat (FIPS.width p / 8) * 8)%nat.
Proof.
  intros H. unfold FIPS.digest. change (concat (map (fun x => rev (le_digits 8 (Z.to_nat (FIPS.width p / 8)) x)) ?l))
    with (be_words (Z.to_nat (FIPS.width p / 8)) l). rewrite be_words_length. f_equal. by apply compress_blocks_length.
Qed.

Lemma sha256_length msg : length (sha256 msg) = 32%nat.
Proof. apply (digest_length FIPS.sha256). apply Sha256Theory.H0_length256. Qed.
Lemma sha512_length msg : length (sha512 msg) = 64%nat.
Proof. apply (digest_length FIPS.sha512). apply Sha512.H0_length512. Qed.

Lemma sha256_digits msg : digits 8 (sha256 msg).
Proof.
  unfold sha256, FIPS.digest. generalize (FIPS.compress_blocks FIPS.sha256). intros f.
  apply Forall_concat, Forall_map, Forall_forall. intros x _. apply Forall_rev, le_digits_digits. lia.
Qed.

Lemma finalize256 c msg hash : rep256 c msg -> length hash = 32%nat -> (Sha256.Finalize c hash).2 = sha256 msg.
Proof. apply Sha256Theory.Finalize_digest256. Qed.

Lemma finalize512 c msg hash :
  rep512 c msg -> length msg < 2 ^ 61 -> length hash = 64%nat -> (Sha512.Finalize c hash).2 = sha512 msg.
Proof. apply Sha512.Finalize_digest512. Qed.

Lemma init256 junk data : length junk = 64%nat -> rep256 (Sha256.Write (Sha256.CSHA256_init junk) data) data.
Proof. intros Hj. apply (Sha256Theory.Write_ok256 _ _ [] data). apply represents_nil; [lia|exact Hj]. Qed.

Lemma init512 junk data : length junk = 128%nat -> rep512 (Sha512.Write (Sha512.CSHA512_init junk) data) data.
Proof. intros Hj. apply (Sha512.Write_ok512 _ _ [] data). apply represents_nil; [lia|exact Hj]. Qed.

(** After [Finalize], a [Reset] hasher has absorbed nothing. *)
Lemma reset256 c msg hash data :
  rep256 c msg -> rep256 (Sha256.Write (Sha256.Reset (Sha256.Finalize c hash).1) data) data.
Proof.
  intros Hc. apply (Sha256Theory.Write_ok256 _ _ [] data). apply represents_nil; [lia|].
  unfold Sha256.Finalize. cbn [fst].
  pose proof (Sha256Theory.Write_ok256 _ _ _ (WriteBE64 (replicate 8 0) 0 (u64 (bytes c ≪ 3)))
    (Sha256Theory.Write_ok256 _ _ _ (take (Z.to_nat (1 + (119 - bytes c mod 64) mod 64)) Sha256.pad) Hc)) as H.
  by destruct H as (? & ? & ? & _ & _ & _ & _ & _ & Hb & _).
Qed.

Lemma CHash256_digest_into c msg out : rep256 c msg -> length out = 32%nat -> CHash256_Finalize c out = Some (sha256 (sha256 msg)).
Proof.
  intros Hc Ho. unfold CHash256_Finalize. rewrite Ho. cbn [Nat.eqb].
  pose proof (finalize256 c msg (replicate 32 0) Hc eq_refl) as Hf. pose proof (reset256 c msg (replicate 32 0) (sha256 msg) Hc) as Hr.
  destruct (Sha256.Finalize c (replicate 32 0)) as [c' b]. cbn [fst snd] in *. subst b.
  f_equal. by apply finalize256.
Qed.

Lemma CHash256_digest c msg : rep256 c msg -> CHash256_Finalize c (Blob.null 32) = Some (sha256 (sha256 msg)).
Proof. intros Hc. by apply CHash256_digest_into. Qed.

Lemma CHash160_digest junk c msg :
  length junk = 64%nat -> rep256 c msg -> CHash160_Finalize junk c (Blob.null 20) = Some (Ripemd160.digest (sha256 msg)).
Proof.
  intros Hj Hc. unfold CHash160_Finalize. change ((length (Blob.null 20) =? 20)%nat) with true. cbv iota.
  pose proof (finalize256 c msg (replicate 32 0) Hc eq_refl) as Hf.
  destruct (Sha256.Finalize c (replicate 32 0)) as [c' b]. cbn [fst snd] in *. subst b. f_equal.
  apply Ripemd160.Finalize_digest160; [|done]. apply (Ripemd160.Write_ok160 _ _ [] (sha256 msg)).
  apply represents_nil; [lia|exact Hj].
Qed.

Lemma GetHash_digest c msg : rep256 c msg -> GetHash c = sha256 (sha256 msg).
Proof.
  intros Hc. unfold GetHash.
  pose proof (finalize256 c msg (Blob.null 32) Hc eq_refl) as Hf. pose proof (reset256 c msg (Blob.null 32) (sha256 msg) Hc) as Hr.
  destruct (Sha256.Finalize c (Blob.null 32)) as [c' b]. cbn [fst snd] in *. subst b.
  rewrite take_ge by (rewrite sha256_length; lia). apply finalize256; [done|apply sha256_length].
Qed.

Lemma xor_bytes_twice a b l : xor_bytes b (xor_bytes a l) = xor_bytes (Z.lxor a b) l.
Proof. unfold xor_bytes. rewrite map_map. apply map_ext. intros x. apply Z.lxor_assoc. Qed.

(** The constructors write the two keys. *)
Lemma CHMAC_SHA256_keys junk key :
  length junk = 64%nat ->
  rep256 (CHMAC_SHA256 junk key).1 (xor_bytes 0x5c (hmac_key sha256 64 key)) /\
  rep256 (CHMAC_SHA256 junk key).2 (xor_bytes 0x36 (hmac_key sha256 64 key)).
Proof.
  intros Hj. unfold CHMAC_SHA256. cbv zeta. cbn [fst snd].
  rewrite (finalize256 _ key (replicate 32 0) (init256 junk key Hj) eq_refl), xor_bytes_twice.
  change (Z.lxor 0x5c (Z.lxor 0x5c 0x36)) with 0x36.
  replace (if (length key <=? 64)%nat then _ else _) with (hmac_key sha256 64 key).
  - split; by apply init256.
  - unfold hmac_key. cbv zeta. case_if; [done|]. by rewrite sha256_length.
Qed.

Lemma CHMAC_SHA512_keys junk128 key :
  length junk128 = 128%nat -> length key < 2 ^ 61 ->
  rep512 (CHMAC_SHA512 junk128 key).1 (xor_bytes 0x5c (hmac_key sha512 128 key)) /\
  rep512 (CHMAC_SHA512 junk128 key).2 (xor_bytes 0x36 (hmac_key sha512 128 key)).
Proof.
  intros Hj Hk. unfold CHMAC_SHA512. cbv zeta. cbn [fst snd].
  rewrite (finalize512 _ key (replicate 64 0) (init512 junk128 key Hj) Hk eq_refl), xor_bytes_twice.
  change (Z.lxor 0x5c (Z.lxor 0x5c 0x36)) with 0x36.
  replace (if (length key <=? 128)%nat then _ else _) with (hmac_key sha512 128 key).
  - split; by apply init512.
  - unfold hmac_key. cbv zeta. case_if; [done|]. by rewrite sha512_length.
Qed.

Lemma HMAC256_Writes h ds : foldl HMAC256_Write h ds = (h.1, foldl Sha256.Write h.2 ds).
Proof. revert h. induction ds as [|d ds IH]; intros [o i]; [done|]. apply (IH (o, Sha256.Write i d)). Qed.
Lemma HMAC512_Writes h ds : foldl HMAC512_Write h ds = (h.1, foldl Sha512.Write h.2 ds).
Proof. revert h. induction ds as [|d ds IH]; intros [o i]; [done|]. apply (IH (o, Sha512.Write i d)). Qed.

Lemma hmac_key_length H B key :
  (forall m, length (H m) <= B)%nat -> length (hmac_key H B key) = B.
Proof.
  intros HB. unfold hmac_key. cbv zeta. rewrite length_app, length_replicate. case_if; [lia|]. specialize (HB key). lia.
Qed.

Lemma HMAC512_digest junk128 key ds hash :
  length junk128 = 128%nat -> length key < 2 ^ 61 -> length (concat ds) < 2 ^ 60 -> length hash = 64%nat ->
  HMAC512_Finalize (foldl HMAC512_Write (CHMAC_SHA512 junk128 key) ds) hash = hmac sha512 128 key (concat ds).
Proof.
  intros Hj Hk Hd Hh. destruct (CHMAC_SHA512_keys junk128 key Hj Hk) as [Ho Hi].
  assert (length (hmac_key sha512 128 key) = 128%nat) as Hkl
    by (apply hmac_key_length; intros; rewrite sha512_length; lia).
  rewrite HMAC512_Writes. unfold HMAC512_Finalize. cbn [fst snd].
  rewrite (finalize512 _ _ (replicate 64 0) (Sha512.Writes_ok512 _ _ _ ds Hi)); [|rewrite length_app; unfold xor_bytes; rewrite length_map; lia|done].
  apply finalize512; [by apply Sha512.Write_ok512| |done].
  rewrite length_app, sha512_length. unfold xor_bytes. rewrite length_map. lia.
Qed.

(** ** Properties *)

(** [Hash] is double SHA-256 of its arguments, [Hash160] is RIPEMD-160 of
    SHA-256, a [CHashWriter] hashes everything streamed into it twice, and a
    tagged writer gives the BIP 340 tagged hash; none of their assertions
    fails. *)
Theorem hashers_correct junk x y ds tag :
  length junk = 64%nat ->
  Hash1 junk x = Some (sha256 (sha256 x)) /\
  Hash2 junk x y = Some (sha256 (sha256 (x ++ y))) /\
  Hash160 junk x = Some (Ripemd160.digest (sha256 x)) /\
  GetHash (foldl CHashWriter_write (CHashWriter_init junk) ds) = sha256 (sha256 (concat ds)) /\
  GetSHA256 (foldl CHashWriter_write (TaggedHash junk tag) ds) = sha256 (sha256 tag ++ sha256 tag ++ concat ds).
Proof.
  intros Hj. split_and!.
  - apply CHash256_digest. by apply init256.
  - apply CHash256_digest. apply Sha256Theory.Write_ok256. by apply init256.
  - apply CHash160_digest; [done|]. by apply init256.
  - apply GetHash_digest. apply (Sha256Theory.Writes_ok256 _ _ []). apply represents_nil; [lia|exact Hj].
  - unfold TaggedHash. rewrite (finalize256 _ tag (Blob.null 32) (init256 junk tag Hj) eq_refl).
    apply finalize256; [|done]. rewrite app_assoc. apply Sha256Theory.Writes_ok256.
    apply Sha256Theory.Write_ok256. by apply init256.
Qed.

Lemma hashers_correct_witness :
  Hash1 (replicate 64 1) [97] = Some (sha256 (sha256 [97])) /\
  Hash2 (replicate 64 1) [97] [98] = Some (sha256 (sha256 ([97] ++ [98]))) /\
  Hash160 (replicate 64 1) [97] = Some (Ripemd160.digest (sha256 [97])) /\
  GetHash (foldl CHashWriter_write (CHashWriter_init (replicate 64 1)) [[1]; [2]]) = sha256 (sha256 (concat [[1]; [2]])) /\
  GetSHA256 (foldl CHashWriter_write (TaggedHash (replicate 64 1) [7]) [[1]; [2]]) =
    sha256 (sha256 [7] ++ sha256 [7] ++ concat [[1]; [2]]).
Proof. exact (hashers_correct (replicate 64 1) [97] [98] [[1]; [2]] [7] eq_refl). Defined.

(** The HMAC classes compute RFC 2104 over SHA-256 and SHA-512, for keys of
    any length (longer keys are hashed first) and data in any number of writes;
    [BIP32Hash] is HMAC-SHA-512 of the header byte, the data and the
    big-endian child number under the chain code. *)
Theorem hmac_correct junk junk128 key ds hash hash64 chainCode nChild header data :
  length junk = 64%nat -> length junk128 = 128%nat -> length hash = 32%nat -> length hash64 = 64%nat ->
  length key < 2 ^ 61 -> length (concat ds) < 2 ^ 60 -> length chainCode = 32%nat -> length data = 32%nat ->
  HMAC256_Finalize (foldl HMAC256_Write (CHMAC_SHA256 junk key) ds) hash = hmac sha256 64 key (concat ds) /\
  HMAC512_Finalize (foldl HMAC512_Write (CHMAC_SHA512 junk128 key) ds) hash64 = hmac sha512 128 key (concat ds) /\
  BIP32Hash junk128 chainCode nChild header data hash64 =
    hmac sha512 128 chainCode ([header] ++ data ++ rev (le_digits 8 4 nChild)).
Proof.
  intros Hj Hj8 Hh Hh8 Hk Hd Hc Hl. split_and!.
  - destruct (CHMAC_SHA256_keys junk key Hj) as [Ho Hi]. rewrite HMAC256_Writes. unfold HMAC256_Finalize. cbn [fst snd].
    rewrite (finalize256 _ _ (replicate 32 0) (Sha256Theory.Writes_ok256 _ _ _ ds Hi) eq_refl).
    apply finalize256; [by apply Sha256Theory.Write_ok256|done].
  - by apply HMAC512_digest.
  - pose proof (HMAC512_digest junk128 chainCode [[header]; take 32 data; WriteBE32 (replicate 4 0) 0 nChild] hash64
      Hj8 ltac:(lia) ltac:(cbn [concat]; rewrite !length_app, length_take; change (length (WriteBE32 (replicate 4 0) 0 nChild)) with 4%nat; cbn [length]; lia) Hh8) as H.
    rewrite (take_ge data) in H by lia. unfold BIP32Hash. rewrite (take_ge data) by lia. exact H.
Qed.

Lemma hmac_correct_witness :
  HMAC256_Finalize (foldl HMAC256_Write (CHMAC_SHA256 (replicate 64 1) [1; 2]) [[3]]) (replicate 32 0) = hmac sha256 64 [1; 2] [3] /\
  HMAC512_Finalize (foldl HMAC512_Write (CHMAC_SHA512 (replicate 128 1) [1; 2]) [[3]]) (replicate 64 0) = hmac sha512 128 [1; 2] [3] /\
  BIP32Hash (replicate 128 1) (replicate 32 2) 5 0 (replicate 32 3) (replicate 64 0) =
    hmac sha512 128 (replicate 32 2) ([0] ++ replicate 32 3 ++ rev (le_digits 8 4 5)).
Proof.
  exact (hmac_correct (replicate 64 1) (replicate 128 1) [1; 2] [[3]] (replicate 32 0) (replicate 64 0)
    (replicate 32 2) 5 0 (replicate 32 3) eq_refl eq_refl eq_refl eq_refl eq_refl eq_refl eq_refl eq_refl).
Defined.

End Hash.
