(* ===== verification/SipHash.v ===== *)
(** * SipHash-2-4 ([crypto/siphash.cpp])

    The incremental hasher [CSipHasher], byte-wise and word-wise, and the two
    specialised functions for 256-bit values.  All of them compute SipHash-2-4
    of the bytes they stand for. *)
From stdpp Require Import prelude.
From S2P Require Import Prelude Uint256 HashStream.

Module SipHash.

Definition ROTL (x b : Z) : Z := Z.lor (u64 (x ≪ b)) (x ≫ (64 - b)).

(** The state variables [v0 ... v3]. *)
Record vars := mkV { v0 : Z; v1 : Z; v2 : Z; v3 : Z }.

Definition SIPROUND '(mkV v0 v1 v2 v3) : vars :=
  let v0 := u64 (v0 + v1) in let v1 := ROTL v1 13 in let v1 := Z.lxor v1 v0 in
  let v0 := ROTL v0 32 in
  let v2 := u64 (v2 + v3) in let v3 := ROTL v3 16 in let v3 := Z.lxor v3 v2 in
  let v0 := u64 (v0 + v3) in let v3 := ROTL v3 21 in let v3 := Z.lxor v3 v0 in
  let v2 := u64 (v2 + v1) in let v1 := ROTL v1 17 in let v1 := Z.lxor v1 v2 in
  let v2 := ROTL v2 32 in
  mkV v0 v1 v2 v3.
Definition xor0 (v : vars) (d : Z) : vars := mkV (Z.lxor (v0 v) d) (v1 v) (v2 v) (v3 v).
Definition xor2 (v : vars) (d : Z) : vars := mkV (v0 v) (v1 v) (Z.lxor (v2 v) d) (v3 v).
Definition xor3 (v : vars) (d : Z) : vars := mkV (v0 v) (v1 v) (v2 v) (Z.lxor (v3 v) d).

(** [v0 ^ v1 ^ v2 ^ v3]. *)
Definition xor_all (w : vars) : Z := Z.lxor (Z.lxor (Z.lxor (v0 w) (v1 w)) (v2 w)) (v3 w).

Record CSipHasher := mkSip { v : vars; tmp : Z; count : Z }.

Definition CSipHasher_init (k0 k1 : Z) : CSipHasher :=
  mkSip (mkV (Z.lxor 0x736f6d6570736575 k0) (Z.lxor 0x646f72616e646f6d k1)
             (Z.lxor 0x6c7967656e657261 k0) (Z.lxor 0x7465646279746573 k1)) 0 0.

(** [Write(uint64_t)], with its assertion. *)
Definition Write64 (h : CSipHasher) (data : Z) : option CSipHasher :=
  if count h mod 8 =? 0 then
    let w := xor3 (v h) data in
    let w := SIPROUND (SIPROUND w) in
    Some (mkSip (xor0 w data) (tmp h) (u8 (count h + 8)))
  else None.

(** The loop of [Write(data, size)], over the local copies [t] and [c]. *)
Fixpoint Write_loop (w : vars) (t c : Z) (data : list Z) : vars * Z * Z :=
  match data with
  | [] => (w, t, c)
  | x :: r =>
      let t := Z.lor t (u64 (x ≪ (8 * (c mod 8)))) in
      let c := u8 (c + 1) in
      if Z.land c 7 =? 0 then Write_loop (xor0 (SIPROUND (SIPROUND (xor3 w t))) t) 0 c r
      else Write_loop w t c r
  end.
Definition Write (h : CSipHasher) (data : list Z) : CSipHasher :=
  let '(w, t, c) := Write_loop (v h) (tmp h) (count h) data in mkSip w t c.

Definition Finalize (h : CSipHasher) : Z :=
  let t := Z.lor (tmp h) (u64 (count h ≪ 56)) in
  let w := xor3 (v h) t in
  let w := SIPROUND (SIPROUND w) in
  let w := xor0 w t in
  let w := xor2 w 0xFF in
  let w := SIPROUND (SIPROUND (SIPROUND (SIPROUND w))) in
  xor_all w.

Definition SipHashUint256 (k0 k1 : Z) (val : list Z) : Z :=
  let d := Blob.GetUint64 val 0 in
  let w := mkV (Z.lxor 0x736f6d6570736575 k0) (Z.lxor 0x646f72616e646f6d k1)
               (Z.lxor 0x6c7967656e657261 k0) (Z.lxor (Z.lxor 0x7465646279746573 k1) d) in
  let w := SIPROUND (SIPROUND w) in
  let w := xor0 w d in
  let d := Blob.GetUint64 val 1 in
  let w := xor3 w d in
  let w := SIPROUND (SIPROUND w) in
  let w := xor0 w d in
  let d := Blob.GetUint64 val 2 in
  let w := xor3 w d in
  let w := SIPROUND (SIPROUND w) in
  let w := xor0 w d in
  let d := Blob.GetUint64 val 3 in
  let w := xor3 w d in
  let w := SIPROUND (SIPROUND w) in
  let w := xor0 w d in
  let w := xor3 w (u64 (4 ≪ 59)) in
  let w := SIPROUND (SIPROUND w) in
  let w := xor0 w (u64 (4 ≪ 59)) in
  let w := xor2 w 0xFF in
  let w := SIPROUND (SIPROUND (SIPROUND (SIPROUND w))) in
  xor_all w.

Definition SipHashUint256Extra (k0 k1 : Z) (val : list Z) (extra : Z) : Z :=
  let d := Blob.GetUint64 val 0 in
  let w := mkV (Z.lxor 0x736f6d6570736575 k0) (Z.lxor 0x646f72616e646f6d k1)
               (Z.lxor 0x6c7967656e657261 k0) (Z.lxor (Z.lxor 0x7465646279746573 k1) d) in
  let w := SIPROUND (SIPROUND w) in
  let w := xor0 w d in
  let d := Blob.GetUint64 val 1 in
  let w := xor3 w d in
  let w := SIPROUND (SIPROUND w) in
  let w := xor0 w d in
  let d := Blob.GetUint64 val 2 in
  let w := xor3 w d in
  let w := SIPROUND (SIPROUND w) in
  let w := xor0 w d in
  let d := Blob.GetUint64 val 3 in
  let w := xor3 w d in
  let w := SIPROUND (SIPROUND w) in
  let w := xor0 w d in
  let d := Z.lor (u64 (36 ≪ 56)) extra in
  let w := xor3 w d in
  let w := SIPROUND (SIPROUND w) in
  let w := xor0 w d in
  let w := xor2 w 0xFF in
  let w := SIPROUND (SIPROUND (SIPROUND (SIPROUND w))) in
  xor_all w.

(** ** The reference: SipHash-2-4 of a byte string *)

Definition absorb_word (w : vars) (d : Z) : vars := xor0 (SIPROUND (SIPROUND (xor3 w d))) d.
Definition absorb_chunk (w : vars) (chunk : list Z) : vars := absorb_word w (le_val 8 (take 8 chunk)).
(** The last word has the remaining bytes and the length modulo 256. *)
Definition last_word (m : list Z) : Z :=
  le_val 8 (drop (8 * (length m / 8)) m) + (length m mod 256) * 2 ^ 56.
Definition siphash (k0 k1 : Z) (m : list Z) : Z :=
  let w := absorb 8 absorb_chunk (v (CSipHasher_init k0 k1)) m in
  let w := xor2 (absorb_word w (last_word m)) 0xFF in
  let w := SIPROUND (SIPROUND (SIPROUND (SIPROUND w))) in
  xor_all w.

(** ** Proofs *)

(** The hasher has absorbed [m] from the state [w0]. *)
Definition hashed (w0 : vars) (h : CSipHasher) (m : list Z) : Prop :=
  exists k dn rest, m = dn ++ rest /\ length dn = (k * 8)%nat /\ (length rest < 8)%nat /\ digits 8 rest /\
    v h = transform_blocks 8 absorb_chunk k w0 dn /\ tmp h = le_val 8 rest /\ count h = length m mod 256.

Lemma absorb_chunk_take w chunk : (8 <= length chunk)%nat -> absorb_chunk w (take 8 chunk) = absorb_chunk w chunk.
Proof. intros _. unfold absorb_chunk. by rewrite take_take. Qed.

Lemma blocks_snoc k w0 dn blk :
  length dn = (k * 8)%nat ->
  transform_blocks 8 absorb_chunk (k + 1) w0 (dn ++ blk) = absorb_chunk (transform_blocks 8 absorb_chunk k w0 dn) blk.
Proof. intros H. rewrite (transform_blocks_split 8 absorb_chunk ltac:(lia) absorb_chunk_take k 1) by done. done. Qed.

(** One byte: it goes to its place in [t], and a full word is absorbed. *)
Lemma count_next c (n : nat) : c = n mod 256 -> u8 (c + 1) = S n mod 256 /\ c mod 8 = n mod 8.
Proof.
  intros ->. split.
  - unfold u8, uwrap. change (2 ^ 8) with 256. rewrite Zplus_mod_idemp_l. f_equal. lia.
  - change 256 with (8 * 32). rewrite Z.rem_mul_r by lia. rewrite (Z.mul_comm 8), Z.mod_add, Z.mod_mod by lia. done.
Qed.

Lemma place_byte rest x :
  digits 8 rest -> (length rest < 8)%nat -> in_u 8 x ->
  Z.lor (le_val 8 rest) (u64 (x ≪ (8 * length rest))) = le_val 8 (rest ++ [x]).
Proof.
  intros Hr Hl Hx. pose proof (le_val_bound 8 ltac:(lia) rest Hr) as Hb.
  unfold in_u in Hx. rewrite u64_small.
  - rewrite lor_low_high by (try done; lia). rewrite le_val_app by lia. cbn [le_val]. lia.
  - rewrite Z.shiftl_mul_pow2 by lia. unfold in_u. pose proof (pow2_pos (8 * length rest) ltac:(lia)). split; [nia|].
    apply Z.lt_le_trans with (2 ^ 8 * 2 ^ (8 * length rest)); [nia|]. rewrite <- Z.pow_add_r by lia.
    apply Z.pow_le_mono_r; lia.
Qed.

Lemma Write_loop_spec w0 h m data :
  hashed w0 h m -> digits 8 data ->
  let '(w, t, c) := Write_loop (v h) (tmp h) (count h) data in hashed w0 (mkSip w t c) (m ++ data).
Proof.
  destruct h as [w t c]. revert w t c m. induction data as [|x data IH]; intros w t c m H Hd; cbn [Write_loop v tmp count].
  { by rewrite app_nil_r. }
  apply Forall_cons in Hd as [Hx Hd]. destruct H as (k & dn & rest & Hm & Hdn & Hr & Hdig & Hv & Ht & Hc). cbn in Hv, Ht, Hc.
  destruct (count_next c (length m) Hc) as [Hc' Hc8].
  assert (length m mod 8 = length rest) as Hm8.
  { rewrite Hm, length_app, Hdn. replace (Z.of_nat (k * 8 + length rest)) with (length rest + k * 8) by lia.
    rewrite Z.mod_add by lia. apply Z.mod_small. lia. }
  rewrite Hc8, Hm8, Ht, place_byte by done. rewrite Hc'.
  assert (length (m ++ [x]) = S (length m)) as Hlen by (rewrite length_app; simpl; lia).
  change 7 with (2 ^ 3 - 1). rewrite land_ones_mod by lia. change (2 ^ 3) with 8.
  assert (S (length m) mod 256 mod 8 = (length rest + 1) mod 8) as E8.
  { change 256 with (8 * 32). rewrite Z.rem_mul_r by lia. rewrite (Z.mul_comm 8), Z.mod_add, Z.mod_mod by lia.
    rewrite <- Hm8, Zplus_mod_idemp_l. f_equal. lia. }
  rewrite E8. replace (m ++ x :: data) with ((m ++ [x]) ++ data) by (by rewrite <- app_assoc).
  case_if; apply IH; try done.
  - exists (k + 1)%nat, (dn ++ rest ++ [x]), []. cbn [v tmp count].
    assert (length rest = 7)%nat as H7. { assert (length rest + 1 = 8 \/ length rest + 1 < 8) as [?|?] by lia; [lia|]. rewrite Z.mod_small in E; lia. }
    split_and!; try done.
    + by rewrite app_nil_r, Hm, <- !app_assoc.
    + rewrite !length_app, Hdn, H7. simpl. lia.
    + simpl. lia.
    + constructor.
    + rewrite blocks_snoc, <- Hv by done. unfold absorb_chunk, absorb_word. rewrite take_ge; [done|]. rewrite length_app, H7. simpl. lia.
    + by rewrite Hlen.
  - exists k, dn, (rest ++ [x]). cbn [v tmp count]. split_and!; try done.
    + by rewrite Hm, <- app_assoc.
    + rewrite length_app. simpl. assert (length rest <> 7)%nat; [|lia]. intros H7. rewrite H7 in E. by vm_compute in E.
    + apply Forall_app. split; [done|]. apply Forall_singleton. done.
    + by rewrite Hlen.
Qed.
Lemma Write_spec w0 h m data : hashed w0 h m -> digits 8 data -> hashed w0 (Write h data) (m ++ data).
Proof.
  intros H Hd. unfold Write. pose proof (Write_loop_spec w0 h m data H Hd) as Hl.
  by destruct (Write_loop (v h) (tmp h) (count h) data) as [[w t] c].
Qed.

Lemma Writes_spec w0 h m ds :
  hashed w0 h m -> Forall (digits 8) ds -> hashed w0 (foldl Write h ds) (m ++ concat ds).
Proof.
  intros H Hd. revert h m H. induction Hd as [|d ds Hx Hd IH]; intros h m H; simpl; [by rewrite app_nil_r|].
  rewrite app_assoc. apply IH. by apply Write_spec.
Qed.

Lemma hashed_init k0 k1 : hashed (v (CSipHasher_init k0 k1)) (CSipHasher_init k0 k1) [].
Proof. exists 0%nat, [], []. split_and!; try done; [simpl; lia|constructor]. Qed.

(** A word written at a word boundary is its eight bytes. *)
Lemma Write64_spec w0 h m data :
  hashed w0 h m -> (length m mod 8 = 0)%nat -> in_u 64 data ->
  exists h', Write64 h data = Some h' /\ hashed w0 h' (m ++ le_digits 8 8 data).
Proof.
  intros (k & dn & rest & Hm & Hdn & Hr & Hdig & Hv & Ht & Hc) H8 Hx.
  assert (rest = []) as ->.
  { rewrite Hm, length_app, Hdn, Nat.add_comm, Nat.Div0.mod_add, Nat.mod_small in H8 by done. by destruct rest. }
  destruct (count_next _ _ Hc) as [_ Hc8]. unfold Write64.
  replace (count h mod 8 =? 0) with true
    by (symmetry; apply Z.eqb_eq; rewrite Hc8; change 8 with (Z.of_nat 8); rewrite <- Nat2Z.inj_mod, H8; done).
  eexists. split; [done|]. rewrite app_nil_r in Hm. subst dn.
  exists (k + 1)%nat, (m ++ le_digits 8 8 data), []. cbn [v tmp count]. split_and!.
  - by rewrite app_nil_r.
  - rewrite length_app, le_digits_length. lia.
  - simpl. lia.
  - constructor.
  - rewrite blocks_snoc, <- Hv by done. unfold absorb_chunk, absorb_word. rewrite take_ge by (rewrite le_digits_length; lia).
    rewrite le_val_digits by lia. change (2 ^ (8 * 8%nat)) with (2 ^ 64). rewrite Z.mod_small by exact Hx. done.
  - by rewrite Ht.
  - rewrite Hc, length_app, le_digits_length. unfold u8, uwrap. change (2 ^ 8) with 256. rewrite Zplus_mod_idemp_l. f_equal. lia.
Qed.

Lemma hashed_absorb w0 h m :
  hashed w0 h m -> v h = absorb 8 absorb_chunk w0 m /\ Z.lor (tmp h) (u64 (count h ≪ 56)) = last_word m.
Proof.
  intros (k & dn & rest & Hm & Hdn & Hr & Hdig & Hv & Ht & Hc).
  assert (length m / 8 = k)%nat as Hk.
  { rewrite Hm, length_app, Hdn, Nat.add_comm, Nat.div_add by lia. rewrite Nat.div_small by done. done. }
  split.
  - unfold absorb. rewrite Hk, Hm, (transform_blocks_app 8 absorb_chunk ltac:(lia) absorb_chunk_take) by done. done.
  - unfold last_word. rewrite Hk, Hm at 1. replace (8 * k)%nat with (length dn) by lia. rewrite drop_app_length.
    pose proof (le_val_bound 8 ltac:(lia) rest Hdig) as Hb. pose proof (Z.mod_pos_bound (length m) 256 ltac:(lia)) as Hmod.
    assert (le_val 8 rest < 2 ^ 56) by (eapply Z.lt_le_trans; [apply Hb|]; apply Z.pow_le_mono_r; lia).
    rewrite Ht, Hc, u64_small by (rewrite Z.shiftl_mul_pow2 by lia; unfold in_u; lia).
    rewrite lor_low_high by lia. done.
Qed.

Lemma Finalize_spec k0 k1 h m : hashed (v (CSipHasher_init k0 k1)) h m -> Finalize h = siphash k0 k1 m.
Proof.
  intros H. destruct (hashed_absorb _ _ _ H) as [Hv Ht]. unfold Finalize, siphash. rewrite Ht, Hv. done.
Qed.

Lemma GetUint64_le m pos :
  digits 8 m -> (pos * 8 + 8 <= length m)%nat -> Blob.GetUint64 m pos = le_val 8 (take 8 (drop (pos * 8) m)).
Proof.
  intros Hd Hl. unfold Blob.GetUint64.
  assert (digits 8 (drop (pos * 8) m)) as Hd' by by apply Forall_drop.
  assert (8 <= length (drop (pos * 8) m))%nat as Hl' by (rewrite length_drop; lia).
  revert Hd' Hl'. generalize (drop (pos * 8) m) as p. clear. intros p Hd Hl.
  destruct p as [|x0 [|x1 [|x2 [|x3 [|x4 [|x5 [|x6 [|x7 p]]]]]]]]; try (simpl in Hl; lia).
  repeat (apply Forall_cons in Hd as [? Hd]). unfold in_u in *. cbn [nth firstn le_val].
  rewrite !u64_small by (rewrite Z.shiftl_mul_pow2 by lia; unfold in_u; lia).
  rewrite (lor_low_high x0 x1), (lor_low_high _ x2), (lor_low_high _ x3), (lor_low_high _ x4),
    (lor_low_high _ x5), (lor_low_high _ x6), (lor_low_high _ x7) by lia.
  rewrite take_0. cbn [le_val]. lia.
Qed.

(** The specialised functions absorb the four words and a last word. *)
Lemma four_words w val :
  digits 8 val -> length val = 32%nat ->
  absorb_word (absorb_word (absorb_word (absorb_word w (Blob.GetUint64 val 0)) (Blob.GetUint64 val 1))
    (Blob.GetUint64 val 2)) (Blob.GetUint64 val 3) = transform_blocks 8 absorb_chunk 4 w val.
Proof.
  intros Hd Hl. rewrite !GetUint64_le by (done || lia). cbn [transform_blocks]. unfold absorb_chunk.
  rewrite !drop_drop. done.
Qed.

(** The hasher computes SipHash-2-4 of the bytes written to it in any
    number of writes, a word written at a word boundary counts as its eight
    little-endian bytes, and the specialised [SipHashUint256] and
    [SipHashUint256Extra] are SipHash-2-4 of the 32 bytes of the value, with the
    four bytes of [extra] appended. *)
Theorem SipHash_correct k0 k1 ds val extra word :
  Forall (digits 8) ds -> digits 8 val -> length val = 32%nat -> in_u 32 extra -> in_u 64 word ->
  Finalize (foldl Write (CSipHasher_init k0 k1) ds) = siphash k0 k1 (concat ds) /\
  SipHashUint256 k0 k1 val = siphash k0 k1 val /\
  SipHashUint256Extra k0 k1 val extra = siphash k0 k1 (val ++ le_digits 8 4 extra) /\
  (Finalize <$> Write64 (foldl Write (CSipHasher_init k0 k1) ds) word =
     if (length (concat ds) mod 8 =? 0)%nat then Some (siphash k0 k1 (concat ds ++ le_digits 8 8 word)) else None).
Proof.
  intros Hds Hd Hl He Hw.
  pose proof (Writes_spec _ _ [] ds (hashed_init k0 k1) Hds) as Hrep. cbn [app] in Hrep. split_and!.
  - by apply Finalize_spec.
  - unfold SipHashUint256, siphash, absorb. rewrite Hl. change (32 / 8)%nat with 4%nat. rewrite <- four_words by done.
    unfold last_word. rewrite Hl. rewrite drop_ge by (simpl; lia). reflexivity.
  - unfold SipHashUint256Extra, siphash, absorb. rewrite length_app, Hl, le_digits_length. change ((32 + 4) / 8)%nat with 4%nat.
    rewrite (transform_blocks_app 8 absorb_chunk ltac:(lia) absorb_chunk_take 4) by done. rewrite <- four_words by done.
    unfold last_word. rewrite length_app, Hl, le_digits_length. change (8 * ((32 + 4) / 8))%nat with 32%nat.
    rewrite <- Hl at 1. rewrite drop_app_length, le_val_digits by lia.
    change (2 ^ (8 * 4%nat)) with (2 ^ 32). rewrite (Z.mod_small extra) by exact He.
    replace (extra + Z.of_nat (32 + 4) mod 256 * 2 ^ 56) with (Z.lor (u64 (36 ≪ 56)) extra); [unfold absorb_word; reflexivity|].
    rewrite Z.lor_comm. change (u64 (36 ≪ 56)) with (36 ≪ 56). rewrite lor_low_high by (unfold in_u in He; lia). reflexivity.
  - case_if.
    + destruct (Write64_spec _ _ _ word Hrep E Hw) as (h' & -> & Hh'). cbn. f_equal. by apply Finalize_spec.
    + destruct Hrep as (k & dn & rest & Hm & Hdn & Hr & Hdig & Hv & Ht & Hc). destruct (count_next _ _ Hc) as [_ Hc8].
      unfold Write64. case_if; [|done]. exfalso. apply E. apply Nat2Z.inj. rewrite Nat2Z.inj_mod. change (Z.of_nat 8) with 8. lia.
Qed.

Lemma SipHash_correct_witness :
  let ds := [[0; 1; 2; 3]; [4; 5; 6; 7]] in let val := replicate 32 9 in
  Finalize (foldl Write (CSipHasher_init 1 2) ds) = siphash 1 2 (concat ds) /\
  SipHashUint256 1 2 val = siphash 1 2 val /\
  SipHashUint256Extra 1 2 val 5 = siphash 1 2 (val ++ le_digits 8 4 5) /\
  (Finalize <$> Write64 (foldl Write (CSipHasher_init 1 2) ds) 7 =
     if (length (concat ds) mod 8 =? 0)%nat then Some (siphash 1 2 (concat ds ++ le_digits 8 8 7)) else None).
Proof.
  apply (SipHash_correct 1 2 [[0; 1; 2; 3]; [4; 5; 6; 7]] (replicate 32 9) 5 7); try done.
  - repeat constructor; done.
  - apply Forall_replicate. done.
Defined.

End SipHash.
