(* ===== verification/Serialize.v ===== *)
(** * Serialization ([serialize.h], [streams.h])

    Writers return the bytes they append; readers consume a [SpanReader]'s
    remaining bytes and either fail or return a value and the bytes left.  Both
    variable-length integer formats are one-to-one, and a type is serializable
    when reading gives back what was written, whatever follows. *)
From stdpp Require Import prelude.
From S2P Require Import Prelude.

Module Serialize.

(** ** Readers *)

(** [std::ios_base::failure] with its message. *)
Inductive failure :=
  | EndOfData
  | NonCanonicalSize
  | CompactSizeTooLarge
  | VarIntTooLarge
  | CustomUintOutOfRange
  | CompactSizeExceedsType
  | StringLimitExceeded
  | SuperfluousWitness
  | UnknownTransactionData.
#[export] Instance failure_eq_dec : EqDecision failure.
Proof. solve_decision. Defined.

Definition Reader (A : Type) : Type := list Z -> failure + A * list Z.
#[global] Instance Reader_ret : MRet Reader := fun A x s => inr (x, s).
#[global] Instance Reader_bind : MBind Reader := fun A B k m s =>
  match m s with inl e => inl e | inr (x, s') => k x s' end.
#[global] Instance Reader_fmap : FMap Reader := fun A B f m s =>
  match m s with inl e => inl e | inr (x, s') => inr (f x, s') end.
Definition throw {A} (e : failure) : Reader A := fun _ => inl e.

(** [SpanReader::read]. *)
Definition read (n : nat) : Reader (list Z) := fun m_data =>
  if (n =? 0)%nat then inr ([], m_data)
  else if (length m_data <? n)%nat then inl EndOfData
  else inr (take n m_data, drop n m_data).

(** ** Integers *)

Definition ser_writedata8 (obj : Z) : list Z := le_digits 8 1 obj.
Definition ser_writedata16 (obj : Z) : list Z := le_digits 8 2 obj.
Definition ser_writedata16be (obj : Z) : list Z := rev (le_digits 8 2 obj).
Definition ser_writedata32 (obj : Z) : list Z := le_digits 8 4 obj.
Definition ser_writedata32be (obj : Z) : list Z := rev (le_digits 8 4 obj).
Definition ser_writedata64 (obj : Z) : list Z := le_digits 8 8 obj.
Definition ser_readdata8 : Reader Z := le_val 8 <$> read 1.
Definition ser_readdata16 : Reader Z := le_val 8 <$> read 2.
Definition ser_readdata16be : Reader Z := (fun b => le_val 8 (rev b)) <$> read 2.
Definition ser_readdata32 : Reader Z := le_val 8 <$> read 4.
Definition ser_readdata32be : Reader Z := (fun b => le_val 8 (rev b)) <$> read 4.
Definition ser_readdata64 : Reader Z := le_val 8 <$> read 8.

(** ** Compact sizes *)

Definition MAX_SIZE : Z := 0x02000000.
Definition MAX_VECTOR_ALLOCATE : Z := 5000000.

Definition GetSizeOfCompactSize (nSize : Z) : Z :=
  if nSize <? 253 then 1 else if nSize <=? 2 ^ 16 - 1 then 1 + 2 else if nSize <=? 2 ^ 32 - 1 then 1 + 4 else 1 + 8.

Definition WriteCompactSize (nSize : Z) : list Z :=
  if nSize <? 253 then ser_writedata8 nSize
  else if nSize <=? 2 ^ 16 - 1 then ser_writedata8 253 ++ ser_writedata16 nSize
  else if nSize <=? 2 ^ 32 - 1 then ser_writedata8 254 ++ ser_writedata32 nSize
  else ser_writedata8 255 ++ ser_writedata64 nSize.

Definition ReadCompactSize (range_check : bool) : Reader Z :=
  chSize ← ser_readdata8;
  nSizeRet ←
    (if chSize <? 253 then mret chSize
     else if chSize =? 253 then
       n ← ser_readdata16; if n <? 253 then throw NonCanonicalSize else mret n
     else if chSize =? 254 then
       n ← ser_readdata32; if n <? 0x10000 then throw NonCanonicalSize else mret n
     else
       n ← ser_readdata64; if n <? 0x100000000 then throw NonCanonicalSize else mret n);
  if range_check && (MAX_SIZE <? nSizeRet) then throw CompactSizeTooLarge else mret nSizeRet.

(** ** Variable-length integers

    [bits] is the size of the integer type in bits and [max] its largest value
    (signed types are used for non-negative values only). *)

(** The loop fills [tmp] from its start; [None] is a write past its end. *)
Fixpoint varint_tmp (fuel : nat) (n : Z) (first : bool) : option (list Z) :=
  match fuel with
  | O => None
  | S fuel' =>
      let b := Z.lor (Z.land n 0x7F) (if first then 0x00 else 0x80) in
      if n <=? 0x7F then Some [b]
      else r ← varint_tmp fuel' (Z.shiftr n 7 - 1) false; Some (b :: r)
  end.
Definition WriteVarInt (bits : Z) (n : Z) : option (list Z) := (fun t => rev t) <$> varint_tmp (Z.to_nat ((bits + 6) / 7)) n true.

Fixpoint size_loop (fuel : nat) (n nRet : Z) : option Z :=
  match fuel with
  | O => None
  | S fuel' => if n <=? 0x7F then Some (nRet + 1) else size_loop fuel' (Z.shiftr n 7 - 1) (nRet + 1)
  end.
Definition GetSizeOfVarInt (bits : Z) (n : Z) : option Z := size_loop (Z.to_nat ((bits + 6) / 7)) n 0.

(** The loop of [ReadVarInt], one byte per iteration. *)
Fixpoint ReadVarInt_loop (max n : Z) (s : list Z) : failure + Z * list Z :=
  match s with
  | [] => inl EndOfData
  | chData :: s' =>
      if Z.shiftr max 7 <? n then inl VarIntTooLarge
      else
        let n := Z.lor (Z.shiftl n 7) (Z.land chData 0x7F) in
        if negb (Z.land chData 0x80 =? 0) then
          if n =? max then inl VarIntTooLarge else ReadVarInt_loop max (n + 1) s'
        else inr (n, s')
  end.
Definition ReadVarInt (max : Z) : Reader Z := fun s => ReadVarInt_loop max 0 s.

(** ** Formatters *)

(** [CustomUintFormatter<Bytes, BigEndian>]; [Ser] throws on values that do not
    fit. *)
Definition CustomUint_Ser (Bytes : nat) (BigEndian : bool) (v : Z) : failure + list Z :=
  let MAX := Z.shiftr 0xffffffffffffffff (8 * (8 - Bytes)) in
  if (v <? 0) || (MAX <? v) then inl CustomUintOutOfRange
  else if BigEndian then inr (drop (8 - Bytes) (rev (le_digits 8 8 v))) else inr (take Bytes (le_digits 8 8 v)).
Definition CustomUint_Unser (Bytes : nat) (BigEndian : bool) : Reader Z :=
  b ← read Bytes;
  mret (if BigEndian then le_val 8 (rev (replicate (8 - Bytes) 0 ++ b)) else le_val 8 (b ++ replicate (8 - Bytes) 0)).

(** [CompactSizeFormatter] for an unsigned type with largest value [max]. *)
Definition CompactSizeFormatter_Unser (RangeCheck : bool) (max : Z) : Reader Z :=
  n ← ReadCompactSize RangeCheck;
  if (n <? 0) || (max <? n) then throw CompactSizeExceedsType else mret n.

Definition LimitedString_Unser (Limit : Z) : Reader (list Z) :=
  size ← ReadCompactSize true;
  if Limit <? size then throw StringLimitExceeded else read (Z.to_nat size).

(** ** Vectors *)

(** Byte vectors, strings and scripts are one blob, read in blocks of at most
    5000000 bytes; [i] is the number of bytes read. *)
Definition Serialize_bytes (v : list Z) : list Z :=
  WriteCompactSize (length v) ++ (if (length v =? 0)%nat then [] else v).

Fixpoint bytes_loop (fuel : nat) (nSize i : Z) (v : list Z) : Reader (list Z) :=
  match fuel with
  | O => mret v
  | S fuel' =>
      if i <? nSize then
        let blk := Z.min (u32 (nSize - i)) (1 + 4999999) in
        b ← read (Z.to_nat blk);
        bytes_loop fuel' nSize (u32 (i + blk)) (v ++ b)
      else mret v
  end.
Definition Unserialize_bytes : Reader (list Z) :=
  n ← ReadCompactSize true;
  let nSize := u32 n in
  bytes_loop (Z.to_nat nSize) nSize 0 [].

(** [Unserialize] of a string: one read. *)
Definition Unserialize_string : Reader (list Z) :=
  n ← ReadCompactSize true;
  let nSize := u32 n in
  read (Z.to_nat nSize).

(** [VectorFormatter]: elements are read in batches, for each of which memory
    is reserved; [sizeof] is the size of an element in memory. *)
Definition Vector_Ser {A} (Ser : A -> list Z) (v : list A) : list Z :=
  WriteCompactSize (length v) ++ concat (map Ser v).

Fixpoint fill_loop {A} (fuel : nat) (Unser : Reader A) (allocated : Z) (v : list A) : Reader (list A) :=
  match fuel with
  | O => mret v
  | S fuel' =>
      if length v <? allocated then
        x ← Unser;
        fill_loop fuel' Unser allocated (v ++ [x])
      else mret v
  end.

Fixpoint batch_loop {A} (fuel : nat) (Unser : Reader A) (sizeof size allocated : Z) (v : list A) : Reader (list A) :=
  match fuel with
  | O => mret v
  | S fuel' =>
      if allocated <? size then
        let allocated := Z.min size (allocated + MAX_VECTOR_ALLOCATE / sizeof) in
        v ← fill_loop (Z.to_nat size) Unser allocated v;
        batch_loop fuel' Unser sizeof size allocated v
      else mret v
  end.

Definition Vector_Unser {A} (Unser : Reader A) (sizeof : Z) : Reader (list A) :=
  size ← ReadCompactSize true;
  batch_loop (Z.to_nat size) Unser sizeof size 0 [].

Definition Pair_Ser {A B} (SerA : A -> list Z) (SerB : B -> list Z) (item : A * B) : list Z := SerA item.1 ++ SerB item.2.
Definition Pair_Unser {A B} (UnserA : Reader A) (UnserB : Reader B) : Reader (A * B) :=
  x ← UnserA; y ← UnserB; mret (x, y).

(** ** Readers and appended bytes *)

Lemma bind_inr {A B} (m : Reader A) (k : A -> Reader B) s x s' : m s = inr (x, s') -> (m ≫= k) s = k x s'.
Proof. intros E. unfold mbind, Reader_bind. by rewrite E. Qed.

Lemma bind_inv {A B} (m : Reader A) (k : A -> Reader B) s y s' :
  (m ≫= k) s = inr (y, s') -> exists x s1, m s = inr (x, s1) /\ k x s1 = inr (y, s').
Proof. unfold mbind, Reader_bind. destruct (m s) as [e|[x s1]]; [done|]. eauto. Qed.

Lemma fmap_inr {A B} (m : Reader A) (f : A -> B) s x s' : m s = inr (x, s') -> (f <$> m) s = inr (f x, s').
Proof. intros E. unfold fmap, Reader_fmap. by rewrite E. Qed.

Lemma fmap_inv {A B} (m : Reader A) (f : A -> B) s y s' :
  (f <$> m) s = inr (y, s') -> exists x, m s = inr (x, s') /\ y = f x.
Proof. unfold fmap, Reader_fmap. destruct (m s) as [e|[x s1]]; [done|]. intros [= <- <-]. eauto. Qed.

Lemma read_app (n : nat) bs rest : length bs = n -> read n (bs ++ rest) = inr (bs, rest).
Proof.
  intros Hn. unfold read. case_if; [by destruct bs; cbn in *; [|lia]|].
  case_if; [rewrite length_app in *; lia|]. by rewrite take_app_length', drop_app_length'.
Qed.

Lemma read_inv (n : nat) s b r : read n s = inr (b, r) -> s = b ++ r /\ length b = n.
Proof.
  unfold read. case_if; [by intros [= <- <-]|]. case_if; [done|]. intros [= <- <-].
  rewrite take_drop, length_take. split; [done|lia].
Qed.

(** A reader of [n] little-endian bytes. *)
Lemma readdata_app (n : nat) x rest :
  in_u (8 * n) x -> (le_val 8 <$> read n) (le_digits 8 n x ++ rest) = inr (x, rest).
Proof.
  intros Hx. rewrite (fmap_inr _ _ _ (le_digits 8 n x) rest) by (apply read_app, le_digits_length).
  rewrite le_val_digits by lia. rewrite Z.mod_small by exact Hx. done.
Qed.

Lemma readdata_inv (n : nat) s x r :
  digits 8 s -> (le_val 8 <$> read n) s = inr (x, r) -> s = le_digits 8 n x ++ r /\ in_u (8 * n) x /\ digits 8 r.
Proof.
  intros Hs (b & Hb & ->)%fmap_inv. apply read_inv in Hb as [-> <-]. apply digits_app in Hs as [Hb Hr].
  rewrite le_digits_val by (done || lia). repeat split; [apply le_val_bound; [lia|done]..|done].
Qed.

(** ** Compact sizes are one-to-one *)

Lemma WriteCompactSize_length n : Z.of_nat (length (WriteCompactSize n)) = GetSizeOfCompactSize n.
Proof. unfold WriteCompactSize, GetSizeOfCompactSize. repeat case_if; done. Qed.

Lemma ReadCompactSize_app (check : bool) n rest :
  in_u 64 n -> (check = true -> n <= MAX_SIZE) -> ReadCompactSize check (WriteCompactSize n ++ rest) = inr (n, rest).
Proof.
  unfold in_u. intros Hn Hc. unfold ReadCompactSize, WriteCompactSize, ser_writedata8, ser_writedata16, ser_writedata32, ser_writedata64.
  assert (forall s, (if check && (MAX_SIZE <? n) then throw CompactSizeTooLarge else mret n) s = inr (n, s)) as Hend.
  { intros s. destruct check; cbn [andb]; [|done]. specialize (Hc eq_refl). by rewrite (proj2 (Z.ltb_ge _ _)). }
  case_if; [|case_if; [|case_if]]; rewrite <- ?app_assoc.
  - rewrite (bind_inr _ _ _ n rest) by (apply (readdata_app 1); unfold in_u; lia).
    rewrite (bind_inr _ _ _ n rest) by (by rewrite (proj2 (Z.ltb_lt _ _))). apply Hend.
  - rewrite (bind_inr _ _ _ 253 _) by (apply (readdata_app 1); unfold in_u; lia).
    rewrite (bind_inr _ _ _ n rest); [apply Hend|]. cbn [Z.ltb Z.eqb Z.compare Pos.compare Pos.compare_cont Pos.eqb].
    rewrite (bind_inr _ _ _ n rest) by (apply (readdata_app 2); unfold in_u; lia). by rewrite (proj2 (Z.ltb_ge _ _)).
  - rewrite (bind_inr _ _ _ 254 _) by (apply (readdata_app 1); unfold in_u; lia).
    rewrite (bind_inr _ _ _ n rest); [apply Hend|]. cbn [Z.ltb Z.eqb Z.compare Pos.compare Pos.compare_cont Pos.eqb].
    rewrite (bind_inr _ _ _ n rest) by (apply (readdata_app 4); unfold in_u; lia). rewrite (proj2 (Z.ltb_ge _ _)) by lia. done.
  - rewrite (bind_inr _ _ _ 255 _) by (apply (readdata_app 1); unfold in_u; lia).
    rewrite (bind_inr _ _ _ n rest); [apply Hend|]. cbn [Z.ltb Z.eqb Z.compare Pos.compare Pos.compare_cont Pos.eqb].
    rewrite (bind_inr _ _ _ n rest) by (apply (readdata_app 8); unfold in_u; lia). rewrite (proj2 (Z.ltb_ge _ _)) by lia. done.
Qed.

Lemma ReadCompactSize_inv (check : bool) s n rest :
  digits 8 s -> ReadCompactSize check s = inr (n, rest) ->
  s = WriteCompactSize n ++ rest /\ in_u 64 n /\ (check = true -> n <= MAX_SIZE) /\ digits 8 rest.
Proof.
  intros Hs. unfold ReadCompactSize. intros (ch & s1 & H1 & (m & s2 & H2 & H3)%bind_inv)%bind_inv.
  apply (readdata_inv 1) in H1 as (-> & Hch & Hs1); [|done].
  assert (m = n /\ s2 = rest /\ (check = true -> n <= MAX_SIZE)) as (-> & -> & Hc).
  { destruct check; cbn [andb] in H3; [case_if_in H3; [done|]|]; injection H3 as <- <-; repeat split; [lia|done]. }
  unfold WriteCompactSize, ser_writedata8, ser_writedata16, ser_writedata32, ser_writedata64. unfold in_u in *.
  case_if_in H2; [|case_if_in H2; [|case_if_in H2]].
  - injection H2 as <- <-. rewrite (proj2 (Z.ltb_lt _ _)) by done. repeat split; try done; lia.
  - apply bind_inv in H2 as (x & s3 & Hx & H2). case_if_in H2; [done|]. injection H2 as <- <-.
    apply (readdata_inv 2) in Hx as (-> & Hx & ?); [|done]. unfold in_u in Hx.
    rewrite (proj2 (Z.ltb_ge _ _)), (proj2 (Z.leb_le _ _)), <- app_assoc by lia. subst ch. repeat split; try done; lia.
  - apply bind_inv in H2 as (x & s3 & Hx & H2). case_if_in H2; [done|]. injection H2 as <- <-.
    apply (readdata_inv 4) in Hx as (-> & Hx & ?); [|done]. unfold in_u in Hx.
    rewrite (proj2 (Z.ltb_ge _ _)), (proj2 (Z.leb_gt _ _)), (proj2 (Z.leb_le _ _)), <- app_assoc by lia.
    subst ch. repeat split; try done; lia.
  - apply bind_inv in H2 as (x & s3 & Hx & H2). case_if_in H2; [done|]. injection H2 as <- <-.
    apply (readdata_inv 8) in Hx as (-> & Hx & ?); [|done]. unfold in_u in Hx. assert (ch = 255) as -> by lia.
    rewrite (proj2 (Z.ltb_ge _ _)), (proj2 (Z.leb_gt _ _)), (proj2 (Z.leb_gt _ _)), <- app_assoc by lia. repeat split; try done; lia.
Qed.

(** ** Variable-length integers are one-to-one

    [groups v] are the bytes with the continuation bit that encode [v]. *)

Fixpoint groups (fuel : nat) (v : Z) : list Z :=
  match fuel with
  | O => []
  | S fuel' => (if v <=? 0x7F then [] else groups fuel' (v / 128 - 1)) ++ [v mod 128 + 128]
  end.

(** The bytes read when the accumulator of [ReadVarInt] is [n]. *)
Definition prefix_of (fuel : nat) (n : Z) : list Z := if n =? 0 then [] else groups fuel (n - 1).

(** The encoding of [n]. *)
Definition varint (fuel : nat) (n : Z) : list Z := prefix_of fuel (n / 128) ++ [n mod 128].

Lemma low_group n first : 0 <= n -> Z.lor (Z.land n 0x7F) (if first : bool then 0x00 else 0x80) = n mod 128 + (if first then 0 else 128).
Proof.
  intros Hn. change 0x7F with (2 ^ 7 - 1). rewrite land_ones_mod by lia. change (2 ^ 7) with 128.
  destruct first; [by rewrite Z.lor_0_r, Z.add_0_r|]. apply (lor_low_high (n mod 128) 1 7); [lia|].
  apply (Z.mod_pos_bound n 128). lia.
Qed.

Lemma groups_pred fuel v : 128 <= v -> groups (S fuel) v = groups fuel (v / 128 - 1) ++ [v mod 128 + 128].
Proof. intros. cbn [groups]. by rewrite (proj2 (Z.leb_gt _ _)) by lia. Qed.

Lemma pow128_S (f : nat) : 128 ^ S f = 128 * 128 ^ f.
Proof. rewrite Nat2Z.inj_succ. apply Z.pow_succ_r. lia. Qed.

(** The next value is in range of one group less. *)
Lemma next_group f v : 128 <= v < 128 ^ S f -> exists f', f = S f' /\ 0 <= v / 128 - 1 < 128 ^ f.
Proof.
  rewrite pow128_S. intros Hv. destruct f as [|f']; [change (128 ^ 0%nat) with 1 in Hv; lia|]. exists f'. split; [done|].
  assert (1 <= v / 128) by (apply Z.div_le_lower_bound; lia). assert (v / 128 < 128 ^ S f') by (apply Z.div_lt_upper_bound; lia). lia.
Qed.

Lemma groups_fuel f g v : 0 <= v < 128 ^ S f -> (f <= g)%nat -> groups (S f) v = groups (S g) v.
Proof.
  revert g v. induction f as [|f IH]; intros g v Hv Hf.
  - change (128 ^ 1%nat) with 128 in Hv. cbn [groups]. by rewrite (proj2 (Z.leb_le _ _)) by lia.
  - destruct g as [|g]; [lia|]. destruct (decide (v <= 127)); [cbn [groups]; by rewrite (proj2 (Z.leb_le _ _)) by lia|].
    rewrite (groups_pred (S f)), (groups_pred (S g)) by lia. destruct (next_group (S f) v ltac:(lia)) as (_ & _ & Hn). f_equal. apply IH; [done|lia].
Qed.

Lemma varint_tmp_S f n first :
  0 <= n -> varint_tmp (S f) n first =
    let b := n mod 128 + (if first then 0 else 128) in
    if n <=? 0x7F then Some [b] else r ← varint_tmp f (n / 128 - 1) false; Some (b :: r).
Proof.
  intros Hn. cbn [varint_tmp]. rewrite low_group by done. by rewrite Z.shiftr_div_pow2 by lia.
Qed.

(** Each group takes at least seven bits, so the buffer is large enough. *)
Lemma varint_tmp_groups f v :
  0 <= v < 128 ^ S f -> exists t, varint_tmp (S f) v false = Some t /\ rev t = groups (S f) v.
Proof.
  revert v. induction f as [|f IH]; intros v Hv; rewrite varint_tmp_S by lia; cbv zeta.
  - change (128 ^ 1%nat) with 128 in Hv. rewrite (proj2 (Z.leb_le _ _)) by lia. eexists. split; [done|].
    cbn [groups]. by rewrite (proj2 (Z.leb_le _ _)) by lia.
  - destruct (v <=? 0x7F) eqn:E; cases_bool.
    + eexists. split; [done|]. cbn [groups]. by rewrite (proj2 (Z.leb_le _ _)) by lia.
    + destruct (next_group (S f) v ltac:(lia)) as (_ & _ & Hn). destruct (IH _ Hn) as (t & -> & Er). rewrite bind_some.
      eexists. split; [done|]. cbn [rev]. rewrite Er. by rewrite (groups_pred (S f) v) by lia.
Qed.

(** The number of groups the buffer of a type holds. *)
Definition capacity (bits : Z) : nat := Z.to_nat ((bits + 6) / 7).

Lemma capacity_spec bits : 0 < bits -> exists f, capacity bits = S f /\ 2 ^ bits <= 128 ^ S f.
Proof.
  intros Hb. unfold capacity. pose proof (Z.div_mod (bits + 6) 7 ltac:(lia)). pose proof (Z.mod_pos_bound (bits + 6) 7 ltac:(lia)).
  set (k := (bits + 6) / 7) in *. destruct (Z.to_nat k) as [|f] eqn:Ek; [lia|]. exists f. split; [done|].
  replace (Z.of_nat (S f)) with k by lia. change 128 with (2 ^ 7). rewrite <- Z.pow_mul_r by lia. apply Z.pow_le_mono_r; lia.
Qed.

Lemma WriteVarInt_spec bits n : 0 < bits -> in_u bits n -> WriteVarInt bits n = Some (varint (capacity bits) n).
Proof.
  unfold in_u. intros Hb Hn. unfold WriteVarInt. fold (capacity bits). destruct (capacity_spec bits Hb) as (f & -> & Hf).
  rewrite varint_tmp_S by lia. cbv zeta. unfold varint, prefix_of. destruct (n <=? 0x7F) eqn:E; cases_bool.
  - rewrite Z.div_small, Z.add_0_r by lia. done.
  - destruct (next_group f n ltac:(lia)) as (f' & -> & Hg). destruct (varint_tmp_groups f' (n / 128 - 1) Hg) as (t & -> & Er).
    rewrite bind_some. cbn [fmap option_fmap option_map rev]. rewrite Er, (proj2 (Z.eqb_neq _ _)), Z.add_0_r by lia.
    by rewrite (groups_fuel f' (S f')) by (done || lia).
Qed.

Lemma size_loop_spec fuel n k first t :
  0 <= n -> varint_tmp fuel n first = Some t -> size_loop fuel n k = Some (k + length t).
Proof.
  revert n k first t. induction fuel as [|fuel IH]; intros n k first t Hn; [done|].
  rewrite varint_tmp_S by done. cbn [size_loop]. rewrite Z.shiftr_div_pow2 by lia. change (2 ^ 7) with 128.
  destruct (n <=? 0x7F) eqn:E; cases_bool; [by intros [= <-]|].
  destruct (varint_tmp fuel _ false) as [r|] eqn:Er; [|done]. intros [= <-].
  assert (1 <= n / 128) by (apply Z.div_le_lower_bound; lia). rewrite (IH _ _ false r) by (done || lia). cbn [length]. f_equal. lia.
Qed.

(** One byte of the reader. *)
Lemma ReadVarInt_step max n ch s :
  in_u 8 ch -> 0 <= n -> ReadVarInt_loop max n (ch :: s) =
    if max / 128 <? n then inl VarIntTooLarge
    else if 128 <=? ch then
      let v := 128 * n + (ch - 128) in if v =? max then inl VarIntTooLarge else ReadVarInt_loop max (v + 1) s
    else inr (128 * n + ch, s).
Proof.
  unfold in_u. intros Hch Hn. cbn [ReadVarInt_loop]. rewrite Z.shiftr_div_pow2 by lia. change (2 ^ 7) with 128.
  case_if; [done|]. change 0x7F with (2 ^ 7 - 1). rewrite land_ones_mod by lia. change (2 ^ 7) with 128.
  rewrite Z.lor_comm, lor_low_high by (first [lia|apply (Z.mod_pos_bound ch 128); lia]). change (2 ^ 7) with 128.
  assert (Z.land ch 0x80 = if 128 <=? ch then 128 else 0) as ->.
  { clear -Hch. assert (0 <= ch < 256) as H by lia. clear Hch. revert ch H.
    assert (forallb (fun k => Z.land (Z.of_nat k) 0x80 =? if 128 <=? Z.of_nat k then 128 else 0) (seq 0 256) = true) as F by (vm_compute; reflexivity).
    rewrite forallb_forall in F. intros ch H. specialize (F (Z.to_nat ch)). rewrite in_seq, Z2Nat.id in F by lia. apply Z.eqb_eq, F. lia. }
  destruct (128 <=? ch) eqn:E2; cases_bool.
  - cbn [Z.eqb negb]. replace (ch mod 128) with (ch - 128) by (apply (Z.mod_unique_pos _ _ 1); lia).
    replace (ch - 128 + n * 128) with (128 * n + (ch - 128)) by lia. done.
  - cbn [Z.eqb negb]. rewrite (Z.mod_small ch) by lia. do 2 f_equal. lia.
Qed.

(** Appending a group to a prefix. *)
Lemma prefix_step f acc c :
  0 <= acc -> 0 <= c < 128 -> 128 * acc + c < 128 ^ S f ->
  groups (S f) (128 * acc + c) = prefix_of (S f) acc ++ [c + 128].
Proof.
  intros Ha Hc Hlt. unfold prefix_of.
  assert ((128 * acc + c) mod 128 = c) as Em by (symmetry; apply (Z.mod_unique_pos _ _ acc); lia).
  assert ((128 * acc + c) / 128 = acc) as Ed by (symmetry; apply (Z.div_unique_pos _ _ acc c); lia).
  destruct (acc =? 0) eqn:E; cases_bool.
  - subst. cbn [groups]. rewrite Em. by rewrite (proj2 (Z.leb_le _ _)) by lia.
  - rewrite groups_pred by lia. rewrite Ed, Em. destruct (next_group f (128 * acc + c) ltac:(lia)) as (f' & -> & Hn).
    rewrite Ed in Hn. by rewrite (groups_fuel f' (S f')) by (done || lia).
Qed.

Section ReadVarInt.
Context (max : Z) (f : nat) (Hmax : 0 <= max < 128 ^ S f) (Hfull : (max + 1) mod 128 = 0).

Lemma group_fits acc c : acc <= max / 128 -> c < 128 -> 128 * acc + c <= max.
Proof using Hmax Hfull.
  intros. pose proof (Z.div_mod (max + 1) 128 ltac:(lia)). rewrite Hfull in *.
  assert (max / 128 = (max + 1) / 128 - 1); [|lia]. symmetry. apply (Z.div_unique_pos _ _ _ 127); lia.
Qed.

Lemma read_groups v s :
  0 <= v < max -> ReadVarInt_loop max 0 (groups (S f) v ++ s) = ReadVarInt_loop max (v + 1) s.
Proof using Hmax.
  intros Hv. remember (Z.to_nat v) as k eqn:Ek. revert v s Hv Ek. induction (lt_wf k) as [k _ IH]. intros v s Hv Ek.
  pose proof (Z.div_mod v 128 ltac:(lia)) as Ed. pose proof (Z.mod_pos_bound v 128 ltac:(lia)) as Hm.
  assert (0 <= v / 128) by (apply Z.div_pos; lia). assert (v / 128 <= max / 128) by (apply Z.div_le_mono; lia).
  rewrite Ed at 1. rewrite prefix_step by lia. rewrite <- app_assoc. cbn [app].
  assert (ReadVarInt_loop max 0 (prefix_of (S f) (v / 128) ++ v mod 128 + 128 :: s) = ReadVarInt_loop max (v / 128) (v mod 128 + 128 :: s)) as ->.
  { unfold prefix_of. destruct (v / 128 =? 0) eqn:E; cases_bool; [by rewrite E|].
    rewrite (IH (Z.to_nat (v / 128 - 1))) by lia. f_equal. lia. }
  rewrite ReadVarInt_step by (unfold in_u; lia). rewrite (proj2 (Z.ltb_ge _ _)), (proj2 (Z.leb_le _ _)) by lia. cbv zeta.
  replace (128 * (v / 128) + (v mod 128 + 128 - 128)) with v by lia. by rewrite (proj2 (Z.eqb_neq _ _)) by lia.
Qed.

Lemma read_prefix n s : 0 <= n <= max -> ReadVarInt_loop max 0 (prefix_of (S f) n ++ s) = ReadVarInt_loop max n s.
Proof using Hmax.
  intros Hn. unfold prefix_of. destruct (n =? 0) eqn:E; cases_bool; [by subst|]. rewrite read_groups by lia. f_equal. lia.
Qed.

Lemma ReadVarInt_app n rest : 0 <= n <= max -> ReadVarInt max (varint (S f) n ++ rest) = inr (n, rest).
Proof using Hmax.
  intros Hn. pose proof (Z.div_mod n 128 ltac:(lia)). pose proof (Z.mod_pos_bound n 128 ltac:(lia)).
  assert (0 <= n / 128) by (apply Z.div_pos; lia). assert (n / 128 <= max / 128) by (apply Z.div_le_mono; lia).
  assert (n / 128 <= max) by (apply Z.div_le_upper_bound; lia).
  unfold ReadVarInt, varint. rewrite <- app_assoc, read_prefix by lia. cbn [app].
  rewrite ReadVarInt_step by (unfold in_u; lia). rewrite (proj2 (Z.ltb_ge _ _)), (proj2 (Z.leb_gt _ _)) by lia. do 2 f_equal. lia.
Qed.

Lemma ReadVarInt_loop_inv s acc n rest :
  digits 8 s -> 0 <= acc -> ReadVarInt_loop max acc s = inr (n, rest) ->
  prefix_of (S f) acc ++ s = varint (S f) n ++ rest /\ 0 <= n <= max /\ digits 8 rest.
Proof using Hmax Hfull.
  revert acc. induction s as [|ch s IH]; intros acc Hs Ha; [done|]. inversion Hs as [|? ? Hch Hs']; subst.
  rewrite ReadVarInt_step by done. unfold in_u in Hch. case_if; [done|]. case_if; cbv zeta.
  - case_if; [done|]. intros Hr. pose proof (group_fits acc (ch - 128) ltac:(lia) ltac:(lia)).
    destruct (IH (128 * acc + (ch - 128) + 1) Hs' ltac:(lia) Hr) as [Hi Hn]. split; [|done]. rewrite <- Hi.
    unfold prefix_of at 2. rewrite (proj2 (Z.eqb_neq _ _)) by lia.
    rewrite Z.add_simpl_r, prefix_step by lia. rewrite <- app_assoc. cbn [app]. do 2 f_equal. lia.
  - intros [= <- <-]. pose proof (group_fits acc ch ltac:(lia) ltac:(lia)). split; [|split; [lia|done]]. unfold varint.
    replace ((128 * acc + ch) / 128) with acc by (apply (Z.div_unique_pos _ _ acc ch); lia).
    replace ((128 * acc + ch) mod 128) with ch by (apply (Z.mod_unique_pos _ _ acc); lia). by rewrite <- app_assoc.
Qed.

End ReadVarInt.

(** The two variable-length integer formats are one-to-one.  What
    [WriteCompactSize] and [WriteVarInt] write, the readers read back, whatever
    follows; and when a reader accepts, the bytes it consumed are exactly what
    the writer writes for the value, so no value has a second encoding.  The
    buffer of [WriteVarInt] is never overrun and the size functions are exact. *)
Theorem integer_formats bits max n check rest s :
  0 < bits -> in_u bits n -> n <= max < 2 ^ bits -> (max + 1) mod 128 = 0 -> in_u 64 n ->
  (check = true -> n <= MAX_SIZE) -> digits 8 s ->
  (ReadCompactSize check (WriteCompactSize n ++ rest) = inr (n, rest) /\
   Z.of_nat (length (WriteCompactSize n)) = GetSizeOfCompactSize n /\
   (forall m r, ReadCompactSize check s = inr (m, r) -> s = WriteCompactSize m ++ r)) /\
  (exists b, WriteVarInt bits n = Some b /\ ReadVarInt max (b ++ rest) = inr (n, rest) /\
     GetSizeOfVarInt bits n = Some (Z.of_nat (length b))) /\
  (forall m r, ReadVarInt max s = inr (m, r) -> exists b, WriteVarInt bits m = Some b /\ s = b ++ r).
Proof.
  unfold in_u. intros Hb Hn Hmax Hfull Hn64 Hc Hs. destruct (capacity_spec bits Hb) as (f & Hcap & Hf). split; [|split].
  - split; [by apply ReadCompactSize_app|]. split; [apply WriteCompactSize_length|]. intros m r Hr.
    by apply ReadCompactSize_inv in Hr as [-> _].
  - exists (varint (capacity bits) n). split; [by apply WriteVarInt_spec|]. split; [rewrite Hcap; apply ReadVarInt_app; lia|].
    pose proof (WriteVarInt_spec bits n Hb Hn) as Hw. unfold WriteVarInt in Hw. fold (capacity bits) in Hw.
    destruct (varint_tmp (capacity bits) n true) as [t|] eqn:Et; [|done]. injection Hw as <-.
    unfold GetSizeOfVarInt. fold (capacity bits). rewrite (size_loop_spec _ n 0 true t ltac:(lia) Et), length_rev. done.
  - intros m r Hr. destruct (ReadVarInt_loop_inv max f ltac:(lia) Hfull s 0 m r Hs ltac:(lia) Hr) as (Es & Hm & _).
    exists (varint (capacity bits) m). split; [apply WriteVarInt_spec; unfold in_u; lia|]. by rewrite Hcap.
Qed.

Lemma integer_formats_witness :
  (ReadCompactSize true (WriteCompactSize 16512 ++ [7]) = inr (16512, [7]) /\
   Z.of_nat (length (WriteCompactSize 16512)) = GetSizeOfCompactSize 16512 /\
   (forall m r, ReadCompactSize true [253; 128; 64; 9] = inr (m, r) -> [253; 128; 64; 9] = WriteCompactSize m ++ r)) /\
  (exists b, WriteVarInt 32 16512 = Some b /\ ReadVarInt (2 ^ 32 - 1) (b ++ [7]) = inr (16512, [7]) /\
     GetSizeOfVarInt 32 16512 = Some (Z.of_nat (length b))) /\
  (forall m r, ReadVarInt (2 ^ 32 - 1) [253; 128; 64; 9] = inr (m, r) ->
     exists b, WriteVarInt 32 m = Some b /\ [253; 128; 64; 9] = b ++ r).
Proof.
  apply (integer_formats 32 (2 ^ 32 - 1) 16512 true [7] [253; 128; 64; 9]); try (unfold in_u; lia).
  - reflexivity.
  - intros _. vm_compute. discriminate.
  - repeat constructor; unfold in_u; lia.
Defined.

(** Bytes, by evaluation. *)
Lemma bytes_check l : forallb (fun x => (0 <=? x) && (x <? 256)) l = true -> digits 8 l.
Proof. induction l as [|x l IH]; cbn; [constructor|]. intros E. cases_bool. constructor; [unfold in_u; lia|by apply IH]. Qed.

(** ** Serializable types

    What a type promises to those that contain it: reading returns what was
    written, and accepts nothing else than what is written. *)
Class Serializable (A : Type) := {
  Ser : A -> list Z;
  Unser : Reader A;
  storable : A -> Prop;
  Unser_Ser x rest : storable x -> Unser (Ser x ++ rest) = inr (x, rest);
  Unser_inv s x rest : digits 8 s -> Unser s = inr (x, rest) -> s = Ser x ++ rest /\ storable x /\ digits 8 rest
}.

Lemma bind_Unser {A B} (SA : Serializable A) (k : A -> Reader B) x rest :
  storable x -> (Unser ≫= k) (Ser x ++ rest) = k x rest.
Proof. intros Hx. apply bind_inr. by apply Unser_Ser. Qed.

Lemma bind_Unser_inv {A B} (SA : Serializable A) (k : A -> Reader B) s y rest :
  digits 8 s -> (Unser ≫= k) s = inr (y, rest) ->
  exists x s1, s = Ser x ++ s1 /\ storable x /\ digits 8 s1 /\ k x s1 = inr (y, rest).
Proof. intros Hs (x & s1 & Hx & Hk)%bind_inv. apply Unser_inv in Hx as (-> & ? & ?); [|done]. eauto 6. Qed.

(** Little-endian integers of [n] bytes. *)
Definition unsigned_Serializable (n : nat) : Serializable Z.
Proof.
  refine {| Ser := le_digits 8 n; Unser := le_val 8 <$> read n; storable := in_u (8 * n) |}.
  - intros x rest. apply readdata_app.
  - intros s x rest. apply readdata_inv.
Defined.
Definition uint32_Serializable : Serializable Z := unsigned_Serializable 4.

Lemma swrap_mod w x : 0 < w -> in_s w x -> swrap w (x mod 2 ^ w) = x.
Proof.
  intros Hw Hx. unfold swrap. rewrite Zplus_mod_idemp_l. fold (swrap w x). by apply swrap_small.
Qed.

Lemma mod_swrap w x : 0 < w -> in_u w x -> swrap w x mod 2 ^ w = x.
Proof.
  intros Hw Hx. unfold swrap. rewrite Zminus_mod_idemp_l, Z.add_simpl_r. by apply Z.mod_small.
Qed.

(** Signed integers, converted to and from unsigned ones. *)
Definition signed_Serializable (n : nat) : Serializable Z.
Proof.
  refine {| Ser := le_digits 8 (S n); Unser := swrap (8 * S n) <$> (le_val 8 <$> read (S n)); storable := in_s (8 * S n) |}.
  - intros x rest Hx. rewrite <- le_digits_mod by lia.
    rewrite (fmap_inr _ _ _ (x mod 2 ^ (8 * S n)) rest).
    + by rewrite swrap_mod by (done || lia).
    + apply readdata_app. apply in_u_uwrap. lia.
  - intros s x rest Hs (y & Hy & ->)%fmap_inv. apply readdata_inv in Hy as (-> & Hy & Hr); [|done].
    rewrite <- (le_digits_mod 8 (S n) (swrap _ y)), mod_swrap by (done || lia). repeat split; [apply swrap_range; lia..|done].
Defined.
Definition int32_Serializable : Serializable Z := signed_Serializable 3.
Definition int64_Serializable : Serializable Z := signed_Serializable 7.

(** Blobs of a fixed size. *)
Definition blob_Serializable (n : nat) : Serializable (list Z).
Proof.
  refine {| Ser := id; Unser := read n; storable := fun b => length b = n /\ digits 8 b |}.
  - intros x rest [Hx _]. by apply read_app.
  - intros s x rest Hs [-> Hx]%read_inv. apply digits_app in Hs as [Hs Hr]. repeat split; done.
Defined.

(** ** Byte vectors *)

Lemma bytes_loop_app (fuel : nat) (nSize i : Z) v w rest :
  0 <= i -> nSize - i = Z.of_nat (length w) -> nSize < 2 ^ 32 -> (length w <= fuel)%nat ->
  bytes_loop fuel nSize i v (w ++ rest) = inr (v ++ w, rest).
Proof.
  revert i v w. induction fuel as [|fuel IH]; intros i v w Hi Hw Hn Hf; cbn [bytes_loop].
  { destruct w; [|cbn in Hf; lia]. by rewrite app_nil_r. }
  destruct (i <? nSize) eqn:E; cases_bool.
  2: { assert (w = []) as -> by (destruct w; [done|cbn in Hw; lia]). by rewrite app_nil_r. }
  rewrite (u32_small (nSize - i)) by (unfold in_u; lia). set (blk := Z.min (nSize - i) (1 + 4999999)).
  rewrite u32_small by (unfold in_u; lia). rewrite <- (take_drop (Z.to_nat blk) w), <- app_assoc.
  rewrite (bind_inr _ _ _ (take (Z.to_nat blk) w) (drop (Z.to_nat blk) w ++ rest)) by (apply read_app; rewrite length_take; lia).
  rewrite IH; [by rewrite <- app_assoc|lia|rewrite length_drop; lia|lia|rewrite length_drop; lia].
Qed.

Lemma bytes_loop_inv (fuel : nat) (nSize i : Z) v s x rest :
  0 <= i <= nSize -> nSize < 2 ^ 32 -> nSize - i <= fuel -> bytes_loop fuel nSize i v s = inr (x, rest) ->
  exists w, x = v ++ w /\ s = w ++ rest /\ Z.of_nat (length w) = nSize - i.
Proof.
  revert i v s. induction fuel as [|fuel IH]; intros i v s Hi Hn Hf; cbn [bytes_loop].
  { intros [= <- <-]. exists []. rewrite app_nil_r. repeat split. cbn. lia. }
  destruct (i <? nSize) eqn:E; cases_bool.
  2: { intros [= <- <-]. exists []. rewrite app_nil_r. repeat split. cbn. lia. }
  rewrite (u32_small (nSize - i)) by (unfold in_u; lia). set (blk := Z.min (nSize - i) (1 + 4999999)).
  rewrite u32_small by (unfold in_u; lia). intros (b & s1 & Hb & Hs)%bind_inv. apply read_inv in Hb as [-> Hb].
  apply IH in Hs as (w & -> & -> & Hw); [|lia..]. exists (b ++ w). rewrite <- !app_assoc, length_app. repeat split. lia.
Qed.

Definition bytes_Serializable : Serializable (list Z).
Proof.
  refine {| Ser := Serialize_bytes; Unser := Unserialize_bytes; storable := fun v => length v <= MAX_SIZE /\ digits 8 v |}.
  - intros v rest [Hv _]. unfold Unserialize_bytes, Serialize_bytes, MAX_SIZE in *. rewrite <- app_assoc.
    rewrite (bind_inr _ _ _ (Z.of_nat (length v)) ((if (length v =? 0)%nat then [] else v) ++ rest))
      by (apply ReadCompactSize_app; [unfold in_u|unfold MAX_SIZE]; lia).
    cbv zeta. rewrite u32_small by (unfold in_u; lia).
    replace (if (length v =? 0)%nat then [] else v) with v by (by destruct v). apply bytes_loop_app; lia.
  - intros s x rest Hs (n & s1 & Hn & Hx)%bind_inv. apply ReadCompactSize_inv in Hn as (-> & Hn & Hm & Hs1); [|done].
    specialize (Hm eq_refl). unfold MAX_SIZE, in_u in *. rewrite u32_small in Hx by (unfold in_u; lia).
    apply bytes_loop_inv in Hx as (w & -> & -> & Hw); [|lia..]. cbn [app]. rewrite Z.sub_0_r in Hw. subst n.
    apply digits_app in Hs1 as [Hw Hr]. unfold Serialize_bytes.
    replace (if (length w =? 0)%nat then [] else w) with w by (by destruct w). rewrite <- app_assoc. repeat split; [lia|done..].
Defined.

(** ** Vectors of elements *)

(** Reading back a vector needs only that its elements are read back. *)
Section VectorForward.
Context {A : Type} (SerA : A -> list Z) (UnserA : Reader A) (P : A -> Prop).
Context (HA : forall x rest, P x -> UnserA (SerA x ++ rest) = inr (x, rest)).
Context (sizeof : Z) (Hsize : 0 < sizeof <= MAX_VECTOR_ALLOCATE).

Lemma fill_loop_app (fuel : nat) (allocated : Z) v w rest :
  allocated - length v = Z.of_nat (length w) -> (length w <= fuel)%nat -> Forall P w ->
  fill_loop fuel UnserA allocated v (concat (map SerA w) ++ rest) = inr (v ++ w, rest).
Proof using HA.
  revert v w. induction fuel as [|fuel IH]; intros v w Hw Hf Hs; cbn [fill_loop].
  { destruct w; [|cbn in Hf; lia]. by rewrite app_nil_r. }
  destruct (length v <? allocated) eqn:E; cases_bool.
  2: { assert (w = []) as -> by (destruct w; [done|cbn in Hw; lia]). by rewrite app_nil_r. }
  destruct w as [|x w]; [cbn in Hw; lia|]. inversion Hs as [|? ? Hx Hs']; subst. cbn [map concat length] in *. rewrite <- app_assoc.
  rewrite (bind_inr _ _ _ x (concat (map SerA w) ++ rest)) by (by apply HA).
  rewrite IH; [by rewrite <- app_assoc|rewrite length_app; cbn; lia|lia|done].
Qed.

Lemma batch_positive : 1 <= MAX_VECTOR_ALLOCATE / sizeof.
Proof using Hsize. apply Z.div_le_lower_bound; lia. Qed.

Lemma batch_loop_app (fuel : nat) (size : Z) v w rest :
  size - length v = Z.of_nat (length w) -> (length w <= fuel)%nat -> Forall P w ->
  batch_loop fuel UnserA sizeof size (length v) v (concat (map SerA w) ++ rest) = inr (v ++ w, rest).
Proof using HA Hsize.
  pose proof batch_positive. revert v w. induction fuel as [|fuel IH]; intros v w Hw Hf Hs; cbn [batch_loop].
  { destruct w; [|cbn in Hf; lia]. by rewrite app_nil_r. }
  destruct (length v <? size) eqn:E; cases_bool.
  2: { assert (w = []) as -> by (destruct w; [done|cbn in Hw; lia]). by rewrite app_nil_r. }
  set (al := Z.min size (length v + MAX_VECTOR_ALLOCATE / sizeof)). set (k := Z.to_nat (al - length v)).
  rewrite <- (take_drop k w), map_app, concat_app, <- app_assoc.
  assert (Forall P (take k w) /\ Forall P (drop k w)) as [H1 H2] by (by apply Forall_app; rewrite take_drop).
  rewrite (bind_inr _ _ _ (v ++ take k w) (concat (map SerA (drop k w)) ++ rest)).
  2: { apply fill_loop_app; [rewrite length_take; lia|rewrite length_take; lia|done]. }
  replace al with (Z.of_nat (length (v ++ take k w))) by (rewrite length_app, length_take; lia).
  rewrite IH; [by rewrite <- app_assoc|rewrite length_app, length_take, length_drop; lia|rewrite length_drop; lia|done].
Qed.

Lemma Vector_Unser_Ser v rest :
  length v <= MAX_SIZE -> Forall P v -> Vector_Unser UnserA sizeof (Vector_Ser SerA v ++ rest) = inr (v, rest).
Proof using HA Hsize.
  intros Hv Hs. unfold Vector_Unser, Vector_Ser, MAX_SIZE in *. rewrite <- app_assoc.
  rewrite (bind_inr _ _ _ (Z.of_nat (length v)) (concat (map SerA v) ++ rest))
    by (apply ReadCompactSize_app; [unfold in_u|unfold MAX_SIZE]; lia).
  rewrite Nat2Z.id. apply (batch_loop_app _ _ []); [cbn; lia|lia|done].
Qed.

End VectorForward.

Section Vector.
Context {A : Type} {SA : Serializable A} (sizeof : Z) (Hsize : 0 < sizeof <= MAX_VECTOR_ALLOCATE).

Lemma fill_loop_inv (fuel : nat) (allocated : Z) v s x rest :
  length v <= allocated -> allocated - length v <= fuel -> digits 8 s -> fill_loop fuel Unser allocated v s = inr (x, rest) ->
  exists w, x = v ++ w /\ s = concat (map Ser w) ++ rest /\ Z.of_nat (length w) = allocated - length v /\ Forall storable w /\ digits 8 rest.
Proof using.
  revert v s. induction fuel as [|fuel IH]; intros v s Hv Hf Hs; cbn [fill_loop].
  { intros [= <- <-]. exists []. rewrite app_nil_r. repeat split; [cbn; lia|constructor|done]. }
  destruct (length v <? allocated) eqn:E; cases_bool.
  2: { intros [= <- <-]. exists []. rewrite app_nil_r. repeat split; [cbn; lia|constructor|done]. }
  intros (y & s1 & Hy & Hx)%bind_inv. apply Unser_inv in Hy as (-> & Hy & Hs1); [|done].
  apply IH in Hx as (w & -> & -> & Hw & Hsw & Hr); [|rewrite length_app; cbn; lia..|done].
  exists (y :: w). cbn [map concat length]. rewrite <- !app_assoc. rewrite length_app in Hw. cbn in Hw.
  repeat split; [cbn; lia|by constructor|done].
Qed.

Lemma batch_loop_inv (fuel : nat) (size : Z) v s x rest :
  length v <= size -> size - length v <= fuel -> digits 8 s ->
  batch_loop fuel Unser sizeof size (length v) v s = inr (x, rest) ->
  exists w, x = v ++ w /\ s = concat (map Ser w) ++ rest /\ Z.of_nat (length w) = size - length v /\ Forall storable w /\ digits 8 rest.
Proof using Hsize.
  pose proof (batch_positive sizeof Hsize). revert v s. induction fuel as [|fuel IH]; intros v s Hv Hf Hs; cbn [batch_loop].
  { intros [= <- <-]. exists []. rewrite app_nil_r. repeat split; [cbn; lia|constructor|done]. }
  destruct (length v <? size) eqn:E; cases_bool.
  2: { intros [= <- <-]. exists []. rewrite app_nil_r. repeat split; [cbn; lia|constructor|done]. }
  set (al := Z.min size (length v + MAX_VECTOR_ALLOCATE / sizeof)).
  intros (y & s1 & Hy & Hx)%bind_inv. apply fill_loop_inv in Hy as (w1 & -> & -> & Hw1 & Hs1 & Hd1); [|lia|lia|done].
  replace al with (Z.of_nat (length (v ++ w1))) in Hx by (rewrite length_app; lia).
  apply IH in Hx as (w2 & -> & -> & Hw2 & Hs2 & Hd2); [|rewrite length_app; lia..|done].
  exists (w1 ++ w2). rewrite map_app, concat_app, <- !app_assoc, !length_app. rewrite length_app in Hw2.
  repeat split; [lia|by apply Forall_app|done].
Qed.

Definition vector_Serializable : Serializable (list A).
Proof using SA Hsize.
  refine {| Ser := Vector_Ser Ser; Unser := Vector_Unser Unser sizeof; storable := fun v => length v <= MAX_SIZE /\ Forall storable v |}.
  - intros v rest [Hv Hs]. apply (Vector_Unser_Ser Ser Unser storable); [apply Unser_Ser|done..].
  - intros s x rest Hs (n & s1 & Hn & Hx)%bind_inv. apply ReadCompactSize_inv in Hn as (-> & Hn & Hm & Hs1); [|done].
    specialize (Hm eq_refl). unfold in_u in Hn. apply (batch_loop_inv _ _ []) in Hx as (w & -> & -> & Hw & Hsw & Hr); [|cbn; lia..|done].
    cbn [app]. cbn in Hw. rewrite Z.sub_0_r in Hw. subst n. unfold Vector_Ser. rewrite <- app_assoc. repeat split; done.
Defined.

End Vector.

End Serialize.
