(* ===== verification/Transaction.v ===== *)
(** * Transactions and blocks ([primitives/transaction.h], [primitives/block.h])

    The transaction and block types with their serialization, the extended
    format with witnesses included, and the hashes that identify them.  The
    theorems: serialization round-trips and accepts nothing but what it would
    write, so a transaction and its bytes determine each other. *)
From stdpp Require Import prelude.
From S2P Require Import Prelude Uint256 Hash Serialize.

Module Transaction.
Import Serialize.

(** ** Types *)

Record COutPoint := mkOutPoint { hash : list Z; n : Z }.
Record CTxIn := mkTxIn {
  prevout : COutPoint;
  scriptSig : list Z;
  nSequence : Z;
  scriptWitness : list (list Z)
}.
Record CTxOut := mkTxOut { nValue : Z; scriptPubKey : list Z }.
Record CTransaction := mkTx {
  vin : list CTxIn;
  vout : list CTxOut;
  nVersion : Z;
  nTime : Z;
  nLockTime : Z
}.

#[export] Instance COutPoint_eq_dec : EqDecision COutPoint.
Proof. solve_decision. Defined.
#[export] Instance CTxIn_eq_dec : EqDecision CTxIn.
Proof. solve_decision. Defined.
#[export] Instance CTxOut_eq_dec : EqDecision CTxOut.
Proof. solve_decision. Defined.
#[export] Instance CTransaction_eq_dec : EqDecision CTransaction.
Proof. solve_decision. Defined.

Definition NULL_INDEX : Z := 2 ^ 32 - 1.
Definition COutPoint_default : COutPoint := mkOutPoint (Blob.null 32) NULL_INDEX.
Definition COutPoint_IsNull (o : COutPoint) : bool := Blob.IsNull (hash o) && (n o =? NULL_INDEX).
Definition COutPoint_lt (a b : COutPoint) : bool :=
  let cmp := Blob.Compare (hash a) (hash b) in (cmp <? 0) || ((cmp =? 0) && (n a <? n b)).

Definition SEQUENCE_FINAL : Z := 0xffffffff.
Definition SEQUENCE_LOCKTIME_DISABLE_FLAG : Z := Z.shiftl 1 31.
Definition SEQUENCE_LOCKTIME_TYPE_FLAG : Z := Z.shiftl 1 22.
Definition SEQUENCE_LOCKTIME_MASK : Z := 0x0000ffff.
Definition SEQUENCE_LOCKTIME_GRANULARITY : Z := 9.

Definition CTxOut_SetNull : CTxOut := mkTxOut (-1) [].
Definition CTxOut_IsNull (o : CTxOut) : bool := nValue o =? -1.
Definition CTxOut_IsEmpty (o : CTxOut) : bool := (nValue o =? 0) && (length (scriptPubKey o) =? 0)%nat.

Definition IsNull (tx : CTransaction) : bool := (length (vin tx) =? 0)%nat && (length (vout tx) =? 0)%nat.
Definition IsCoinBase (tx : CTransaction) : bool :=
  match vin tx with
  | [i] => COutPoint_IsNull (prevout i) && (1 <=? length (vout tx))%nat
  | _ => false
  end.
Definition IsCoinStake (tx : CTransaction) : bool :=
  match vin tx with
  | [] => false
  | i :: _ =>
      negb (COutPoint_IsNull (prevout i)) && (2 <=? length (vout tx))%nat &&
      match vout tx with [] => false | o :: _ => CTxOut_IsEmpty o end
  end.
Definition HasWitness (tx : CTransaction) : bool := existsb (fun i => negb (length (scriptWitness i) =? 0)%nat) (vin tx).

(** ** Serialization

    The parts of a type are written in order.  The sizes in memory of vector
    elements are those of the platform, which the sources check to be small. *)

Definition ser32 : Z -> list Z := @Ser _ uint32_Serializable.
Definition ser_i32 : Z -> list Z := @Ser _ int32_Serializable.
Definition ser_i64 : Z -> list Z := @Ser _ int64_Serializable.
Definition unser32 : Reader Z := @Unser _ uint32_Serializable.
Definition unser_i32 : Reader Z := @Unser _ int32_Serializable.
Definition unser_i64 : Reader Z := @Unser _ int64_Serializable.

Definition COutPoint_Ser (o : COutPoint) : list Z := hash o ++ ser32 (n o).
Definition COutPoint_Unser : Reader COutPoint := h ← read 32; i ← unser32; mret (mkOutPoint h i).

(** The witness of an input is written by its transaction only. *)
Definition CTxIn_Ser (i : CTxIn) : list Z :=
  COutPoint_Ser (prevout i) ++ Serialize_bytes (scriptSig i) ++ ser32 (nSequence i).
Definition CTxIn_Unser : Reader CTxIn :=
  p ← COutPoint_Unser; s ← Unserialize_bytes; q ← unser32; mret (mkTxIn p s q []).

Definition CTxOut_Ser (o : CTxOut) : list Z := ser_i64 (nValue o) ++ Serialize_bytes (scriptPubKey o).
Definition CTxOut_Unser : Reader CTxOut := v ← unser_i64; s ← Unserialize_bytes; mret (mkTxOut v s).

Definition SERIALIZE_TRANSACTION_NO_WITNESS : Z := 0x40000000.
Definition fAllowWitness (version : Z) : bool := Z.land version SERIALIZE_TRANSACTION_NO_WITNESS =? 0.

(** [version] is the version of the stream. *)
Definition SerializeTransaction (version : Z) (tx : CTransaction) : list Z :=
  let flags := if fAllowWitness version && HasWitness tx then 1 else 0 in
  ser_i32 (nVersion tx) ++
  (if nVersion tx <? 3 then ser32 (nTime tx) else []) ++
  (if negb (flags =? 0) then Vector_Ser CTxIn_Ser [] ++ ser_writedata8 flags else []) ++
  Vector_Ser CTxIn_Ser (vin tx) ++
  Vector_Ser CTxOut_Ser (vout tx) ++
  (if negb (Z.land flags 1 =? 0) then concat (map (fun i => Vector_Ser Serialize_bytes (scriptWitness i)) (vin tx)) else []) ++
  ser32 (nLockTime tx).

Section Unserialize.
Context (szTxIn szTxOut szBytes : Z).

Definition set_witness (i : CTxIn) (w : list (list Z)) : CTxIn := mkTxIn (prevout i) (scriptSig i) (nSequence i) w.

(** The loop that reads the witness of every input. *)
Fixpoint witness_loop (vin : list CTxIn) : Reader (list CTxIn) :=
  match vin with
  | [] => mret []
  | i :: r => w ← Vector_Unser Unserialize_bytes szBytes; r ← witness_loop r; mret (set_witness i w :: r)
  end.

Definition UnserializeTransaction (version : Z) : Reader CTransaction :=
  nVersion ← unser_i32;
  nTime ← (if nVersion <? 3 then unser32 else mret 0);
  vin ← Vector_Unser CTxIn_Unser szTxIn;
  '(flags, vin, vout) ←
    (if (length vin =? 0)%nat && fAllowWitness version then
       flags ← ser_readdata8;
       if negb (flags =? 0) then
         vin ← Vector_Unser CTxIn_Unser szTxIn;
         vout ← Vector_Unser CTxOut_Unser szTxOut;
         mret (flags, vin, vout)
       else mret (flags, vin, [])
     else
       vout ← Vector_Unser CTxOut_Unser szTxOut;
       mret (0, vin, vout));
  '(flags, vin) ←
    (if negb (Z.land flags 1 =? 0) && fAllowWitness version then
       let flags := Z.lxor flags 1 in
       vin ← witness_loop vin;
       if negb (HasWitness (mkTx vin vout nVersion nTime 0)) then throw SuperfluousWitness
       else mret (flags, vin)
     else mret (flags, vin));
  if negb (flags =? 0) then throw UnknownTransactionData
  else
    nLockTime ← unser32;
    mret (mkTx vin vout nVersion nTime nLockTime).

End Unserialize.

(** ** Hashes and sizes *)

Definition PROTOCOL_VERSION : Z := 70041.

(** [SerializeHash]: double SHA-256 of the bytes written. *)
Definition SerializeHash (bytes : list Z) : list Z := Hash.GetHash (Hash.CHashWriter_write (Hash.CHashWriter_init (replicate 64 0)) bytes).
Definition ComputeHash (tx : CTransaction) : list Z :=
  SerializeHash (SerializeTransaction SERIALIZE_TRANSACTION_NO_WITNESS tx).
Definition ComputeWitnessHash (tx : CTransaction) : list Z :=
  if negb (HasWitness tx) then ComputeHash tx else SerializeHash (SerializeTransaction 0 tx).

(** [GetSerializeSize(t, nType, nVersion = 0)]. *)
Definition GetSerializeSize {A} (Serialize : Z -> Z -> A -> list Z) (t : A) (nType nVersion : Z) : Z :=
  length (Serialize nType nVersion t).
Definition CTransaction_Serialize (nType nVersion : Z) (tx : CTransaction) : list Z := SerializeTransaction nVersion tx.
Definition GetTotalSize (tx : CTransaction) : Z := u32 (GetSerializeSize CTransaction_Serialize tx PROTOCOL_VERSION 0).

Definition WITNESS_SCALE_FACTOR : Z := 4.
(** [GetTransactionWeight]. *)
Definition GetTransactionWeight (tx : CTransaction) : Z :=
  GetSerializeSize CTransaction_Serialize tx (Z.lor PROTOCOL_VERSION SERIALIZE_TRANSACTION_NO_WITNESS) 0 * (WITNESS_SCALE_FACTOR - 1) +
  GetSerializeSize CTransaction_Serialize tx PROTOCOL_VERSION 0.

(** ** Blocks *)

Record CBlockHeader := mkHeader {
  hVersion : Z;
  hashPrevBlock : list Z;
  hashMerkleRoot : list Z;
  hTime : Z;
  nBits : Z;
  nNonce : Z;
  nFlags : Z
}.
Definition CBlockHeader_SetNull : CBlockHeader := mkHeader 4 (Blob.null 32) (Blob.null 32) 0 0 0 0.
Definition CBlockHeader_IsNull (h : CBlockHeader) : bool := nBits h =? 0.

Definition SER_NETWORK : Z := Z.shiftl 1 0.
Definition SER_DISK : Z := Z.shiftl 1 1.
Definition SER_GETHASH : Z := Z.shiftl 1 2.
Definition SER_POSMARKER : Z := Z.shiftl 1 18.

(** The flags travel only on streams with the proof-of-stake marker. *)
Definition with_flags (nType : Z) : bool := (Z.land nType SER_GETHASH =? 0) && negb (Z.land nType SER_POSMARKER =? 0).
Definition CBlockHeader_Ser (nType : Z) (h : CBlockHeader) : list Z :=
  ser_i32 (hVersion h) ++ hashPrevBlock h ++ hashMerkleRoot h ++ ser32 (hTime h) ++ ser32 (nBits h) ++ ser32 (nNonce h) ++
  (if with_flags nType then ser32 (nFlags h) else []).
(** [flags0] is the value the object has before it is read. *)
Definition CBlockHeader_Unser (nType flags0 : Z) : Reader CBlockHeader :=
  v ← unser_i32; p ← read 32; m ← read 32; t ← unser32; b ← unser32; c ← unser32;
  f ← (if with_flags nType then unser32 else mret flags0);
  mret (mkHeader v p m t b c f).

Record CBlock := mkBlock { header : CBlockHeader; vtx : list CTransaction; vchBlockSig : list Z }.
Definition CBlock_Ser (nType version : Z) (b : CBlock) : list Z :=
  CBlockHeader_Ser nType (header b) ++ Vector_Ser (SerializeTransaction version) (vtx b) ++ Serialize_bytes (vchBlockSig b).
Definition CBlock_Unser (szTxIn szTxOut szBytes szRef nType version flags0 : Z) : Reader CBlock :=
  h ← CBlockHeader_Unser nType flags0;
  txs ← Vector_Unser (UnserializeTransaction szTxIn szTxOut szBytes version) szRef;
  sig ← Unserialize_bytes;
  mret (mkBlock h txs sig).

(** [CBlockHeader::GetHash]: the flags are not part of it. *)
Definition CBlockHeader_GetHash (h : CBlockHeader) : list Z :=
  let tmp := mkHeader (hVersion h) (hashPrevBlock h) (hashMerkleRoot h) (hTime h) (nBits h) (nNonce h) 0 in
  SerializeHash (CBlockHeader_Ser SER_GETHASH tmp).

Definition IsProofOfStake (b : CBlock) : bool := match vtx b with _ :: tx :: _ => IsCoinStake tx | _ => false end.
Definition IsProofOfWork (b : CBlock) : bool := negb (IsProofOfStake b).
Definition GetProofOfStake (b : CBlock) : COutPoint * Z :=
  match vtx b with
  | _ :: tx :: _ =>
      if IsCoinStake tx then (match vin tx with i :: _ => prevout i | [] => COutPoint_default end, nTime tx)
      else (COutPoint_default, 0)
  | _ => (COutPoint_default, 0)
  end.
Definition GetMaxTransactionTime (b : CBlock) : Z := fold_left (fun m tx => Z.max m (nTime tx)) (vtx b) 0.

(** [GetBlockWeight]. *)
Definition GetBlockWeight (b : CBlock) : Z :=
  GetSerializeSize CBlock_Ser b (Z.lor PROTOCOL_VERSION SERIALIZE_TRANSACTION_NO_WITNESS) 0 * (WITNESS_SCALE_FACTOR - 1) +
  GetSerializeSize CBlock_Ser b PROTOCOL_VERSION 0.

(** ** The parts of a transaction are serializable *)

(** Reading one part of a type that was written, and inverting such a read. *)
Ltac read_part S := rewrite <- ?app_assoc; refine (eq_trans (bind_Unser S _ _ _ _) _); [done|].
Ltac inv_part S H x Hx :=
  let s := fresh "s" in let Hs := fresh "Hs" in
  apply (bind_Unser_inv S) in H as (x & s & -> & Hx & Hs & H); [|done].

Definition COutPoint_Serializable : Serializable COutPoint.
Proof.
  refine {| Ser := COutPoint_Ser; Unser := COutPoint_Unser;
            storable := fun o => Blob.wf 32 (hash o) /\ in_u 32 (n o) |}.
  - intros [h i] rest [Hh Hi]. unfold COutPoint_Ser, COutPoint_Unser. cbn [hash n] in *.
    read_part (blob_Serializable 32). by read_part uint32_Serializable.
  - intros s x rest Hs H. unfold COutPoint_Unser in H.
    inv_part (blob_Serializable 32) H h Hh. inv_part uint32_Serializable H i Hi. injection H as <- <-.
    unfold COutPoint_Ser. cbn [hash n]. rewrite <- app_assoc. done.
Defined.

(** An input without its witness. *)
Definition bare (i : CTxIn) : CTxIn := set_witness i [].
Definition input_ok (i : CTxIn) : Prop :=
  Blob.wf 32 (hash (prevout i)) /\ in_u 32 (n (prevout i)) /\ (length (scriptSig i) <= MAX_SIZE /\ digits 8 (scriptSig i)) /\
  in_u 32 (nSequence i).

Definition CTxIn_Serializable : Serializable CTxIn.
Proof.
  refine {| Ser := CTxIn_Ser; Unser := CTxIn_Unser; storable := fun i => input_ok i /\ scriptWitness i = [] |}.
  - intros [p s q w] rest [(Hh & Hn & Hs & Hq) Hw]. cbn in *. subst w. unfold CTxIn_Ser, CTxIn_Unser. cbn [prevout scriptSig nSequence].
    read_part COutPoint_Serializable. read_part bytes_Serializable. by read_part uint32_Serializable.
  - intros s x rest Hs H. unfold CTxIn_Unser in H. inv_part COutPoint_Serializable H p Hp. inv_part bytes_Serializable H scr Hscr.
    inv_part uint32_Serializable H q Hq. injection H as <- <-. unfold CTxIn_Ser. cbn [prevout scriptSig nSequence].
    rewrite <- !app_assoc. destruct Hp. done.
Defined.

Definition output_ok (o : CTxOut) : Prop :=
  in_s 64 (nValue o) /\ length (scriptPubKey o) <= MAX_SIZE /\ digits 8 (scriptPubKey o).

Definition CTxOut_Serializable : Serializable CTxOut.
Proof.
  refine {| Ser := CTxOut_Ser; Unser := CTxOut_Unser; storable := output_ok |}.
  - intros [v s] rest [Hv Hs]. unfold CTxOut_Ser, CTxOut_Unser. cbn [nValue scriptPubKey] in *.
    read_part int64_Serializable. by read_part bytes_Serializable.
  - intros s x rest Hs H. unfold CTxOut_Unser in H. inv_part int64_Serializable H v Hv. inv_part bytes_Serializable H scr Hscr.
    injection H as <- <-. unfold CTxOut_Ser. cbn [nValue scriptPubKey]. rewrite <- app_assoc. done.
Defined.

Section Transactions.
Context (szTxIn szTxOut szBytes szRef : Z).
Context (HszTxIn : 0 < szTxIn <= MAX_VECTOR_ALLOCATE) (HszTxOut : 0 < szTxOut <= MAX_VECTOR_ALLOCATE).
Context (HszBytes : 0 < szBytes <= MAX_VECTOR_ALLOCATE) (HszRef : 0 < szRef <= MAX_VECTOR_ALLOCATE).

Definition vin_Serializable : Serializable (list CTxIn) := @vector_Serializable _ CTxIn_Serializable szTxIn HszTxIn.
Definition vout_Serializable : Serializable (list CTxOut) := @vector_Serializable _ CTxOut_Serializable szTxOut HszTxOut.
Definition stack_Serializable : Serializable (list (list Z)) := @vector_Serializable _ bytes_Serializable szBytes HszBytes.

Definition stack_ok (w : list (list Z)) : Prop := @storable _ stack_Serializable w.

(** What a transaction must satisfy to survive the wire format. *)
Definition tx_ok (version : Z) (tx : CTransaction) : Prop :=
  in_s 32 (nVersion tx) /\ in_u 32 (nTime tx) /\ (3 <= nVersion tx -> nTime tx = 0) /\ in_u 32 (nLockTime tx) /\
  (length (vin tx) <= MAX_SIZE /\ Forall input_ok (vin tx)) /\ (length (vout tx) <= MAX_SIZE /\ Forall output_ok (vout tx)) /\
  (if fAllowWitness version then Forall (fun i => stack_ok (scriptWitness i)) (vin tx) /\ (vin tx = [] -> vout tx = [])
   else Forall (fun i => scriptWitness i = []) (vin tx)).

Lemma set_witness_bare i : set_witness (bare i) (scriptWitness i) = i.
Proof using. by destruct i. Qed.

Lemma bare_none i : scriptWitness i = [] -> bare i = i.
Proof using. destruct i. cbn. by intros ->. Qed.

(** The witness is not part of the input's bytes. *)
Lemma vin_bare l : Vector_Ser CTxIn_Ser (map bare l) = Vector_Ser CTxIn_Ser l.
Proof using. unfold Vector_Ser. rewrite length_map, map_map. done. Qed.

Lemma bare_storable l :
  length l <= MAX_SIZE /\ Forall input_ok l -> @storable _ vin_Serializable (map bare l).
Proof using.
  intros [Hlen Hok]. split; [by rewrite length_map|]. apply Forall_map. eapply Forall_impl; [exact Hok|]. intros [] ?. done.
Qed.

Lemma witness_loop_app l rest :
  Forall (fun i => stack_ok (scriptWitness i)) l ->
  witness_loop szBytes (map bare l) (concat (map (fun i => Vector_Ser Serialize_bytes (scriptWitness i)) l) ++ rest) = inr (l, rest).
Proof using HszBytes.
  induction 1 as [|i l Hi Hl IH]; [done|]. cbn [map concat witness_loop].
  read_part stack_Serializable. rewrite (bind_inr _ _ _ l rest) by done. by rewrite set_witness_bare.
Qed.

Lemma witness_loop_inv l0 s x rest :
  Forall (fun i => scriptWitness i = []) l0 -> digits 8 s -> witness_loop szBytes l0 s = inr (x, rest) ->
  s = concat (map (fun i => Vector_Ser Serialize_bytes (scriptWitness i)) x) ++ rest /\ map bare x = l0 /\
  Forall (fun i => stack_ok (scriptWitness i)) x /\ digits 8 rest.
Proof using HszBytes.
  intros Hl. revert s x. induction Hl as [|i l Hi Hl IH]; intros s x Hs H; cbn [witness_loop] in H.
  { injection H as <- <-. repeat split; [constructor|done]. }
  inv_part stack_Serializable H w Hw. apply bind_inv in H as (r & s2 & Hr & H). injection H as <- <-.
  apply IH in Hr as (-> & <- & Hok & Hd); [|done]. cbn [map concat]. rewrite <- app_assoc. repeat split; [|by constructor|done].
  f_equal. rewrite <- (bare_none i Hi) at 2. done.
Qed.

Lemma HasWitness_false tx : Forall (fun i => scriptWitness i = []) (vin tx) -> HasWitness tx = false.
Proof using.
  unfold HasWitness. destruct tx as [l ? ? ? ?]. cbn. induction 1 as [|i l Hi Hl IH]; [done|]. cbn. by rewrite Hi, IH.
Qed.

Lemma HasWitness_none tx : HasWitness tx = false -> Forall (fun i => scriptWitness i = []) (vin tx).
Proof using.
  unfold HasWitness. destruct tx as [l ? ? ? ?]. cbn. induction l as [|i l IH]; [constructor|]. cbn. intros E. cases_bool.
  constructor; [by destruct (scriptWitness i)|by apply IH].
Qed.

Lemma map_bare_id l : Forall (fun i => scriptWitness i = []) l -> map bare l = l.
Proof using. induction 1 as [|i l Hi Hl IH]; [done|]. cbn. by rewrite bare_none, IH. Qed.

Lemma tx_Unser_Ser version tx rest :
  tx_ok version tx ->
  UnserializeTransaction szTxIn szTxOut szBytes version (SerializeTransaction version tx ++ rest) = inr (tx, rest).
Proof using HszTxIn HszTxOut HszBytes.
  intros (Hv & Ht & Ht3 & Hlt & Hin & Hout & Hw). unfold SerializeTransaction, UnserializeTransaction.
  read_part int32_Serializable.
  assert (forall B (k : Z -> Reader B) r, ((if nVersion tx <? 3 then unser32 else mret 0) ≫= k)
    ((if nVersion tx <? 3 then ser32 (nTime tx) else []) ++ r) = k (nTime tx) r) as Htime.
  { intros B k r. destruct (nVersion tx <? 3) eqn:E; cases_bool; [by read_part uint32_Serializable|]. by rewrite Ht3 by lia. }
  rewrite Htime. clear Htime Ht3.
  destruct (fAllowWitness version && HasWitness tx) eqn:E.
  - apply andb_true_iff in E as [Ea Eh]. rewrite Ea in *. change (negb (Z.land 1 1 =? 0)) with true. change (negb (1 =? 0)) with true. cbv iota. destruct Hw as [Hw _].
    change (Vector_Ser CTxIn_Ser [] ++ ser_writedata8 1) with ([0] ++ [1]). rewrite <- !app_assoc.
    refine (eq_trans (bind_Unser vin_Serializable _ [] _ _) _); [split; [done|constructor]|]. cbn [length Nat.eqb andb].
    rewrite (bind_inr _ _ _ (1, map bare (vin tx), vout tx)
      (concat (map (fun i => Vector_Ser Serialize_bytes (scriptWitness i)) (vin tx)) ++ ser32 (nLockTime tx) ++ rest)).
    2: { refine (eq_trans (bind_Unser (unsigned_Serializable 1) _ 1 _ _) _); [cbn; unfold in_u; lia|]. cbn [Z.eqb negb].
         rewrite <- vin_bare. refine (eq_trans (bind_Unser vin_Serializable _ _ _ (bare_storable _ Hin)) _).
         by refine (eq_trans (bind_Unser vout_Serializable _ _ _ Hout) _). }
    change (negb (Z.land 1 1 =? 0)) with true. change (Z.lxor 1 1) with 0. cbn [andb].
    rewrite (bind_inr _ _ _ (0, vin tx) (ser32 (nLockTime tx) ++ rest)).
    2: { rewrite (bind_inr _ _ _ (vin tx) _ (witness_loop_app _ _ Hw)).
         replace (HasWitness (mkTx _ _ _ _ _)) with (HasWitness tx) by done. by rewrite Eh. }
    cbn [Z.eqb negb]. read_part uint32_Serializable. by destruct tx.
  - assert (Forall (fun i => scriptWitness i = []) (vin tx)) as Hnone.
    { destruct (fAllowWitness version); [by apply HasWitness_none|done]. }
    cbn [Z.eqb negb Z.land app]. rewrite <- (map_bare_id _ Hnone) at 1.
    refine (eq_trans (bind_Unser vin_Serializable _ _ _ (bare_storable _ Hin)) _). rewrite map_bare_id by done.
    rewrite (bind_inr _ _ _ (0, vin tx, vout tx) (ser32 (nLockTime tx) ++ rest)).
    2: { destruct ((length (vin tx) =? 0)%nat && fAllowWitness version) eqn:E0; cases_bool.
         - rewrite H0 in Hw. destruct (vin tx) eqn:Ei; [|done]. destruct Hw as [_ Hw]. by rewrite (Hw eq_refl).
         - by refine (eq_trans (bind_Unser vout_Serializable _ _ _ Hout) _). }
    cbn [Z.land Z.eqb negb andb]. refine (eq_trans (bind_inr _ _ _ (0, vin tx) (ser32 (nLockTime tx) ++ rest) eq_refl) _).
    cbn [Z.eqb negb]. read_part uint32_Serializable. by destruct tx.
Qed.

(** The inputs and outputs with the flag byte, as read. *)
Lemma body_inv version (vin1 vin2 : list CTxIn) vout1 flags s s1 :
  digits 8 s -> @storable _ vin_Serializable vin1 ->
  (if (length vin1 =? 0)%nat && fAllowWitness version then
     flags ← ser_readdata8;
     if negb (flags =? 0) then
       vin ← Vector_Unser CTxIn_Unser szTxIn; vout ← Vector_Unser CTxOut_Unser szTxOut; mret (flags, vin, vout)
     else mret (flags, vin1, [])
   else vout ← Vector_Unser CTxOut_Unser szTxOut; mret (0, vin1, vout)) s = inr ((flags, vin2, vout1), s1) ->
  digits 8 s1 /\ @storable _ vin_Serializable vin2 /\ @storable _ vout_Serializable vout1 /\
  ((flags = 0 /\ vin2 = vin1 /\ s = Vector_Ser CTxOut_Ser vout1 ++ s1 /\ (fAllowWitness version = true -> vin2 = [] -> vout1 = [])) \/
   (fAllowWitness version = true /\ vin1 = [] /\ flags <> 0 /\ in_u 8 flags /\
    s = ser_writedata8 flags ++ Vector_Ser CTxIn_Ser vin2 ++ Vector_Ser CTxOut_Ser vout1 ++ s1)).
Proof using HszTxIn HszTxOut.
  intros Hs Hv1 H. destruct ((length vin1 =? 0)%nat && fAllowWitness version) eqn:E.
  - cases_bool. destruct vin1; [|done]. inv_part (unsigned_Serializable 1) H fl Hfl. destruct (negb (fl =? 0)) eqn:Ef; cases_bool.
    + inv_part vin_Serializable H vi Hvi. inv_part vout_Serializable H vo Hvo. injection H as <- <- <- <-.
      split; [done|]. split; [exact Hvi|]. split; [exact Hvo|]. right. done.
    + injection H as <- <- <- <-. subst fl. split; [done|]. split; [exact Hv1|]. split; [by split; [|constructor]|]. by left.
  - inv_part vout_Serializable H vo Hvo. injection H as <- <- <- <-. split; [done|]. split; [exact Hv1|]. split; [exact Hvo|].
    left. repeat split; try done. intros Ha ->. by rewrite Ha in E.
Qed.

Lemma tx_Unser_inv version s tx rest :
  digits 8 s -> UnserializeTransaction szTxIn szTxOut szBytes version s = inr (tx, rest) ->
  s = SerializeTransaction version tx ++ rest /\ tx_ok version tx /\ digits 8 rest.
Proof using HszTxIn HszTxOut HszBytes.
  intros Hs H. unfold UnserializeTransaction in H. inv_part int32_Serializable H v Hv.
  apply bind_inv in H as (t & s1 & Ht & H).
  assert (s0 = (if v <? 3 then ser32 t else []) ++ s1 /\ digits 8 s1 /\ in_u 32 t /\ (3 <= v -> t = 0)) as (-> & Hs1 & Ht' & Ht3).
  { destruct (v <? 3) eqn:E; cases_bool.
    - apply (@Unser_inv _ uint32_Serializable) in Ht as (-> & Ht & Hd); [|done]. repeat split; try done; [apply Ht..|lia].
    - injection Ht as <- <-. repeat split; try done; unfold in_u; lia. }
  inv_part vin_Serializable H vin1 Hvin1. apply bind_inv in H as ([[flags vin2] vout1] & s3 & Hb & H).
  apply body_inv in Hb as (Hs3 & Hvin2 & Hvout & Hb); [|done|done].
  apply bind_inv in H as ([fl vin3] & s4 & Hw & H). destruct (negb (fl =? 0)) eqn:Efl; [done|]. cases_bool. subst fl.
  destruct Hvin2 as [Hlen2 Hok2]. assert (Forall (fun i => scriptWitness i = []) vin2) as Hno2.
  { eapply Forall_impl; [exact Hok2|]. by intros i [_ ?]. }
  assert (Forall input_ok vin2) as Hin2 by (eapply Forall_impl; [exact Hok2|]; by intros i [? _]).
  destruct Hb as [(-> & -> & -> & Hempty)|(Ha & -> & Hf & Hf8 & ->)].
  - cbn in Hw. injection Hw as <- <-. inv_part uint32_Serializable H ltm Hltm. injection H as <- <-. split; [|split; [|done]].
    + unfold SerializeTransaction. rewrite (HasWitness_false (mkTx vin1 _ _ _ _)) by done. rewrite andb_false_r.
      cbn [nVersion nTime vin vout nLockTime Z.eqb negb Z.land app]. rewrite <- !app_assoc. done.
    + unfold tx_ok. cbn [nVersion nTime vin vout nLockTime]. repeat (split; [done|]).
      destruct (fAllowWitness version); [|done]. split; [|by apply Hempty].
      eapply Forall_impl; [exact Hno2|]. intros i ->. by split; [|constructor].
  - rewrite Ha in Hw. destruct (Z.land flags 1 =? 0) eqn:Eb; cbn [negb andb] in Hw.
    { by injection Hw as ? <- <-. }
    apply bind_inv in Hw as (vin4 & s5 & Hl & Hw). destruct (HasWitness _) eqn:Eh; [|done]. cbn [negb] in Hw.
    injection Hw as Ex <- <-. apply Z.lxor_eq in Ex. subst flags.
    apply witness_loop_inv in Hl as (-> & <- & Hst & Hd); [|done|done].
    inv_part uint32_Serializable H ltm Hltm. injection H as <- <-. split; [|split; [|done]].
    + unfold SerializeTransaction. change (HasWitness (mkTx vin4 vout1 v t ltm)) with (HasWitness (mkTx vin4 vout1 v t 0)).
      rewrite Ha, Eh. cbn [nVersion nTime vin vout nLockTime andb]. rewrite <- (vin_bare vin4). change (negb (Z.land 1 1 =? 0)) with true.
      change (negb (1 =? 0)) with true. cbv iota. rewrite <- !app_assoc. done.
    + unfold tx_ok. cbn [nVersion nTime vin vout nLockTime]. rewrite length_map in Hlen2. repeat (split; [done|]).
      assert (Forall input_ok vin4) as Hin4 by (rewrite Forall_map in Hin2; exact Hin2).
      split; [done|]. split; [done|]. rewrite Ha. split; [done|]. by intros ->.
Qed.

Definition transaction_Serializable (version : Z) : Serializable CTransaction := {|
  Ser := SerializeTransaction version;
  Unser := UnserializeTransaction szTxIn szTxOut szBytes version;
  storable := tx_ok version;
  Unser_Ser := tx_Unser_Ser version;
  Unser_inv := tx_Unser_inv version
|}.

(** ** Blocks *)

Definition header_ok (nType flags0 : Z) (h : CBlockHeader) : Prop :=
  in_s 32 (hVersion h) /\ Blob.wf 32 (hashPrevBlock h) /\ Blob.wf 32 (hashMerkleRoot h) /\ in_u 32 (hTime h) /\
  in_u 32 (nBits h) /\ in_u 32 (nNonce h) /\ (if with_flags nType then in_u 32 (nFlags h) else nFlags h = flags0).

Definition header_Serializable (nType flags0 : Z) : Serializable CBlockHeader.
Proof.
  refine {| Ser := CBlockHeader_Ser nType; Unser := CBlockHeader_Unser nType flags0; storable := header_ok nType flags0 |}.
  - intros [v p m t b c f] rest (Hv & Hp & Hm & Ht & Hb & Hc & Hf). unfold CBlockHeader_Ser, CBlockHeader_Unser.
    cbn [hVersion hashPrevBlock hashMerkleRoot hTime nBits nNonce nFlags] in *.
    read_part int32_Serializable. read_part (blob_Serializable 32). read_part (blob_Serializable 32).
    read_part uint32_Serializable. read_part uint32_Serializable. read_part uint32_Serializable.
    destruct (with_flags nType); [by read_part uint32_Serializable|]. by subst.
  - intros s x rest Hs H. unfold CBlockHeader_Unser in H.
    inv_part int32_Serializable H v Hv. inv_part (blob_Serializable 32) H p Hp. inv_part (blob_Serializable 32) H m Hm.
    inv_part uint32_Serializable H t Ht. inv_part uint32_Serializable H b Hb. inv_part uint32_Serializable H c Hc.
    unfold CBlockHeader_Ser, header_ok. destruct (with_flags nType).
    + inv_part uint32_Serializable H f Hf. injection H as <- <-.
      cbn [hVersion hashPrevBlock hashMerkleRoot hTime nBits nNonce nFlags]. rewrite <- !app_assoc. done.
    + injection H as <- <-. cbn [hVersion hashPrevBlock hashMerkleRoot hTime nBits nNonce nFlags].
      rewrite <- !app_assoc. done.
Defined.

Definition vtx_Serializable (version : Z) : Serializable (list CTransaction) :=
  @vector_Serializable _ (transaction_Serializable version) szRef HszRef.

Definition block_ok (nType version flags0 : Z) (b : CBlock) : Prop :=
  header_ok nType flags0 (header b) /\ (length (vtx b) <= MAX_SIZE /\ Forall (tx_ok version) (vtx b)) /\
  (length (vchBlockSig b) <= MAX_SIZE /\ digits 8 (vchBlockSig b)).

Definition block_Serializable (nType version flags0 : Z) : Serializable CBlock.
Proof using HszTxIn HszTxOut HszBytes HszRef.
  refine {| Ser := CBlock_Ser nType version; Unser := CBlock_Unser szTxIn szTxOut szBytes szRef nType version flags0;
            storable := block_ok nType version flags0 |}.
  - intros [h txs sig] rest (Hh & Ht & Hs). unfold CBlock_Ser, CBlock_Unser. cbn [header vtx vchBlockSig] in *.
    read_part (header_Serializable nType flags0). read_part (vtx_Serializable version). by read_part bytes_Serializable.
  - intros s x rest Hs H. unfold CBlock_Unser in H. inv_part (header_Serializable nType flags0) H h Hh.
    inv_part (vtx_Serializable version) H txs Htxs. inv_part bytes_Serializable H sg Hsg. injection H as <- <-.
    unfold CBlock_Ser. cbn [header vtx vchBlockSig]. rewrite <- !app_assoc. done.
Defined.

End Transactions.

(** C37: Blocks and their transactions, witnesses and proof-of-stake flags
    included, survive serialization whatever follows them in the stream; and a
    reader accepts only the bytes the writer would produce for the block it
    returns, so superfluous witness records, unknown flags and non-canonical
    lengths are all refused. *)
Theorem block_format szTxIn szTxOut szBytes szRef nType version flags0 b rest s b' rest' :
  0 < szTxIn <= MAX_VECTOR_ALLOCATE -> 0 < szTxOut <= MAX_VECTOR_ALLOCATE -> forall Hb : 0 < szBytes <= MAX_VECTOR_ALLOCATE,
  0 < szRef <= MAX_VECTOR_ALLOCATE ->
  block_ok szBytes Hb nType version flags0 b -> digits 8 s ->
  CBlock_Unser szTxIn szTxOut szBytes szRef nType version flags0 s = inr (b', rest') ->
  CBlock_Unser szTxIn szTxOut szBytes szRef nType version flags0 (CBlock_Ser nType version b ++ rest) = inr (b, rest) /\
  s = CBlock_Ser nType version b' ++ rest' /\ block_ok szBytes Hb nType version flags0 b'.
Proof.
  intros Hi Ho Hb Hr Hok Hs H. pose (S := block_Serializable szTxIn szTxOut szBytes szRef Hi Ho Hb Hr nType version flags0).
  split; [exact (@Unser_Ser _ S b rest Hok)|]. destruct (@Unser_inv _ S s b' rest' Hs H) as (-> & Hok' & _). done.
Qed.

(** A block with a spending transaction that has a witness. *)
Definition sample_tx : CTransaction :=
  mkTx [mkTxIn (mkOutPoint (replicate 32 7) 1) [] SEQUENCE_FINAL [[1; 2; 3]]] [mkTxOut 5000000 [81]] 3 0 0.
Definition sample_block : CBlock :=
  mkBlock (mkHeader 4 (replicate 32 1) (replicate 32 2) 1600000000 0x1d00ffff 12345 1) [sample_tx] [48; 69].

Lemma block_format_witness :
  CBlock_Unser 104 40 24 16 SER_POSMARKER PROTOCOL_VERSION 0 (CBlock_Ser SER_POSMARKER PROTOCOL_VERSION sample_block ++ [9; 9]) =
    inr (sample_block, [9; 9]) /\
  CBlock_Ser SER_POSMARKER PROTOCOL_VERSION sample_block = CBlock_Ser SER_POSMARKER PROTOCOL_VERSION sample_block ++ [] /\
  block_ok 24 ltac:(unfold MAX_VECTOR_ALLOCATE; lia) SER_POSMARKER PROTOCOL_VERSION 0 sample_block.
Proof.
  apply (block_format 104 40 24 16 SER_POSMARKER PROTOCOL_VERSION 0 sample_block [9; 9]
    (CBlock_Ser SER_POSMARKER PROTOCOL_VERSION sample_block) sample_block []); try (unfold MAX_VECTOR_ALLOCATE; lia).
  - repeat split; cbn; try (unfold in_s, in_u, MAX_SIZE; lia); repeat constructor; cbn; try (unfold in_s, in_u, MAX_SIZE, SEQUENCE_FINAL; lia);
      repeat constructor; cbn; try (unfold in_s, in_u, MAX_SIZE; lia); try done; repeat constructor; try (unfold in_u, MAX_SIZE; cbn; lia).
  - apply bytes_check. vm_compute. reflexivity.
  - vm_compute. reflexivity.
Defined.

(** ** Weight *)

Lemma stripped_shorter tx :
  HasWitness tx = true ->
  (length (SerializeTransaction SERIALIZE_TRANSACTION_NO_WITNESS tx) < length (SerializeTransaction 0 tx))%nat.
Proof.
  intros Hw. unfold SerializeTransaction. rewrite Hw. change (fAllowWitness SERIALIZE_TRANSACTION_NO_WITNESS) with false.
  change (fAllowWitness 0) with true. cbn [andb]. change (negb (Z.land 1 1 =? 0)) with true. change (negb (1 =? 0)) with true.
  change (negb (Z.land 0 1 =? 0)) with false. change (negb (0 =? 0)) with false. cbv iota.
  rewrite !length_app. cbn [length]. change (length (Vector_Ser CTxIn_Ser [])) with 1%nat. lia.
Qed.

(** C38: [GetTransactionWeight] and [GetBlockWeight] pass the stream version as
    the stream type, so the flag that excludes witnesses has no effect: weight
    is four times the full size, and a transaction with a witness weighs more
    than the three times stripped size plus total size of BIP 141. *)
Theorem weight_without_discount tx b :
  HasWitness tx = true ->
  GetTransactionWeight tx = 4 * GetSerializeSize CTransaction_Serialize tx 0 0 /\
  GetBlockWeight b = 4 * GetSerializeSize CBlock_Ser b 0 0 /\
  GetSerializeSize CTransaction_Serialize tx 0 SERIALIZE_TRANSACTION_NO_WITNESS * 3 +
    GetSerializeSize CTransaction_Serialize tx 0 PROTOCOL_VERSION < GetTransactionWeight tx.
Proof.
  intros Hw. pose proof (stripped_shorter tx Hw) as Hs. unfold GetTransactionWeight, GetBlockWeight, GetSerializeSize, WITNESS_SCALE_FACTOR.
  change (CTransaction_Serialize ?t ?v tx) with (SerializeTransaction v tx). split; [lia|].
  assert (forall h, CBlockHeader_Ser (Z.lor PROTOCOL_VERSION SERIALIZE_TRANSACTION_NO_WITNESS) h = CBlockHeader_Ser 0 h) as E1 by done.
  assert (forall h, CBlockHeader_Ser PROTOCOL_VERSION h = CBlockHeader_Ser 0 h) as E2 by done.
  split; [unfold CBlock_Ser; rewrite E1, E2; lia|].
  replace (SerializeTransaction PROTOCOL_VERSION tx) with (SerializeTransaction 0 tx) by done. lia.
Qed.

Lemma weight_without_discount_witness :
  GetTransactionWeight sample_tx = 4 * GetSerializeSize CTransaction_Serialize sample_tx 0 0 /\
  GetBlockWeight sample_block = 4 * GetSerializeSize CBlock_Ser sample_block 0 0 /\
  GetSerializeSize CTransaction_Serialize sample_tx 0 SERIALIZE_TRANSACTION_NO_WITNESS * 3 +
    GetSerializeSize CTransaction_Serialize sample_tx 0 PROTOCOL_VERSION < GetTransactionWeight sample_tx.
Proof. apply (weight_without_discount sample_tx sample_block). reflexivity. Defined.

End Transaction.
