(* ===== verification/Merkle.v ===== *)
(** * Merkle roots ([consensus/merkle.cpp])

    [ComputeMerkleRoot] hashes each level of the tree in place with the
    multi-block double SHA-256 and reports duplicated siblings.  The theorems:
    it computes the tree of the protocol, and a root whose list is not reported
    as mutated determines the list, up to a collision of double SHA-256. *)
From stdpp Require Import prelude.
From S2P Require Import Prelude Uint256 Fips180 Sha256 Sha256Theory Hash.

Module Merkle.

(** ** The code

    [D64 in n] is what [SHA256D64] writes for [n] blocks at [in]: which
    multi-way routines it uses is decided at start-up. *)
Section Code.
Context (D64 : list Z -> nat -> list Z).

(** The detection loop: a pair of equal siblings. *)
Fixpoint same_pair (hashes : list (list Z)) : bool :=
  match hashes with
  | a :: b :: r => Blob.blob_eqb a b || same_pair r
  | _ => false
  end.

(** [n] objects of 32 bytes, read from consecutive memory. *)
Fixpoint objects (n : nat) (mem : list Z) : list (list Z) :=
  match n with
  | O => []
  | S n' => take 32 mem :: objects n' (drop 32 mem)
  end.

(** The rest of the loop body: duplicate the last hash of an odd list, hash the
    pairs over the start of the vector's own memory, keep the first half. *)
Definition next_level (hashes : list (list Z)) : list (list Z) :=
  let hashes := if Nat.odd (length hashes) then hashes ++ [List.last hashes []] else hashes in
  let mem := concat hashes in
  let out := D64 mem (length hashes / 2) in
  take (length hashes / 2) (objects (length hashes) (out ++ drop (length out) mem)).

Fixpoint merkle_loop (fuel : nat) (mutated : bool) (hashes : list (list Z)) (mutation : bool) : list (list Z) * bool :=
  match fuel with
  | O => (hashes, mutation)
  | S fuel' =>
      if (1 <? length hashes)%nat then
        let mutation := if mutated then mutation || same_pair hashes else mutation in
        merkle_loop fuel' mutated (next_level hashes) mutation
      else (hashes, mutation)
  end.

(** [mutated] is the flag the pointer argument refers to, [None] for a null
    pointer; the result is the root and the flag.  A level at least halves the
    list, so the length bounds the iterations. *)
Definition ComputeMerkleRoot (hashes : list (list Z)) (mutated : option bool) : list Z * option bool :=
  let '(hashes, mutation) := merkle_loop (length hashes) (bool_decide (is_Some mutated)) hashes false in
  (match hashes with [] => Blob.null 32 | h :: _ => h end,
   match mutated with Some _ => Some mutation | None => None end).

(** The leaves of a block; the identifiers of a transaction are its hashes. *)
Definition BlockMerkleRoot {Tx} (GetHash : Tx -> list Z) (vtx : list Tx) (mutated : option bool) : list Z * option bool :=
  ComputeMerkleRoot (map GetHash vtx) mutated.

(** The first leaf is nulled; a block without transactions is undefined. *)
Definition BlockWitnessMerkleRoot {Tx} (GetWitnessHash : Tx -> list Z) (vtx : list Tx) (mutated : option bool) :
    option (list Z * option bool) :=
  match vtx with
  | [] => None
  | _ :: r => Some (ComputeMerkleRoot (Blob.null 32 :: map GetWitnessHash r) mutated)
  end.

End Code.

(** ** The tree of the protocol *)

(** The parents of a row of nodes: an odd last node is paired with itself. *)
Fixpoint parents (H : list Z -> list Z -> list Z) (l : list (list Z)) : list (list Z) :=
  match l with
  | a :: b :: r => H a b :: parents H r
  | [a] => [H a a]
  | [] => []
  end.

(** The row at a height above the leaves. *)
Definition row (H : list Z -> list Z -> list Z) (h : nat) (l : list (list Z)) : list (list Z) := Nat.iter h (parents H) l.

(** Height of the tree over [n] leaves. *)
Definition tree_height (n : nat) : nat := Nat.log2_up n.

(** Some node below [h] has two different but equal children. *)
Fixpoint duplicated (H : list Z -> list Z -> list Z) (h : nat) (l : list (list Z)) : bool :=
  match h with
  | O => false
  | S h' => same_pair l || duplicated H h' (parents H l)
  end.

(** The hash of an inner node. *)
Definition node (a b : list Z) : list Z := Hash.sha256 (Hash.sha256 (a ++ b)).

(** The inputs that are hashed for the rows up to [h]. *)
Definition tree_inputs (h : nat) (l : list (list Z)) : list (list Z) := concat (map (fun k => parents app (row node k l)) (seq 0 h)).

(** Two different ones of the inputs given have the same double SHA-256. *)
Definition collision (inputs : list (list Z)) : Prop := collides (fun x => Hash.sha256 (Hash.sha256 x)) inputs.

Definition hashes_ok (l : list (list Z)) : Prop := Forall (fun h => length h = 32%nat) l.

(** Induction two elements at a time. *)
Lemma pairs_ind {A} (P : list A -> Prop) :
  P [] -> (forall a, P [a]) -> (forall a b r, P r -> P (a :: b :: r)) -> forall l, P l.
Proof.
  intros H0 H1 H2. fix IH 1. intros [|a [|b r]]; [exact H0|apply H1|]. apply H2. apply IH.
Qed.

Section Tree.
Context (H : list Z -> list Z -> list Z).

Lemma parents_length l : length (parents H l) = ((length l + 1) / 2)%nat.
Proof.
  induction l as [|a|a b r IH] using pairs_ind; [done|done|].
  cbn [parents length]. rewrite IH. replace (S (S (length r)) + 1)%nat with (length r + 1 + 1 * 2)%nat by lia.
  rewrite Nat.div_add by lia. lia.
Qed.

Lemma parents_lookup l i :
  (2 * i < length l)%nat ->
  parents H l !! i = Some (H (l !!! (2 * i)%nat) (if (2 * i + 1 <? length l)%nat then l !!! (2 * i + 1)%nat else l !!! (2 * i)%nat)).
Proof.
  revert i. induction l as [|a|a b r IH] using pairs_ind; intros i Hi; cbn [length] in Hi; [lia| |].
  - replace i with 0%nat by lia. done.
  - destruct i as [|i]; [done|]. cbn [parents]. cbn [lookup list_lookup]. change (list_lookup i (parents H r)) with (parents H r !! i).
    rewrite IH by lia. replace (2 * S i)%nat with (S (S (2 * i))) by lia. cbn [length Nat.add].
    replace (S (S (2 * i + 1)) <? S (S (length r)))%nat with (2 * i + 1 <? length r)%nat; [done|].
    destruct (2 * i + 1 <? length r)%nat eqn:E; cases_bool; symmetry; [apply Nat.ltb_lt|apply Nat.ltb_ge]; lia.
Qed.

Lemma row_S h l : row H (S h) l = parents H (row H h l).
Proof. done. Qed.

Lemma row_S_r h l : row H (S h) l = row H h (parents H l).
Proof. unfold row. by rewrite Nat.iter_succ_r. Qed.

Lemma tree_height_S n : (1 < n)%nat -> tree_height n = S (tree_height ((n + 1) / 2)).
Proof.
  intros Hn. unfold tree_height. assert (n = 2 * (n / 2) + n mod 2)%nat as E by (apply Nat.div_mod; lia).
  pose proof (Nat.mod_upper_bound n 2 ltac:(lia)).
  assert (n mod 2 = 0 \/ n mod 2 = 1)%nat as [E2|E2] by lia.
  - replace ((n + 1) / 2)%nat with (n / 2)%nat by (apply (Nat.div_unique _ 2 _ 1); lia).
    rewrite E, E2, Nat.add_0_r at 1. apply Nat.log2_up_double. lia.
  - replace ((n + 1) / 2)%nat with (S (n / 2)) by (apply (Nat.div_unique _ 2 _ 0); lia).
    rewrite <- Nat.log2_up_double by lia. destruct (decide (n / 2 = 0)%nat) as [E0|E0]; [lia|].
    replace (2 * S (n / 2))%nat with (S n) by lia.
    apply Nat.le_antisymm; [apply Nat.log2_up_le_mono; lia|].
    apply Nat.log2_up_le_pow2; [lia|]. pose proof (Nat.log2_up_spec n ltac:(lia)) as [_ Hu].
    assert (n <> 2 ^ Nat.log2_up n)%nat; [|lia]. intros F.
    destruct (Nat.log2_up n) as [|k] eqn:Ek; [cbn in F; lia|]. rewrite Nat.pow_succ_r' in F. lia.
Qed.

Lemma half_lt n : (1 < n)%nat -> ((n + 1) / 2 < n)%nat /\ (0 < (n + 1) / 2)%nat.
Proof.
  intros Hn. split; [apply Nat.Div0.div_lt_upper_bound; lia|].
  apply (Nat.lt_le_trans _ 1); [lia|]. apply Nat.div_le_lower_bound; lia.
Qed.

(** The row at the height of the tree is the root alone. *)
Lemma row_root l : l <> [] -> length (row H (tree_height (length l)) l) = 1%nat.
Proof.
  remember (length l) as n eqn:E. revert l E. induction (lt_wf n) as [n _ IH]. intros l E Hl.
  destruct (decide (n = 1)%nat) as [->|Hn]; [done|].
  assert (1 < n)%nat by (destruct l; cbn in E; [done|lia]). pose proof (half_lt n ltac:(lia)) as [Hlt Hpos].
  rewrite tree_height_S, row_S_r by lia. apply IH; [lia|by rewrite parents_length, <- E|].
  intros F. apply (f_equal length) in F. rewrite parents_length, <- E in F. cbn [length] in F. lia.
Qed.

End Tree.

(** ** The code computes the tree *)

Lemma node_length a b : length (node a b) = 32%nat.
Proof. apply Hash.sha256_length. Qed.

Lemma node_wf a b : Blob.wf 32 (node a b).
Proof. split; [apply node_length|apply Hash.sha256_digits]. Qed.

Lemma parents_ok l : hashes_ok (parents node l).
Proof. induction l as [|a|a b r IH] using pairs_ind; repeat constructor; try apply node_length. exact IH. Qed.

Lemma row_ok h l : hashes_ok l -> hashes_ok (row node h l).
Proof. intros Hl. destruct h; [exact Hl|apply parents_ok]. Qed.

Lemma concat_length l : hashes_ok l -> length (concat l) = (32 * length l)%nat.
Proof. induction 1 as [|h l Hh Hl IH]; [done|]. cbn [concat length]. rewrite length_app, Hh, IH. lia. Qed.

Lemma objects_concat l rest n : hashes_ok l -> take (length l) (objects (length l + n) (concat l ++ rest)) = l.
Proof.
  induction 1 as [|h l Hh Hl IH]; [done|]. cbn [length Nat.add objects concat firstn].
  rewrite <- app_assoc, take_app_length', drop_app_length' by done. by rewrite IH.
Qed.

(** Pairing the padded row. *)
Definition padded (l : list (list Z)) : list (list Z) := if Nat.odd (length l) then l ++ [List.last l []] else l.

Lemma padded_cons2 a b r : r <> [] -> padded (a :: b :: r) = a :: b :: padded r.
Proof. intros Hr. unfold padded. cbn [length]. rewrite !Nat.odd_succ, Nat.even_succ. destruct r; [done|]. by destruct (Nat.odd _). Qed.

Lemma padded_spec l :
  l <> [] -> exists k, length (padded l) = (2 * k)%nat /\ k = ((length l + 1) / 2)%nat /\
    (hashes_ok l -> hashes_ok (padded l) /\ Sha256Theory.double_digests k (concat (padded l)) = concat (parents node l)).
Proof.
  induction l as [|a|a b r IH] using pairs_ind; intros Hl; [done| |].
  - exists 1%nat. split; [done|split; [done|]]. intros Hok. inversion Hok as [|? ? Ha _]; subst.
    split; [repeat constructor; done|]. cbn. rewrite !app_nil_r. f_equal. rewrite take_ge; [done|]. rewrite length_app, Ha. lia.
  - assert (forall k, hashes_ok (a :: b :: r) -> hashes_ok (padded r) /\ Sha256Theory.double_digests k (concat (padded r)) = concat (parents node r) ->
      hashes_ok (a :: b :: padded r) /\ Sha256Theory.double_digests (S k) (concat (a :: b :: padded r)) = concat (parents node (a :: b :: r))) as Hgo.
    { intros k Hok [Hp Hd]. inversion Hok as [|? ? Ha Hok']; subst. inversion Hok' as [|? ? Hb Hr]; subst.
      split; [by repeat constructor|]. cbn [Sha256Theory.double_digests concat parents]. rewrite app_assoc.
      rewrite take_app_length', drop_app_length' by (rewrite length_app; lia). by rewrite Hd. }
    destruct (decide (r = [])) as [->|Hr].
    { exists 1%nat. split; [done|split; [done|]]. intros Hok. change (padded [a; b]) with (a :: b :: padded []).
      apply Hgo; [done|]. split; [constructor|done]. }
    destruct (IH Hr) as (k & Hk & Ek & Hspec). exists (S k). rewrite padded_cons2 by done. cbn [length].
    split; [lia|]. split.
    { replace (S (S (length r)) + 1)%nat with (length r + 1 + 1 * 2)%nat by lia. rewrite Nat.div_add by lia. lia. }
    intros Hok. apply Hgo; [done|]. apply Hspec. by inversion Hok as [|? ? ? Hok']; inversion Hok'; subst.
Qed.

Section Spec.
Context (D64 : list Z -> nat -> list Z).
Context (D64_ok : forall inp n, (64 * n <= length inp)%nat -> D64 inp n = Sha256Theory.double_digests n inp).

Lemma next_level_spec l : l <> [] -> hashes_ok l -> next_level D64 l = parents node l.
Proof using D64_ok.
  intros Hl Hok. destruct (padded_spec l Hl) as (k & Hlen & Hk & Hspec). destruct (Hspec Hok) as [Hpok Hd].
  unfold next_level. fold (padded l). rewrite Hlen. replace (2 * k / 2)%nat with k by (rewrite Nat.mul_comm, Nat.div_mul; lia).
  rewrite D64_ok by (rewrite concat_length, Hlen by done; lia). rewrite Hd.
  assert (length (parents node l) = k) as Hpl by (by rewrite parents_length).
  rewrite <- Hpl at 1. replace (2 * k)%nat with (length (parents node l) + k)%nat by lia.
  apply objects_concat. apply parents_ok.
Qed.

Lemma merkle_loop_spec fuel mutated l mutation :
  hashes_ok l -> (length l <= fuel)%nat ->
  merkle_loop D64 fuel mutated l mutation =
    (row node (tree_height (length l)) l, mutation || (mutated && duplicated node (tree_height (length l)) l)).
Proof using D64_ok.
  revert l mutation. induction fuel as [|fuel IH]; intros l mutation Hok Hf; cbn [merkle_loop].
  { destruct l; [|cbn in Hf; lia]. cbn. by rewrite andb_false_r, orb_false_r. }
  destruct (1 <? length l)%nat eqn:E; cases_bool.
  - assert (l <> []) as Hl by (intros ->; cbn in E; lia). pose proof (half_lt (length l) E) as [Hlt _].
    rewrite next_level_spec by done. rewrite IH by (first [apply parents_ok|rewrite parents_length; lia]).
    rewrite parents_length, (tree_height_S (length l)) by done. rewrite row_S_r. f_equal. cbn [duplicated].
    destruct mutated, mutation, (same_pair l); done.
  - destruct l as [|a [|b r]]; [| |cbn in E; lia]; cbn; by rewrite andb_false_r, orb_false_r.
Qed.

Lemma ComputeMerkleRoot_spec l mutated :
  l <> [] -> hashes_ok l ->
  exists root, row node (tree_height (length l)) l = [root] /\
    ComputeMerkleRoot D64 l mutated = (root, (fun _ => duplicated node (tree_height (length l)) l) <$> mutated).
Proof using D64_ok.
  intros Hl Hok. pose proof (row_root node l Hl) as Hr.
  unfold ComputeMerkleRoot. rewrite merkle_loop_spec by done.
  destruct (row node _ l) as [|root [|]]; [done| |done]. exists root. split; [done|].
  destruct mutated; [rewrite bool_decide_true by done|]; done.
Qed.

End Spec.

(** ** A root determines the list *)

(** Equal nodes have equal children, unless there is a collision. *)
Lemma node_inj inputs a b c d :
  length a = 32%nat -> length c = 32%nat -> a ++ b ∈ inputs -> c ++ d ∈ inputs -> node a b = node c d -> (a = c /\ b = d) \/ collision inputs.
Proof. intros Ha Hc H1 H2 E. destruct (collides_inj (fun x => Hash.sha256 (Hash.sha256 x)) _ _ _ H1 H2 E) as [F|]; [left|by right]. apply app_inj_1 in F; [done|lia]. Qed.

Lemma blob_eqb_refl a : Blob.blob_eqb a a = true.
Proof. unfold Blob.blob_eqb. apply Z.eqb_eq. by apply Compare_eq. Qed.

Lemma parents_inj inputs l1 l2 :
  hashes_ok l1 -> hashes_ok l2 -> same_pair l1 = false -> same_pair l2 = false ->
  (forall x, x ∈ parents app l1 -> x ∈ inputs) -> (forall x, x ∈ parents app l2 -> x ∈ inputs) ->
  parents node l1 = parents node l2 -> l1 = l2 \/ collision inputs.
Proof.
  unfold hashes_ok. revert l2. induction l1 as [|a|a b r IH] using pairs_ind; intros l2 H1 H2 S1 S2 I1 I2 E;
    destruct l2 as [|c [|d r2]]; cbn [parents] in *; simplify_eq; try (by left); decompose_Forall_hyps;
    cbn [same_pair] in *; cases_bool; pose proof (I1 _ (list_elem_of_here _ _)) as A1; pose proof (I2 _ (list_elem_of_here _ _)) as A2.
  - destruct (node_inj inputs a a c c) as [[-> _]|]; auto.
  - destruct (node_inj inputs a a c d) as [[-> ->]|]; auto. by rewrite blob_eqb_refl in *.
  - destruct (node_inj inputs a b c c) as [[-> ->]|]; auto. by rewrite blob_eqb_refl in *.
  - destruct (node_inj inputs a b c d) as [[-> ->]|]; auto. destruct (IH r2) as [->|]; auto; intros x Hx; [apply I1|apply I2]; by right.
Qed.

Lemma tree_inputs_S h l x : x ∈ parents app l \/ x ∈ tree_inputs h (parents node l) -> x ∈ tree_inputs (S h) l.
Proof.
  unfold tree_inputs. cbn [seq map concat]. rewrite elem_of_app. intros [Hx|Hx]; [by left|right].
  rewrite <- seq_shift, map_map. erewrite map_ext; [exact Hx|]. intros k. cbn beta. by rewrite row_S_r.
Qed.

Lemma row_inj inputs h l1 l2 :
  hashes_ok l1 -> hashes_ok l2 -> duplicated node h l1 = false -> duplicated node h l2 = false ->
  (forall x, x ∈ tree_inputs h l1 -> x ∈ inputs) -> (forall x, x ∈ tree_inputs h l2 -> x ∈ inputs) ->
  row node h l1 = row node h l2 -> l1 = l2 \/ collision inputs.
Proof.
  revert l1 l2. induction h as [|h IH]; intros l1 l2 H1 H2 D1 D2 I1 I2 E; [by left|].
  cbn [duplicated] in D1, D2. cases_bool. rewrite !row_S_r in E.
  destruct (IH (parents node l1) (parents node l2)) as [F|]; auto using parents_ok, tree_inputs_S.
  apply parents_inj; auto using tree_inputs_S.
Qed.

(** Duplicating the last entry of an odd list leaves the parents as they are. *)
Lemma parents_duplicate l a :
  Nat.odd (length l) = true -> List.last l [] = a -> parents node (l ++ [a]) = parents node l.
Proof.
  induction l as [|b|b c r IH] using pairs_ind; intros Ho Ha; [done|by cbn in Ha; subst|].
  cbn [app parents]. f_equal. apply IH; [by rewrite <- Ho|]. by destruct r.
Qed.

Lemma same_pair_duplicate l a : Nat.odd (length l) = true -> List.last l [] = a -> same_pair (l ++ [a]) = true.
Proof.
  induction l as [|b|b c r IH] using pairs_ind; intros Ho Ha; [done|cbn in Ha; subst; cbn [app same_pair]; by rewrite blob_eqb_refl|].
  cbn [app same_pair]. rewrite IH; [apply orb_true_r|by rewrite <- Ho|by destruct r].
Qed.

Lemma duplicate_last l :
  (1 < length l)%nat -> Nat.odd (length l) = true ->
  let l' := l ++ [List.last l []] in
  tree_height (length l') = tree_height (length l) /\
  row node (tree_height (length l)) l' = row node (tree_height (length l)) l /\
  duplicated node (tree_height (length l)) l' = true.
Proof.
  intros Hlen Ho l'. assert (length l' = length l + 1)%nat as Hl' by (unfold l'; by rewrite length_app).
  apply Nat.odd_spec in Ho as Hk. destruct Hk as [k Hk].
  rewrite Hl', (tree_height_S (length l + 1)), (tree_height_S (length l)) by lia.
  replace ((length l + 1 + 1) / 2)%nat with ((length l + 1) / 2)%nat.
  - split; [done|]. rewrite !row_S_r. unfold l'. rewrite parents_duplicate by done. split; [done|].
    cbn [duplicated]. by rewrite same_pair_duplicate.
  - rewrite Hk. transitivity (k + 1)%nat; [symmetry|]; [apply (Nat.div_unique _ 2 _ 0)|apply (Nat.div_unique _ 2 _ 1)]; lia.
Qed.

(** The installed routines, with the portable one for single blocks. *)
Definition installed (way8 way4 way2 : option (list Z -> list Z)) : list Z -> nat -> list Z :=
  Sha256.SHA256D64 way8 way4 way2 (Sha256.TransformD64 (replicate 32 0)).

Definition ways_ok (way8 way4 way2 : option (list Z -> list Z)) : Prop :=
  (forall f, way8 = Some f -> Sha256Theory.way_ok 8 f) /\ (forall f, way4 = Some f -> Sha256Theory.way_ok 4 f) /\
  (forall f, way2 = Some f -> Sha256Theory.way_ok 2 f).

Lemma installed_ok way8 way4 way2 inp n :
  ways_ok way8 way4 way2 -> (64 * n <= length inp)%nat -> installed way8 way4 way2 inp n = Sha256Theory.double_digests n inp.
Proof.
  intros (H8 & H4 & H2) Hn. apply Sha256Theory.SHA256D64_ways; try done. by apply Sha256Theory.way1_ok.
Qed.

(** [ComputeMerkleRoot] returns the root of the Merkle tree of the
    protocol and sets the flag exactly when some node of the tree has two equal
    children; the list with the last of an odd number of entries repeated has
    the same root (CVE-2012-2459) and is flagged. *)
Theorem ComputeMerkleRoot_correct way8 way4 way2 l mutated :
  ways_ok way8 way4 way2 -> l <> [] -> hashes_ok l ->
  let h := tree_height (length l) in
  exists root, row node h l = [root] /\
    ComputeMerkleRoot (installed way8 way4 way2) l mutated = (root, (fun _ => duplicated node h l) <$> mutated) /\
    ((1 < length l)%nat -> Nat.odd (length l) = true ->
     ComputeMerkleRoot (installed way8 way4 way2) (l ++ [List.last l []]) (Some false) = (root, Some true)).
Proof.
  intros Hw Hl Hok h. pose proof (fun inp n => installed_ok way8 way4 way2 inp n Hw) as HD.
  destruct (ComputeMerkleRoot_spec _ HD l mutated Hl Hok) as (root & Hr & E). exists root. split; [done|]. split; [done|].
  intros Hlen Ho. destruct (duplicate_last l Hlen Ho) as (Eh & Er & Ed).
  destruct (ComputeMerkleRoot_spec _ HD (l ++ [List.last l []]) (Some false)) as (root' & Hr' & E').
  - by destruct l.
  - apply Forall_app. split; [done|]. constructor; [|constructor]. clear -Hl Hok.
    destruct (exists_last Hl) as (i & x & ->). rewrite last_last. apply Forall_app in Hok as [_ Hx]. by inversion Hx.
  - rewrite E', Eh. cbn [fmap option_fmap option_map]. rewrite Eh, Er, Hr in Hr'. by simplify_eq; rewrite Ed.
Qed.

Lemma ComputeMerkleRoot_correct_witness :
  let l := [replicate 32 1; replicate 32 2; replicate 32 3] in
  let h := tree_height (length l) in
  exists root, row node h l = [root] /\
    ComputeMerkleRoot (installed None None None) l (Some true) = (root, Some (duplicated node h l)) /\
    ((1 < length l)%nat -> Nat.odd (length l) = true ->
     ComputeMerkleRoot (installed None None None) (l ++ [List.last l []]) (Some false) = (root, Some true)).
Proof.
  apply (ComputeMerkleRoot_correct None None None [replicate 32 1; replicate 32 2; replicate 32 3] (Some true)).
  - repeat split; intros f Hf; discriminate Hf.
  - discriminate.
  - repeat constructor.
Defined.

(** C34: A Merkle root commits to its list: two lists of the same tree height,
    neither reported as mutated, with the same root are the same list, or two
    different inputs among those hashed for the two trees have the same double
    SHA-256. *)
Theorem ComputeMerkleRoot_binding way8 way4 way2 l1 l2 :
  ways_ok way8 way4 way2 -> l1 <> [] -> l2 <> [] -> hashes_ok l1 -> hashes_ok l2 ->
  tree_height (length l1) = tree_height (length l2) ->
  (ComputeMerkleRoot (installed way8 way4 way2) l1 (Some false)).2 = Some false ->
  (ComputeMerkleRoot (installed way8 way4 way2) l2 (Some false)).2 = Some false ->
  (ComputeMerkleRoot (installed way8 way4 way2) l1 (Some false)).1 =
    (ComputeMerkleRoot (installed way8 way4 way2) l2 (Some false)).1 ->
  let h := tree_height (length l1) in l1 = l2 \/ collision (tree_inputs h l1 ++ tree_inputs h l2).
Proof.
  intros Hw Hl1 Hl2 H1 H2 Eh. pose proof (fun inp n => installed_ok way8 way4 way2 inp n Hw) as HD.
  destruct (ComputeMerkleRoot_spec _ HD l1 (Some false) Hl1 H1) as (r1 & R1 & ->).
  destruct (ComputeMerkleRoot_spec _ HD l2 (Some false) Hl2 H2) as (r2 & R2 & ->).
  cbn. intros [= D1] [= D2] ->. rewrite <- Eh in *.
  apply (row_inj _ (tree_height (length l1))); try done; [intros x Hx; apply elem_of_app; auto..|by rewrite R1, R2].
Qed.

Lemma ComputeMerkleRoot_binding_witness :
  let l := [replicate 32 1; replicate 32 2; replicate 32 3] in l = l \/ collision (tree_inputs 2 l ++ tree_inputs 2 l).
Proof.
  apply (ComputeMerkleRoot_binding None None None).
  - repeat split; intros f Hf; discriminate Hf.
  - discriminate.
  - discriminate.
  - repeat constructor.
  - repeat constructor.
  - reflexivity.
  - vm_compute. reflexivity.
  - vm_compute. reflexivity.
  - reflexivity.
Defined.

End Merkle.
