(* ===== verification/MerkleBlockTheory.v ===== *)
(** * Partial Merkle trees: theorems *)
From stdpp Require Import prelude.
From S2P Require Import Prelude Uint256 Hash Serialize Merkle MerkleBlock.

Module MerkleBlockTheory.
Import Merkle MerkleBlock.

(** ** Widths *)

Lemma row_length H h l : Z.of_nat (length (row H h l)) = (length l + 2 ^ h - 1) / 2 ^ h.
Proof.
  induction h as [|h IH].
  - change (row H 0 l) with l. change (2 ^ 0%nat) with 1. rewrite Z.div_1_r. lia.
  - rewrite row_S, parents_length, Nat2Z.inj_div, Nat2Z.inj_add, IH.
    replace (2 ^ S h) with (2 ^ h * 2) by (rewrite Nat2Z.inj_succ, Z.pow_succ_r by lia; lia).
    pose proof (pow2_pos h ltac:(lia)). rewrite <- Z.div_div by lia.
    change (Z.of_nat 1) with 1. change (Z.of_nat 2) with 2. f_equal.
    replace (length l + 2 ^ h * 2 - 1) with (length l + 2 ^ h - 1 + 1 * 2 ^ h) by lia. by rewrite Z.div_add by lia.
Qed.

(** What [ExtractMatches] accepts as the number of transactions. *)
Definition max_tx : Z := MAX_BLOCK_WEIGHT / MIN_TRANSACTION_WEIGHT.
Lemma max_tx_value : max_tx = 16666.
Proof. reflexivity. Qed.

Lemma CalcTreeWidth_spec H h l :
  0 < length l <= max_tx -> (h <= 30)%nat -> CalcTreeWidth (length l) h = length (row H h l).
Proof.
  intros Hl Hh. unfold CalcTreeWidth. rewrite row_length, Z.shiftl_1_l, Z.shiftr_div_pow2 by lia. f_equal.
  assert (2 ^ h <= 2 ^ 30) by (apply Z.pow_le_mono_r; lia). pose proof (pow2_pos h ltac:(lia)).
  apply u32_small. unfold in_u. rewrite max_tx_value in Hl. lia.
Qed.

Lemma TreeHeight_spec (l : list (list Z)) : 0 < length l <= max_tx -> TreeHeight (length l) = tree_height (length l).
Proof.
  intros Hl. unfold TreeHeight.
  enough (forall fuel h, (h <= tree_height (length l) <= h + fuel)%nat -> (h + fuel <= 32)%nat -> (tree_height (length l) <= 15)%nat ->
    height_loop fuel (length l) h = tree_height (length l)) as Hloop.
  { assert (tree_height (length l) <= 15)%nat; [|apply Hloop; lia].
    apply Nat.log2_up_le_pow2; [lia|]. apply Nat2Z.inj_le. rewrite Nat2Z.inj_pow, max_tx_value in *. lia. }
  induction fuel as [|fuel IH]; intros h Hh Hf Ht; cbn [height_loop]; [lia|].
  rewrite (CalcTreeWidth_spec (fun a _ => a)) by lia. destruct (1 <? _) eqn:E; cases_bool.
  - apply IH; [|lia|lia]. split; [|lia]. destruct (decide (h = tree_height (length l))) as [->|]; [|lia].
    rewrite row_root in E; [lia|]. intros ->. cbn in Hl. lia.
  - assert (tree_height (length l) <= h)%nat; [|lia]. apply Nat.log2_up_le_pow2; [lia|].
    rewrite row_length in E. pose proof (pow2_pos h ltac:(lia)).
    assert (length l + 2 ^ h - 1 < 2 * 2 ^ h).
    { apply Z.nle_gt. intros F. assert (2 <= (length l + 2 ^ h - 1) / 2 ^ h); [apply Z.div_le_lower_bound; lia|lia]. }
    apply Nat2Z.inj_le. rewrite Nat2Z.inj_pow. lia.
Qed.

(** ** The traversal as a tree recursion

    [range h pos] are the leaves below a node. *)
Section Tree.
Context (H : list Z -> list Z -> list Z) (l : list (list Z)) (Hl : 0 < length l <= max_tx).

Abbreviation W h := (length (row H h l)).
Abbreviation at_ h pos := (row H h l !!! pos).
Definition range (h pos : nat) : list nat := seq (pos * 2 ^ h) (Nat.min ((pos + 1) * 2 ^ h) (length l) - pos * 2 ^ h).

Lemma W_lt h pos : (pos < W h)%nat <-> (pos * 2 ^ h < length l)%nat.
Proof.
  rewrite !Nat2Z.inj_lt, row_length, Nat2Z.inj_mul, Nat2Z.inj_pow. change (Z.of_nat 2) with 2.
  pose proof (pow2_pos h ltac:(lia)). split; intros F.
  - assert (pos + 1 <= (length l + 2 ^ h - 1) / 2 ^ h) as G by lia.
    assert (2 ^ h * ((length l + 2 ^ h - 1) / 2 ^ h) <= length l + 2 ^ h - 1) by (apply Z.mul_div_le; lia). nia.
  - assert (pos + 1 <= (length l + 2 ^ h - 1) / 2 ^ h); [|lia]. apply Z.div_le_lower_bound; nia.
Qed.

Lemma W_child h pos : (pos < W (S h))%nat -> (2 * pos < W h)%nat.
Proof. rewrite !W_lt. cbn [Nat.pow]. lia. Qed.

Lemma W_bound h : W h <= max_tx.
Proof.
  destruct (W h) as [|w] eqn:E; [lia|]. assert (w < W h)%nat as F by lia. apply W_lt in F.
  assert (2 ^ h <> 0)%nat by (apply Nat.pow_nonzero; lia). nia.
Qed.

Lemma at_S h pos :
  (pos < W (S h))%nat -> at_ (S h) pos = H (at_ h (2 * pos)%nat) (if (2 * pos + 1 <? W h)%nat then at_ h (2 * pos + 1)%nat else at_ h (2 * pos)%nat).
Proof.
  intros Hp. apply list_lookup_total_correct. rewrite row_S. apply parents_lookup. by apply W_child.
Qed.

Lemma range_S h pos :
  (pos < W (S h))%nat ->
  range (S h) pos = range h (2 * pos) ++ (if (2 * pos + 1 <? W h)%nat then range h (2 * pos + 1) else []).
Proof.
  intros Hp%W_lt. unfold range. cbn [Nat.pow] in *. set (k := (2 ^ h)%nat) in *.
  destruct (2 * pos + 1 <? W h)%nat eqn:E; cases_bool.
  - apply W_lt in E. fold k in E.
    replace (pos * (2 * k))%nat with (2 * pos * k)%nat by lia.
    rewrite (Nat.min_l ((2 * pos + 1) * k)) by lia.
    replace (Nat.min ((pos + 1) * (2 * k)) (length l) - 2 * pos * k)%nat
      with (((2 * pos + 1) * k - 2 * pos * k) + (Nat.min ((2 * pos + 1 + 1) * k) (length l) - (2 * pos + 1) * k))%nat by nia.
    rewrite seq_app. do 2 f_equal. lia.
  - assert (~ (2 * pos + 1) * k < length l)%nat as F by (unfold k; rewrite <- W_lt; lia).
    rewrite app_nil_r. replace (pos * (2 * k))%nat with (2 * pos * k)%nat by lia. f_equal. lia.
Qed.

Lemma range_lt h pos i : i ∈ range h pos -> (i < length l)%nat.
Proof. unfold range. rewrite elem_of_seq. lia. Qed.

(** ** The code follows the recursion *)

Lemma child_pos h pos :
  (pos < W (S h))%nat -> u32 (pos * 2) = (2 * pos)%nat /\ u32 (u32 (pos * 2) + 1) = (2 * pos + 1)%nat.
Proof.
  intros Hp%W_child. pose proof (W_bound h) as Hb. rewrite max_tx_value in Hb.
  rewrite !u32_small; unfold in_u; lia.
Qed.

(** The test for a second child. *)
Lemma child_test h pos :
  (h <= 30)%nat -> (Z.of_nat pos <? CalcTreeWidth (length l) h) = (pos <? W h)%nat.
Proof.
  intros Hh. rewrite (CalcTreeWidth_spec H h l Hl Hh).
  destruct (pos <? W h)%nat eqn:E; cases_bool; [apply Z.ltb_lt|apply Z.ltb_ge]; lia.
Qed.

Lemma CalcHash_spec h pos :
  (h <= 31)%nat -> (pos < W h)%nat -> CalcHash H (length l) h pos l = Some (at_ h pos).
Proof.
  revert pos. induction h as [|h IH]; intros pos Hh Hp; cbn [CalcHash];
    (destruct (length l =? 0)%nat eqn:E; cases_bool; [lia|]).
  - rewrite Nat2Z.id. by apply list_lookup_lookup_total_lt.
  - destruct (child_pos h pos Hp) as [-> ->]. pose proof (W_child h pos Hp).
    rewrite child_test, (IH (2 * pos)%nat), at_S by (done || lia). bind.
    destruct (2 * pos + 1 <? W h)%nat eqn:F; cases_bool; [rewrite IH by lia|]; by bind.
Qed.

Context (mask : list bool) (Hmask : length mask = length l).
(** [sel h pos] are the matched leaves below a node and [enc h pos] the bits and
    hashes the traversal emits for it. *)
Definition sel (h pos : nat) : list nat := base.filter (fun i => mask !!! i = true) (range h pos).
Definition any (h pos : nat) : bool := existsb (fun i => mask !!! i) (range h pos).
Fixpoint enc (h pos : nat) : list bool * list (list Z) :=
  match h with
  | S h' =>
      if any h pos then
        let e := enc h' (2 * pos) in
        if (2 * pos + 1 <? W h')%nat then
          let e' := enc h' (2 * pos + 1) in (true :: e.1 ++ e'.1, e.2 ++ e'.2)
        else (true :: e.1, e.2)
      else ([false], [at_ h pos])
  | O => ([any h pos], [at_ h pos])
  end.

Lemma parent_loop_spec fuel (p stop : nat) acc :
  (length l - p < fuel)%nat -> parent_loop fuel p stop (length l) mask acc =
    Some (acc || existsb (fun i => mask !!! i) (seq p (Nat.min stop (length l) - p))).
Proof.
  revert p acc. induction fuel as [|fuel IH]; intros p acc Hf; [lia|]. cbn [parent_loop].
  destruct ((p <? stop) && (p <? length l)) eqn:E; cases_bool.
  - rewrite max_tx_value in Hl. rewrite Nat2Z.id, (list_lookup_lookup_total_lt mask) by lia. bind.
    rewrite u32_small by (unfold in_u; lia). replace (Z.of_nat p + 1) with (Z.of_nat (S p)) by lia. rewrite IH by lia.
    replace (Nat.min stop (length l) - p)%nat with (S (Nat.min stop (length l) - S p)) by lia.
    cbn [seq existsb]. by rewrite orb_assoc.
  - apply andb_false_iff in E as [E|E]; cases_bool; replace (_ - p)%nat with 0%nat by lia; cbn; by rewrite orb_false_r.
Qed.

Lemma parent_spec h pos :
  (h <= 30)%nat -> (pos < W h)%nat ->
  parent_loop (S (Z.to_nat (length l))) (u32 (Z.shiftl pos h)) (u32 (Z.shiftl (u32 (pos + 1)) h)) (length l) mask false =
    Some (any h pos).
Proof.
  intros Hh Hp. pose proof (W_bound h) as Hb. pose proof Hl as Hl'. rewrite max_tx_value in Hb, Hl'.
  apply W_lt in Hp as Hp'. apply Nat2Z.inj_lt in Hp'. rewrite Nat2Z.inj_mul, Nat2Z.inj_pow in Hp'. change (Z.of_nat 2) with 2 in Hp'.
  assert (2 ^ h <= 2 ^ 30) by (apply Z.pow_le_mono_r; lia). pose proof (pow2_pos h ltac:(lia)).
  rewrite (u32_small (pos + 1)) by (unfold in_u; lia). rewrite !Z.shiftl_mul_pow2 by lia.
  rewrite !u32_small by (unfold in_u; lia).
  replace (pos * 2 ^ h) with (Z.of_nat (pos * 2 ^ h)) by (rewrite Nat2Z.inj_mul, Nat2Z.inj_pow; done).
  replace ((pos + 1) * 2 ^ h) with (Z.of_nat ((pos + 1) * 2 ^ h)) by (rewrite Nat2Z.inj_mul, Nat2Z.inj_add, Nat2Z.inj_pow; done).
  rewrite parent_loop_spec by lia. done.
Qed.

Lemma TraverseAndBuild_spec h pos st :
  (h <= 30)%nat -> (pos < W h)%nat ->
  TraverseAndBuild H (length l) h pos l mask st = Some (st.1 ++ (enc h pos).1, st.2 ++ (enc h pos).2).
Proof.
  revert pos st. induction h as [|h IH]; intros pos st Hh Hp; cbn [TraverseAndBuild enc]; rewrite parent_spec by done; bind.
  - rewrite CalcHash_spec by (done || lia). by destruct (any 0 pos); bind.
  - destruct (any (S h) pos); [|rewrite CalcHash_spec by (done || lia); by bind].
    destruct (child_pos h pos Hp) as [-> ->]. pose proof (W_child h pos Hp). rewrite child_test, (IH (2 * pos)%nat) by lia. bind.
    destruct (2 * pos + 1 <? W h)%nat eqn:F; cases_bool; [rewrite IH by lia|]; cbn [fst snd]; by rewrite <- !app_assoc.
Qed.

(** ** Decoding an encoded tree *)

Lemma any_sel h pos : any h pos = negb (bool_decide (sel h pos = [])).
Proof.
  unfold any, sel. induction (range h pos) as [|i r IH]; [done|]. cbn [existsb]. rewrite filter_cons, IH.
  destruct (mask !!! i); [by rewrite decide_True|]. by rewrite decide_False.
Qed.

Lemma sel_S h pos :
  (pos < W (S h))%nat ->
  sel (S h) pos = sel h (2 * pos) ++ (if (2 * pos + 1 <? W h)%nat then sel h (2 * pos + 1) else []).
Proof. intros Hp. unfold sel. rewrite range_S, filter_app by done. by destruct (_ <? _)%nat. Qed.

Lemma enc_bound h pos :
  (pos < W h)%nat -> (length (enc h pos).1 < 2 ^ S h)%nat /\ (length (enc h pos).2 <= length (enc h pos).1)%nat /\
    (0 < length (enc h pos).2 <= length (range h pos))%nat.
Proof.
  revert pos. induction h as [|h IH]; intros pos Hp.
  - cbn [enc fst snd length]. unfold range. rewrite length_seq. cbn [Nat.pow]. apply W_lt in Hp. cbn [Nat.pow] in Hp. lia.
  - pose proof (W_child h pos Hp) as Hc. rewrite range_S, length_app by done.
    assert (0 < length (range h (2 * pos)))%nat.
    { unfold range. rewrite length_seq. apply W_lt in Hc. assert (2 ^ h <> 0)%nat by (apply Nat.pow_nonzero; lia). nia. }
    rewrite (Nat.pow_succ_r' 2 (S h)). assert (2 ^ S h <> 0)%nat by (apply Nat.pow_nonzero; lia).
    cbn [enc]. destruct (IH (2 * pos)%nat Hc) as (? & ? & ?).
    destruct (any (S h) pos); [|cbn [fst snd length]; lia]. destruct (2 * pos + 1 <? W h)%nat eqn:F; cases_bool; cbn [fst snd length].
    + destruct (IH (2 * pos + 1)%nat ltac:(lia)) as (? & ? & ?). rewrite !length_app. lia.
    + lia.
Qed.

Lemma enc_Forall (P : list Z -> Prop) h pos :
  (forall k q, (q < W k)%nat -> P (at_ k q)) -> (pos < W h)%nat -> Forall P (enc h pos).2.
Proof.
  intros HP. revert pos. induction h as [|h IH]; intros pos Hp; cbn [enc]; [constructor; [by apply HP|constructor]|].
  pose proof (W_child h pos Hp). destruct (any (S h) pos); [|constructor; [by apply HP|constructor]].
  destruct (2 * pos + 1 <? W h)%nat eqn:F; cases_bool; cbn [snd]; [apply Forall_app; split|]; by apply IH.
Qed.

Definition extracted (st : Extract) (h pos : nat) : Extract :=
  mkExtract (nBitsUsed st + length (enc h pos).1) (nHashUsed st + length (enc h pos).2)
    (vMatch st ++ map (fun i => l !!! i) (sel h pos)) (vnIndex st ++ map Z.of_nat (sel h pos)) (bad st).

Context (T : CPartialMerkleTree) (HT : nTransactions T = length l).
Context (Hbits : length (vBits T) < 2 ^ 32) (Hhashes : length (vHash T) < 2 ^ 32).
Context (Hdup : forall k, same_pair (row H k l) = false).

(** The encoding of a node stands at the place the counters point to. *)
Definition standing (st : Extract) (h pos : nat) : Prop :=
  exists pre post preh posth, vBits T = pre ++ (enc h pos).1 ++ post /\ nBitsUsed st = length pre /\
    vHash T = preh ++ (enc h pos).2 ++ posth /\ nHashUsed st = length preh.

Lemma same_pair_false (x : list (list Z)) i :
  same_pair x = false -> (2 * i + 1 < length x)%nat -> Blob.blob_eqb (x !!! (2 * i + 1)%nat) (x !!! (2 * i)%nat) = false.
Proof.
  clear. revert i. induction x as [|a|a b r IH] using pairs_ind; intros i Hs Hi; cbn [length] in Hi; [lia|lia|].
  cbn [same_pair] in Hs. cases_bool. destruct i as [|i].
  - unfold Blob.blob_eqb in *. rewrite Compare_antisym. cbn. destruct (Blob.Compare a b); done.
  - replace (2 * S i)%nat with (S (S (2 * i))) by lia. apply IH; [done|lia].
Qed.

Lemma u32_counter (n m : nat) : (n < m)%nat -> m < 2 ^ 32 -> u32 (n + 1) = S n.
Proof. clear. intros. rewrite u32_small; unfold in_u; lia. Qed.

(** A node whose hash is stored. *)
Lemma extract_stored st h pos m :
  standing st h pos -> enc h pos = ([m], [at_ h pos]) -> (h = 0%nat \/ m = false) ->
  TraverseAndExtract H T h pos st =
    (at_ h pos, mkExtract (nBitsUsed st + 1) (nHashUsed st + 1)
       (vMatch st ++ (if m then [at_ h pos] else [])) (vnIndex st ++ (if m then [Z.of_nat pos] else [])) (bad st)).
Proof.
  intros (pre & post & preh & posth & Eb & Nb & Eh & Nh) Ee Hm. rewrite Ee in *. cbn [fst snd app] in Eb, Eh.
  assert (vBits T !! length pre = Some m) as Lb by (rewrite Eb; by apply list_lookup_middle).
  assert (vHash T !! length preh = Some (at_ h pos)) as Lh by (rewrite Eh; by apply list_lookup_middle).
  apply lookup_lt_Some in Lb as Bb. apply lookup_lt_Some in Lh as Bh.
  destruct h as [|h]; [|destruct Hm as [?| ->]; [done|]]; cbn [TraverseAndExtract]; rewrite Nb, Nat2Z.id, Lb;
    cbn [nHashUsed]; rewrite Nh, Nat2Z.id, Lh; cbn [Nat.eqb andb nBitsUsed nHashUsed vMatch vnIndex bad];
    rewrite (u32_counter (length pre) _ Bb Hbits), (u32_counter (length preh) _ Bh Hhashes).
  - destruct m; rewrite ?app_nil_r; do 2 f_equal; lia.
  - rewrite !app_nil_r. do 2 f_equal; lia.
Qed.

Definition step_bit (st : Extract) : Extract :=
  mkExtract (nBitsUsed st + 1) (nHashUsed st) (vMatch st) (vnIndex st) (bad st).

(** The children of a node that is descended into. *)
Lemma standing_children st h pos :
  any (S h) pos = true -> standing st (S h) pos ->
  vBits T !! Z.to_nat (nBitsUsed st) = Some true /\ u32 (nBitsUsed st + 1) = nBitsUsed st + 1 /\
  standing (step_bit st) h (2 * pos) /\
  ((2 * pos + 1 < W h)%nat -> standing (extracted (step_bit st) h (2 * pos)) h (2 * pos + 1)).
Proof.
  intros Ha (pre & post & preh & posth & Eb & Nb & Eh & Nh). cbn [enc] in Eb, Eh. rewrite Ha in Eb, Eh.
  assert (vBits T !! length pre = Some true) as Lb by (rewrite Eb; destruct (_ <? _)%nat; by apply list_lookup_middle).
  apply lookup_lt_Some in Lb as Bb. rewrite Nb, Nat2Z.id. split; [done|].
  split; [rewrite (u32_counter _ _ Bb Hbits); lia|]. unfold extracted, step_bit.
  destruct (2 * pos + 1 <? W h)%nat eqn:F; cases_bool; cbn [fst snd] in Eb, Eh.
  - split.
    + exists (pre ++ [true]), ((enc h (2 * pos + 1)).1 ++ post), preh, ((enc h (2 * pos + 1)).2 ++ posth).
      cbn [nBitsUsed nHashUsed]. rewrite length_app, Nb, Nh, Eb, Eh. rewrite <- !app_assoc. cbn [app length].
      rewrite <- ?app_assoc. repeat split; lia.
    + intros _. exists (pre ++ true :: (enc h (2 * pos)).1), post, (preh ++ (enc h (2 * pos)).2), posth.
      cbn [nBitsUsed nHashUsed]. rewrite !length_app, Nb, Nh, Eb, Eh. rewrite <- !app_assoc. cbn [app length].
      rewrite <- ?app_assoc. repeat split; lia.
  - split; [|lia]. exists (pre ++ [true]), post, preh, posth.
    cbn [nBitsUsed nHashUsed]. rewrite length_app, Nb, Nh, Eb, Eh. rewrite <- !app_assoc. cbn [app length]. repeat split; lia.
Qed.

Lemma extract_leaf pos st :
  (pos < W 0)%nat -> standing st 0 pos -> TraverseAndExtract H T 0 pos st = (at_ 0 pos, extracted st 0 pos).
Proof.
  intros Hp Hst. rewrite (extract_stored st 0 pos (any 0 pos) Hst eq_refl (or_introl eq_refl)). unfold extracted. cbn [enc fst snd length].
  assert (range 0 pos = [pos]) as Hr.
  { apply W_lt in Hp. unfold range. cbn [Nat.pow] in *. replace (_ - _)%nat with 1%nat by lia. cbn. f_equal. lia. }
  unfold any, sel. rewrite Hr. cbn [existsb]. rewrite filter_cons, filter_nil, orb_false_r.
  change (row H 0 l) with l. destruct (mask !!! pos); [rewrite decide_True by done|rewrite decide_False by done]; done.
Qed.

Lemma TraverseAndExtract_spec h pos st :
  (h <= 30)%nat -> (pos < W h)%nat -> standing st h pos ->
  TraverseAndExtract H T h pos st = (at_ h pos, extracted st h pos).
Proof.
  revert pos st. induction h as [|h IH]; intros pos st Hh Hp Hst; [by apply extract_leaf|].
  destruct (any (S h) pos) eqn:Ha.
  2: { rewrite (extract_stored st (S h) pos false Hst) by (first [by right|cbn [enc]; by rewrite Ha]).
       unfold extracted. cbn [enc]. rewrite Ha. rewrite any_sel in Ha. cases_bool. apply bool_decide_eq_true in Ha. by rewrite Ha. }
  destruct (standing_children st h pos Ha Hst) as (Lb & Eu & Hst1 & Hst2).
  pose proof (W_child h pos Hp) as Hc. destruct (child_pos h pos Hp) as [Ec1 Ec2].
  cbn [TraverseAndExtract]. rewrite Lb, Ec2, Ec1, HT, Eu, child_test by lia.
  change (mkExtract (nBitsUsed st + 1) (nHashUsed st) (vMatch st) (vnIndex st) (bad st)) with (step_bit st).
  rewrite (IH (2 * pos)%nat (step_bit st)) by (done || lia). rewrite at_S by done.
  unfold extracted at 3. cbn [enc]. rewrite Ha, sel_S by done. destruct (2 * pos + 1 <? W h)%nat eqn:F; cases_bool.
  - rewrite (IH (2 * pos + 1)%nat) by (first [lia|by apply Hst2]).
    rewrite (same_pair_false (row H h l) pos) by (done || lia).
    unfold extracted, step_bit. cbn [nBitsUsed nHashUsed vMatch vnIndex bad fst snd length].
    rewrite !map_app, <- !app_assoc, !length_app. do 2 f_equal; lia.
  - unfold extracted, step_bit. cbn [nBitsUsed nHashUsed vMatch vnIndex bad fst snd length].
    rewrite app_nil_r. do 2 f_equal; lia.
Qed.

End Tree.

(** ** Packing flags into bytes *)

Definition packed (bits : list bool) (p : nat) (ret : list Z) : Prop :=
  length ret = ((length bits + 7) / 8)%nat /\
  forall q : nat, Z.testbit (ret.[(q / 8)%nat]) (q mod 8)%nat = (q <? p)%nat && nth q bits false.

Lemma packed_step bits p ret :
  (p < length bits)%nat -> packed bits p ret ->
  packed bits (S p) (<[(p / 8)%nat := Z.lor (ret.[(p / 8)%nat]) (Z.shiftl (Z.b2z (nth p bits false)) (p mod 8)%nat)]> ret).
Proof.
  intros Hp [Hlen Hbit]. split; [by rewrite length_insert|]. intros q.
  assert (p / 8 < (length bits + 7) / 8)%nat as Hi.
  { apply Nat.Div0.div_lt_upper_bound.
    pose proof (Nat.div_mod (length bits + 7) 8 ltac:(lia)). pose proof (Nat.mod_upper_bound (length bits + 7) 8 ltac:(lia)). lia. }
  rewrite nth_insert by lia. pose proof (Nat.div_mod p 8 ltac:(lia)). pose proof (Nat.div_mod q 8 ltac:(lia)).
  destruct (decide ((q / 8)%nat = (p / 8)%nat)) as [E|E].
  - rewrite decide_True by lia. rewrite Z.lor_spec, Z.shiftl_spec, <- E, Hbit by lia.
    destruct (decide (q = p)) as [->|Hne].
    + rewrite Z.sub_diag, Z.b2z_bit0. destruct (p <? p)%nat eqn:F, (p <? S p)%nat eqn:G; cases_bool; try lia. done.
    + replace (Z.testbit (Z.b2z _) _) with false.
      * rewrite orb_false_r. f_equal. destruct (q <? p)%nat eqn:F, (q <? S p)%nat eqn:G; cases_bool; first [lia|done].
      * symmetry. destruct (decide (q mod 8 < p mod 8)%nat) as [Hlt|Hge]; [apply Z.testbit_neg_r; lia|].
        apply (testbit_small _ 1); [unfold in_u; destruct (nth p bits false); cbn; lia|]. lia.
  - rewrite decide_False by lia. rewrite Hbit. f_equal. assert (q <> p) by congruence.
    destruct (q <? p)%nat eqn:F, (q <? S p)%nat eqn:G; cases_bool; first [lia|done].
Qed.

Lemma BitsToBytes_packed bits : packed bits (length bits) (BitsToBytes bits).
Proof.
  unfold BitsToBytes. apply for_range_ind; [lia| |intros i ret Hi; apply packed_step; lia].
  split; [apply length_replicate|]. intros q. rewrite nth_replicate_0, Z.bits_0. done.
Qed.

Lemma BytesToBits_BitsToBytes bits :
  BytesToBits (BitsToBytes bits) = bits ++ replicate ((length bits + 7) / 8 * 8 - length bits) false.
Proof.
  destruct (BitsToBytes_packed bits) as [Hlen Hbit]. unfold BytesToBits. rewrite Hlen.
  pose proof (Nat.div_mod (length bits + 7) 8 ltac:(lia)). pose proof (Nat.mod_upper_bound (length bits + 7) 8 ltac:(lia)).
  apply list_eq. intros i. rewrite list_lookup_fmap. destruct (decide (i < (length bits + 7) / 8 * 8)%nat) as [Hi|Hi].
  - rewrite lookup_seq_lt by done. cbn [fmap option_fmap option_map Nat.add].
    rewrite Z.shiftl_1_l.
    assert (negb (Z.land (BitsToBytes bits).[(i / 8)%nat] (2 ^ (i mod 8)%nat) =? 0) = nth i bits false) as ->.
    { replace (nth i bits false) with ((i <? length bits)%nat && nth i bits false).
      - rewrite <- Hbit. destruct (Z.testbit _ _) eqn:E.
        + apply negb_true_iff, Z.eqb_neq. intros F. apply (f_equal (fun z => Z.testbit z (i mod 8)%nat)) in F.
          rewrite Z.land_spec, E, Z.pow2_bits_true, Z.bits_0 in F by lia. done.
        + apply negb_false_iff, Z.eqb_eq. apply Z.bits_inj'. intros k Hk. rewrite Z.land_spec, Z.bits_0.
          destruct (decide (k = (i mod 8)%nat)) as [->|Hne]; [by rewrite E|]. rewrite Z.pow2_bits_false by lia. apply andb_false_r.
      - destruct (i <? length bits)%nat eqn:F; cases_bool; [done|]. by rewrite nth_overflow by lia. }
    destruct (decide (i < length bits)%nat).
    + rewrite lookup_app_l by lia. rewrite nth_lookup. by destruct (lookup_lt_is_Some_2 bits i) as [b ->].
    + rewrite lookup_app_r, lookup_replicate_2 by lia. by rewrite nth_overflow by lia.
  - rewrite lookup_seq_ge by lia. rewrite lookup_ge_None_2; [done|]. rewrite length_app, length_replicate. lia.
Qed.

(** ** Whole trees *)

Lemma duplicated_rows H h l :
  duplicated H h l = false -> (length (row H h l) <= 1)%nat -> forall k, same_pair (row H k l) = false.
Proof.
  revert l. induction h as [|h IH]; intros l Hd Hlen k.
  - change (row H 0 l) with l in Hlen. assert (length (row H k l) <= 1)%nat as Hk.
    { induction k as [|k IHk]; [done|]. rewrite row_S, parents_length. apply (Nat.le_trans _ ((1 + 1) / 2)); [|done]. apply Nat.Div0.div_le_mono. lia. }
    destruct (row H k l) as [|a [|b r]]; [done|done|cbn in Hk; lia].
  - cbn [duplicated] in Hd. cases_bool. rewrite row_S_r in Hlen. destruct k as [|k]; [done|]. rewrite row_S_r. by apply IH.
Qed.

Lemma range_all l : (0 < length l)%nat -> range l (tree_height (length l)) 0 = seq 0 (length l).
Proof.
  intros Hl. unfold range. cbn [Nat.mul Nat.add]. f_equal. unfold tree_height. rewrite Nat.add_0_r.
  destruct (decide (length l = 1)%nat) as [->|]; [done|]. pose proof (Nat.log2_up_spec (length l) ltac:(lia)). lia.
Qed.

Lemma tree_height_bound (n : nat) : 0 < n <= max_tx -> (tree_height n <= 15)%nat.
Proof.
  rewrite max_tx_value. intros Hn. apply Nat.log2_up_le_pow2; [lia|]. apply Nat2Z.inj_le. rewrite Nat2Z.inj_pow. lia.
Qed.

Definition selected (mask : list bool) (n : nat) : list nat := base.filter (fun i => mask !!! i = true) (seq 0 n).

(** [ExtractMatches] accepts an encoding followed by less than a byte of
    padding. *)
Lemma ExtractMatches_encoded (H : list Z -> list Z -> list Z) l mask post vn :
  0 < length l <= max_tx -> length mask = length l ->
  duplicated H (tree_height (length l)) l = false ->
  let e := enc H l mask (tree_height (length l)) 0 in
  (length post < 8)%nat -> ((length (e.1 ++ post) + 7) / 8)%nat = ((length e.1 + 7) / 8)%nat ->
  ExtractMatches H (mkTree (length l) (e.1 ++ post) e.2 false) vn =
    (row H (tree_height (length l)) l !!! 0%nat, map (fun i => l !!! i) (selected mask (length l)),
     vn ++ map Z.of_nat (selected mask (length l))).
Proof.
  intros Hl Hmask Hdup e Hp Hpost. pose proof (tree_height_bound _ Hl) as Hh. set (h := tree_height (length l)) in *.
  assert (length (row H h l) = 1%nat) as HW by (apply row_root; intros ->; cbn in Hl; lia).
  destruct (enc_bound H l Hl mask Hmask h 0 ltac:(lia)) as (B1 & B2 & B3). fold e in B1, B2, B3.
  assert (2 ^ S h <= 2 ^ 16)%nat as Hpow by (apply Nat.pow_le_mono_r; lia). change (2 ^ 16)%nat with (Z.to_nat 65536) in Hpow.
  unfold range in B3. rewrite length_seq in B3. rewrite max_tx_value in Hl.
  set (T := mkTree (length l) (e.1 ++ post) e.2 false).
  pose proof (TraverseAndExtract_spec H l ltac:(rewrite max_tx_value; lia) mask Hmask T eq_refl) as HE.
  specialize (HE ltac:(cbn [T vBits]; rewrite length_app; lia) ltac:(cbn [T vHash]; lia)).
  specialize (HE (duplicated_rows H h l Hdup ltac:(lia)) h 0%nat (mkExtract 0 0 [] vn false) ltac:(lia) ltac:(lia)).
  unfold ExtractMatches. cbn [T nTransactions vHash vBits fBad]. fold T.
  change (MAX_BLOCK_WEIGHT / MIN_TRANSACTION_WEIGHT) with 16666.
  rewrite (proj2 (Z.eqb_neq _ _)), (proj2 (Z.ltb_ge _ _)), (proj2 (Z.ltb_ge _ _)), (proj2 (Nat.ltb_ge _ _)) by (rewrite ?length_app; lia).
  rewrite TreeHeight_spec by (rewrite max_tx_value; lia). fold h. change 0 with (Z.of_nat 0) at 1. rewrite HE; clear HE.
  2: { exists [], post, [], []. cbn [T vBits vHash nBitsUsed nHashUsed length app]. rewrite app_nil_r. fold e. done. }
  unfold extracted. fold e. cbn [bad nBitsUsed nHashUsed vMatch vnIndex]. unfold sel.
  assert (range l h 0 = seq 0 (length l)) as -> by (apply range_all; lia).
  rewrite u32_small by (unfold in_u; lia).
  rewrite Hpost, Nat2Z.inj_div, !Z.add_0_l. replace (Z.of_nat (length e.1 + 7)) with (length e.1 + 7) by lia.
  rewrite !Z.eqb_refl. done.
Qed.

Lemma CPartialMerkleTree_encoded (H : list Z -> list Z -> list Z) l mask :
  0 < length l <= max_tx -> length mask = length l ->
  let e := enc H l mask (tree_height (length l)) 0 in
  CPartialMerkleTree_init H l mask = Some (mkTree (length l) e.1 e.2 false).
Proof.
  intros Hl Hmask e. unfold CPartialMerkleTree_init.
  rewrite u32_small by (rewrite max_tx_value in Hl; unfold in_u; lia). rewrite TreeHeight_spec by done.
  change 0 with (Z.of_nat 0) at 1. pose proof (tree_height_bound _ Hl).
  rewrite TraverseAndBuild_spec; [by bind|done|done|lia|].
  rewrite row_root; [lia|]. intros ->. cbn in Hl. lia.
Qed.

Lemma byte_padding n :
  let pad := ((n + 7) / 8 * 8 - n)%nat in (pad < 8)%nat /\ ((n + pad + 7) / 8 = (n + 7) / 8)%nat.
Proof.
  cbv zeta. pose proof (Nat.div_mod (n + 7) 8 ltac:(lia)). pose proof (Nat.mod_upper_bound (n + 7) 8 ltac:(lia)).
  split; [lia|]. symmetry. apply (Nat.div_unique _ 8 _ 7); lia.
Qed.

Lemma row_wf l k q : Forall (Blob.wf 32) l -> (q < length (row node k l))%nat -> Blob.wf 32 (row node k l !!! q).
Proof.
  intros Hl Hq. assert (Forall (Blob.wf 32) (row node k l)) as Hr.
  { destruct k; [done|]. rewrite row_S. induction (row node k l) as [|a|a b r IH] using pairs_ind; repeat constructor; try apply node_wf. apply IH. }
  rewrite Forall_lookup in Hr. apply (Hr q). by apply list_lookup_lookup_total_lt.
Qed.

Lemma enc_sizes l mask :
  0 < length l <= max_tx -> length mask = length l -> Forall (Blob.wf 32) l ->
  let e := enc node l mask (tree_height (length l)) 0 in
  length e.1 <= Serialize.MAX_SIZE /\ length e.2 <= Serialize.MAX_SIZE /\ Forall (Blob.wf 32) e.2.
Proof.
  intros Hl Hmask Hwf e. pose proof (tree_height_bound _ Hl) as Hh.
  assert (length (row node (tree_height (length l)) l) = 1%nat) as HW by (apply row_root; intros ->; cbn in Hl; lia).
  destruct (enc_bound node l Hl mask Hmask (tree_height (length l)) 0 ltac:(lia)) as (B1 & B2 & _). fold e in B1, B2.
  assert (2 ^ S (tree_height (length l)) <= 2 ^ 16)%nat as Hpow by (apply Nat.pow_le_mono_r; lia).
  change (2 ^ 16)%nat with (Z.to_nat 65536) in Hpow. unfold Serialize.MAX_SIZE. repeat split; [lia|lia|].
  apply (enc_Forall node l mask); [|lia]. intros k q Hq. by apply row_wf.
Qed.

(** What the reader makes of a tree: the flags are padded to whole bytes. *)
Definition reread (T : CPartialMerkleTree) : CPartialMerkleTree :=
  mkTree (nTransactions T) (BytesToBits (BitsToBytes (vBits T))) (vHash T) false.

Lemma packed_digits bits p ret :
  packed bits p ret -> digits 8 ret ->
  digits 8 (<[(p / 8)%nat := Z.lor (ret.[(p / 8)%nat]) (Z.shiftl (Z.b2z (nth p bits false)) (p mod 8)%nat)]> ret).
Proof.
  intros _ Hd. apply digits_insert; [done|]. apply in_u_lor; [lia|by apply digits_lookup|].
  pose proof (Nat.mod_upper_bound p 8 ltac:(lia)). rewrite Z.shiftl_mul_pow2 by lia. unfold in_u.
  assert (0 < 2 ^ (p mod 8)%nat <= 2 ^ 7) by (split; [apply pow2_pos; lia|apply Z.pow_le_mono_r; lia]).
  change (2 ^ 7) with 128 in *. change (2 ^ 8) with 256. destruct (nth p bits false); cbn [Z.b2z]; lia.
Qed.

Lemma BitsToBytes_digits bits : digits 8 (BitsToBytes bits).
Proof.
  assert (packed bits (length bits) (BitsToBytes bits) /\ digits 8 (BitsToBytes bits)) as [_ ?]; [|done].
  unfold BitsToBytes. apply for_range_ind; [lia| |].
  - split; [|apply digits_replicate; lia]. split; [apply length_replicate|]. intros q. rewrite nth_replicate_0, Z.bits_0. done.
  - intros i ret Hi [Hp Hd]. split; [apply packed_step; [lia|done]|by apply packed_digits].
Qed.

Lemma tree_wire sz T rest :
  0 < sz <= Serialize.MAX_VECTOR_ALLOCATE -> in_u 32 (nTransactions T) -> length (vBits T) <= Serialize.MAX_SIZE ->
  length (vHash T) <= Serialize.MAX_SIZE -> Forall (Blob.wf 32) (vHash T) ->
  CPartialMerkleTree_Unser sz (CPartialMerkleTree_Ser T ++ rest) = inr (reread T, rest).
Proof.
  intros Hsz Hn Hb Hh Hw. unfold CPartialMerkleTree_Ser, CPartialMerkleTree_Unser. rewrite <- !app_assoc.
  refine (eq_trans (Serialize.bind_Unser Serialize.uint32_Serializable _ _ _ Hn) _).
  refine (eq_trans (Serialize.bind_Unser (@Serialize.vector_Serializable _ (Serialize.blob_Serializable 32) sz Hsz) _ _ _ (conj Hh Hw)) _).
  refine (eq_trans (Serialize.bind_Unser Serialize.bytes_Serializable _ _ _ _) _); [|done].
  split; [|apply BitsToBytes_digits]. destruct (BitsToBytes_packed (vBits T)) as [-> _].
  apply (Z.le_trans _ (length (vBits T))); [|done]. apply Nat2Z.inj_le. destruct (vBits T); [done|].
  cbn [length]. apply Nat.Div0.div_le_upper_bound. lia.
Qed.

(** C36: A partial Merkle tree built from a list of transactions and a mask
    decodes, as built and after a trip over the wire, to exactly the masked
    transactions with their positions and to the root [ComputeMerkleRoot] gives
    for the whole list, for lists that routine does not report as mutated. *)
Theorem partial_tree_roundtrip way8 way4 way2 l mask root vn sz rest :
  ways_ok way8 way4 way2 -> Forall (Blob.wf 32) l -> 0 < length l <= max_tx -> length mask = length l ->
  0 < sz <= Serialize.MAX_VECTOR_ALLOCATE ->
  ComputeMerkleRoot (installed way8 way4 way2) l (Some false) = (root, Some false) ->
  let result := (root, map (fun i => l !!! i) (selected mask (length l)), vn ++ map Z.of_nat (selected mask (length l))) in
  exists T T', CPartialMerkleTree_init node l mask = Some T /\ ExtractMatches node T vn = result /\
    CPartialMerkleTree_Unser sz (CPartialMerkleTree_Ser T ++ rest) = inr (T', rest) /\ ExtractMatches node T' vn = result.
Proof.
  intros Hw Hwf Hl Hmask Hsz Hroot result. pose proof (CPartialMerkleTree_encoded node l mask Hl Hmask) as HT.
  assert (l <> []) as Hne by (intros ->; cbn in Hl; lia).
  assert (hashes_ok l) as Hok by (eapply Forall_impl; [exact Hwf|]; by intros h [? _]).
  destruct (ComputeMerkleRoot_spec _ (fun inp n => installed_ok way8 way4 way2 inp n Hw) l (Some false) Hne Hok) as (r & Hr & E).
  rewrite E in Hroot. injection Hroot as <- Hd. do 2 eexists. split; [exact HT|].
  unfold result. replace r with (row node (tree_height (length l)) l !!! 0%nat) by (by rewrite Hr).
  set (e := enc node l mask (tree_height (length l)) 0). split; [|split].
  - rewrite <- (app_nil_r e.1). apply ExtractMatches_encoded; try done; [cbn; lia|]. by rewrite app_nil_r.
  - destruct (enc_sizes l mask Hl Hmask Hwf) as (E1 & E2 & E3). apply tree_wire; cbn [nTransactions vBits vHash]; try done.
    rewrite max_tx_value in Hl. unfold in_u. lia.
  - unfold reread. cbn [nTransactions vBits vHash]. rewrite BytesToBits_BitsToBytes. fold e.
    destruct (byte_padding (length e.1)) as [P1 P2].
    apply ExtractMatches_encoded; try done; rewrite ?length_app, length_replicate; done.
Qed.

Lemma partial_tree_roundtrip_witness :
  let l := [replicate 32 1; replicate 32 2; replicate 32 3] in
  let mask := [false; true; true] in
  let result := ((ComputeMerkleRoot (installed None None None) l (Some false)).1, [replicate 32 2; replicate 32 3], [1; 2]) in
  exists T T', CPartialMerkleTree_init node l mask = Some T /\ ExtractMatches node T [] = result /\
    CPartialMerkleTree_Unser 32 (CPartialMerkleTree_Ser T ++ []) = inr (T', []) /\ ExtractMatches node T' [] = result.
Proof.
  apply (partial_tree_roundtrip None None None [replicate 32 1; replicate 32 2; replicate 32 3] [false; true; true]
           (ComputeMerkleRoot (installed None None None) [replicate 32 1; replicate 32 2; replicate 32 3] (Some false)).1 [] 32 []).
  - repeat split; intros f Hf; discriminate Hf.
  - repeat constructor; unfold in_u; lia.
  - vm_compute. split; [reflexivity|discriminate].
  - reflexivity.
  - unfold Serialize.MAX_VECTOR_ALLOCATE. lia.
  - vm_compute. reflexivity.
Defined.

(** ** Soundness *)

Section Sound.
Context (l : list (list Z)) (Hl : 0 < length l <= max_tx) (Hok : hashes_ok l).
Context (T : CPartialMerkleTree) (HT : nTransactions T = length l) (HTok : hashes_ok (vHash T)).

Definition genuine (hash : list Z) (i : Z) : Prop := 0 <= i /\ l !! Z.to_nat i = Some hash.

Lemma row_at_length h pos : (pos < length (row node h l))%nat -> length (row node h l !!! pos) = 32%nat.
Proof.
  intros Hp. assert (hashes_ok (row node h l)) as Hr by (destruct h; [done|rewrite row_S; apply parents_ok]).
  unfold hashes_ok in Hr. rewrite Forall_lookup in Hr. apply (Hr pos). by apply list_lookup_lookup_total_lt.
Qed.

(** The inputs a traversal hashes. *)
Fixpoint traversal_inputs (height : nat) (pos : Z) (st : Extract) : list (list Z) :=
  match vBits T !! Z.to_nat (nBitsUsed st) with
  | None => []
  | Some fParentOfMatch =>
      let st := mkExtract (u32 (nBitsUsed st + 1)) (nHashUsed st) (vMatch st) (vnIndex st) (bad st) in
      match height, fParentOfMatch with
      | S height', true =>
          let '(hl, st1) := TraverseAndExtract node T height' (u32 (pos * 2)) st in
          traversal_inputs height' (u32 (pos * 2)) st ++
          (if u32 (u32 (pos * 2) + 1) <? CalcTreeWidth (nTransactions T) height' then
             traversal_inputs height' (u32 (u32 (pos * 2) + 1)) st1 ++ [hl ++ (TraverseAndExtract node T height' (u32 (u32 (pos * 2) + 1)) st1).1]
           else [hl ++ hl])
      | _, _ => []
      end
  end.

(** Inputs that include those of the tree. *)
Context (H : nat) (inputs : list (list Z)) (Hinputs : forall x, x ∈ tree_inputs H l -> x ∈ inputs).

Lemma tree_input h pos :
  (h < H)%nat -> (2 * pos < length (row node h l))%nat ->
  (row node h l !!! (2 * pos)%nat) ++
    (if (2 * pos + 1 <? length (row node h l))%nat then row node h l !!! (2 * pos + 1)%nat else row node h l !!! (2 * pos)%nat) ∈ inputs.
Proof using Hinputs.
  intros Hh Hp. apply Hinputs. apply list_elem_of_In, in_concat. exists (parents app (row node h l)). split; [apply in_map_iff; exists h; split; [done|]; apply in_seq; lia|].
  apply list_elem_of_In, list_elem_of_lookup. exists pos. by rewrite parents_lookup.
Qed.

(** What a traversal adds, when the hash it returns is the one of the tree. *)
Definition sound_at (st st' : Extract) (claim : Prop) : Prop :=
  exists ms js, vMatch st' = vMatch st ++ ms /\ vnIndex st' = vnIndex st ++ js /\ (claim -> collision inputs \/ Forall2 genuine ms js).

Lemma sound_none st st' claim : vMatch st' = vMatch st -> vnIndex st' = vnIndex st -> sound_at st st' claim.
Proof using. intros E1 E2. exists [], []. rewrite !app_nil_r. repeat split; try done. right. constructor. Qed.

Lemma sound_app st1 st2 st3 c1 c2 (claim : Prop) :
  sound_at st1 st2 c1 -> sound_at st2 st3 c2 -> (claim -> collision inputs \/ (c1 /\ c2)) -> sound_at st1 st3 claim.
Proof using.
  intros (m1 & j1 & M1 & J1 & S1) (m2 & j2 & M2 & J2 & S2) Hc. exists (m1 ++ m2), (j1 ++ j2).
  rewrite M2, M1, J2, J1, !app_assoc. repeat split; try done. intros [?|[H1 H2]]%Hc; [by left|].
  destruct (S1 H1); [by left|]. destruct (S2 H2); [by left|]. right. by apply Forall2_app.
Qed.

Lemma TraverseAndExtract_sound h pos st :
  (h <= 30)%nat -> (h <= H)%nat -> (pos < length (row node h l))%nat -> (forall x, x ∈ traversal_inputs h pos st -> x ∈ inputs) ->
  let r := TraverseAndExtract node T h pos st in
  length r.1 = 32%nat /\ sound_at st r.2 (r.1 = row node h l !!! pos).
Proof.
  revert pos st. induction h as [|h IH]; intros pos st Hh HH Hp Hin r; unfold r; clear r; cbn [TraverseAndExtract].
  - destruct (vBits T !! _) as [m|]; [|split; [done|by apply sound_none]]. cbn [nHashUsed].
    destruct (vHash T !! _) as [hash|] eqn:E; [|destruct m; (split; [done|by apply sound_none])].
    assert (length hash = 32%nat) by (unfold hashes_ok in HTok; rewrite Forall_lookup in HTok; by apply (HTok _ _ E)).
    destruct m; cbn [Nat.eqb andb fst snd]; (split; [done|]); [|by apply sound_none].
    exists [hash], [Z.of_nat pos]. repeat split; try done. intros ->. right. constructor; [|constructor].
    split; [lia|]. rewrite Nat2Z.id. by apply list_lookup_lookup_total_lt.
  - cbn [traversal_inputs] in Hin. destruct (vBits T !! _) as [m|]; [|split; [done|by apply sound_none]]. destruct m.
    2: { cbn [nHashUsed]. destruct (vHash T !! _) as [hash|] eqn:E; (split; [|by apply sound_none]); [|done].
         unfold hashes_ok in HTok; rewrite Forall_lookup in HTok; by apply (HTok _ _ E). }
    pose proof (W_child node l h pos Hp) as Hc. destruct (child_pos node l Hl h pos Hp) as [Ec1 Ec2].
    rewrite Ec2, Ec1, HT, (child_test node l Hl) in * by lia. pose proof (tree_input h pos ltac:(lia) Hc) as Hnode.
    set (st1 := mkExtract _ _ _ _ _) in *. specialize (IH (2 * pos)%nat st1 ltac:(lia) ltac:(lia) Hc) as IH1.
    destruct (TraverseAndExtract node T h _ st1) as [hl st2]. cbn [fst snd] in *.
    destruct IH1 as [L1 S1]; [intros x Hx; apply Hin, elem_of_app; by left|].
    pose proof (row_at_length h _ Hc) as R1. rewrite at_S by done. destruct (2 * pos + 1 <? _)%nat eqn:F; cases_bool.
    + specialize (IH (2 * pos + 1)%nat st2 ltac:(lia) ltac:(lia) F) as IH2.
      destruct (TraverseAndExtract node T h _ st2) as [hr st3]. cbn [fst snd] in *. split; [apply node_length|].
      destruct IH2 as [L2 S2]; [intros x Hx; apply Hin; rewrite !elem_of_app; auto|].
      eapply (sound_app st1 st2); [exact S1| |].
      2: { intros E. destruct (node_inj inputs _ _ _ _ L1 R1 (Hin _ ltac:(rewrite !elem_of_app, list_elem_of_singleton; auto)) Hnode E); [right|left]; done. }
      destruct S2 as (ms & js & ?). by exists ms, js; destruct (Blob.blob_eqb hr hl).
    + cbn [fst snd]. split; [apply node_length|]. destruct S1 as (ms & js & M & J & S). exists ms, js. repeat split; try done.
      intros E. destruct (node_inj inputs _ _ _ _ L1 R1 (Hin _ ltac:(rewrite elem_of_app, list_elem_of_singleton; auto)) Hnode E) as [[E1 _]|]; [by apply S|by left].
Qed.

End Sound.

(** C35: Partial Merkle trees authenticate: when [ExtractMatches] accepts any
    tree whatsoever under the root of a block with the stated number of
    transactions, every transaction it reports is in that block at the reported
    position, or two different inputs among those hashed for the block's tree and
    by the traversal have the same double SHA-256. *)
Theorem ExtractMatches_sound way8 way4 way2 l T root ms js :
  ways_ok way8 way4 way2 -> l <> [] -> hashes_ok l -> hashes_ok (vHash T) -> nTransactions T = length l ->
  (ComputeMerkleRoot (installed way8 way4 way2) l None).1 = root -> root <> Blob.null 32 ->
  ExtractMatches node T [] = (root, ms, js) ->
  let h := tree_height (length l) in
  collision (tree_inputs h l ++ traversal_inputs T h 0 (mkExtract 0 0 [] [] (fBad T))) \/ Forall2 (genuine l) ms js.
Proof.
  intros Hw Hne Hok HTok HT Hroot Hnull. unfold ExtractMatches. rewrite HT.
  case_if; [by intros [= <- _ _]|]. fold max_tx. case_if; [by intros [= <- _ _]|].
  case_if; [by intros [= <- _ _]|]. case_if; [by intros [= <- _ _]|].
  assert (0 < length l <= max_tx) as Hl by lia. rewrite TreeHeight_spec by done.
  destruct (ComputeMerkleRoot_spec _ (fun inp n => installed_ok way8 way4 way2 inp n Hw) l None Hne Hok) as (r & Hr & Er).
  rewrite Er in Hroot. cbn [fst] in Hroot. subst r. pose proof (tree_height_bound _ Hl).
  destruct (TraverseAndExtract_sound l Hl Hok T HT HTok (tree_height (length l)) _ (fun x Hx => proj2 (elem_of_app _ _ x) (or_introl Hx))
    (tree_height (length l)) 0 (mkExtract 0 0 [] [] (fBad T)) ltac:(lia) ltac:(lia) ltac:(rewrite Hr; cbn; lia)
    (fun x Hx => proj2 (elem_of_app _ _ x) (or_intror Hx))) as [_ HS].
  change (Z.of_nat 0) with 0 in HS. destruct (TraverseAndExtract node T _ 0 _) as [h st]. cbn [fst snd] in HS.
  intros [= Eh <- <-]. destruct HS as (ms & js & -> & -> & HS). apply HS. rewrite Hr. cbn.
  destruct (bad st); [by subst|]. destruct (negb _); [by subst|]. by destruct (negb _); [subst|].
Qed.

Lemma ExtractMatches_sound_witness :
  let l := [replicate 32 1; replicate 32 2] in
  let T := mkTree 2 [true; false; true] l false in
  collision (tree_inputs 1 l ++ traversal_inputs T 1 0 (mkExtract 0 0 [] [] false)) \/ Forall2 (genuine l) [replicate 32 2] [1].
Proof.
  apply (ExtractMatches_sound None None None [replicate 32 1; replicate 32 2]
    (mkTree 2 [true; false; true] [replicate 32 1; replicate 32 2] false)
    (ComputeMerkleRoot (installed None None None) [replicate 32 1; replicate 32 2] None).1).
  - repeat split; intros f Hf; discriminate Hf.
  - discriminate.
  - repeat constructor.
  - repeat constructor.
  - reflexivity.
  - reflexivity.
  - vm_compute. discriminate.
  - vm_compute. reflexivity.
Defined.

(** ** The encoded size

    The class comment promises at most [10 + ceil(32.25 * N)] bytes and
    [2 * N - 1] flags for [N] hashes.  A node with a single child adds a flag
    without adding a hash, so neither bound holds: for the full tree over 1025
    transactions [N] is 1025 and the encoding has 2059 flags and 33068 bytes. *)
Lemma size_guarantee_exceeded :
  let l := replicate 1025 (Blob.null 32) in
  match CPartialMerkleTree_init node l (replicate 1025 true) with
  | Some T => length (vHash T) = 1025%nat /\ 2 * 1025 - 1 < length (vBits T) /\
              4 * (length (CPartialMerkleTree_Ser T) - 10) > 129 * 1025 + 3
  | None => False
  end.
Proof. vm_compute. repeat split; reflexivity. Qed.

End MerkleBlockTheory.
