(* ===== verification/Compressor.v ===== *)
(** * Compressed outputs ([compressor.h], [compressor.cpp])

    The compact form of amounts and scripts used in the coins database and the
    undo files.  Checks of elliptic curve points are parameters.  The theorems:
    amounts and scripts survive compression, and the amount code wastes no
    value. *)
From stdpp Require Import prelude.
From S2P Require Import Prelude Serialize Transaction.

Module Compressor.
Import Serialize Transaction.

(** ** Scripts *)

Definition OP_DUP : Z := 0x76.
Definition OP_HASH160 : Z := 0xa9.
Definition OP_EQUALVERIFY : Z := 0x88.
Definition OP_EQUAL : Z := 0x87.
Definition OP_CHECKSIG : Z := 0xac.
Definition OP_RETURN : Z := 0x6a.
Definition MAX_SCRIPT_SIZE : Z := 10000.

(** [memcpy(&hash, &script[off], len)]. *)
Definition slice (off len : nat) (script : list Z) : list Z := take len (drop off script).

Definition IsToKeyID (script : list Z) : option (list Z) :=
  if (length script =? 25)%nat && (script.[0] =? OP_DUP) && (script.[1] =? OP_HASH160) && (script.[2] =? 20) &&
     (script.[23] =? OP_EQUALVERIFY) && (script.[24] =? OP_CHECKSIG)
  then Some (slice 3 20 script) else None.

Definition IsToScriptID (script : list Z) : option (list Z) :=
  if (length script =? 23)%nat && (script.[0] =? OP_HASH160) && (script.[1] =? 20) && (script.[22] =? OP_EQUAL)
  then Some (slice 2 20 script) else None.

(** [IsFullyValid] decides whether a key is a point of the curve; [Decompress]
    computes the full form of a compressed key. *)
Section Keys.
Context (IsFullyValid : list Z -> bool) (Decompress : list Z -> option (list Z)).

Definition IsToPubKey (script : list Z) : option (list Z) :=
  if (length script =? 35)%nat && (script.[0] =? 33) && (script.[34] =? OP_CHECKSIG) &&
     ((script.[1] =? 0x02) || (script.[1] =? 0x03))
  then Some (slice 1 33 script)
  else if (length script =? 67)%nat && (script.[0] =? 65) && (script.[66] =? OP_CHECKSIG) && (script.[1] =? 0x04)
  then let pubkey := slice 1 65 script in if IsFullyValid pubkey then Some pubkey else None
  else None.

Definition CompressScript (script : list Z) : option (list Z) :=
  match IsToKeyID script with
  | Some keyID => Some (0x00 :: keyID)
  | None =>
      match IsToScriptID script with
      | Some scriptID => Some (0x01 :: scriptID)
      | None =>
          match IsToPubKey script with
          | Some pubkey =>
              if (pubkey.[0] =? 0x02) || (pubkey.[0] =? 0x03) then Some (pubkey.[0] :: slice 1 32 pubkey)
              else if pubkey.[0] =? 0x04 then Some (Z.lor 0x04 (Z.land (pubkey.[64]) 0x01) :: slice 1 32 pubkey)
              else None
          | None => None
          end
      end
  end.

Definition GetSpecialScriptSize (nSize : Z) : Z :=
  if (nSize =? 0) || (nSize =? 1) then 20
  else if (nSize =? 2) || (nSize =? 3) || (nSize =? 4) || (nSize =? 5) then 32
  else 0.

(** The script, when the function returns true.  The size of a decompressed key
    is asserted. *)
Definition DecompressScript (nSize : Z) (inp : list Z) : option (list Z) :=
  if nSize =? 0x00 then Some ([OP_DUP; OP_HASH160; 20] ++ take 20 inp ++ [OP_EQUALVERIFY; OP_CHECKSIG])
  else if nSize =? 0x01 then Some ([OP_HASH160; 20] ++ take 20 inp ++ [OP_EQUAL])
  else if (nSize =? 0x02) || (nSize =? 0x03) then Some ([33; nSize] ++ take 32 inp ++ [OP_CHECKSIG])
  else if (nSize =? 0x04) || (nSize =? 0x05) then
    match Decompress ((nSize - 2) :: take 32 inp) with
    | Some pubkey => if (length pubkey =? 65)%nat then Some ([65] ++ take 65 pubkey ++ [OP_CHECKSIG]) else None
    | None => None
    end
  else None.

Definition nSpecialScripts : Z := 6.

Definition Script_Ser (script : list Z) : option (list Z) :=
  match CompressScript script with
  | Some compr => Some compr
  | None => nSize ← WriteVarInt 32 (u32 (length script + nSpecialScripts)); Some (nSize ++ script)
  end.

(** The script starts out empty; when decompression fails it stays so. *)
Definition Script_Unser : Reader (list Z) :=
  nSize ← ReadVarInt (2 ^ 32 - 1);
  if nSize <? nSpecialScripts then
    vch ← read (Z.to_nat (GetSpecialScriptSize nSize));
    mret (default [] (DecompressScript nSize vch))
  else
    let nSize := nSize - nSpecialScripts in
    if MAX_SCRIPT_SIZE <? nSize then
      _ ← read (Z.to_nat nSize); mret [OP_RETURN]
    else read (Z.to_nat nSize).

(** ** Amounts *)

(** The loop that strips zeros: the number and the exponent. *)
Fixpoint strip_zeros (fuel : nat) (m e : Z) : Z * Z :=
  match fuel with
  | O => (m, e)
  | S fuel' => if (m mod 10 =? 0) && (e <? 9) then strip_zeros fuel' (m / 10) (e + 1) else (m, e)
  end.

(** [None] is the failed assertion on the last digit. *)
Definition CompressAmount (m : Z) : option Z :=
  if m =? 0 then Some 0
  else
    let '(m, e) := strip_zeros 9 m 0 in
    if e <? 9 then
      let d := m mod 10 in
      if (1 <=? d) && (d <=? 9) then Some (u64 (1 + (m / 10 * 9 + d - 1) * 10 + e)) else None
    else Some (u64 (1 + (m - 1) * 10 + 9)).

Fixpoint times10 (e : nat) (m : Z) : Z :=
  match e with
  | O => m
  | S e' => times10 e' (u64 (m * 10))
  end.

Definition DecompressAmount (x : Z) : Z :=
  if x =? 0 then 0
  else
    let x := x - 1 in
    let e := x mod 10 in
    let x := x / 10 in
    let m := if e <? 9 then u64 (x / 9 * 10 + (x mod 9 + 1)) else u64 (x + 1) in
    times10 (Z.to_nat e) m.

(** An amount is signed; compression is defined on unsigned ones. *)
Definition Amount_Ser (val : Z) : option (list Z) := a ← CompressAmount (u64 val); WriteVarInt 64 a.
Definition Amount_Unser : Reader Z := v ← ReadVarInt (2 ^ 64 - 1); mret (i64 (DecompressAmount v)).

Definition TxOut_Ser (o : CTxOut) : option (list Z) :=
  a ← Amount_Ser (nValue o); s ← Script_Ser (scriptPubKey o); Some (a ++ s).
Definition TxOut_Unser : Reader CTxOut := v ← Amount_Unser; s ← Script_Unser; mret (mkTxOut v s).

End Keys.

(** A writer that may refuse, and the reader that undoes it. *)
Definition restores {A} (ser : A -> option (list Z)) (unser : Reader A) (x : A) : Prop :=
  exists b, ser x = Some b /\ forall rest, unser (b ++ rest) = inr (x, rest).

Lemma VarInt_restores bits n : 0 < bits -> in_u bits n -> restores (WriteVarInt bits) (ReadVarInt (2 ^ bits - 1)) n.
Proof.
  intros Hb Hn. destruct (capacity_spec bits Hb) as (f & Hcap & Hf). eexists. split; [by apply WriteVarInt_spec|].
  intros rest. rewrite Hcap. unfold in_u in Hn. apply ReadVarInt_app; lia.
Qed.

(** ** Scripts survive compression *)

Section KeysTheory.
Context (IsFullyValid : list Z -> bool) (Decompress : list Z -> option (list Z)).
(** Decompressing the compressed form of a valid key gives the key. *)
Context (Decompress_valid : forall pubkey, length pubkey = 65%nat -> pubkey.[0] = 4 -> IsFullyValid pubkey = true ->
  Decompress ((2 + pubkey.[64] mod 2) :: slice 1 32 pubkey) = Some pubkey).

(** Taking a list of known length apart. *)
Ltac explode s := repeat (destruct s as [|? s]; try discriminate).

Lemma KeyID_inv script keyID :
  IsToKeyID script = Some keyID ->
  length keyID = 20%nat /\ DecompressScript Decompress 0 keyID = Some script /\ CompressScript IsFullyValid script = Some (0 :: keyID).
Proof using.
  intros E. pose proof E as E'. unfold IsToKeyID in E. case_if_in E; [|done]. injection E as <-. cases_bool. subst.
  split; [unfold slice; rewrite length_take, length_drop; lia|]. split; [|unfold CompressScript; by rewrite E'].
  clear E'. explode script. cbn in *. by subst.
Qed.

Lemma ScriptID_inv script scriptID :
  IsToKeyID script = None -> IsToScriptID script = Some scriptID ->
  length scriptID = 20%nat /\ DecompressScript Decompress 1 scriptID = Some script /\
  CompressScript IsFullyValid script = Some (1 :: scriptID).
Proof using.
  intros E0 E. pose proof E as E'. unfold IsToScriptID in E. case_if_in E; [|done]. injection E as <-. cases_bool.
  split; [unfold slice; rewrite length_take, length_drop; lia|]. split; [|unfold CompressScript; by rewrite E0, E'].
  clear E' E0. explode script. cbn in *. by subst.
Qed.

Lemma land_1 x : Z.land x 1 = x mod 2.
Proof using. apply (land_ones_mod x 1). lia. Qed.

(** The two forms of a public key script. *)
Lemma PubKey_inv script pubkey :
  IsToKeyID script = None -> IsToScriptID script = None -> IsToPubKey IsFullyValid script = Some pubkey ->
  exists b, 2 <= b <= 5 /\ CompressScript IsFullyValid script = Some (b :: slice 1 32 pubkey) /\
    length (slice 1 32 pubkey) = 32%nat /\ DecompressScript Decompress b (slice 1 32 pubkey) = Some script.
Proof using Decompress_valid.
  intros E0 E1 E. pose proof E as E'. unfold IsToPubKey in E. case_if_in E.
  - injection E as <-. cases_bool. clear -E0 E1 E' H1 H2 H H0.
    exists (script.[1]). assert (script.[1] = 2 \/ script.[1] = 3) as Hb by (apply orb_true_iff in H0 as [?|?]; cases_bool; lia).
    assert ((slice 1 33 script).[0] = script.[1]) as Ehd by (clear E0 E1 E'; explode script; done).
    split; [lia|]. split; [|split].
    + unfold CompressScript. rewrite E0, E1, E', Ehd. destruct Hb as [-> | ->]; done.
    + unfold slice. rewrite length_take, length_drop, length_take, length_drop. lia.
    + clear E0 E1 E' Ehd. explode script. cbn in *. subst. destruct Hb as [-> | ->]; done.
  - case_if_in E; [|done]. destruct (IsFullyValid (slice 1 65 script)) eqn:Ev; [|done]. injection E as <-. cases_bool.
    assert (length (slice 1 65 script) = 65%nat) as Hlen by (unfold slice; rewrite length_take, length_drop; lia).
    assert ((slice 1 65 script).[0] = 4) as Ehd by (clear E0 E1 E' Ev; explode script; done).
    pose proof (Decompress_valid _ Hlen Ehd Ev) as HD. set (pubkey := slice 1 65 script) in *.
    pose proof (Z.mod_pos_bound (pubkey.[64]) 2 ltac:(lia)).
    assert (Z.lor 4 (pubkey.[64] mod 2) = 4 + pubkey.[64] mod 2) as Elor.
    { assert (pubkey.[64] mod 2 = 0 \/ pubkey.[64] mod 2 = 1) as [-> | ->] by lia; done. }
    exists (4 + pubkey.[64] mod 2). split; [lia|]. split; [|split].
    + unfold CompressScript. rewrite E0, E1, E', Ehd. cbn [Z.eqb orb Pos.eqb]. by rewrite land_1, Elor.
    + unfold slice at 1. rewrite length_take, length_drop, Hlen. done.
    + unfold DecompressScript. rewrite (take_ge _ 32) by (unfold slice at 1; rewrite length_take, length_drop, Hlen; lia).
      replace (4 + pubkey.[64] mod 2 - 2) with (2 + pubkey.[64] mod 2) by lia. rewrite HD, Hlen. cbn [Nat.eqb].
      assert ([65] ++ take 65 pubkey ++ [OP_CHECKSIG] = script) as Es.
      { clear E0 E1 E' Ev HD Elor Ehd Hlen. unfold pubkey. explode script. cbn in *. by subst. }
      rewrite Es. assert (pubkey.[64] mod 2 = 0 \/ pubkey.[64] mod 2 = 1) as [-> | ->] by lia; done.
Qed.

(** A single byte of a variable-length integer. *)
Lemma read_byte b rest : 0 <= b < 128 -> ReadVarInt (2 ^ 32 - 1) (b :: rest) = inr (b, rest).
Proof using.
  intros Hb. unfold ReadVarInt. rewrite ReadVarInt_step by (unfold in_u; lia). rewrite (proj2 (Z.ltb_ge _ _)) by (vm_compute; discriminate).
  by rewrite (proj2 (Z.leb_gt _ _)) by lia.
Qed.

Lemma Script_special b h rest :
  0 <= b <= 5 -> Z.of_nat (length h) = GetSpecialScriptSize b ->
  Script_Unser Decompress ((b :: h) ++ rest) = inr (default [] (DecompressScript Decompress b h), rest).
Proof using.
  intros Hb Hh. unfold Script_Unser. refine (eq_trans (bind_inr _ _ _ b (h ++ rest) _) _); [apply read_byte; lia|].
  rewrite (proj2 (Z.ltb_lt _ _)) by (unfold nSpecialScripts; lia). rewrite <- Hh, Nat2Z.id.
  by rewrite (bind_inr _ _ _ h rest) by (by apply read_app).
Qed.

Lemma Script_restores script : length script <= MAX_SCRIPT_SIZE -> restores (Script_Ser IsFullyValid) (Script_Unser Decompress) script.
Proof using Decompress_valid.
  unfold MAX_SCRIPT_SIZE, restores. intros Hlen. unfold Script_Ser.
  destruct (IsToKeyID script) as [k|] eqn:E0.
  { destruct (KeyID_inv script k E0) as (Hk & Hd & ->). eexists. split; [done|]. intros rest.
    rewrite Script_special by (cbn; lia). by rewrite Hd. }
  destruct (IsToScriptID script) as [k|] eqn:E1.
  { destruct (ScriptID_inv script k E0 E1) as (Hk & Hd & ->). eexists. split; [done|]. intros rest.
    rewrite Script_special by (cbn; lia). by rewrite Hd. }
  destruct (IsToPubKey IsFullyValid script) as [k|] eqn:E2.
  { destruct (PubKey_inv script k E0 E1 E2) as (b & Hb & -> & Hl & Hd). eexists. split; [done|]. intros rest.
    rewrite Script_special; [by rewrite Hd|lia|]. rewrite Hl. unfold GetSpecialScriptSize.
    assert (b = 2 \/ b = 3 \/ b = 4 \/ b = 5) as [-> |[-> |[-> | ->]]] by lia; done. }
  assert (CompressScript IsFullyValid script = None) as -> by (unfold CompressScript; by rewrite E0, E1, E2).
  unfold nSpecialScripts. destruct (VarInt_restores 32 (length script + 6)) as (b & Hw & Hr); [done|unfold in_u; lia|].
  rewrite u32_small by (unfold in_u; lia). rewrite Hw, bind_some. eexists. split; [done|]. intros rest.
  rewrite <- app_assoc. unfold Script_Unser. rewrite (bind_inr _ _ _ (length script + 6) (script ++ rest)) by apply Hr.
  unfold nSpecialScripts, MAX_SCRIPT_SIZE. rewrite (proj2 (Z.ltb_ge _ _)), Z.add_simpl_r by lia.
  rewrite (proj2 (Z.ltb_ge _ _)) by lia. rewrite Nat2Z.id. by apply read_app.
Qed.

End KeysTheory.

(** ** Amounts survive compression, and every code is an amount *)

Lemma strip_zeros_spec (fuel : nat) m e :
  0 < m -> 0 <= e -> e + fuel = 9 ->
  exists m' e', strip_zeros fuel m e = (m', e') /\ 0 < m' /\ e <= e' <= 9 /\ m = m' * 10 ^ (e' - e) /\ (e' < 9 -> m' mod 10 <> 0).
Proof.
  revert m e. induction fuel as [|fuel IH]; intros m e Hm He Hf; cbn [strip_zeros].
  - exists m, e. rewrite Z.sub_diag, Z.pow_0_r. split; [done|lia].
  - destruct ((m mod 10 =? 0) && (e <? 9)) eqn:E.
    + cases_bool. pose proof (Z.div_mod m 10 ltac:(lia)). destruct (IH (m / 10) (e + 1)) as (m' & e' & -> & Hm' & He' & Em & Hd); [lia..|].
      exists m', e'. split_and!; try done; try lia. replace (e' - e) with (Z.succ (e' - (e + 1))) by lia.
      rewrite Z.pow_succ_r by lia. pose proof (Z.div_mod m 10). lia.
    + apply andb_false_iff in E. exists m, e. rewrite Z.sub_diag, Z.pow_0_r. split_and!; try done; try lia.
Qed.

(** Stripping is determined by its result. *)
Lemma strip_zeros_pow (fuel : nat) m k e :
  0 < m -> 0 <= e -> 0 <= k -> e + fuel = 9 -> e + k <= 9 -> (e + k < 9 -> m mod 10 <> 0) ->
  strip_zeros fuel (m * 10 ^ k) e = (m, e + k).
Proof.
  revert k e. induction fuel as [|fuel IH]; intros k e Hm He Hk Hf Hek Hd; cbn [strip_zeros].
  - assert (k = 0) as -> by lia. f_equal; lia.
  - destruct (decide (k = 0)) as [-> |].
    + rewrite Z.pow_0_r, Z.mul_1_r, Z.add_0_r in *. destruct (decide (e < 9)); [|lia].
      by rewrite (proj2 (Z.eqb_neq _ _)) by (apply Hd; lia).
    + replace k with (Z.succ (k - 1)) by lia. rewrite Z.pow_succ_r by lia.
      replace (m * (10 * 10 ^ (k - 1))) with (m * 10 ^ (k - 1) * 10) by lia.
      rewrite Z.mod_mul, Z.div_mul, (proj2 (Z.ltb_lt _ _)) by lia. cbn [andb Z.eqb]. rewrite IH by (try done; lia).
      f_equal. lia.
Qed.

Lemma times10_pow (e : nat) m : 0 <= m -> m * 10 ^ e < 2 ^ 64 -> times10 e m = m * 10 ^ e.
Proof.
  revert m. induction e as [|e IH]; intros m Hm Hb; cbn [times10]; [by rewrite Z.pow_0_r, Z.mul_1_r|].
  rewrite Nat2Z.inj_succ, Z.pow_succ_r in * by lia. pose proof (Z.pow_pos_nonneg 10 e).
  rewrite u64_small by (unfold in_u; nia). rewrite IH by nia. lia.
Qed.

(** The code of [m * 10 ^ e], on unbounded integers. *)
Definition amount_code (m e : Z) : Z := if e <? 9 then 1 + (m / 10 * 9 + m mod 10 - 1) * 10 + e else 1 + (m - 1) * 10 + 9.

(** The amount of a code, on unbounded integers. *)
Definition amount_of (x : Z) : Z :=
  if x =? 0 then 0
  else
    let e := (x - 1) mod 10 in
    (if e <? 9 then (x - 1) / 10 / 9 * 10 + ((x - 1) / 10 mod 9 + 1) else (x - 1) / 10 + 1) * 10 ^ e.

(** A mantissa and exponent read off a code. *)
Definition normal (m e : Z) : Prop := 0 < m /\ 0 <= e <= 9 /\ (e < 9 -> m mod 10 <> 0).

Lemma CompressAmount_normal m e :
  normal m e -> m * 10 ^ e < 2 ^ 60 -> CompressAmount (m * 10 ^ e) = Some (amount_code m e) /\ 0 < amount_code m e < 2 ^ 64.
Proof.
  intros (Hm & He & Hd) Hb. pose proof (Z.pow_pos_nonneg 10 e). assert (m <= m * 10 ^ e) by nia.
  pose proof (Z.div_mod m 10). pose proof (Z.mod_pos_bound m 10). pose proof (Z.div_pos m 10).
  assert (0 < amount_code m e < 2 ^ 64) as Hc.
  { unfold amount_code. case_if; cases_bool; [specialize (Hd ltac:(lia)); lia|]. assert (e = 9) as -> by lia. lia. }
  split; [|done]. unfold CompressAmount. rewrite (proj2 (Z.eqb_neq _ _)) by nia.
  rewrite strip_zeros_pow by (try done; lia). rewrite Z.add_0_l. unfold amount_code in *. destruct (e <? 9) eqn:E; cases_bool.
  - specialize (Hd ltac:(lia)). rewrite (proj2 (Z.leb_le _ _)), (proj2 (Z.leb_le _ _)) by lia. cbn [andb].
    by rewrite u64_small by (unfold in_u; lia).
  - by rewrite u64_small by (unfold in_u; lia).
Qed.

(** The digits of a code. *)
Lemma amount_code_inv m e : normal m e -> amount_of (amount_code m e) = m * 10 ^ e.
Proof.
  intros (Hm & He & Hd). pose proof (Z.div_mod m 10). pose proof (Z.mod_pos_bound m 10). pose proof (Z.div_pos m 10).
  unfold amount_of, amount_code. destruct (e <? 9) eqn:E; cases_bool.
  - specialize (Hd ltac:(lia)). rewrite (proj2 (Z.eqb_neq _ _)) by lia. set (q := m / 10) in *. set (d := m mod 10) in *.
    replace (1 + (q * 9 + d - 1) * 10 + e - 1) with (e + (q * 9 + d - 1) * 10) by lia.
    rewrite Z_mod_plus_full, Z.div_add, (Z.mod_small e), (Z.div_small e) by lia. rewrite (proj2 (Z.ltb_lt _ _)), Z.add_0_l by lia.
    replace (q * 9 + d - 1) with (d - 1 + q * 9) by lia. rewrite Z_mod_plus_full, Z.div_add, Z.mod_small, Z.div_small by lia. f_equal; lia.
  - rewrite (proj2 (Z.eqb_neq _ _)) by lia. assert (e = 9) as -> by lia.
    replace (1 + (m - 1) * 10 + 9 - 1) with (9 + (m - 1) * 10) by lia. rewrite Z_mod_plus_full, Z.div_add by lia.
    change (9 mod 10) with 9. change (9 / 10) with 0. change (9 <? 9) with false. f_equal. lia.
Qed.

(** Every positive code has a normal form. *)
Lemma code_normal x : 0 < x -> exists m e, normal m e /\ x = amount_code m e.
Proof.
  intros Hx. pose proof (Z.div_mod (x - 1) 10 ltac:(lia)). pose proof (Z.mod_pos_bound (x - 1) 10 ltac:(lia)).
  pose proof (Z.div_pos (x - 1) 10 ltac:(lia) ltac:(lia)). set (y := (x - 1) / 10) in *. set (e := (x - 1) mod 10) in *.
  destruct (decide (e < 9)).
  - pose proof (Z.div_mod y 9 ltac:(lia)). pose proof (Z.mod_pos_bound y 9 ltac:(lia)). pose proof (Z.div_pos y 9 ltac:(lia) ltac:(lia)).
    exists (y mod 9 + 1 + y / 9 * 10), e. unfold normal, amount_code. rewrite Z_mod_plus_full, Z.div_add, (Z.mod_small (y mod 9 + 1)), (Z.div_small (y mod 9 + 1)) by lia.
    rewrite (proj2 (Z.ltb_lt _ _)) by lia. lia.
  - exists (y + 1), e. unfold normal, amount_code. rewrite (proj2 (Z.ltb_ge _ _)) by lia. lia.
Qed.

Lemma DecompressAmount_of x : 0 <= x -> amount_of x < 2 ^ 64 -> DecompressAmount x = amount_of x.
Proof.
  intros Hx. unfold DecompressAmount, amount_of. destruct (x =? 0) eqn:E; [done|]. cases_bool.
  pose proof (Z.mod_pos_bound (x - 1) 10 ltac:(lia)). pose proof (Z.div_pos (x - 1) 10 ltac:(lia) ltac:(lia)).
  set (y := (x - 1) / 10) in *. set (e := (x - 1) mod 10) in *. cbv zeta.
  pose proof (Z.mod_pos_bound y 9 ltac:(lia)). pose proof (Z.div_pos y 9 ltac:(lia) ltac:(lia)).
  pose proof (Z.pow_pos_nonneg 10 e). intros Hb.
  destruct (e <? 9); rewrite u64_small by (unfold in_u; nia); rewrite times10_pow; rewrite ?Z2Nat.id; try lia; done.
Qed.

(** Every amount below [2 ^ 60] has a code, which fits in 64 bits, and is
    recovered from it. *)
Lemma amount_forward n :
  0 <= n < 2 ^ 60 -> exists x, CompressAmount n = Some x /\ in_u 64 x /\ DecompressAmount x = n.
Proof.
  intros Hn. destruct (decide (n = 0)) as [-> |]; [by exists 0|].
  destruct (strip_zeros_spec 9 n 0) as (m & e & _ & Hm & He & En & Hd); [lia..|]. rewrite Z.sub_0_r in En.
  assert (normal m e) as Hne by done. destruct (CompressAmount_normal m e Hne ltac:(lia)) as (Hc & Hb). exists (amount_code m e).
  rewrite En. split_and!; [done|unfold in_u; lia|]. pose proof (amount_code_inv m e Hne) as Ei.
  rewrite DecompressAmount_of by (rewrite ?Ei; lia). done.
Qed.

(** No two codes stand for one amount. *)
Lemma amount_backward x :
  0 <= x -> amount_of x < 2 ^ 60 -> CompressAmount (DecompressAmount x) = Some x.
Proof.
  intros Hx Hb. rewrite DecompressAmount_of by lia. destruct (decide (x = 0)) as [-> |]; [done|].
  destruct (code_normal x ltac:(lia)) as (m & e & Hne & ->). rewrite (amount_code_inv m e Hne) in *.
  by destruct (CompressAmount_normal m e Hne ltac:(lia)).
Qed.

(** ** Outputs survive compression *)

Lemma Amount_restores n : 0 <= n < 2 ^ 60 -> restores Amount_Ser Amount_Unser n.
Proof.
  intros Hn. destruct (amount_forward n Hn) as (x & Hx & Hb & Hd). destruct (VarInt_restores 64 x ltac:(lia) Hb) as (b & Hw & Hr).
  exists b. unfold Amount_Ser. rewrite u64_small by (unfold in_u; lia). rewrite Hx, bind_some. split; [done|]. intros rest.
  unfold Amount_Unser. rewrite (bind_inr _ _ _ x rest) by apply Hr. rewrite Hd. unfold i64. by rewrite swrap_small by (unfold in_s; lia).
Qed.

(** The amounts and scripts whose compressed form is exact. *)
Definition compressible (o : CTxOut) : Prop := 0 <= nValue o < 2 ^ 60 /\ length (scriptPubKey o) <= MAX_SCRIPT_SIZE.

Lemma TxOut_restores IsFullyValid Decompress o :
  (forall pubkey, length pubkey = 65%nat -> pubkey.[0] = 4 -> IsFullyValid pubkey = true ->
    Decompress ((2 + pubkey.[64] mod 2) :: slice 1 32 pubkey) = Some pubkey) ->
  compressible o -> restores (TxOut_Ser IsFullyValid) (TxOut_Unser Decompress) o.
Proof.
  intros HD [Hv Hs]. destruct (Amount_restores _ Hv) as (a & Ha & Ra). destruct (Script_restores _ _ HD _ Hs) as (s & Es & Rs).
  exists (a ++ s). unfold TxOut_Ser. rewrite Ha, bind_some, Es, bind_some. split; [done|]. intros rest. rewrite <- app_assoc.
  unfold TxOut_Unser. rewrite (bind_inr _ _ _ _ _ (Ra _)), (bind_inr _ _ _ _ _ (Rs _)). by destruct o.
Qed.

(** The amount code is a bijection where it is exact: every amount below
    [2 ^ 60], so every valid one, is coded without overflow in 64 bits and
    recovered from its code; every code of such an amount is the one the amount
    is given, so no code is wasted. *)
Theorem amount_compression :
  (forall n, 0 <= n < 2 ^ 60 -> exists x, CompressAmount n = Some x /\ in_u 64 x /\ DecompressAmount x = n) /\
  (forall x, 0 <= x -> amount_of x < 2 ^ 60 -> DecompressAmount x = amount_of x /\ CompressAmount (DecompressAmount x) = Some x).
Proof.
  split; [apply amount_forward|]. intros x Hx Hb. split; [apply DecompressAmount_of; lia|by apply amount_backward].
Qed.

(** An output with a valid amount and a script within the size limit is read
    back from its compressed form, whichever of the templates its script has. *)
Theorem output_compression IsFullyValid Decompress o rest
  (Decompress_valid : forall pubkey, length pubkey = 65%nat -> pubkey.[0] = 4 -> IsFullyValid pubkey = true ->
    Decompress ((2 + pubkey.[64] mod 2) :: slice 1 32 pubkey) = Some pubkey)
  (Ho : compressible o) :
  exists b, TxOut_Ser IsFullyValid o = Some b /\ TxOut_Unser Decompress (b ++ rest) = inr (o, rest).
Proof. destruct (TxOut_restores _ _ o Decompress_valid Ho) as (b & Hb & Hr). exists b. split; [done|apply Hr]. Qed.

(** The base point of the curve, in both forms, as the only known key. *)
Definition point_x : list Z :=
  [0x79; 0xBE; 0x66; 0x7E; 0xF9; 0xDC; 0xBB; 0xAC; 0x55; 0xA0; 0x62; 0x95; 0xCE; 0x87; 0x0B; 0x07;
   0x02; 0x9B; 0xFC; 0xDB; 0x2D; 0xCE; 0x28; 0xD9; 0x59; 0xF2; 0x81; 0x5B; 0x16; 0xF8; 0x17; 0x98].
Definition point_y : list Z :=
  [0x48; 0x3A; 0xDA; 0x77; 0x26; 0xA3; 0xC4; 0x65; 0x5D; 0xA4; 0xFB; 0xFC; 0x0E; 0x11; 0x08; 0xA8;
   0xFD; 0x17; 0xB4; 0x48; 0xA6; 0x85; 0x54; 0x19; 0x9C; 0x47; 0xD0; 0x8F; 0xFB; 0x10; 0xD4; 0xB8].
Definition point_valid (pubkey : list Z) : bool := bool_decide (pubkey = 4 :: point_x ++ point_y).
Definition point_decompress (key : list Z) : option (list Z) :=
  if bool_decide (key = 2 :: point_x) then Some (4 :: point_x ++ point_y) else None.

Lemma output_compression_witness :
  exists b, TxOut_Ser point_valid (mkTxOut 1234500 ([65; 4] ++ point_x ++ point_y ++ [OP_CHECKSIG])) = Some b /\
    TxOut_Unser point_decompress (b ++ [7]) = inr (mkTxOut 1234500 ([65; 4] ++ point_x ++ point_y ++ [OP_CHECKSIG]), [7]).
Proof.
  apply output_compression.
  - intros pubkey _ _ ->%bool_decide_eq_true_1. reflexivity.
  - vm_compute. repeat split; discriminate.
Defined.

End Compressor.
