(* ===== verification/Coins.v ===== *)
(** * The coins cache ([coins.h], [coins.cpp])

    [CCoinsViewCache] keeps modified and fetched coins in memory over another
    view.  What a view promises is the class [CoinsView]: its set of unspent
    coins, and how reads and bulk writes act on it.  The cache is written against
    that interface and implements it, so views can be stacked. *)
From stdpp Require Import prelude gmap.
From S2P Require Import Prelude Uint256 Serialize Transaction.

Module Coins.
Import Transaction.

#[global] Instance COutPoint_countable : Countable COutPoint.
Proof.
  refine (inj_countable' (fun o => (hash o, n o)) (fun p => mkOutPoint p.1 p.2) _). by intros [].
Defined.

(** ** Coins *)

Record Coin := mkCoin {
  out : CTxOut;
  fCoinBase : bool;
  nHeight : Z;
  fCoinStake : bool;
  coinTime : Z
}.
#[global] Instance Coin_eq_dec : EqDecision Coin.
Proof. solve_decision. Defined.

(** The constructor; the height is a bit field of 31 bits. *)
Definition Coin_init (outIn : CTxOut) (nHeightIn : Z) (fCoinBaseIn fCoinStakeIn : bool) (nTimeIn : Z) : Coin :=
  mkCoin outIn fCoinBaseIn (uwrap 31 nHeightIn) fCoinStakeIn (u32 nTimeIn).
Definition coinEmpty : Coin := mkCoin CTxOut_SetNull false 0 false 0.
Definition Clear (c : Coin) : Coin := mkCoin CTxOut_SetNull false 0 false 0.
Definition IsSpent (c : Coin) : bool := CTxOut_IsNull (out c).

Definition OP_RETURN : Z := 0x6a.
Definition MAX_SCRIPT_SIZE : Z := 10000.
Definition IsUnspendable (s : list Z) : bool :=
  match s with [] => false | b :: _ => b =? OP_RETURN end || (MAX_SCRIPT_SIZE <? length s).

(** ** Cache entries *)

Definition DIRTY : Z := Z.shiftl 1 0.
Definition FRESH : Z := Z.shiftl 1 1.
Record CCoinsCacheEntry := mkEntry { coin : Coin; flags : Z }.
Definition is_dirty (e : CCoinsCacheEntry) : bool := negb (Z.land (flags e) DIRTY =? 0).
Definition is_fresh (e : CCoinsCacheEntry) : bool := negb (Z.land (flags e) FRESH =? 0).
Abbreviation CCoinsMap := (gmap COutPoint CCoinsCacheEntry).

(** What stops an operation: a failed assertion or a [std::logic_error]. *)
Inductive error := AssertionFailed | OverwritesUnspent | FreshMisapplied.
Definition result (A : Type) : Type := error + A.
#[global] Instance result_ret : MRet result := fun A x => inr x.
#[global] Instance result_bind : MBind result := fun A B k m => match m with inl e => inl e | inr x => k x end.

(** ** Views

    [utxo] and [best] are what the state of a view stands for.  A bulk write is
    a list of entries, the elements of the map in the order of its iteration. *)

(** The coin an entry leaves behind. *)
Definition entry_utxo (e : CCoinsCacheEntry) : option Coin := if IsSpent (coin e) then None else Some (coin e).

Definition apply_entry (u : COutPoint -> option Coin) (p : COutPoint * CCoinsCacheEntry) : COutPoint -> option Coin :=
  fun o => if is_dirty p.2 then (if decide (o = p.1) then entry_utxo p.2 else u o) else u o.

(** An entry that claims to be fresh is new to the view below. *)
Definition fresh_ok (u : COutPoint -> option Coin) (p : COutPoint * CCoinsCacheEntry) : Prop :=
  is_fresh p.2 = true -> u p.1 = None.

(** The combinations of flags the cache uses. *)
Definition valid_entry (e : CCoinsCacheEntry) : Prop :=
  (IsSpent (coin e) = false /\ (flags e = 0 \/ flags e = DIRTY \/ flags e = Z.lor DIRTY FRESH)) \/
  (IsSpent (coin e) = true /\ (flags e = FRESH \/ flags e = DIRTY)).

Class CoinsView (S : Type) := {
  GetCoin : S -> COutPoint -> bool * Coin * S;
  GetBestBlock : S -> list Z * S;
  BatchWrite : S -> list (COutPoint * CCoinsCacheEntry) -> list Z -> result (bool * S);
  utxo : S -> COutPoint -> option Coin;
  best : S -> list Z;
  view_ok : S -> Prop;
  utxo_unspent s o c : view_ok s -> utxo s o = Some c -> IsSpent c = false;
  GetCoin_spec s o : view_ok s ->
    let '(ok, c, s') := GetCoin s o in
    view_ok s' /\ (forall o', utxo s' o' = utxo s o') /\ best s' = best s /\
    utxo s o = (if ok then Some c else None);
  GetBestBlock_spec s : view_ok s ->
    let '(h, s') := GetBestBlock s in
    view_ok s' /\ (forall o', utxo s' o' = utxo s o') /\ best s' = best s /\ h = best s;
  BatchWrite_spec s es h : view_ok s -> NoDup es.*1 -> Forall (fresh_ok (utxo s)) es ->
    Forall (fun p => valid_entry p.2) es -> Blob.IsNull h = false ->
    exists ok s', BatchWrite s es h = inr (ok, s') /\
      (ok = true -> view_ok s' /\ best s' = h /\ forall o, utxo s' o = fold_left apply_entry es (utxo s) o)
}.

(** ** The cache *)

Section Cache.
Context {S : Type} {V : CoinsView S}.
(** Heap memory of a coin's script, as the allocator accounts for it. *)
Context (DynamicMemoryUsage : Coin -> Z).

Record CCoinsViewCache := mkCache {
  base : S;
  hashBlock : list Z;
  cacheCoins : CCoinsMap;
  cachedCoinsUsage : Z
}.

Definition CCoinsViewCache_init (b : S) : CCoinsViewCache := mkCache b (Blob.null 32) ∅ 0.

(** The iterator it returns is the entry found, [None] for the end. *)
Definition FetchCoin (c : CCoinsViewCache) (o : COutPoint) : option CCoinsCacheEntry * CCoinsViewCache :=
  match cacheCoins c !! o with
  | Some e => (Some e, c)
  | None =>
      let '(ok, tmp, b) := GetCoin (base c) o in
      if negb ok then (None, mkCache b (hashBlock c) (cacheCoins c) (cachedCoinsUsage c))
      else
        let e := mkEntry tmp (if IsSpent tmp then FRESH else 0) in
        (Some e, mkCache b (hashBlock c) (<[o := e]> (cacheCoins c)) (u64 (cachedCoinsUsage c + DynamicMemoryUsage tmp)))
  end.

Definition Cache_GetCoin (c : CCoinsViewCache) (o : COutPoint) : bool * Coin * CCoinsViewCache :=
  match FetchCoin c o with
  | (Some e, c) => (negb (IsSpent (coin e)), coin e, c)
  | (None, c) => (false, coinEmpty, c)
  end.

Definition AccessCoin (c : CCoinsViewCache) (o : COutPoint) : Coin * CCoinsViewCache :=
  match FetchCoin c o with
  | (Some e, c) => (coin e, c)
  | (None, c) => (coinEmpty, c)
  end.

Definition HaveCoin (c : CCoinsViewCache) (o : COutPoint) : bool * CCoinsViewCache :=
  match FetchCoin c o with
  | (Some e, c) => (negb (IsSpent (coin e)), c)
  | (None, c) => (false, c)
  end.

Definition HaveCoinInCache (c : CCoinsViewCache) (o : COutPoint) : bool :=
  match cacheCoins c !! o with Some e => negb (IsSpent (coin e)) | None => false end.

Definition AddCoin (c : CCoinsViewCache) (o : COutPoint) (cn : Coin) (possible_overwrite skipZeroValue : bool) : result CCoinsViewCache :=
  if IsSpent cn then inl AssertionFailed
  else if IsUnspendable (scriptPubKey (out cn)) then inr c
  else if (nValue (out cn) =? 0) && skipZeroValue then inr c
  else
    let it := match cacheCoins c !! o with Some e => e | None => mkEntry coinEmpty 0 end in
    let usage := match cacheCoins c !! o with
                 | Some e => u64 (cachedCoinsUsage c - DynamicMemoryUsage (coin e))
                 | None => cachedCoinsUsage c
                 end in
    if negb possible_overwrite && negb (IsSpent (coin it)) then inl OverwritesUnspent
    else
      let fresh := if negb possible_overwrite then negb (is_dirty it) else false in
      let e := mkEntry cn (Z.lor (flags it) (Z.lor DIRTY (if fresh then FRESH else 0))) in
      inr (mkCache (base c) (hashBlock c) (<[o := e]> (cacheCoins c)) (u64 (usage + DynamicMemoryUsage cn))).

(** Inserts nothing when the outpoint is present, but always counts the coin. *)
Definition EmplaceCoinInternalDANGER (c : CCoinsViewCache) (o : COutPoint) (cn : Coin) : CCoinsViewCache :=
  mkCache (base c) (hashBlock c)
    (match cacheCoins c !! o with Some _ => cacheCoins c | None => <[o := mkEntry cn DIRTY]> (cacheCoins c) end)
    (u64 (cachedCoinsUsage c + DynamicMemoryUsage cn)).

(** The result, the coin moved out and the cache. *)
Definition SpendCoin (c : CCoinsViewCache) (o : COutPoint) : bool * Coin * CCoinsViewCache :=
  match FetchCoin c o with
  | (None, c) => (false, coinEmpty, c)
  | (Some e, c) =>
      let usage := u64 (cachedCoinsUsage c - DynamicMemoryUsage (coin e)) in
      let m := if is_fresh e then delete o (cacheCoins c)
               else <[o := mkEntry (Clear (coin e)) (Z.lor (flags e) DIRTY)]> (cacheCoins c) in
      (true, coin e, mkCache (base c) (hashBlock c) m usage)
  end.

Definition Cache_GetBestBlock (c : CCoinsViewCache) : list Z * CCoinsViewCache :=
  if Blob.IsNull (hashBlock c) then
    let '(h, b) := GetBestBlock (base c) in (h, mkCache b h (cacheCoins c) (cachedCoinsUsage c))
  else (hashBlock c, c).

Definition SetBestBlock (c : CCoinsViewCache) (hashBlockIn : list Z) : CCoinsViewCache :=
  mkCache (base c) hashBlockIn (cacheCoins c) (cachedCoinsUsage c).

(** One iteration of [BatchWrite]. *)
Definition write_entry (c : CCoinsViewCache) (p : COutPoint * CCoinsCacheEntry) : result CCoinsViewCache :=
  let '(o, it) := p in
  if negb (is_dirty it) then inr c
  else match cacheCoins c !! o with
       | None =>
           if negb (is_fresh it && IsSpent (coin it)) then
             let entry := mkEntry (coin it) (if is_fresh it then Z.lor DIRTY FRESH else DIRTY) in
             inr (mkCache (base c) (hashBlock c) (<[o := entry]> (cacheCoins c))
                    (u64 (cachedCoinsUsage c + DynamicMemoryUsage (coin it))))
           else inr c
       | Some itUs =>
           if is_fresh it && negb (IsSpent (coin itUs)) then inl FreshMisapplied
           else if is_fresh itUs && IsSpent (coin it) then
             inr (mkCache (base c) (hashBlock c) (delete o (cacheCoins c))
                    (u64 (cachedCoinsUsage c - DynamicMemoryUsage (coin itUs))))
           else
             inr (mkCache (base c) (hashBlock c) (<[o := mkEntry (coin it) (Z.lor (flags itUs) DIRTY)]> (cacheCoins c))
                    (u64 (u64 (cachedCoinsUsage c - DynamicMemoryUsage (coin itUs)) + DynamicMemoryUsage (coin it))))
       end.

Fixpoint write_loop (c : CCoinsViewCache) (mapCoins : list (COutPoint * CCoinsCacheEntry)) : result CCoinsViewCache :=
  match mapCoins with
  | [] => inr c
  | p :: r => c ← write_entry c p; write_loop c r
  end.

Definition Cache_BatchWrite (c : CCoinsViewCache) (mapCoins : list (COutPoint * CCoinsCacheEntry)) (hashBlockIn : list Z) :
    result (bool * CCoinsViewCache) :=
  c ← write_loop c mapCoins;
  inr (true, SetBestBlock c hashBlockIn).

(** [iter] is the order in which the hash map is walked. *)
Definition Flush (iter : CCoinsMap -> list (COutPoint * CCoinsCacheEntry)) (c : CCoinsViewCache) : result (bool * CCoinsViewCache) :=
  '(fOk, b) ← BatchWrite (base c) (iter (cacheCoins c)) (hashBlock c);
  inr (fOk, mkCache b (hashBlock c) ∅ 0).

Definition Uncache (c : CCoinsViewCache) (o : COutPoint) : CCoinsViewCache :=
  match cacheCoins c !! o with
  | Some e =>
      if flags e =? 0 then
        mkCache (base c) (hashBlock c) (delete o (cacheCoins c)) (u64 (cachedCoinsUsage c - DynamicMemoryUsage (coin e)))
      else c
  | None => c
  end.

Definition GetCacheSize (c : CCoinsViewCache) : Z := u32 (size (cacheCoins c)).

Fixpoint have_inputs (c : CCoinsViewCache) (vin : list CTxIn) : bool * CCoinsViewCache :=
  match vin with
  | [] => (true, c)
  | i :: r => let '(ok, c) := HaveCoin c (prevout i) in if negb ok then (false, c) else have_inputs c r
  end.
Definition HaveInputs (c : CCoinsViewCache) (tx : CTransaction) : bool * CCoinsViewCache :=
  if negb (IsCoinBase tx) then have_inputs c (vin tx) else (true, c).

(** The loop of [AddCoins] from output [i] on. *)
Fixpoint add_outputs (c : CCoinsViewCache) (tx : CTransaction) (txid : list Z) (nHeight : Z) (check skipZeroValue : bool)
    (i : Z) (vout : list CTxOut) : result CCoinsViewCache :=
  match vout with
  | [] => inr c
  | o :: r =>
      let outpoint := mkOutPoint txid (u32 i) in
      let '(overwrite, c) := if check then HaveCoin c outpoint else (IsCoinBase tx, c) in
      c ← AddCoin c outpoint (Coin_init o nHeight (IsCoinBase tx) (IsCoinStake tx) (nTime tx)) overwrite skipZeroValue;
      add_outputs c tx txid nHeight check skipZeroValue (i + 1) r
  end.
Definition AddCoins (c : CCoinsViewCache) (GetHash : CTransaction -> list Z) (tx : CTransaction) (nHeight : Z)
    (check skipZeroValue : bool) : result CCoinsViewCache :=
  add_outputs c tx (GetHash tx) nHeight check skipZeroValue 0 (vout tx).

Definition MIN_TRANSACTION_OUTPUT_WEIGHT : Z :=
  WITNESS_SCALE_FACTOR * GetSerializeSize (fun _ _ => CTxOut_Ser) CTxOut_SetNull PROTOCOL_VERSION 0.
Definition MAX_OUTPUTS_PER_BLOCK : Z := 4000000 / MIN_TRANSACTION_OUTPUT_WEIGHT.

Fixpoint access_loop (fuel : nat) (c : CCoinsViewCache) (txid : list Z) (i : Z) : Coin * CCoinsViewCache :=
  match fuel with
  | O => (coinEmpty, c)
  | Datatypes.S fuel' =>
      if i <? MAX_OUTPUTS_PER_BLOCK then
        let '(alternate, c) := AccessCoin c (mkOutPoint txid i) in
        if negb (IsSpent alternate) then (alternate, c) else access_loop fuel' c txid (u32 (i + 1))
      else (coinEmpty, c)
  end.
Definition AccessByTxid (c : CCoinsViewCache) (txid : list Z) : Coin * CCoinsViewCache :=
  access_loop (Z.to_nat MAX_OUTPUTS_PER_BLOCK) c txid 0.

End Cache.

End Coins.
