(* ===== verification/CoinsTheory.v ===== *)
(** * The coins cache: theorems

    The cache refines its set of unspent coins: every operation keeps the
    invariant of the entries and acts on that set as documented, and the cache
    satisfies the interface it is built on. *)
From stdpp Require Import prelude gmap.
From S2P Require Import Prelude Uint256 Serialize Transaction Coins.

Module CoinsTheory.
Import Transaction Coins.

(** ** Memory accounting *)

Section Usage.
Context (usage : Coin -> Z).

Definition total_usage (m : CCoinsMap) : Z := map_fold (fun _ e acc => usage (coin e) + acc) 0 m.

Lemma total_insert m o e : m !! o = None -> total_usage (<[o := e]> m) = usage (coin e) + total_usage m.
Proof. intros Hm. unfold total_usage. rewrite map_fold_insert_L; [done| |done]. intros. lia. Qed.

Lemma total_delete m o e : m !! o = Some e -> total_usage m = usage (coin e) + total_usage (delete o m).
Proof.
  intros Hm. rewrite <- (insert_delete_id m o e Hm) at 1. apply total_insert. apply lookup_delete_eq.
Qed.

Lemma total_update m o e e' :
  m !! o = Some e -> total_usage (<[o := e']> m) = total_usage m - usage (coin e) + usage (coin e').
Proof.
  intros Hm. rewrite <- insert_delete_eq, total_insert by apply lookup_delete_eq. rewrite (total_delete m o e Hm). lia.
Qed.

End Usage.

Lemma u64_plus a b : u64 (u64 a + b) = u64 (a + b).
Proof. apply Zplus_mod_idemp_l. Qed.
Lemma u64_minus a b : u64 (u64 a - b) = u64 (a - b).
Proof. apply Zminus_mod_idemp_l. Qed.

(** ** The invariant *)

(** An entry against the view below: fresh means absent there, clean means
    equal to it. *)
Definition entry_ok (u : COutPoint -> option Coin) (o : COutPoint) (e : CCoinsCacheEntry) : Prop :=
  valid_entry e /\ (is_fresh e = true -> u o = None) /\ (is_dirty e = false -> entry_utxo e = u o).

(** The flags of a valid entry, case by case. *)
Ltac entry_cases H :=
  let Hs := fresh "Hs" in let Hf := fresh "Hf" in
  destruct H as [[Hs [Hf|[Hf|Hf]]]|[Hs [Hf|Hf]]].

Section Cache.
Context {S : Type} {V : CoinsView S} (usage : Coin -> Z).
Context (usage_empty : usage coinEmpty = 0).
Abbreviation Cache := (@CCoinsViewCache S).

Definition cache_utxo (c : Cache) (o : COutPoint) : option Coin :=
  match cacheCoins c !! o with Some e => entry_utxo e | None => utxo (base c) o end.
Definition cache_best (c : Cache) : list Z := if Blob.IsNull (hashBlock c) then best (base c) else hashBlock c.

Definition cache_ok (c : Cache) : Prop :=
  view_ok (base c) /\ map_Forall (entry_ok (utxo (base c))) (cacheCoins c) /\
  cachedCoinsUsage c = u64 (total_usage usage (cacheCoins c)).

(** Changing one entry. *)
Lemma cache_utxo_insert b h m k o e o' :
  cache_utxo (mkCache b h (<[o := e]> m) k) o' = if decide (o' = o) then entry_utxo e else cache_utxo (mkCache b h m k) o'.
Proof.
  unfold cache_utxo. cbn [cacheCoins base]. case_decide as E; [by subst; rewrite lookup_insert_eq|]. by rewrite lookup_insert_ne.
Qed.

Lemma cache_utxo_delete b h m k o o' :
  cache_utxo (mkCache b h (delete o m) k) o' = if decide (o' = o) then utxo b o else cache_utxo (mkCache b h m k) o'.
Proof.
  unfold cache_utxo. cbn [cacheCoins base]. case_decide as E; [by subst; rewrite lookup_delete_eq|]. by rewrite lookup_delete_ne.
Qed.

Lemma entry_utxo_unspent e c : entry_utxo e = Some c -> IsSpent c = false.
Proof. unfold entry_utxo. destruct (IsSpent (coin e)) eqn:E; [done|]. by intros [= <-]. Qed.

Lemma cache_utxo_unspent c o x : cache_ok c -> cache_utxo c o = Some x -> IsSpent x = false.
Proof.
  intros (Hv & _ & _). unfold cache_utxo. destruct (cacheCoins c !! o); [apply entry_utxo_unspent|by apply utxo_unspent].
Qed.

(** The view below may change its representation. *)
Lemma cache_ok_base c b :
  cache_ok c -> view_ok b -> (forall o, utxo b o = utxo (base c) o) ->
  cache_ok (mkCache b (hashBlock c) (cacheCoins c) (cachedCoinsUsage c)).
Proof.
  intros (Hv & He & Hu) Hb Ho. split; [done|]. split; [|done]. cbn [base cacheCoins].
  eapply map_Forall_impl; [exact He|]. intros o e (H1 & H2 & H3). split; [done|]. rewrite Ho. done.
Qed.

Lemma FetchCoin_spec c o :
  cache_ok c ->
  let '(r, c') := FetchCoin usage c o in
  cache_ok c' /\ (forall o', cache_utxo c' o' = cache_utxo c o') /\ cache_best c' = cache_best c /\ hashBlock c' = hashBlock c /\
  cacheCoins c' !! o = r /\ cache_utxo c o = (e ← r; entry_utxo e).
Proof.
  intros Hok. pose proof Hok as (Hv & He & Hu). unfold FetchCoin. destruct (cacheCoins c !! o) as [e|] eqn:E.
  { repeat (split; [done|]). unfold cache_utxo. by rewrite E. }
  pose proof (GetCoin_spec (base c) o Hv) as HG. destruct (GetCoin (base c) o) as [[ok tmp] b].
  destruct HG as (Hb & Hbu & Hbb & Htmp).
  assert (forall o', utxo b o' = utxo (base c) o') as Hbu' by done.
  destruct ok; cbn [negb].
  - assert (IsSpent tmp = false) as Hs by (by apply (utxo_unspent (base c) o)). rewrite Hs.
    pose proof (cache_ok_base c b Hok Hb Hbu) as (_ & He' & _). cbn [base cacheCoins] in He'.
    split; [split; [done|split]|]; cbn [base cacheCoins hashBlock cachedCoinsUsage].
    + apply map_Forall_insert_2; [|done]. split; [by left; split; [|left]|]. split; [done|].
      intros _. unfold entry_utxo. cbn [coin]. rewrite Hs, Hbu. done.
    + rewrite total_insert, Hu, u64_plus by done. f_equal. cbn. lia.
    + split; [|split; [|split; [done|split]]].
      * intros o'. rewrite cache_utxo_insert. case_decide as F.
        -- subst. unfold cache_utxo, entry_utxo. by rewrite E, Htmp; cbn; rewrite Hs.
        -- unfold cache_utxo. cbn [cacheCoins base]. destruct (cacheCoins c !! o'); [done|apply Hbu].
      * unfold cache_best. cbn. by rewrite Hbb.
      * apply lookup_insert_eq.
      * unfold cache_utxo, entry_utxo. rewrite E, Htmp. cbn. by rewrite Hs.
  - split; [by apply cache_ok_base|]. cbn [cacheCoins hashBlock]. split; [|split; [|split; [done|split; [done|]]]].
    + intros o'. unfold cache_utxo. cbn [cacheCoins base]. destruct (cacheCoins c !! o'); [done|apply Hbu].
    + unfold cache_best. cbn. by rewrite Hbb.
    + unfold cache_utxo. by rewrite E, Htmp.
Qed.

(** ** Operations *)

Lemma Cache_GetCoin_spec c o :
  cache_ok c ->
  let '(ok, x, c') := Cache_GetCoin usage c o in
  cache_ok c' /\ (forall o', cache_utxo c' o' = cache_utxo c o') /\ cache_best c' = cache_best c /\
  cache_utxo c o = (if ok then Some x else None).
Proof.
  intros Hok. unfold Cache_GetCoin. pose proof (FetchCoin_spec c o Hok) as HF. destruct (FetchCoin usage c o) as [[e|] c'].
  - destruct HF as (? & ? & ? & _ & _ & Hu). repeat (split; [done|]). rewrite Hu. cbn. unfold entry_utxo. by destruct (IsSpent (coin e)).
  - destruct HF as (? & ? & ? & _ & _ & Hu). done.
Qed.

Lemma AccessCoin_spec c o :
  cache_ok c ->
  let '(x, c') := AccessCoin usage c o in
  cache_ok c' /\ (forall o', cache_utxo c' o' = cache_utxo c o') /\ cache_best c' = cache_best c /\ hashBlock c' = hashBlock c /\
  cache_utxo c o = (if IsSpent x then None else Some x).
Proof.
  intros Hok. unfold AccessCoin. pose proof (FetchCoin_spec c o Hok) as HF. destruct (FetchCoin usage c o) as [[e|] c'].
  - destruct HF as (? & ? & ? & ? & _ & Hu). done.
  - destruct HF as (? & ? & ? & ? & _ & Hu). done.
Qed.

Lemma HaveCoin_spec c o :
  cache_ok c ->
  let '(ok, c') := HaveCoin usage c o in
  cache_ok c' /\ (forall o', cache_utxo c' o' = cache_utxo c o') /\ cache_best c' = cache_best c /\ hashBlock c' = hashBlock c /\
  ok = bool_decide (is_Some (cache_utxo c o)).
Proof.
  intros Hok. unfold HaveCoin. pose proof (FetchCoin_spec c o Hok) as HF. destruct (FetchCoin usage c o) as [[e|] c'].
  - destruct HF as (? & ? & ? & ? & _ & Hu). repeat (split; [done|]). rewrite Hu. cbn. unfold entry_utxo. by destruct (IsSpent (coin e)).
  - destruct HF as (? & ? & ? & ? & _ & Hu). repeat (split; [done|]). by rewrite Hu.
Qed.

(** The coins [AddCoin] leaves out. *)
Definition skipped (x : Coin) (skipZeroValue : bool) : bool :=
  IsUnspendable (scriptPubKey (out x)) || ((nValue (out x) =? 0) && skipZeroValue).

(** The flags [AddCoin] gives an entry. *)
Lemma added_entry u o x it (overwrite : bool) :
  IsSpent x = false -> (overwrite = false -> IsSpent (coin it) = true) ->
  (flags it = 0 /\ (overwrite = false -> u o = None) \/ entry_ok u o it) ->
  entry_ok u o (mkEntry x (Z.lor (flags it) (Z.lor DIRTY (if (if negb overwrite then negb (is_dirty it) else false) then FRESH else 0)))).
Proof using.
  intros Hx Hov Hit. unfold entry_ok, is_fresh, is_dirty in *. cbn [coin flags].
  destruct Hit as [[-> Hno]|(Hval & Hf & Hd)].
  - destruct overwrite; cbn; (split; [|split; [|done]]); [by left; split; [|right; left]|done|by left; split; [|right; right]|by intros _; apply Hno].
  - destruct overwrite; [clear Hov|specialize (Hov eq_refl)].
    + entry_cases Hval; rewrite Hf0 in *; cbn in *; (split; [|split; [|done]]); try (by left; split; [|right; left]); try (by left; split; [|right; right]); done.
    + entry_cases Hval; rewrite Hf0 in *; cbn in *; try congruence; (split; [|split; [|done]]); try (by left; split; [|right; left]); try (by left; split; [|right; right]); done.
Qed.

Lemma AddCoin_spec c o x overwrite skip :
  cache_ok c -> IsSpent x = false -> (overwrite = false -> cache_utxo c o = None) ->
  exists c', AddCoin usage c o x overwrite skip = inr c' /\ cache_ok c' /\ hashBlock c' = hashBlock c /\ cache_best c' = cache_best c /\
    forall o', cache_utxo c' o' = if decide (o' = o) then (if skipped x skip then cache_utxo c o else Some x) else cache_utxo c o'.
Proof using usage_empty.
  intros Hok Hx Hov. pose proof Hok as (Hv & He & Hu). unfold AddCoin, skipped. rewrite Hx.
  destruct (IsUnspendable _); [exists c; repeat (split; [done|]); intros o'; by case_decide; subst|].
  destruct ((nValue (out x) =? 0) && skip); [exists c; repeat (split; [done|]); intros o'; by case_decide; subst|]. cbn [orb].
  set (it := match cacheCoins c !! o with Some e => e | None => mkEntry coinEmpty 0 end).
  assert (overwrite = false -> IsSpent (coin it) = true) as Hsp.
  { intros Ho. specialize (Hov Ho). unfold cache_utxo, entry_utxo in Hov. unfold it. destruct (cacheCoins c !! o) as [e|]; [|done].
    by destruct (IsSpent (coin e)). }
  replace (negb overwrite && negb (IsSpent (coin it))) with false by (destruct overwrite; [done|by rewrite Hsp]).
  eexists. split; [done|]. split; [|split; [done|split; [done|]]].
  - split; [done|]. cbn [base cacheCoins cachedCoinsUsage]. split.
    + apply map_Forall_insert_2; [|done]. apply added_entry; [done|done|]. unfold it. destruct (cacheCoins c !! o) as [e|] eqn:E.
      * right. by apply (He o e).
      * left. split; [done|]. intros Ho. specialize (Hov Ho). unfold cache_utxo in Hov. by rewrite E in Hov.
    + unfold it. destruct (cacheCoins c !! o) as [e|] eqn:E.
      * rewrite (total_update usage _ _ e) by done. rewrite Hu, u64_minus, u64_plus. cbn [coin]. done.
      * rewrite total_insert by done. rewrite Hu, u64_plus. cbn [coin]. f_equal. lia.
  - intros o'. rewrite cache_utxo_insert. case_decide; [|by destruct c]. unfold entry_utxo. cbn [coin]. by rewrite Hx.
Qed.

(** The documented error: an unspent entry of the cache is not replaced. *)
Lemma AddCoin_error (c : Cache) o x skip e :
  IsSpent x = false -> skipped x skip = false -> cacheCoins c !! o = Some e -> IsSpent (coin e) = false ->
  AddCoin usage c o x false skip = inl OverwritesUnspent.
Proof using.
  intros Hx Hs E He. unfold AddCoin, skipped in *. cases_bool. rewrite Hx, H, H0, E. cbn. by rewrite He.
Qed.

Lemma SpendCoin_spec c o :
  cache_ok c ->
  let '(ok, x, c') := SpendCoin usage c o in
  cache_ok c' /\ hashBlock c' = hashBlock c /\ cache_best c' = cache_best c /\
  (forall o', cache_utxo c' o' = if decide (o' = o) then None else cache_utxo c o') /\
  (forall y, cache_utxo c o = Some y -> ok = true /\ x = y) /\ (cache_utxo c o = None -> ok = false \/ IsSpent x = true).
Proof using usage_empty.
  intros Hok. unfold SpendCoin. pose proof (FetchCoin_spec c o Hok) as HF. destruct (FetchCoin usage c o) as [[e|] c1].
  2: { destruct HF as (H1 & H2 & H3 & H4 & _ & Hu). repeat (split; [done|]). split; [|split; [by rewrite Hu|by left]].
       intros o'. rewrite H2. case_decide; [by subst|done]. }
  destruct HF as (Hok1 & H2 & H3 & H4 & Hl & Hu). destruct Hok1 as (Hv & He & Hus). destruct (He o e Hl) as (Hval & Hfr & Hd).
  assert ((forall y, cache_utxo c o = Some y -> true = true /\ coin e = y) /\
          (cache_utxo c o = None -> true = false \/ IsSpent (coin e) = true)) as Hres.
  { rewrite Hu. cbn. unfold entry_utxo. destruct (IsSpent (coin e)); [by split; [|right]|]. split; [|done]. intros y Hy. by injection Hy. }
  destruct (is_fresh e) eqn:Ef.
  - split; [|split; [done|split; [done|split; [|done]]]].
    + split; [done|]. cbn [base cacheCoins cachedCoinsUsage]. split; [by apply map_Forall_delete|].
      rewrite Hus, u64_minus, (total_delete usage _ o e Hl). f_equal. lia.
    + intros o'. rewrite cache_utxo_delete. case_decide as E; [by apply Hfr|]. rewrite <- H2. by destruct c1.
  - split; [|split; [done|split; [done|split; [|done]]]].
    + split; [done|]. cbn [base cacheCoins cachedCoinsUsage]. split.
      * apply map_Forall_insert_2; [|done]. unfold entry_ok, is_fresh, is_dirty in *. cbn [coin flags].
        entry_cases Hval; rewrite Hf in *; cbn in *; try done; (split; [by right; split; [|right]|done]).
      * rewrite (total_update usage _ _ e) by done. change (usage (coin (mkEntry (Clear (coin e)) _))) with (usage coinEmpty).
        rewrite usage_empty, Hus, u64_minus. f_equal. lia.
    + intros o'. rewrite cache_utxo_insert. case_decide as E; [done|]. rewrite <- H2. by destruct c1.
Qed.

(** The unchecked insertion of a snapshot, for an outpoint that is not cached. *)
Lemma Emplace_spec c o x :
  cache_ok c -> IsSpent x = false -> cacheCoins c !! o = None ->
  cache_ok (EmplaceCoinInternalDANGER usage c o x) /\
  forall o', cache_utxo (EmplaceCoinInternalDANGER usage c o x) o' = if decide (o' = o) then Some x else cache_utxo c o'.
Proof using.
  intros (Hv & He & Hu) Hx E. unfold EmplaceCoinInternalDANGER. rewrite E. split.
  - split; [done|]. cbn [base cacheCoins cachedCoinsUsage]. split.
    + apply map_Forall_insert_2; [|done]. split; [by left; split; [|right; left]|done].
    + rewrite total_insert by done. rewrite Hu, u64_plus. cbn [coin]. f_equal. lia.
  - intros o'. rewrite cache_utxo_insert. case_decide; [|by destruct c]. unfold entry_utxo. cbn [coin]. by rewrite Hx.
Qed.

Lemma Uncache_spec c o :
  cache_ok c ->
  cache_ok (Uncache usage c o) /\ cache_best (Uncache usage c o) = cache_best c /\
  forall o', cache_utxo (Uncache usage c o) o' = cache_utxo c o'.
Proof using.
  intros Hok. pose proof Hok as (Hv & He & Hu). unfold Uncache. destruct (cacheCoins c !! o) as [e|] eqn:E; [|done].
  destruct (flags e =? 0) eqn:Ef; [|done]. cases_bool. destruct (He o e E) as (Hval & Hfr & Hd).
  split; [|split; [done|]].
  - split; [done|]. cbn [base cacheCoins cachedCoinsUsage]. split; [by apply map_Forall_delete|].
    rewrite Hu, u64_minus, (total_delete usage _ o e E). f_equal. lia.
  - intros o'. rewrite cache_utxo_delete. case_decide as F; [|by destruct c]. subst. unfold cache_utxo. rewrite E.
    symmetry. apply Hd. unfold is_dirty. by rewrite Ef.
Qed.

(** ** Bulk writes *)

(** An entry moved up from the cache above. *)
Lemma moved_entry u o it :
  valid_entry it -> is_dirty it = true -> (is_fresh it = true -> u o = None) ->
  entry_ok u o (mkEntry (coin it) (if is_fresh it then Z.lor DIRTY FRESH else DIRTY)).
Proof using.
  intros Hval Hd Hfr. unfold entry_ok, is_fresh, is_dirty in *. cbn [coin flags].
  entry_cases Hval; rewrite Hf in *; cbn in *; try done; (split; [|split; [done|done]]).
  - by left; split; [|right; left].
  - by left; split; [|right; right].
  - by right; split; [|right].
Qed.

(** An entry that replaces one of the cache. *)
Lemma replaced_entry u o it us :
  valid_entry it -> entry_ok u o us -> (is_fresh us && IsSpent (coin it)) = false ->
  entry_ok u o (mkEntry (coin it) (Z.lor (flags us) DIRTY)).
Proof using.
  intros Hval (Hvus & Hfr & _) Hno. unfold entry_ok, is_fresh, is_dirty in *. cbn [coin flags].
  destruct (IsSpent (coin it)) eqn:Es.
  - rewrite andb_true_r in Hno. entry_cases Hvus; rewrite Hf in *; cbn in *; try done; (split; [by right; split; [|right]|done]).
  - entry_cases Hvus; rewrite Hf in *; cbn in *; (split; [|done]); try (by left; split; [|right; left]); by left; split; [|right; right].
Qed.

Lemma write_entry_spec c p :
  cache_ok c -> valid_entry p.2 -> fresh_ok (cache_utxo c) p ->
  exists c', write_entry usage c p = inr c' /\ cache_ok c' /\ hashBlock c' = hashBlock c /\ base c' = base c /\
    forall o, cache_utxo c' o = apply_entry (cache_utxo c) p o.
Proof using.
  destruct p as [o it]. intros Hok Hval Hfr. pose proof Hok as (Hv & He & Hu). unfold fresh_ok in Hfr. cbn [fst snd] in *.
  unfold write_entry, apply_entry. cbn [fst snd]. destruct (is_dirty it) eqn:Ed; [|by exists c]. cbn [negb].
  destruct (cacheCoins c !! o) as [us|] eqn:E.
  - destruct (He o us E) as (Hvus & Hfus & Hdus).
    assert (is_fresh it && negb (IsSpent (coin us)) = false) as ->.
    { destruct (is_fresh it); [|done]. specialize (Hfr eq_refl). unfold cache_utxo, entry_utxo in Hfr. rewrite E in Hfr.
      by destruct (IsSpent (coin us)). }
    destruct (is_fresh us && IsSpent (coin it)) eqn:Eb; eexists; (split; [done|]).
    + split; [|split; [done|split; [done|]]].
      * split; [done|]. cbn [base cacheCoins cachedCoinsUsage]. split; [by apply map_Forall_delete|].
        rewrite Hu, u64_minus, (total_delete usage _ o us E). f_equal. lia.
      * intros o'. rewrite cache_utxo_delete. cases_bool. case_decide; [|by destruct c]. unfold entry_utxo. rewrite H0. by apply Hfus.
    + split; [|split; [done|split; [done|]]].
      * split; [done|]. cbn [base cacheCoins cachedCoinsUsage]. split.
        -- apply map_Forall_insert_2; [|done]. by apply replaced_entry.
        -- rewrite (total_update usage _ _ us) by done. rewrite Hu, u64_minus, u64_plus. done.
      * intros o'. rewrite cache_utxo_insert. case_decide; [done|]. by destruct c.
  - destruct (is_fresh it && IsSpent (coin it)) eqn:Eb; cbn [negb].
    + exists c. repeat (split; [done|]). intros o'. case_decide; [|done]. subst. cases_bool. unfold entry_utxo. rewrite H0. by apply Hfr.
    + eexists. split; [done|]. split; [|split; [done|split; [done|]]].
      * split; [done|]. cbn [base cacheCoins cachedCoinsUsage]. split.
        -- apply map_Forall_insert_2; [|done]. apply moved_entry; [done|done|]. intros F. specialize (Hfr F).
           unfold cache_utxo in Hfr. by rewrite E in Hfr.
        -- rewrite total_insert by done. rewrite Hu, u64_plus. cbn [coin]. f_equal. lia.
      * intros o'. rewrite cache_utxo_insert. case_decide; [done|]. by destruct c.
Qed.

Lemma write_loop_spec es c :
  cache_ok c -> NoDup es.*1 -> Forall (fresh_ok (cache_utxo c)) es -> Forall (fun p => valid_entry p.2) es ->
  exists c', write_loop usage c es = inr c' /\ cache_ok c' /\ hashBlock c' = hashBlock c /\ base c' = base c /\
    forall o, cache_utxo c' o = fold_left apply_entry es (cache_utxo c) o.
Proof using.
  revert c. induction es as [|p es IH]; intros c Hok Hnd Hfr Hval; [by exists c|].
  inversion Hfr as [|? ? Hp Hfr']; subst. inversion Hval as [|? ? Hvp Hval']; subst. cbn [fmap list_fmap] in Hnd.
  apply NoDup_cons in Hnd as [Hnin Hnd].
  destruct (write_entry_spec c p Hok Hvp Hp) as (c1 & E1 & Hok1 & Hh1 & Hb1 & Hu1).
  destruct (IH c1 Hok1 Hnd) as (c2 & E2 & Hok2 & Hh2 & Hb2 & Hu2); [|done|].
  - apply Forall_forall. intros q Hq Hfq. rewrite Hu1. unfold apply_entry.
    assert (q.1 <> p.1) as Hne by (intros F; apply Hnin; rewrite <- F; by apply list_elem_of_fmap_2).
    rewrite decide_False by done. rewrite Forall_forall in Hfr'. specialize (Hfr' q Hq Hfq). by destruct (is_dirty p.2).
  - exists c2. cbn [write_loop]. rewrite E1. split; [exact E2|]. split; [done|]. split; [congruence|]. split; [congruence|].
    intros o. rewrite Hu2. cbn [fold_left]. clear -Hu1. revert o. assert (forall o, cache_utxo c1 o = apply_entry (cache_utxo c) p o) as E by done.
    clear Hu1. generalize dependent (cache_utxo c1). generalize (apply_entry (cache_utxo c) p).
    induction es as [|q es IH]; intros f g Hfg o; [by rewrite Hfg|]. cbn [fold_left]. apply IH. intros o'. unfold apply_entry.
    destruct (is_dirty q.2); [|done]. by case_decide.
Qed.

Lemma Cache_BatchWrite_spec c es h :
  cache_ok c -> NoDup es.*1 -> Forall (fresh_ok (cache_utxo c)) es -> Forall (fun p => valid_entry p.2) es -> Blob.IsNull h = false ->
  exists ok c', Cache_BatchWrite usage c es h = inr (ok, c') /\
    (ok = true -> cache_ok c' /\ cache_best c' = h /\ forall o, cache_utxo c' o = fold_left apply_entry es (cache_utxo c) o).
Proof using.
  intros Hok Hnd Hfr Hval Hh. destruct (write_loop_spec es c Hok Hnd Hfr Hval) as (c1 & E1 & Hok1 & _ & _ & Hu1).
  exists true, (SetBestBlock c1 h). unfold Cache_BatchWrite. rewrite E1. split; [done|]. intros _.
  split; [by destruct Hok1|]. split; [|exact Hu1]. unfold cache_best. cbn. by rewrite Hh.
Qed.

Lemma Cache_GetBestBlock_spec c :
  cache_ok c ->
  let '(h, c') := Cache_GetBestBlock c in
  cache_ok c' /\ (forall o', cache_utxo c' o' = cache_utxo c o') /\ cache_best c' = cache_best c /\ h = cache_best c.
Proof using.
  intros Hok. pose proof Hok as (Hv & He & Hu). unfold Cache_GetBestBlock, cache_best. destruct (Blob.IsNull (hashBlock c)) eqn:E; [|by rewrite E].
  pose proof (GetBestBlock_spec (base c) Hv) as HG. destruct (GetBestBlock (base c)) as [h b]. destruct HG as (Hb & Hbu & Hbb & ->).
  pose proof (cache_ok_base c b Hok Hb Hbu) as (H1 & H2 & H3). split; [done|]. split.
  - intros o'. unfold cache_utxo. cbn [cacheCoins base]. destruct (cacheCoins c !! o'); [done|apply Hbu].
  - cbn. rewrite Hbb. by destruct (Blob.IsNull (best (base c))).
Qed.

(** The cache implements the interface it uses. *)
#[global] Instance Cache_CoinsView : CoinsView Cache := {|
  GetCoin := Cache_GetCoin usage;
  GetBestBlock := Cache_GetBestBlock;
  BatchWrite := Cache_BatchWrite usage;
  utxo := cache_utxo;
  best := cache_best;
  view_ok := cache_ok;
  utxo_unspent := cache_utxo_unspent;
  GetCoin_spec := Cache_GetCoin_spec;
  GetBestBlock_spec := Cache_GetBestBlock_spec;
  BatchWrite_spec := Cache_BatchWrite_spec
|}.

(** Writing all entries of a cache gives its own set of coins. *)
Lemma apply_entries m es u :
  es ≡ₚ map_to_list m -> map_Forall (entry_ok u) m ->
  forall o, fold_left apply_entry es u o = match m !! o with Some e => entry_utxo e | None => u o end.
Proof using.
  intros Hes Hm o. assert (NoDup es.*1) as Hnd by (rewrite Hes; apply NoDup_fst_map_to_list).
  assert (forall k e, (k, e) ∈ es -> entry_ok u k e) as Hall.
  { intros k e Hin. apply Hm. apply elem_of_map_to_list. by rewrite <- Hes. }
  assert (m !! o = (list_to_map es : CCoinsMap) !! o) as ->.
  { f_equal. rewrite <- (list_to_map_to_list m). symmetry. by apply list_to_map_proper. }
  clear Hes Hm.
  assert (forall v, (forall k e, (k, e) ∈ es -> entry_ok u k e -> v k = u k) ->
    fold_left apply_entry es v o = match (list_to_map es : CCoinsMap) !! o with Some e => entry_utxo e | None => v o end) as Hgo; [|by apply Hgo].
  induction es as [|[k e] es IH]; intros v Hv; [done|]. cbn [fold_left]. cbn [fmap list_fmap] in Hnd. apply NoDup_cons in Hnd as [Hnin Hnd].
  cbn [list_to_map foldr fst snd]. assert (entry_ok u k e) as Hk by (apply Hall; by left).
  rewrite IH; [|done|intros k' e' Hin; apply Hall; by right|].
  - destruct (decide (o = k)) as [->|Hne].
    + rewrite lookup_insert_eq. assert ((list_to_map es : CCoinsMap) !! k = None) as -> by (by apply not_elem_of_list_to_map_1).
      unfold apply_entry. cbn [fst snd]. rewrite decide_True by done. destruct (is_dirty e) eqn:Ed; [done|].
      destruct Hk as (_ & _ & Hd). rewrite Hd by done. apply (Hv k e); [by left|]. apply Hall. by left.
    + rewrite lookup_insert_ne by done. destruct (_ !! o); [done|]. unfold apply_entry. cbn [fst snd]. rewrite decide_False by done. by destruct (is_dirty e).
  - intros k' e' Hin Hok'. unfold apply_entry. cbn [fst snd]. rewrite decide_False.
    + destruct (is_dirty e); apply (Hv k' e'); [by right|done|by right|done].
    + intros ->. apply Hnin. by apply (list_elem_of_fmap_2 fst _ (k, e')).
Qed.

Lemma Flush_spec iter c :
  cache_ok c -> (forall m, iter m ≡ₚ map_to_list m) -> Blob.IsNull (hashBlock c) = false ->
  exists ok c', Flush iter c = inr (ok, c') /\
    (ok = true -> cache_ok c' /\ cacheCoins c' = ∅ /\ best (base c') = hashBlock c /\
     (forall o, cache_utxo c' o = cache_utxo c o) /\ (forall o, utxo (base c') o = cache_utxo c o)).
Proof using.
  intros Hok Hiter Hh. pose proof Hok as (Hv & He & Hu). unfold Flush.
  destruct (BatchWrite_spec (base c) (iter (cacheCoins c)) (hashBlock c)) as (ok & b & E & HB); try done.
  - rewrite Hiter. apply NoDup_fst_map_to_list.
  - apply Forall_forall. intros [o e] Hin. rewrite Hiter in Hin. apply elem_of_map_to_list in Hin. by destruct (He o e Hin) as (_ & ? & _).
  - apply Forall_forall. intros [o e] Hin. rewrite Hiter in Hin. apply elem_of_map_to_list in Hin. by destruct (He o e Hin) as (? & _).
  - exists ok, (mkCache b (hashBlock c) ∅ 0). rewrite E. split; [done|]. intros Ht. destruct (HB Ht) as (Hb & Hbb & Hbu).
    assert (forall o, utxo b o = cache_utxo c o) as Ho.
    { intros o. rewrite Hbu. rewrite (apply_entries (cacheCoins c)); [done|apply Hiter|done]. }
    split; [split; [done|split; [apply map_Forall_empty|done]]|]. repeat (split; [done|]). done.
Qed.

End Cache.

End CoinsTheory.
