(* ===== verification/CoinsMachine.v ===== *)
(** * The coins cache as a state machine ([coins.h], [coins.cpp])

    Sequences of operations on a cache against an abstract set of unspent coins
    over a stored one: reads answer from the set, additions and spends change
    it, and a flush makes it the stored one.  The cache refines this machine over
    any view whose writes succeed, another cache included. *)
From stdpp Require Import prelude gmap.
From S2P Require Import Prelude Uint256 Serialize Transaction Coins CoinsTheory.

Module CoinsMachine.
Import Transaction Coins CoinsTheory.

(** ** The base class: a view without coins, which refuses writes *)

Definition CCoinsView : Type := unit.
Definition View_GetCoin (v : CCoinsView) (o : COutPoint) : bool * Coin * CCoinsView := (false, coinEmpty, v).
Definition View_GetBestBlock (v : CCoinsView) : list Z * CCoinsView := (Blob.null 32, v).
Definition View_BatchWrite (v : CCoinsView) (es : list (COutPoint * CCoinsCacheEntry)) (h : list Z) : result (bool * CCoinsView) :=
  inr (false, v).

#[global, refine] Instance View_CoinsView : CoinsView CCoinsView := {|
  GetCoin := View_GetCoin;
  GetBestBlock := View_GetBestBlock;
  BatchWrite := View_BatchWrite;
  utxo _ _ := None;
  best _ := Blob.null 32;
  view_ok _ := True
|}.
Proof.
  - done.
  - by intros.
  - by intros.
  - intros. by exists false, s.
Defined.

(** ** Operations *)

Inductive op :=
| OAdd (o : COutPoint) (x : Coin) (possible_overwrite skipZeroValue : bool)
| OSpend (o : COutPoint)
| OGet (o : COutPoint)
| OAccess (o : COutPoint)
| OHave (o : COutPoint)
| OUncache (o : COutPoint)
| OSetBest (h : list Z)
| OBest
| OFlush.

(** What a call returns. *)
Inductive answer := ANone | ACoin (ok : bool) (x : Coin) | AAccess (x : Coin) | ABool (b : bool) | AHash (h : list Z).

Section Machine.
Context {S : Type} {V : CoinsView S} (usage : Coin -> Z).
Context (iter : CCoinsMap -> list (COutPoint * CCoinsCacheEntry)).
Abbreviation Cache := (@CCoinsViewCache S).

Definition run_op (c : Cache) (p : op) : result (answer * Cache) :=
  match p with
  | OAdd o x ov skip => c ← AddCoin usage c o x ov skip; inr (ANone, c)
  | OSpend o => let '(ok, x, c) := SpendCoin usage c o in inr (ACoin ok x, c)
  | OGet o => let '(ok, x, c) := Cache_GetCoin usage c o in inr (ACoin ok x, c)
  | OAccess o => let '(x, c) := AccessCoin usage c o in inr (AAccess x, c)
  | OHave o => let '(b, c) := HaveCoin usage c o in inr (ABool b, c)
  | OUncache o => inr (ANone, Uncache usage c o)
  | OSetBest h => inr (ANone, SetBestBlock c h)
  | OBest => let '(h, c) := Cache_GetBestBlock c in inr (AHash h, c)
  | OFlush => '(ok, c) ← Flush iter c; inr (ABool ok, c)
  end.

Fixpoint run_ops (c : Cache) (ps : list op) : result (list answer * Cache) :=
  match ps with
  | [] => inr ([], c)
  | p :: r => '(a, c) ← run_op c p; '(l, c) ← run_ops c r; inr (a :: l, c)
  end.
End Machine.

(** ** The abstract machine *)

Record coins_state := mkState { unspent : COutPoint -> option Coin; tip : list Z; stored : COutPoint -> option Coin }.

Definition set_coin (u : COutPoint -> option Coin) (o : COutPoint) (x : option Coin) : COutPoint -> option Coin :=
  fun o' => if decide (o' = o) then x else u o'.

(** When a caller may use an operation. *)
Definition allowed (a : coins_state) (p : op) : Prop :=
  match p with
  | OAdd o x ov _ => IsSpent x = false /\ (ov = false -> unspent a o = None)
  | OSetBest h => Blob.IsNull h = false
  | _ => True
  end.

Definition next (a : coins_state) (p : op) : coins_state :=
  match p with
  | OAdd o x _ skip => if skipped x skip then a else mkState (set_coin (unspent a) o (Some x)) (tip a) (stored a)
  | OSpend o => mkState (set_coin (unspent a) o None) (tip a) (stored a)
  | OSetBest h => mkState (unspent a) h (stored a)
  | OFlush => mkState (unspent a) (tip a) (unspent a)
  | _ => a
  end.

(** What an answer says of the state the call is made in.  Spending a coin that
    is not there is reported, or gives a spent coin. *)
Definition answers (a : coins_state) (p : op) (r : answer) : Prop :=
  match p, r with
  | OAdd _ _ _ _, ANone | OUncache _, ANone | OSetBest _, ANone => True
  | OSpend o, ACoin ok x =>
      match unspent a o with Some y => ok = true /\ x = y | None => ok = false \/ IsSpent x = true end
  | OGet o, ACoin ok x => unspent a o = (if ok then Some x else None)
  | OAccess o, AAccess x => unspent a o = (if IsSpent x then None else Some x)
  | OHave o, ABool b => b = bool_decide (is_Some (unspent a o))
  | OBest, AHash h => h = tip a
  | OFlush, ABool ok => ok = true
  | _, _ => False
  end.

(** Every operation of a sequence is allowed where it is made. *)
Fixpoint all_allowed (a : coins_state) (ps : list op) : Prop :=
  match ps with [] => True | p :: r => allowed a p /\ all_allowed (next a p) r end.
Fixpoint all_answers (a : coins_state) (ps : list op) (rs : list answer) : Prop :=
  match ps, rs with
  | [], [] => True
  | p :: ps, r :: rs => answers a p r /\ all_answers (next a p) ps rs
  | _, _ => False
  end.

(** ** Refinement *)

Section Refinement.
Context {S : Type} {V : CoinsView S} (usage : Coin -> Z) (usage_empty : usage coinEmpty = 0).
Context (iter : CCoinsMap -> list (COutPoint * CCoinsCacheEntry)) (iter_perm : forall m, iter m ≡ₚ map_to_list m).
(** The view below does not fail to write. *)
Context (writes : forall s es h ok s', BatchWrite (S := S) s es h = inr (ok, s') -> ok = true).
Abbreviation Cache := (@CCoinsViewCache S).

Definition refines (c : Cache) (a : coins_state) : Prop :=
  cache_ok usage c /\ Blob.IsNull (hashBlock c) = false /\ hashBlock c = tip a /\
  (forall o, cache_utxo c o = unspent a o) /\ (forall o, utxo (base c) o = stored a o).

Lemma FetchCoin_base (c : Cache) o :
  cache_ok usage c -> forall o', utxo (base (FetchCoin usage c o).2) o' = utxo (base c) o'.
Proof using.
  intros (Hv & _ & _) o'. unfold FetchCoin. destruct (cacheCoins c !! o); [done|]. pose proof (GetCoin_spec (base c) o Hv) as HG.
  destruct (GetCoin (base c) o) as [[ok x] b]. destruct HG as (_ & Hu & _). destruct ok; apply Hu.
Qed.

(** A read: nothing changes but what is cached. *)
Lemma fetch_refines (c : Cache) a o e c' :
  refines c a -> FetchCoin usage c o = (e, c') -> refines c' a /\ unspent a o = (e ← e; entry_utxo e).
Proof using.
  intros (Hok & Hn & Ht & Hu & Hs) E. pose proof (FetchCoin_spec usage c o Hok) as HF. pose proof (FetchCoin_base c o Hok) as Hb.
  rewrite E in HF, Hb. destruct HF as (Hok' & Hu' & _ & Hh & _ & He). cbn [snd] in Hb. rewrite <- Hu, He. split; [|done].
  unfold refines. rewrite Hh. repeat (split; [done|]). split; intros o'; [by rewrite Hu'|by rewrite Hb].
Qed.

(** Spending, from the entry that was fetched. *)
Lemma SpendCoin_base (c : Cache) o :
  cache_ok usage c -> forall o', utxo (base (SpendCoin usage c o).2) o' = utxo (base c) o'.
Proof using.
  intros Hok o'. pose proof (FetchCoin_base c o Hok o') as Hb. unfold SpendCoin. by destruct (FetchCoin usage c o) as [[e|] c'].
Qed.

Lemma AddCoin_base (c : Cache) o x ov skip c' : AddCoin usage c o x ov skip = inr c' -> base c' = base c.
Proof using.
  unfold AddCoin. repeat (case_if; [done || by intros [= <-]|]). by intros [= <-].
Qed.

Lemma step_refines (c : Cache) a p :
  refines c a -> allowed a p ->
  exists r c', run_op usage iter c p = inr (r, c') /\ answers a p r /\ refines c' (next a p).
Proof using usage_empty iter_perm writes.
  intros HR Hp. pose proof HR as (Hok & Hn & Ht & Hu & Hs). destruct p as [o x ov skip|o|o|o|o|o|h| |]; cbn [run_op allowed answers] in *.
  - destruct Hp as [Hx Hov]. destruct (AddCoin_spec usage usage_empty c o x ov skip Hok Hx) as (c' & E & Hok' & Hh & _ & Hu').
    { intros F. rewrite Hu. by apply Hov. }
    exists ANone, c'. rewrite E. split; [done|]. split; [done|]. unfold refines. rewrite Hh, (AddCoin_base _ _ _ _ _ _ E).
    cbn [next]. destruct (skipped x skip); cbn [unspent tip stored]; repeat (split; [done|]); (split; [|done]); intros o'; rewrite Hu'.
    + case_decide; [subst; apply Hu|apply Hu].
    + unfold set_coin. case_decide; [done|apply Hu].
  - pose proof (SpendCoin_spec usage usage_empty c o Hok) as HS. pose proof (SpendCoin_base c o Hok) as Hb.
    destruct (SpendCoin usage c o) as [[ok x] c']. destruct HS as (Hok' & Hh & _ & Hu' & H1 & H2). eexists _, _. split; [done|]. cbn [snd] in Hb.
    rewrite Hu in H1, H2. split; [destruct (unspent a o); [by apply H1|by apply H2]|]. unfold refines. rewrite Hh. cbn [next unspent tip stored].
    repeat (split; [done|]). split; intros o'; [|by rewrite Hb]. rewrite Hu'. unfold set_coin. case_decide; [done|apply Hu].
  - unfold Cache_GetCoin. destruct (FetchCoin usage c o) as [e c'] eqn:E. destruct (fetch_refines c a o e c' HR E) as [HR' He].
    destruct e as [e|]; eexists _, _; (split; [done|split; [|done]]); rewrite He; cbn; [|done]. unfold entry_utxo. by destruct (IsSpent (coin e)).
  - unfold AccessCoin. destruct (FetchCoin usage c o) as [e c'] eqn:E. destruct (fetch_refines c a o e c' HR E) as [HR' He].
    destruct e as [e|]; eexists _, _; (split; [done|split; [|done]]); by rewrite He.
  - unfold HaveCoin. destruct (FetchCoin usage c o) as [e c'] eqn:E. destruct (fetch_refines c a o e c' HR E) as [HR' He].
    destruct e as [e|]; eexists _, _; (split; [done|split; [|done]]); rewrite He; cbn; [|done]. unfold entry_utxo. by destruct (IsSpent (coin e)).
  - eexists _, _. split; [done|]. split; [done|]. destruct (Uncache_spec usage c o Hok) as (Hok' & _ & Hu').
    assert (hashBlock (Uncache usage c o) = hashBlock c /\ base (Uncache usage c o) = base c) as [Hh Hb].
    { unfold Uncache. destruct (cacheCoins c !! o); [by case_if|done]. }
    unfold refines. rewrite Hh, Hb. repeat (split; [done|]). split; [|done]. intros o'. by rewrite Hu'.
  - eexists _, _. split; [done|]. split; [done|]. destruct Hok as (H1 & H2 & H3). by split_and!.
  - unfold Cache_GetBestBlock. rewrite Hn. eexists _, _. split; [done|]. done.
  - destruct (Flush_spec usage iter c Hok iter_perm Hn) as (ok & c' & E & HF). rewrite E.
    assert (ok = true) as ->.
    { unfold Flush in E. destruct (BatchWrite (base c) _ _) as [|[b s']] eqn:EB; [done|]. apply writes in EB as ->. by injection E. }
    destruct (HF eq_refl) as (Hok' & _ & _ & Hu' & Hb'). assert (hashBlock c' = hashBlock c) as Hh.
    { unfold Flush in E. destruct (BatchWrite (base c) _ _) as [|[b s']]; [done|]. by injection E as _ <-. }
    eexists _, _. split; [done|]. split; [done|]. unfold refines. rewrite Hh. cbn [next unspent tip stored].
    repeat (split; [done|]). split; intros o'; [by rewrite Hu'|by rewrite Hb'].
Qed.

Lemma run_refines ps c a :
  refines c a -> all_allowed a ps ->
  exists rs c', run_ops usage iter c ps = inr (rs, c') /\ all_answers a ps rs /\ refines c' (fold_left next ps a).
Proof using usage_empty iter_perm writes.
  revert c a. induction ps as [|p ps IH]; intros c a HR Hp; [by exists [], c|]. destruct Hp as [Hp Hps].
  destruct (step_refines c a p HR Hp) as (r & c1 & E1 & Hr & HR1). destruct (IH c1 (next a p) HR1 Hps) as (rs & c2 & E2 & Hrs & HR2).
  exists (r :: rs), c2. cbn [run_ops]. rewrite E1. cbn. rewrite E2. done.
Qed.

End Refinement.

(** C9: A cache over any view whose writes succeed refines the abstract machine: a
    sequence of allowed calls raises no error, every answer is the one the set
    of unspent coins gives, the view below changes only when the cache is
    flushed, and then it holds exactly that set. *)
Theorem cache_refinement {S} {V : CoinsView S} usage iter (c : @CCoinsViewCache S) a ps
  (usage_empty : usage coinEmpty = 0) (iter_perm : forall m, iter m ≡ₚ map_to_list m)
  (writes : forall s es h ok s', BatchWrite (S := S) s es h = inr (ok, s') -> ok = true)
  (HR : refines usage c a) (Hps : all_allowed a ps) :
  exists rs c', run_ops usage iter c ps = inr (rs, c') /\ all_answers a ps rs /\ refines usage c' (fold_left next ps a).
Proof. by apply run_refines. Qed.

(** The cache that a cache is stacked on never refuses a write. *)
Lemma stacked_writes {S} {V : CoinsView S} usage s es h ok s' :
  @BatchWrite _ (Cache_CoinsView usage) s es h = inr (ok, s') -> ok = true.
Proof.
  cbn. unfold Cache_BatchWrite. destruct (write_loop usage s es); [done|]. by intros [= <- _].
Qed.

(** The state right after the best block of a fresh cache is set. *)
Lemma fresh_cache_refines {S} {V : CoinsView S} usage b h :
  view_ok b -> Blob.IsNull h = false -> refines usage (SetBestBlock (CCoinsViewCache_init b) h) (mkState (utxo b) h (utxo b)).
Proof. intros Hb Hh. split; [split; [done|split; [apply map_Forall_empty|done]]|]. done. Qed.


(** ** A cache over a cache over the empty view *)

Definition one_block : list Z := repeat 1 32.
Definition outpoint_a : COutPoint := mkOutPoint (repeat 2 32) 0.
Definition some_coin : Coin := mkCoin (mkTxOut 50 [1; 2]) true 3 false 1600000000.
Definition script_usage (x : Coin) : Z := length (scriptPubKey (out x)).
#[local] Instance lower : CoinsView (@CCoinsViewCache CCoinsView) := Cache_CoinsView script_usage.
Definition trace : list op :=
  [OAdd outpoint_a some_coin false true; OGet outpoint_a; OFlush; OHave outpoint_a; OSpend outpoint_a; OSpend outpoint_a; OBest].

Lemma trace_allowed u : all_allowed (mkState (fun _ => None) one_block u) trace.
Proof. repeat split. Qed.

Lemma cache_refinement_witness :
  exists rs c', run_ops script_usage map_to_list (SetBestBlock (CCoinsViewCache_init (CCoinsViewCache_init tt)) one_block) trace = inr (rs, c') /\
    all_answers (mkState (fun _ => None) one_block (fun _ => None)) trace rs /\
    refines script_usage c' (fold_left next trace (mkState (fun _ => None) one_block (fun _ => None))).
Proof.
  apply cache_refinement.
  - reflexivity.
  - intros m. reflexivity.
  - intros s es h ok s'. apply stacked_writes.
  - split; [split; [|split; [apply map_Forall_empty|reflexivity]]|].
    + split; [exact I|split; [apply map_Forall_empty|reflexivity]].
    + repeat split.
  - apply trace_allowed.
Defined.


End CoinsMachine.
