(* ===== verification/Undo.v ===== *)
(** * Stored coins and undo data ([coins.h], [undo.h])

    The format of a coin in the coins database and of the spent coins kept with
    each block to disconnect it.  Both are read back exactly within their
    bounds: the height of a coin has 31 bits, but only 30 of them fit in the
    undo format. *)
From stdpp Require Import prelude gmap.
From S2P Require Import Prelude Serialize Transaction Compressor Coins.

Module Undo.
Import Serialize Transaction Compressor Coins.

Section Formats.
Context (IsFullyValid : list Z -> bool) (Decompress : list Z -> option (list Z)).

(** [Coin::Serialize]; [None] is the failed assertion. *)
Definition Coin_Ser (c : Coin) : option (list Z) :=
  if IsSpent c then None
  else
    let code := u32 (u32 (nHeight c * 2) + Z.b2z (fCoinBase c)) in
    b1 ← WriteVarInt 32 code;
    b2 ← TxOut_Ser IsFullyValid (out c);
    b3 ← WriteVarInt 32 (if fCoinStake c then 1 else 0);
    b4 ← WriteVarInt 32 (coinTime c);
    Some (b1 ++ b2 ++ b3 ++ b4).

Definition Coin_Unser : Reader Coin :=
  code ← ReadVarInt (2 ^ 32 - 1);
  let nHeight := uwrap 31 (Z.shiftr code 1) in
  let fCoinBase := negb (Z.land code 1 =? 0) in
  out ← TxOut_Unser Decompress;
  nFlag ← ReadVarInt (2 ^ 32 - 1);
  let fCoinStake := negb (Z.land nFlag 1 =? 0) in
  nTime ← ReadVarInt (2 ^ 32 - 1);
  mret (mkCoin out fCoinBase nHeight fCoinStake nTime).

(** [TxInUndoFormatter]: the dummy byte stands for the version of older files. *)
Definition TxInUndo_Ser (txout : Coin) : option (list Z) :=
  let nCode := u32 (u32 (u32 (nHeight txout * 4) + Z.b2z (fCoinBase txout)) + (if fCoinStake txout then 2 else 0)) in
  b1 ← WriteVarInt 32 nCode;
  b2 ← WriteVarInt 32 (coinTime txout);
  let b3 := if 0 <? nHeight txout then [0] else [] in
  b4 ← TxOut_Ser IsFullyValid (out txout);
  Some (b1 ++ b2 ++ b3 ++ b4).

Definition TxInUndo_Unser : Reader Coin :=
  nCode ← ReadVarInt (2 ^ 32 - 1);
  let nHeight := uwrap 31 (Z.shiftr nCode 2) in
  let fCoinBase := negb (Z.land nCode 1 =? 0) in
  let fCoinStake := negb (Z.land nCode 2 =? 0) in
  nTime ← ReadVarInt (2 ^ 32 - 1);
  _ ← (if 0 <? nHeight then ReadVarInt (2 ^ 32 - 1) else mret 0);
  out ← TxOut_Unser Decompress;
  mret (mkCoin out fCoinBase nHeight fCoinStake nTime).

Definition CTxUndo : Type := list Coin.
Definition CBlockUndo : Type := list CTxUndo.

(** A vector whose elements may refuse to be written. *)
Definition Vector_SerO {A} (ser : A -> option (list Z)) (v : list A) : option (list Z) :=
  bs ← mapM ser v; Some (WriteCompactSize (length v) ++ concat bs).

Section Sizes.
(** The sizes of the element types in memory, which bound what is allocated at
    a time. *)
Context (szCoin szTxUndo : Z).

Definition CTxUndo_Ser : CTxUndo -> option (list Z) := Vector_SerO TxInUndo_Ser.
Definition CTxUndo_Unser : Reader CTxUndo := Vector_Unser TxInUndo_Unser szCoin.
Definition CBlockUndo_Ser : CBlockUndo -> option (list Z) := Vector_SerO CTxUndo_Ser.
Definition CBlockUndo_Unser : Reader CBlockUndo := Vector_Unser CTxUndo_Unser szTxUndo.
End Sizes.

End Formats.

(** ** Vectors of writers that may refuse *)

Lemma Vector_restores {A} (ser : A -> option (list Z)) (unser : Reader A) sizeof v :
  0 < sizeof <= MAX_VECTOR_ALLOCATE -> length v <= MAX_SIZE -> Forall (restores ser unser) v ->
  restores (Vector_SerO ser) (Vector_Unser unser sizeof) v.
Proof.
  intros Hsize Hlen Hv. set (f := fun x => default [] (ser x)).
  assert (forall x, restores ser unser x -> ser x = Some (f x) /\ forall rest, unser (f x ++ rest) = inr (x, rest)) as Hf.
  { intros x (b & Hb & Hr). unfold f. by rewrite Hb. }
  exists (Vector_Ser f v). split.
  - unfold Vector_SerO. assert (mapM ser v = Some (map f v)) as ->; [|done].
    apply mapM_Some. clear Hlen. induction Hv as [|x v Hx Hv IH]; constructor; [by apply Hf|done].
  - intros rest. apply (Vector_Unser_Ser f unser (restores ser unser)); [|done..]. intros x r Hx. by apply Hf.
Qed.

(** ** Coins *)

(** What the 32 bits of the code of a coin hold. *)
Lemma coin_code h (b : bool) :
  0 <= h < 2 ^ 31 -> let code := u32 (u32 (h * 2) + Z.b2z b) in
  in_u 32 code /\ uwrap 31 (Z.shiftr code 1) = h /\ negb (Z.land code 1 =? 0) = b.
Proof.
  intros Hh code. assert (code = Z.b2z b + h * 2) as E.
  { unfold code. rewrite (u32_small (h * 2)) by (unfold in_u; lia). rewrite u32_small by (unfold in_u; destruct b; cbn; lia). lia. }
  rewrite E. clear E code. rewrite land_1, Z.shiftr_div_pow2 by lia. change (2 ^ 1) with 2. rewrite Z_mod_plus_full, Z.div_add by lia.
  assert (in_u 31 h) by (unfold in_u; lia). destruct b; cbn [Z.b2z]; rewrite uwrap_small by done; (split_and!; [unfold in_u; lia|done|done]).
Qed.

(** The same for undo data, which shifts the height by two bits. *)
Lemma undo_code h (b s : bool) :
  0 <= h < 2 ^ 30 -> let code := u32 (u32 (u32 (h * 4) + Z.b2z b) + (if s then 2 else 0)) in
  in_u 32 code /\ uwrap 31 (Z.shiftr code 2) = h /\ negb (Z.land code 1 =? 0) = b /\ negb (Z.land code 2 =? 0) = s.
Proof.
  intros Hh code. assert (code = (Z.b2z b + (if s then 2 else 0)) + h * 4) as E.
  { unfold code. rewrite (u32_small (h * 4)) by (unfold in_u; lia). rewrite (u32_small (_ + Z.b2z b)) by (unfold in_u; destruct b; cbn; lia).
    rewrite u32_small by (unfold in_u; destruct b, s; cbn; lia). lia. }
  rewrite E. clear E code. set (d := Z.b2z b + (if s then 2 else 0)). assert (0 <= d < 4) by (unfold d; destruct b, s; cbn; lia).
  assert (forall m, 0 <= m < 4 -> Z.land (d + h * 4) m = Z.land d m) as Hland.
  { intros m Hm. rewrite <- (Z.mod_small m (2 ^ 2)), <- Z.land_ones, (Z.land_comm m), !Z.land_assoc, !Z.land_ones by lia.
    change (2 ^ 2) with 4. by rewrite Z_mod_plus_full. }
  rewrite !Hland, Z.shiftr_div_pow2 by lia. change (2 ^ 2) with 4. rewrite Z.div_add, Z.div_small by lia.
  rewrite uwrap_small by (unfold in_u; lia). split_and!; [unfold in_u; lia|done|unfold d; by destruct b, s..].
Qed.

(** ** Round trips *)

(** The fields of a coin within their types, and an output that compresses. *)
Definition coin_fits (bits : Z) (c : Coin) : Prop := in_u bits (nHeight c) /\ in_u 32 (coinTime c) /\ compressible (out c).

Section Theory.
Context (IsFullyValid : list Z -> bool) (Decompress : list Z -> option (list Z)).
Context (Decompress_valid : forall pubkey, length pubkey = 65%nat -> pubkey.[0] = 4 -> IsFullyValid pubkey = true ->
  Decompress ((2 + pubkey.[64] mod 2) :: slice 1 32 pubkey) = Some pubkey).

(** Running one part of a reader on what its writer wrote. *)
Ltac run R := rewrite <- ?app_assoc; refine (eq_trans (bind_inr _ _ _ _ _ (R _)) _).

Lemma Coin_restores c :
  IsSpent c = false -> coin_fits 31 c -> restores (Coin_Ser IsFullyValid) (Coin_Unser Decompress) c.
Proof using Decompress_valid.
  intros Hs (Hh & Ht & Ho). destruct (coin_code (nHeight c) (fCoinBase c) Hh) as (Hc & Eh & Eb).
  destruct (VarInt_restores 32 _ ltac:(lia) Hc) as (b1 & W1 & R1). destruct (TxOut_restores _ _ _ Decompress_valid Ho) as (b2 & W2 & R2).
  destruct (VarInt_restores 32 (if fCoinStake c then 1 else 0)) as (b3 & W3 & R3); [lia|unfold in_u; destruct (fCoinStake c); lia|].
  destruct (VarInt_restores 32 _ ltac:(lia) Ht) as (b4 & W4 & R4).
  exists (b1 ++ b2 ++ b3 ++ b4). unfold Coin_Ser. rewrite Hs, W1, bind_some, W2, bind_some, W3, bind_some, W4, bind_some. split; [done|].
  intros rest. unfold Coin_Unser. run R1. run R2. run R3. run R4. rewrite Eh, Eb. by destruct c as [? ? ? [] ?].
Qed.

Lemma TxInUndo_restores c : coin_fits 30 c -> restores (TxInUndo_Ser IsFullyValid) (TxInUndo_Unser Decompress) c.
Proof using Decompress_valid.
  intros (Hh & Ht & Ho). destruct (undo_code (nHeight c) (fCoinBase c) (fCoinStake c) Hh) as (Hc & Eh & Eb & Es).
  destruct (VarInt_restores 32 _ ltac:(lia) Hc) as (b1 & W1 & R1). destruct (VarInt_restores 32 _ ltac:(lia) Ht) as (b2 & W2 & R2).
  destruct (TxOut_restores _ _ _ Decompress_valid Ho) as (b4 & W4 & R4).
  exists (b1 ++ b2 ++ (if 0 <? nHeight c then [0] else []) ++ b4). unfold TxInUndo_Ser.
  rewrite W1, bind_some, W2, bind_some, W4, bind_some. split; [done|].
  intros rest. unfold TxInUndo_Unser. run R1. run R2. rewrite Eh, Eb, Es.
  destruct (0 <? nHeight c); cbn [app].
  - refine (eq_trans (bind_inr _ _ _ 0 (b4 ++ rest) _) _); [by apply read_byte|]. run R4. by destruct c.
  - refine (eq_trans (bind_inr _ _ _ 0 (b4 ++ rest) _) _); [done|]. run R4. by destruct c.
Qed.

End Theory.

(** Undo data whose vectors and coins are within the limits. *)
Definition undo_fits (u : CBlockUndo) : Prop :=
  length u <= MAX_SIZE /\ Forall (fun t => length t <= MAX_SIZE /\ Forall (coin_fits 30) t) u.

(** A stored coin and the undo data of a block are read back from what was
    written, field by field: an unspent coin of any height of its type, undo
    data of coins below height [2 ^ 30], whatever follows in the file. *)
Theorem stored_coins_roundtrip IsFullyValid Decompress szCoin szTxUndo
  (Decompress_valid : forall pubkey, length pubkey = 65%nat -> pubkey.[0] = 4 -> IsFullyValid pubkey = true ->
    Decompress ((2 + pubkey.[64] mod 2) :: slice 1 32 pubkey) = Some pubkey)
  (HszCoin : 0 < szCoin <= MAX_VECTOR_ALLOCATE) (HszTxUndo : 0 < szTxUndo <= MAX_VECTOR_ALLOCATE) :
  (forall c, IsSpent c = false -> coin_fits 31 c ->
    exists b, Coin_Ser IsFullyValid c = Some b /\ forall rest, Coin_Unser Decompress (b ++ rest) = inr (c, rest)) /\
  (forall u, undo_fits u ->
    exists b, CBlockUndo_Ser IsFullyValid u = Some b /\
      forall rest, CBlockUndo_Unser Decompress szCoin szTxUndo (b ++ rest) = inr (u, rest)).
Proof.
  split; [intros; by apply Coin_restores|].
  intros u [Hu Ht]. apply Vector_restores; [done..|]. eapply Forall_impl; [exact Ht|]. intros t [Hl Hc].
  apply Vector_restores; [done..|]. eapply Forall_impl; [exact Hc|]. intros c Hfit. by apply TxInUndo_restores.
Qed.

(** A coin of the base point's key, and a coinstake's output with a plain script. *)
Definition coin_a : Coin := mkCoin (mkTxOut 1234500 ([65; 4] ++ point_x ++ point_y ++ [OP_CHECKSIG])) true 7 false 1600000000.
Definition coin_b : Coin := mkCoin (mkTxOut 20 [1; 2; 3]) false 0 true 1600000001.

Lemma coin_a_fits : coin_fits 30 coin_a.
Proof. unfold coin_fits, in_u, compressible, Compressor.MAX_SCRIPT_SIZE. cbn -[Z.pow]. lia. Qed.
Lemma coin_b_fits : coin_fits 30 coin_b.
Proof. unfold coin_fits, in_u, compressible, Compressor.MAX_SCRIPT_SIZE. cbn -[Z.pow]. lia. Qed.

Lemma stored_coins_roundtrip_witness :
  exists b, CBlockUndo_Ser point_valid [[coin_a; coin_b]; [coin_a]] = Some b /\
    forall rest, CBlockUndo_Unser point_decompress 56 24 (b ++ rest) = inr ([[coin_a; coin_b]; [coin_a]], rest).
Proof.
  apply (stored_coins_roundtrip point_valid point_decompress 56 24).
  - intros pubkey _ _ ->%bool_decide_eq_true_1. reflexivity.
  - split; [lia|vm_compute; discriminate].
  - split; [lia|vm_compute; discriminate].
  - unfold undo_fits. rewrite !Forall_cons, !Forall_nil. unfold MAX_SIZE.
    pose proof coin_a_fits. pose proof coin_b_fits. cbn [length]. split_and!; (assumption || exact I || lia).
Defined.

(** A height of 31 bits is cut to 30 in undo data: it comes back as another. *)
Lemma undo_height_cut :
  let c := mkCoin (mkTxOut 20 [1]) false (2 ^ 30 + 5) false 0 in
  exists b, TxInUndo_Ser point_valid c = Some b /\
    TxInUndo_Unser point_decompress b = inr (mkCoin (mkTxOut 20 [1]) false 5 false 0, []).
Proof. eexists. split; [vm_compute; reflexivity|vm_compute; reflexivity]. Qed.

End Undo.
