(* ===== verification/BlockCoins.v ===== *)
(** * The coins of a block ([validation.cpp])

    [UpdateCoins], which [ConnectBlock] runs for each transaction, and
    [DisconnectBlock], which undoes a block from its undo data.  Disconnecting
    what was connected restores the set of unspent coins, except for outputs
    without value: these are added unless [skipZeroValue] is set, and never
    removed. *)
From stdpp Require Import prelude gmap.
From S2P Require Import Prelude Uint256 Serialize Transaction Coins CoinsTheory CoinsMachine Undo.

Module BlockCoins.
Import Transaction Coins CoinsTheory CoinsMachine Undo.

(** ** Definitions *)

Inductive DisconnectResult := DISCONNECT_OK | DISCONNECT_UNCLEAN | DISCONNECT_FAILED.

Section Defs.
Context {S : Type} {V : CoinsView S} (usage : Coin -> Z) (GetHash : CTransaction -> list Z).
Abbreviation Cache := (@CCoinsViewCache S).

Fixpoint spend_inputs (inputs : Cache) (vin : list CTxIn) : result (CTxUndo * Cache) :=
  match vin with
  | [] => inr ([], inputs)
  | txin :: r =>
      let '(is_spent, x, inputs) := SpendCoin usage inputs (prevout txin) in
      if is_spent then '(vprevout, inputs) ← spend_inputs inputs r; inr (x :: vprevout, inputs)
      else inl AssertionFailed
  end.

Definition UpdateCoins (tx : CTransaction) (inputs : Cache) (nHeight : Z) (skipZeroValue : bool) : result (CTxUndo * Cache) :=
  '(txundo, inputs) ← (if negb (IsCoinBase tx) then spend_inputs inputs (vin tx) else inr ([], inputs));
  inputs ← AddCoins usage inputs GetHash tx nHeight false skipZeroValue;
  inr (txundo, inputs).

(** The transactions of a block as [ConnectBlock] applies them once checked; no
    undo data is kept for the first one. *)
Fixpoint connect_loop (view : Cache) (first : bool) (vtx : list CTransaction) (nHeight : Z) (skipZeroValue : bool) :
    result (CBlockUndo * Cache) :=
  match vtx with
  | [] => inr ([], view)
  | tx :: r =>
      '(txundo, view) ← UpdateCoins tx view nHeight skipZeroValue;
      '(vtxundo, view) ← connect_loop view false r nHeight skipZeroValue;
      inr (if first then vtxundo else txundo :: vtxundo, view)
  end.

Definition ApplyTxInUndo (undo : Coin) (view : Cache) (o : COutPoint) : result (DisconnectResult * Cache) :=
  let '(have, view) := HaveCoin usage view o in
  let fClean := negb have in
  let add (undo : Coin) (view : Cache) :=
    view ← AddCoin usage view o undo (negb fClean) false;
    inr (if fClean then DISCONNECT_OK else DISCONNECT_UNCLEAN, view) in
  if nHeight undo =? 0 then
    let '(alternate, view) := AccessByTxid usage view (hash o) in
    if negb (IsSpent alternate) then
      add (mkCoin (out undo) (fCoinBase alternate) (nHeight alternate) (fCoinStake alternate) (coinTime alternate)) view
    else inr (DISCONNECT_FAILED, view)
  else add undo view.

(** Taking back the outputs of a transaction, from output [n] on. *)
Fixpoint remove_outputs (view : Cache) (tx : CTransaction) (height : Z) (fClean : bool) (n : Z) (vout : list CTxOut) : bool * Cache :=
  match vout with
  | [] => (fClean, view)
  | vo :: r =>
      if negb (IsUnspendable (scriptPubKey vo)) then
        if nValue vo =? 0 then remove_outputs view tx height fClean (n + 1) r
        else
          let '(is_spent, x, view) := SpendCoin usage view (mkOutPoint (GetHash tx) (u32 n)) in
          let mismatch := negb is_spent || bool_decide (vo <> out x) || negb (height =? nHeight x) ||
                          negb (Bool.eqb (IsCoinBase tx) (fCoinBase x)) || negb (Bool.eqb (IsCoinStake tx) (fCoinStake x)) in
          remove_outputs view tx height (if mismatch then false else fClean) (n + 1) r
      else remove_outputs view tx height fClean (n + 1) r
  end.

(** Restoring inputs; the pairs come last input first.  [None] is the failure
    that [DisconnectBlock] returns at once. *)
Fixpoint restore_inputs (view : Cache) (fClean : bool) (l : list (CTxIn * Coin)) : result (option bool * Cache) :=
  match l with
  | [] => inr (Some fClean, view)
  | (txin, undo) :: r =>
      '(res, view) ← ApplyTxInUndo undo view (prevout txin);
      match res with
      | DISCONNECT_FAILED => inr (None, view)
      | DISCONNECT_OK => restore_inputs view fClean r
      | DISCONNECT_UNCLEAN => restore_inputs view false r
      end
  end.

(** The transactions, last one first, each but the first of the block with its
    undo data. *)
Fixpoint disconnect_loop (view : Cache) (height : Z) (fClean : bool) (l : list (CTransaction * option CTxUndo)) :
    result (option bool * Cache) :=
  match l with
  | [] => inr (Some fClean, view)
  | (tx, undo) :: r =>
      let '(fClean, view) := remove_outputs view tx height fClean 0 (vout tx) in
      match undo with
      | None => disconnect_loop view height fClean r
      | Some vprevout =>
          if negb (length vprevout =? length (vin tx))%nat then inr (None, view)
          else
            '(res, view) ← restore_inputs view fClean (rev (zip (vin tx) vprevout));
            match res with
            | None => inr (None, view)
            | Some fClean => disconnect_loop view height fClean r
            end
      end
  end.

(** [blockUndo] is what [UndoReadFromDisk] reads; [hashPrev] is the hash of the
    previous block. *)
Definition DisconnectBlock (vtx : list CTransaction) (height : Z) (hashPrev : list Z) (blockUndo : option CBlockUndo) (view : Cache) :
    result (DisconnectResult * Cache) :=
  match blockUndo with
  | None => inr (DISCONNECT_FAILED, view)
  | Some vtxundo =>
      if negb (length vtxundo + 1 =? length vtx)%nat then inr (DISCONNECT_FAILED, view)
      else
        '(res, view) ← disconnect_loop view height true (rev (zip vtx (None :: map Some vtxundo)));
        match (res : option bool) with
        | None => inr (DISCONNECT_FAILED, view)
        | Some fClean => inr (if fClean then DISCONNECT_OK else DISCONNECT_UNCLEAN, SetBestBlock view hashPrev)
        end
  end.

End Defs.

(** ** The set of coins a cache stands for *)

Section Theory.
Context {S : Type} {V : CoinsView S} (usage : Coin -> Z) (usage_empty : usage coinEmpty = 0) (GetHash : CTransaction -> list Z).
Abbreviation Cache := (@CCoinsViewCache S).
Abbreviation coins := (COutPoint -> option Coin).

Definition holds (c : Cache) (u : coins) : Prop := cache_ok usage c /\ forall o, cache_utxo c o = u o.

Lemma holds_ext c u v : holds c u -> (forall o, u o = v o) -> holds c v.
Proof using. intros [Hc Hu] Huv. split; [done|]. intros o. by rewrite Hu. Qed.

(** Looking at a coin. *)
Lemma AccessCoin_holds c u o :
  holds c u -> exists x c', AccessCoin usage c o = (x, c') /\ holds c' u /\ u o = (if IsSpent x then None else Some x).
Proof using.
  intros [Hok Hu]. pose proof (AccessCoin_spec usage c o Hok) as HA. destruct (AccessCoin usage c o) as [x c'].
  destruct HA as (Hok' & Hu' & _ & _ & Hx). exists x, c'. split; [done|]. split; [split; [done|]; intros o'; by rewrite Hu', Hu|]. by rewrite <- Hu.
Qed.

Lemma spend_holds c u o x :
  holds c u -> u o = Some x -> exists c', SpendCoin usage c o = (true, x, c') /\ holds c' (set_coin u o None).
Proof using usage_empty.
  intros [Hok Hu] Hx. pose proof (SpendCoin_spec usage usage_empty c o Hok) as HS. destruct (SpendCoin usage c o) as [[ok y] c'].
  destruct HS as (Hok' & _ & _ & Hu' & H1 & _). rewrite <- Hu in Hx. destruct (H1 x Hx) as [-> ->]. exists c'. split; [done|].
  split; [done|]. intros o'. rewrite Hu'. unfold set_coin. case_decide; [done|apply Hu].
Qed.

Lemma add_holds c u o x ov skip :
  holds c u -> IsSpent x = false -> u o = None ->
  exists c', AddCoin usage c o x ov skip = inr c' /\ holds c' (if skipped x skip then u else set_coin u o (Some x)).
Proof using usage_empty.
  intros [Hok Hu] Hx Ho. destruct (AddCoin_spec usage usage_empty c o x ov skip Hok Hx) as (c' & E & Hok' & _ & _ & Hu'); [by rewrite Hu|].
  exists c'. split; [done|]. split; [done|]. intros o'. rewrite Hu'. unfold set_coin. destruct (skipped x skip); case_decide; subst; done.
Qed.

(** ** Inputs *)

Definition prevouts (tx : CTransaction) : list COutPoint := map prevout (vin tx).
Definition removed (l : list COutPoint) (u : coins) : coins := fun o => if decide (o ∈ l) then None else u o.

Lemma spend_inputs_holds l c u :
  holds c u -> NoDup (map prevout l) -> (forall i, i ∈ l -> is_Some (u (prevout i))) ->
  exists undo c', spend_inputs usage c l = inr (undo, c') /\ holds c' (removed (map prevout l) u) /\
    Forall2 (fun i x => u (prevout i) = Some x) l undo.
Proof using usage_empty.
  revert c u. induction l as [|i l IH]; intros c u Hc Hnd Hin.
  { exists [], c. split; [done|]. split; [|constructor]. eapply holds_ext; [done|]. done. }
  cbn [map] in Hnd. apply NoDup_cons in Hnd as [Hni Hnd]. destruct (Hin i ltac:(by left)) as [x Hx].
  destruct (spend_holds c u _ x Hc Hx) as (c1 & E1 & Hc1).
  assert (forall j, j ∈ l -> set_coin u (prevout i) None (prevout j) = u (prevout j)) as Hsame.
  { intros j Hj. unfold set_coin. rewrite decide_False; [done|]. intros F. apply Hni. rewrite <- F. by apply list_elem_of_fmap_2. }
  destruct (IH c1 _ Hc1 Hnd) as (undo & c2 & E2 & Hc2 & HF).
  { intros j Hj. rewrite Hsame by done. apply Hin. by right. }
  exists (x :: undo), c2. cbn [spend_inputs]. rewrite E1, E2. split; [done|]. split.
  - eapply holds_ext; [done|]. intros o. unfold removed, set_coin. cbn [map]. destruct (decide (o ∈ map prevout l)) as [H|H].
    + rewrite decide_True by (by right). done.
    + destruct (decide (o = prevout i)) as [-> |Hne]; [by rewrite decide_True by left|]. rewrite decide_False; [done|]. by rewrite not_elem_of_cons.
  - constructor; [done|]. apply Forall2_same_length_lookup_2; [by eapply Forall2_length|].
    intros k j y Hj Hy. rewrite <- Hsame by (by eapply list_elem_of_lookup_2). by apply (Forall2_lookup_lr _ _ _ k _ _ HF).
Qed.

(** Coins that undo data restores as they were. *)
Definition restorable (x : Coin) : Prop := IsSpent x = false /\ IsUnspendable (scriptPubKey (out x)) = false /\ 0 < nHeight x.

Lemma ApplyTxInUndo_holds c w o x :
  holds c w -> w o = None -> restorable x ->
  exists c', ApplyTxInUndo usage x c o = inr (DISCONNECT_OK, c') /\ holds c' (set_coin w o (Some x)).
Proof using usage_empty.
  intros [Hok Hw] Ho (Hs & Hun & Hh). unfold ApplyTxInUndo. pose proof (HaveCoin_spec usage c o Hok) as HH.
  destruct (HaveCoin usage c o) as [b c1]. destruct HH as (Hok1 & Hu1 & _ & _ & ->). rewrite Hw, Ho. cbn [negb].
  rewrite (proj2 (Z.eqb_neq _ _)) by lia. change (bool_decide (is_Some None)) with false. cbn [negb].
  destruct (add_holds c1 w o x false false) as (c2 & E2 & Hc2); [split; [done|]; intros; by rewrite Hu1|done|done|].
  rewrite E2. exists c2. split; [done|]. unfold skipped in Hc2. by rewrite Hun, andb_false_r in Hc2.
Qed.

Lemma restore_inputs_holds l c w v b :
  holds c w -> NoDup (map (prevout ∘ fst) l) -> (forall i x, (i, x) ∈ l -> w (prevout i) = None /\ restorable x /\ v (prevout i) = Some x) ->
  (forall o, o ∉ map (prevout ∘ fst) l -> v o = w o) ->
  exists c', restore_inputs usage c b l = inr (Some b, c') /\ holds c' v.
Proof using usage_empty.
  revert c w. induction l as [|[i x] l IH]; intros c w Hc Hnd Hl Hv.
  { exists c. split; [done|]. eapply holds_ext; [done|]. intros o. symmetry. apply Hv. by apply not_elem_of_nil. }
  cbn [map] in Hnd. apply NoDup_cons in Hnd as [Hni Hnd]. cbn [compose fst] in *.
  destruct (Hl i x ltac:(by left)) as (Hw & Hr & Hvi). destruct (ApplyTxInUndo_holds c w (prevout i) x Hc Hw Hr) as (c1 & E1 & Hc1).
  cbn [restore_inputs]. rewrite E1. cbn. apply (IH c1 _ Hc1 Hnd).
  - intros j y Hj. destruct (Hl j y ltac:(by right)) as (Hwj & Hrj & Hvj). split; [|done]. unfold set_coin. rewrite decide_False; [done|].
    intros F. apply Hni. rewrite <- F. by apply (list_elem_of_fmap_2 (prevout ∘ fst) _ (j, y)).
  - intros o Ho. unfold set_coin. case_decide as E; [by subst|]. apply Hv. cbn [map]. by apply not_elem_of_cons.
Qed.

(** ** Outputs *)

Section Tx.
Context (tx : CTransaction) (height : Z) (skip : bool).

Definition coin_of (vo : CTxOut) : Coin := Coin_init vo height (IsCoinBase tx) (IsCoinStake tx) (nTime tx).

(** The output at an outpoint, when the list holds the outputs from [k] on. *)
Definition output_at (k : Z) (vo : list CTxOut) (o : COutPoint) : option CTxOut :=
  if bool_decide (hash o = GetHash tx) && (k <=? n o) then vo !! Z.to_nat (n o - k) else None.

Definition created_from (k : Z) (vo : list CTxOut) (o : COutPoint) : option Coin :=
  x ← output_at k vo o; if skipped (coin_of x) skip then None else Some (coin_of x).
Definition valued_from (k : Z) (vo : list CTxOut) (o : COutPoint) : bool :=
  match output_at k vo o with Some x => negb (IsUnspendable (scriptPubKey x)) && negb (nValue x =? 0) | None => false end.
Definition over (f u : coins) : coins := fun o => match f o with Some x => Some x | None => u o end.

Lemma output_at_cons k x vo o :
  output_at k (x :: vo) o = if decide (o = mkOutPoint (GetHash tx) k) then Some x else output_at (k + 1) vo o.
Proof using.
  destruct o as [h i]. unfold output_at. cbn [hash n]. case_decide as E.
  - injection E as -> ->. by rewrite bool_decide_true, Z.leb_refl, Z.sub_diag by done.
  - destruct (decide (h = GetHash tx)) as [->|Hh]; [|by rewrite bool_decide_false by done]. rewrite bool_decide_true by done. cbn [andb].
    assert (i <> k) by (intros ->; done). destruct (k <=? i) eqn:E1; cases_bool.
    + rewrite (proj2 (Z.leb_le _ _)) by lia. replace (Z.to_nat (i - k)) with (Datatypes.S (Z.to_nat (i - (k + 1)))) by lia. done.
    + by rewrite (proj2 (Z.leb_gt _ _)) by lia.
Qed.

Lemma output_at_self k vo : output_at (k + 1) vo (mkOutPoint (GetHash tx) k) = None.
Proof using. unfold output_at. cbn [hash n]. rewrite (proj2 (Z.leb_gt (k + 1) k)) by lia. by rewrite andb_false_r. Qed.

Lemma add_outputs_holds vo k c u :
  holds c u -> 0 <= k -> k + length vo <= 2 ^ 32 -> Forall (fun x => CTxOut_IsNull x = false) vo ->
  (forall o, is_Some (output_at k vo o) -> u o = None) ->
  exists c', add_outputs usage c tx (GetHash tx) height false skip k vo = inr c' /\ holds c' (over (created_from k vo) u).
Proof using usage_empty.
  revert k c u. induction vo as [|x vo IH]; intros k c u Hc Hk Hlen Hnn Hu; cbn [add_outputs].
  { exists c. split; [done|]. eapply holds_ext; [done|]. intros o. unfold over, created_from, output_at. by destruct (_ && _). }
  cbn [length] in Hlen. inversion Hnn as [|? ? Hx Hnn']; subst. rewrite u32_small by (unfold in_u; lia).
  assert (u (mkOutPoint (GetHash tx) k) = None) as Hk0 by (apply Hu; rewrite output_at_cons, decide_True by done; eauto).
  destruct (add_holds c u _ (coin_of x) (IsCoinBase tx) skip Hc Hx Hk0) as (c1 & E1 & Hc1). unfold coin_of in E1 at 1. rewrite E1. cbn.
  destruct (IH (k + 1) c1 _ Hc1) as (c2 & E2 & Hc2); [lia|lia|done| |].
  - intros o Ho. assert (u o = None).
    { apply Hu. rewrite output_at_cons. case_decide; [by eauto|done]. }
    destruct (skipped (coin_of x) skip); [done|]. unfold set_coin. rewrite decide_False; [done|]. intros ->. rewrite output_at_self in Ho. by destruct Ho.
  - exists c2. split; [done|]. eapply holds_ext; [done|]. intros o. unfold over, created_from. rewrite output_at_cons. case_decide as E.
    + subst. rewrite output_at_self. cbn. destruct (skipped (coin_of x) skip); [done|]. unfold set_coin. by rewrite decide_True by done.
    + destruct (output_at (k + 1) vo o) as [y|]; cbn; [destruct (skipped (coin_of y) skip)|];
        try done; destruct (skipped (coin_of x) skip); try done; unfold set_coin; by rewrite decide_False by done.
Qed.

Lemma remove_outputs_holds vo k c v b :
  holds c v -> 0 <= k -> k + length vo <= 2 ^ 32 -> 0 <= height < 2 ^ 31 ->
  (forall o x, output_at k vo o = Some x -> IsUnspendable (scriptPubKey x) = false -> nValue x <> 0 -> v o = Some (coin_of x)) ->
  exists c', remove_outputs usage GetHash c tx height b k vo = (b, c') /\
    holds c' (fun o => if valued_from k vo o then None else v o).
Proof using usage_empty.
  revert k c v. induction vo as [|x vo IH]; intros k c v Hc Hk Hlen Hh Hv; cbn [remove_outputs].
  { exists c. split; [done|]. eapply holds_ext; [done|]. intros o. unfold valued_from, output_at. by destruct (_ && _). }
  cbn [length] in Hlen. unfold valued_from.
  assert (forall o y, output_at (k + 1) vo o = Some y -> output_at k (x :: vo) o = Some y) as Hshift.
  { intros o y Hy. rewrite output_at_cons, decide_False; [done|]. intros ->. by rewrite output_at_self in Hy. }
  assert (forall c0 w, holds c0 w -> (forall o y, output_at (k + 1) vo o = Some y -> w o = v o) ->
    exists c', remove_outputs usage GetHash c0 tx height b (k + 1) vo = (b, c') /\
      holds c' (fun o => if valued_from (k + 1) vo o then None else w o)) as Hrest.
  { intros c0 w Hc0 Hw. apply IH; [done|lia|lia|done|]. intros o y Hy H1 H2. rewrite (Hw o y Hy). by apply Hv; [apply Hshift|..]. }
  assert (forall w, (forall o, w o = v o) ->
    (IsUnspendable (scriptPubKey x) || (nValue x =? 0) = true) -> forall o,
    (if valued_from (k + 1) vo o then None else w o) =
    (if match output_at k (x :: vo) o with Some z => negb (IsUnspendable (scriptPubKey z)) && negb (nValue z =? 0) | None => false end then None else v o)) as Hskip.
  { intros w Hw Hx o. unfold valued_from. rewrite output_at_cons, Hw. case_decide as E; [|done]. subst. rewrite output_at_self.
    by rewrite <- negb_orb, Hx. }
  destruct (IsUnspendable (scriptPubKey x)) eqn:Eu; cbn [negb].
  { destruct (Hrest c v Hc ltac:(done)) as (c' & E & Hc'). exists c'. split; [done|]. eapply holds_ext; [done|]. by apply Hskip. }
  destruct (nValue x =? 0) eqn:Ev.
  { destruct (Hrest c v Hc ltac:(done)) as (c' & E & Hc'). exists c'. split; [done|]. eapply holds_ext; [done|]. by apply Hskip. }
  clear Hskip. cases_bool. rewrite u32_small by (unfold in_u; lia).
  assert (v (mkOutPoint (GetHash tx) k) = Some (coin_of x)) as Hvk by (apply Hv; [by rewrite output_at_cons, decide_True|done|done]).
  destruct (spend_holds c v _ _ Hc Hvk) as (c1 & E1 & Hc1). rewrite E1. cbn [out coin_of Coin_init nHeight fCoinBase fCoinStake].
  rewrite bool_decide_false by tauto. rewrite uwrap_small by (unfold in_u; lia). rewrite Z.eqb_refl, !eqb_reflx. cbn [negb orb].
  destruct (Hrest c1 _ Hc1) as (c' & E & Hc').
  - intros o y Hy. unfold set_coin. rewrite decide_False; [done|]. intros ->. by rewrite output_at_self in Hy.
  - exists c'. split; [done|]. eapply holds_ext; [done|]. intros o. unfold valued_from. rewrite output_at_cons. unfold set_coin.
    case_decide as F; [|done]. subst. rewrite output_at_self, Eu. by rewrite (proj2 (Z.eqb_neq _ _)).
Qed.

End Tx.

(** ** Transactions and blocks *)

Section Block.
Context (height : Z) (Hheight : 0 < height < 2 ^ 31) (skip : bool).

(** What connecting a transaction does to the set of coins. *)
Definition apply_tx (u : coins) (tx : CTransaction) : coins :=
  over (created_from tx height skip 0 (vout tx)) (if IsCoinBase tx then u else removed (prevouts tx) u).

(** What disconnecting it leaves behind: its spendable outputs without value. *)
Definition leftover (tx : CTransaction) (o : COutPoint) : option Coin :=
  if valued_from tx 0 (vout tx) o then None else created_from tx height skip 0 (vout tx) o.

(** The outputs of a transaction are outputs, and none of them is a coin yet. *)
Definition outputs_ok (u : coins) (tx : CTransaction) : Prop :=
  length (vout tx) <= 2 ^ 32 /\ Forall (fun x => CTxOut_IsNull x = false) (vout tx) /\
  forall o, is_Some (output_at tx 0 (vout tx) o) -> u o = None.

(** The inputs of a transaction are different coins of the set. *)
Definition inputs_ok (u : coins) (tx : CTransaction) : Prop :=
  IsCoinBase tx = false -> NoDup (prevouts tx) /\ forall i, i ∈ vin tx -> exists x, u (prevout i) = Some x /\ restorable x.

Lemma created_outputs tx k vo o : is_Some (created_from tx height skip k vo o) -> is_Some (output_at tx k vo o).
Proof using. unfold created_from. destruct (output_at tx k vo o); [by eauto|]. by intros []. Qed.

Lemma UpdateCoins_holds tx c u :
  holds c u -> outputs_ok u tx -> inputs_ok u tx ->
  exists undo c', UpdateCoins usage GetHash tx c height skip = inr (undo, c') /\ holds c' (apply_tx u tx) /\
    (IsCoinBase tx = false -> Forall2 (fun i x => u (prevout i) = Some x) (vin tx) undo).
Proof using usage_empty Hheight.
  intros Hc (Hlen & Hnn & Hnew) Hin. unfold UpdateCoins, apply_tx, AddCoins.
  assert (exists undo c1, (if negb (IsCoinBase tx) then spend_inputs usage c (vin tx) else inr ([], c)) = inr (undo, c1) /\
    holds c1 (if IsCoinBase tx then u else removed (prevouts tx) u) /\
    (IsCoinBase tx = false -> Forall2 (fun i x => u (prevout i) = Some x) (vin tx) undo)) as (undo & c1 & E1 & Hc1 & HF).
  { destruct (IsCoinBase tx) eqn:Ecb; [by exists [], c|]. destruct (Hin Ecb) as [Hnd Hi].
    destruct (spend_inputs_holds (vin tx) c u Hc Hnd) as (undo & c1 & E1 & Hc1 & HF); [|by exists undo, c1].
    intros i Hii. destruct (Hi i Hii) as (x & Hx & _). eauto. }
  rewrite E1. cbn. destruct (add_outputs_holds tx height skip (vout tx) 0 c1 _ Hc1) as (c2 & E2 & Hc2); [lia|lia|done| |].
  - intros o Ho. destruct (IsCoinBase tx); [by apply Hnew|]. unfold removed. case_decide; [done|by apply Hnew].
  - exists undo, c2. by rewrite E2.
Qed.

(** The set with the valued outputs of a transaction taken out; [extra] are coins
    of outpoints that were not there before. *)
Definition taken (tx : CTransaction) (extra u : coins) : coins :=
  fun o => if valued_from tx 0 (vout tx) o then None else over extra (apply_tx u tx) o.
Definition new_to (tx : CTransaction) (u extra : coins) : Prop :=
  forall o, is_Some (extra o) -> u o = None /\ output_at tx 0 (vout tx) o = None.

Lemma taken_output tx extra u o :
  outputs_ok u tx -> new_to tx u extra -> is_Some (output_at tx 0 (vout tx) o) -> taken tx extra u o = over extra (over (leftover tx) u) o.
Proof using.
  intros (_ & _ & Hnew) Hex Ho. unfold taken, over, leftover, apply_tx, over. destruct (extra o) eqn:Ee.
  - destruct (Hex o) as [_ F]; [by eauto|]. rewrite F in Ho. by destruct Ho.
  - rewrite (Hnew o Ho). destruct (valued_from tx 0 (vout tx) o); [done|]. destruct (created_from tx height skip 0 (vout tx) o); [done|].
    destruct (IsCoinBase tx); [by rewrite (Hnew o Ho)|]. unfold removed. case_decide; [done|by apply Hnew].
Qed.

Lemma taken_other tx extra u o :
  output_at tx 0 (vout tx) o = None ->
  taken tx extra u o = over extra (if IsCoinBase tx then u else removed (prevouts tx) u) o /\ over extra (over (leftover tx) u) o = over extra u o.
Proof using. intros Ho. unfold taken, over, leftover, apply_tx, over, valued_from, created_from. by rewrite Ho. Qed.

(** The inputs with their undo data, last one first. *)
Lemma undo_pairs tx (u : coins) l :
  Forall2 (fun i x => u (prevout i) = Some x) (vin tx) l ->
  (forall i x, (i, x) ∈ rev (zip (vin tx) l) -> u (prevout i) = Some x /\ i ∈ vin tx) /\
  map (prevout ∘ fst) (rev (zip (vin tx) l)) ≡ₚ prevouts tx.
Proof using.
  intros HF. split.
  - intros i x Hix. rewrite <- Permutation_rev in Hix. apply elem_of_lookup_zip_with in Hix as (k & i' & x' & [= <- <-] & H1 & H2).
    split; [by apply (Forall2_lookup_lr _ _ _ k _ _ HF)|by eapply list_elem_of_lookup_2].
  - rewrite map_rev, <- Permutation_rev. unfold prevouts. rewrite <- (fst_zip (vin tx) l) at 2 by (rewrite (Forall2_length _ _ _ HF); lia).
    by rewrite list_fmap_compose.
Qed.

Lemma restore_holds tx l c u extra :
  holds c (taken tx extra u) -> outputs_ok u tx -> inputs_ok u tx -> new_to tx u extra -> IsCoinBase tx = false ->
  Forall2 (fun i x => u (prevout i) = Some x) (vin tx) l ->
  exists c', restore_inputs usage c true (rev (zip (vin tx) l)) = inr (Some true, c') /\ holds c' (over extra (over (leftover tx) u)).
Proof using usage_empty.
  intros Hc Hout Hin Hex Ecb HF. destruct (Hin Ecb) as [Hnd Hi]. destruct (undo_pairs tx u l HF) as [Hzip Hperm].
  apply (restore_inputs_holds _ c (taken tx extra u)); [done|by rewrite Hperm| |].
  - intros i x Hix. destruct (Hzip i x Hix) as [Hx Hii]. destruct (Hi i Hii) as (x' & Hx' & Hr). rewrite Hx in Hx'. injection Hx' as <-.
    assert (output_at tx 0 (vout tx) (prevout i) = None) as Hno.
    { destruct (output_at tx 0 (vout tx) (prevout i)) eqn:F; [|done]. destruct Hout as (_ & _ & Hnew). by rewrite Hnew in Hx by eauto. }
    assert (extra (prevout i) = None) as He by (destruct (extra (prevout i)) eqn:F; [|done]; destruct (Hex (prevout i)) as [G _]; [by eauto|congruence]).
    destruct (taken_other tx extra u _ Hno) as [-> ->]. unfold over. rewrite He, Ecb. split; [|done]. unfold removed.
    rewrite decide_True; [done|]. by apply list_elem_of_fmap_2.
  - intros o Ho. rewrite Hperm in Ho. destruct (output_at tx 0 (vout tx) o) eqn:F; [symmetry; apply taken_output; [done|done|by eauto]|].
    destruct (taken_other tx extra u _ F) as [-> ->]. rewrite Ecb. unfold over, removed. by rewrite decide_False by done.
Qed.

(** Undo data as [connect_loop] keeps it for a transaction. *)
Definition undo_ok (u : coins) (tx : CTransaction) (undo : option CTxUndo) : Prop :=
  match undo with
  | Some l => IsCoinBase tx = false /\ Forall2 (fun i x => u (prevout i) = Some x) (vin tx) l
  | None => IsCoinBase tx = true
  end.

Lemma disconnect_holds tx undo c u extra :
  holds c (over extra (apply_tx u tx)) -> outputs_ok u tx -> inputs_ok u tx -> new_to tx u extra -> undo_ok u tx undo ->
  forall r, exists c', disconnect_loop usage GetHash c height true ((tx, undo) :: r) = disconnect_loop usage GetHash c' height true r /\
    holds c' (over extra (over (leftover tx) u)).
Proof using usage_empty Hheight.
  intros Hc Hout Hin Hex Hundo r. cbn [disconnect_loop]. pose proof Hout as (Hlen & _ & _).
  destruct (remove_outputs_holds tx height (vout tx) 0 c _ true Hc) as (c1 & E1 & Hc1); [lia|lia|lia| |].
  { intros o x Hx H1 H2. unfold over. destruct (extra o) eqn:Ee; [destruct (Hex o) as [_ F]; [by eauto|congruence]|].
    unfold apply_tx, over, created_from. rewrite Hx. cbn. unfold skipped. cbn. rewrite H1. by rewrite (proj2 (Z.eqb_neq _ _)). }
  rewrite E1. change (holds c1 (taken tx extra u)) in Hc1. destruct undo as [l|].
  - destruct Hundo as [Ecb HF]. rewrite <- (Forall2_length _ _ _ HF), Nat.eqb_refl. cbn [negb].
    destruct (restore_holds tx l c1 u extra) as (c2 & -> & Hc2); try done. by exists c2.
  - exists c1. split; [done|]. eapply holds_ext; [done|]. intros o.
    destruct (output_at tx 0 (vout tx) o) eqn:F; [apply taken_output; [done|done|by eauto]|].
    destruct (taken_other tx extra u _ F) as [-> ->]. by rewrite Hundo.
Qed.

(** *** Blocks *)

Fixpoint leftovers (vtx : list CTransaction) : coins :=
  match vtx with [] => fun _ => None | tx :: r => over (leftovers r) (leftover tx) end.

(** The inputs of each transaction are there when it is connected. *)
Fixpoint spendable (u : coins) (vtx : list CTransaction) : Prop :=
  match vtx with [] => True | tx :: r => inputs_ok u tx /\ spendable (apply_tx u tx) r end.

(** The first transaction of a block, and only that, is a coinbase. *)
Fixpoint coinbase_first (first : bool) (vtx : list CTransaction) : Prop :=
  match vtx with [] => True | tx :: r => IsCoinBase tx = first /\ coinbase_first false r end.

Definition undo_options (first : bool) (undo : CBlockUndo) : list (option CTxUndo) :=
  if first then None :: map Some undo else map Some undo.

Lemma output_hash tx o : is_Some (output_at tx 0 (vout tx) o) -> hash o = GetHash tx.
Proof using. unfold output_at. intros [x Hx]. destruct (bool_decide (hash o = GetHash tx)) eqn:E; [by apply bool_decide_eq_true in E|done]. Qed.

Lemma leftovers_output vtx o : is_Some (leftovers vtx o) -> exists tx, tx ∈ vtx /\ is_Some (output_at tx 0 (vout tx) o).
Proof using.
  induction vtx as [|tx r IH]; cbn [leftovers]; [by intros []|]. unfold over. destruct (leftovers r o).
  - intros _. destruct IH as (tx' & Hin & Ho); [by eauto|]. exists tx'. split; [by right|done].
  - unfold leftover. destruct (valued_from tx 0 (vout tx) o); [by intros []|]. intros Ho%created_outputs. exists tx. split; [by left|done].
Qed.

Lemma outputs_ok_next u tx tx' :
  outputs_ok u tx' -> GetHash tx <> GetHash tx' -> outputs_ok (apply_tx u tx) tx'.
Proof using.
  intros (Hlen & Hnn & Hnew) Hne. split; [done|]. split; [done|]. intros o Ho. unfold apply_tx, over.
  destruct (created_from tx height skip 0 (vout tx) o) eqn:F.
  - exfalso. apply Hne. rewrite <- (output_hash tx' o Ho). symmetry. apply output_hash, created_outputs. by rewrite F.
  - destruct (IsCoinBase tx); [by apply Hnew|]. unfold removed. case_decide; [done|by apply Hnew].
Qed.

Lemma connect_disconnect vtx first c u :
  holds c u -> Forall (outputs_ok u) vtx -> NoDup (map GetHash vtx) -> spendable u vtx -> coinbase_first first vtx ->
  exists undo c1, connect_loop usage GetHash c first vtx height skip = inr (undo, c1) /\ holds c1 (fold_left apply_tx vtx u) /\
    (vtx = [] -> undo = []) /\ (vtx <> [] -> length (undo_options first undo) = length vtx) /\
    forall c' r, holds c' (fold_left apply_tx vtx u) ->
      exists c2, disconnect_loop usage GetHash c' height true (rev (zip vtx (undo_options first undo)) ++ r) =
        disconnect_loop usage GetHash c2 height true r /\ holds c2 (over (leftovers vtx) u).
Proof using usage_empty Hheight.
  revert first c u. induction vtx as [|tx vtx IH]; intros first c u Hc Hout Hnd Hsp Hcb.
  { exists [], c. split; [done|]. split; [done|]. split; [done|]. split; [done|]. intros c' r Hc'. exists c'. done. }
  inversion Hout as [|? ? Htx Hout']; subst. cbn [map] in Hnd. apply NoDup_cons in Hnd as [Hni Hnd]. destruct Hsp as [Hin Hsp]. destruct Hcb as [Hcb Hcb'].
  destruct (UpdateCoins_holds tx c u Hc Htx Hin) as (undo & c1 & E1 & Hc1 & HF).
  assert (forall tx', tx' ∈ vtx -> GetHash tx <> GetHash tx') as Hne.
  { intros tx' Htx' F. apply Hni. rewrite F. by apply list_elem_of_fmap_2. }
  destruct (IH false c1 _ Hc1) as (undos & c2 & E2 & Hc2 & Hnil & Hlen & HD); [|done|done|done|].
  { rewrite Forall_forall in Hout' |- *. intros tx' Htx'. apply outputs_ok_next; [by apply Hout'|by apply Hne]. }
  exists (if first then undos else undo :: undos), c2. cbn [connect_loop]. rewrite E1. cbn. rewrite E2. split; [done|]. split; [done|].
  split; [done|]. cbn [undo_options] in *.
  assert (length (map Some undos) = length vtx) as Hl by (destruct vtx; [by rewrite Hnil|by apply Hlen]).
  split; [intros _; destruct first; cbn [undo_options map length]; by rewrite Hl|].
  intros c' r Hc'. cbn [fold_left] in Hc'. destruct (HD c' ((tx, if first then None else Some undo) :: r) Hc') as (c3 & E3 & Hc3).
  destruct (disconnect_holds tx (if first then None else Some undo) c3 u (leftovers vtx) Hc3 Htx Hin) with (r := r) as (c4 & E4 & Hc4).
  - intros o Ho. destruct (leftovers_output vtx o Ho) as (tx' & Htx' & Ho'). rewrite Forall_forall in Hout'.
    split; [by apply (Hout' tx' Htx')|]. destruct (output_at tx 0 (vout tx) o) eqn:F; [|done]. exfalso. apply (Hne tx' Htx').
    rewrite <- (output_hash tx' o Ho'). symmetry. apply output_hash. by rewrite F.
  - destruct first; [done|]. split; [done|]. by apply HF.
  - exists c4. split; [|eapply holds_ext; [done|]; intros o; unfold over; cbn [leftovers]; unfold over; by destruct (leftovers vtx o)].
    rewrite <- E4, <- E3. f_equal. destruct first; cbn [undo_options map zip zip_with rev]; by rewrite <- app_assoc.
Qed.

Lemma leftovers_skip vtx o : skip = true -> leftovers vtx o = None.
Proof using.
  intros Hs. induction vtx as [|tx r IH]; cbn [leftovers]; [done|]. unfold over. rewrite IH. unfold leftover, valued_from, created_from.
  destruct (output_at tx 0 (vout tx) o) as [x|]; [|done]. cbn. unfold skipped. rewrite Hs. cbn.
  destruct (IsUnspendable (scriptPubKey x)); [done|]. by destruct (nValue x =? 0).
Qed.

(** The whole of a block. *)
Lemma block_restored vtx c hashBlock hashPrev :
  cache_ok usage c -> vtx <> [] -> Forall (outputs_ok (cache_utxo c)) vtx -> NoDup (map GetHash vtx) ->
  spendable (cache_utxo c) vtx -> coinbase_first true vtx -> Blob.IsNull hashPrev = false ->
  exists undo c1 c2, connect_loop usage GetHash c true vtx height skip = inr (undo, c1) /\
    (forall o, cache_utxo c1 o = fold_left apply_tx vtx (cache_utxo c) o) /\
    DisconnectBlock usage GetHash vtx height hashPrev (Some undo) (SetBestBlock c1 hashBlock) = inr (DISCONNECT_OK, c2) /\
    cache_ok usage c2 /\ cache_best c2 = hashPrev /\ forall o, cache_utxo c2 o = over (leftovers vtx) (cache_utxo c) o.
Proof using usage_empty Hheight.
  intros Hok Hne Hout Hnd Hsp Hcb Hprev.
  destruct (connect_disconnect vtx true c (cache_utxo c)) as (undo & c1 & E1 & [Hok1 Hc1] & _ & Hlen & HD); try done.
  destruct (HD (SetBestBlock c1 hashBlock) []) as (c2 & E2 & [Hok2 Hc2]); [split; [by destruct Hok1|exact Hc1]|].
  exists undo, c1, (SetBestBlock c2 hashPrev). split; [done|]. split; [done|]. split; [|split; [by destruct Hok2|split; [|exact Hc2]]].
  - unfold DisconnectBlock. specialize (Hlen Hne). cbn [undo_options length] in Hlen. rewrite length_map in Hlen.
    rewrite (proj2 (Nat.eqb_eq _ _)) by lia. cbn [negb]. rewrite app_nil_r in E2. cbn [undo_options] in E2. by rewrite E2.
  - unfold cache_best. cbn. by rewrite Hprev.
Qed.

End Block.

End Theory.

(** C10: A block whose transactions spend coins that exist, and create coins that do
    not, is connected without error; disconnecting it with the undo data this
    gave succeeds, makes the previous block the best one again and restores the
    set of unspent coins, except that the spendable outputs of the block without
    value stay in it when they were added, that is unless [skipZeroValue] is
    set. *)
Theorem disconnect_restores {S} {V : CoinsView S} usage GetHash height skip vtx (c : @CCoinsViewCache S) hashBlock hashPrev
  (usage_empty : usage coinEmpty = 0) (Hheight : 0 < height < 2 ^ 31) (Hok : cache_ok usage c) (Hne : vtx <> [])
  (Hout : Forall (outputs_ok GetHash (cache_utxo c)) vtx) (Hids : NoDup (map GetHash vtx))
  (Hin : spendable GetHash height skip (cache_utxo c) vtx) (Hcb : coinbase_first true vtx) (Hprev : Blob.IsNull hashPrev = false) :
  exists undo c1 c2, connect_loop usage GetHash c true vtx height skip = inr (undo, c1) /\
    (forall o, cache_utxo c1 o = fold_left (apply_tx GetHash height skip) vtx (cache_utxo c) o) /\
    DisconnectBlock usage GetHash vtx height hashPrev (Some undo) (SetBestBlock c1 hashBlock) = inr (DISCONNECT_OK, c2) /\
    cache_ok usage c2 /\ cache_best c2 = hashPrev /\
    (forall o, cache_utxo c2 o = over (leftovers GetHash height skip vtx) (cache_utxo c) o) /\
    (skip = true -> forall o, cache_utxo c2 o = cache_utxo c o).
Proof.
  destruct (block_restored usage usage_empty GetHash height Hheight skip vtx c hashBlock hashPrev) as (undo & c1 & c2 & H1 & H2 & H3 & H4 & H5 & H6); try done.
  exists undo, c1, c2. repeat (split; [done|]). intros Hs o. rewrite H6. unfold over. by rewrite leftovers_skip.
Qed.

(** ** A block with a coinbase and a coinstake *)

Definition time_hash (tx : CTransaction) : list Z := repeat (nTime tx) 32.
Definition start : @CCoinsViewCache CCoinsView := mkCache tt one_block {[ outpoint_a := mkEntry some_coin (Z.lor DIRTY FRESH) ]} 2.
Definition coinbase_tx : CTransaction := mkTx [mkTxIn COutPoint_default [] 0 []] [mkTxOut 0 []] 1 10 0.
Definition coinstake_tx : CTransaction :=
  mkTx [mkTxIn outpoint_a [] 0 []] [mkTxOut 0 []; mkTxOut 51 [1; 2]] 1 11 0.
Definition child_tx : CTransaction :=
  mkTx [mkTxIn (mkOutPoint (repeat 11 32) 1) [] 0 []] [mkTxOut 50 [3]; mkTxOut 0 [OP_RETURN]] 1 12 0.
Definition sample_block : list CTransaction := [coinbase_tx; coinstake_tx; child_tx].

Lemma start_ok : cache_ok script_usage start.
Proof.
  split; [exact I|]. split; [|reflexivity]. apply map_Forall_singleton. split; [by left; split; [|right; right]|]. done.
Qed.

Lemma start_only o x : cache_utxo start o = Some x -> o = outpoint_a.
Proof.
  unfold cache_utxo, start. cbn [cacheCoins base]. destruct (decide (o = outpoint_a)) as [->|Hne]; [done|]. by rewrite lookup_singleton_ne.
Qed.

Lemma new_outputs tx o :
  time_hash tx <> repeat 2 32 -> is_Some (output_at time_hash tx 0 (vout tx) o) -> cache_utxo start o = None.
Proof.
  intros Hne Ho%output_hash. destruct (cache_utxo start o) eqn:E; [|done]. apply start_only in E. by subst.
Qed.

Lemma sample_outputs : Forall (outputs_ok time_hash (cache_utxo start)) sample_block.
Proof.
  unfold sample_block, outputs_ok. rewrite !Forall_cons, Forall_nil. split_and!; try (intros o; by apply new_outputs); try exact I;
    try (cbn -[Z.pow]; lia); unfold coinbase_tx, coinstake_tx, child_tx; cbn [vout]; by rewrite ?Forall_cons, ?Forall_nil.
Qed.

Lemma sample_spendable : spendable time_hash 5 true (cache_utxo start) sample_block.
Proof.
  split; [done|]. split; [|split; [|done]]; intros _; (split; [apply NoDup_singleton|]); intros i ->%list_elem_of_singleton; eexists;
    (split; [vm_compute; reflexivity|]); done.
Qed.

Lemma disconnect_restores_witness :
  exists undo c1 c2, connect_loop script_usage time_hash start true sample_block 5 true = inr (undo, c1) /\
    DisconnectBlock script_usage time_hash sample_block 5 one_block (Some undo) (SetBestBlock c1 (repeat 9 32)) = inr (DISCONNECT_OK, c2) /\
    forall o, cache_utxo c2 o = cache_utxo start o.
Proof.
  destruct (disconnect_restores script_usage time_hash 5 true sample_block start (repeat 9 32) one_block) as (undo & c1 & c2 & H1 & _ & H2 & _ & _ & _ & H3).
  - reflexivity.
  - lia.
  - apply start_ok.
  - discriminate.
  - apply sample_outputs.
  - apply (bool_decide_unpack _). vm_compute. exact I.
  - apply sample_spendable.
  - repeat split.
  - reflexivity.
  - exists undo, c1, c2. split; [exact H1|]. split; [exact H2|]. exact (H3 eq_refl).
Defined.

(** Connecting, disconnecting and connecting again: the result of the second
    step, the coin at the first output of the coinstake after it, and the error
    of the third step. *)
Definition reconnect (skip : bool) : result (DisconnectResult * option Coin * option error) :=
  '(undo, c) ← connect_loop script_usage time_hash start true sample_block 5 skip;
  '(res, c) ← DisconnectBlock script_usage time_hash sample_block 5 one_block (Some undo) c;
  inr (res, cache_utxo c (mkOutPoint (repeat 11 32) 0),
    match connect_loop script_usage time_hash c true sample_block 5 skip with inl e => Some e | inr _ => None end).

(** When outputs without value are added, disconnecting a block with a coinstake
    leaves its empty first output in the set, and connecting the block again
    raises an error. *)
Lemma reconnect_fails :
  reconnect false = inr (DISCONNECT_OK, Some (mkCoin (mkTxOut 0 []) false 5 true 11), Some OverwritesUnspent) /\
  reconnect true = inr (DISCONNECT_OK, None, None).
Proof. split; vm_compute; reflexivity. Qed.

End BlockCoins.
