(* ===== verification/Script.v ===== *)
(** * Scripts ([script/script.h], [script/script.cpp])

    Script numbers, the encoding of pushes, the decoder of operations and what
    is computed by walking over a script: signature operations, push-only and
    witness forms.  The theorems: numbers and pushes are read back, minimal
    encodings are unique, and the walks visit the operations one by one. *)
From stdpp Require Import prelude.
From S2P Require Import Prelude ArithUint256 Uint256.

Module Script.

(** ** Opcodes *)

Definition OP_0 : Z := 0x00.
Definition OP_PUSHDATA1 : Z := 0x4c.
Definition OP_PUSHDATA2 : Z := 0x4d.
Definition OP_PUSHDATA4 : Z := 0x4e.
Definition OP_1 : Z := 0x51.
Definition OP_16 : Z := 0x60.
Definition OP_HASH160 : Z := 0xa9.
Definition OP_EQUAL : Z := 0x87.
Definition OP_CHECKSIG : Z := 0xac.
Definition OP_CHECKSIGVERIFY : Z := 0xad.
Definition OP_CHECKMULTISIG : Z := 0xae.
Definition OP_CHECKMULTISIGVERIFY : Z := 0xaf.
Definition MAX_OPCODE : Z := 0xb9.
Definition OP_INVALIDOPCODE : Z := 0xff.
Definition MAX_SCRIPT_ELEMENT_SIZE : Z := 520.
Definition MAX_PUBKEYS_PER_MULTISIG : Z := 20.

(** ** Numbers *)

Inductive scriptnum_error := NumberOverflow | NonMinimal.

(** The bytes of an absolute value; eight iterations empty 64 bits. *)
Fixpoint abs_bytes (fuel : nat) (absvalue : Z) : list Z :=
  match fuel with
  | O => []
  | S fuel' => if absvalue =? 0 then [] else Z.land absvalue 0xff :: abs_bytes fuel' (Z.shiftr absvalue 8)
  end.

Definition serialize (value : Z) : list Z :=
  if value =? 0 then []
  else
    let neg := value <? 0 in
    let absvalue := if neg then u64 (u64 (Z.lnot (u64 value)) + 1) else u64 value in
    let result := abs_bytes 8 absvalue in
    let back := default 0 (last result) in
    if negb (Z.land back 0x80 =? 0) then result ++ [if neg then 0x80 else 0]
    else if neg then removelast result ++ [Z.lor back 0x80]
    else result.

Definition set_vch (vch : list Z) : Z :=
  match last vch with
  | None => 0
  | Some back =>
      let result := for_range 0 (length vch) (fun i r => Z.lor r (i64 (Z.shiftl vch.[i] (8 * i)))) 0 in
      if negb (Z.land back 0x80 =? 0) then
        i64 (- i64 (Z.land (u64 result) (u64 (Z.lnot (u64 (Z.shiftl 0x80 (8 * (length vch - 1))))))))
      else result
  end.

(** The constructor from bytes. *)
Definition CScriptNum (vch : list Z) (fRequireMinimal : bool) (nMaxNumSize : Z) : scriptnum_error + Z :=
  if nMaxNumSize <? length vch then inl NumberOverflow
  else if fRequireMinimal && (0 <? length vch)%nat &&
          ((Z.land (default 0 (last vch)) 0x7f =? 0) &&
           ((length vch <=? 1)%nat || (Z.land (vch.[length vch - 2]) 0x80 =? 0)))
       then inl NonMinimal
       else inr (set_vch vch).

Definition int_max : Z := 2 ^ 31 - 1.
Definition int_min : Z := - 2 ^ 31.
Definition getint (m_value : Z) : Z := if int_max <? m_value then int_max else if m_value <? int_min then int_min else m_value.

(** [operator+=], [operator-=] and negation assert that they do not overflow. *)
Definition int64_max : Z := 2 ^ 63 - 1.
Definition int64_min : Z := - 2 ^ 63.
Definition add_num (m_value rhs : Z) : option Z :=
  if (rhs =? 0) || ((0 <? rhs) && (m_value <=? int64_max - rhs)) || ((rhs <? 0) && (int64_min - rhs <=? m_value))
  then Some (i64 (m_value + rhs)) else None.
Definition sub_num (m_value rhs : Z) : option Z :=
  if (rhs =? 0) || ((0 <? rhs) && (int64_min + rhs <=? m_value)) || ((rhs <? 0) && (m_value <=? int64_max + rhs))
  then Some (i64 (m_value - rhs)) else None.
Definition neg_num (m_value : Z) : option Z := if m_value =? int64_min then None else Some (i64 (- m_value)).

(** ** Pushes *)

(** [operator<<] of a byte vector, of an integer and of an opcode. *)
Definition push_data (b : list Z) : list Z :=
  (if length b <? OP_PUSHDATA1 then [u8 (length b)]
   else if length b <=? 0xff then [OP_PUSHDATA1; u8 (length b)]
   else if length b <=? 0xffff then OP_PUSHDATA2 :: WriteLE16 (replicate 2 0) 0 (length b)
   else OP_PUSHDATA4 :: WriteLE32 (replicate 4 0) 0 (length b)) ++ b.
Definition push_int64 (n : Z) : list Z :=
  if (n =? -1) || ((1 <=? n) && (n <=? 16)) then [u8 (n + (OP_1 - 1))]
  else if n =? 0 then [OP_0]
  else push_data (serialize n).

(** Small integers; [None] is a failed assertion. *)
Definition DecodeOP_N (opcode : Z) : option Z :=
  if opcode =? OP_0 then Some 0 else if (OP_1 <=? opcode) && (opcode <=? OP_16) then Some (opcode - (OP_1 - 1)) else None.
Definition EncodeOP_N (n : Z) : option Z :=
  if (0 <=? n) && (n <=? 16) then Some (if n =? 0 then OP_0 else OP_1 + n - 1) else None.

(** ** The decoder *)

(** The size of an immediate operand, and what follows it. *)
Definition operand_size (opcode : Z) (s : list Z) : option (Z * list Z) :=
  if opcode <? OP_PUSHDATA1 then Some (opcode, s)
  else if opcode =? OP_PUSHDATA1 then if length s <? 1 then None else Some (s.[0], drop 1 s)
  else if opcode =? OP_PUSHDATA2 then if length s <? 2 then None else Some (ReadLE16 s 0, drop 2 s)
  else if length s <? 4 then None else Some (ReadLE32 s 0, drop 4 s).

(** The operation at the head of a script: opcode, operand and rest. *)
Definition GetScriptOp (s : list Z) : option (Z * list Z * list Z) :=
  match s with
  | [] => None
  | opcode :: s =>
      if opcode <=? OP_PUSHDATA4 then
        '(nSize, s) ← operand_size opcode s;
        if length s <? nSize then None else Some (opcode, take (Z.to_nat nSize) s, drop (Z.to_nat nSize) s)
      else Some (opcode, [], s)
  end.

(** ** Walks; each iteration takes at least one byte, so the length of the
    script bounds them. *)

Fixpoint sigop_loop (fuel : nat) (fAccurate : bool) (n lastOpcode : Z) (s : list Z) : Z :=
  match fuel with
  | O => n
  | S fuel' =>
      match GetScriptOp s with
      | None => n
      | Some (opcode, _, s) =>
          let n :=
            if (opcode =? OP_CHECKSIG) || (opcode =? OP_CHECKSIGVERIFY) then u32 (n + 1)
            else if (opcode =? OP_CHECKMULTISIG) || (opcode =? OP_CHECKMULTISIGVERIFY) then
              if fAccurate && (OP_1 <=? lastOpcode) && (lastOpcode <=? OP_16)
              then u32 (n + (lastOpcode - (OP_1 - 1))) else u32 (n + MAX_PUBKEYS_PER_MULTISIG)
            else n in
          sigop_loop fuel' fAccurate n opcode s
      end
  end.
Definition GetSigOpCount (script : list Z) (fAccurate : bool) : Z := sigop_loop (length script) fAccurate 0 OP_INVALIDOPCODE script.

Definition IsPayToScriptHash (script : list Z) : bool :=
  (length script =? 23)%nat && (script.[0] =? OP_HASH160) && (script.[1] =? 0x14) && (script.[22] =? OP_EQUAL).
Definition IsPayToWitnessScriptHash (script : list Z) : bool :=
  (length script =? 34)%nat && (script.[0] =? OP_0) && (script.[1] =? 0x20).

(** The last item a push-only script pushes; [None] when it is not push-only. *)
Fixpoint last_push (fuel : nat) (vData s : list Z) : option (list Z) :=
  match fuel with
  | O => Some vData
  | S fuel' =>
      match s with
      | [] => Some vData
      | _ =>
          match GetScriptOp s with
          | None => None
          | Some (opcode, vData, s) => if OP_16 <? opcode then None else last_push fuel' vData s
          end
      end
  end.
Definition GetSigOpCount_p2sh (script scriptSig : list Z) : Z :=
  if negb (IsPayToScriptHash script) then GetSigOpCount script true
  else match last_push (length scriptSig) [] scriptSig with
       | None => 0
       | Some subscript => GetSigOpCount subscript true
       end.

(** The version and the program of a witness script. *)
Definition IsWitnessProgram (script : list Z) : option (option Z * list Z) :=
  if (length script <? 4) || (42 <? length script) then None
  else if negb (script.[0] =? OP_0) && ((script.[0] <? OP_1) || (OP_16 <? script.[0])) then None
  else if script.[1] + 2 =? length script then Some (DecodeOP_N (script.[0]), drop 2 script)
  else None.

Fixpoint push_only_loop (fuel : nat) (s : list Z) : bool :=
  match fuel with
  | O => true
  | S fuel' =>
      match s with
      | [] => true
      | _ => match GetScriptOp s with None => false | Some (opcode, _, s) => if OP_16 <? opcode then false else push_only_loop fuel' s end
      end
  end.
Definition IsPushOnly (script : list Z) : bool := push_only_loop (length script) script.

Fixpoint valid_ops_loop (fuel : nat) (s : list Z) : bool :=
  match fuel with
  | O => true
  | S fuel' =>
      match s with
      | [] => true
      | _ =>
          match GetScriptOp s with
          | None => false
          | Some (opcode, item, s) =>
              if (MAX_OPCODE <? opcode) || (MAX_SCRIPT_ELEMENT_SIZE <? length item) then false else valid_ops_loop fuel' s
          end
      end
  end.
Definition HasValidOps (script : list Z) : bool := valid_ops_loop (length script) script.

Definition SetMultisig (nRequired : Z) (keys : list (list Z)) : option (list Z) :=
  r ← EncodeOP_N nRequired; k ← EncodeOP_N (length keys);
  Some ([r] ++ concat (map push_data keys) ++ [k; OP_CHECKMULTISIG]).

Definition IsOpSuccess (opcode : Z) : bool :=
  (opcode =? 80) || (opcode =? 98) || ((126 <=? opcode) && (opcode <=? 129)) ||
  ((131 <=? opcode) && (opcode <=? 134)) || ((137 <=? opcode) && (opcode <=? 138)) ||
  ((141 <=? opcode) && (opcode <=? 142)) || ((149 <=? opcode) && (opcode <=? 153)) ||
  ((187 <=? opcode) && (opcode <=? 254)).

(** ** Numbers *)

Lemma flag_80 b : in_u 8 b -> negb (Z.land b 0x80 =? 0) = (128 <=? b).
Proof.
  unfold in_u. intros Hb.
  assert (forallb (fun n : nat => Bool.eqb (negb (Z.land n 0x80 =? 0)) (128 <=? Z.of_nat n)) (seq 0 256) = true) as H by (vm_compute; reflexivity).
  rewrite forallb_forall in H. specialize (H (Z.to_nat b)). rewrite Z2Nat.id in H by lia. apply eqb_prop, H, in_seq. lia.
Qed.

Lemma mask_7f b : Z.land b 0x7f = b mod 128.
Proof. apply (land_ones_mod b 7). lia. Qed.

Lemma lor_80 b : 0 <= b < 128 -> Z.lor b 0x80 = b + 128.
Proof. intros Hb. transitivity (Z.lor b (1 ≪ 7)); [done|]. rewrite (lor_low_high b 1 7) by lia. lia. Qed.

Lemma abs_bytes_val l b (fuel : nat) :
  digits 8 l -> last l = Some b -> b <> 0 -> (length l <= fuel)%nat -> abs_bytes fuel (le_val 8 l) = l.
Proof.
  revert fuel. induction l as [|x l IH]; intros fuel Hd Hl Hb Hf; [done|]. destruct fuel as [|fuel]; [cbn in Hf; lia|].
  inversion Hd as [|? ? Hx Hd']; subst. cbn [abs_bytes le_val]. unfold in_u in Hx. change (2 ^ 8) with 256 in *.
  pose proof (le_val_bound 8 ltac:(lia) l Hd') as Hv.
  assert (x + 256 * le_val 8 l <> 0) as Hne.
  { destruct l as [|y l]; [cbn in Hl; injection Hl as <-; cbn; lia|]. intros F. assert (le_val 8 (y :: l) = 0) as F0 by lia.
    assert (abs_bytes (S (length l)) (le_val 8 (y :: l)) = y :: l) as E by (apply IH; [done|done|done|cbn; lia]). by rewrite F0 in E. }
  rewrite (proj2 (Z.eqb_neq _ _) Hne). change 0xff with (2 ^ 8 - 1). rewrite land_ones_mod, Z.shiftr_div_pow2 by lia. change (2 ^ 8) with 256.
  replace (x + 256 * le_val 8 l) with (x + le_val 8 l * 256) by lia. rewrite Z_mod_plus_full, Z.div_add, Z.mod_small, Z.div_small by lia.
  f_equal. rewrite Z.add_0_l. destruct l as [|y l]; [by destruct fuel|]. apply IH; [done|done|done|cbn in *; lia].
Qed.

Lemma abs_bytes_spec (fuel : nat) m :
  0 < m < 2 ^ (8 * fuel) ->
  exists l b, abs_bytes fuel m = l ++ [b] /\ digits 8 (l ++ [b]) /\ b <> 0 /\ le_val 8 (l ++ [b]) = m /\ (length (l ++ [b]) <= fuel)%nat.
Proof.
  revert m. induction fuel as [|fuel IH]; intros m Hm; [change (2 ^ (8 * 0%nat)) with 1 in Hm; lia|]. cbn [abs_bytes].
  rewrite (proj2 (Z.eqb_neq _ _)) by lia. change 0xff with (2 ^ 8 - 1). rewrite land_ones_mod, Z.shiftr_div_pow2 by lia. change (2 ^ 8) with 256.
  pose proof (Z.div_mod m 256 ltac:(lia)) as Hdm. pose proof (Z.mod_pos_bound m 256 ltac:(lia)) as Hmod.
  replace (8 * S fuel) with (8 + 8 * fuel) in Hm by lia. rewrite Z.pow_add_r in Hm by lia. change (2 ^ 8) with 256 in Hm.
  destruct (decide (m / 256 = 0)) as [E|E].
  - rewrite E. exists [], (m mod 256). replace (abs_bytes fuel 0) with ([] : list Z) by (by destruct fuel). split_and!; try done; try (cbn; lia).
    constructor; [unfold in_u; lia|constructor].
  - assert (0 <= m / 256) by (apply Z.div_pos; lia). destruct (IH (m / 256)) as (l & b & -> & Hd & Hb & Hv & Hl); [split; [lia|apply Z.div_lt_upper_bound; lia]|].
    exists (m mod 256 :: l), b. split_and!; [done|constructor; [unfold in_u; lia|done]|done| |cbn; lia].
    cbn [app le_val]. rewrite Hv. change (2 ^ 8) with 256. lia.
Qed.

(** The number that bytes stand for: magnitude and sign. *)
Definition magnitude (l : list Z) (b : Z) : Z := le_val 8 (l ++ [b mod 128]).

Lemma set_vch_loop vch :
  digits 8 vch -> (length vch <= 7)%nat ->
  for_range 0 (length vch) (fun i r => Z.lor r (i64 (Z.shiftl vch.[i] (8 * i)))) 0 = le_val 8 vch.
Proof.
  intros Hd Hl. replace (le_val 8 vch) with (le_val 8 (take (length vch) vch)) by (by rewrite firstn_all).
  apply (for_range_ind (fun i r => r = le_val 8 (take i vch)) 0 (length vch)); [lia|done|].
  intros i r Hi ->. pose proof (digits_lookup 8 ltac:(lia) vch i Hd) as Hx. unfold in_u in Hx.
  pose proof (le_val_bound 8 ltac:(lia) _ (digits_take 8 i vch Hd)) as Hb. rewrite length_take_le in Hb by lia.
  assert (2 ^ (8 * i) <= 2 ^ 48) by (apply Z.pow_le_mono_r; lia).
  rewrite Z.shiftl_mul_pow2 by lia. unfold i64. rewrite swrap_small; [|lia|].
  - rewrite <- Z.shiftl_mul_pow2 by lia. rewrite lor_low_high by lia. by rewrite le_val_take_S by lia.
  - unfold in_s. pose proof (Z.pow_pos_nonneg 2 (8 * i)). change (2 ^ 8) with 256 in Hx. nia.
Qed.

(** Clearing a bit that is set. *)
Lemma clear_bit x n : 0 <= n < 64 -> in_u 64 x -> Z.testbit x n = true -> Z.land x (u64 (Z.lnot (2 ^ n))) = x - 2 ^ n.
Proof.
  intros Hn Hx Hb. transitivity (Z.ldiff x (2 ^ n)).
  - apply Z.bits_inj'. intros i Hi. rewrite Z.land_spec, Z.ldiff_spec. unfold u64, uwrap. rewrite <- Z.land_ones, Z.land_spec, Z.lnot_spec by lia.
    destruct (decide (i < 64)); [by rewrite Z.ones_spec_low, andb_true_r by lia|]. by rewrite (testbit_small x 64) by (done || lia).
  - symmetry. apply Z.sub_nocarry_ldiff. apply Z.bits_inj'. intros i Hi. rewrite Z.ldiff_spec, Z.testbit_0_l.
    destruct (decide (i = n)) as [->|]; [by rewrite Hb, andb_false_r|]. by rewrite Z.pow2_bits_false by lia.
Qed.

(** The sign bit of the last byte. *)
Lemma high_bit l b :
  digits 8 l -> 128 <= b < 256 -> Z.testbit (le_val 8 l + 2 ^ (8 * length l) * b) (8 * length l + 7) = true.
Proof.
  intros Hd Hb. pose proof (le_val_bound 8 ltac:(lia) l Hd) as Hl. rewrite Z.mul_comm, <- lor_low_high, Z.lor_spec, Z.shiftl_spec by lia.
  replace (8 * length l + 7 - 8 * length l) with 7 by lia. apply orb_true_iff. right. apply Z.testbit_true; [lia|].
  rewrite <- (Z.div_unique_pos b (2 ^ 7) 1 (b - 128)) by lia. done.
Qed.

Lemma set_vch_spec l b :
  digits 8 (l ++ [b]) -> (length (l ++ [b]) <= 7)%nat -> set_vch (l ++ [b]) = if 128 <=? b then - magnitude l b else magnitude l b.
Proof.
  intros Hd Hlen. pose proof Hd as Hd'. apply digits_app in Hd' as [Hdl Hdb]. inversion Hdb as [|? ? Hb _]; subst.
  unfold set_vch. rewrite last_snoc, set_vch_loop, flag_80 by done. unfold magnitude. rewrite !le_val_app by lia. cbn [le_val]. rewrite !Z.mul_0_r, !Z.add_0_r.
  rewrite length_app in *. cbn [length] in *. pose proof (le_val_bound 8 ltac:(lia) l Hdl) as Hl. unfold in_u in Hb. change (2 ^ 8) with 256 in Hb.
  set (k := 8 * length l) in *. assert (0 < 2 ^ k <= 2 ^ 48) as Hk by (split; [apply Z.pow_pos_nonneg; lia|apply Z.pow_le_mono_r; lia]).
  destruct (128 <=? b) eqn:E; cases_bool; [|by rewrite Z.mod_small by lia].
  replace (8 * (Z.of_nat (length l + 1) - 1)) with k by lia. assert (b mod 128 = b - 128) as -> by (symmetry; apply (Z.mod_unique_pos _ _ 1); lia).
  rewrite (u64_small (le_val 8 l + _)) by (unfold in_u; nia). rewrite (Z.shiftl_mul_pow2 128) by lia.
  rewrite (u64_small (128 * 2 ^ k)) by (unfold in_u; lia).
  assert (Z.land (le_val 8 l + 2 ^ k * b) (u64 (Z.lnot (128 * 2 ^ k))) = le_val 8 l + 2 ^ k * (b - 128)) as ->.
  2: { unfold i64. rewrite (swrap_small 64 (le_val 8 l + _)) by (try lia; unfold in_s; nia). apply swrap_small; [lia|]. unfold in_s. nia. }
  replace (128 * 2 ^ k) with (2 ^ (k + 7)) by (rewrite Z.pow_add_r by lia; change (2 ^ 7) with 128; lia).
  rewrite clear_bit; [|lia|unfold in_u; nia|apply (high_bit l b); [done|lia]].
  rewrite Z.pow_add_r by lia. change (2 ^ 7) with 128. lia.
Qed.

(** The bytes [serialize] gives to a sign and a magnitude. *)
Definition encode (neg : bool) (l : list Z) (b : Z) : list Z :=
  if 128 <=? b then l ++ [b] ++ [if neg then 128 else 0] else if neg then l ++ [b + 128] else l ++ [b].

Lemma abs_u64 v : v < 0 -> - 2 ^ 63 < v -> u64 (u64 (Z.lnot (u64 v)) + 1) = - v.
Proof.
  intros Hv Hb. assert (u64 v = v + 2 ^ 64) as -> by (unfold u64, uwrap; symmetry; apply (Z.mod_unique_pos _ _ (-1)); lia).
  assert (Z.lnot (v + 2 ^ 64) = - v - 1 - 2 ^ 64) as -> by (unfold Z.lnot; lia).
  assert (u64 (- v - 1 - 2 ^ 64) = - v - 1) as -> by (unfold u64, uwrap; symmetry; apply (Z.mod_unique_pos _ _ (-1)); lia).
  rewrite u64_small by (unfold in_u; lia). lia.
Qed.

Lemma serialize_encode v l b :
  v <> 0 -> - 2 ^ 55 < v < 2 ^ 55 -> digits 8 (l ++ [b]) -> b <> 0 -> le_val 8 (l ++ [b]) = Z.abs v -> (length (l ++ [b]) <= 8)%nat ->
  serialize v = encode (v <? 0) l b.
Proof.
  intros Hv Hr Hd Hb Hval Hlen. apply digits_app in Hd as Hd'. destruct Hd' as [_ Hdb]. inversion Hdb as [|? ? Hbu _]; subst.
  assert (forall a, a = Z.abs v -> abs_bytes 8 a = l ++ [b]) as Habs.
  { intros a ->. rewrite <- Hval. apply (abs_bytes_val _ b); [done|apply last_snoc|done|done]. }
  unfold serialize, encode. rewrite (proj2 (Z.eqb_neq v 0)) by done. destruct (v <? 0) eqn:E; cases_bool.
  - rewrite Habs by (rewrite abs_u64; lia). rewrite last_snoc. cbn [from_option id]. rewrite flag_80 by done.
    destruct (128 <=? b) eqn:Eb; cases_bool; [by rewrite <- app_assoc|]. rewrite removelast_last, lor_80 by (unfold in_u in Hbu; lia). done.
  - rewrite Habs by (rewrite u64_small; [lia|unfold in_u; lia]). rewrite last_snoc. cbn [from_option id]. rewrite flag_80 by done.
    destruct (128 <=? b) eqn:Eb; cases_bool; [by rewrite <- app_assoc|done].
Qed.

(** Decoding what [encode] gives. *)
Lemma encode_spec neg l b :
  digits 8 (l ++ [b]) -> b <> 0 -> (length (encode neg l b) <= 7)%nat ->
  digits 8 (encode neg l b) /\ set_vch (encode neg l b) = (if neg then - le_val 8 (l ++ [b]) else le_val 8 (l ++ [b])) /\
  forall n, CScriptNum (encode neg l b) true n = (if n <? length (encode neg l b) then inl NumberOverflow else inr (set_vch (encode neg l b))).
Proof.
  intros Hd Hb Hlen. apply digits_app in Hd as Hd'. destruct Hd' as [Hdl Hdb]. inversion Hdb as [|? ? Hbu _]; subst. unfold in_u in Hbu. change (2 ^ 8) with 256 in Hbu.
  unfold encode in *. destruct (128 <=? b) eqn:E; cases_bool.
  - set (c := if neg then 128 else 0) in *. assert (digits 8 ((l ++ [b]) ++ [c])) as Hdc.
    { apply digits_app. split; [done|]. constructor; [unfold in_u, c; destruct neg; lia|constructor]. }
    rewrite app_assoc in *. split; [done|]. split.
    + rewrite set_vch_spec by done. unfold magnitude. rewrite (le_val_app 8 ltac:(lia) (l ++ [b])). replace (c mod 128) with 0 by (unfold c; by destruct neg).
      cbn [le_val]. rewrite !Z.mul_0_r, Z.add_0_r. unfold c. by destruct neg.
    + intros n. unfold CScriptNum. rewrite last_snoc. cbn [from_option id]. destruct (n <? length ((l ++ [b]) ++ [c])); [done|].
      rewrite (length_app (l ++ [b])), (length_app l). cbn [length]. replace (length l + 1 + 1 - 2)%nat with (length l) by lia.
      assert (((l ++ [b]) ++ [c]).[length l] = b) as -> by (rewrite <- app_assoc, app_nth2, Nat.sub_diag by lia; done).
      assert ((Z.land b 0x80 =? 0) = false) as ->.
      { apply negb_true_iff. rewrite flag_80 by (unfold in_u; lia). apply Z.leb_le. lia. }
      rewrite (proj2 (Nat.leb_gt _ _)) by lia. cbn [orb]. by rewrite !andb_false_r.
  - assert (forall c, c = b \/ c = b + 128 -> digits 8 (l ++ [c]) /\ c mod 128 = b /\
      forall n, CScriptNum (l ++ [c]) true n = (if n <? length (l ++ [c]) then inl NumberOverflow else inr (set_vch (l ++ [c])))) as Hc.
    { intros c Hc. assert (c mod 128 = b) as Hm by (destruct Hc as [-> | ->]; [apply Z.mod_small; lia|symmetry; apply (Z.mod_unique_pos _ _ 1); lia]).
      split; [apply digits_app; split; [done|]; constructor; [unfold in_u; lia|constructor]|]. split; [done|].
      intros n. unfold CScriptNum. rewrite last_snoc. cbn [from_option id]. rewrite mask_7f, Hm, (proj2 (Z.eqb_neq b 0)) by done. cbn [andb].
      by rewrite andb_false_r. }
    destruct neg.
    + destruct (Hc (b + 128) ltac:(by right)) as (H1 & H2 & H3). split; [done|]. split; [|done]. rewrite set_vch_spec by done. unfold magnitude.
      rewrite H2, (proj2 (Z.leb_le _ _)) by lia. done.
    + destruct (Hc b ltac:(by left)) as (H1 & H2 & H3). split; [done|]. split; [|done]. rewrite set_vch_spec by done. unfold magnitude.
      rewrite H2, (proj2 (Z.leb_gt _ _)) by lia. done.
Qed.

(** A magnitude below a byte count has its high byte below that. *)
Lemma last_byte_bound l b : digits 8 l -> 0 <= b -> 2 ^ (8 * length l) * b <= le_val 8 (l ++ [b]) < 2 ^ (8 * length l) * (b + 1).
Proof.
  intros Hd Hb. pose proof (le_val_bound 8 ltac:(lia) l Hd). rewrite le_val_app by lia. cbn [le_val]. lia.
Qed.

Lemma serialize_spec v :
  v <> 0 -> - 2 ^ 55 < v < 2 ^ 55 ->
  exists l b, serialize v = encode (v <? 0) l b /\ digits 8 (l ++ [b]) /\ b <> 0 /\ le_val 8 (l ++ [b]) = Z.abs v /\
    length (encode (v <? 0) l b) <= 7.
Proof.
  intros Hv Hr. destruct (abs_bytes_spec 7 (Z.abs v)) as (l & b & _ & Hd & Hb & Hval & Hlen); [change (8 * 7%nat) with 56; lia|].
  exists l, b. split; [apply serialize_encode; try done; lia|]. split; [done|]. split; [done|]. split; [done|].
  apply digits_app in Hd as [Hdl Hdb]. inversion Hdb as [|? ? Hbu _]; subst. unfold in_u in Hbu.
  pose proof (last_byte_bound l b Hdl ltac:(lia)) as [Hlo _]. rewrite length_app in Hlen. cbn [length] in Hlen.
  unfold encode. destruct (128 <=? b) eqn:E; cases_bool; [|destruct (v <? 0); rewrite length_app; cbn; lia].
  rewrite !length_app. cbn [length]. assert (length l <> 6%nat); [|lia]. intros F. rewrite F in Hlo. change (2 ^ (8 * 6%nat)) with (2 ^ 48) in Hlo. lia.
Qed.

Lemma serialize_decode v :
  - 2 ^ 55 < v < 2 ^ 55 -> digits 8 (serialize v) /\ (length (serialize v) <= 7)%nat /\ set_vch (serialize v) = v /\
  forall n, length (serialize v) <= n -> CScriptNum (serialize v) true n = inr v.
Proof.
  intros Hr. destruct (decide (v = 0)) as [-> |Hv].
  { split; [constructor|]. split; [cbn; lia|]. split; [done|]. intros n Hn. unfold CScriptNum. change (serialize 0) with ([] : list Z) in *. by rewrite (proj2 (Z.ltb_ge _ _)) by lia. }
  destruct (serialize_spec v Hv Hr) as (l & b & -> & Hd & Hb & Hval & Hlen). destruct (encode_spec (v <? 0) l b Hd Hb ltac:(lia)) as (H1 & H2 & H3).
  assert (set_vch (encode (v <? 0) l b) = v) as E by (rewrite H2, Hval; destruct (v <? 0) eqn:F; cases_bool; lia).
  split; [done|]. split; [lia|]. split; [done|]. intros n Hn. by rewrite H3, (proj2 (Z.ltb_ge _ _)), E by lia.
Qed.

(** The encodings accepted as minimal. *)
Lemma minimal_inv l c n v :
  digits 8 (l ++ [c]) -> CScriptNum (l ++ [c]) true n = inr v ->
  v = set_vch (l ++ [c]) /\ (c mod 128 <> 0 \/ exists l' b, l = l' ++ [b] /\ 128 <= b).
Proof.
  intros Hd. unfold CScriptNum. destruct (n <? length (l ++ [c])); [done|]. rewrite last_snoc. cbn [from_option id]. rewrite mask_7f.
  rewrite (proj2 (Nat.ltb_lt _ _)) by (rewrite length_app; cbn; lia). cbn [andb].
  destruct (c mod 128 =? 0) eqn:E; cases_bool; [|intros [= <-]; split; [done|by left]]. cbn [andb].
  destruct (length (l ++ [c]) <=? 1)%nat eqn:E1; [done|]. cases_bool. cbn [orb]. rewrite length_app in *. cbn [length] in *.
  destruct l as [|b l' _] using rev_ind; [cbn in E1; lia|]. rewrite length_app in *. cbn [length] in *.
  replace (length l' + 1 + 1 - 2)%nat with (length l') by lia.
  assert (((l' ++ [b]) ++ [c]).[length l'] = b) as -> by (rewrite <- app_assoc, app_nth2, Nat.sub_diag by lia; done).
  apply digits_app in Hd as [Hd _]. apply digits_app in Hd as [_ Hb]. inversion Hb as [|? ? Hbu _]; subst.
  destruct (Z.land b 0x80 =? 0) eqn:E2; [done|]. intros [= <-]. split; [done|]. right. exists l', b. split; [done|].
  apply negb_true_iff in E2. rewrite flag_80 in E2 by done. by cases_bool.
Qed.

Lemma minimal_unique vch n v :
  digits 8 vch -> (length vch <= 7)%nat -> CScriptNum vch true n = inr v -> vch = serialize v.
Proof.
  intros Hd Hlen. destruct vch as [|c l _] using rev_ind.
  { unfold CScriptNum. destruct (n <? _); [done|]. by intros [= <-]. }
  intros (-> & Hmin)%minimal_inv; [|done]. rewrite set_vch_spec by done. apply digits_app in Hd as Hd'. destruct Hd' as [Hdl Hdc].
  inversion Hdc as [|? ? Hc _]; subst. unfold in_u in Hc. change (2 ^ 8) with 256 in Hc. rewrite length_app in Hlen. cbn [length] in Hlen.
  pose proof (Z.mod_pos_bound c 128 ltac:(lia)) as Hcm. pose proof (last_byte_bound l (c mod 128) Hdl ltac:(lia)) as Hmag. fold (magnitude l c) in Hmag.
  assert (0 < 2 ^ (8 * length l) <= 2 ^ 48) as Hp by (split; [apply Z.pow_pos_nonneg; lia|apply Z.pow_le_mono_r; lia]).
  assert (0 <= magnitude l c < 2 ^ 55) as Hm55 by nia.
  destruct (decide (c mod 128 = 0)) as [E0|E0].
  - destruct Hmin as [?|(l' & b & -> & Hb)]; [done|]. assert (c = 0 \/ c = 128) as Hcc.
    { pose proof (Z.div_mod c 128 ltac:(lia)). assert (0 <= c / 128 < 2) by (split; [apply Z.div_pos; lia|apply Z.div_lt_upper_bound; lia]). lia. }
    assert (magnitude (l' ++ [b]) c = le_val 8 (l' ++ [b])) as Emag.
    { unfold magnitude. rewrite E0, (le_val_app 8 ltac:(lia) (l' ++ [b])). cbn [le_val]. lia. }
    rewrite Emag in *. apply digits_app in Hdl as Hdl'. destruct Hdl' as [Hdl' _]. pose proof (last_byte_bound l' b Hdl' ltac:(lia)).
    pose proof (Z.pow_pos_nonneg 2 (8 * length l') ltac:(lia) ltac:(lia)). assert (0 < le_val 8 (l' ++ [b])) by nia.
    rewrite (serialize_encode _ l' b); [|destruct (128 <=? c); lia|destruct (128 <=? c); lia|done|lia|destruct (128 <=? c); lia|lia].
    unfold encode. rewrite (proj2 (Z.leb_le 128 b)) by done. rewrite <- app_assoc. do 2 f_equal. destruct Hcc as [-> | ->]; cbn [Z.leb].
    + by rewrite (proj2 (Z.ltb_ge _ _)) by (change (128 <=? 0) with false; lia).
    + by rewrite (proj2 (Z.ltb_lt _ _)) by (change (128 <=? 128) with true; lia).
  - assert (0 < magnitude l c) by nia.
    rewrite (serialize_encode _ l (c mod 128)); [|destruct (128 <=? c); lia|destruct (128 <=? c); lia| |done| |rewrite length_app; cbn; lia].
    + unfold encode. rewrite (proj2 (Z.leb_gt 128 (c mod 128))) by lia. destruct (128 <=? c) eqn:E; cases_bool.
      * rewrite (proj2 (Z.ltb_lt _ 0)) by lia. do 2 f_equal. rewrite (Z.mod_eq c 128), <- (Z.div_unique_pos c 128 1 (c - 128)) by lia. lia.
      * rewrite (proj2 (Z.ltb_ge _ 0)) by lia. by rewrite Z.mod_small by lia.
    + apply digits_app. split; [done|]. constructor; [unfold in_u; lia|constructor].
    + fold (magnitude l c). destruct (128 <=? c); lia.
Qed.

(** ** Pushes *)

Lemma WriteLE_replicate n x : WriteLE n (replicate n 0) 0 x = le_digits 8 n x.
Proof. unfold WriteLE. rewrite take_0, Nat.add_0_l, drop_ge by (rewrite length_replicate; lia). by rewrite app_nil_r. Qed.

(** Reading a size of [k] bytes back. *)
Lemma read_size (k : nat) x (b rest : list Z) :
  0 <= x < 2 ^ (8 * k) -> ReadLE k (le_digits 8 k x ++ b ++ rest) 0 = x /\ drop k (le_digits 8 k x ++ b ++ rest) = b ++ rest.
Proof.
  intros Hx. unfold ReadLE. rewrite drop_0. pose proof (le_digits_length 8 k x) as Hl.
  rewrite take_app_length' by done. rewrite drop_app_length' by done. rewrite le_val_digits, Z.mod_small by lia. done.
Qed.

Lemma take_operand (b rest : list Z) x : x = Z.of_nat (length b) ->
  (if length (b ++ rest) <? x then None else Some (take (Z.to_nat x) (b ++ rest), drop (Z.to_nat x) (b ++ rest))) = Some (b, rest).
Proof.
  intros ->. rewrite length_app, (proj2 (Z.ltb_ge _ _)) by lia. by rewrite Nat2Z.id, take_app_length, drop_app_length.
Qed.

(** A push is decoded as the bytes that were pushed. *)
Lemma push_data_op b rest :
  length b < 2 ^ 32 -> exists opcode, GetScriptOp (push_data b ++ rest) = Some (opcode, b, rest) /\ opcode <= OP_PUSHDATA4.
Proof.
  intros Hb. unfold push_data. rewrite <- app_assoc.
  assert (forall opcode s, opcode <= OP_PUSHDATA4 -> operand_size opcode s = Some (Z.of_nat (length b), b ++ rest) ->
    GetScriptOp (opcode :: s) = Some (opcode, b, rest)) as Hgo.
  { intros opcode s Hop Hs. unfold GetScriptOp. rewrite (proj2 (Z.leb_le _ _)), Hs, bind_some by done.
    pose proof (take_operand b rest (length b) eq_refl) as Ht. destruct (length (b ++ rest) <? _); [done|]. by injection Ht as -> ->. }
  unfold OP_PUSHDATA1, OP_PUSHDATA2, OP_PUSHDATA4, operand_size in *.
  destruct (length b <? 76) eqn:E1; [|destruct (length b <=? 255) eqn:E2; [|destruct (length b <=? 65535) eqn:E3]]; cases_bool; cbn [app]; eexists; (split; [apply Hgo|]).
  - unfold u8. rewrite uwrap_small by (unfold in_u; lia). lia.
  - unfold u8, OP_PUSHDATA1. rewrite uwrap_small by (unfold in_u; lia). by rewrite (proj2 (Z.ltb_lt _ _)) by lia.
  - unfold u8. rewrite uwrap_small by (unfold in_u; lia). lia.
  - lia.
  - unfold OP_PUSHDATA1, u8. rewrite uwrap_small by (unfold in_u; lia). rewrite Z.ltb_irrefl, Z.eqb_refl. cbn [app length nth drop]. by rewrite (proj2 (Z.ltb_ge _ _)) by lia.
  - lia.
  - lia.
  - unfold WriteLE16. rewrite WriteLE_replicate. destruct (read_size 2 (length b) b rest) as [Hr Hd]; [change (8 * 2%nat) with 16; lia|].
    change (77 <? OP_PUSHDATA1) with false. change (77 =? OP_PUSHDATA1) with false. change (77 =? OP_PUSHDATA2) with true. unfold ReadLE16.
    rewrite Hr, Hd. rewrite (proj2 (Z.ltb_ge _ _)); [done|].
    rewrite length_app, le_digits_length by lia. lia.
  - lia.
  - lia.
  - unfold WriteLE32. rewrite WriteLE_replicate. destruct (read_size 4 (length b) b rest) as [Hr Hd]; [change (8 * 4%nat) with 32; lia|].
    change (78 <? OP_PUSHDATA1) with false. change (78 =? OP_PUSHDATA1) with false. change (78 =? OP_PUSHDATA2) with false. unfold ReadLE32.
    rewrite Hr, Hd. rewrite (proj2 (Z.ltb_ge _ _)); [done|].
    rewrite length_app, le_digits_length by lia. lia.
  - lia.
Qed.

Lemma push_data_nonempty b : push_data b <> [].
Proof. unfold push_data. repeat case_if; done. Qed.

(** A script that pushes items is push-only, and its last item is found. *)
Lemma last_push_items items (fuel : nat) vData :
  Forall (fun b => length b < 2 ^ 32) items -> (length (concat (map push_data items)) <= fuel)%nat ->
  last_push fuel vData (concat (map push_data items)) = Some (default vData (last items)) /\
  push_only_loop fuel (concat (map push_data items)) = true.
Proof.
  revert fuel vData. induction items as [|b items IH]; intros fuel vData Hall Hf; [by destruct fuel|].
  inversion Hall as [|? ? Hb Hall']; subst. cbn [map concat] in *. pose proof (push_data_nonempty b) as Hne.
  destruct (push_data_op b (concat (map push_data items)) Hb) as (opcode & Hop & Hle). rewrite length_app in Hf.
  destruct (push_data b) as [|x p] eqn:Ep; [done|]. cbn [length app] in *. destruct fuel as [|fuel]; [lia|]. cbn [last_push push_only_loop]. rewrite Hop.
  rewrite (proj2 (Z.ltb_ge _ _)) by (unfold OP_16, OP_PUSHDATA4 in *; lia). destruct (IH fuel b Hall' ltac:(lia)) as [-> ->].
  split; [|done]. destruct items as [|y items]; [done|]. rewrite last_cons_cons. destruct (last (y :: items)) eqn:F; [done|]. by apply last_None in F.
Qed.

(** ** Signature operations *)

Lemma GetScriptOp_shorter s opcode d r : GetScriptOp s = Some (opcode, d, r) -> (length r < length s)%nat.
Proof.
  unfold GetScriptOp. destruct s as [|x s]; [done|]. cbn [length]. case_if; [|intros [= _ _ <-]; lia].
  destruct (operand_size x s) as [[k s']|] eqn:Eo; [|done]. rewrite bind_some. case_if; [done|]. intros [= _ _ <-]. rewrite length_drop.
  assert (length s' <= length s)%nat; [|lia]. unfold operand_size in Eo. repeat (case_if_in Eo; [done || by injection Eo as _ <-; rewrite ?length_drop; lia|]).
  repeat case_if_in Eo; try done; injection Eo as _ <-; rewrite ?length_drop; lia.
Qed.

(** At most twenty for each byte of a script, so the counter does not wrap. *)
Lemma sigop_bound (fuel : nat) acc n lastOpcode s :
  0 <= n -> n + 20 * fuel < 2 ^ 32 -> 0 <= sigop_loop fuel acc n lastOpcode s - n <= 20 * fuel.
Proof.
  revert n lastOpcode s. induction fuel as [|fuel IH]; intros n lastOpcode s Hn Hb; cbn [sigop_loop]; [lia|].
  destruct (GetScriptOp s) as [[[opcode d] r]|]; [|lia].
  assert (forall k, 0 <= k <= 20 -> 0 <= sigop_loop fuel acc (u32 (n + k)) opcode r - n <= 20 * S fuel) as Hk.
  { intros k Hk. rewrite u32_small by (unfold in_u; lia). specialize (IH (n + k) opcode r ltac:(lia) ltac:(lia)). lia. }
  unfold MAX_PUBKEYS_PER_MULTISIG. case_if; [apply Hk; lia|]. case_if; [case_if; [|apply Hk; lia]|].
  - cases_bool. apply Hk. unfold OP_1, OP_16 in *. lia.
  - specialize (IH n opcode r ltac:(lia) ltac:(lia)). lia.
Qed.

(** The number that an operation pushes. *)
Definition pushed_number (opcode : Z) (data : list Z) : Z := if opcode <=? OP_PUSHDATA4 then set_vch data else opcode - (OP_1 - 1).

Lemma push_int64_op v rest : 0 <= v < 2 ^ 55 -> exists opcode data, GetScriptOp (push_int64 v ++ rest) = Some (opcode, data, rest) /\ pushed_number opcode data = v.
Proof.
  intros Hv. unfold push_int64. rewrite (proj2 (Z.eqb_neq v (-1))) by lia. cbn [orb]. destruct ((1 <=? v) && (v <=? 16)) eqn:E.
  - cases_bool. assert (u8 (v + (OP_1 - 1)) = v + 80) as -> by (apply uwrap_small; unfold in_u, OP_1; lia). exists (v + 80), [].
    cbn [app GetScriptOp]. unfold pushed_number, OP_PUSHDATA4, OP_1. rewrite (proj2 (Z.leb_gt _ _)) by lia. split; [done|lia].
  - destruct (v =? 0) eqn:E0; cases_bool.
    { subst. exists OP_0, []. split; [|done]. cbn. by rewrite (proj2 (Z.ltb_ge _ _)) by (unfold OP_0; lia). }
    destruct (serialize_decode v ltac:(lia)) as (_ & Hl & Hs & _).
    destruct (push_data_op (serialize v) rest ltac:(lia)) as (opcode & Ho & Hle). exists opcode, (serialize v). split; [done|].
    unfold pushed_number. by rewrite (proj2 (Z.leb_le _ _)).
Qed.

(** No number is pushed by a prefix of what pushes another. *)
Lemma push_int64_prefix v w s t : 0 <= v < 2 ^ 55 -> 0 <= w < 2 ^ 55 -> push_int64 v ++ s = push_int64 w ++ t -> v = w.
Proof.
  intros Hv Hw E. destruct (push_int64_op v s Hv) as (o1 & d1 & E1 & <-). destruct (push_int64_op w t Hw) as (o2 & d2 & E2 & <-).
  rewrite E, E2 in E1. by simplify_eq.
Qed.

(** Script numbers within seven bytes are read back from their encoding, which
    is accepted as minimal; every encoding accepted as minimal is the one of its
    number, so a number has one minimal encoding. *)
Theorem scriptnum_roundtrip :
  (forall v, - 2 ^ 55 < v < 2 ^ 55 -> digits 8 (serialize v) /\ set_vch (serialize v) = v /\
    forall n, length (serialize v) <= n -> CScriptNum (serialize v) true n = inr v) /\
  (forall vch n v, digits 8 vch -> (length vch <= 7)%nat -> CScriptNum vch true n = inr v -> vch = serialize v).
Proof.
  split; [|apply minimal_unique]. intros v Hv. destruct (serialize_decode v Hv) as (H1 & _ & H2 & H3). done.
Qed.

(** Pushed items are decoded one by one: a script of pushes is push-only, and
    spending a script hash with it counts the signature operations of the last
    item, at most twenty for each byte. *)
Theorem push_roundtrip :
  (forall b rest, length b < 2 ^ 32 -> exists opcode, GetScriptOp (push_data b ++ rest) = Some (opcode, b, rest) /\ opcode <= OP_PUSHDATA4) /\
  (forall items redeem script, Forall (fun b => length b < 2 ^ 32) (items ++ [redeem]) -> IsPayToScriptHash script = true ->
    IsPushOnly (concat (map push_data (items ++ [redeem]))) = true /\
    GetSigOpCount_p2sh script (concat (map push_data (items ++ [redeem]))) = GetSigOpCount redeem true) /\
  (forall script acc, 20 * length script < 2 ^ 32 -> 0 <= GetSigOpCount script acc <= 20 * length script).
Proof.
  split; [apply push_data_op|]. split.
  - intros items redeem script Hall Hs. destruct (last_push_items (items ++ [redeem]) _ [] Hall (Nat.le_refl _)) as [H1 H2].
    split; [exact H2|]. unfold GetSigOpCount_p2sh. rewrite Hs. cbn [negb]. rewrite H1, last_snoc. done.
  - intros script acc Hl. unfold GetSigOpCount. pose proof (sigop_bound (length script) acc 0 OP_INVALIDOPCODE script). lia.
Qed.

End Script.
