(* ===== verification/TxCheck.v ===== *)
(** * Checks of a transaction by itself ([consensus/amount.h],
    [consensus/tx_check.cpp], [primitives/transaction.cpp])

    [CheckTransaction] accepts exactly the transactions that satisfy the rules
    it lists, and the value of the outputs of what it accepts is defined. *)
From stdpp Require Import prelude gmap strings.
From S2P Require Import Prelude Serialize Transaction Coins.

Module TxCheck.
Import Transaction.

(** ** Amounts *)

Definition COIN : Z := 1000000.
Definition CENT : Z := 10000.
Definition MIN_TX_FEE : Z := Z.quot CENT 10.
Definition PERKB_TX_FEE : Z := CENT.
Definition MIN_TXOUT_AMOUNT : Z := CENT.
Definition MAX_MONEY : Z := 210000000 * COIN.
Definition MoneyRange (v : Z) : bool := (0 <=? v) && (v <=? MAX_MONEY).

(** [GetValueOut]; [None] is the exception, or the failed assertion. *)
Fixpoint value_loop (acc : Z) (vo : list CTxOut) : option Z :=
  match vo with
  | [] => if MoneyRange acc then Some acc else None
  | o :: r =>
      if negb (MoneyRange (nValue o)) || negb (MoneyRange (i64 (acc + nValue o))) then None
      else value_loop (i64 (acc + nValue o)) r
  end.
Definition GetValueOut (tx : CTransaction) : option Z := value_loop 0 (vout tx).

(** ** CheckTransaction *)

Inductive TxValidationResult :=
  TX_RESULT_UNSET | TX_CONSENSUS | TX_RECENT_CONSENSUS_CHANGE | TX_INPUTS_NOT_STANDARD | TX_NOT_STANDARD | TX_MISSING_INPUTS |
  TX_PREMATURE_SPEND | TX_WITNESS_MUTATED | TX_WITNESS_STRIPPED | TX_CONFLICT | TX_MEMPOOL_POLICY | TX_NO_MEMPOOL.

(** The state a check leaves: [Invalid] with a kind and a reason, or valid. *)
Inductive verdict := Valid | Invalid (result : TxValidationResult) (reject_reason : string).

Definition MAX_BLOCK_WEIGHT : Z := 4000000.
Definition IsZeroAllowed (nTimeTx : Z) : bool := 1447700000 <=? nTimeTx.

Definition below_minimum (tx : CTransaction) (o : CTxOut) : bool :=
  negb (CTxOut_IsEmpty o) && (nValue o <? MIN_TXOUT_AMOUNT) &&
  ((nVersion tx <? 3) && negb (IsZeroAllowed (nTime tx) && (nValue o =? 0))).

(** The loop over the outputs. *)
Fixpoint check_outputs (tx : CTransaction) (nValueOut : Z) (vo : list CTxOut) : verdict :=
  match vo with
  | [] => Valid
  | o :: r =>
      if nValue o <? 0 then Invalid TX_CONSENSUS "bad-txns-vout-negative"
      else if MAX_MONEY <? nValue o then Invalid TX_CONSENSUS "bad-txns-vout-toolarge"
      else
        let nValueOut := i64 (nValueOut + nValue o) in
        if negb (MoneyRange nValueOut) then Invalid TX_CONSENSUS "bad-txns-txouttotal-toolarge"
        else if below_minimum tx o then Invalid TX_CONSENSUS "bad-txns-txoutvalue-belowminimum"
        else check_outputs tx nValueOut r
  end.

(** The loop over the inputs, with the set of outpoints seen. *)
Fixpoint check_duplicates (vInOutPoints : gset COutPoint) (l : list CTxIn) : verdict :=
  match l with
  | [] => Valid
  | i :: r =>
      if decide (prevout i ∈ vInOutPoints) then Invalid TX_CONSENSUS "bad-txns-inputs-duplicate"
      else check_duplicates ({[ prevout i ]} ∪ vInOutPoints) r
  end.

Fixpoint check_prevouts (l : list CTxIn) : verdict :=
  match l with
  | [] => Valid
  | i :: r => if COutPoint_IsNull (prevout i) then Invalid TX_CONSENSUS "bad-txns-prevout-null" else check_prevouts r
  end.

(** The next check, when the last one passed. *)
Definition and_then (v w : verdict) : verdict := match v with Valid => w | Invalid _ _ => v end.

Definition oversize (tx : CTransaction) : bool :=
  MAX_BLOCK_WEIGHT <?
  u64 (GetSerializeSize CTransaction_Serialize tx (Z.lor PROTOCOL_VERSION SERIALIZE_TRANSACTION_NO_WITNESS) 0 * WITNESS_SCALE_FACTOR).

Definition CheckTransaction (tx : CTransaction) : verdict :=
  if (length (vin tx) =? 0)%nat then Invalid TX_CONSENSUS "bad-txns-vin-empty"
  else if (length (vout tx) =? 0)%nat then Invalid TX_CONSENSUS "bad-txns-vout-empty"
  else if oversize tx then Invalid TX_CONSENSUS "bad-txns-oversize"
  else
    and_then (check_outputs tx 0 (vout tx))
    (and_then (check_duplicates ∅ (vin tx))
    (if IsCoinBase tx then
       match vin tx with
       | i :: _ =>
           if (length (scriptSig i) <? 2) || (100 <? length (scriptSig i)) then Invalid TX_CONSENSUS "bad-cb-length" else Valid
       | [] => Valid
       end
     else check_prevouts (vin tx))).

(** ** What is accepted *)

Definition total (vo : list CTxOut) : Z := foldr (fun o s => nValue o + s) 0 vo.
Definition in_money (v : Z) : Prop := 0 <= v <= MAX_MONEY.

Record well_formed (tx : CTransaction) : Prop := {
  wf_vin : vin tx <> [];
  wf_vout : vout tx <> [];
  wf_size : 4 * length (SerializeTransaction 0 tx) <= MAX_BLOCK_WEIGHT;
  wf_values : Forall (fun o => in_money (nValue o)) (vout tx);
  wf_total : total (vout tx) <= MAX_MONEY;
  (** Transactions before version 3 have no small outputs, but empty ones, and
      ones without value from a certain time on. *)
  wf_minimum : Forall (fun o => MIN_TXOUT_AMOUNT <= nValue o \/ CTxOut_IsEmpty o = true \/ 3 <= nVersion tx \/
                                (IsZeroAllowed (nTime tx) = true /\ nValue o = 0)) (vout tx);
  wf_inputs : NoDup (map prevout (vin tx));
  wf_coinbase : IsCoinBase tx = true -> Forall (fun i => 2 <= length (scriptSig i) <= 100) (vin tx);
  wf_prevouts : IsCoinBase tx = false -> Forall (fun i => COutPoint_IsNull (prevout i) = false) (vin tx)
}.

Lemma MoneyRange_spec v : MoneyRange v = true <-> in_money v.
Proof. unfold MoneyRange, in_money. by rewrite andb_true_iff, !Z.leb_le. Qed.

Lemma MoneyRange_false v : MoneyRange v = false <-> ~ in_money v.
Proof. rewrite <- MoneyRange_spec. symmetry. apply not_true_iff_false. Qed.

(** Sums of two amounts do not overflow. *)
Lemma sum_i64 a v : in_money a -> in_money v -> i64 (a + v) = a + v.
Proof. unfold in_money, MAX_MONEY, COIN, i64. intros. apply swrap_small; [lia|]. unfold in_s. lia. Qed.

Lemma total_nonneg vo : Forall (fun o => in_money (nValue o)) vo -> 0 <= total vo.
Proof. induction 1 as [|o vo [Ho _] _ IH]; cbn; [lia|]. unfold total in *. lia. Qed.

Lemma value_loop_spec vo acc :
  in_money acc -> (Forall (fun o => in_money (nValue o)) vo /\ acc + total vo <= MAX_MONEY) -> value_loop acc vo = Some (acc + total vo).
Proof.
  revert acc. induction vo as [|o vo IH]; intros acc Ha [Hv Ht]; cbn [value_loop].
  - rewrite (proj2 (MoneyRange_spec acc)) by done. f_equal. cbn. lia.
  - inversion Hv as [|? ? Ho Hv']; subst. pose proof (total_nonneg vo Hv'). cbn [total foldr] in Ht. fold (total vo) in Ht.
    assert (in_money (acc + nValue o)) as Hs by (unfold in_money in *; lia).
    rewrite sum_i64 by done. rewrite (proj2 (MoneyRange_spec _) Ho), (proj2 (MoneyRange_spec _) Hs). cbn [negb orb].
    rewrite IH; [|done|split; [done|lia]]. f_equal. cbn [total foldr]. fold (total vo). lia.
Qed.

Lemma below_minimum_spec tx o :
  below_minimum tx o = false <->
  (MIN_TXOUT_AMOUNT <= nValue o \/ CTxOut_IsEmpty o = true \/ 3 <= nVersion tx \/ (IsZeroAllowed (nTime tx) = true /\ nValue o = 0)).
Proof.
  unfold below_minimum. destruct (CTxOut_IsEmpty o); cbn [negb andb]; [tauto|]. rewrite andb_false_iff, Z.ltb_ge, andb_false_iff, Z.ltb_ge.
  rewrite negb_false_iff, andb_true_iff, Z.eqb_eq. intuition discriminate.
Qed.

Lemma check_outputs_spec tx vo acc :
  in_money acc ->
  check_outputs tx acc vo = Valid <->
  Forall (fun o => in_money (nValue o)) vo /\ acc + total vo <= MAX_MONEY /\ Forall (fun o => below_minimum tx o = false) vo.
Proof.
  revert acc. induction vo as [|o vo IH]; intros acc Ha; cbn [check_outputs].
  { cbn. unfold in_money in Ha. rewrite !Forall_nil. split; [intros _; lia|done]. }
  cbn [total foldr]. fold (total vo). rewrite !Forall_cons.
  destruct (nValue o <? 0) eqn:E1; cases_bool; [split; [done|]; unfold in_money; intros; lia|].
  destruct (MAX_MONEY <? nValue o) eqn:E2; cases_bool; [split; [done|]; unfold in_money; intros; lia|].
  assert (in_money (nValue o)) as Ho by (unfold in_money; lia). rewrite sum_i64 by done.
  destruct (MoneyRange (acc + nValue o)) eqn:E3; cbn [negb].
  - apply MoneyRange_spec in E3. destruct (below_minimum tx o) eqn:E4; [split; [done|]; intros (_ & _ & ? & _); done|].
    rewrite IH by done. rewrite Z.add_assoc. tauto.
  - apply MoneyRange_false in E3. split; [done|]. intros ((_ & Hv) & Ht & _). pose proof (total_nonneg vo Hv). unfold in_money in *. lia.
Qed.

Lemma check_duplicates_spec l seen :
  check_duplicates seen l = Valid <-> NoDup (map prevout l) /\ forall i, i ∈ l -> prevout i ∉ seen.
Proof.
  revert seen. induction l as [|i l IH]; intros seen; cbn [check_duplicates map].
  { split; [intros _|done]. split; [constructor|]. by intros i Hi%not_elem_of_nil. }
  rewrite NoDup_cons. case_decide as E.
  - split; [done|]. intros [_ Hn]. exfalso. apply (Hn i); [by left|done].
  - rewrite IH. split.
    + intros [Hnd Hs]. split; [split; [|done]|].
      * intros (j & Hj & Hjl)%list_elem_of_fmap. apply (Hs j Hjl). rewrite <- Hj. set_solver.
      * intros j [->|Hj]%elem_of_cons; [done|]. specialize (Hs j Hj). set_solver.
    + intros [[Hni Hnd] Hs]. split; [done|]. intros j Hj [F%elem_of_singleton|F]%elem_of_union.
      * apply Hni. rewrite <- F. by apply list_elem_of_fmap_2.
      * apply (Hs j); [by right|done].
Qed.

Lemma check_prevouts_spec l : check_prevouts l = Valid <-> Forall (fun i => COutPoint_IsNull (prevout i) = false) l.
Proof.
  induction l as [|i l IH]; cbn [check_prevouts]; [by rewrite Forall_nil|]. rewrite Forall_cons, <- IH.
  destruct (COutPoint_IsNull (prevout i)); intuition discriminate.
Qed.

Lemma and_then_Valid v w : and_then v w = Valid <-> v = Valid /\ w = Valid.
Proof. destruct v; cbn; intuition discriminate. Qed.

(** The coinbase part, on a non-empty list of inputs. *)
Lemma check_coinbase_spec tx :
  IsCoinBase tx = true ->
  (match vin tx with
   | i :: _ => if (length (scriptSig i) <? 2) || (100 <? length (scriptSig i)) then Invalid TX_CONSENSUS "bad-cb-length" else Valid
   | [] => Valid
   end) = Valid <-> Forall (fun i => 2 <= length (scriptSig i) <= 100) (vin tx).
Proof.
  unfold IsCoinBase. destruct (vin tx) as [|i [|j l]]; [done| |done]. intros _. rewrite Forall_cons, Forall_nil.
  destruct ((length (scriptSig i) <? 2) || (100 <? length (scriptSig i))) eqn:E; cases_bool.
  - split; [done|]. apply orb_true_iff in E as [E|E]; cases_bool; lia.
  - split; [lia|done].
Qed.

Lemma oversize_spec tx :
  length (SerializeTransaction 0 tx) < 2 ^ 62 -> oversize tx = false <-> 4 * length (SerializeTransaction 0 tx) <= MAX_BLOCK_WEIGHT.
Proof.
  intros Hs. unfold oversize, GetSerializeSize, CTransaction_Serialize, WITNESS_SCALE_FACTOR.
  rewrite u64_small by (unfold in_u; lia). rewrite Z.ltb_ge. lia.
Qed.

Lemma CheckTransaction_Valid tx :
  length (SerializeTransaction 0 tx) < 2 ^ 62 -> CheckTransaction tx = Valid <-> well_formed tx.
Proof.
  intros Hs. pose proof (oversize_spec tx Hs) as Hov. unfold CheckTransaction.
  assert (in_money 0) as H0 by (unfold in_money, MAX_MONEY, COIN; lia).
  pose proof (check_outputs_spec tx (vout tx) 0 H0) as Ho. pose proof (check_duplicates_spec (vin tx) ∅) as Hd.
  pose proof (check_coinbase_spec tx) as Hc. pose proof (check_prevouts_spec (vin tx)) as Hp.
  assert (Forall (fun o => below_minimum tx o = false) (vout tx) <-> Forall (fun o => MIN_TXOUT_AMOUNT <= nValue o \/
    CTxOut_IsEmpty o = true \/ 3 <= nVersion tx \/ (IsZeroAllowed (nTime tx) = true /\ nValue o = 0)) (vout tx)) as Hm.
  { split; intros H; (eapply Forall_impl; [exact H|]); intros o; apply below_minimum_spec. }
  destruct (length (vin tx) =? 0)%nat eqn:E1; cases_bool; [split; [done|intros []]; by destruct (vin tx)|].
  destruct (length (vout tx) =? 0)%nat eqn:E2; cases_bool; [split; [done|intros []]; by destruct (vout tx)|].
  destruct (oversize tx) eqn:E3; [split; [done|intros []]; by apply Hov in wf_size0|].
  rewrite !and_then_Valid, Ho, Hd, Hm, Z.add_0_l. split.
  - intros ((Hv & Ht & Hmin) & (Hnd & _) & Hcb). split; try done.
    + by intros F; rewrite F in E1.
    + by intros F; rewrite F in E2.
    + by apply Hov.
    + intros F. rewrite F in Hcb. by apply Hc.
    + intros F. rewrite F in Hcb. by apply Hp.
  - intros []. split; [done|]. split; [split; [done|]; intros; apply not_elem_of_empty|].
    destruct (IsCoinBase tx); [by apply Hc, wf_coinbase0|by apply Hp, wf_prevouts0].
Qed.

Lemma and_then_kind v w :
  (forall r s, v = Invalid r s -> r = TX_CONSENSUS) -> (forall r s, w = Invalid r s -> r = TX_CONSENSUS) ->
  forall r s, and_then v w = Invalid r s -> r = TX_CONSENSUS.
Proof. intros Hv Hw r s. destruct v; cbn; [apply Hw|apply Hv]. Qed.

Lemma CheckTransaction_kind tx r s : CheckTransaction tx = Invalid r s -> r = TX_CONSENSUS.
Proof.
  unfold CheckTransaction. repeat (case_if; [by intros [= <- _]|]). apply and_then_kind; [|apply and_then_kind]; clear.
  - generalize 0. induction (vout tx) as [|o vo IH]; intros acc r s; cbn [check_outputs]; [done|].
    repeat (case_if; [by intros [= <- _]|]). apply IH.
  - generalize (∅ : gset COutPoint). induction (vin tx) as [|i l IH]; intros seen r s; cbn [check_duplicates]; [done|].
    case_decide; [by intros [= <- _]|apply IH].
  - intros r s. destruct (IsCoinBase tx).
    + destruct (vin tx); [done|]. case_if; [by intros [= <- _]|done].
    + induction (vin tx) as [|i l IH]; cbn [check_prevouts]; [done|]. case_if; [by intros [= <- _]|apply IH].
Qed.

(** C29: [CheckTransaction] accepts a transaction exactly when it is well formed:
    inputs and outputs, a serialization within the weight limit, outputs and
    their sum within the range of money, no small outputs before version 3,
    different inputs, and the rules for a coinbase.  Every rejection is of the
    consensus kind, and the value of the outputs of what is accepted is their
    exact sum: [GetValueOut] does not throw. *)
Theorem CheckTransaction_correct tx (Hs : length (SerializeTransaction 0 tx) < 2 ^ 62) :
  (CheckTransaction tx = Valid <-> well_formed tx) /\
  (forall r s, CheckTransaction tx = Invalid r s -> r = TX_CONSENSUS) /\
  (CheckTransaction tx = Valid -> GetValueOut tx = Some (total (vout tx)) /\ in_money (total (vout tx))).
Proof.
  split; [by apply CheckTransaction_Valid|]. split; [apply CheckTransaction_kind|]. intros HV%CheckTransaction_Valid; [|done].
  destruct HV. pose proof (total_nonneg _ wf_values0). split; [|done].
  apply (value_loop_spec (vout tx) 0); [unfold in_money, MAX_MONEY, COIN; lia|split; [done|lia]].
Qed.

Lemma CheckTransaction_correct_witness :
  CheckTransaction Transaction.sample_tx = Valid /\ GetValueOut Transaction.sample_tx = Some (total (vout Transaction.sample_tx)).
Proof.
  destruct (CheckTransaction_correct Transaction.sample_tx) as (_ & _ & H); [vm_compute; reflexivity|].
  assert (CheckTransaction Transaction.sample_tx = Valid) as E by (vm_compute; reflexivity). split; [exact E|]. apply (H E).
Defined.

End TxCheck.
