(* ===== verification/TxVerify.v ===== *)
(** * Checks of a transaction against the coins it spends
    ([consensus/tx_verify.cpp], [validation.cpp])

    [CheckTxInputs] on a coins cache, with the minimum fee and the coin age of a
    coinstake.  What it accepts spends available, mature coins, creates no value
    and pays the fee; a coinstake's reported fee is the value it creates. *)
From stdpp Require Import prelude gmap strings.
From S2P Require Import Prelude ArithUint256 Params Serialize Transaction Coins CoinsTheory CoinsMachine BlockCoins TxCheck.

Module TxVerify.
Import BaseUint Transaction Coins CoinsTheory TxCheck.

(** ** Fees *)

Definition GetMinFee (nBytes nTime : Z) : Z :=
  let nMinFee := if nBytes <? 100 then MIN_TX_FEE else i64 (u64 (nBytes * Z.quot PERKB_TX_FEE 1000)) in
  if negb (MoneyRange nMinFee) then MAX_MONEY else nMinFee.

Definition SER_NETWORK : Z := 1.
Definition GetMinFee_tx (tx : CTransaction) (nTimeTx : Z) : Z :=
  GetMinFee (GetSerializeSize CTransaction_Serialize tx SER_NETWORK PROTOCOL_VERSION) nTimeTx.

(** ** Coin age *)

Section Age.
Context {S : Type} {V : CoinsView S} (usage : Coin -> Z) (GetHash : CTransaction -> list Z).
Abbreviation Cache := (@CCoinsViewCache S).

(** The transaction index: the time in the header of the block of a
    transaction, and the transaction, read from the block files. *)
Context (FindTx : list Z -> option (Z * CTransaction)).
Abbreviation TxCache := (gmap (list Z) (Z * CTransaction)).

(** The index remembers what was read in [cachedTxs]. *)
Definition lookup_tx (cachedTxs : TxCache) (h : list Z) : option (Z * CTransaction * TxCache) :=
  match cachedTxs !! h with
  | Some (header, txPrev) => Some (header, txPrev, cachedTxs)
  | None => '(header, txPrev) ← FindTx h; Some (header, txPrev, <[h := (header, txPrev)]> cachedTxs)
  end.

(** The age of one input in cents and seconds. *)
Definition cent_seconds (nValueIn nEffectiveAge : Z) : option (list Z) :=
  div_assign 8 (mul_u32_assign 8 (of_u64 8 (u64 nValueIn)) (u32 nEffectiveAge)) (of_u64 8 CENT).

(** One input: the sum, or [None] when the function returns false; the outer
    option is undefined behaviour. *)
Definition age_input (params : Params) (bnCentSecond : list Z) (view : Cache) (cachedTxs : TxCache) (nTimeTx : Z) (isTrueCoinAge : bool)
    (txin : CTxIn) : option (option (list Z) * Cache * TxCache) :=
  let '(found, x, view) := if isTrueCoinAge then Cache_GetCoin usage view (prevout txin) else (true, coinEmpty, view) in
  if negb found then Some (Some bnCentSecond, view, cachedTxs)
  else if nTimeTx <? coinTime x then Some (None, view, cachedTxs)
  else
    match lookup_tx cachedTxs (hash (prevout txin)) with
    | None => Some (None, view, cachedTxs)
    | Some (header, txPrev, cachedTxs) =>
        if bool_decide (GetHash txPrev <> hash (prevout txin)) then Some (None, view, cachedTxs)
        else if nTimeTx <? header + nStakeMinAge params then Some (Some bnCentSecond, view, cachedTxs)
        else
          vo ← vout txPrev !! Z.to_nat (n (prevout txin));
          let nEffectiveAge := i32 (nTimeTx - (if negb (nTime txPrev =? 0) then nTime txPrev else header)) in
          let nEffectiveAge := if negb isTrueCoinAge then Z.min nEffectiveAge (365 * 24 * 60 * 60) else nEffectiveAge in
          a ← cent_seconds (nValue vo) nEffectiveAge;
          Some (Some (add_assign 8 bnCentSecond a), view, cachedTxs)
    end.

(** The loop; once the function has returned, the rest is skipped. *)
Definition age_loop (params : Params) (bnCentSecond : list Z) (view : Cache) (cachedTxs : TxCache) (nTimeTx : Z) (isTrueCoinAge : bool)
    (l : list CTxIn) : option (option (list Z) * Cache * TxCache) :=
  fold_left (fun st i =>
    match st with
    | Some (Some bn, view, cachedTxs) => age_input params bn view cachedTxs nTimeTx isTrueCoinAge i
    | _ => st
    end) l (Some (Some bnCentSecond, view, cachedTxs)).

(** [None] in the answer is the result false.  [g_txindex] tells whether there is
    an index. *)
Definition GetCoinAge (params : Params) (g_txindex : bool) (tx : CTransaction) (view : Cache) (cachedTxs : TxCache) (nTimeTx : Z)
    (isTrueCoinAge : bool) : option (option Z * Cache * TxCache) :=
  if IsCoinBase tx then Some (Some 0, view, cachedTxs)
  else if negb g_txindex then Some (None, view, cachedTxs)
  else
    '(bn, view, cachedTxs) ← age_loop params (zero 8) view cachedTxs nTimeTx isTrueCoinAge (vin tx);
    match (bn : option (list Z)) with
    | None => Some (None, view, cachedTxs)
    | Some bn =>
        d ← div_assign 8 (mul_u32_assign 8 bn CENT) (of_u64 8 COIN);
        bnCoinDay ← div_assign 8 d (of_u64 8 (24 * 60 * 60));
        Some (Some (GetLow64 bnCoinDay), view, cachedTxs)
    end.

(** ** CheckTxInputs *)

(** The loop over the inputs; the outer option is a failed assertion. *)
Fixpoint input_loop (params : Params) (inputs : Cache) (nSpendHeight nTimeTx nValueIn : Z) (l : list CTxIn) :
    option (verdict * Z * Cache) :=
  match l with
  | [] => Some (Valid, nValueIn, inputs)
  | i :: r =>
      let '(x, inputs) := AccessCoin usage inputs (prevout i) in
      if IsSpent x then None
      else if (fCoinBase x || fCoinStake x) && (i32 (nSpendHeight - nHeight x) <? nCoinbaseMaturity params) then
        Some (Invalid TX_PREMATURE_SPEND "bad-txns-premature-spend-of-coinbase/coinstake", nValueIn, inputs)
      else if nTimeTx <? coinTime x then Some (Invalid TX_CONSENSUS "bad-txns-spent-too-early", nValueIn, inputs)
      else
        let nValueIn := i64 (nValueIn + nValue (out x)) in
        if negb (MoneyRange (nValue (out x))) || negb (MoneyRange nValueIn) then
          Some (Invalid TX_CONSENSUS "bad-txns-inputvalues-outofrange", nValueIn, inputs)
        else input_loop params inputs nSpendHeight nTimeTx nValueIn r
  end.

(** The fee of a transaction that is not a coinstake. *)
Definition check_fee (tx : CTransaction) (nTimeTx nValueIn value_out : Z) : verdict * Z :=
  if nValueIn <? value_out then (Invalid TX_CONSENSUS "bad-txns-in-belowout", 0)
  else
    let txfee_aux := i64 (nValueIn - value_out) in
    if negb (MoneyRange txfee_aux) then (Invalid TX_CONSENSUS "bad-txns-fee-outofrange", 0)
    else if txfee_aux <? GetMinFee_tx tx nTimeTx then (Invalid TX_CONSENSUS "bad-txns-fee-not-enough", 0)
    else (Valid, txfee_aux).

(** The verdict, the fee when valid, and the caches. *)
Definition CheckTxInputs (params : Params) (g_txindex : bool) (tx : CTransaction) (inputs : Cache) (cachedTxs : TxCache)
    (nSpendHeight nTimeTx : Z) : option (verdict * Z * Cache * TxCache) :=
  let '(have, inputs) := HaveInputs usage inputs tx in
  if negb have then Some (Invalid TX_MISSING_INPUTS "bad-txns-inputs-missingorspent", 0, inputs, cachedTxs)
  else
    '(v, nValueIn, inputs) ← input_loop params inputs nSpendHeight nTimeTx 0 (vin tx);
    match (v : verdict) with
    | Invalid _ _ => Some (v, 0, inputs, cachedTxs)
    | Valid =>
        if IsCoinStake tx then
          '(age, inputs, cachedTxs) ← GetCoinAge params g_txindex tx inputs cachedTxs nTimeTx true;
          match (age : option Z) with
          | None => Some (Invalid TX_CONSENSUS "unable to get coin age for coinstake", 0, inputs, cachedTxs)
          | Some _ => value_out ← GetValueOut tx; Some (Valid, i64 (value_out - nValueIn), inputs, cachedTxs)
          end
        else
          value_out ← GetValueOut tx;
          let '(v, txfee) := check_fee tx nTimeTx nValueIn value_out in Some (v, txfee, inputs, cachedTxs)
    end.

End Age.

(** ** What is accepted *)

Abbreviation coins := (COutPoint -> option Coin).
Definition value_of (u : coins) (o : COutPoint) : Z := match u o with Some x => nValue (out x) | None => 0 end.
Lemma value_of_Some u o x : u o = Some x -> value_of u o = nValue (out x).
Proof. unfold value_of. by intros ->. Qed.

Definition sum_in (u : coins) (l : list CTxIn) : Z := foldr (fun i s => value_of u (prevout i) + s) 0 l.

(** A coin an input may spend: there, mature, not younger than the transaction,
    and worth an amount of money. *)
Definition input_ok (params : Params) (u : coins) (nSpendHeight nTimeTx : Z) (i : CTxIn) : Prop :=
  exists x, u (prevout i) = Some x /\ in_money (nValue (out x)) /\ coinTime x <= nTimeTx /\
    (fCoinBase x = true \/ fCoinStake x = true -> nCoinbaseMaturity params <= nSpendHeight - nHeight x).

Definition inputs_valid (params : Params) (u : coins) (nSpendHeight nTimeTx acc : Z) (l : list CTxIn) : Prop :=
  Forall (input_ok params u nSpendHeight nTimeTx) l /\ acc + sum_in u l <= MAX_MONEY.

(** Heights are those of a chain. *)
Definition heights_ok (u : coins) : Prop := forall o x, u o = Some x -> in_u 31 (nHeight x) /\ IsSpent x = false.

Section Theory.
Context {S : Type} {V : CoinsView S} (usage : Coin -> Z) (GetHash : CTransaction -> list Z) (FindTx : list Z -> option (Z * CTransaction)).
Context (params : Params) (u : coins) (Hu : heights_ok u).
Abbreviation Cache := (@CCoinsViewCache S).
Abbreviation holds := (@BlockCoins.holds S V usage).

Lemma height_diff a b : 0 <= a < 2 ^ 31 -> 0 <= b < 2 ^ 31 -> i32 (a - b) = a - b.
Proof using. intros. unfold i32. apply swrap_small; [lia|]. unfold in_s. lia. Qed.

Lemma sum_in_nonneg h t l : Forall (input_ok params u h t) l -> 0 <= sum_in u l.
Proof using.
  induction 1 as [|i l (x & Hx & Hv & _) _ IH]; cbn [sum_in foldr]; [lia|]. fold (sum_in u l). rewrite (value_of_Some _ _ _ Hx). unfold in_money in Hv. lia.
Qed.

Lemma have_inputs_holds l (c : Cache) :
  holds c u -> exists c', have_inputs usage c l = (forallb (fun i => bool_decide (is_Some (u (prevout i)))) l, c') /\ holds c' u.
Proof using.
  revert c. induction l as [|i l IH]; intros c Hc; cbn [have_inputs forallb]; [by exists c|]. destruct Hc as [Hok Hc].
  pose proof (HaveCoin_spec usage c (prevout i) Hok) as HH. destruct (HaveCoin usage c (prevout i)) as [b c1]. destruct HH as (Hok1 & Hu1 & _ & _ & ->).
  rewrite Hc. assert (holds c1 u) as Hc1 by (split; [done|]; intros o; by rewrite Hu1). destruct (bool_decide _); cbn [negb andb]; [by apply IH|by exists c1].
Qed.

Lemma inputs_valid_head i l y h t acc :
  inputs_valid params u h t acc (i :: l) -> u (prevout i) = Some y ->
  in_money (nValue (out y)) /\ coinTime y <= t /\ acc + nValue (out y) <= MAX_MONEY /\
  (fCoinBase y = true \/ fCoinStake y = true -> nCoinbaseMaturity params <= h - nHeight y).
Proof using.
  intros [HF Hs] Hy. inversion HF as [|? ? (z & Hz & Hv & Ht & Hm) HF']; subst. rewrite Hy in Hz. injection Hz as <-.
  pose proof (sum_in_nonneg _ _ _ HF'). cbn [sum_in foldr] in Hs. fold (sum_in u l) in Hs. rewrite (value_of_Some _ _ _ Hy) in Hs.
  split; [done|]. split; [done|]. split; [lia|done].
Qed.

Lemma input_loop_holds l (c : Cache) h t acc :
  holds c u -> 0 <= h < 2 ^ 31 -> in_money acc -> (forall i, i ∈ l -> is_Some (u (prevout i))) ->
  exists v s c', input_loop usage params c h t acc l = Some (v, s, c') /\ holds c' u /\
    (v = Valid <-> inputs_valid params u h t acc l) /\ (v = Valid -> s = acc + sum_in u l).
Proof using Hu.
  revert c acc. induction l as [|i l IH]; intros c acc Hc Hh Ha Hin; cbn [input_loop].
  { exists Valid, acc, c. split; [done|]. split; [done|]. split; [|intros _; cbn; lia]. split; [|done]. intros _. split; [constructor|].
    cbn. unfold in_money in Ha. lia. }
  destruct Hc as [Hok Hc]. pose proof (AccessCoin_spec usage c (prevout i) Hok) as HA. destruct (AccessCoin usage c (prevout i)) as [x c1].
  destruct HA as (Hok1 & Hu1 & _ & _ & Hx). assert (holds c1 u) as Hc1 by (split; [done|]; intros o; by rewrite Hu1).
  destruct (Hin i ltac:(by left)) as [y Hy]. rewrite Hc, Hy in Hx. destruct (IsSpent x); [done|]. injection Hx as <-.
  destruct (Hu (prevout i) y Hy) as [Hht _]. rewrite height_diff by (unfold in_u in *; lia).
  assert (forall v s, v <> Valid -> (inputs_valid params u h t acc (i :: l) -> False) ->
    exists v' s' c', Some (v, s, c1) = Some (v', s', c') /\ holds c' u /\ (v' = Valid <-> inputs_valid params u h t acc (i :: l)) /\
      (v' = Valid -> s' = acc + sum_in u (i :: l))) as Hbad.
  { intros v s Hv Hno. exists v, s, c1. split; [done|]. split; [done|]. split; [split; [done|by intros ?%Hno]|done]. }
  pose proof (fun H => inputs_valid_head i l y h t acc H Hy) as Hhd.
  destruct ((fCoinBase y || fCoinStake y) && (h - nHeight y <? nCoinbaseMaturity params)) eqn:Em.
  { apply Hbad; [done|]. intros (_ & _ & _ & Hm)%Hhd. cases_bool. apply orb_true_iff in H. specialize (Hm H). lia. }
  destruct (t <? coinTime y) eqn:Et; cases_bool; [apply Hbad; [done|]; intros (_ & ? & _)%Hhd; lia|].
  destruct (MoneyRange (nValue (out y))) eqn:Ev; cbn [negb orb]; [|apply Hbad; [done|]; apply MoneyRange_false in Ev; intros (? & _)%Hhd; done].
  apply MoneyRange_spec in Ev. rewrite sum_i64 by done.
  destruct (MoneyRange (acc + nValue (out y))) eqn:Es; cbn [negb]; [|apply Hbad; [done|]; apply MoneyRange_false in Es; intros (_ & _ & ? & _)%Hhd; unfold in_money in *; lia].
  apply MoneyRange_spec in Es. destruct (IH c1 (acc + nValue (out y)) Hc1 Hh Es) as (v & s & c' & E & Hc' & Hiff & Hsum); [intros j Hj; apply Hin; by right|].
  exists v, s, c'. split; [done|]. split; [done|]. cbn [sum_in foldr]. fold (sum_in u l). rewrite (value_of_Some _ _ _ Hy). split.
  - rewrite Hiff. unfold inputs_valid. rewrite Forall_cons. cbn [sum_in foldr]. fold (sum_in u l). rewrite (value_of_Some _ _ _ Hy), Z.add_assoc.
    split; [|tauto]. intros [HF Hs]. split; [|done]. split; [|done]. exists y. split; [done|]. split; [done|]. split; [lia|].
    intros Hcb. apply orb_true_iff in Hcb. rewrite Hcb in Em. cbn [andb] in Em. cases_bool. lia.
  - intros ->. rewrite Hsum by done. lia.
Qed.

Lemma age_input_holds bn (c : Cache) txs t b i :
  holds c u -> forall r c' txs', age_input usage GetHash FindTx params bn c txs t b i = Some (r, c', txs') -> holds c' u.
Proof using.
  intros [Hok Hc] r c' txs'. unfold age_input.
  assert (forall ok x c1, (if b then Cache_GetCoin usage c (prevout i) else (true, coinEmpty, c)) = (ok, x, c1) -> holds c1 u) as HG.
  { intros ok x c1. destruct b; [|by intros [= _ _ <-]]. pose proof (Cache_GetCoin_spec usage c (prevout i) Hok) as HS. intros E.
    rewrite E in HS. destruct HS as (H1 & H2 & _). split; [done|]. intros o. by rewrite H2. }
  destruct (if b then _ else _) as [[ok x] c1]. specialize (HG ok x c1 eq_refl). case_if; [by intros [= _ <- _]|]. case_if; [by intros [= _ <- _]|].
  destruct (lookup_tx FindTx txs (hash (prevout i))) as [[[hd txPrev] txs1]|]; [|by intros [= _ <- _]]. do 2 (case_if; [by intros [= _ <- _]|]).
  destruct (vout txPrev !! Z.to_nat (n (prevout i))); [|done]. rewrite bind_some. cbv zeta.
  destruct (cent_seconds _ _); [|done]. rewrite bind_some. by intros [= _ <- _].
Qed.

Lemma age_loop_holds bn (c : Cache) txs t b l :
  holds c u -> forall r c' txs', age_loop usage GetHash FindTx params bn c txs t b l = Some (r, c', txs') -> holds c' u.
Proof using.
  intros Hc. unfold age_loop. assert (forall r c' txs', Some (Some bn, c, txs) = Some (r, c', txs') -> holds c' u) as H0 by (by intros ? ? ? [= _ <- _]).
  revert H0. generalize (Some (Some bn, c, txs) : option (option (list Z) * Cache * _)).
  induction l as [|i l IH]; intros st Hst; [exact Hst|]. cbn [fold_left]. apply IH.
  destruct st as [[[[bn1|] c1] txs1]|]; [|done|done]. intros r c' txs'. eapply age_input_holds. by eapply Hst.
Qed.

Lemma GetCoinAge_holds g tx (c : Cache) txs t b r c' txs' :
  holds c u -> GetCoinAge usage GetHash FindTx params g tx c txs t b = Some (r, c', txs') -> holds c' u.
Proof using.
  intros Hc. unfold GetCoinAge. do 2 (case_if; [by intros [= _ <- _]|]).
  destruct (age_loop _ _ _ _ _ _ _ _ _ _) as [[[bn c1] txs1]|] eqn:EA; [|done]. rewrite bind_some.
  pose proof (age_loop_holds _ _ _ _ _ _ Hc _ _ _ EA) as Hc1. destruct bn as [bn|]; [|by intros [= _ <- _]].
  destruct (div_assign 8 _ _); [|done]. rewrite bind_some. destruct (div_assign 8 _ _); [|done]. rewrite bind_some. by intros [= _ <- _].
Qed.

End Theory.

(** The fee is at least the minimum for any transaction, and grows with size. *)
Lemma GetMinFee_bounds nBytes t :
  0 <= nBytes < 2 ^ 59 -> MIN_TX_FEE <= GetMinFee nBytes t <= MAX_MONEY /\ (nBytes <= 10 ^ 12 -> 10 * nBytes <= GetMinFee nBytes t).
Proof.
  intros Hn. unfold GetMinFee, PERKB_TX_FEE. change (Z.quot CENT 1000) with 10. change MIN_TX_FEE with 1000. change MAX_MONEY with 210000000000000.
  destruct (nBytes <? 100) eqn:E; cases_bool; [change (MoneyRange 1000) with true; cbn [negb]; lia|].
  rewrite u64_small by (unfold in_u; lia). unfold i64. rewrite swrap_small by (unfold in_s; lia).
  destruct (MoneyRange (nBytes * 10)) eqn:Em; cbn [negb].
  - apply MoneyRange_spec in Em. unfold in_money in Em. change MAX_MONEY with 210000000000000 in Em. lia.
  - apply MoneyRange_false in Em. unfold in_money in Em. change MAX_MONEY with 210000000000000 in Em. lia.
Qed.

Lemma check_fee_spec tx t vi vo :
  in_money vi -> in_money vo ->
  let '(v, fee) := check_fee tx t vi vo in
  (v = Valid <-> vo <= vi /\ GetMinFee_tx tx t <= vi - vo) /\ (v = Valid -> fee = vi - vo).
Proof.
  intros Hi Ho. unfold check_fee. destruct (vi <? vo) eqn:E1; cases_bool; [split; [split; [done|lia]|done]|].
  assert (i64 (vi - vo) = vi - vo) as -> by (unfold i64, in_money, MAX_MONEY, COIN in *; apply swrap_small; [lia|]; unfold in_s; lia).
  rewrite (proj2 (MoneyRange_spec (vi - vo))) by (unfold in_money in *; lia). cbn [negb].
  destruct (vi - vo <? GetMinFee_tx tx t) eqn:E2; cases_bool; (split; [|done]); split; try done; lia.
Qed.

(** The outputs of a checked transaction. *)
Lemma min_fee_paid tx t : well_formed tx -> MIN_TX_FEE <= GetMinFee_tx tx t.
Proof.
  intros Hwf. apply GetMinFee_bounds. pose proof (wf_size _ Hwf) as Hsz. unfold MAX_BLOCK_WEIGHT in Hsz. unfold GetSerializeSize, CTransaction_Serialize.
  change (SerializeTransaction PROTOCOL_VERSION tx) with (SerializeTransaction 0 tx). lia.
Qed.

Lemma value_out tx : well_formed tx -> GetValueOut tx = Some (total (vout tx)) /\ in_money (total (vout tx)).
Proof.
  intros []. pose proof (total_nonneg _ wf_values0). split; [|done].
  apply (value_loop_spec (vout tx) 0); [unfold in_money, MAX_MONEY, COIN; lia|split; [done|lia]].
Qed.

Lemma forallb_inputs (u : coins) l :
  forallb (fun i => bool_decide (is_Some (u (prevout i)))) l = true <-> forall i, i ∈ l -> is_Some (u (prevout i)).
Proof.
  rewrite forallb_forall. split; intros H i Hi; specialize (H i); rewrite <- list_elem_of_In, bool_decide_eq_true in *; by apply H.
Qed.

Section Checked.
Context {S : Type} {V : CoinsView S} (usage : Coin -> Z) (GetHash : CTransaction -> list Z) (FindTx : list Z -> option (Z * CTransaction)).
Context (params : Params) (u : coins) (Hu : heights_ok u) (g_txindex : bool).
Abbreviation holds := (@BlockCoins.holds S V usage).

(** Before fees: the inputs are there and their values are summed. *)
Lemma HaveInputs_holds (c : @CCoinsViewCache S) tx :
  holds c u -> IsCoinBase tx = false ->
  exists c', HaveInputs usage c tx = (forallb (fun i => bool_decide (is_Some (u (prevout i)))) (vin tx), c') /\ holds c' u.
Proof using. intros Hc Hcb. unfold HaveInputs. rewrite Hcb. by apply have_inputs_holds. Qed.

Lemma missing_inputs h t acc l : ~ (forall i, i ∈ l -> is_Some (u (prevout i))) -> ~ inputs_valid params u h t acc l.
Proof using.
  intros Hno [HF _]. apply Hno. intros i Hi. rewrite Forall_forall in HF. destruct (HF i Hi) as (x & -> & _). by eauto.
Qed.

Lemma CheckTxInputs_spec (c : @CCoinsViewCache S) txs tx h t :
  holds c u -> 0 <= h < 2 ^ 31 -> well_formed tx -> IsCoinBase tx = false -> IsCoinStake tx = false ->
  exists v fee c', CheckTxInputs usage GetHash FindTx params g_txindex tx c txs h t = Some (v, fee, c', txs) /\ holds c' u /\
    (v = Valid <-> inputs_valid params u h t 0 (vin tx) /\ total (vout tx) + GetMinFee_tx tx t <= sum_in u (vin tx)) /\
    (v = Valid -> sum_in u (vin tx) = total (vout tx) + fee).
Proof using Hu.
  intros Hc Hh Hwf Hcb Hcs. destruct (value_out tx Hwf) as [Hvo Hmo]. unfold CheckTxInputs.
  destruct (HaveInputs_holds c tx Hc Hcb) as (c1 & -> & Hc1). destruct (forallb _ (vin tx)) eqn:Ef; cbn [negb].
  - rewrite forallb_inputs in Ef. destruct (input_loop_holds usage params u Hu (vin tx) c1 h t 0 Hc1 Hh) as (v & s & c2 & -> & Hc2 & Hiff & Hsum);
      [unfold in_money, MAX_MONEY, COIN; lia|done|]. rewrite bind_some. destruct v as [|r reason].
    + rewrite Hcs, Hvo, bind_some. destruct Hiff as [Hval _]. specialize (Hval eq_refl). rewrite (Hsum eq_refl), Z.add_0_l.
      assert (in_money (sum_in u (vin tx))) as Hmi.
      { destruct Hval as [HF Hs]. pose proof (sum_in_nonneg params u h t (vin tx) HF). unfold in_money. lia. }
      pose proof (check_fee_spec tx t _ _ Hmi Hmo) as HF. destruct (check_fee tx t _ _) as [v fee]. destruct HF as [HF1 HF2].
      exists v, fee, c2. split; [done|]. split; [done|]. split.
      * rewrite HF1. split; [intros [? ?]; split; [done|lia]|]. intros [_ Hle].
        assert (0 <= GetMinFee_tx tx t); [|lia]. unfold GetMinFee_tx, GetMinFee. case_if; cases_bool; [vm_compute; discriminate|].
        apply MoneyRange_spec in E. unfold in_money in E. lia.
      * intros Hv. rewrite (HF2 Hv). lia.
    + exists (Invalid r reason), 0, c2. split; [done|]. split; [done|]. split; [|done]. split; [done|]. intros [Hval _]. by apply Hiff in Hval.
  - eexists _, 0, c1. split; [done|]. split; [done|]. split; [|done]. split; [done|]. intros [Hval _]. exfalso. revert Hval. apply missing_inputs.
    rewrite <- forallb_inputs. by rewrite Ef.
Qed.

(** A coinstake that is accepted reports the value it creates. *)
Lemma CheckTxInputs_coinstake (c : @CCoinsViewCache S) txs tx h t fee c' txs' :
  holds c u -> 0 <= h < 2 ^ 31 -> well_formed tx -> IsCoinBase tx = false -> IsCoinStake tx = true ->
  CheckTxInputs usage GetHash FindTx params g_txindex tx c txs h t = Some (Valid, fee, c', txs') ->
  holds c' u /\ inputs_valid params u h t 0 (vin tx) /\ sum_in u (vin tx) + fee = total (vout tx).
Proof using Hu.
  intros Hc Hh Hwf Hcb Hcs. destruct (value_out tx Hwf) as [Hvo Hmo]. unfold CheckTxInputs.
  destruct (HaveInputs_holds c tx Hc Hcb) as (c1 & -> & Hc1). destruct (forallb _ (vin tx)) eqn:Ef; cbn [negb]; [|done].
  rewrite forallb_inputs in Ef. destruct (input_loop_holds usage params u Hu (vin tx) c1 h t 0 Hc1 Hh) as (v & s & c2 & -> & Hc2 & Hiff & Hsum);
    [unfold in_money, MAX_MONEY, COIN; lia|done|]. rewrite bind_some. destruct v; [|done]. rewrite Hcs.
  destruct (GetCoinAge _ _ _ _ _ _ _ _ _ _) as [[[age c3] txs3]|] eqn:EA; [|done]. rewrite bind_some. destruct age; [|done].
  rewrite Hvo, bind_some. intros [= <- <- _]. split; [by eapply GetCoinAge_holds|]. destruct Hiff as [Hval _]. specialize (Hval eq_refl).
  split; [done|]. rewrite (Hsum eq_refl), Z.add_0_l. destruct Hval as [HF Hs]. pose proof (sum_in_nonneg params u h t (vin tx) HF).
  unfold i64. rewrite swrap_small; [lia|lia|]. unfold in_s, in_money, MAX_MONEY, COIN in *. lia.
Qed.

End Checked.

(** C8: On a cache that holds a set of coins, [CheckTxInputs] raises no assertion and
    accepts a well-formed transaction, neither coinbase nor coinstake, exactly
    when every input is an unspent coin, mature if generated, not younger than
    the transaction, the values are within the range of money, and the inputs
    pay for the outputs and the minimum fee; the fee it reports is the exact
    difference, and the set is unchanged. *)
Theorem CheckTxInputs_correct {S} {V : CoinsView S} usage GetHash FindTx params g_txindex (u : coins) (c : @CCoinsViewCache S) txs tx h t
  (Hu : heights_ok u) (Hc : BlockCoins.holds usage c u) (Hh : 0 <= h < 2 ^ 31) (Hwf : well_formed tx)
  (Hcb : IsCoinBase tx = false) (Hcs : IsCoinStake tx = false) :
  exists v fee c', CheckTxInputs usage GetHash FindTx params g_txindex tx c txs h t = Some (v, fee, c', txs) /\
    BlockCoins.holds usage c' u /\
    (v = Valid <-> inputs_valid params u h t 0 (vin tx) /\ total (vout tx) + GetMinFee_tx tx t <= sum_in u (vin tx)) /\
    (v = Valid -> sum_in u (vin tx) = total (vout tx) + fee /\ MIN_TX_FEE <= fee).
Proof.
  destruct (CheckTxInputs_spec usage GetHash FindTx params u Hu g_txindex c txs tx h t) as (v & fee & c' & E & Hc' & Hiff & Hsum); try done.
  exists v, fee, c'. split; [done|]. split; [done|]. split; [done|]. intros Hv. specialize (Hsum Hv). split; [done|].
  destruct (proj1 Hiff Hv) as [_ Hfee]. pose proof (min_fee_paid tx t Hwf). lia.
Qed.

(** A coin of a past coinbase spent with a fee. *)
Definition rich_coin : Coin := mkCoin (mkTxOut 5001000 [81]) true 3 false 1600000000.
Definition rich_cache : @CCoinsViewCache CoinsMachine.CCoinsView :=
  mkCache tt CoinsMachine.one_block {[ mkOutPoint (replicate 32 7) 1 := mkEntry rich_coin (Z.lor DIRTY FRESH) ]} 1.
Definition rich_set : coins := fun o => if decide (o = mkOutPoint (replicate 32 7) 1) then Some rich_coin else None.

Lemma rich_holds : BlockCoins.holds CoinsMachine.script_usage rich_cache rich_set.
Proof.
  split; [split; [exact I|split; [|reflexivity]]|].
  - apply map_Forall_singleton. split; [by left; split; [|right; right]|]. done.
  - intros o. unfold cache_utxo, rich_cache, rich_set. cbn [cacheCoins base]. case_decide as E; [subst; by rewrite lookup_singleton_eq|].
    by rewrite lookup_singleton_ne.
Qed.

Lemma CheckTxInputs_correct_witness :
  exists v fee c', CheckTxInputs CoinsMachine.script_usage (fun _ => []) (fun _ => None) CMainParams true sample_tx rich_cache ∅ 300 1600000001 =
      Some (v, fee, c', ∅) /\ v = Valid /\ fee = 1000 /\ sum_in rich_set (vin sample_tx) = total (vout sample_tx) + fee.
Proof.
  destruct (CheckTxInputs_correct CoinsMachine.script_usage (fun _ => []) (fun _ => None) CMainParams true rich_set rich_cache ∅ sample_tx 300 1600000001)
    as (v & fee & c' & E & _ & Hv & Hsum).
  - intros o x. unfold rich_set. case_decide; [|done]. intros [= <-]. split; [unfold in_u; cbn; lia|done].
  - apply rich_holds.
  - lia.
  - apply CheckTransaction_Valid; vm_compute; reflexivity.
  - reflexivity.
  - reflexivity.
  - exists v, fee, c'. split; [exact E|]. assert (v = Valid) as ->.
    { apply Hv. split; [split; [|vm_compute; discriminate]|vm_compute; discriminate]. apply Forall_singleton. exists rich_coin.
      split; [vm_compute; reflexivity|]. split; [split; vm_compute; discriminate|]. split; [vm_compute; discriminate|]. intros _. vm_compute. discriminate. }
    destruct (Hsum eq_refl) as [Hs _]. split; [reflexivity|]. split; [|exact Hs].
    assert (sum_in rich_set (vin sample_tx) = 5001000) as F by (vm_compute; reflexivity). rewrite F in Hs. cbn in Hs. lia.
Defined.

End TxVerify.
