(* ===== verification/Locks.v ===== *)
(** * Lock times ([consensus/tx_verify.cpp])

    Absolute lock times ([IsFinalTx]) and the relative ones of BIP 68.  Sequence
    locks are computed as a pair of a height and a time for the whole
    transaction; the theorem says that the pair is satisfied exactly when each
    input's own lock is. *)
From stdpp Require Import prelude gmap.
From S2P Require Import Prelude Chain ChainTheory ChainSearch Serialize Transaction.

Module Locks.
Import Transaction.

Definition LOCKTIME_THRESHOLD : Z := 500000000.
Definition SEQUENCE_LOCKTIME_DISABLE_FLAG : Z := Z.shiftl 1 31.
Definition SEQUENCE_LOCKTIME_TYPE_FLAG : Z := Z.shiftl 1 22.
Definition SEQUENCE_LOCKTIME_MASK : Z := 0x0000ffff.
Definition SEQUENCE_LOCKTIME_GRANULARITY : Z := 9.
Definition LOCKTIME_VERIFY_SEQUENCE : Z := Z.shiftl 1 0.

Definition IsFinalTx (tx : CTransaction) (nBlockHeight nBlockTime : Z) : bool :=
  if nLockTime tx =? 0 then true
  else if nLockTime tx <? (if nLockTime tx <? LOCKTIME_THRESHOLD then nBlockHeight else nBlockTime) then true
  else forallb (fun txin => nSequence txin =? SEQUENCE_FINAL) (vin tx).

(** The median time before the block of a coin at a height. *)
Definition coin_time (h : heap) (block : ptr) (nCoinHeight : Z) : option Z :=
  a ← GetAncestor h block (Z.max (i32 (nCoinHeight - 1)) 0); p ← a; GetMedianTimePast h p.

(** The loop over the inputs and their heights: the pair and the heights, which
    are cleared for inputs without a lock. *)
Fixpoint lock_loop (h : heap) (block : ptr) (nMinHeight nMinTime : Z) (l : list CTxIn) (prevHeights : list Z) : option (Z * Z * list Z) :=
  match l, prevHeights with
  | [], _ => Some (nMinHeight, nMinTime, [])
  | txin :: r, nCoinHeight :: hs =>
      if negb (Z.land (nSequence txin) SEQUENCE_LOCKTIME_DISABLE_FLAG =? 0) then
        '(mh, mt, hs) ← lock_loop h block nMinHeight nMinTime r hs; Some (mh, mt, 0 :: hs)
      else if negb (Z.land (nSequence txin) SEQUENCE_LOCKTIME_TYPE_FLAG =? 0) then
        nCoinTime ← coin_time h block nCoinHeight;
        let lock := u32 (Z.shiftl (Z.land (nSequence txin) SEQUENCE_LOCKTIME_MASK) SEQUENCE_LOCKTIME_GRANULARITY) in
        '(mh, mt, hs) ← lock_loop h block nMinHeight (Z.max nMinTime (i64 (nCoinTime + lock - 1))) r hs;
        Some (mh, mt, nCoinHeight :: hs)
      else
        '(mh, mt, hs) ← lock_loop h block
           (Z.max nMinHeight (i32 (nCoinHeight + Z.land (nSequence txin) SEQUENCE_LOCKTIME_MASK - 1))) nMinTime r hs;
        Some (mh, mt, nCoinHeight :: hs)
  | _ :: _, [] => None
  end.

Definition CalculateSequenceLocks (h : heap) (tx : CTransaction) (flags : Z) (prevHeights : list Z) (block : ptr) : option (Z * Z * list Z) :=
  if negb (length prevHeights =? length (vin tx))%nat then None
  else
    let fEnforceBIP68 := (2 <=? u32 (nVersion tx)) && negb (Z.land flags LOCKTIME_VERIFY_SEQUENCE =? 0) in
    if negb fEnforceBIP68 then Some (-1, -1, prevHeights)
    else lock_loop h block (-1) (-1) (vin tx) prevHeights.

Definition EvaluateSequenceLocks (h : heap) (block : ptr) (lockHeight lockTime : Z) : option bool :=
  b ← h !! block;
  p ← pprev b;
  nBlockTime ← GetMedianTimePast h p;
  Some (negb ((Chain.nHeight b <=? lockHeight) || (nBlockTime <=? lockTime))).

Definition SequenceLocks (h : heap) (tx : CTransaction) (flags : Z) (prevHeights : list Z) (block : ptr) : option (bool * list Z) :=
  '(mh, mt, hs) ← CalculateSequenceLocks h tx flags prevHeights block;
  r ← EvaluateSequenceLocks h block mh mt;
  Some (r, hs).

(** ** Absolute locks *)

Lemma IsFinalTx_spec tx height time :
  IsFinalTx tx height time = true <->
  nLockTime tx = 0 \/ (nLockTime tx < LOCKTIME_THRESHOLD /\ nLockTime tx < height) \/
  (LOCKTIME_THRESHOLD <= nLockTime tx /\ nLockTime tx < time) \/ Forall (fun i => nSequence i = SEQUENCE_FINAL) (vin tx).
Proof.
  unfold IsFinalTx. assert (forallb (fun i => nSequence i =? SEQUENCE_FINAL) (vin tx) = true <-> Forall (fun i => nSequence i = SEQUENCE_FINAL) (vin tx)) as HF.
  { rewrite forallb_forall, Forall_forall. split; intros H i Hi; specialize (H i); rewrite <- list_elem_of_In, Z.eqb_eq in *; by apply H. }
  destruct (nLockTime tx =? 0) eqn:E0; cases_bool; [split; [by left|done]|].
  destruct (nLockTime tx <? LOCKTIME_THRESHOLD) eqn:E1; cases_bool.
  - destruct (nLockTime tx <? height) eqn:E2; cases_bool; [split; [|done]; intros _; right; left; lia|]. rewrite HF. split; [tauto|].
    intros [?|[?|[?|?]]]; [lia|lia|lia|done].
  - destruct (nLockTime tx <? time) eqn:E2; cases_bool; [split; [|done]; intros _; right; right; left; lia|]. rewrite HF. split; [tauto|].
    intros [?|[?|[?|?]]]; [lia|lia|lia|done].
Qed.

(** ** Relative locks *)

(** The lock of one input is over in a block: [time] is the median time before
    that block. *)
Definition unlocked (h : heap) (block : ptr) (height time : Z) (i : CTxIn) (nCoinHeight : Z) : Prop :=
  Z.testbit (nSequence i) 31 = true \/
  (Z.testbit (nSequence i) 22 = true /\
   exists ct, coin_time h block nCoinHeight = Some ct /\ ct + 512 * (nSequence i mod 2 ^ 16) <= time) \/
  (Z.testbit (nSequence i) 22 = false /\ nCoinHeight + nSequence i mod 2 ^ 16 <= height).

Section Theory.
Context (h : heap) (Hwf : wf_index h) (Htime : forall p b, h !! p = Some b -> in_u 32 (Chain.nTime b)).

Lemma median_bound p b : h !! p = Some b -> exists m, GetMedianTimePast h p = Some m /\ in_u 32 m.
Proof using Hwf Htime.
  intros Hp. destruct (GetMedianTimePast_spec h p b Hwf Hp) as (ts & m & Hc & _ & Hm & [Hin _]). exists m. split; [done|].
  destruct (collect_times_spec h Hwf nMedianTimeSpan p b Hp) as (ts' & Hc' & _ & Hts). rewrite Hc in Hc'. injection Hc' as <-.
  apply list_elem_of_lookup in Hin as [k Hk]. pose proof (lookup_lt_Some _ _ _ Hk).
  destruct (Hts (length ts - 1 - k)%nat) as (q & bq & _ & Hq & Ht); [lia|].
  replace (length ts - 1 - (length ts - 1 - k))%nat with k in Ht by lia. rewrite Hk in Ht. injection Ht as ->. by apply (Htime q).
Qed.

Lemma coin_time_bound block b nCoinHeight :
  h !! block = Some b -> 0 <= nCoinHeight <= Chain.nHeight b -> exists ct, coin_time h block nCoinHeight = Some ct /\ in_u 32 ct.
Proof using Hwf Htime.
  intros Hb Hc. pose proof (wi_height h Hwf block b Hb). unfold coin_time, i32. rewrite swrap_small by (unfold in_s; lia).
  destruct (GetAncestor_Some h Hwf block b (Z.max (nCoinHeight - 1) 0) Hb) as (q & bq & -> & _ & Hq & _); [lia|]. rewrite !bind_some.
  by apply (median_bound q bq).
Qed.

Lemma flag_testbit x k : 0 <= k -> negb (Z.land x (Z.shiftl 1 k) =? 0) = Z.testbit x k.
Proof using.
  intros Hk. rewrite Z.shiftl_1_l. destruct (Z.testbit x k) eqn:E.
  - apply negb_true_iff, Z.eqb_neq. intros F. assert (Z.testbit (Z.land x (2 ^ k)) k = true) as G by (by rewrite Z.land_spec, Z.pow2_bits_true, E by lia).
    rewrite F, Z.testbit_0_l in G. done.
  - apply negb_false_iff, Z.eqb_eq. apply Z.bits_inj'. intros n Hn. rewrite Z.land_spec, Z.testbit_0_l.
    destruct (decide (n = k)) as [->|Hne]; [by rewrite E|]. by rewrite Z.pow2_bits_false, andb_false_r by lia.
Qed.

Lemma mask_mod x : Z.land x SEQUENCE_LOCKTIME_MASK = x mod 2 ^ 16.
Proof using. apply (Z.land_ones x 16). lia. Qed.

(** What the pair says of a height and a time. *)
Lemma lock_loop_spec block b l : h !! block = Some b ->
  forall mh mt prevHeights height time,
  length prevHeights = length l -> Forall (fun c => 0 <= c <= Chain.nHeight b /\ c < 2 ^ 30) prevHeights ->
  exists mh' mt' hs, lock_loop h block mh mt l prevHeights = Some (mh', mt', hs) /\
    ((mh' < height /\ mt' < time) <-> (mh < height /\ mt < time /\ Forall2 (unlocked h block height time) l prevHeights)).
Proof using Hwf Htime.
  intros Hb. induction l as [|i l IH]; intros mh mt prevHeights height time Hlen Hph; destruct prevHeights as [|c hs]; try done; cbn [lock_loop].
  { exists mh, mt, []. split; [done|]. split; [intros [? ?]; by split_and!|tauto]. }
  inversion Hph as [|? ? [Hc Hc30] Hph']; subst. injection Hlen as Hlen. unfold SEQUENCE_LOCKTIME_DISABLE_FLAG, SEQUENCE_LOCKTIME_TYPE_FLAG.
  rewrite !flag_testbit, mask_mod by lia. set (v := nSequence i mod 2 ^ 16). pose proof (Z.mod_pos_bound (nSequence i) (2 ^ 16) ltac:(lia)) as Hv. fold v in Hv.
  destruct (Z.testbit (nSequence i) 31) eqn:E31; [|destruct (Z.testbit (nSequence i) 22) eqn:E22].
  - destruct (IH mh mt hs height time Hlen Hph') as (mh' & mt' & hs' & -> & Hiff). rewrite bind_some. eexists _, _, _. split; [done|]. rewrite Hiff, Forall2_cons.
    unfold unlocked at 2. rewrite E31. tauto.
  - destruct (coin_time_bound block b c Hb ltac:(lia)) as (ct & Hct & Hbt). rewrite Hct, bind_some. cbv zeta.
    unfold SEQUENCE_LOCKTIME_GRANULARITY. rewrite Z.shiftl_mul_pow2 by lia. change (2 ^ 9) with 512. unfold in_u in Hbt.
    rewrite (u32_small (v * 512)) by (unfold in_u; lia). unfold i64. rewrite swrap_small by (try done; unfold in_s; lia).
    destruct (IH mh (Z.max mt (ct + v * 512 - 1)) hs height time Hlen Hph') as (mh' & mt' & hs' & -> & Hiff). rewrite bind_some.
    eexists _, _, _. split; [done|]. rewrite Hiff, Z.max_lub_lt_iff, Forall2_cons. unfold unlocked at 2. rewrite E31, E22. fold v. split.
    + intros (H1 & [H2 H3] & H4). split_and!; [done..| |done]. right. left. split; [done|]. exists ct. split; [done|lia].
    + intros (H1 & H2 & [[F|[[_ (ct' & F & Hle)]|[F _]]] H4]); [done| |done]. rewrite Hct in F. injection F as <-. split_and!; try done. lia.
  - unfold i32. rewrite swrap_small by (try done; unfold in_s; lia).
    destruct (IH (Z.max mh (c + v - 1)) mt hs height time Hlen Hph') as (mh' & mt' & hs' & -> & Hiff). rewrite bind_some.
    eexists _, _, _. split; [done|]. rewrite Hiff, Z.max_lub_lt_iff, Forall2_cons. unfold unlocked at 2. rewrite E31, E22. fold v. split.
    + intros ([H1 H2] & H3 & H4). split_and!; [done..| |done]. right. right. split; [done|lia].
    + intros (H1 & H2 & [[F|[[F _]|[_ Hle]]] H4]); [done|done|]. split_and!; try done. lia.
Qed.

End Theory.

(** Relative locks apply to version 2 and up, when they are enforced. *)
Definition enforced (tx : CTransaction) (flags : Z) : Prop := 2 <= u32 (nVersion tx) /\ Z.testbit flags 0 = true.

(** C30: On a well-formed block index, [SequenceLocks] fails no assertion and accepts
    a transaction in a block exactly when the locks are not enforced, or each
    input either has its lock disabled, or spends a coin old enough: in blocks
    below the block, or in units of 512 seconds between median times. *)
Theorem SequenceLocks_correct (h : heap) tx flags prevHeights block b p
  (Hwf : wf_index h) (Htime : forall q bq, h !! q = Some bq -> in_u 32 (Chain.nTime bq))
  (Hb : h !! block = Some b) (Hp : pprev b = Some p) (Hlen : length prevHeights = length (vin tx))
  (Hph : Forall (fun c => 0 <= c <= Chain.nHeight b /\ c < 2 ^ 30) prevHeights) :
  exists r hs time, SequenceLocks h tx flags prevHeights block = Some (r, hs) /\ GetMedianTimePast h p = Some time /\
    (r = true <-> (enforced tx flags -> Forall2 (unlocked h block (Chain.nHeight b) time) (vin tx) prevHeights)).
Proof.
  pose proof (wi_height h Hwf block b Hb) as Hh. pose proof (wi_prev h Hwf block b Hb) as Hprev. rewrite Hp in Hprev. destruct Hprev as (bp & Hbp & _).
  destruct (median_bound h Hwf Htime p bp Hbp) as (time & Ht & Hti). unfold in_u in Hti.
  assert (forall mh mt, EvaluateSequenceLocks h block mh mt = Some (negb ((Chain.nHeight b <=? mh) || (time <=? mt)))) as HE.
  { intros mh mt. unfold EvaluateSequenceLocks. by rewrite Hb, bind_some, Hp, bind_some, Ht, bind_some. }
  unfold SequenceLocks, CalculateSequenceLocks. rewrite Hlen, Nat.eqb_refl. cbn [negb].
  assert ((2 <=? u32 (nVersion tx)) && negb (Z.land flags LOCKTIME_VERIFY_SEQUENCE =? 0) = true <-> enforced tx flags) as Hen.
  { unfold LOCKTIME_VERIFY_SEQUENCE. rewrite flag_testbit, andb_true_iff, Z.leb_le by lia. done. }
  destruct ((2 <=? _) && _) eqn:Ee; cbn [negb].
  - destruct (lock_loop_spec h Hwf Htime block b (vin tx) Hb (-1) (-1) prevHeights (Chain.nHeight b) time Hlen Hph) as (mh & mt & hs & -> & Hiff).
    rewrite bind_some, HE, bind_some. eexists _, hs, time. split; [done|]. split; [done|]. rewrite negb_true_iff, orb_false_iff, !Z.leb_gt, Hiff.
    split; [intros (_ & _ & ?) _; done|]. intros HF. split_and!; [lia|lia|]. apply HF. by apply Hen.
  - rewrite bind_some, HE, bind_some. eexists _, prevHeights, time. split; [done|]. split; [done|].
    rewrite (proj2 (Z.leb_gt _ _)), (proj2 (Z.leb_gt _ _)) by lia. split; [|done]. intros _ F. by apply Hen in F.
Qed.

(** Locks by time and by height on the sample index, one of them not over. *)
Definition locked_tx : CTransaction :=
  mkTx [mkTxIn (COutPoint_default) [] (2 ^ 22 + 1) []; mkTxIn (COutPoint_default) [] 3 []] [] 2 0 0.

Lemma SequenceLocks_correct_witness :
  exists r hs time, SequenceLocks sample_index locked_tx 1 [3; 2] 6%positive = Some (r, hs) /\ GetMedianTimePast sample_index 5%positive = Some time /\
    r = true /\ time = 2200.
Proof.
  destruct (SequenceLocks_correct sample_index locked_tx 1 [3; 2] 6%positive (sample_entry (Some 5%positive) (Some 2%positive) 5 4000 0) 5%positive)
    as (r & hs & time & E1 & E2 & Hr).
  - apply sample_index_wf.
  - change (map_Forall (fun _ bq => 0 <= Chain.nTime bq < 2 ^ 32) sample_index). apply (bool_decide_unpack _). vm_compute. exact I.
  - vm_compute. reflexivity.
  - reflexivity.
  - reflexivity.
  - apply (bool_decide_unpack _). vm_compute. exact I.
  - exists r, hs, time. split; [exact E1|]. split; [exact E2|]. assert (time = 2200) as -> by (vm_compute in E2; congruence). split; [|reflexivity].
    apply Hr. intros _. constructor; [|constructor; [|constructor]].
    + right. left. split; [reflexivity|]. eexists. split; [vm_compute; reflexivity|]. vm_compute. discriminate.
    + right. right. split; [reflexivity|]. vm_compute. discriminate.
Defined.

End Locks.
