(* ===== verification/Subsidy.v ===== *)
(** * The block reward ([validation.cpp])

    [GetBlockReward] and the money it issues: on the main network the sum of all
    rewards stays below the maximum amount of money, as long as the shift that
    halves the subsidy is defined. *)
From stdpp Require Import prelude gmap.
From S2P Require Import Prelude Params Serialize Transaction TxCheck.

Module Subsidy.
Import TxCheck.

(** [None] is undefined behaviour: a division by zero, or a shift by a count
    outside the width of the type. *)
Definition GetBlockReward (height : Z) (params : Params) : option Z :=
  let nSubsidy := 188 * COIN in
  if height =? 1 then Some (12600000 * COIN)
  else if height <=? 1440 then Some (10 * COIN)
  else if nSubsidyHalvingInterval params =? 0 then None
  else
    let halvings := Z.quot height (nSubsidyHalvingInterval params) in
    if 128 <=? halvings then Some 0
    else if (halvings <? 0) || (64 <=? halvings) then None
    else Some (Z.shiftr nSubsidy halvings).

(** The rewards of the blocks up to a height, without the genesis block. *)
Fixpoint issued (params : Params) (n : nat) : Z :=
  match n with O => 0 | S n' => issued params n' + default 0 (GetBlockReward (S n') params) end.

Lemma reward_range h params r : GetBlockReward h params = Some r -> 0 <= r <= 12600000 * COIN.
Proof.
  unfold GetBlockReward, COIN. cbv zeta. case_if; [intros [= <-]; lia|]. case_if; [intros [= <-]; lia|]. case_if; [done|]. case_if; [intros [= <-]; lia|].
  destruct (_ || _) eqn:Eo; [done|]. intros [= <-]. set (k := Z.quot h _) in *. rewrite Z.shiftr_div_pow2 by lia. pose proof (Z.pow_pos_nonneg 2 k ltac:(lia) ltac:(lia)).
  split; [apply Z.div_pos; lia|]. apply Z.div_le_upper_bound; nia.
Qed.

(** ** The main network *)

Definition interval : Z := 525600.
Definition halved (k : Z) : Z := 188 * COIN / 2 ^ k.

Lemma halved_bounds k : 0 <= k -> 0 <= halved k <= 188 * COIN /\ 2 * halved (k + 1) <= halved k.
Proof.
  intros Hk. unfold halved. pose proof (Z.pow_pos_nonneg 2 k ltac:(lia) ltac:(lia)).
  split; [split; [apply Z.div_pos; [done|lia]|apply Z.div_le_upper_bound; unfold COIN; nia]|].
  rewrite Z.pow_add_r, <- Z.div_div by lia. change (2 ^ 1) with 2. apply Z.mul_div_le. lia.
Qed.

(** The reward after the first blocks, in each period of the subsidy. *)
Lemma reward_late h : 1440 < h < 64 * interval -> GetBlockReward h CMainParams = Some (halved (h / interval)).
Proof.
  unfold interval. intros Hh. unfold GetBlockReward. rewrite (proj2 (Z.eqb_neq h 1)), (proj2 (Z.leb_gt h 1440)) by lia.
  change (nSubsidyHalvingInterval CMainParams) with 525600. change (525600 =? 0) with false. cbv zeta.
  rewrite Z.quot_div_nonneg by lia. assert (0 <= h / 525600 < 64) by (split; [apply Z.div_pos; lia|apply Z.div_lt_upper_bound; lia]).
  rewrite (proj2 (Z.leb_gt 128 _)), (proj2 (Z.ltb_ge _ 0)), (proj2 (Z.leb_gt 64 _)) by lia. cbn [orb].
  by rewrite Z.shiftr_div_pow2 by lia.
Qed.

Lemma reward_undefined h : 64 * interval <= h < 128 * interval -> GetBlockReward h CMainParams = None.
Proof.
  unfold interval. intros Hh. unfold GetBlockReward. rewrite (proj2 (Z.eqb_neq h 1)), (proj2 (Z.leb_gt h 1440)) by lia.
  change (nSubsidyHalvingInterval CMainParams) with 525600. change (525600 =? 0) with false. cbv zeta.
  rewrite Z.quot_div_nonneg by lia. assert (64 <= h / 525600 < 128) by (split; [apply Z.div_le_lower_bound; lia|apply Z.div_lt_upper_bound; lia]).
  rewrite (proj2 (Z.leb_gt 128 _)), (proj2 (Z.ltb_ge _ 0)), (proj2 (Z.leb_le 64 _)) by lia. done.
Qed.

Lemma issued_early (n : nat) : (1 <= n <= 1440)%nat -> issued CMainParams n = 12600000 * COIN + (Z.of_nat n - 1) * (10 * COIN).
Proof.
  induction n as [|n IH]; [lia|]. intros Hn. cbn [issued]. destruct (decide (n = O)) as [-> |]; [done|]. rewrite IH by lia.
  unfold GetBlockReward. rewrite (proj2 (Z.eqb_neq _ _)), (proj2 (Z.leb_le _ _)) by lia. cbn [from_option id]. lia.
Qed.

(** What is issued by the end of a block of period [k]. *)
Definition issued_bound (n k : Z) : Z :=
  12343482 * COIN + interval * (2 * halved 0 - 2 * halved k) + (n - k * interval + 1) * halved k.

Lemma issued_late (n : nat) :
  1440 <= n -> n < 64 * interval -> issued CMainParams n <= issued_bound n (n / interval).
Proof.
  induction n as [|n IH]; [lia|]. intros Hlo Hhi. destruct (decide (n < 1440)) as [Hlt|Hge].
  { assert (n = 1439)%nat as -> by lia. rewrite issued_early by lia. unfold issued_bound. change (Z.of_nat 1440 / interval) with 0.
    vm_compute. discriminate. }
  specialize (IH ltac:(lia) ltac:(lia)). cbn [issued]. rewrite reward_late by lia. cbn [from_option id].
  unfold interval in *. pose proof (Z.div_mod n 525600 ltac:(lia)). pose proof (Z.mod_pos_bound n 525600 ltac:(lia)).
  pose proof (Z.div_pos n 525600 ltac:(lia) ltac:(lia)). set (k := n / 525600) in *.
  destruct (halved_bounds k ltac:(lia)) as [Hk Hnext]. unfold issued_bound, interval in *.
  destruct (decide (n mod 525600 = 525599)).
  - assert (S n / 525600 = k + 1) as -> by (symmetry; apply (Z.div_unique_pos _ _ _ 0); lia).
    replace (S n - (k + 1) * 525600 + 1) with 1 by lia. replace (n - k * 525600 + 1) with 525600 in IH by lia. lia.
  - assert (S n / 525600 = k) as -> by (symmetry; apply (Z.div_unique_pos _ _ _ (n mod 525600 + 1)); lia).
    replace (S n - k * 525600 + 1) with (n - k * 525600 + 1 + 1) by lia. lia.
Qed.

Lemma issued_bounded (n : nat) : n < 64 * interval -> 0 <= issued CMainParams n <= MAX_MONEY.
Proof.
  intros Hn. split.
  + clear Hn. induction n as [|n IH]; cbn [issued]; [lia|]. assert (0 <= default 0 (GetBlockReward (S n) CMainParams)); [|lia].
    unfold GetBlockReward, COIN. repeat case_if; cbn [from_option id]; try lia. apply Z.shiftr_nonneg. lia.
  + destruct (decide (n < 1440)) as [Hlt|Hge].
    * destruct (decide (n = O)) as [-> |]; [vm_compute; discriminate|]. rewrite issued_early by lia. unfold MAX_MONEY, COIN. lia.
    * etransitivity; [apply issued_late; lia|]. unfold issued_bound, interval. pose proof (Z.div_mod n 525600 ltac:(lia)).
      pose proof (Z.mod_pos_bound n 525600 ltac:(lia)). pose proof (Z.div_pos n 525600 ltac:(lia) ltac:(lia)).
      set (k := n / 525600) in *. destruct (halved_bounds k ltac:(lia)) as [Hk _]. change (halved 0) with 188000000.
      assert ((n - k * 525600 + 1) * halved k <= 525600 * halved k) by (apply Z.mul_le_mono_nonneg_r; lia).
      unfold MAX_MONEY, COIN. lia.
Qed.

(** On the main network the rewards of all blocks below the 64th halving add up
    to less than [MAX_MONEY]; from that height to the 128th halving the reward
    is undefined, and after it zero. *)
Theorem supply_bound :
  (forall n : nat, n < 64 * interval -> 0 <= issued CMainParams n <= MAX_MONEY) /\
  (forall h, 64 * interval <= h < 128 * interval -> GetBlockReward h CMainParams = None) /\
  (forall h, 128 * interval <= h -> GetBlockReward h CMainParams = Some 0).
Proof.
  split; [apply issued_bounded|split; [apply reward_undefined|]].
  unfold interval. intros h Hh. unfold GetBlockReward. rewrite (proj2 (Z.eqb_neq h 1)), (proj2 (Z.leb_gt h 1440)) by lia.
    change (nSubsidyHalvingInterval CMainParams) with 525600. change (525600 =? 0) with false. cbv zeta.
    rewrite Z.quot_div_nonneg, (proj2 (Z.leb_le 128 _)); [done|apply Z.div_le_lower_bound; lia|lia|lia].
Qed.

End Subsidy.
