(* ===== verification/BlockCheck.v ===== *)
(** * Checks of a block by itself ([validation.cpp], [consensus/tx_verify.cpp])

    [CheckBlock] on a block that has not been checked accepts exactly the blocks
    that satisfy its rules, and marks them; a marked block is accepted without
    further checks.  Proof of work, the signet solution and the block signature
    are parameters. *)
From stdpp Require Import prelude gmap strings.
From S2P Require Import Prelude Uint256 Kernel Serialize Transaction Merkle Script Coins BlockCoins TxCheck.

Module BlockCheck.
Import Serialize Transaction TxCheck.

(** ** Definitions *)

Inductive BlockValidationResult :=
  BLOCK_RESULT_UNSET | BLOCK_CONSENSUS | BLOCK_RECENT_CONSENSUS_CHANGE | BLOCK_CACHED_INVALID | BLOCK_INVALID_HEADER | BLOCK_MUTATED |
  BLOCK_MISSING_PREV | BLOCK_INVALID_PREV | BLOCK_TIME_FUTURE | BLOCK_CHECKPOINT.
Inductive block_verdict := BlockValid | BlockInvalid (result : BlockValidationResult) (reject_reason : string).

Definition MAX_BLOCK_SIGOPS_COST : Z := 80000.
Definition MAX_FUTURE_BLOCK_TIME : Z := 15 * 60.

Definition GetLegacySigOpCount (tx : CTransaction) : Z :=
  let nSigOps := fold_left (fun nSigOps i => u32 (nSigOps + Script.GetSigOpCount (scriptSig i) false)) (vin tx) 0 in
  fold_left (fun nSigOps o => u32 (nSigOps + Script.GetSigOpCount (scriptPubKey o) false)) (vout tx) nSigOps.

(** The loop over the transactions; the result of a failing check is asserted
    to be of the consensus kind.  The check of the transaction time that follows
    the return is not reached. *)
Fixpoint check_transactions (l : list CTransaction) : option block_verdict :=
  match l with
  | [] => Some BlockValid
  | tx :: r =>
      match CheckTransaction tx with
      | Valid => check_transactions r
      | Invalid TX_CONSENSUS reason => Some (BlockInvalid BLOCK_CONSENSUS reason)
      | Invalid _ _ => None
      end
  end.

Definition GetBlockTime (block : CBlock) : Z := hTime (header block).

Section Code.
Context (D64 : list Z -> nat -> list Z) (GetHash : CTransaction -> list Z) (main signet_blocks : bool).
Context (CheckPOW : CBlockHeader -> bool) (CheckSignetBlockSolution CheckBlockSignature : CBlock -> bool).

(** The size limits. *)
Definition size_ok (block : CBlock) : bool :=
  negb ((length (vtx block) =? 0)%nat || (MAX_BLOCK_WEIGHT <? u64 (length (vtx block) * WITNESS_SCALE_FACTOR)) ||
        (MAX_BLOCK_WEIGHT <?
         u64 (GetSerializeSize CBlock_Ser block (Z.lor PROTOCOL_VERSION SERIALIZE_TRANSACTION_NO_WITNESS) 0 * WITNESS_SCALE_FACTOR))).

(** Coinbase and coinstake: the first failing rule.  The first output of the
    coinbase of a proof-of-stake block is read without a check that there is one;
    [None] would be a read outside of the vector. *)
Definition check_generated (block : CBlock) : option block_verdict :=
  match vtx block with
  | [] => Some (BlockInvalid BLOCK_CONSENSUS "bad-cb-missing")
  | cb :: rest =>
      if negb (IsCoinBase cb) then Some (BlockInvalid BLOCK_CONSENSUS "bad-cb-missing")
      else if existsb IsCoinBase rest then Some (BlockInvalid BLOCK_CONSENSUS "bad-cb-multiple")
      else if existsb IsCoinStake (drop 1 rest) then Some (BlockInvalid BLOCK_CONSENSUS "bad-cs-missing")
      else
        notempty ← (if IsProofOfStake block then o ← head (vout cb); Some (negb (CTxOut_IsEmpty o)) else Some false);
        if (notempty : bool) then Some (BlockInvalid BLOCK_CONSENSUS "bad-cb-notempty")
        else if (if negb (nTime cb =? 0) then nTime cb else GetBlockTime block) + MAX_FUTURE_BLOCK_TIME <? GetBlockTime block then
          Some (BlockInvalid BLOCK_CONSENSUS "bad-cb-time")
        else if IsProofOfStake block &&
                match rest with
                | cs :: _ => negb (Kernel.CheckCoinStakeTimestamp (GetBlockTime block) (if negb (nTime cs =? 0) then nTime cs else GetBlockTime block))
                | [] => false
                end
             then Some (BlockInvalid BLOCK_CONSENSUS "bad-cs-time")
        else Some BlockValid
  end.

(** The merkle root, when it is checked. *)
Definition check_merkle (block : CBlock) : block_verdict :=
  let '(hashMerkleRoot2, mutated) := Merkle.BlockMerkleRoot D64 GetHash (vtx block) (Some false) in
  if bool_decide (hashMerkleRoot (header block) <> hashMerkleRoot2) then BlockInvalid BLOCK_MUTATED "bad-txnmrklroot"
  else if default false mutated then BlockInvalid BLOCK_MUTATED "bad-txns-duplicate"
  else BlockValid.

Definition count_sigops (l : list CTransaction) : Z := fold_left (fun nSigOps tx => u32 (nSigOps + GetLegacySigOpCount tx)) l 0.

(** Whether the signature of the block is to be checked. *)
Definition wants_signature (block : CBlock) : bool := IsProofOfStake block || negb (Kernel.IsBTC16BIPsEnabled main (GetBlockTime block)).

(** The verdict and the flag [fChecked] of the block; [None] is a failed
    assertion or a read outside of a vector. *)
Definition CheckBlock (fChecked : bool) (block : CBlock) (fCheckPOW fCheckMerkleRoot fCheckSignature : bool) : option (block_verdict * bool) :=
  if fChecked then Some (BlockValid, fChecked)
  else if fCheckPOW && negb (IsProofOfStake block) && negb (CheckPOW (header block)) then
    Some (BlockInvalid BLOCK_INVALID_HEADER "high-hash", fChecked)
  else if signet_blocks && fCheckPOW && negb (CheckSignetBlockSolution block) then
    Some (BlockInvalid BLOCK_CONSENSUS "bad-signet-blksig", fChecked)
  else
    match (if fCheckMerkleRoot then check_merkle block else BlockValid) with
    | BlockInvalid _ _ as v => Some (v, fChecked)
    | BlockValid =>
        if negb (size_ok block) then Some (BlockInvalid BLOCK_CONSENSUS "bad-blk-length", fChecked)
        else
          g ← check_generated block;
          match (g : block_verdict) with
          | BlockInvalid _ _ => Some (g, fChecked)
          | BlockValid =>
              v ← check_transactions (vtx block);
              match (v : block_verdict) with
              | BlockInvalid _ _ => Some (v, fChecked)
              | BlockValid =>
                  if MAX_BLOCK_SIGOPS_COST <? u32 (count_sigops (vtx block) * WITNESS_SCALE_FACTOR) then
                    Some (BlockInvalid BLOCK_CONSENSUS "bad-blk-sigops", fChecked)
                  else
                    let fChecked := if fCheckPOW && fCheckMerkleRoot then true else fChecked in
                    if fCheckMerkleRoot && fCheckSignature && wants_signature block && negb (CheckBlockSignature block) then
                      Some (BlockInvalid BLOCK_CONSENSUS "bad-blk-sign", fChecked)
                    else Some (BlockValid, fChecked)
              end
          end
    end.

End Code.

(** ** Signature operations *)

Definition sumZ {A} (f : A -> Z) (l : list A) : Z := foldr (fun x s => f x + s) 0 l.

Lemma sumZ_le {A} (f g : A -> Z) l : (forall x, x ∈ l -> f x <= g x) -> sumZ f l <= sumZ g l.
Proof.
  induction l as [|x l IH]; intros H; cbn [sumZ foldr]; [lia|]. fold (sumZ f l) (sumZ g l).
  pose proof (H x ltac:(by left)). assert (sumZ f l <= sumZ g l) by (apply IH; intros y Hy; apply H; by right). lia.
Qed.

Lemma sumZ_nonneg {A} (f : A -> Z) l : (forall x, x ∈ l -> 0 <= f x) -> 0 <= sumZ f l.
Proof.
  intros H. transitivity (sumZ (fun _ => 0) l); [|by apply sumZ_le].
  clear H. induction l as [|x l IH]; [done|]. cbn [sumZ foldr]. fold (sumZ (fun _ : A => 0) l). lia.
Qed.

Lemma sumZ_mul {A} k (f : A -> Z) l : sumZ (fun x => k * f x) l = k * sumZ f l.
Proof. induction l as [|x l IH]; cbn [sumZ foldr]; [lia|]. fold (sumZ f l) (sumZ (fun x => k * f x) l). lia. Qed.

Lemma sumZ_add {A} (f g : A -> Z) l : sumZ (fun x => f x + g x) l = sumZ f l + sumZ g l.
Proof. induction l as [|x l IH]; cbn [sumZ foldr]; [lia|]. fold (sumZ f l) (sumZ g l) (sumZ (fun x => f x + g x) l). lia. Qed.

Lemma sumZ_const {A} k (l : list A) : sumZ (fun _ => k) l = k * length l.
Proof. induction l as [|x l IH]; cbn [sumZ foldr length]; [lia|]. fold (sumZ (fun _ : A => k) l). lia. Qed.

Lemma sumZ_length {A B} (f : A -> list B) l : sumZ (fun x => length (f x)) l = length (concat (map f l)).
Proof. induction l as [|x l IH]; cbn [sumZ foldr map concat]; [done|]. fold (sumZ (fun x => length (f x)) l). rewrite length_app. lia. Qed.

Lemma fold_u32 {A} (f : A -> Z) l a :
  0 <= a -> (forall x, x ∈ l -> 0 <= f x) -> a + sumZ f l < 2 ^ 32 -> fold_left (fun n x => u32 (n + f x)) l a = a + sumZ f l.
Proof.
  revert a. induction l as [|x l IH]; intros a Ha Hf Hs; cbn [fold_left sumZ foldr] in *; [lia|]. fold (sumZ f l) in *.
  pose proof (Hf x ltac:(by left)). assert (0 <= sumZ f l) by (apply sumZ_nonneg; intros y Hy; apply Hf; by right).
  rewrite u32_small by (unfold in_u; lia). rewrite IH; [lia|lia|intros y Hy; apply Hf; by right|lia].
Qed.

(** The operations of a transaction, and the bytes of its scripts. *)
Definition sigops (tx : CTransaction) : Z :=
  sumZ (fun i => Script.GetSigOpCount (scriptSig i) false) (vin tx) + sumZ (fun o => Script.GetSigOpCount (scriptPubKey o) false) (vout tx).
Definition script_bytes (tx : CTransaction) : Z := sumZ (fun i => length (scriptSig i)) (vin tx) + sumZ (fun o => length (scriptPubKey o)) (vout tx).

Lemma sigop_range script : 20 * length script < 2 ^ 32 -> 0 <= Script.GetSigOpCount script false <= 20 * length script.
Proof. intros Hl. unfold Script.GetSigOpCount. pose proof (Script.sigop_bound (length script) false 0 Script.OP_INVALIDOPCODE script). lia. Qed.

Lemma bytes_length v : length v <= length (Serialize_bytes v).
Proof. unfold Serialize_bytes. rewrite length_app. case_if; cases_bool; lia. Qed.

Lemma script_bytes_length tx version : script_bytes tx <= length (SerializeTransaction version tx).
Proof.
  unfold script_bytes, SerializeTransaction, Vector_Ser. rewrite !length_app.
  pose proof (sumZ_length CTxIn_Ser (vin tx)). pose proof (sumZ_length CTxOut_Ser (vout tx)).
  assert (sumZ (fun i => length (scriptSig i)) (vin tx) <= sumZ (fun i => length (CTxIn_Ser i)) (vin tx)).
  { apply sumZ_le. intros i _. unfold CTxIn_Ser. rewrite !length_app. pose proof (bytes_length (scriptSig i)). lia. }
  assert (sumZ (fun o => length (scriptPubKey o)) (vout tx) <= sumZ (fun o => length (CTxOut_Ser o)) (vout tx)).
  { apply sumZ_le. intros o _. unfold CTxOut_Ser. rewrite !length_app. pose proof (bytes_length (scriptPubKey o)). lia. }
  lia.
Qed.

(** A part of a sum of lengths. *)
Lemma sumZ_elem {A} (f : A -> Z) l x : (forall y, y ∈ l -> 0 <= f y) -> x ∈ l -> f x <= sumZ f l.
Proof.
  intros Hf. induction l as [|y l IH]; [by intros ?%not_elem_of_nil|]. cbn [sumZ foldr]. fold (sumZ f l).
  assert (0 <= sumZ f l) by (apply sumZ_nonneg; intros z Hz; apply Hf; by right).
  pose proof (Hf y ltac:(by left)). intros [->|Hx]%elem_of_cons; [lia|]. specialize (IH ltac:(intros z Hz; apply Hf; by right) Hx). lia.
Qed.

Lemma sigops_range tx : 20 * script_bytes tx < 2 ^ 32 -> 0 <= sigops tx <= 20 * script_bytes tx /\ GetLegacySigOpCount tx = sigops tx.
Proof.
  intros Hb. unfold script_bytes in Hb.
  set (li := sumZ (fun i => length (scriptSig i)) (vin tx)) in *. set (lo := sumZ (fun o => length (scriptPubKey o)) (vout tx)) in *.
  assert (0 <= li) by (unfold li; rewrite sumZ_length; lia). assert (0 <= lo) by (unfold lo; rewrite sumZ_length; lia).
  assert (forall i, i ∈ vin tx -> 0 <= Script.GetSigOpCount (scriptSig i) false <= 20 * length (scriptSig i)) as Hi.
  { intros i Hin. apply sigop_range. assert (Z.of_nat (length (scriptSig i)) <= li); [|lia].
    apply (sumZ_elem (fun i => Z.of_nat (length (scriptSig i)))); [intros; lia|done]. }
  assert (forall o, o ∈ vout tx -> 0 <= Script.GetSigOpCount (scriptPubKey o) false <= 20 * length (scriptPubKey o)) as Ho.
  { intros o Hin. apply sigop_range. assert (Z.of_nat (length (scriptPubKey o)) <= lo); [|lia].
    apply (sumZ_elem (fun o => Z.of_nat (length (scriptPubKey o)))); [intros; lia|done]. }
  assert (0 <= sumZ (fun i => Script.GetSigOpCount (scriptSig i) false) (vin tx) <= 20 * li) as Hsi.
  { split; [apply sumZ_nonneg|unfold li; rewrite <- sumZ_mul; apply sumZ_le]; intros; by apply Hi. }
  assert (0 <= sumZ (fun o => Script.GetSigOpCount (scriptPubKey o) false) (vout tx) <= 20 * lo) as Hso.
  { split; [apply sumZ_nonneg|unfold lo; rewrite <- sumZ_mul; apply sumZ_le]; intros; by apply Ho. }
  unfold sigops, script_bytes, GetLegacySigOpCount. fold li lo. split; [lia|].
  rewrite (fold_u32 (fun i => Script.GetSigOpCount (scriptSig i) false)); [|lia|intros; by apply Hi|lia].
  rewrite fold_u32; [lia|lia|intros; by apply Ho|lia].
Qed.

(** ** The parts of the check *)

Definition block_bytes (block : CBlock) : Z :=
  length (CBlock_Ser (Z.lor PROTOCOL_VERSION SERIALIZE_TRANSACTION_NO_WITNESS) 0 block).

Lemma tx_bytes block : sumZ (fun tx => length (SerializeTransaction 0 tx)) (vtx block) <= block_bytes block.
Proof.
  unfold block_bytes, CBlock_Ser, Vector_Ser. rewrite !length_app. pose proof (sumZ_length (SerializeTransaction 0) (vtx block)). lia.
Qed.

Lemma tx_bytes_elem block tx : tx ∈ vtx block -> length (SerializeTransaction 0 tx) <= block_bytes block.
Proof.
  intros Htx. etransitivity; [|apply tx_bytes]. apply (sumZ_elem (fun tx => Z.of_nat (length (SerializeTransaction 0 tx)))); [intros; lia|done].
Qed.

(** Within the size limit the count of operations does not wrap. *)
Lemma count_sigops_spec block :
  4 * block_bytes block <= MAX_BLOCK_WEIGHT ->
  count_sigops (vtx block) = sumZ sigops (vtx block) /\ 0 <= sumZ sigops (vtx block) <= 20000000.
Proof.
  unfold MAX_BLOCK_WEIGHT. intros Hs. pose proof (tx_bytes block) as Ht.
  assert (forall tx, tx ∈ vtx block -> 20 * script_bytes tx < 2 ^ 32) as Hb.
  { intros tx Htx. pose proof (script_bytes_length tx 0). pose proof (tx_bytes_elem block tx Htx). lia. }
  assert (0 <= sumZ sigops (vtx block) <= 20000000) as Hsum.
  { split; [apply sumZ_nonneg; intros tx Htx; by apply sigops_range, Hb|].
    transitivity (20 * sumZ (fun tx => length (SerializeTransaction 0 tx)) (vtx block)); [|lia]. rewrite <- sumZ_mul. apply sumZ_le.
    intros tx Htx. pose proof (sigops_range tx (Hb tx Htx)). pose proof (script_bytes_length tx 0). lia. }
  split; [|done]. unfold count_sigops.
  assert (forall l a, (forall tx, tx ∈ l -> GetLegacySigOpCount tx = sigops tx) ->
    fold_left (fun n tx => u32 (n + GetLegacySigOpCount tx)) l a = fold_left (fun n tx => u32 (n + sigops tx)) l a) as Hfold.
  { induction l as [|tx l IH]; intros a Hl; [done|]. cbn [fold_left]. rewrite (Hl tx) by left. apply IH. intros tx' Htx'. apply Hl. by right. }
  rewrite Hfold by (intros tx Htx; by apply sigops_range, Hb).
  rewrite fold_u32; [lia|lia|intros tx Htx; by apply sigops_range, Hb|lia].
Qed.

Lemma check_transactions_spec l :
  (forall tx, tx ∈ l -> length (SerializeTransaction 0 tx) < 2 ^ 62) ->
  exists v, check_transactions l = Some v /\ (v = BlockValid <-> Forall well_formed l) /\ (v = BlockValid \/ exists r, v = BlockInvalid BLOCK_CONSENSUS r).
Proof.
  induction l as [|tx l IH]; intros Hl; cbn [check_transactions].
  { exists BlockValid. split; [done|]. split; [split; [constructor|done]|by left]. }
  pose proof (CheckTransaction_Valid tx (Hl tx ltac:(by left))) as Hv. pose proof (CheckTransaction_kind tx) as Hk.
  destruct (CheckTransaction tx) as [|r reason] eqn:E.
  - destruct IH as (v & Ev & Hiff & Hkind); [intros tx' Htx'; apply Hl; by right|]. exists v. split; [done|]. split; [|done].
    rewrite Hiff, Forall_cons. tauto.
  - specialize (Hk r reason eq_refl). subst r. eexists. split; [done|]. split; [|by right; eexists]. split; [done|]. rewrite Forall_cons.
    intros [Hwf _]. by apply Hv in Hwf.
Qed.

Lemma existsb_Forall {A} (f : A -> bool) l : existsb f l = false <-> Forall (fun x => f x = false) l.
Proof.
  induction l as [|x l IH]; cbn [existsb]; [by rewrite Forall_nil|]. by rewrite Forall_cons, orb_false_iff, IH.
Qed.

Lemma coinbase_first_Forall l : BlockCoins.coinbase_first false l <-> Forall (fun tx => IsCoinBase tx = false) l.
Proof. induction l as [|tx l IH]; cbn [BlockCoins.coinbase_first]; [by rewrite Forall_nil|]. by rewrite Forall_cons, IH. Qed.

(** The time a transaction counts with: its own, or the block's. *)
Definition effective_time (block : CBlock) (tx : CTransaction) : Z := if negb (nTime tx =? 0) then nTime tx else GetBlockTime block.

(** The rules for generated coins. *)
Record generated_rules (block : CBlock) : Prop := {
  gr_coinbase : vtx block <> [] /\ BlockCoins.coinbase_first true (vtx block);
  gr_coinstake : Forall (fun tx => IsCoinStake tx = false) (drop 2 (vtx block));
  gr_empty : IsProofOfStake block = true -> exists cb rest o os, vtx block = cb :: rest /\ vout cb = o :: os /\ CTxOut_IsEmpty o = true;
  gr_time : forall cb rest, vtx block = cb :: rest -> GetBlockTime block <= effective_time block cb + MAX_FUTURE_BLOCK_TIME;
  gr_stake_time : IsProofOfStake block = true -> forall cb cs rest, vtx block = cb :: cs :: rest -> effective_time block cs = GetBlockTime block
}.

(** A coinbase has a first output to read. *)
Lemma coinbase_output cb : IsCoinBase cb = true -> vout cb <> [].
Proof. unfold IsCoinBase. destruct (vin cb) as [|i [|]]; [done| |done]. intros H F. rewrite F in H. cases_bool. cbn in *. lia. Qed.

Lemma check_generated_spec block :
  exists v, check_generated block = Some v /\ (v = BlockValid <-> generated_rules block).
Proof.
  unfold check_generated. destruct (vtx block) as [|cb rest] eqn:Evtx; [eexists; split; [done|]; split; [done|intros [[? _]]; congruence]|].
  destruct (IsCoinBase cb) eqn:E1; cbn [negb]; [|eexists; split; [done|]; split; [done|]; intros [[_ H]]; rewrite Evtx in H; destruct H; congruence].
  destruct (existsb IsCoinBase rest) eqn:E2.
  { eexists. split; [done|]. split; [done|]. intros [[_ H]]. rewrite Evtx in H. destruct H as [_ H]. rewrite coinbase_first_Forall, <- existsb_Forall in H. congruence. }
  destruct (existsb IsCoinStake (drop 1 rest)) eqn:E3.
  { eexists. split; [done|]. split; [done|]. intros [_ H]. rewrite Evtx in H. cbn [drop] in H. rewrite <- existsb_Forall in H. congruence. }
  apply existsb_Forall in E2, E3.
  assert (exists ne, (if IsProofOfStake block then o ← head (vout cb); Some (negb (CTxOut_IsEmpty o)) else Some false) = Some ne /\
    (ne = false <-> (IsProofOfStake block = true -> exists o os, vout cb = o :: os /\ CTxOut_IsEmpty o = true))) as (ne & -> & Hne).
  { destruct (IsProofOfStake block) eqn:Hpos; [|by eexists]. pose proof (coinbase_output cb E1) as Hout. destruct (vout cb) as [|o os]; [done|].
    cbn [head]. rewrite bind_some. eexists. split; [done|]. rewrite negb_false_iff. split; [by eauto|].
    intros H. destruct (H eq_refl) as (? & ? & [= <- <-] & ?). done. }
  rewrite bind_some. fold (effective_time block cb). destruct ne.
  { eexists. split; [done|]. split; [done|]. intros [_ _ H3 _ _]. assert (true = false); [|done]. apply Hne. intros Hpos.
    destruct (H3 Hpos) as (cb' & rest' & o & os & Ev & Eo & He). rewrite Evtx in Ev. injection Ev as <- <-. eauto. }
  apply proj1 in Hne. specialize (Hne eq_refl).
  destruct (effective_time block cb + MAX_FUTURE_BLOCK_TIME <? GetBlockTime block) eqn:E5; cases_bool.
  { eexists. split; [done|]. split; [done|]. intros [_ _ _ H4 _]. specialize (H4 cb rest Evtx). lia. }
  match goal with |- context [if ?b then _ else _] => destruct b eqn:E6 end.
  { eexists. split; [done|]. split; [done|]. cases_bool. intros [_ _ _ _ H5]. destruct rest as [|cs rest]; [done|]. fold (effective_time block cs) in H0. cases_bool.
    unfold Kernel.CheckCoinStakeTimestamp in H0. cases_bool. specialize (H5 H cb cs rest Evtx). lia. }
  eexists. split; [done|]. split; [|done]. intros _. split.
  - rewrite Evtx. split; [done|]. split; [done|]. by rewrite coinbase_first_Forall.
  - by rewrite Evtx.
  - intros Hpos. destruct (Hne Hpos) as (o & os & ? & ?). exists cb, rest, o, os. done.
  - intros cb' rest' Ev. rewrite Evtx in Ev. injection Ev as <- <-. lia.
  - intros Hpos cb' cs rest' Ev. rewrite Evtx in Ev. injection Ev as <- ->. rewrite Hpos in E6. fold (effective_time block cs) in E6. cases_bool.
    unfold Kernel.CheckCoinStakeTimestamp in E6. cbn [andb] in E6. cases_bool. lia.
Qed.

(** ** CheckBlock *)

Lemma check_merkle_spec D64 GetHash block :
  check_merkle D64 GetHash block = BlockValid <->
  Merkle.BlockMerkleRoot D64 GetHash (vtx block) (Some false) = (hashMerkleRoot (header block), Some false).
Proof.
  unfold check_merkle. assert (is_Some (Merkle.BlockMerkleRoot D64 GetHash (vtx block) (Some false)).2) as Hs.
  { unfold Merkle.BlockMerkleRoot, Merkle.ComputeMerkleRoot. destruct (Merkle.merkle_loop _ _ _ _ _). by eexists. }
  destruct (Merkle.BlockMerkleRoot D64 GetHash (vtx block) (Some false)) as [root m]. cbn [snd] in Hs. destruct Hs as [m' ->]. cbn [from_option id].
  destruct (decide (hashMerkleRoot (header block) = root)) as [->|Hne].
  - rewrite bool_decide_false by tauto. destruct m'; split; congruence.
  - rewrite bool_decide_true by done. split; congruence.
Qed.

(** A transaction takes at least a byte, so the first size limit is implied. *)
Lemma size_ok_spec block :
  block_bytes block < 2 ^ 62 -> vtx block <> [] -> size_ok block = true <-> 4 * block_bytes block <= MAX_BLOCK_WEIGHT.
Proof.
  intros Hb Hne. pose proof (tx_bytes block) as Ht.
  assert (length (vtx block) <= sumZ (fun tx => length (SerializeTransaction 0 tx)) (vtx block)) as Hn.
  { assert (forall tx, 1 <= length (SerializeTransaction 0 tx)) as H1.
    { intros tx. unfold SerializeTransaction. rewrite !length_app. assert (length (ser_i32 (nVersion tx)) = 4%nat) as -> by done. lia. }
    clear -H1. induction (vtx block) as [|tx l IH]; cbn [sumZ foldr length]; [lia|].
    fold (sumZ (fun tx => Z.of_nat (length (SerializeTransaction 0 tx))) l). specialize (H1 tx). lia. }
  unfold size_ok, GetSerializeSize, WITNESS_SCALE_FACTOR. fold (block_bytes block). unfold MAX_BLOCK_WEIGHT.
  rewrite !u64_small by (unfold in_u; lia). rewrite negb_true_iff, !orb_false_iff, !Z.ltb_ge, Nat.eqb_neq.
  split; [lia|]. intros H. split; [split; [|lia]|lia]. destruct (vtx block); done.
Qed.

Section Theory.
Context (D64 : list Z -> nat -> list Z) (GetHash : CTransaction -> list Z) (main signet_blocks : bool).
Context (CheckPOW : CBlockHeader -> bool) (CheckSignetBlockSolution CheckBlockSignature : CBlock -> bool).

(** The rules before the block is marked. *)
Record block_rules (block : CBlock) : Prop := {
  br_pow : IsProofOfStake block = false -> CheckPOW (header block) = true;
  br_signet : signet_blocks = true -> CheckSignetBlockSolution block = true;
  br_merkle : Merkle.BlockMerkleRoot D64 GetHash (vtx block) (Some false) = (hashMerkleRoot (header block), Some false);
  br_size : 4 * block_bytes block <= MAX_BLOCK_WEIGHT;
  br_generated : generated_rules block;
  br_txs : Forall well_formed (vtx block);
  br_sigops : 4 * sumZ sigops (vtx block) <= MAX_BLOCK_SIGOPS_COST
}.

(** The first check of a block, with every part of it wanted. *)
Lemma CheckBlock_unmarked block :
  block_bytes block < 2 ^ 62 ->
  exists v f, CheckBlock D64 GetHash main signet_blocks CheckPOW CheckSignetBlockSolution CheckBlockSignature false block true true true = Some (v, f) /\
    (f = true <-> block_rules block) /\
    (v = BlockValid <-> block_rules block /\ (wants_signature main block = true -> CheckBlockSignature block = true)).
Proof using.
  intros Hb. unfold CheckBlock. cbn [andb]. rewrite andb_true_r.
  assert (forall r s, ~ block_rules block -> exists v f, Some (BlockInvalid r s, false) = Some (v, f) /\ (f = true <-> block_rules block) /\
    (v = BlockValid <-> block_rules block /\ (wants_signature main block = true -> CheckBlockSignature block = true))) as Hbad.
  { intros r s Hno. eexists _, _. split; [done|]. split; (split; [done|tauto]). }
  destruct (negb (IsProofOfStake block) && negb (CheckPOW (header block))) eqn:E1.
  { apply Hbad. cases_bool. intros []. by rewrite br_pow0 in H0. }
  destruct (signet_blocks && negb (CheckSignetBlockSolution block)) eqn:E2.
  { apply Hbad. cases_bool. intros []. by rewrite br_signet0 in H0. }
  pose proof (check_merkle_spec D64 GetHash block) as Hm. destruct (check_merkle D64 GetHash block) eqn:E3.
  2: { apply Hbad. intros []. by apply Hm in br_merkle0. }
  destruct (decide (vtx block = [])) as [Hnil|Hne].
  { assert (size_ok block = false) as -> by (unfold size_ok; by rewrite Hnil). apply Hbad. intros []. destruct br_generated0 as [[? _]]. done. }
  pose proof (size_ok_spec block Hb Hne) as Hs. destruct (size_ok block) eqn:E4; cbn [negb]; [|apply Hbad; intros []; by apply Hs in br_size0].
  destruct (check_generated_spec block) as (g & -> & Hg). rewrite bind_some. destruct g; [|apply Hbad; intros []; by apply Hg in br_generated0].
  destruct (check_transactions_spec (vtx block)) as (v & -> & Hv & _); [intros tx Htx; pose proof (tx_bytes_elem block tx Htx); lia|].
  rewrite bind_some. destruct v; [|apply Hbad; intros []; by apply Hv in br_txs0].
  destruct (count_sigops_spec block (proj1 Hs eq_refl)) as [Hc Hr]. rewrite Hc. unfold WITNESS_SCALE_FACTOR.
  rewrite u32_small by (unfold in_u; lia). destruct (MAX_BLOCK_SIGOPS_COST <? sumZ sigops (vtx block) * 4) eqn:E5; cases_bool.
  { apply Hbad. intros []. lia. }
  assert (block_rules block) as HR.
  { split; [| |by apply Hm|by apply Hs|by apply Hg|by apply Hv|lia].
    - intros F. rewrite F in E1. cbn [negb andb] in E1. by apply negb_false_iff in E1.
    - intros F. rewrite F in E2. cbn [andb] in E2. by apply negb_false_iff in E2. }
  destruct (wants_signature main block && negb (CheckBlockSignature block)) eqn:E6; eexists _, _; (split; [done|]); (split; [done|]).
  - cases_bool. split; [done|]. intros [_ F]. rewrite F in H0 by done. done.
  - split; [|done]. intros _. split; [done|]. intros F. rewrite F in E6. cbn [andb] in E6. by apply negb_false_iff in E6.
Qed.

End Theory.

(** C5: [CheckBlock] on a block not yet marked as checked raises no assertion
    and reads no output that is not there.  The block is accepted exactly when it satisfies the rules and, if one is wanted,
    its signature is good: the header's proof of work, the merkle root of its
    transactions without a duplication, the size limit, a coinbase at the start
    and nowhere else, a coinstake only in second place, well-formed transactions
    and the limit on signature operations, which are counted without overflow.
    The block is marked as soon as the rules hold, before its signature is
    checked, and a marked block is accepted: a second check of a block with a
    bad signature succeeds. *)
Theorem CheckBlock_correct D64 GetHash main signet_blocks CheckPOW CheckSignet CheckSig block
  (Hb : block_bytes block < 2 ^ 62) :
  let check f := CheckBlock D64 GetHash main signet_blocks CheckPOW CheckSignet CheckSig f block true true true in
  let rules := block_rules D64 GetHash signet_blocks CheckPOW CheckSignet block in
  exists v f, check false = Some (v, f) /\
    (v = BlockValid <-> rules /\ (wants_signature main block = true -> CheckSig block = true)) /\
    (f = true <-> rules) /\
    (rules -> check f = Some (BlockValid, true)).
Proof.
  cbv zeta. destruct (CheckBlock_unmarked D64 GetHash main signet_blocks CheckPOW CheckSignet CheckSig block Hb) as (v & f & E & Hf & Hv).
  exists v, f. split; [done|]. split; [done|]. split; [done|]. intros HR. apply Hf in HR. by rewrite HR.
Qed.

(** A block of a coinbase and a payment dated after the block, with a hash that
    is easy to compute. *)
Definition sum_hash (tx : CTransaction) : list Z := repeat (nTime tx) 32.
Definition first_half (inp : list Z) (k : nat) : list Z := take (32 * k) inp.
Definition cb_tx : CTransaction := mkTx [mkTxIn COutPoint_default [1; 2] 0 []] [mkTxOut 0 []] 1 100 0.
Definition pay_tx : CTransaction := mkTx [mkTxIn (mkOutPoint (repeat 2 32) 0) [] 0 []] [mkTxOut 10000 [81]] 1 2000000000 0.
Definition late_block : CBlock := mkBlock (mkHeader 4 (repeat 1 32) (repeat 100 32) 1000 0 0 0) [cb_tx; pay_tx] [].

Lemma CheckBlock_correct_witness :
  exists v f, CheckBlock first_half sum_hash true false (fun _ => true) (fun _ => true) (fun _ => false) false late_block true true true = Some (v, f) /\
    f = true /\
    CheckBlock first_half sum_hash true false (fun _ => true) (fun _ => true) (fun _ => false) f late_block true true true = Some (BlockValid, true).
Proof.
  destruct (CheckBlock_correct first_half sum_hash true false (fun _ => true) (fun _ => true) (fun _ => false) late_block) as (v & f & E & _ & Hf & Hr).
  - vm_compute. reflexivity.
  - exists v, f. split; [exact E|]. assert (f = true) as Ht by (vm_compute in E; congruence). split; [exact Ht|]. apply Hr, Hf, Ht.
Defined.

(** The payment in the block is dated after it, and the block passes. *)
Lemma late_transaction_accepted :
  GetBlockTime late_block < nTime pay_tx /\
  CheckBlock first_half sum_hash true false (fun _ => true) (fun _ => true) (fun _ => true) false late_block true true true = Some (BlockValid, true).
Proof. split; [reflexivity|]. vm_compute. reflexivity. Qed.

End BlockCheck.
