(* ===== verification/CuckooCache.v ===== *)
(** * The cache of verified hashes ([cuckoocache.h], [util/fastrange.h])

    A set that forgets: a table in which an element has eight places, flags
    that say which places may be overwritten, packed eight to a byte, and
    epochs that decide when elements become old enough to be forgotten.  The
    class is a template of the type of the elements and of their eight hashes.
    [None] is an access out of range. *)
From stdpp Require Import prelude list.
From S2P Require Import Prelude.

(** ** What the users of a cache rely on

    A set that may forget elements, and never invents one. *)

Class ForgetfulSet (S E : Type) := {
  set_ok : S -> Prop;
  set_elem : S -> E -> Prop;
  set_insert : S -> E -> option S;
  set_contains : S -> E -> bool -> option (S * bool);
  set_insert_ok s e : set_ok s -> exists s', set_insert s e = Some s' /\ set_ok s' /\ forall x, set_elem s' x -> set_elem s x \/ x = e;
  set_contains_ok s e erase : set_ok s ->
    exists s' b, set_contains s e erase = Some (s', b) /\ set_ok s' /\ (b = true -> set_elem s e) /\ forall x, set_elem s' x -> set_elem s x
}.

(** ** Reducing a hash to a range *)

Module FastRange.

Definition FastRange32 (x n : Z) : Z := u32 (u64 (x * n) ≫ 32).

(** With 128-bit integers, and without. *)
Definition FastRange64 (x n : Z) : Z := u64 (uwrap 128 (x * n) ≫ 64).
Definition FastRange64_portable (x n : Z) : Z :=
  let x_hi := x ≫ 32 in
  let x_lo := Z.land x 0xFFFFFFFF in
  let n_hi := n ≫ 32 in
  let n_lo := Z.land n 0xFFFFFFFF in
  let ac := u64 (x_hi * n_hi) in
  let ad := u64 (x_hi * n_lo) in
  let bc := u64 (x_lo * n_hi) in
  let bd := u64 (x_lo * n_lo) in
  let mid34 := u64 (u64 ((bd ≫ 32) + Z.land bc 0xFFFFFFFF) + Z.land ad 0xFFFFFFFF) in
  u64 (u64 (u64 (ac + (bc ≫ 32)) + (ad ≫ 32)) + (mid34 ≫ 32)).

Lemma FastRange32_bound x n : in_u 32 x -> 0 < n < 2 ^ 32 -> 0 <= FastRange32 x n < n.
Proof.
  unfold in_u, FastRange32. intros Hx Hn. assert (0 <= x * n < 2 ^ 32 * n) as Hp by nia.
  rewrite u64_small by (unfold in_u; nia). rewrite Z.shiftr_div_pow2 by lia.
  assert (0 <= x * n / 2 ^ 32 < n) as Hq by (split; [apply Z.div_pos; lia|apply Z.div_lt_upper_bound; lia]). rewrite u32_small by (unfold in_u; lia). done.
Qed.

(** Both versions of the reduction of 64-bit numbers compute the high half of the product. *)
Theorem FastRange64_portable_correct x n : in_u 64 x -> in_u 64 n -> FastRange64_portable x n = FastRange64 x n /\ FastRange64 x n = x * n / 2 ^ 64.
Proof.
  unfold in_u, FastRange64_portable, FastRange64. intros Hx Hn.
  assert (0 <= x * n / 2 ^ 64 < 2 ^ 64) as Hq by (split; [apply Z.div_pos; nia|apply Z.div_lt_upper_bound; nia]).
  rewrite (uwrap_small 128) by (unfold in_u; nia). rewrite (Z.shiftr_div_pow2 (x * n)) by lia. rewrite (u64_small (x * n / _)) by (unfold in_u; lia). split; [|done].
  pose proof (split32 x) as Ex. pose proof (split32 n) as En. pose proof (low32_range x) as Hxl. pose proof (low32_range n) as Hnl. unfold in_u in *.
  assert (forall y, 0 <= y < 2 ^ 64 -> 0 <= y ≫ 32 < 2 ^ 32) as Hhi.
  { intros y Hy. rewrite Z.shiftr_div_pow2 by lia. split; [apply Z.div_pos; lia|apply Z.div_lt_upper_bound; lia]. }
  pose proof (Hhi x Hx) as Hxh. pose proof (Hhi n Hn) as Hnh.
  set (xh := x ≫ 32) in *. set (xl := Z.land x 0xFFFFFFFF) in *. set (nh := n ≫ 32) in *. set (nl := Z.land n 0xFFFFFFFF) in *. clearbody xh xl nh nl.
  rewrite !(u64_small (_ * _)) by (unfold in_u; nia). set (ac := xh * nh). set (ad := xh * nl). set (bc := xl * nh). set (bd := xl * nl).
  assert (0 <= ad <= (2 ^ 32 - 1) * (2 ^ 32 - 1)) as Had by (subst ad; nia). assert (0 <= bc <= (2 ^ 32 - 1) * (2 ^ 32 - 1)) as Hbc by (subst bc; nia).
  assert (0 <= bd <= (2 ^ 32 - 1) * (2 ^ 32 - 1)) as Hbd by (subst bd; nia). assert (0 <= ac <= (2 ^ 32 - 1) * (2 ^ 32 - 1)) as Hac by (subst ac; nia).
  assert (x * n = ac * 2 ^ 64 + (ad + bc) * 2 ^ 32 + bd) as Hprod by (subst ac ad bc bd; nia). clearbody ac ad bc bd.
  pose proof (split32 ad) as Ead. pose proof (split32 bc) as Ebc. pose proof (split32 bd) as Ebd. pose proof (low32_range ad) as Hadl. pose proof (low32_range bc) as Hbcl. pose proof (low32_range bd) as Hbdl.
  pose proof (Hhi ad ltac:(lia)) as Hadh. pose proof (Hhi bc ltac:(lia)) as Hbch. pose proof (Hhi bd ltac:(lia)) as Hbdh. unfold in_u in *.
  rewrite (u64_small ((bd ≫ 32) + _)) by (unfold in_u; lia). rewrite (u64_small (_ + Z.land ad _)) by (unfold in_u; lia).
  set (mid := (bd ≫ 32) + Z.land bc 0xFFFFFFFF + Z.land ad 0xFFFFFFFF) in *. assert (0 <= mid < 2 ^ 34) as Hmid by lia. pose proof (split32 mid) as Emid.
  pose proof (low32_range mid) as Hmidl. unfold in_u in Hmidl. pose proof (Hhi mid ltac:(lia)) as Hmidh.
  assert (x * n / 2 ^ 64 = ac + (bc ≫ 32) + (ad ≫ 32) + (mid ≫ 32)) as Hdiv.
  { symmetry. apply (Z.div_unique_pos _ _ _ (2 ^ 32 * Z.land mid 0xFFFFFFFF + Z.land bd 0xFFFFFFFF)); lia. }
  rewrite Hdiv in *. rewrite (u64_small (ac + _)), (u64_small (_ + (ad ≫ 32))), u64_small by (unfold in_u; lia). done.
Qed.

Lemma FastRange64_portable_correct_witness :
  FastRange64_portable 0xdeadbeefdeadbeef 0xffffffffffffffff = FastRange64 0xdeadbeefdeadbeef 0xffffffffffffffff /\
  FastRange64 0xdeadbeefdeadbeef 0xffffffffffffffff = 0xdeadbeefdeadbeef * 0xffffffffffffffff / 2 ^ 64.
Proof. apply FastRange64_portable_correct; by split. Defined.

End FastRange.

(** ** Packed flags *)

Module BitPackedFlags.

Definition bit_packed_atomic_flags (size : Z) : list Z := replicate (Z.to_nat (u32 (size + 7) / 8)) 0xFF.
Definition flags_setup (mem : list Z) (b : Z) : list Z := bit_packed_atomic_flags b.
Definition bit_set (mem : list Z) (s : Z) : option (list Z) :=
  let i := Z.to_nat (s ≫ 3) in
  b ← mem !! i; Some (<[i := Z.lor b (u8 (1 ≪ Z.land s 7))]> mem).
Definition bit_unset (mem : list Z) (s : Z) : option (list Z) :=
  let i := Z.to_nat (s ≫ 3) in
  b ← mem !! i; Some (<[i := Z.land b (u8 (Z.lnot (1 ≪ Z.land s 7)))]> mem).
Definition bit_is_set (mem : list Z) (s : Z) : option bool :=
  b ← mem !! Z.to_nat (s ≫ 3); Some (negb (Z.land (1 ≪ Z.land s 7) b =? 0)).

(** What the bytes stand for. *)
Definition flag (mem : list Z) (i : nat) : bool := Z.testbit (mem.[i / 8]) (i mod 8)%nat.

Section Bits.
Context (mem : list Z) (i : nat) (Hi : (i < 8 * length mem)%nat).

Lemma byte_index : Z.to_nat (Z.of_nat i ≫ 3) = (i / 8)%nat /\ Z.land (Z.of_nat i) 7 = Z.of_nat (i mod 8) /\ (i / 8 < length mem)%nat /\ (i mod 8 < 8)%nat.
Proof using Hi.
  rewrite Z.shiftr_div_pow2 by lia. change 7 with (2 ^ 3 - 1). rewrite land_ones_mod by lia. change (2 ^ 3) with (Z.of_nat 8).
  rewrite <- Nat2Z.inj_div, <- Nat2Z.inj_mod, Nat2Z.id. split; [done|]. split; [done|]. split; [by apply Nat.Div0.div_lt_upper_bound|by apply Nat.mod_upper_bound].
Qed.

Lemma bit_is_set_flag : bit_is_set mem i = Some (flag mem i).
Proof using Hi.
  destruct byte_index as (E1 & E2 & H1 & H2). unfold bit_is_set, flag. rewrite E1, E2. destruct (lookup_lt_is_Some_2 mem _ H1) as [b Hb].
  rewrite Hb, (nth_lookup_Some _ _ _ _ Hb). cbn [mbind option_bind]. f_equal. apply Bool.eq_true_iff_eq. rewrite negb_true_iff, Z.eqb_neq. split.
  - intros Hne. apply not_false_is_true. intros Hf. apply Hne. apply Z.bits_inj'. intros k Hk. rewrite Z.land_spec, Z.bits_0, Z.shiftl_1_l, Z.pow2_bits_eqb by lia.
    destruct (Z.eqb_spec (i mod 8)%nat k) as [<-|]; [|done]. by rewrite Hf.
  - intros Ht Hz. assert (Z.testbit (Z.land (1 ≪ (i mod 8)%nat) b) (i mod 8)%nat = true) as Hb'; [|by rewrite Hz, Z.bits_0 in Hb'].
    rewrite Z.land_spec, Z.shiftl_1_l, Z.pow2_bits_true by lia. done.
Qed.

Lemma flag_insert (x : Z) b j :
  (forall m : nat, (m < 8)%nat -> Z.testbit x m = if decide (m = i mod 8)%nat then b else Z.testbit (mem.[i / 8]) m) ->
  flag (<[(i / 8)%nat := x]> mem) j = if decide (j = i) then b else flag mem j.
Proof using Hi.
  intros Hx. unfold flag. destruct byte_index as (_ & _ & H1 & H2). rewrite nth_insert by done.
  pose proof (Nat.div_mod_eq i 8) as Ei. pose proof (Nat.div_mod_eq j 8) as Ej. destruct (decide (i / 8 = j / 8)%nat) as [Ed|Ed].
  - rewrite Hx by (by apply Nat.mod_upper_bound). destruct (decide (j = i)) as [->|Hne]; [by rewrite decide_True|].
    rewrite decide_False, Ed; [done|]. intros Em. apply Hne. lia.
  - rewrite decide_False; [done|]. by intros ->.
Qed.

Lemma mask_bit (m : nat) : Z.testbit (1 ≪ (i mod 8)%nat) m = bool_decide (m = i mod 8)%nat.
Proof using.
  clear. rewrite Z.shiftl_1_l, Z.pow2_bits_eqb by lia. case_bool_decide as E; [rewrite E; apply Z.eqb_refl|]. apply Z.eqb_neq. lia.
Qed.

Lemma u8_bit x (m : nat) : (m < 8)%nat -> Z.testbit (u8 x) m = Z.testbit x m.
Proof using. clear. intros Hm. unfold u8, uwrap. by rewrite Z.mod_pow2_bits_low by lia. Qed.

(** Setting and clearing a flag change that flag and no other. *)
Lemma bit_set_flag : exists mem', bit_set mem i = Some mem' /\ length mem' = length mem /\ forall j, flag mem' j = if decide (j = i) then true else flag mem j.
Proof using Hi.
  destruct byte_index as (E1 & E2 & H1 & H2). unfold bit_set. rewrite E1, E2. destruct (lookup_lt_is_Some_2 mem _ H1) as [b Hb]. rewrite Hb.
  cbn [mbind option_bind]. eexists. split; [reflexivity|]. split; [apply length_insert|]. intros j. apply flag_insert. intros m Hm.
  rewrite (nth_lookup_Some _ _ _ _ Hb), Z.lor_spec, u8_bit, mask_bit by done. case_bool_decide; by rewrite ?orb_true_r, ?orb_false_r; case_decide.
Qed.

Lemma bit_unset_flag : exists mem', bit_unset mem i = Some mem' /\ length mem' = length mem /\ forall j, flag mem' j = if decide (j = i) then false else flag mem j.
Proof using Hi.
  destruct byte_index as (E1 & E2 & H1 & H2). unfold bit_unset. rewrite E1, E2. destruct (lookup_lt_is_Some_2 mem _ H1) as [b Hb]. rewrite Hb.
  cbn [mbind option_bind]. eexists. split; [reflexivity|]. split; [apply length_insert|]. intros j. apply flag_insert. intros m Hm.
  rewrite (nth_lookup_Some _ _ _ _ Hb), Z.land_spec, u8_bit, Z.lnot_spec, mask_bit by (done || lia). case_bool_decide; by rewrite ?andb_true_r, ?andb_false_r; case_decide.
Qed.

End Bits.

(** A new set of flags has them all set; it is large enough if the size has room to be rounded up. *)
Lemma flags_init size : 0 <= size -> size + 7 < 2 ^ 32 ->
  let mem := bit_packed_atomic_flags size in size <= 8 * length mem /\ forall j : nat, j < size -> flag mem j = true.
Proof.
  intros H0 Hs. unfold bit_packed_atomic_flags. rewrite u32_small by (unfold in_u; lia). set (n := Z.to_nat ((size + 7) / 8)).
  assert (size <= 8 * n) as Hn. { subst n. rewrite Z2Nat.id by (apply Z.div_pos; lia). pose proof (Z.div_mod (size + 7) 8). pose proof (Z.mod_pos_bound (size + 7) 8). lia. }
  cbn zeta. rewrite length_replicate. split; [lia|]. intros j Hj. unfold flag. rewrite nth_lookup, lookup_replicate_2 by (apply Nat.Div0.div_lt_upper_bound; lia).
  cbn [default from_option id]. change 0xFF with (Z.ones 8). apply Z.ones_spec_low. pose proof (Nat.mod_upper_bound j 8). lia.
Qed.

End BitPackedFlags.

(** ** The cache *)

Module CuckooCache.
Import FastRange BitPackedFlags.

Record cache {Element : Type} := mkCache {
  table : list Element;
  size : Z;
  collection_flags : list Z;
  epoch_flags : list bool;
  epoch_heuristic_counter : Z;
  epoch_size : Z;
  depth_limit : Z
}.
Arguments cache : clear implicits.

Definition cache_init {Element} : cache Element := mkCache _ [] 0 (bit_packed_atomic_flags 0) [] 0 0 0.

Definition vec_set {A} (l : list A) (i : Z) (x : A) : option (list A) :=
  if (Z.to_nat i <? length l)%nat then Some (<[Z.to_nat i := x]> l) else None.

(** The first of the locations that passes a test. *)
Fixpoint find_loc (test : Z -> option bool) (locs : list Z) : option (option Z) :=
  match locs with
  | [] => Some None
  | loc :: locs => b ← test loc; if (b : bool) then Some (Some loc) else find_loc test locs
  end.

(** [std::find] in an array, as a distance from its beginning. *)
Fixpoint find_index (x : Z) (l : list Z) : nat :=
  match l with
  | [] => 0%nat
  | y :: l => if y =? x then 0%nat else S (find_index x l)
  end.

Definition with_table {Element} (c : cache Element) t : cache Element :=
  mkCache _ t (size c) (collection_flags c) (epoch_flags c) (epoch_heuristic_counter c) (epoch_size c) (depth_limit c).
Definition with_flags {Element} (c : cache Element) f : cache Element :=
  mkCache _ (table c) (size c) f (epoch_flags c) (epoch_heuristic_counter c) (epoch_size c) (depth_limit c).
Definition with_epochs {Element} (c : cache Element) e : cache Element :=
  mkCache _ (table c) (size c) (collection_flags c) e (epoch_heuristic_counter c) (epoch_size c) (depth_limit c).
Definition with_counter {Element} (c : cache Element) n : cache Element :=
  mkCache _ (table c) (size c) (collection_flags c) (epoch_flags c) n (epoch_size c) (depth_limit c).

Section Cache.
(** [log2f n] is the logarithm to base two of [n] as a [float], truncated to a byte. *)
Context {Element : Type} `{EqDecision Element} (Element_default : Element) (hash_function : nat -> Element -> Z) (log2f : Z -> Z).

#[local] Abbreviation cache := (cache Element).

Definition compute_hashes (c : cache) (e : Element) : list Z := map (fun k => FastRange32 (hash_function k e) (size c)) (seq 0 8).

Definition invalid : Z := 2 ^ 32 - 1.

Definition allow_erase (c : cache) (n : Z) : option cache := f ← bit_set (collection_flags c) n; Some (with_flags c f).
Definition please_keep (c : cache) (n : Z) : option cache := f ← bit_unset (collection_flags c) n; Some (with_flags c f).

(** The elements of the latest epoch that have not been erased. *)
Definition count_recent (c : cache) : option Z :=
  for_range 0 (Z.to_nat (size c))
    (fun i acc =>
       n ← acc;
       recent ← epoch_flags c !! i;
       live ← (if (recent : bool) then b ← bit_is_set (collection_flags c) i; Some (negb b) else Some false);
       Some (u32 (n + if (live : bool) then 1 else 0))) (Some 0).

(** The current epoch becomes the old one; what was old may be erased. *)
Definition age (c : cache) : option cache :=
  for_range 0 (Z.to_nat (size c))
    (fun i acc =>
       c ← acc;
       recent ← epoch_flags c !! i;
       if (recent : bool) then e ← vec_set (epoch_flags c) i false; Some (with_epochs c e) else allow_erase c i) (Some c).

Definition epoch_check (c : cache) : option cache :=
  if negb (epoch_heuristic_counter c =? 0) then Some (with_counter c (epoch_heuristic_counter c - 1))
  else
    epoch_unused_count ← count_recent c;
    if epoch_size c <=? epoch_unused_count then c ← age c; Some (with_counter c (epoch_size c))
    else Some (with_counter c (Z.max 1 (Z.max (epoch_size c / 16) (u32 (epoch_size c - epoch_unused_count))))).

(** The cache, and the number of elements it can hold. *)
Definition setup (c : cache) (new_size : Z) : cache * Z :=
  let size := Z.max 2 new_size in
  let epoch_size := Z.max 1 (u32 (45 * size) / 100) in
  (mkCache _ (resize (Z.to_nat size) Element_default (table c)) size (BitPackedFlags.flags_setup (collection_flags c) size)
     (resize (Z.to_nat size) false (epoch_flags c)) epoch_size epoch_size (log2f (Z.max 2 new_size)), size).

Definition setup_bytes (sizeof_Element : Z) (c : cache) (bytes : Z) : cache * Z := setup c (u32 (bytes / sizeof_Element)).

Definition is_at (c : cache) (e : Element) (loc : Z) : option bool := x ← table c !! Z.to_nat loc; Some (bool_decide (x = e)).

Definition keep (c : cache) (loc : Z) (epoch : bool) : option cache :=
  c ← please_keep c loc; e ← vec_set (epoch_flags c) loc epoch; Some (with_epochs c e).

(** [depth] is what is left of the limit. *)
Fixpoint insert_loop (depth : nat) (c : cache) (e : Element) (last_loc : Z) (last_epoch : bool) : option cache :=
  match depth with
  | O => Some c
  | S depth =>
      let locs := compute_hashes c e in
      free ← find_loc (bit_is_set (collection_flags c)) locs;
      match free with
      | Some loc => t ← vec_set (table c) loc e; keep (with_table c t) loc last_epoch
      | None =>
          let last_loc := locs.[Z.to_nat (Z.land (1 + find_index last_loc locs) 7)] in
          x ← table c !! Z.to_nat last_loc;
          t ← vec_set (table c) last_loc e;
          epoch ← epoch_flags c !! Z.to_nat last_loc;
          f ← vec_set (epoch_flags c) last_loc last_epoch;
          insert_loop depth (with_epochs (with_table c t) f) x last_loc epoch
      end
  end.

Definition insert (c : cache) (e : Element) : option cache :=
  c ← epoch_check c;
  found ← find_loc (is_at c e) (compute_hashes c e);
  match found with
  | Some loc => keep c loc true
  | None => insert_loop (Z.to_nat (depth_limit c)) c e invalid true
  end.

Definition contains (c : cache) (e : Element) (erase : bool) : option (cache * bool) :=
  found ← find_loc (is_at c e) (compute_hashes c e);
  match found with
  | Some loc => c ← (if erase then allow_erase c loc else Some c); Some (c, true)
  | None => Some (c, false)
  end.

End Cache.

End CuckooCache.
