(* ===== verification/CuckooTheory.v ===== *)
(** * What the cache of verified hashes promises

    Nothing but what was inserted is ever found; an insertion loses at most
    one element; no access is out of range; and the epochs bound the part of
    the table that is in use. *)
From stdpp Require Import prelude list.
From S2P Require Import Prelude CuckooCache.

Module CuckooTheory.
Import FastRange BitPackedFlags CuckooCache.

(** ** Counting *)

Fixpoint count (P : nat -> bool) (n : nat) : Z :=
  match n with
  | O => 0
  | S n => count P n + Z.b2z (P n)
  end.

Lemma count_ext P Q n : (forall i, (i < n)%nat -> P i = Q i) -> count P n = count Q n.
Proof. induction n as [|n IH]; intros H; [done|]. cbn. rewrite (H n), IH; [done|intros; apply H; lia|lia]. Qed.

Lemma count_bound P n : 0 <= count P n <= n.
Proof. induction n as [|n IH]; [done|]. cbn [count]. destruct (P n); cbn; lia. Qed.

Lemma count_add P Q R n : (forall i, (i < n)%nat -> Z.b2z (P i) = Z.b2z (Q i) + Z.b2z (R i)) -> count P n = count Q n + count R n.
Proof. induction n as [|n IH]; intros H; [done|]. cbn [count]. rewrite (H n), IH; [lia|intros; apply H; lia|lia]. Qed.

Lemma count_mono P Q n : (forall i, (i < n)%nat -> Z.b2z (P i) <= Z.b2z (Q i)) -> count P n <= count Q n.
Proof. induction n as [|n IH]; intros H; [done|]. cbn [count]. specialize (IH ltac:(intros; apply H; lia)). specialize (H n ltac:(lia)). lia. Qed.

(** Changing one value. *)
Lemma count_update P Q n i : (i < n)%nat -> (forall j, j <> i -> Q j = P j) -> count Q n + Z.b2z (P i) = count P n + Z.b2z (Q i).
Proof.
  intros Hi H. induction n as [|n IH]; [lia|]. cbn [count]. destruct (decide (i = n)) as [->|Hne].
  - rewrite (count_ext Q P); [lia|]. intros; apply H; lia.
  - rewrite (H n) by lia. specialize (IH ltac:(lia)). lia.
Qed.

(** ** Searching the locations *)

Lemma find_loc_spec (test : Z -> option bool) (f : Z -> bool) locs :
  (forall loc, loc ∈ locs -> test loc = Some (f loc)) -> find_loc test locs = Some (List.find f locs).
Proof.
  induction locs as [|loc locs IH]; intros H; [done|]. cbn [find_loc List.find]. rewrite (H loc) by left. cbn [mbind option_bind].
  destruct (f loc); [done|]. apply IH. intros. apply H. by right.
Qed.

Lemma vec_set_some {A} (l : list A) (i : Z) x : (Z.to_nat i < length l)%nat -> vec_set l i x = Some (<[Z.to_nat i := x]> l).
Proof. intros Hi. unfold vec_set. by rewrite (proj2 (Nat.ltb_lt _ _) Hi). Qed.

Section Cache.
Context {Element : Type} `{EqDecision Element} (Element_default : Element) (hash_function : nat -> Element -> Z).
Context (Hhash : forall k e, in_u 32 (hash_function k e)).

#[local] Abbreviation cache := (cache Element).
#[local] Abbreviation locs_of := (compute_hashes hash_function).

Definition slots (c : cache) : nat := Z.to_nat (size c).
Definition discardable (c : cache) (i : nat) : bool := flag (collection_flags c) i.
Definition recent_at (c : cache) (i : nat) : bool := default false (epoch_flags c !! i).
Definition in_use (c : cache) : Z := count (fun i => negb (discardable c i)) (slots c).
Definition recent (c : cache) : Z := count (fun i => recent_at c i && negb (discardable c i)) (slots c).
Definition old (c : cache) : Z := count (fun i => negb (recent_at c i) && negb (discardable c i)) (slots c).

Lemma in_use_split c : in_use c = recent c + old c.
Proof using. clear. apply count_add. intros i _. destruct (recent_at c i), (discardable c i); done. Qed.

(** Every element is at one of its places, but for the default elements no one inserted. *)
Definition placed (c : cache) : Prop :=
  forall i x, table c !! i = Some x -> (discardable c i = true /\ x = Element_default) \/ Z.of_nat i ∈ locs_of c x.

Record wf (c : cache) : Prop := {
  wf_size : 2 <= size c /\ size c + 7 < 2 ^ 32;
  wf_table : length (table c) = slots c;
  wf_epochs : length (epoch_flags c) = slots c;
  wf_flags : size c <= 8 * length (collection_flags c);
  wf_placed : placed c
}.

Definition slack (c : cache) : Z := Z.max 1 (epoch_size c / 16).
Record loaded (c : cache) : Prop := {
  ld_size : 1 <= epoch_size c < 2 ^ 32;
  ld_counter : 0 <= epoch_heuristic_counter c;
  ld_recent : recent c + epoch_heuristic_counter c <= epoch_size c + slack c;
  ld_old : old c <= epoch_size c + slack c
}.

Lemma locs_bound c e loc : wf c -> loc ∈ locs_of c e -> exists i : nat, loc = Z.of_nat i /\ (i < slots c)%nat.
Proof using Hhash.
  intros [[H1 H2]] Hl. apply list_elem_of_fmap in Hl as (k & -> & _). pose proof (FastRange32_bound (hash_function k e) (size c) (Hhash k e) ltac:(lia)).
  exists (Z.to_nat (FastRange32 (hash_function k e) (size c))). unfold slots. lia.
Qed.

(** ** Flags and epochs of one slot *)

Lemma allow_erase_spec c i : wf c -> (i < slots c)%nat ->
  exists f, allow_erase c i = Some (with_flags c f) /\ wf (with_flags c f) /\ (forall j, flag f j = if decide (j = i) then true else discardable c j).
Proof using.
  clear Hhash. intros Hwf Hi. destruct (bit_set_flag (collection_flags c) i) as (f & Hf & Hl & Hj). { pose proof (wf_flags _ Hwf). unfold slots in Hi. lia. }
  exists f. unfold allow_erase. rewrite Hf. split; [done|]. split; [|done]. destruct Hwf as [Hs Ht He Hfl Hp]. split; try done; [cbn; by rewrite Hl|].
  intros j x Hx. unfold discardable. cbn [collection_flags with_flags]. rewrite Hj. destruct (Hp j x Hx) as [[Hd ->]|Hin]; [left|by right].
  split; [|done]. by case_decide.
Qed.

(** What an operation other than the check of the epoch leaves alone. *)
Definition same_shape (c c' : cache) : Prop :=
  size c' = size c /\ epoch_size c' = epoch_size c /\ depth_limit c' = depth_limit c /\ epoch_heuristic_counter c' = epoch_heuristic_counter c.

Lemma epoch_set c i b j : wf c -> (i < slots c)%nat -> default false (<[i := b]> (epoch_flags c) !! j) = if decide (j = i) then b else recent_at c j.
Proof using.
  clear Hhash. intros Hwf Hi. unfold recent_at. rewrite list_lookup_insert. rewrite (wf_epochs _ Hwf). destruct (decide (j = i)) as [->|Hne]; [by rewrite decide_True|]. rewrite decide_False by (by intros [-> _]). done.
Qed.

Lemma keep_spec c i b x : wf c -> table c !! i = Some x -> Z.of_nat i ∈ locs_of c x ->
  exists c', keep c i b = Some c' /\ wf c' /\ same_shape c c' /\ table c' = table c /\
    (forall j, discardable c' j = if decide (j = i) then false else discardable c j) /\
    (forall j, recent_at c' j = if decide (j = i) then b else recent_at c j).
Proof using.
  clear Hhash. intros Hwf Hx Hin. assert (i < slots c)%nat as Hi by (rewrite <- (wf_table _ Hwf); by eapply lookup_lt_Some).
  destruct (bit_unset_flag (collection_flags c) i) as (f & Hf & Hl & Hj). { pose proof (wf_flags _ Hwf). unfold slots in Hi. lia. }
  unfold keep, please_keep. rewrite Hf. cbn [mbind option_bind]. rewrite vec_set_some by (cbn; rewrite Nat2Z.id; by rewrite (wf_epochs _ Hwf)).
  rewrite Nat2Z.id. cbn [mbind option_bind]. eexists. split; [done|]. split; [|split; [done|]; split; [done|]; split; [done|]].
  - destruct Hwf as [Hs Ht He Hfl Hp]. split; try done; [cbn; by rewrite length_insert|cbn; by rewrite Hl|].
    intros j y Hy. unfold discardable. cbn [collection_flags with_flags with_epochs]. rewrite Hj. cbn [table with_epochs with_flags] in Hy.
    case_decide as Ej; [|exact (Hp j y Hy)]. right. subst j. by assert (y = x) as -> by congruence.
  - intros j. exact (epoch_set c i b j Hwf Hi).
Qed.

(** How much of the table is in use after one slot has been written. *)
Lemma update_counts c c' i : (i < slots c)%nat -> same_shape c c' ->
  (forall j, j <> i -> discardable c' j = discardable c j) -> (forall j, j <> i -> recent_at c' j = recent_at c j) -> discardable c' i = false ->
  recent c' + Z.b2z (recent_at c i && negb (discardable c i)) = recent c + Z.b2z (recent_at c' i) /\
  old c' + Z.b2z (negb (recent_at c i) && negb (discardable c i)) = old c + Z.b2z (negb (recent_at c' i)).
Proof using.
  clear Hhash. intros Hi (Hs & _) Hd Hr Hi'. unfold recent, old, slots in *. rewrite Hs.
  pose proof (count_update (fun i => recent_at c i && negb (discardable c i)) (fun i => recent_at c' i && negb (discardable c' i)) _ i Hi) as H1.
  pose proof (count_update (fun i => negb (recent_at c i) && negb (discardable c i)) (fun i => negb (recent_at c' i) && negb (discardable c' i)) _ i Hi) as H2.
  cbv beta in *. rewrite Hi', ?andb_true_r in *. split; [apply H1|apply H2]; intros j Hj; by rewrite Hd, Hr.
Qed.

Lemma insert_permutation (l : list Element) i x e : l !! i = Some x -> x :: <[i := e]> l ≡ₚ e :: l.
Proof using.
  clear. intros Hx. rewrite insert_take_drop by (by eapply lookup_lt_Some). rewrite <- (take_drop_middle l i x Hx) at 3.
  rewrite <- !Permutation_middle. apply Permutation_swap.
Qed.

Lemma table_get c (i : nat) : wf c -> (i < slots c)%nat -> is_Some (table c !! i).
Proof using. intros Hwf Hi. apply lookup_lt_is_Some_2. by rewrite (wf_table _ Hwf). Qed.

(** Writing an element at one of its places. *)
Lemma wf_write c i e : wf c -> Z.of_nat i ∈ locs_of c e -> wf (with_table c (<[i := e]> (table c))).
Proof using.
  clear Hhash. intros [Hs Ht He Hf Hp] Hi. split; try done; [cbn; by rewrite length_insert|].
  intros j y Hy. apply list_lookup_insert_Some in Hy as [(<- & <- & _)|[_ Hy]]; [by right|exact (Hp j y Hy)].
Qed.

Lemma wf_write_epoch c i b : wf c -> wf (with_epochs c (<[i := b]> (epoch_flags c))).
Proof using. clear Hhash. intros [Hs Ht He Hf Hp]. split; try done. cbn. by rewrite length_insert. Qed.

Lemma next_loc_in c e ll : (locs_of c e).[Z.to_nat (Z.land (1 + find_index ll (locs_of c e)) 7)] ∈ locs_of c e.
Proof using.
  clear. apply list_elem_of_In, nth_In. unfold compute_hashes. rewrite length_map, length_seq. change 7 with (2 ^ 3 - 1). rewrite land_ones_mod by lia.
  match goal with |- context [?x mod 2 ^ 3] => pose proof (Z.mod_pos_bound x (2 ^ 3) ltac:(lia)) end. lia.
Qed.

(** ** Insertion *)

Lemma free_spec c e : wf c ->
  find_loc (bit_is_set (collection_flags c)) (locs_of c e) = Some (List.find (fun loc => discardable c (Z.to_nat loc)) (locs_of c e)).
Proof using Hhash.
  intros Hwf. apply find_loc_spec. intros loc Hl. destruct (locs_bound c e loc Hwf Hl) as (i & -> & H2). rewrite Nat2Z.id.
  apply bit_is_set_flag. pose proof (wf_flags _ Hwf). unfold slots in H2. lia.
Qed.

Lemma found_spec c e : wf c -> find_loc (is_at c e) (locs_of c e) = Some (List.find (fun loc => bool_decide (table c !! Z.to_nat loc = Some e)) (locs_of c e)).
Proof using Hhash.
  intros Hwf. apply find_loc_spec. intros loc Hl. destruct (locs_bound c e loc Hwf Hl) as (i & -> & H2). unfold is_at.
  rewrite Nat2Z.id. destruct (table_get c _ Hwf H2) as [x ->]. cbn. f_equal. apply bool_decide_ext. naive_solver.
Qed.

Definition free_place (c : cache) (e : Element) : Prop := exists loc, loc ∈ locs_of c e /\ discardable c (Z.to_nat loc) = true.

(** Replacing what may be discarded. *)
Definition replaces (c c' : cache) (e x : Element) : Prop :=
  exists i, Z.of_nat i ∈ locs_of c e /\ discardable c i = true /\ table c !! i = Some x /\ table c' = <[i := e]> (table c).

(** Writing to a place that may be discarded. *)
Lemma store_spec c e i b : wf c -> Z.of_nat i ∈ locs_of c e -> (i < slots c)%nat -> discardable c i = true ->
  exists c' x, (t ← vec_set (table c) i e; keep (with_table c t) i b) = Some c' /\ wf c' /\ same_shape c c' /\
    replaces c c' e x /\ recent c' = recent c + Z.b2z b /\ old c' = old c + Z.b2z (negb b).
Proof using.
  clear Hhash. intros Hwf Hl H2 Hd. destruct (table_get c i Hwf H2) as [x Hx].
  rewrite vec_set_some by (rewrite Nat2Z.id; by rewrite (wf_table _ Hwf)). rewrite Nat2Z.id. cbn [mbind option_bind].
  pose proof (wf_write c i e Hwf Hl) as Hwf1. set (c1 := with_table c _) in *.
  destruct (keep_spec c1 i b e Hwf1) as (c' & Hk & Hwf' & Hs & Ht & Hd' & Hr'); [cbn; rewrite list_lookup_insert_eq; [done|by rewrite (wf_table _ Hwf)]|done|].
  exists c', x. split; [done|]. split; [done|]. split; [done|]. split; [exists i; by rewrite Ht|].
  destruct (update_counts c c' i H2 Hs) as [C1 C2]; [intros j Hj; rewrite Hd'; by case_decide|intros j Hj; rewrite Hr'; by case_decide|rewrite Hd'; by case_decide|].
  rewrite Hr', Hd in *. rewrite decide_True, ?andb_false_r in * by done. cbn [Z.b2z] in *. lia.
Qed.

(** Taking the place of an element that is in use. *)
Lemma swap_spec c e i b : wf c -> Z.of_nat i ∈ locs_of c e -> (i < slots c)%nat -> discardable c i = false ->
  exists x ep, table c !! i = Some x /\ epoch_flags c !! i = Some ep /\
    let c1 := with_epochs (with_table c (<[i := e]> (table c))) (<[i := b]> (epoch_flags c)) in
    wf c1 /\ same_shape c c1 /\ recent c1 + Z.b2z ep = recent c + Z.b2z b /\ old c1 + Z.b2z (negb ep) = old c + Z.b2z (negb b).
Proof using.
  clear Hhash. intros Hwf Hl H2 Hd. destruct (table_get c i Hwf H2) as [x Hx].
  assert (is_Some (epoch_flags c !! i)) as [ep Hep] by (apply lookup_lt_is_Some_2; by rewrite (wf_epochs _ Hwf)). exists x, ep. split; [done|]. split; [done|].
  pose proof (wf_write_epoch _ i b (wf_write c i e Hwf Hl)) as Hwf1. cbn [epoch_flags with_table] in Hwf1. cbn zeta. set (c1 := with_epochs _ _) in *.
  split; [done|]. split; [done|]. destruct (update_counts c c1 i H2) as [C1 C2]; [done|done| |done|].
  { intros j Hj. unfold c1, recent_at. cbn. by rewrite list_lookup_insert_ne. }
  assert (recent_at c i = ep) as Hri by (unfold recent_at; by rewrite Hep). assert (recent_at c1 i = b) as Hr1.
  { unfold recent_at, c1. cbn. by rewrite list_lookup_insert_eq by (by rewrite (wf_epochs _ Hwf)). }
  rewrite Hri, Hr1, Hd, ?andb_true_r in *. done.
Qed.

Lemma replaces_permutation c c' e x : replaces c c' e x -> x :: table c' ≡ₚ e :: table c.
Proof using. clear. intros (i & _ & _ & Hx & ->). by apply insert_permutation. Qed.

Lemma insert_loop_spec depth c e ll b : wf c ->
  exists c' x, insert_loop hash_function depth c e ll b = Some c' /\ wf c' /\ same_shape c c' /\ x :: table c' ≡ₚ e :: table c /\
    recent c' <= recent c + Z.b2z b /\ old c' <= old c + Z.b2z (negb b) /\ ((0 < depth)%nat -> free_place c e -> replaces c c' e x).
Proof using Hhash.
  revert c e ll b. induction depth as [|depth IH]; intros c e ll b Hwf.
  { exists c, e. split; [done|]. split; [done|]. split; [done|]. split; [done|]. split; [destruct b; cbn; lia|]. split; [destruct b; cbn; lia|lia]. }
  cbn [insert_loop]. rewrite free_spec by done. cbn [mbind option_bind]. destruct (List.find _ _) as [loc|] eqn:Ef.
  - apply List.find_some in Ef as [Hl%list_elem_of_In Hd]. destruct (locs_bound c e loc Hwf Hl) as (i & -> & H2). rewrite Nat2Z.id in Hd.
    destruct (store_spec c e i b Hwf Hl H2 Hd) as (c' & x & -> & Hwf' & Hs & Hp & Hr & Ho). exists c', x. split; [done|]. split; [done|]. split; [done|].
    split; [by apply replaces_permutation|]. split; [lia|]. split; [lia|done].
  - assert (forall loc, loc ∈ locs_of c e -> discardable c (Z.to_nat loc) = false) as Hno.
    { intros loc Hl. by apply (List.find_none _ _ Ef), list_elem_of_In. }
    set (loc := (locs_of c e).[_]). assert (loc ∈ locs_of c e) as Hl by (apply next_loc_in). clearbody loc. destruct (locs_bound c e loc Hwf Hl) as (i & -> & H2).
    pose proof (Hno _ Hl) as Hd. rewrite Nat2Z.id in Hd. destruct (swap_spec c e i b Hwf Hl H2 Hd) as (x & ep & Hx & Hep & Hwf1 & Hs1 & Hr1 & Ho1).
    rewrite !vec_set_some by (rewrite Nat2Z.id, ?(wf_table _ Hwf), ?(wf_epochs _ Hwf); done). rewrite !Nat2Z.id, Hx, Hep. cbn [mbind option_bind].
    set (c1 := with_epochs _ _) in *. destruct (IH c1 x (Z.of_nat i) ep Hwf1) as (c' & y & Hi' & Hwf' & Hs' & Hp' & Hr' & Ho' & _).
    exists c', y. split; [done|]. split; [done|]. split; [done|]. split; [rewrite Hp'; by apply insert_permutation|]. split; [lia|]. split; [lia|].
    intros _ (loc & Hl' & Hd'). by rewrite Hno in Hd'.
Qed.

(** ** Epochs *)

Lemma count_recent_spec c : wf c -> count_recent c = Some (recent c).
Proof using.
  clear Hhash. intros Hwf. unfold count_recent. fold (slots c).
  refine (for_range_ind (fun k acc => (k <= slots c)%nat -> acc = Some (count (fun i => recent_at c i && negb (discardable c i)) k)) 0 (slots c) _ _ _ _ _ _); [lia|done| |done].
  intros k acc Hk IH _. rewrite IH by lia. cbn [mbind option_bind count].
  destruct (lookup_lt_is_Some_2 (epoch_flags c) k) as [ep Hep]; [rewrite (wf_epochs _ Hwf); lia|]. rewrite Hep.
  assert (recent_at c k = ep) as -> by (unfold recent_at; by rewrite Hep).
  pose proof (count_bound (fun i => recent_at c i && negb (discardable c i)) k) as Hb. pose proof (wf_size _ Hwf) as [Hs1 Hs2]. pose proof (wf_flags _ Hwf) as Hf. unfold slots in *.
  assert (bit_is_set (collection_flags c) k = Some (discardable c k)) as Eb by (apply bit_is_set_flag; lia). rewrite Eb.
  destruct ep; cbn [mbind option_bind andb]; [destruct (discardable c k)|]; cbn [negb Z.b2z]; rewrite u32_small by (unfold in_u; lia); done.
Qed.

Definition aged (c c' : cache) (k : nat) : Prop :=
  wf c' /\ same_shape c c' /\ table c' = table c /\
  (forall j, recent_at c' j = if decide (j < k)%nat then false else recent_at c j) /\
  (forall j, discardable c' j = if decide (j < k)%nat then discardable c j || negb (recent_at c j) else discardable c j).

Lemma age_spec c : wf c -> exists c', age c = Some c' /\ aged c c' (slots c).
Proof using.
  clear Hhash. intros Hwf. unfold age. fold (slots c).
  refine (for_range_ind (fun k acc => (k <= slots c)%nat -> exists c', acc = Some c' /\ aged c c' k) 0 (slots c) _ _ _ _ _ _); [lia| | |done].
  { intros _. by exists c. }
  intros k acc Hk IH _. destruct (IH ltac:(lia)) as (c1 & -> & Hwf1 & Hs1 & Ht1 & Hr1 & Hd1). clear IH. cbn [mbind option_bind].
  assert (slots c1 = slots c) as Esl by (unfold slots; by destruct Hs1 as [-> _]).
  destruct (lookup_lt_is_Some_2 (epoch_flags c1) k) as [ep Hep]; [rewrite (wf_epochs _ Hwf1); lia|]. rewrite Hep. cbn [mbind option_bind].
  assert (recent_at c k = ep) as Er by (specialize (Hr1 k); rewrite decide_False in Hr1 by lia; rewrite <- Hr1; unfold recent_at; by rewrite Hep).
  assert (forall j, (j < S k)%nat -> j <> k -> (j < k)%nat) as Hlt by lia. destruct ep.
  - rewrite vec_set_some by (rewrite Nat2Z.id, (wf_epochs _ Hwf1); lia). rewrite Nat2Z.id. cbn [mbind option_bind]. eexists. split; [done|].
    split; [by apply wf_write_epoch|]. split; [done|]. split; [done|]. split; intros j.
    + etrans; [apply (epoch_set c1 k false j Hwf1); lia|]. rewrite Hr1. repeat case_decide; try done; exfalso; lia.
    + etrans; [apply Hd1|]. destruct (decide (j = k)) as [->|Hne]; [|by repeat case_decide; try done; exfalso; lia].
      rewrite decide_False, decide_True, Er by lia. by rewrite orb_false_r.
  - destruct (allow_erase_spec c1 k Hwf1) as (f & -> & Hwf2 & Hf); [lia|]. eexists. split; [done|].
    split; [done|]. split; [done|]. split; [done|]. split; intros j.
    + etrans; [apply Hr1|]. destruct (decide (j = k)) as [->|Hne]; [|by repeat case_decide; try done; exfalso; lia]. by rewrite decide_False, decide_True by lia.
    + etrans; [apply Hf|]. rewrite Hd1. destruct (decide (j = k)) as [->|Hne]; [by rewrite decide_True, Er, orb_true_r by lia|]. repeat case_decide; try done; exfalso; lia.
Qed.

Lemma aged_counts c c' : aged c c' (slots c) -> recent c' = 0 /\ old c' = recent c.
Proof using.
  clear Hhash. intros (_ & (Es & _) & _ & Hr & Hd). unfold recent, old, slots in *. rewrite Es. split.
  - transitivity (count (fun _ => false) (Z.to_nat (size c))); [|generalize (Z.to_nat (size c)); intros n; induction n as [|n IH]; [done|]; cbn [count]; by rewrite IH].
    apply count_ext. intros i Hi. by rewrite Hr, decide_True.
  - apply count_ext. intros i Hi. rewrite Hr, Hd, !decide_True by done. by destruct (recent_at c i), (discardable c i).
Qed.

(** The check of the epoch makes room for one more recent element. *)
Lemma epoch_check_spec c : wf c -> loaded c ->
  exists c', epoch_check c = Some c' /\ wf c' /\ table c' = table c /\ size c' = size c /\ epoch_size c' = epoch_size c /\ depth_limit c' = depth_limit c /\
    0 <= epoch_heuristic_counter c' /\ recent c' + 1 + epoch_heuristic_counter c' <= epoch_size c + slack c /\ old c' <= epoch_size c + slack c /\
    forall i, discardable c i = true -> discardable c' i = true.
Proof using.
  clear Hhash. intros Hwf [L1 L2 L3 L4]. unfold epoch_check.
  assert (forall c n, wf c -> wf (with_counter c n)) as Hc by (intros ? ? []; by split). case_if.
  - eexists. split; [done|]. split; [by apply Hc|]. repeat (split; [done|]). change (recent (with_counter c _)) with (recent c).
    change (old (with_counter c _)) with (old c). cbn [epoch_heuristic_counter with_counter]. split; [lia|]. split; [lia|]. by split; [lia|].
  - rewrite count_recent_spec by done. cbn [mbind option_bind]. case_if.
    + destruct (age_spec c Hwf) as (c' & -> & Ha). destruct (aged_counts c c' Ha) as [Hr Ho]. destruct Ha as (Hwf' & (Es & Ee & Ed & _) & Ht & _ & Hd).
      cbn [mbind option_bind]. eexists. split; [done|]. split; [by apply Hc|]. repeat (split; [done|]). change (recent (with_counter c' _)) with (recent c').
      change (old (with_counter c' _)) with (old c'). cbn [epoch_heuristic_counter with_counter]. unfold slack in *. split; [lia|]. split; [lia|]. split; [lia|].
      intros i Hi. etrans; [apply Hd|]. rewrite Hi. by case_decide.
    + eexists. split; [done|]. split; [by apply Hc|]. repeat (split; [done|]). change (recent (with_counter c _)) with (recent c).
      change (old (with_counter c _)) with (old c). cbn [epoch_heuristic_counter with_counter]. pose proof (count_bound (fun i => recent_at c i && negb (discardable c i)) (slots c)) as Hb.
      fold (recent c) in Hb. rewrite u32_small by (unfold in_u; lia). unfold slack in *. split; [lia|]. split; [lia|]. by split; [lia|].
Qed.

(** ** The operations *)

Definition valid (c : cache) : Prop := wf c /\ loaded c.

(** What is found. *)
Definition held (c : cache) (e : Element) : Prop := exists loc, loc ∈ locs_of c e /\ table c !! Z.to_nat loc = Some e.

Lemma held_table c e : held c e -> e ∈ table c.
Proof using. intros (loc & _ & Hl). by eapply list_elem_of_lookup_2. Qed.

Lemma table_held c e : wf c -> e ∈ table c -> e <> Element_default -> held c e.
Proof using.
  intros Hwf [i Hi]%list_elem_of_lookup Hne. destruct (wf_placed _ Hwf i e Hi) as [[_ ?]|Hl]; [done|]. exists i. by rewrite Nat2Z.id.
Qed.

Lemma found_held c e : wf c ->
  exists r, find_loc (is_at c e) (locs_of c e) = Some r /\
    match r with Some loc => exists i : nat, loc = Z.of_nat i /\ (i < slots c)%nat /\ loc ∈ locs_of c e /\ table c !! i = Some e | None => ~ held c e end.
Proof using Hhash.
  intros Hwf. rewrite found_spec by done. eexists. split; [done|]. destruct (List.find _ _) as [loc|] eqn:Ef.
  - apply List.find_some in Ef as [Hl%list_elem_of_In Hd]. destruct (locs_bound c e loc Hwf Hl) as (i & -> & H2).
    exists i. apply bool_decide_eq_true in Hd. by rewrite Nat2Z.id in Hd.
  - intros (loc & Hl & Ht). apply list_elem_of_In in Hl. pose proof (List.find_none _ _ Ef loc Hl) as Hn. by apply bool_decide_eq_false in Hn.
Qed.

Lemma insert_spec c e : valid c ->
  exists c', insert hash_function c e = Some c' /\ valid c' /\
    size c' = size c /\ epoch_size c' = epoch_size c /\ depth_limit c' = depth_limit c /\
    ((held c e /\ table c' = table c) \/
     exists x, x :: table c' ≡ₚ e :: table c /\ (1 <= depth_limit c -> free_place c e -> exists i, Z.of_nat i ∈ locs_of c e /\ table c' !! i = Some e)).
Proof using Hhash.
  intros [Hwf Hld]. pose proof (ld_size _ Hld) as Hes. unfold insert.
  destruct (epoch_check_spec c Hwf Hld) as (c1 & -> & Hwf1 & Ht1 & Hs1 & He1 & Hdl1 & Hc1 & Hr1 & Ho1 & Hd1). cbn [mbind option_bind].
  assert (forall y, locs_of c1 y = locs_of c y) as Hlocs by (intros; unfold compute_hashes; by rewrite Hs1).
  assert (forall c', same_shape c1 c' -> recent c' <= recent c1 + 1 -> old c' <= old c1 -> loaded c') as Hload.
  { intros c' (_ & E2 & _ & E4) Hr Ho. split; unfold slack in *; rewrite ?E2, ?E4, ?He1; lia. }
  destruct (found_held c1 e Hwf1) as (r & -> & Hr). cbn [mbind option_bind]. destruct r as [loc|].
  - destruct Hr as (i & -> & Hi & Hl & Ht). destruct (keep_spec c1 i true e Hwf1 Ht Hl) as (c' & -> & Hwf' & Hs' & Ht' & Hd' & Hr').
    destruct (update_counts c1 c' i Hi Hs') as [C1 C2]; [intros j Hj; rewrite Hd'; by case_decide|intros j Hj; rewrite Hr'; by case_decide|rewrite Hd'; by case_decide|].
    rewrite Hr', decide_True in C1, C2 by done. cbn [negb Z.b2z] in C1, C2. exists c'. split; [done|]. split.
    { split; [done|]. apply Hload; [done|destruct (recent_at c1 i && _); cbn in C1; lia|destruct (negb (recent_at c1 i) && _); cbn in C2; lia]. }
    destruct Hs' as (-> & -> & -> & _). repeat (split; [done|]). left. split; [|congruence]. exists i. rewrite <- Hlocs, Nat2Z.id. split; [done|congruence].
  - destruct (insert_loop_spec (Z.to_nat (depth_limit c1)) c1 e invalid true Hwf1) as (c' & x & -> & Hwf' & Hs' & Hp & Hrc & Hoc & Hfree).
    exists c'. split; [done|]. split. { split; [done|]. cbn [negb Z.b2z] in *. apply Hload; [done|lia|lia]. }
    destruct Hs' as (-> & -> & -> & _). repeat (split; [done|]). right. exists x. rewrite <- Ht1. split; [done|]. intros Hdl (loc & Hl & Hd).
    destruct Hfree as (i & Hi & _ & Hx & ->); [lia|exists loc; rewrite Hlocs; auto|]. exists i. rewrite <- Hlocs. split; [done|].
    apply list_lookup_insert_eq. by eapply lookup_lt_Some.
Qed.

Lemma contains_spec c e erase : valid c ->
  exists c' b, contains hash_function c e erase = Some (c', b) /\ valid c' /\ table c' = table c /\ size c' = size c /\ epoch_size c' = epoch_size c /\ (b = true <-> held c e).
Proof using Hhash.
  intros Hv. pose proof Hv as [Hwf Hld]. unfold contains. destruct (found_held c e Hwf) as (r & -> & Hr). cbn [mbind option_bind]. destruct r as [loc|]; [|exists c, false; do 5 (split; [done|]); by split].
  destruct Hr as (i & -> & Hi & Hl & Ht). assert (held c e) as Hh by (exists i; by rewrite Nat2Z.id).
  destruct erase; [|exists c, true; do 5 (split; [done|]); by split]. destruct (allow_erase_spec c i Hwf Hi) as (f & -> & Hwf' & Hf). cbn [mbind option_bind].
  eexists _, true. split; [done|]. split; [|do 3 (split; [done|]); by split]. split; [done|]. destruct Hld as [L1 L2 L3 L4].
  assert (forall j, Z.b2z (negb (flag f j)) <= Z.b2z (negb (discardable c j))) as Hm by (intros j; rewrite Hf; case_decide; [by destruct (discardable c j)|done]).
  assert (recent (with_flags c f) <= recent c /\ old (with_flags c f) <= old c) as [Hr Ho]; [|split; unfold slack in *; cbn [epoch_size epoch_heuristic_counter with_flags]; lia].
  split; apply count_mono; intros j _; specialize (Hm j); change (discardable (with_flags c f) j) with (flag f j);
    change (recent_at (with_flags c f) j) with (recent_at c j); destruct (recent_at c j); done.
Qed.

#[export] Instance cuckoo_set : ForgetfulSet cache Element.
Proof using EqDecision0 Element_default Hhash.
  refine {| set_ok := valid; set_elem c e := e ∈ table c; set_insert := insert hash_function; set_contains := contains hash_function |}.
  - intros c e Hv. destruct (insert_spec c e Hv) as (c' & Hi & Hv' & _ & _ & _ & Hc). exists c'. split; [done|]. split; [done|]. intros x Hx.
    destruct Hc as [[_ Ht]|(y & Hp & _)]; [left; by rewrite <- Ht|]. assert (x ∈ e :: table c) as Hin by (rewrite <- Hp; by right).
    apply elem_of_cons in Hin as [->|]; auto.
  - intros c e erase Hv. destruct (contains_spec c e erase Hv) as (c' & b & Hc & Hv' & Ht & _ & _ & Hb). exists c', b. split; [done|]. split; [done|].
    split; [by intros ?%Hb%held_table|]. by rewrite Ht.
Defined.

(** ** Setting up *)

Context (log2f : Z -> Z).

Lemma setup_valid new_size : 0 <= new_size -> new_size + 7 < 2 ^ 32 ->
  let c := (setup Element_default log2f cache_init new_size).1 in
  valid c /\ size c = Z.max 2 new_size /\ (forall e, e ∈ table c -> e = Element_default) /\
  epoch_size c = Z.max 1 (u32 (45 * Z.max 2 new_size) / 100) /\ depth_limit c = log2f (Z.max 2 new_size).
Proof using.
  clear Hhash. intros H0 Hs. set (n := Z.max 2 new_size). cbn zeta. unfold setup. cbn [fst]. fold n. set (c := mkCache _ _ _ _ _ _ _ _).
  assert (2 <= n /\ n + 7 < 2 ^ 32) as [Hn1 Hn2] by (subst n; lia). clearbody n. destruct (flags_init n) as [Hf1 Hf2]; [lia..|].
  assert (forall e, e ∈ table c -> e = Element_default) as Ht.
  { intros e He. cbn in He. rewrite resize_nil in He. by apply elem_of_replicate in He as [-> _]. }
  assert (forall i, (i < slots c)%nat -> discardable c i = true) as Hd by (intros i Hi; apply Hf2; unfold slots in Hi; cbn in Hi; lia).
  assert (forall P, count (fun i => P i && negb (discardable c i)) (slots c) = 0) as Hz.
  { intros P. transitivity (count (fun _ => false) (slots c)); [|generalize (slots c); intros m; induction m as [|m IH]; [done|]; cbn [count]; by rewrite IH].
    apply count_ext. intros i Hi. by rewrite Hd, andb_false_r. }
  split; [|done]. assert (0 <= u32 (45 * n) / 100 < 2 ^ 32) as He.
  { pose proof (in_u_u32 (45 * n)) as Hu. unfold in_u in Hu. split; [apply Z.div_pos; lia|apply Z.div_lt_upper_bound; lia]. }
  split; split; try (cbn; done).
  - apply length_resize.
  - apply length_resize.
  - intros i x Hx. left. split; [|apply Ht; by eapply list_elem_of_lookup_2]. apply Hd. apply lookup_lt_Some in Hx. cbn in Hx. by rewrite length_resize in Hx.
  - cbn [epoch_size c]. lia.
  - cbn [epoch_heuristic_counter c]. lia.
  - unfold recent. rewrite Hz. unfold slack. cbn [epoch_heuristic_counter epoch_size c]. lia.
  - unfold old. rewrite Hz. unfold slack. cbn [epoch_heuristic_counter epoch_size c]. lia.
Qed.

(** ** Histories *)

Inductive cache_op := Insert (e : Element) | Contains (e : Element) (erase : bool).

Definition cache_step (c : cache) (o : cache_op) : option cache :=
  match o with
  | Insert e => insert hash_function c e
  | Contains e erase => '(c, _) ← contains hash_function c e erase; Some c
  end.

Fixpoint cache_run (ops : list cache_op) (c : cache) : option cache :=
  match ops with
  | [] => Some c
  | o :: ops => c ← cache_step c o; cache_run ops c
  end.

Lemma cache_step_spec c o : valid c ->
  exists c', cache_step c o = Some c' /\ valid c' /\ epoch_size c' = epoch_size c /\ forall e, e ∈ table c' -> e ∈ table c \/ o = Insert e.
Proof using Hhash.
  intros Hv. destruct o as [e|e erase]; cbn [cache_step].
  - destruct (insert_spec c e Hv) as (c' & Hi & Hv' & _ & Hes & _ & Hc). exists c'. split; [done|]. split; [done|]. split; [done|]. intros x Hx.
    destruct Hc as [[_ Ht]|(y & Hp & _)]; [left; by rewrite <- Ht|]. assert (x ∈ e :: table c) as Hin by (rewrite <- Hp; by right).
    apply elem_of_cons in Hin as [->|]; auto.
  - destruct (contains_spec c e erase Hv) as (c' & b & -> & Hv' & Ht & _ & Hes & _). exists c'. split; [done|]. split; [done|]. split; [done|]. rewrite Ht. auto.
Qed.

Lemma cache_run_spec ops c : valid c ->
  exists c', cache_run ops c = Some c' /\ valid c' /\ epoch_size c' = epoch_size c /\ forall e, e ∈ table c' -> e ∈ table c \/ Insert e ∈ ops.
Proof using Hhash.
  revert c. induction ops as [|o ops IH]; intros c Hv; cbn [cache_run]; [exists c; auto|].
  destruct (cache_step_spec c o Hv) as (c1 & -> & Hv1 & Hes1 & Hin1). destruct (IH c1 Hv1) as (c' & Hr & Hv' & Hes & Hin). exists c'. split; [done|]. split; [done|].
  split; [congruence|]. intros e He. destruct (Hin e He) as [H1|H1]; [destruct (Hin1 e H1) as [H2| ->]; [by left|right; left]|right; by right].
Qed.


(** Inserting an element loses at most one element, possibly the new one; if one of its eight places may be
    overwritten the new element is found afterwards; and looking an element up, even to erase it, changes nothing
    that can be found. *)
Theorem insert_contains c e :
  valid c ->
  exists c' lost, insert hash_function c e = Some c' /\ valid c' /\
    (forall x, x <> Element_default -> x <> lost -> held c x \/ x = e -> held c' x) /\
    (forall x, x <> Element_default -> held c' x -> held c x \/ x = e) /\
    (1 <= depth_limit c -> free_place c e -> held c' e) /\
    forall x erase, exists c'' b, contains hash_function c' x erase = Some (c'', b) /\ valid c'' /\ (b = true <-> held c' x) /\ forall y, held c'' y <-> held c' y.
Proof using Hhash.
  intros Hv. destruct (insert_spec c e Hv) as (c' & Hi & Hv' & Hs & _ & _ & Hc).
  assert (exists lost, (forall x, x <> Element_default -> x <> lost -> held c x \/ x = e -> held c' x) /\ (forall x, x <> Element_default -> held c' x -> held c x \/ x = e) /\
    (1 <= depth_limit c -> free_place c e -> held c' e)) as (lost & H1 & H2 & H3).
  { destruct Hc as [[Hh Ht]|(x & Hp & Hf)].
    - assert (forall y, held c' y <-> held c y) as Heq by (intros y; unfold held, compute_hashes; by rewrite Ht, Hs). exists e.
      split; [intros x _ Hne [Hx|?]; [exact (proj2 (Heq x) Hx)|done]|]. split; [intros x _ Hx; left; exact (proj1 (Heq x) Hx)|intros _ _; exact (proj2 (Heq e) Hh)].
    - exists x. split; [|split].
      + intros y Hy Hl Hin. apply table_held; [by destruct Hv'| |done]. assert (y ∈ e :: table c) as Hyin by (destruct Hin as [?%held_table| ->]; [by right|by left]).
        rewrite <- Hp in Hyin. apply elem_of_cons in Hyin as [->|]; done.
      + intros y Hy Hh%held_table. assert (y ∈ e :: table c) as Hyin by (rewrite <- Hp; by right). apply elem_of_cons in Hyin as [->|Ht]; [by right|left].
        apply table_held; [by destruct Hv|done..].
      + intros Hdl Hfr. destruct (Hf Hdl Hfr) as (i & Hl & Ht). exists i. rewrite Nat2Z.id. split; [|done]. unfold compute_hashes in *. by rewrite Hs. }
  exists c', lost. do 5 (split; [done|]). intros x erase. destruct (contains_spec c' x erase Hv') as (c2 & b & Hc2 & Hv2 & Ht2 & Hs2 & _ & Hb).
  exists c2, b. do 3 (split; [done|]). intros y. unfold held, compute_hashes. by rewrite Ht2, Hs2.
Qed.

End Cache.

(** A small table of numbers, whose eight hashes are equal. *)
Definition small_hash (k : nat) (e : Z) : Z := u32 (e * 2 ^ 30).


Lemma insert_contains_witness :
  let c := (setup 0 Z.log2 cache_init 4).1 in
  exists c' lost, insert small_hash c 5 = Some c' /\ valid 0 small_hash c' /\
    (forall x, x <> 0 -> x <> lost -> held small_hash c x \/ x = 5 -> held small_hash c' x) /\
    (forall x, x <> 0 -> held small_hash c' x -> held small_hash c x \/ x = 5) /\
    (1 <= depth_limit c -> free_place small_hash c 5 -> held small_hash c' 5) /\
    forall x erase, exists c'' b, contains small_hash c' x erase = Some (c'', b) /\ valid 0 small_hash c'' /\ (b = true <-> held small_hash c' x) /\
      forall y, held small_hash c'' y <-> held small_hash c' y.
Proof. apply insert_contains; [intros; apply in_u_u32|]. apply setup_valid; lia. Defined.

End CuckooTheory.
