(* ===== verification/CheckQueue.v ===== *)
(** * The queue of script checks ([checkqueue.h])

    One master adds checks and then joins the workers until all are done.  The
    threads share the queue under a mutex: a step of a thread is everything it
    does from taking the mutex to releasing it, or one check.  Waiting on a
    condition variable can end by a notification or spuriously. *)
From stdpp Require Import prelude list relations.
From S2P Require Import Prelude.

Module CheckQueue.

Section Queue.
Context {T : Type} (check : T -> bool) (nBatchSize : Z).

(** The members that the mutex guards. *)
Record shared := mkShared {
  queue : list T;
  nIdle : Z;
  nTotal : Z;
  fAllOk : bool;
  nTodo : Z;
  m_request_stop : bool
}.

(** Where a thread is in [Loop]: before the first iteration; at the end of an
    iteration, with its batch; waiting; notified; checking, with the part of
    the batch it has checked and the rest; returned.  The master can also be
    outside. *)
Inductive thread :=
| Outside
| Start
| Clean (batch : list T) (fOk : bool)
| Waiting
| Notified
| Working (checked rest : list T) (fOk : bool)
| Returned (r : bool).

(** The clean-up of the previous iteration, and whether the master is notified. *)
Definition clean_up (fMaster : bool) (t : thread) (q : shared) : shared * bool :=
  match t with
  | Clean batch fOk =>
      let todo := u32 (nTodo q - length batch) in
      (mkShared (queue q) (nIdle q) (nTotal q) (fAllOk q && fOk) todo (m_request_stop q), (todo =? 0) && negb fMaster)
  | _ => (mkShared (queue q) (nIdle q) (nTotal q + 1) (fAllOk q) (nTodo q) (m_request_stop q), false)
  end.

Definition batch_size (q : shared) : Z := Z.max 1 (Z.min nBatchSize (u32 (length (queue q)) / u32 (nTotal q + nIdle q + 1))).

(** The rest of the critical section, up to waiting or leaving it; the queue is
    taken from its back. *)
Definition acquire (fMaster : bool) (q : shared) : shared * thread :=
  match queue q, m_request_stop q with
  | [], false =>
      if fMaster && (nTodo q =? 0) then (mkShared [] (nIdle q) (nTotal q - 1) true (nTodo q) false, Returned (fAllOk q))
      else (mkShared [] (nIdle q + 1) (nTotal q) (fAllOk q) (nTodo q) false, Waiting)
  | _, true => (q, Returned false)
  | l, false =>
      let n := (length l - Z.to_nat (batch_size q))%nat in
      (mkShared (take n l) (nIdle q) (nTotal q) (fAllOk q) (nTodo q) false, Working [] (rev (drop n l)) (fAllOk q))
  end.

Definition wake (q : shared) : shared := mkShared (queue q) (nIdle q - 1) (nTotal q) (fAllOk q) (nTodo q) (m_request_stop q).

Definition notify (t : thread) : thread := match t with Waiting => Notified | _ => t end.

Inductive notify_one : list thread -> list thread -> Prop :=
| notify_none ts : Waiting ∉ ts -> notify_one ts ts
| notify_some ts i : ts !! i = Some Waiting -> notify_one ts (<[i := Notified]> ts).

(** What one thread does by itself: its new position, and whether it notifies the master. *)
Inductive thread_step (fMaster : bool) : shared -> thread -> shared -> thread -> bool -> Prop :=
| lock_step q t q1 n q2 t2 : t = Start \/ (exists batch fOk, t = Clean batch fOk) ->
    clean_up fMaster t q = (q1, n) -> acquire fMaster q1 = (q2, t2) -> thread_step fMaster q t q2 t2 n
| wake_step q q2 t2 : acquire fMaster (wake q) = (q2, t2) -> thread_step fMaster q Notified q2 t2 false
| check_step q done c rest fOk : thread_step fMaster q (Working done (c :: rest) fOk) q (Working (done ++ [c]) rest (if fOk then check c else fOk)) false
| finish_step q done fOk : thread_step fMaster q (Working done [] fOk) q (Clean done fOk) false.

(** The first thread is the master.  The checks that were added since it last
    returned are kept for the theorems. *)
Record state := mkState { sh : shared; threads : list thread; added : list T }.

(** Work: a step of a thread that is not waiting. *)
Inductive work : state -> state -> Prop :=
| work_step i q ts l t q' t' (n : bool) : ts !! i = Some t -> thread_step (i =? 0)%nat q t q' t' n ->
    work (mkState q ts l) (mkState q' (if n then alter notify 0%nat (<[i := t']> ts) else <[i := t']> ts) l).

(** Everything else: spurious wake-ups, [Add] (of fewer than [2 ^ 32] checks in
    all), the call of [Wait], the next use of the queue, and the request to
    stop. *)
Inductive other : state -> state -> Prop :=
| spurious_wake i q ts l q' t' : ts !! i = Some Waiting -> acquire (i =? 0)%nat (wake q) = (q', t') ->
    other (mkState q ts l) (mkState q' (<[i := t']> ts) l)
| add_checks q ws l vChecks ts' : vChecks <> [] -> length (l ++ vChecks) < 2 ^ 32 ->
    (if (length vChecks =? 1)%nat then notify_one (Outside :: ws) ts' else ts' = map notify (Outside :: ws)) ->
    other (mkState q (Outside :: ws) l)
      (mkState (mkShared (queue q ++ vChecks) (nIdle q) (nTotal q) (fAllOk q) (u32 (nTodo q + length vChecks)) (m_request_stop q)) ts' (l ++ vChecks))
| call_wait q ws l : other (mkState q (Outside :: ws) l) (mkState q (Start :: ws) l)
| next_round q ws l r : m_request_stop q = false -> other (mkState q (Returned r :: ws) l) (mkState q (Outside :: ws) [])
| request_stop q m ws l :
    other (mkState q (m :: ws) l) (mkState (mkShared (queue q) (nIdle q) (nTotal q) (fAllOk q) (nTodo q) true) (m :: map notify ws) l).

Definition run (st st' : state) : Prop := work st st' \/ other st st'.

(** After [StartWorkerThreads]. *)
Definition initial (threads_num : nat) : state := mkState (mkShared [] 0 0 true 0 false) (Outside :: replicate threads_num Start) [].

(** ** What the threads hold *)

Definition batch_of (t : thread) : list T := match t with Clean batch _ => batch | Working d r _ => d ++ r | _ => [] end.
Definition held (ts : list thread) : list T := concat (map batch_of ts).
Definition outstanding (st : state) : list T := queue (sh st) ++ held (threads st).

Definition idle (t : thread) : Z := match t with Waiting | Notified => 1 | _ => 0 end.
Definition active (t : thread) : Z := match t with Clean _ _ | Waiting | Notified | Working _ _ _ => 1 | _ => 0 end.
Definition total (f : thread -> Z) (ts : list thread) : Z := foldr (fun t n => f t + n) 0 ts.

Lemma count_insert f ts i t t' : ts !! i = Some t -> total f (<[i := t']> ts) = total f ts - f t + f t'.
Proof using.
  revert i. induction ts as [|x ts IH]; intros [|i] Hi; [done|done| |].
  - injection Hi as ->. cbn. lia.
  - change (total f (<[S i := t']> (x :: ts))) with (f x + total f (<[i := t']> ts)). change (total f (x :: ts)) with (f x + total f ts). rewrite IH by done. lia.
Qed.

Lemma count_nonneg f ts : (forall t, 0 <= f t) -> 0 <= total f ts.
Proof using. intros Hf. induction ts as [|x ts IH]; [done|]. cbn. fold (total f ts). specialize (Hf x). lia. Qed.

Lemma total_at_least f ts i t : (forall t, 0 <= f t) -> ts !! i = Some t -> f t <= total f ts.
Proof using.
  intros Hf. revert i. induction ts as [|x ts IH]; intros [|i] Hi; [done|done| |]; cbn in *; fold (total f ts).
  - injection Hi as ->. pose proof (count_nonneg f ts Hf). lia.
  - specialize (IH i Hi). specialize (Hf x). lia.
Qed.

Lemma held_insert ts i t t' : ts !! i = Some t -> held (<[i := t']> ts) ++ batch_of t ≡ₚ held ts ++ batch_of t'.
Proof using.
  intros Hi. rewrite insert_take_drop by (by eapply lookup_lt_Some). rewrite <- (take_drop_middle ts i t Hi) at 3. unfold held. rewrite !map_app, !concat_app. cbn [map concat].
  solve_Permutation.
Qed.

Lemma held_elem ts i t c : ts !! i = Some t -> c ∈ batch_of t -> c ∈ held ts.
Proof using.
  intros Hi Hc. unfold held. apply list_elem_of_In, in_concat. exists (batch_of t). split; [|by apply list_elem_of_In].
  apply list_elem_of_In, list_elem_of_fmap. exists t. split; [done|]. by eapply list_elem_of_lookup_2.
Qed.

Lemma held_notify ts : held (map notify ts) = held ts.
Proof using. unfold held. rewrite map_map. f_equal. apply map_ext. by intros []. Qed.

(** ** The invariant *)

Definition passes (l : list T) : Prop := Forall (fun c => check c = true) l.
Definition failing (l : list T) : Prop := exists c, c ∈ l /\ check c = false.

Definition thread_ok (l : list T) (t : thread) : Prop :=
  match t with
  | Clean b fOk => b <> [] /\ if fOk then passes b else failing l
  | Working d r fOk => d ++ r <> [] /\ if fOk then passes d else failing l
  | _ => True
  end.

(** [k] is 1 while a thread is inside the critical section, where it counts for [nTotal] but is not [active]. *)
Record core (k : Z) (q : shared) (ts : list thread) (l : list T) : Prop := {
  c_todo : nTodo q = length (queue q ++ held ts);
  c_small : length (queue q ++ held ts) < 2 ^ 32;
  c_fin : (forall r, head ts <> Some (Returned r)) -> exists fin, l ≡ₚ (queue q ++ held ts) ++ fin /\ (fAllOk q = true -> passes fin);
  c_sub c : c ∈ queue q ++ held ts -> c ∈ l;
  c_fail : fAllOk q = false -> failing l;
  c_threads i t : ts !! i = Some t -> thread_ok l t;
  c_idle : nIdle q = total idle ts;
  c_total : total active ts + k <= nTotal q;
  c_ret r : head ts = Some (Returned r) ->
    (r = true -> passes l) /\ (r = false -> m_request_stop q = true \/ failing l) /\ (m_request_stop q = false -> queue q ++ held ts = [] /\ fAllOk q = true)
}.

(** The master waits only for checks that are in the hands of workers. *)
Definition waits_ok (q : shared) (ts : list thread) : Prop := head ts = Some Waiting -> queue q = [] /\ 0 < nTodo q.

Definition inv (st : state) : Prop := core 0 (sh st) (threads st) (added st) /\ waits_ok (sh st) (threads st).

Lemma insert_threads_ok l (ts : list thread) (i : nat) t : (forall i t, ts !! i = Some t -> thread_ok l t) -> thread_ok l t -> forall j x, <[i := t]> ts !! j = Some x -> thread_ok l x.
Proof using. intros Hts Ht j x [(-> & -> & _)|[_ Hx]]%list_lookup_insert_Some; [done|by eapply Hts]. Qed.

Lemma head_insert (ts : list thread) i t : head (<[i := t]> ts) = if decide (i = 0%nat) then (_ ← head ts; Some t) else head ts.
Proof using. destruct ts as [|x ts], i; try done. Qed.

(** What [acquire] can lead to. *)
Lemma acquire_cases fMaster q q2 t2 : acquire fMaster q = (q2, t2) ->
  (exists b, t2 = Working [] b (fAllOk q) /\ b <> [] /\ queue q ≡ₚ queue q2 ++ b /\ q2 = mkShared (queue q2) (nIdle q) (nTotal q) (fAllOk q) (nTodo q) (m_request_stop q)) \/
  (t2 = Waiting /\ queue q = [] /\ (fMaster = true -> nTodo q <> 0) /\ q2 = mkShared [] (nIdle q + 1) (nTotal q) (fAllOk q) (nTodo q) (m_request_stop q)) \/
  (t2 = Returned false /\ m_request_stop q = true /\ q2 = q) \/
  (t2 = Returned (fAllOk q) /\ fMaster = true /\ queue q = [] /\ nTodo q = 0 /\ q2 = mkShared [] (nIdle q) (nTotal q - 1) true (nTodo q) (m_request_stop q)).
Proof using.
  unfold acquire. destruct (m_request_stop q) eqn:Es; [destruct (queue q); intros [= <- <-]; right; right; left; done|]. destruct (queue q) as [|c l] eqn:Eq.
  - destruct (fMaster && (nTodo q =? 0)) eqn:Em; intros [= <- <-].
    + apply andb_true_iff in Em as [? ?%Z.eqb_eq]. right. right. by right.
    + right. left. split; [done|]. split; [done|]. split; [|done]. intros ->. by apply Z.eqb_neq in Em.
  - set (n := (length (c :: l) - Z.to_nat (batch_size q))%nat). assert (n < length (c :: l))%nat as Hn by (subst n; unfold batch_size; cbn [length]; lia).
    clearbody n. intros Ha. injection Ha as Hq2 Ht2. subst q2 t2. left. exists (rev (drop n (c :: l))). split; [done|]. split; [|split; [|done]].
    + intros E. apply (f_equal length) in E. rewrite length_rev, length_drop in E. cbn [length] in *. lia.
    + cbn [queue]. rewrite <- (Permutation_rev (drop n (c :: l))). by rewrite take_drop.
Qed.

(** A step that moves checks around and decides nothing. *)
Lemma core_move k k' q q' ts ts' l :
  core k q ts l -> queue q ++ held ts ≡ₚ queue q' ++ held ts' -> nTodo q' = nTodo q -> fAllOk q' = fAllOk q -> m_request_stop q' = m_request_stop q ->
  nIdle q' = total idle ts' -> total active ts' + k' <= nTotal q' -> (forall i t, ts' !! i = Some t -> thread_ok l t) ->
  (forall r, head ts' = Some (Returned r) -> head ts = Some (Returned r) \/ r = false /\ m_request_stop q = true) ->
  (forall r, head ts = Some (Returned r) -> head ts' = Some (Returned r)) ->
  core k' q' ts' l.
Proof using.
  intros [H1 H2 H3 Hsub H4 H5 H6 H7 H9] Hout Et Ea Es Hid Hac Hok Hr Hr'. split; rewrite ?Et, ?Ea, ?Es, <- ?Hout; try done.
  - intros Hn. destruct H3 as (fin & Hp & Hf); [intros r E; by apply Hr', Hn in E|]. exists fin. by rewrite Hp, Hout.
  - intros c. rewrite <- Hout. apply Hsub.
  - intros r E. destruct (Hr r E) as [E'|[-> Hs]]; [|split; [done|]; split; [by left|]; by rewrite Hs].
    destruct (H9 r E') as (? & ? & H). split; [done|]. split; [done|]. intros Hs. destruct (H Hs) as [Hn ?]. split; [|done].
    apply Permutation_nil. by rewrite <- Hout, Hn.
Qed.

Lemma acquire_core q ts i l q2 t2 : core 1 q ts l -> waits_ok q ts -> ts !! i = Some Start -> acquire (i =? 0)%nat q = (q2, t2) ->
  core 0 q2 (<[i := t2]> ts) l /\ waits_ok q2 (<[i := t2]> ts).
Proof using.
  intros Hcore H8 Hi Ha. pose proof Hcore as [H1 H2 H3 Hsub H4 H5 H6 H7 H9]. pose proof (held_insert ts i Start t2 Hi) as Hh. cbn [batch_of] in Hh. rewrite app_nil_r in Hh.
  pose proof (count_insert idle ts i Start t2 Hi) as Hid. pose proof (count_insert active ts i Start t2 Hi) as Hac. cbn [idle active] in Hid, Hac.
  unfold waits_ok in *. assert (head (<[i := t2]> ts) = if decide (i = 0%nat) then Some t2 else head ts) as Hhead by (rewrite head_insert; by destruct ts).
  assert (forall r, head ts = Some (Returned r) -> i <> 0%nat) as Hns by (intros r E ->; destruct ts; [done|]; cbn in *; congruence).
  assert (forall r, head ts = Some (Returned r) -> head (<[i := t2]> ts) = Some (Returned r)) as Hret by (intros r E; rewrite Hhead; by rewrite decide_False by eauto).
  destruct (acquire_cases _ _ _ _ Ha) as [(b & -> & Hb & Hp & ->)|[(-> & Hq & Hm & ->)|[(-> & Hs & ->)|(-> & Hm & Hq & Hn & ->)]]]; cbn [batch_of idle active app] in *.
  - split; [eapply core_move; [exact Hcore|..]; cbn [queue nIdle nTotal fAllOk nTodo m_request_stop]; try done; try lia|].
    + rewrite Hh, Hp. solve_Permutation.
    + apply insert_threads_ok; [done|]. split; [done|]. destruct (fAllOk q); [apply Forall_nil_2|by apply H4].
    + intros r. rewrite Hhead. case_decide; [done|by left].
    + rewrite Hhead. case_decide; [done|]. intros E. destruct (H8 E) as [Hq _]. rewrite Hq in Hp. apply Permutation_nil, app_eq_nil in Hp as [_ ?]. done.
  - split; [eapply core_move; [exact Hcore|..]; cbn [queue nIdle nTotal fAllOk nTodo m_request_stop]; try done; try lia|].
    + by rewrite Hh, Hq, app_nil_r.
    + by apply insert_threads_ok.
    + intros r. rewrite Hhead. case_decide; [done|by left].
    + rewrite Hhead. cbn [queue nTodo]. case_decide as E0; [|by intros [_ ?]%H8]. intros _. split; [done|]. apply Nat.eqb_eq in E0. specialize (Hm E0). lia.
  - split; [eapply core_move; [exact Hcore|..]; try done; try lia|].
    + by rewrite Hh, app_nil_r.
    + by apply insert_threads_ok.
    + intros r. rewrite Hhead. case_decide; [intros [= <-]; by right|by left].
    + rewrite Hhead. case_decide; [done|by intros [? ?]%H8].
  - apply Nat.eqb_eq in Hm as ->. rewrite decide_True in Hhead by done. rewrite app_nil_r in Hh. assert (held ts = []) as Hheld.
    { rewrite Hn, Hq in H1. cbn [app] in H1. by destruct (held ts). }
    rewrite Hheld in *. symmetry in Hh. apply Permutation_nil in Hh. destruct H3 as (fin & Hp & Hf); [by intros r E%Hns|]. rewrite Hq in Hp. cbn [app] in Hp.
    rewrite Hhead. split; [|done]. split; cbn [queue nIdle nTotal fAllOk nTodo m_request_stop app]; rewrite ?Hh, ?Hhead; try done; try lia.
    + intros E. by specialize (E (fAllOk q)).
    + intros c. by rewrite elem_of_nil.
    + by apply insert_threads_ok.
    + intros r [= <-]. split; [intros E; unfold passes; rewrite Hp; by apply Hf|]. split; [intros E; right; by apply H4|done].
Qed.

Lemma notify_ok l t : thread_ok l t -> thread_ok l (notify t).
Proof using. by destruct t. Qed.

(** Notifying the master changes nothing but that it can wake. *)
Lemma notify_master k q ts l : core k q ts l -> core k q (alter notify 0%nat ts) l.
Proof using.
  intros Hcore. pose proof Hcore as [H1 H2 H3 Hsub H4 H5 H6 H7 H9]. destruct ts as [|t ts]; [done|]. change (alter notify 0%nat (t :: ts)) with (notify t :: ts).
  eapply core_move; [exact Hcore|..]; try done.
  - by destruct t.
  - rewrite H6. by destruct t.
  - etransitivity; [|exact H7]. by destruct t.
  - intros [|i] x Hx; [injection Hx as <-; apply notify_ok, (H5 0%nat); done|by apply (H5 (S i))].
  - intros r. destruct t; cbn; try done. by left.
  - intros r. by destruct t.
Qed.

(** Giving up a batch. *)
Lemma clean_core q ts i l b fOk : core 0 q ts l -> ts !! i = Some (Clean b fOk) ->
  let q1 := mkShared (queue q) (nIdle q) (nTotal q) (fAllOk q && fOk) (u32 (nTodo q - length b)) (m_request_stop q) in
  core 1 q1 (<[i := Start]> ts) l /\ 0 <= nTodo q1.
Proof using.
  intros Hcore Hi. pose proof Hcore as [H1 H2 H3 Hsub H4 H5 H6 H7 H9]. destruct (H5 i _ Hi) as [Hb Hbok].
  pose proof (held_insert ts i _ Start Hi) as Hh. cbn [batch_of] in Hh. rewrite app_nil_r in Hh. set (ts1 := <[i := Start]> ts) in *.
  assert (queue q ++ held ts ≡ₚ (queue q ++ held ts1) ++ b) as Hout by (rewrite <- Hh; solve_Permutation).
  pose proof (count_insert idle ts i _ Start Hi) as Hid. pose proof (count_insert active ts i _ Start Hi) as Hac. cbn [idle active] in Hid, Hac. fold ts1 in Hid, Hac.
  assert (forall r, head ts1 = Some (Returned r) -> head ts = Some (Returned r)) as Hhead by (intros r; unfold ts1; rewrite head_insert; by case_decide; destruct ts).
  assert (forall r, head ts = Some (Returned r) -> head ts1 = Some (Returned r)) as Hhead'.
  { intros r E. unfold ts1. rewrite head_insert. case_decide; [|done]. subst i. destruct ts; [done|]. cbn in *. congruence. }
  rewrite Hout, length_app in H1, H2. cbn zeta. rewrite (u32_small (nTodo q - length b)) by (unfold in_u; lia).
  split; [|cbn; lia]. split; cbn [queue nIdle nTotal fAllOk nTodo m_request_stop]; try lia.
  - intros Hn. destruct H3 as (fin & Hp & Hf); [intros r E; by apply Hhead', Hn in E|]. exists (b ++ fin). split; [rewrite Hp, Hout; solve_Permutation|].
    intros [Ha ->]%andb_true_iff. apply Forall_app_2; [done|by apply Hf].
  - intros c Hin. apply Hsub. rewrite Hout. apply elem_of_app. by left.
  - intros [Ha| ->]%andb_false_iff; [by apply H4|done].
  - by apply insert_threads_ok.
  - intros r E%Hhead. destruct (H9 r E) as (? & ? & H). split; [done|]. split; [done|]. intros Hs. destruct (H Hs) as [Hnil _]. exfalso. apply Hb.
    rewrite Hnil in Hout. apply Permutation_nil, app_eq_nil in Hout as [_ ?]. done.
Qed.

(** A thread that moves on without deciding anything. *)
Lemma thread_core k k' q q' ts i l t t' :
  core k q ts l -> ts !! i = Some t -> batch_of t' ≡ₚ batch_of t -> thread_ok l t' -> queue q' = queue q -> nTodo q' = nTodo q -> fAllOk q' = fAllOk q ->
  m_request_stop q' = m_request_stop q -> nIdle q' = nIdle q - idle t + idle t' -> nTotal q - active t + active t' + k' - k <= nTotal q' ->
  (forall r, t <> Returned r) -> (forall r, t' <> Returned r) -> core k' q' (<[i := t']> ts) l.
Proof using.
  intros Hcore Hi Hb Hok Eq Et Ea Es Hid Hac Hr Hr'. pose proof Hcore as [H1 H2 H3 Hsub H4 H5 H6 H7 H9]. pose proof (held_insert ts i t t' Hi) as Hh.
  rewrite Hb in Hh. apply Permutation_app_inv_r in Hh. eapply core_move; [exact Hcore|..]; try done.
  - by rewrite Hh, Eq.
  - rewrite (count_insert idle ts i t t' Hi). lia.
  - rewrite (count_insert active ts i t t' Hi). lia.
  - by apply insert_threads_ok.
  - intros r. rewrite head_insert. case_decide; [|by left]. destruct ts; cbn; [done|]. intros [= E]. by apply Hr' in E.
  - intros r E. rewrite head_insert. case_decide as E0; [|done]. subst i. destruct ts; [done|]. cbn in *. injection Hi as ->. injection E as E. by apply Hr in E.
Qed.

Lemma waits_insert q q' ts i t : waits_ok q ts -> queue q' = queue q -> nTodo q' = nTodo q -> t <> Waiting -> waits_ok q' (<[i := t]> ts).
Proof using. unfold waits_ok. intros Hw -> -> Ht. rewrite head_insert. case_decide; [|done]. destruct ts; cbn; [done|]. congruence. Qed.

Lemma wake_inv q ts i l t q2 t2 : core 0 q ts l -> waits_ok q ts -> ts !! i = Some t -> t = Waiting \/ t = Notified -> acquire (i =? 0)%nat (wake q) = (q2, t2) ->
  core 0 q2 (<[i := t2]> ts) l /\ waits_ok q2 (<[i := t2]> ts).
Proof using.
  intros Hcore Hw Hi Ht Ha. rewrite <- (list_insert_insert_eq ts i t2 Start). apply (acquire_core (wake q)); [| | |done].
  - destruct Ht as [->| ->]; (eapply thread_core; [exact Hcore|exact Hi|..]; try done; cbn; lia).
  - by eapply waits_insert.
  - apply list_lookup_insert_eq. by eapply lookup_lt_Some.
Qed.

Lemma lock_inv q ts i l t q1 (n : bool) q2 t2 : core 0 q ts l -> waits_ok q ts -> ts !! i = Some t -> t = Start \/ (exists b fOk, t = Clean b fOk) ->
  clean_up (i =? 0)%nat t q = (q1, n) -> acquire (i =? 0)%nat q1 = (q2, t2) ->
  let ts' := if n then alter notify 0%nat (<[i := t2]> ts) else <[i := t2]> ts in core 0 q2 ts' l /\ waits_ok q2 ts'.
Proof using.
  intros Hcore Hw Hi Ht Hc Ha. assert (i < length ts)%nat as Hlt by (by eapply lookup_lt_Some). destruct Ht as [->|(b & fOk & ->)]; cbn [clean_up] in Hc; injection Hc as <- <-.
  { cbn zeta. eapply acquire_core; [| |exact Hi|exact Ha]; [|exact Hw]. rewrite <- (list_insert_id ts i Start Hi). eapply thread_core; [exact Hcore|exact Hi|..]; try done; cbn; lia. }
  destruct (clean_core q ts i l b fOk Hcore Hi) as [Hc1 Ht1]. cbn zeta in *. set (todo := u32 (nTodo q - length b)) in *. set (q1 := mkShared _ _ _ _ _ _) in *.
  destruct ((todo =? 0) && negb (i =? 0)%nat) eqn:En.
  - apply andb_true_iff in En as [Ez Ei%negb_true_iff]. assert (i <> 0%nat) as Hne by (by apply Nat.eqb_neq).
    assert (forall t, alter notify 0%nat (<[i := t]> ts) = <[i := t]> (alter notify 0%nat (<[i := Start]> ts))) as Hcomm.
    { intros t. destruct i as [|i]; [done|]. destruct ts as [|x ts]; [done|]. change (notify x :: <[i := t]> ts = notify x :: <[i := t]> (<[i := Start]> ts)). by rewrite list_insert_insert_eq. }
    rewrite Hcomm. apply (acquire_core q1); [by apply notify_master| | |done].
    + intros Hh. destruct (<[i := Start]> ts) as [|[] ?]; done.
    + rewrite list_lookup_alter_ne by done. by apply list_lookup_insert_eq.
  - rewrite <- (list_insert_insert_eq ts i t2 Start). apply (acquire_core q1); [done| |by apply list_lookup_insert_eq|done].
    unfold waits_ok. rewrite head_insert. case_decide as E0; [by destruct ts|]. intros Hh. destruct (Hw Hh) as [Hq _]. split; [done|].
    apply andb_false_iff in En as [?%Z.eqb_neq|E]; [cbn [nTodo q1] in *; lia|]. by rewrite (proj2 (Nat.eqb_neq i 0) E0) in E.
Qed.

Lemma work_inv st st' : inv st -> work st st' -> inv st'.
Proof using.
  intros [Hcore Hw] Hs. destruct Hs as [i q ts l t q' t' n Hi Hs]. cbn [sh threads added] in *.
  inversion Hs as [q0 t0 q1 n0 q2 t2 Ht Hc Ha|q0 q2 t2 Ha|q0 d c r fOk|q0 d fOk]; subst.
  - by eapply lock_inv.
  - eapply wake_inv; [done|done|done|by right|done].
  - destruct (c_threads _ _ _ _ Hcore i _ Hi) as [_ Hok]. split; [|by eapply waits_insert].
    eapply thread_core; [exact Hcore|exact Hi|..]; try done; try (cbn; lia); [cbn; by rewrite <- app_assoc|].
    split; [by destruct d|]. destruct fOk; [|done]. destruct (check c) eqn:Ec; [apply Forall_app_2; [done|by constructor]|]. exists c. split; [|done].
    apply (c_sub _ _ _ _ Hcore). apply elem_of_app. right. eapply held_elem; [exact Hi|]. cbn. apply elem_of_app. right. by left.
  - destruct (c_threads _ _ _ _ Hcore i _ Hi) as [Hne Hok]. split; [|by eapply waits_insert].
    eapply thread_core; [exact Hcore|exact Hi|..]; try done; try (cbn; lia); [cbn; by rewrite app_nil_r|]. rewrite app_nil_r in Hne. done.
Qed.

Lemma notify_total f ts : (forall t, f (notify t) = f t) -> total f (map notify ts) = total f ts.
Proof using. intros Hf. induction ts as [|t ts IH]; [done|]. cbn. fold (total f ts) (total f (map notify ts)). by rewrite Hf, IH. Qed.

(** Notified workers. *)
Definition notified (ts ts' : list thread) : Prop :=
  held ts' ≡ₚ held ts /\ total idle ts' = total idle ts /\ total active ts' = total active ts /\ head ts' = head ts /\
  forall l, (forall i t, ts !! i = Some t -> thread_ok l t) -> forall i t, ts' !! i = Some t -> thread_ok l t.

Lemma notified_all m ws : notified (m :: ws) (m :: map notify ws).
Proof using.
  split; [unfold held; cbn [map concat]; fold (held ws) (held (map notify ws)); by rewrite held_notify|]. cbn. fold (total idle ws) (total idle (map notify ws)) (total active ws) (total active (map notify ws)).
  split; [by rewrite notify_total by (by intros [])|]. split; [by rewrite notify_total by (by intros [])|]. split; [done|].
  intros l Hok [|i] t Ht; [by apply (Hok 0%nat)|]. change ((notify <$> ws) !! i = Some t) in Ht. rewrite list_lookup_fmap in Ht. destruct (ws !! i) as [x|] eqn:Ex; [|done]. injection Ht as <-.
  apply notify_ok. by apply (Hok (S i)).
Qed.

Lemma notified_one ws ts' : notify_one (Outside :: ws) ts' -> notified (Outside :: ws) ts'.
Proof using.
  intros Hn. remember (Outside :: ws) as ts eqn:Ets. destruct Hn as [ts Hw|ts i Hi]; [done|]. subst ts. destruct i as [|i]; [done|]. cbn in Hi.
  split; [|split; [|split; [|split; [done|]]]].
  - pose proof (held_insert (Outside :: ws) (S i) Waiting Notified Hi) as Hh. cbn [batch_of] in Hh. by rewrite !app_nil_r in Hh.
  - rewrite (count_insert idle (Outside :: ws) (S i) Waiting Notified Hi). cbn. lia.
  - rewrite (count_insert active (Outside :: ws) (S i) Waiting Notified Hi). cbn. lia.
  - intros l Hok. by apply insert_threads_ok.
Qed.

Lemma failing_mono l l' : failing l -> failing (l ++ l').
Proof using. intros (c & Hin & Hc). exists c. split; [apply elem_of_app; by left|done]. Qed.
Lemma queue_thread_mono l l' t : thread_ok l t -> thread_ok (l ++ l') t.
Proof using. destruct t as [| |b []| | |d r []|]; cbn; try done; intros [? ?]; split; auto using failing_mono. Qed.

Lemma add_inv q ws l vChecks ts' : vChecks <> [] -> length (l ++ vChecks) < 2 ^ 32 -> notified (Outside :: ws) ts' ->
  core 0 q (Outside :: ws) l ->
  core 0 (mkShared (queue q ++ vChecks) (nIdle q) (nTotal q) (fAllOk q) (u32 (nTodo q + length vChecks)) (m_request_stop q)) ts' (l ++ vChecks).
Proof using.
  intros Hne Hlen (Nh & Ni & Na & Nhd & Nok) [H1 H2 H3 Hsub H4 H5 H6 H7 H9]. destruct H3 as (fin & Hp & Hf); [done|].
  assert ((queue q ++ vChecks) ++ held ts' ≡ₚ (queue q ++ held (Outside :: ws)) ++ vChecks) as Hout by (rewrite Nh; solve_Permutation).
  assert (length (queue q ++ held (Outside :: ws)) + length vChecks < 2 ^ 32) as Hsm.
  { rewrite length_app in Hlen. rewrite Hp, length_app in Hlen. lia. }
  split; cbn [queue nIdle nTotal fAllOk nTodo m_request_stop]; rewrite ?Ni, ?Na, ?Nhd; try done.
  - rewrite Hout, length_app. rewrite u32_small by (unfold in_u; lia). lia.
  - rewrite Hout, length_app. lia.
  - intros _. exists fin. split; [rewrite Hout, Hp; solve_Permutation|done].
  - intros c. rewrite Hout. rewrite (elem_of_app (queue q ++ _)), (elem_of_app l). intros [?|?]; [left; by apply Hsub|by right].
  - intros E. by apply failing_mono, H4.
  - apply Nok. intros i t Hi. by apply queue_thread_mono, (H5 i).
Qed.

Lemma other_inv st st' : inv st -> other st st' -> inv st'.
Proof using.
  intros [Hcore Hw] Hs. destruct Hs as [i q ts l q' t' Hi Ha|q ws l v ts' Hne Hl Hn|q ws l|q ws l r Hr|q m ws l]; cbn [sh threads added] in *.
  - eapply wake_inv; [done|done|done|by left|done].
  - assert (notified (Outside :: ws) ts') as Hnot by (destruct (length v =? 1)%nat; [by apply notified_one|subst ts'; apply (notified_all Outside)]).
    split; [by eapply add_inv|]. unfold waits_ok. cbn [sh threads]. by destruct Hnot as (_ & _ & _ & -> & _).
  - split; [|done]. apply (thread_core 0 0 q q (Outside :: ws) 0 l Outside Start); try done; cbn; lia.
  - destruct Hcore as [H1 H2 H3 Hsub H4 H5 H6 H7 H9]. destruct (H9 r eq_refl) as (_ & _ & H). destruct (H Hr) as [Hnil Hok]. cbn [sh threads added] in *.
    assert (held (Outside :: ws) = held (Returned r :: ws)) as Eh by done. split; [|done]. split; cbn [sh threads added]; rewrite ?Eh, ?Hnil; try done.
    + by rewrite Hnil in H1.
    + intros _. exists []. split; [done|]. intros _. apply Forall_nil_2.
    + congruence.
    + intros [|i] t Ht; [by injection Ht as <-|]. pose proof (H5 (S i) t Ht) as Hok'. apply app_eq_nil in Hnil as [_ Hnil].
      assert (batch_of t = []) as Hb by (apply elem_of_nil_inv; intros c Hc; apply (held_elem (Returned r :: ws) (S i) t c Ht) in Hc; by rewrite Hnil, elem_of_nil in Hc).
      destruct t as [| |b f| | |d r' f|]; try done; cbn in *; by destruct Hok'.
  - split; [|done]. destruct (notified_all m ws) as (Nh & Ni & Na & Nhd & Nok). destruct Hcore as [H1 H2 H3 Hsub H4 H5 H6 H7 H9]. cbn [sh threads added] in *.
    split; cbn [queue nIdle nTotal fAllOk nTodo m_request_stop sh threads added]; rewrite ?Nh, ?Ni, ?Na; try done.
    + intros Hn. destruct (H3 Hn) as (fin & Hp & Hf). exists fin. by rewrite Nh.
    + intros c. rewrite Nh. apply Hsub.
    + by apply Nok.
    + intros r E. destruct (H9 r E) as (? & ? & _). split; [done|]. split; [by left|done].
Qed.

Lemma initial_inv n : inv (initial n).
Proof using.
  assert (forall f, f Outside = 0 -> f Start = 0 -> total f (Outside :: replicate n Start) = 0) as Ht.
  { intros f E1 E2. cbn. rewrite E1. fold (total f (replicate n Start)). induction n as [|n IH]; [done|]. cbn in *. fold (total f (replicate n Start)) in *. lia. }
  assert (held (Outside :: replicate n Start) = []) as Hh by (clear Ht; unfold held; cbn; by induction n).
  split; [|done]. split; cbn [sh threads added queue nIdle nTotal fAllOk nTodo m_request_stop initial app]; rewrite ?Hh, ?Ht by done; try done.
  - intros _. exists []. split; [done|]. intros _. apply Forall_nil_2.
  - intros [|i] t Hi; [by injection Hi as <-|]. cbn in Hi. by apply lookup_replicate in Hi as [-> _].
Qed.

Lemma reachable_inv n st : rtc run (initial n) st -> inv st.
Proof using.
  apply (rtc_ind_r inv); [apply initial_inv|]. intros st1 st2 _ [Hs|Hs] Hi; [by eapply work_inv|by eapply other_inv].
Qed.

(** ** Progress *)

Definition weight (t : thread) : Z :=
  match t with Start | Notified => 2 | Clean _ _ => 5 | Working _ rest _ => length rest + 6 | _ => 0 end.
Definition measure (st : state) : Z := 6 * length (queue (sh st)) + total weight (threads st).

Lemma weight_nonneg t : 0 <= weight t.
Proof using. destruct t; cbn; lia. Qed.
Lemma measure_nonneg st : 0 <= measure st.
Proof using. pose proof (count_nonneg weight (threads st) weight_nonneg). unfold measure. lia. Qed.

Lemma acquire_measure fMaster q q2 t2 : acquire fMaster q = (q2, t2) -> 6 * length (queue q2) + weight t2 < 6 * length (queue q) + 2.
Proof using.
  intros Ha. destruct (acquire_cases _ _ _ _ Ha) as [(b & -> & Hb & Hp & ->)|[(-> & Hq & _ & ->)|[(-> & _ & ->)|(-> & _ & Hq & _ & ->)]]]; cbn [queue weight] in *; rewrite ?Hq; cbn [length]; try lia.
  rewrite Hp, length_app. destruct b; [done|]. cbn [length]. lia.
Qed.

Lemma work_measure st st' : work st st' -> measure st' < measure st.
Proof using.
  intros [i q ts l t q' t' n Hi Hs]. unfold measure. cbn [sh threads].
  assert (forall ts, total weight (alter notify 0%nat ts) <= total weight ts + 2) as Hal.
  { intros [|x xs]; [cbn; lia|]. change (weight (notify x) + total weight xs <= weight x + total weight xs + 2). destruct x; cbn; lia. }
  pose proof (count_insert weight ts i t t' Hi) as Ht. inversion Hs as [q0 t0 q1 n0 q2 t2 Hk Hc Ha|q0 q2 t2 Ha|q0 d c r fOk|q0 d fOk]; subst.
  - apply acquire_measure in Ha. destruct Hk as [->|(b & fOk & ->)]; cbn [clean_up weight] in *; injection Hc as <- <-; cbn [queue] in *; [lia|].
    destruct (_ && negb _); [specialize (Hal (<[i := t']> ts)); lia|lia].
  - apply acquire_measure in Ha. cbn [weight queue wake] in *. lia.
  - cbn [weight length] in *. lia.
  - cbn [weight length] in *. lia.
Qed.

(** No thread leaves [Loop] but by returning. *)
Lemma work_outside st st' m : work st st' -> head (threads st) = Some m -> m <> Outside -> exists m', head (threads st') = Some m' /\ m' <> Outside.
Proof using.
  intros [i q ts l t q' t' n Hi Hs] Hh Hm. cbn [threads] in *. assert (t' <> Outside) as Ht'.
  { inversion Hs as [q0 t0 q1 n0 q2 t2 _ _ Ha|q0 q2 t2 Ha|q0 d c r fOk|q0 d fOk]; subst; try done;
      destruct (acquire_cases _ _ _ _ Ha) as [(b & -> & _)|[(-> & _)|[(-> & _)|(-> & _)]]]; done. }
  assert (exists m1, head (<[i := t']> ts) = Some m1 /\ m1 <> Outside) as (m1 & Hh1 & Hm1) by (destruct ts, i; cbn in *; eauto; done).
  destruct n; [|eauto]. exists (notify m1). split; [destruct (<[i := t']> ts); cbn in *; congruence|by destruct m1].
Qed.

(** A thread that holds checks, or is not waiting, can go on. *)
Lemma thread_progress st i t : threads st !! i = Some t -> t <> Waiting -> t <> Outside -> (forall r, t <> Returned r) -> exists st', work st st'.
Proof using.
  destruct st as [q ts l]. cbn [threads]. intros Hi Hw Ho Hr. destruct t as [| |b fOk| | |d r fOk|r]; try done; [| | | |by specialize (Hr r)].
  - destruct (clean_up (i =? 0)%nat Start q) as [q1 n] eqn:Ec. destruct (acquire (i =? 0)%nat q1) as [q2 t2] eqn:Ea. eexists. eapply work_step; [done|]. eapply lock_step; [by left|done..].
  - destruct (clean_up (i =? 0)%nat (Clean b fOk) q) as [q1 n] eqn:Ec. destruct (acquire (i =? 0)%nat q1) as [q2 t2] eqn:Ea. eexists. eapply work_step; [done|]. eapply lock_step; [right; eauto|done..].
  - destruct (acquire (i =? 0)%nat (wake q)) as [q2 t2] eqn:Ea. eexists. eapply work_step; [done|]. by eapply wake_step.
  - destruct r as [|c r]; eexists; (eapply work_step; [done|]); [apply finish_step|apply check_step].
Qed.

Lemma master_progress st m : inv st -> head (threads st) = Some m -> m <> Outside -> (forall r, m <> Returned r) -> exists st', work st st'.
Proof using.
  intros [Hcore Hw] Hh Ho Hr. destruct (threads st) as [|m' ws] eqn:Ets; [done|]. injection Hh as ->.
  assert (m = Waiting \/ m <> Waiting) as [->|Hne] by (destruct m; auto; right; done); [|by apply (thread_progress st 0 m); rewrite ?Ets].
  destruct (Hw eq_refl) as [Hq Ht]. pose proof (c_todo _ _ _ _ Hcore) as Htodo. rewrite Hq in Htodo. cbn [app] in Htodo.
  destruct (held (Waiting :: ws)) as [|c cs] eqn:Eh; [cbn in Htodo; lia|]. assert (c ∈ held (Waiting :: ws)) as Hc by (rewrite Eh; left).
  unfold held in Hc. apply list_elem_of_In, in_concat in Hc as (b & Hb & Hc). apply in_map_iff in Hb as (t & <- & Hin).
  apply list_elem_of_In, list_elem_of_lookup in Hin as [i Hi]. apply (thread_progress st i t); rewrite ?Ets; [done|..]; destruct t; done.
Qed.

End Queue.

(** C13: When the master returns, it returns whether every check that was added is true, however the threads took
    and finished their batches; if the workers are asked to stop it may return false, but never true when a
    check is false. *)
Theorem CheckQueue_correct {T} (check : T -> bool) nBatchSize n st r :
  rtc (run check nBatchSize) (initial n) st -> head (threads st) = Some (Returned r) ->
  (r = true -> forallb check (added st) = true) /\ (m_request_stop (sh st) = false -> r = forallb check (added st)).
Proof.
  intros Hr Hh. destruct (reachable_inv check nBatchSize n st Hr) as [Hcore _]. destruct (c_ret _ _ _ _ _ Hcore r Hh) as (Ht & Hf & _).
  assert (r = true -> forallb check (added st) = true) as Htrue.
  { intros E. apply forallb_forall. intros c Hc%list_elem_of_In. specialize (Ht E). unfold passes in Ht. rewrite Forall_forall in Ht. by apply Ht. }
  split; [done|]. intros Hs. destruct r; [symmetry; by apply Htrue|]. destruct (Hf eq_refl) as [?|(c & Hc & Hfalse)]; [congruence|].
  symmetry. apply not_true_is_false. rewrite forallb_forall. intros Hall. rewrite Hall in Hfalse; [done|by apply list_elem_of_In].
Qed.

(** C14: The master's [Wait] ends: from any state in which it is in [Wait] the threads can take only so many steps, if
    none wakes up without being notified, and when none can take a step the master has returned. *)
Theorem CheckQueue_terminates {T} (check : T -> bool) nBatchSize n st m :
  rtc (run check nBatchSize) (initial n) st -> head (threads st) = Some m -> m <> Outside ->
  (forall k st', nsteps (work check nBatchSize) k st st' -> k <= measure st) /\
  (forall st', rtc (work check nBatchSize) st st' -> (forall st'', ~ work check nBatchSize st' st'') -> exists r, head (threads st') = Some (Returned r)).
Proof.
  intros Hr Hh Hm. split.
  - intros k st' Hn. pose proof (measure_nonneg st') as Hp. cut (k + measure st' <= measure st); [lia|]. clear Hr Hh Hp.
    induction Hn as [st|k st1 st2 st3 Hs Hn IH]; [lia|]. apply work_measure in Hs. lia.
  - intros st' Hw Hstuck. assert (exists m', head (threads st') = Some m' /\ m' <> Outside) as (m' & Hh' & Hm').
    { clear Hr Hstuck. revert m Hh Hm. induction Hw as [st|st1 st2 st3 Hs Hn IH]; intros m Hh Hm; [eauto|]. destruct (work_outside _ _ _ _ m Hs Hh Hm) as (m' & ? & ?). eauto. }
    assert (inv check st') as Hinv.
    { apply (reachable_inv check nBatchSize n). etrans; [exact Hr|]. eapply rtc_subrel; [|exact Hw]. by left. }
    assert ((exists r, m' = Returned r) \/ forall r, m' <> Returned r) as [[r ->]|Hnr] by (destruct m'; eauto; right; done); [eauto|].
    destruct (master_progress check nBatchSize st' m' Hinv Hh' Hm' Hnr) as [st'' Hs]. by destruct (Hstuck st'').
Qed.

(** ** One worker and one failing check *)

Definition sample_added : state := mkState (mkShared [true; false] 0 0 true 2 false) [Outside; Start] [true; false].
Definition sample_waiting : state := mkState (mkShared [true; false] 0 0 true 2 false) [Start; Start] [true; false].

Lemma sample_wait_reachable : rtc (run id 128) (initial 1) sample_waiting.
Proof.
  eapply rtc_l; [right; by apply (add_checks 128 (mkShared [] 0 0 true 0 false) [Start] [] [true; false] [Outside; Start])|].
  apply rtc_once. right. apply call_wait.
Qed.

Definition sample_returned : state := mkState (mkShared [] 0 0 true 0 false) [Returned false; Start] [true; false].

Lemma sample_run : rtc (run id 128) (initial 1) sample_returned.
Proof.
  etrans; [apply sample_wait_reachable|]. eapply (rtc_subrel (work id 128)); [by left|].
  eapply rtc_l; [eapply (work_step id 128 0); [done|eapply lock_step; [by left|done|done]]|].
  eapply rtc_l; [eapply (work_step id 128 0); [done|apply check_step]|].
  eapply rtc_l; [eapply (work_step id 128 0); [done|apply finish_step]|].
  eapply rtc_l; [eapply (work_step id 128 0); [done|eapply lock_step; [right; eauto|done|done]]|].
  eapply rtc_l; [eapply (work_step id 128 0); [done|apply check_step]|].
  eapply rtc_l; [eapply (work_step id 128 0); [done|apply finish_step]|].
  eapply rtc_l; [eapply (work_step id 128 0); [done|eapply lock_step; [right; eauto|done|done]]|].
  apply rtc_refl.
Qed.

Lemma CheckQueue_correct_witness :
  (false = true -> forallb id [true; false] = true) /\ (false = false -> false = forallb id [true; false]).
Proof. exact (CheckQueue_correct id 128 1 sample_returned false sample_run eq_refl). Defined.

Lemma CheckQueue_terminates_witness :
  (forall k st', nsteps (work id 128) k sample_waiting st' -> k <= 16) /\
  (forall st', rtc (work id 128) sample_waiting st' -> (forall st'', ~ work id 128 st' st'') -> exists r, head (threads st') = Some (Returned r)).
Proof. exact (CheckQueue_terminates id 128 1 sample_waiting Start sample_wait_reachable eq_refl ltac:(discriminate)). Defined.

End CheckQueue.
