(* ===== verification/SigOps.v ===== *)
(** * The cost of signature operations ([consensus/tx_verify.cpp],
    [script/interpreter.cpp])

    Signature operations in the scripts of a transaction, in the scripts its
    inputs reveal, and in witness programs. *)
From stdpp Require Import prelude gmap.
From S2P Require Import Prelude Serialize Transaction Coins CoinsTheory CoinsMachine BlockCoins Script TxCheck TxVerify BlockCheck.

Module SigOps.
Import Serialize Transaction Coins CoinsTheory CoinsMachine BlockCoins Script TxCheck TxVerify BlockCheck.

(** ** Definitions *)

Definition SCRIPT_VERIFY_P2SH : Z := Z.shiftl 1 0.
Definition SCRIPT_VERIFY_WITNESS : Z := Z.shiftl 1 11.
Definition WITNESS_V0_KEYHASH_SIZE : Z := 20.
Definition WITNESS_V0_SCRIPTHASH_SIZE : Z := 32.

Definition has_flag (flags f : Z) : bool := negb (Z.land flags f =? 0).

(** [witversion] is [None] where [DecodeOP_N] would assert. *)
Definition WitnessSigOps (witversion : option Z) (witprogram : list Z) (witness : list (list Z)) : Z :=
  if bool_decide (witversion = Some 0) then
    if length witprogram =? WITNESS_V0_KEYHASH_SIZE then 1
    else if (length witprogram =? WITNESS_V0_SCRIPTHASH_SIZE) && (0 <? length witness) then
      GetSigOpCount (default [] (last witness)) true
    else 0
  else 0.

(** The data of the last operation.  [None]: an operation does not parse and the
    loop of the code does not end; it is entered with pushes only. *)
Fixpoint last_data (fuel : nat) (data s : list Z) : option (list Z) :=
  match s with
  | [] => Some data
  | _ =>
      match fuel with
      | O => None
      | S fuel' => '(_, data, s) ← GetScriptOp s; last_data fuel' data s
      end
  end.

(** [None] is a failed assertion. *)
Definition CountWitnessSigOps (scriptSig scriptPubKey : list Z) (witness : list (list Z)) (flags : Z) : option Z :=
  if negb (has_flag flags SCRIPT_VERIFY_WITNESS) then Some 0
  else if negb (has_flag flags SCRIPT_VERIFY_P2SH) then None
  else
    match IsWitnessProgram scriptPubKey with
    | Some (witnessversion, witnessprogram) => Some (WitnessSigOps witnessversion witnessprogram witness)
    | None =>
        if IsPayToScriptHash scriptPubKey && IsPushOnly scriptSig then
          subscript ← last_data (length scriptSig) [] scriptSig;
          match IsWitnessProgram subscript with
          | Some (witnessversion, witnessprogram) => Some (WitnessSigOps witnessversion witnessprogram witness)
          | None => Some 0
          end
        else Some 0
    end.

Section Code.
Context {S : Type} {V : CoinsView S} (usage : Coin -> Z).
Abbreviation Cache := (@CCoinsViewCache S).

Fixpoint p2sh_loop (inputs : Cache) (nSigOps : Z) (l : list CTxIn) : option (Z * Cache) :=
  match l with
  | [] => Some (nSigOps, inputs)
  | i :: r =>
      let '(x, inputs) := AccessCoin usage inputs (prevout i) in
      if IsSpent x then None
      else
        let pk := scriptPubKey (out x) in
        p2sh_loop inputs (if IsPayToScriptHash pk then u32 (nSigOps + GetSigOpCount_p2sh pk (scriptSig i)) else nSigOps) r
  end.

Definition GetP2SHSigOpCount (tx : CTransaction) (inputs : Cache) : option (Z * Cache) :=
  if IsCoinBase tx then Some (0, inputs) else p2sh_loop inputs 0 (vin tx).

Fixpoint witness_sigop_loop (inputs : Cache) (flags nSigOps : Z) (l : list CTxIn) : option (Z * Cache) :=
  match l with
  | [] => Some (nSigOps, inputs)
  | i :: r =>
      let '(x, inputs) := AccessCoin usage inputs (prevout i) in
      if IsSpent x then None
      else
        n ← CountWitnessSigOps (scriptSig i) (scriptPubKey (out x)) (scriptWitness i) flags;
        witness_sigop_loop inputs flags (i64 (nSigOps + n)) r
  end.

Definition GetTransactionSigOpCost (tx : CTransaction) (inputs : Cache) (flags : Z) : option (Z * Cache) :=
  let nSigOps := u32 (GetLegacySigOpCount tx * WITNESS_SCALE_FACTOR) in
  if IsCoinBase tx then Some (nSigOps, inputs)
  else
    '(nSigOps, inputs) ← (if has_flag flags SCRIPT_VERIFY_P2SH then
                            '(n, inputs) ← GetP2SHSigOpCount tx inputs; Some (i64 (nSigOps + u32 (n * WITNESS_SCALE_FACTOR)), inputs)
                          else Some (nSigOps, inputs));
    witness_sigop_loop inputs flags nSigOps (vin tx).

End Code.

(** ** Bounds *)

Lemma GetScriptOp_bytes s opcode d r : GetScriptOp s = Some (opcode, d, r) -> (length d + length r < length s)%nat.
Proof.
  destruct s as [|c s]; [done|]. unfold GetScriptOp. case_if; [|intros [= <- <- <-]; cbn [length]; lia].
  destruct (operand_size c s) as [[n t]|] eqn:Eo; [|done]. rewrite bind_some. case_if; [done|]. intros [= <- <- <-]. cbn [length].
  assert (length t <= length s)%nat; [|rewrite length_take, length_drop; lia].
  unfold operand_size in Eo. repeat (case_if_in Eo; simplify_eq); rewrite ?length_drop; lia.
Qed.

Lemma sigop_count_range script acc : 20 * length script < 2 ^ 32 -> 0 <= GetSigOpCount script acc <= 20 * length script.
Proof. intros Hl. unfold GetSigOpCount. pose proof (sigop_bound (length script) acc 0 OP_INVALIDOPCODE script). lia. Qed.

Lemma last_push_bytes (fuel : nat) d s r : last_push fuel d s = Some r -> length r <= Z.max (length d) (length s).
Proof.
  revert d s. induction fuel as [|fuel IH]; intros d s; cbn [last_push]; [by intros [= <-]; lia|].
  destruct s as [|c s]; [by intros [= <-]; lia|]. destruct (GetScriptOp (c :: s)) as [[[o d'] s']|] eqn:E; [|done].
  case_if; [done|]. intros Hr%IH. apply GetScriptOp_bytes in E. lia.
Qed.

Lemma p2sh_count_range pk s : IsPayToScriptHash pk = true -> 20 * length s < 2 ^ 32 -> 0 <= GetSigOpCount_p2sh pk s <= 20 * length s.
Proof.
  intros Hp Hs. unfold GetSigOpCount_p2sh. rewrite Hp. cbn [negb]. destruct (last_push (length s) [] s) as [sub|] eqn:E; [|lia].
  apply last_push_bytes in E. cbn [length] in E. pose proof (sigop_count_range sub true). lia.
Qed.

(** The loop over a script of pushes ends. *)
Lemma last_data_total (fuel : nat) s d : push_only_loop fuel s = true -> (length s <= fuel)%nat -> exists r, last_data fuel d s = Some r.
Proof.
  revert s d. induction fuel as [|fuel IH]; intros s d Hp Hl.
  { destruct s; [|cbn in Hl; lia]. by exists d. }
  destruct s as [|c s]; [by exists d|]. cbn [push_only_loop last_data] in *. destruct (GetScriptOp (c :: s)) as [[[o d'] r]|] eqn:E; [|done].
  rewrite bind_some. case_if_in Hp; [done|]. apply IH; [done|]. apply GetScriptOp_bytes in E. lia.
Qed.

(** ** The cost of a transaction *)

Definition wit_bytes (i : CTxIn) : Z := length (default [] (last (scriptWitness i))).

Lemma last_bytes (w : list (list Z)) : length (default [] (last w)) <= length (Vector_Ser Serialize_bytes w).
Proof.
  unfold Vector_Ser. rewrite length_app. destruct (last w) as [x|] eqn:E; cbn [from_option id length]; [|lia].
  apply last_Some in E as [w' ->]. rewrite map_app, concat_app, !length_app. cbn [map concat]. rewrite app_nil_r. pose proof (bytes_length x). lia.
Qed.

(** Scripts and witnesses are parts of the transaction. *)
Lemma tx_parts_length tx :
  script_bytes tx + sumZ wit_bytes (vin tx) <= length (SerializeTransaction 0 tx).
Proof.
  destruct (HasWitness tx) eqn:Ew.
  - unfold script_bytes, SerializeTransaction, Vector_Ser at 2 3. rewrite Ew. change (fAllowWitness 0 && true) with true. cbv iota. change (negb (Z.land 1 1 =? 0)) with true. cbv iota. rewrite !length_app.
    pose proof (sumZ_length CTxIn_Ser (vin tx)). pose proof (sumZ_length CTxOut_Ser (vout tx)).
    pose proof (sumZ_length (fun i => Vector_Ser Serialize_bytes (scriptWitness i)) (vin tx)).
    assert (sumZ (fun i => length (scriptSig i)) (vin tx) <= sumZ (fun i => length (CTxIn_Ser i)) (vin tx)).
    { apply sumZ_le. intros i _. unfold CTxIn_Ser. rewrite !length_app. pose proof (bytes_length (scriptSig i)). lia. }
    assert (sumZ (fun o => length (scriptPubKey o)) (vout tx) <= sumZ (fun o => length (CTxOut_Ser o)) (vout tx)).
    { apply sumZ_le. intros o _. unfold CTxOut_Ser. rewrite !length_app. pose proof (bytes_length (scriptPubKey o)). lia. }
    assert (sumZ wit_bytes (vin tx) <= sumZ (fun i => length (Vector_Ser Serialize_bytes (scriptWitness i))) (vin tx)).
    { apply sumZ_le. intros i _. apply last_bytes. }
    lia.
  - pose proof (script_bytes_length tx 0). assert (sumZ wit_bytes (vin tx) <= sumZ (fun _ => 0) (vin tx)) as Hw.
    { apply sumZ_le. intros i Hi. unfold HasWitness in Ew. rewrite existsb_Forall, Forall_forall in Ew. specialize (Ew i Hi). cbn beta in Ew.
      unfold wit_bytes. destruct (scriptWitness i); [done|]. done. }
    rewrite sumZ_const in Hw. lia.
Qed.

Section Cost.
Context {S : Type} {V : CoinsView S} (usage : Coin -> Z) (u : coins) (flags : Z).
Context (Hp2sh : has_flag flags SCRIPT_VERIFY_P2SH = true) (Hwit : has_flag flags SCRIPT_VERIFY_WITNESS = true).
Abbreviation holds := (@BlockCoins.holds S V usage).

Definition spent_script (i : CTxIn) : list Z := match u (prevout i) with Some x => scriptPubKey (out x) | None => [] end.
Definition p2sh_sigops (i : CTxIn) : Z := if IsPayToScriptHash (spent_script i) then GetSigOpCount_p2sh (spent_script i) (scriptSig i) else 0.
Definition witness_sigops (i : CTxIn) : Z := default 0 (CountWitnessSigOps (scriptSig i) (spent_script i) (scriptWitness i) flags).
Definition unspent_input (i : CTxIn) : Prop := exists x, u (prevout i) = Some x /\ IsSpent x = false.

(** Four for each operation that is not in a witness program. *)
Definition sigop_cost (tx : CTransaction) : Z :=
  4 * sigops tx + (if IsCoinBase tx then 0 else 4 * sumZ p2sh_sigops (vin tx) + sumZ witness_sigops (vin tx)).

Lemma p2sh_range i : 20 * length (scriptSig i) < 2 ^ 32 -> 0 <= p2sh_sigops i <= 20 * length (scriptSig i).
Proof using. intros Hl. unfold p2sh_sigops. case_if; [by apply p2sh_count_range|lia]. Qed.

Lemma WitnessSigOps_range v p w :
  20 * length (default [] (last w)) < 2 ^ 32 -> 0 <= WitnessSigOps v p w <= 1 + 20 * length (default [] (last w)).
Proof using. intros Hl. unfold WitnessSigOps. pose proof (sigop_count_range (default [] (last w)) true Hl). repeat case_if; lia. Qed.

Lemma witness_range i :
  20 * wit_bytes i < 2 ^ 32 ->
  exists n, CountWitnessSigOps (scriptSig i) (spent_script i) (scriptWitness i) flags = Some n /\ 0 <= n <= 1 + 20 * wit_bytes i.
Proof using Hp2sh Hwit.
  intros Hl. unfold CountWitnessSigOps. rewrite Hp2sh, Hwit. cbn [negb].
  destruct (IsWitnessProgram (spent_script i)) as [[v p]|]; [eexists; split; [done|]; by apply WitnessSigOps_range|].
  destruct (IsPayToScriptHash (spent_script i) && IsPushOnly (scriptSig i)) eqn:E; [|exists 0; split; [done|]; unfold wit_bytes; lia].
  apply andb_prop in E as [_ E]. destruct (last_data_total _ _ [] E) as [sub Hsub]; [lia|]. rewrite Hsub, bind_some.
  destruct (IsWitnessProgram sub) as [[v p]|]; [eexists; split; [done|]; by apply WitnessSigOps_range|exists 0; split; [done|]; unfold wit_bytes; lia].
Qed.

Lemma p2sh_loop_holds l c n :
  holds c u -> Forall unspent_input l -> 0 <= n -> n + 20 * sumZ (fun i => length (scriptSig i)) l < 2 ^ 32 ->
  exists c', p2sh_loop usage c n l = Some (n + sumZ p2sh_sigops l, c') /\ holds c' u.
Proof using.
  revert c n. induction l as [|i l IH]; intros c n Hc Hl Hn Hb; cbn [p2sh_loop sumZ foldr] in *; [exists c; by rewrite Z.add_0_r|].
  fold (sumZ p2sh_sigops l) in *. fold (sumZ (fun i => Z.of_nat (length (scriptSig i))) l) in *.
  inversion Hl as [|? ? (x & Hx & Hsp) Hl']; subst. destruct (AccessCoin_holds usage c u (prevout i) Hc) as (y & c1 & -> & Hc1 & Hy).
  rewrite Hx in Hy. destruct (IsSpent y) eqn:Ey; [done|]. injection Hy as ->.
  assert (0 <= sumZ (fun i => length (scriptSig i)) l) by (rewrite sumZ_length; lia). pose proof (p2sh_range i ltac:(lia)) as Hr.
  assert ((if IsPayToScriptHash (scriptPubKey (out y)) then u32 (n + GetSigOpCount_p2sh (scriptPubKey (out y)) (scriptSig i)) else n) = n + p2sh_sigops i) as ->.
  { unfold p2sh_sigops, spent_script in *. rewrite Hx in *. destruct (IsPayToScriptHash _); [|lia]. apply u32_small. unfold in_u. lia. }
  destruct (IH c1 (n + p2sh_sigops i) Hc1 Hl' ltac:(lia) ltac:(lia)) as (c' & -> & Hc'). exists c'. split; [|done]. do 2 f_equal. lia.
Qed.

Lemma witness_loop_holds l c n :
  holds c u -> Forall unspent_input l -> 0 <= n -> n + length l + 20 * sumZ wit_bytes l < 2 ^ 32 ->
  exists c', witness_sigop_loop usage c flags n l = Some (n + sumZ witness_sigops l, c') /\ holds c' u.
Proof using Hp2sh Hwit.
  revert c n. induction l as [|i l IH]; intros c n Hc Hl Hn Hb; cbn [witness_sigop_loop sumZ foldr length] in *; [exists c; by rewrite Z.add_0_r|].
  fold (sumZ witness_sigops l) in *. fold (sumZ wit_bytes l) in *.
  inversion Hl as [|? ? (x & Hx & Hsp) Hl']; subst. destruct (AccessCoin_holds usage c u (prevout i) Hc) as (y & c1 & -> & Hc1 & Hy).
  rewrite Hx in Hy. destruct (IsSpent y) eqn:Ey; [done|]. injection Hy as ->.
  assert (0 <= sumZ wit_bytes l) by (apply sumZ_nonneg; intros; unfold wit_bytes; lia).
  destruct (witness_range i ltac:(lia)) as (k & Hk & Hr). assert (scriptPubKey (out y) = spent_script i) as -> by (unfold spent_script; by rewrite Hx).
  unfold witness_sigops at 1. rewrite Hk, bind_some. cbn [from_option id].
  assert (i64 (n + k) = n + k) as -> by (unfold i64; apply swrap_small; [lia|unfold in_s; lia]).
  destruct (IH c1 (n + k) Hc1 Hl' ltac:(lia) ltac:(lia)) as (c' & -> & Hc'). exists c'. split; [|done]. do 2 f_equal. lia.
Qed.

(** Each witness program counts at most one operation without bytes. *)
Lemma GetTransactionSigOpCost_spec c tx :
  holds c u -> (IsCoinBase tx = false -> Forall unspent_input (vin tx)) -> 4 * length (SerializeTransaction 0 tx) <= MAX_BLOCK_WEIGHT ->
  exists c', GetTransactionSigOpCost usage tx c flags = Some (sigop_cost tx, c') /\ holds c' u.
Proof using Hp2sh Hwit.
  unfold MAX_BLOCK_WEIGHT. intros Hc Hin Hsz. pose proof (tx_parts_length tx) as Hp.
  assert (0 <= sumZ wit_bytes (vin tx)) by (apply sumZ_nonneg; intros; unfold wit_bytes; lia).
  assert (length (vin tx) <= length (SerializeTransaction 0 tx)) as Hn.
  { unfold SerializeTransaction, Vector_Ser. rewrite !length_app. pose proof (sumZ_length CTxIn_Ser (vin tx)).
    assert (sumZ (fun _ => 1) (vin tx) <= sumZ (fun i => length (CTxIn_Ser i)) (vin tx)).
    { apply sumZ_le. intros i _. unfold CTxIn_Ser. rewrite !length_app. cbn [ser32 length ser_writedata32]. assert (length (ser32 (nSequence i)) = 4%nat) by done. lia. }
    rewrite sumZ_const in *. lia. }
  assert (0 <= script_bytes tx) by (unfold script_bytes; rewrite !sumZ_length; lia). destruct (sigops_range tx) as [Hs Hl]; [lia|].
  unfold GetTransactionSigOpCost, sigop_cost, WITNESS_SCALE_FACTOR. rewrite Hl, u32_small by (unfold in_u; lia).
  destruct (IsCoinBase tx) eqn:Ecb; [exists c; split; [|done]; do 2 f_equal; lia|]. specialize (Hin eq_refl).
  assert (0 <= sumZ (fun i => length (scriptSig i)) (vin tx) <= script_bytes tx) as Hsig by (unfold script_bytes; rewrite !sumZ_length; lia).
  rewrite Hp2sh. unfold GetP2SHSigOpCount. rewrite Ecb.
  destruct (p2sh_loop_holds (vin tx) c 0 Hc Hin ltac:(lia) ltac:(lia)) as (c1 & -> & Hc1). rewrite !bind_some, Z.add_0_l.
  assert (0 <= sumZ p2sh_sigops (vin tx) <= 20 * sumZ (fun i => length (scriptSig i)) (vin tx)) as Hpr.
  { assert (forall i, i ∈ vin tx -> 0 <= p2sh_sigops i <= 20 * length (scriptSig i)) as Hi.
    { intros i Hi. apply p2sh_range. pose proof (sumZ_elem (fun i => Z.of_nat (length (scriptSig i))) (vin tx) i). cbn beta in *. specialize (H1 ltac:(intros; lia) Hi). lia. }
    split; [apply sumZ_nonneg|rewrite <- sumZ_mul; apply sumZ_le]; intros; by apply Hi. }
  rewrite u32_small by (unfold in_u; lia). unfold i64. rewrite swrap_small by (unfold in_s; lia).
  destruct (witness_loop_holds (vin tx) c1 (sigops tx * 4 + sumZ p2sh_sigops (vin tx) * 4) Hc1 Hin ltac:(lia) ltac:(lia)) as (c' & -> & Hc').
  exists c'. split; [|done]. do 2 f_equal. lia.
Qed.

End Cost.

End SigOps.
