(* ===== verification/Interp.v ===== *)
(** * The script interpreter ([script/interpreter.cpp])

    Encodings of signatures and keys, removal of signatures from a script, the
    stack of conditions and the evaluation of scripts, over an interface for
    what a signature checker does.  A stack is a list with its top first. *)
From stdpp Require Import prelude.
From S2P Require Import Prelude Serialize HashStream Sha256 Sha1 Ripemd160 Hash Script Locks.

Module Interp.
Import Script.

(** ** Results *)

Inductive ScriptError :=
  | SCRIPT_ERR_OK | SCRIPT_ERR_UNKNOWN_ERROR | SCRIPT_ERR_EVAL_FALSE | SCRIPT_ERR_OP_RETURN
  | SCRIPT_ERR_SCRIPT_SIZE | SCRIPT_ERR_PUSH_SIZE | SCRIPT_ERR_OP_COUNT | SCRIPT_ERR_STACK_SIZE | SCRIPT_ERR_SIG_COUNT
  | SCRIPT_ERR_PUBKEY_COUNT | SCRIPT_ERR_VERIFY | SCRIPT_ERR_EQUALVERIFY | SCRIPT_ERR_CHECKMULTISIGVERIFY
  | SCRIPT_ERR_CHECKSIGVERIFY | SCRIPT_ERR_NUMEQUALVERIFY | SCRIPT_ERR_BAD_OPCODE | SCRIPT_ERR_DISABLED_OPCODE
  | SCRIPT_ERR_INVALID_STACK_OPERATION | SCRIPT_ERR_INVALID_ALTSTACK_OPERATION | SCRIPT_ERR_UNBALANCED_CONDITIONAL
  | SCRIPT_ERR_NEGATIVE_LOCKTIME | SCRIPT_ERR_UNSATISFIED_LOCKTIME | SCRIPT_ERR_SIG_HASHTYPE | SCRIPT_ERR_SIG_DER
  | SCRIPT_ERR_MINIMALDATA | SCRIPT_ERR_SIG_PUSHONLY | SCRIPT_ERR_SIG_HIGH_S | SCRIPT_ERR_SIG_NULLDUMMY
  | SCRIPT_ERR_PUBKEYTYPE | SCRIPT_ERR_CLEANSTACK | SCRIPT_ERR_MINIMALIF | SCRIPT_ERR_SIG_NULLFAIL
  | SCRIPT_ERR_DISCOURAGE_UPGRADABLE_NOPS | SCRIPT_ERR_DISCOURAGE_UPGRADABLE_WITNESS_PROGRAM
  | SCRIPT_ERR_DISCOURAGE_UPGRADABLE_TAPROOT_VERSION | SCRIPT_ERR_DISCOURAGE_OP_SUCCESS
  | SCRIPT_ERR_DISCOURAGE_UPGRADABLE_PUBKEYTYPE | SCRIPT_ERR_WITNESS_PROGRAM_WRONG_LENGTH
  | SCRIPT_ERR_WITNESS_PROGRAM_WITNESS_EMPTY | SCRIPT_ERR_WITNESS_PROGRAM_MISMATCH | SCRIPT_ERR_WITNESS_MALLEATED
  | SCRIPT_ERR_WITNESS_MALLEATED_P2SH | SCRIPT_ERR_WITNESS_UNEXPECTED | SCRIPT_ERR_WITNESS_PUBKEYTYPE
  | SCRIPT_ERR_SCHNORR_SIG_SIZE | SCRIPT_ERR_SCHNORR_SIG_HASHTYPE | SCRIPT_ERR_SCHNORR_SIG
  | SCRIPT_ERR_TAPROOT_WRONG_CONTROL_SIZE | SCRIPT_ERR_TAPSCRIPT_VALIDATION_WEIGHT
  | SCRIPT_ERR_TAPSCRIPT_CHECKMULTISIG | SCRIPT_ERR_TAPSCRIPT_MINIMALIF | SCRIPT_ERR_OP_CODESEPARATOR
  | SCRIPT_ERR_SIG_FINDANDDELETE.

(** A value, a failure (without an error when [serror] is left as it was), or a
    failed assertion. *)
Inductive outcome (A : Type) := Ok (x : A) | Fail (e : option ScriptError) | Abort.
Arguments Ok {_} _.
Arguments Fail {_} _.
Arguments Abort {_}.
#[global] Instance outcome_ret : MRet outcome := fun A x => Ok x.
#[global] Instance outcome_bind : MBind outcome := fun A B k m => match m with Ok x => k x | Fail e => Fail e | Abort => Abort end.

Definition set_error {A} (e : ScriptError) : outcome A := Fail (Some e).
(** An assertion, a thrown exception (caught around the loop), and a check. *)
Definition assert_some {A} (x : option A) : outcome A := match x with Some x => Ok x | None => Abort end.
Definition catch {E A} (x : E + A) : outcome A := match x with inr x => Ok x | inl _ => set_error SCRIPT_ERR_UNKNOWN_ERROR end.
Definition require (b : bool) (e : ScriptError) : outcome () := if b then Ok () else set_error e.

(** ** Flags and limits *)

Definition SCRIPT_VERIFY_NONE : Z := 0.
Definition SCRIPT_VERIFY_P2SH : Z := Z.shiftl 1 0.
Definition SCRIPT_VERIFY_STRICTENC : Z := Z.shiftl 1 1.
Definition SCRIPT_VERIFY_DERSIG : Z := Z.shiftl 1 2.
Definition SCRIPT_VERIFY_LOW_S : Z := Z.shiftl 1 3.
Definition SCRIPT_VERIFY_NULLDUMMY : Z := Z.shiftl 1 4.
Definition SCRIPT_VERIFY_SIGPUSHONLY : Z := Z.shiftl 1 5.
Definition SCRIPT_VERIFY_MINIMALDATA : Z := Z.shiftl 1 6.
Definition SCRIPT_VERIFY_DISCOURAGE_UPGRADABLE_NOPS : Z := Z.shiftl 1 7.
Definition SCRIPT_VERIFY_CLEANSTACK : Z := Z.shiftl 1 8.
Definition SCRIPT_VERIFY_CHECKLOCKTIMEVERIFY : Z := Z.shiftl 1 9.
Definition SCRIPT_VERIFY_CHECKSEQUENCEVERIFY : Z := Z.shiftl 1 10.
Definition SCRIPT_VERIFY_WITNESS : Z := Z.shiftl 1 11.
Definition SCRIPT_VERIFY_DISCOURAGE_UPGRADABLE_WITNESS_PROGRAM : Z := Z.shiftl 1 12.
Definition SCRIPT_VERIFY_MINIMALIF : Z := Z.shiftl 1 13.
Definition SCRIPT_VERIFY_NULLFAIL : Z := Z.shiftl 1 14.
Definition SCRIPT_VERIFY_WITNESS_PUBKEYTYPE : Z := Z.shiftl 1 15.
Definition SCRIPT_VERIFY_CONST_SCRIPTCODE : Z := Z.shiftl 1 16.
Definition SCRIPT_VERIFY_TAPROOT : Z := Z.shiftl 1 17.
Definition SCRIPT_VERIFY_DISCOURAGE_UPGRADABLE_TAPROOT_VERSION : Z := Z.shiftl 1 18.
Definition SCRIPT_VERIFY_DISCOURAGE_OP_SUCCESS : Z := Z.shiftl 1 19.
Definition SCRIPT_VERIFY_DISCOURAGE_UPGRADABLE_PUBKEYTYPE : Z := Z.shiftl 1 20.

Definition has_flag (flags f : Z) : bool := negb (Z.land flags f =? 0).

Definition MAX_OPS_PER_SCRIPT : Z := 201.
Definition MAX_SCRIPT_SIZE : Z := 10000.
Definition MAX_STACK_SIZE : Z := 1000.
Definition VALIDATION_WEIGHT_PER_SIGOP_PASSED : Z := 50.

Definition SIGHASH_ALL : Z := 1.
Definition SIGHASH_NONE : Z := 2.
Definition SIGHASH_SINGLE : Z := 3.
Definition SIGHASH_ANYONECANPAY : Z := 0x80.

(** ** Opcodes *)

Definition OP_1NEGATE : Z := 0x4f.
Definition OP_RESERVED : Z := 0x50.
Definition OP_NOP : Z := 0x61.
Definition OP_VER : Z := 0x62.
Definition OP_IF : Z := 0x63.
Definition OP_NOTIF : Z := 0x64.
Definition OP_VERIF : Z := 0x65.
Definition OP_VERNOTIF : Z := 0x66.
Definition OP_ELSE : Z := 0x67.
Definition OP_ENDIF : Z := 0x68.
Definition OP_VERIFY : Z := 0x69.
Definition OP_RETURN : Z := 0x6a.
Definition OP_TOALTSTACK : Z := 0x6b.
Definition OP_FROMALTSTACK : Z := 0x6c.
Definition OP_2DROP : Z := 0x6d.
Definition OP_2DUP : Z := 0x6e.
Definition OP_3DUP : Z := 0x6f.
Definition OP_2OVER : Z := 0x70.
Definition OP_2ROT : Z := 0x71.
Definition OP_2SWAP : Z := 0x72.
Definition OP_IFDUP : Z := 0x73.
Definition OP_DEPTH : Z := 0x74.
Definition OP_DROP : Z := 0x75.
Definition OP_DUP : Z := 0x76.
Definition OP_NIP : Z := 0x77.
Definition OP_OVER : Z := 0x78.
Definition OP_PICK : Z := 0x79.
Definition OP_ROLL : Z := 0x7a.
Definition OP_ROT : Z := 0x7b.
Definition OP_SWAP : Z := 0x7c.
Definition OP_TUCK : Z := 0x7d.
Definition OP_CAT : Z := 0x7e.
Definition OP_SUBSTR : Z := 0x7f.
Definition OP_LEFT : Z := 0x80.
Definition OP_RIGHT : Z := 0x81.
Definition OP_SIZE : Z := 0x82.
Definition OP_INVERT : Z := 0x83.
Definition OP_AND : Z := 0x84.
Definition OP_OR : Z := 0x85.
Definition OP_XOR : Z := 0x86.
Definition OP_EQUALVERIFY : Z := 0x88.
Definition OP_RESERVED1 : Z := 0x89.
Definition OP_RESERVED2 : Z := 0x8a.
Definition OP_1ADD : Z := 0x8b.
Definition OP_1SUB : Z := 0x8c.
Definition OP_2MUL : Z := 0x8d.
Definition OP_2DIV : Z := 0x8e.
Definition OP_NEGATE : Z := 0x8f.
Definition OP_ABS : Z := 0x90.
Definition OP_NOT : Z := 0x91.
Definition OP_0NOTEQUAL : Z := 0x92.
Definition OP_ADD : Z := 0x93.
Definition OP_SUB : Z := 0x94.
Definition OP_MUL : Z := 0x95.
Definition OP_DIV : Z := 0x96.
Definition OP_MOD : Z := 0x97.
Definition OP_LSHIFT : Z := 0x98.
Definition OP_RSHIFT : Z := 0x99.
Definition OP_BOOLAND : Z := 0x9a.
Definition OP_BOOLOR : Z := 0x9b.
Definition OP_NUMEQUAL : Z := 0x9c.
Definition OP_NUMEQUALVERIFY : Z := 0x9d.
Definition OP_NUMNOTEQUAL : Z := 0x9e.
Definition OP_LESSTHAN : Z := 0x9f.
Definition OP_GREATERTHAN : Z := 0xa0.
Definition OP_LESSTHANOREQUAL : Z := 0xa1.
Definition OP_GREATERTHANOREQUAL : Z := 0xa2.
Definition OP_MIN : Z := 0xa3.
Definition OP_MAX : Z := 0xa4.
Definition OP_WITHIN : Z := 0xa5.
Definition OP_RIPEMD160 : Z := 0xa6.
Definition OP_SHA1 : Z := 0xa7.
Definition OP_SHA256 : Z := 0xa8.
Definition OP_HASH256 : Z := 0xaa.
Definition OP_CODESEPARATOR : Z := 0xab.
Definition OP_NOP1 : Z := 0xb0.
Definition OP_CHECKLOCKTIMEVERIFY : Z := 0xb1.
Definition OP_CHECKSEQUENCEVERIFY : Z := 0xb2.
Definition OP_NOP4 : Z := 0xb3.
Definition OP_NOP5 : Z := 0xb4.
Definition OP_NOP6 : Z := 0xb5.
Definition OP_NOP7 : Z := 0xb6.
Definition OP_NOP8 : Z := 0xb7.
Definition OP_NOP9 : Z := 0xb8.
Definition OP_NOP10 : Z := 0xb9.
Definition OP_CHECKSIGADD : Z := 0xba.

(** ** Encodings *)

Fixpoint CastToBool (vch : list Z) : bool :=
  match vch with
  | [] => false
  | b :: r => if negb (b =? 0) then negb ((length r =? 0)%nat && (b =? 0x80)) else CastToBool r
  end.

Definition COMPRESSED_SIZE : Z := 33.
Definition PUBKEY_SIZE : Z := 65.

Definition IsCompressedOrUncompressedPubKey (vchPubKey : list Z) : bool :=
  if length vchPubKey <? COMPRESSED_SIZE then false
  else if vchPubKey.[0] =? 0x04 then length vchPubKey =? PUBKEY_SIZE
  else if (vchPubKey.[0] =? 0x02) || (vchPubKey.[0] =? 0x03) then length vchPubKey =? COMPRESSED_SIZE
  else false.

Definition IsCompressedPubKey (vchPubKey : list Z) : bool :=
  if negb (length vchPubKey =? COMPRESSED_SIZE) then false
  else (vchPubKey.[0] =? 0x02) || (vchPubKey.[0] =? 0x03).

Definition IsValidSignatureEncoding (sig : list Z) : bool :=
  let size : Z := length sig in
  if size <? 9 then false
  else if 73 <? size then false
  else if negb (sig.[0] =? 0x30) then false
  else if negb (sig.[1] =? size - 3) then false
  else
    let lenR := sig.[3] in
    if size <=? 5 + lenR then false
    else
      let lenS := sig.[Z.to_nat (5 + lenR)] in
      if negb (lenR + lenS + 7 =? size) then false
      else if negb (sig.[2] =? 0x02) then false
      else if lenR =? 0 then false
      else if negb (Z.land sig.[4] 0x80 =? 0) then false
      else if (1 <? lenR) && (sig.[4] =? 0) && (Z.land sig.[5] 0x80 =? 0) then false
      else if negb (sig.[Z.to_nat (lenR + 4)] =? 0x02) then false
      else if lenS =? 0 then false
      else if negb (Z.land sig.[Z.to_nat (lenR + 6)] 0x80 =? 0) then false
      else if (1 <? lenS) && (sig.[Z.to_nat (lenR + 6)] =? 0) && (Z.land sig.[Z.to_nat (lenR + 7)] 0x80 =? 0) then false
      else true.

Definition IsDefinedHashtypeSignature (vchSig : list Z) : bool :=
  match last vchSig with
  | None => false
  | Some b =>
      let nHashType := Z.land b (u8 (Z.lnot SIGHASH_ANYONECANPAY)) in
      negb ((nHashType <? SIGHASH_ALL) || (SIGHASH_SINGLE <? nHashType))
  end.

(** [None] is a failed assertion. *)
Definition CheckMinimalPush (data : list Z) (opcode : Z) : option bool :=
  if negb ((0 <=? opcode) && (opcode <=? OP_PUSHDATA4)) then None
  else Some (
    if (length data =? 0)%nat then opcode =? OP_0
    else if (length data =? 1)%nat && (1 <=? data.[0]) && (data.[0] <=? 16) then false
    else if (length data =? 1)%nat && (data.[0] =? 0x81) then false
    else if length data <=? 75 then opcode =? length data
    else if length data <=? 255 then opcode =? OP_PUSHDATA1
    else if length data <=? 65535 then opcode =? OP_PUSHDATA2
    else true).

(** ** [FindAndDelete]

    [pc] and [pc2] are the rest of the script from the two iterators on. *)

Definition between (pc2 pc : list Z) : list Z := take (length pc2 - length pc) pc2.

Fixpoint skip_matches (fuel : nat) (b pc : list Z) (nFound : Z) : list Z * Z :=
  match fuel with
  | O => (pc, nFound)
  | S fuel' =>
      if (length b <=? length pc)%nat && bool_decide (take (length b) pc = b) then skip_matches fuel' b (drop (length b) pc) (nFound + 1)
      else (pc, nFound)
  end.

(** The result, the last [pc2] and the count. *)
Fixpoint delete_loop (fuel : nat) (b result pc2 pc : list Z) (nFound : Z) : list Z * list Z * Z :=
  let result := result ++ between pc2 pc in
  let '(pc, nFound) := skip_matches (length pc) b pc nFound in
  match fuel with
  | O => (result, pc, nFound)
  | S fuel' =>
      match GetScriptOp pc with
      | Some (_, _, pc') => delete_loop fuel' b result pc pc' nFound
      | None => (result, pc, nFound)
      end
  end.

(** The count and the script. *)
Definition FindAndDelete (script b : list Z) : Z * list Z :=
  match b with
  | [] => (0, script)
  | _ =>
      let '(result, pc2, nFound) := delete_loop (length script) b [] script script 0 in
      if 0 <? nFound then (nFound, result ++ pc2) else (nFound, script)
  end.

(** ** [ConditionStack] *)

Definition NO_FALSE : Z := 2 ^ 32 - 1.
Record ConditionStack := mkCond { m_stack_size : Z; m_first_false_pos : Z }.
Definition ConditionStack_init : ConditionStack := mkCond 0 NO_FALSE.
Definition empty (c : ConditionStack) : bool := m_stack_size c =? 0.
Definition all_true (c : ConditionStack) : bool := m_first_false_pos c =? NO_FALSE.
Definition push_back (c : ConditionStack) (f : bool) : ConditionStack :=
  mkCond (u32 (m_stack_size c + 1))
    (if (m_first_false_pos c =? NO_FALSE) && negb f then m_stack_size c else m_first_false_pos c).
Definition pop_back (c : ConditionStack) : option ConditionStack :=
  if negb (0 <? m_stack_size c) then None
  else
    let size := u32 (m_stack_size c - 1) in
    Some (mkCond size (if m_first_false_pos c =? size then NO_FALSE else m_first_false_pos c)).
Definition toggle_top (c : ConditionStack) : option ConditionStack :=
  if negb (0 <? m_stack_size c) then None
  else Some (
    if m_first_false_pos c =? NO_FALSE then mkCond (m_stack_size c) (u32 (m_stack_size c - 1))
    else if m_first_false_pos c =? u32 (m_stack_size c - 1) then mkCond (m_stack_size c) NO_FALSE
    else c).

(** ** Signature checkers *)

Inductive SigVersion := BASE | WITNESS_V0 | TAPROOT | TAPSCRIPT.
#[global] Instance SigVersion_eq_dec : EqDecision SigVersion.
Proof. solve_decision. Defined.

(** An optional field is one with a flag that says whether it is initialized. *)
Record ScriptExecutionData := mkExec {
  m_tapleaf_hash : option (list Z);
  m_codeseparator_pos : option Z;
  m_annex : option (option (list Z));
  m_validation_weight_left : option Z;
  m_output_hash : option (list Z)
}.
Definition ScriptExecutionData_init : ScriptExecutionData := mkExec None None None None None.
Definition set_codeseparator_pos (d : ScriptExecutionData) (pos : Z) : ScriptExecutionData :=
  mkExec (m_tapleaf_hash d) (Some pos) (m_annex d) (m_validation_weight_left d) (m_output_hash d).
Definition set_weight_left (d : ScriptExecutionData) (w : Z) : ScriptExecutionData :=
  mkExec (m_tapleaf_hash d) (m_codeseparator_pos d) (m_annex d) (Some w) (m_output_hash d).

(** [None] and [Abort] are failed assertions. *)
Class BaseSignatureChecker := {
  CheckECDSASignature : list Z -> list Z -> list Z -> SigVersion -> option bool;
  CheckSchnorrSignature : list Z -> list Z -> SigVersion -> ScriptExecutionData -> outcome ScriptExecutionData;
  CheckLockTime : Z -> option bool;
  CheckSequence : Z -> option bool
}.

(** The base class accepts nothing. *)
Definition base_checker : BaseSignatureChecker := {|
  CheckECDSASignature _ _ _ _ := Some false;
  CheckSchnorrSignature _ _ _ _ := Fail None;
  CheckLockTime _ := Some false;
  CheckSequence _ := Some false
|}.

Section Eval.
(** [CPubKey::CheckLowS] asks the elliptic curve library; [junk] is what the
    buffers of new hashers hold. *)
Context {checker : BaseSignatureChecker} (CheckLowS : list Z -> bool) (junk : list Z) (flags : Z) (sigversion : SigVersion).

Definition IsLowDERSignature (vchSig : list Z) : outcome () :=
  _ ← require (IsValidSignatureEncoding vchSig) SCRIPT_ERR_SIG_DER;
  require (CheckLowS (removelast vchSig)) SCRIPT_ERR_SIG_HIGH_S.

Definition CheckSignatureEncoding (vchSig : list Z) : outcome () :=
  if (length vchSig =? 0)%nat then Ok ()
  else if has_flag flags (Z.lor (Z.lor SCRIPT_VERIFY_DERSIG SCRIPT_VERIFY_LOW_S) SCRIPT_VERIFY_STRICTENC) && negb (IsValidSignatureEncoding vchSig) then
    set_error SCRIPT_ERR_SIG_DER
  else
    _ ← (if has_flag flags SCRIPT_VERIFY_LOW_S then IsLowDERSignature vchSig else Ok ());
    if has_flag flags SCRIPT_VERIFY_STRICTENC && negb (IsDefinedHashtypeSignature vchSig) then set_error SCRIPT_ERR_SIG_HASHTYPE
    else Ok ().

Definition CheckPubKeyEncoding (vchPubKey : list Z) : outcome () :=
  if has_flag flags SCRIPT_VERIFY_STRICTENC && negb (IsCompressedOrUncompressedPubKey vchPubKey) then set_error SCRIPT_ERR_PUBKEYTYPE
  else if has_flag flags SCRIPT_VERIFY_WITNESS_PUBKEYTYPE && bool_decide (sigversion = WITNESS_V0) && negb (IsCompressedPubKey vchPubKey) then
    set_error SCRIPT_ERR_WITNESS_PUBKEYTYPE
  else Ok ().

(** Removing a signature from the code it signs. *)
Definition drop_signature (scriptCode vchSig : list Z) : outcome (list Z) :=
  if bool_decide (sigversion = BASE) then
    let '(found, scriptCode) := FindAndDelete scriptCode (push_data vchSig) in
    if (0 <? found) && has_flag flags SCRIPT_VERIFY_CONST_SCRIPTCODE then set_error SCRIPT_ERR_SIG_FINDANDDELETE else Ok scriptCode
  else Ok scriptCode.

Definition EvalChecksigPreTapscript (vchSig vchPubKey codehash : list Z) : outcome bool :=
  scriptCode ← drop_signature codehash vchSig;
  _ ← CheckSignatureEncoding vchSig;
  _ ← CheckPubKeyEncoding vchPubKey;
  fSuccess ← assert_some (CheckECDSASignature vchSig vchPubKey scriptCode sigversion);
  if negb fSuccess && has_flag flags SCRIPT_VERIFY_NULLFAIL && negb (length vchSig =? 0)%nat then set_error SCRIPT_ERR_SIG_NULLFAIL
  else Ok fSuccess.

Definition EvalChecksigTapscript (sig pubkey : list Z) (execdata : ScriptExecutionData) : outcome (bool * ScriptExecutionData) :=
  let success := negb (length sig =? 0)%nat in
  execdata ← (if success then
                w ← assert_some (m_validation_weight_left execdata);
                let w := i64 (w - VALIDATION_WEIGHT_PER_SIGOP_PASSED) in
                if w <? 0 then set_error SCRIPT_ERR_TAPSCRIPT_VALIDATION_WEIGHT else Ok (set_weight_left execdata w)
              else Ok execdata);
  if (length pubkey =? 0)%nat then set_error SCRIPT_ERR_PUBKEYTYPE
  else if (length pubkey =? 32)%nat then
    execdata ← (if success then CheckSchnorrSignature sig pubkey sigversion execdata else Ok execdata);
    Ok (success, execdata)
  else if has_flag flags SCRIPT_VERIFY_DISCOURAGE_UPGRADABLE_PUBKEYTYPE then set_error SCRIPT_ERR_DISCOURAGE_UPGRADABLE_PUBKEYTYPE
  else Ok (success, execdata).

Definition EvalChecksig (sig pubkey codehash : list Z) (execdata : ScriptExecutionData) : outcome (bool * ScriptExecutionData) :=
  match sigversion with
  | BASE | WITNESS_V0 => success ← EvalChecksigPreTapscript sig pubkey codehash; Ok (success, execdata)
  | TAPSCRIPT => EvalChecksigTapscript sig pubkey execdata
  | TAPROOT => Abort
  end.

(** ** The state of the interpreter

    [pc] and [pbegincodehash] are the rest of the script from there on.  The
    operation count stays below 222 and is not given a width. *)

Record eval_state := mkEval {
  stack : list (list Z);
  altstack : list (list Z);
  pc : list Z;
  pbegincodehash : list Z;
  vfExec : ConditionStack;
  nOpCount : Z;
  opcode_pos : Z;
  execdata : ScriptExecutionData
}.
Definition with_stack (st : eval_state) (s : list (list Z)) : eval_state :=
  mkEval s (altstack st) (pc st) (pbegincodehash st) (vfExec st) (nOpCount st) (opcode_pos st) (execdata st).
Definition with_stacks (st : eval_state) (s alt : list (list Z)) : eval_state :=
  mkEval s alt (pc st) (pbegincodehash st) (vfExec st) (nOpCount st) (opcode_pos st) (execdata st).
Definition with_cond (st : eval_state) (c : ConditionStack) : eval_state :=
  mkEval (stack st) (altstack st) (pc st) (pbegincodehash st) c (nOpCount st) (opcode_pos st) (execdata st).
Definition with_pc (st : eval_state) (rest : list Z) : eval_state :=
  mkEval (stack st) (altstack st) rest (pbegincodehash st) (vfExec st) (nOpCount st) (opcode_pos st) (execdata st).
Definition with_count (st : eval_state) (n : Z) : eval_state :=
  mkEval (stack st) (altstack st) (pc st) (pbegincodehash st) (vfExec st) n (opcode_pos st) (execdata st).
Definition with_exec (st : eval_state) (d : ScriptExecutionData) : eval_state :=
  mkEval (stack st) (altstack st) (pc st) (pbegincodehash st) (vfExec st) (nOpCount st) (opcode_pos st) d.
Definition with_codehash (st : eval_state) (code : list Z) : eval_state :=
  mkEval (stack st) (altstack st) (pc st) code (vfExec st) (nOpCount st) (opcode_pos st) (execdata st).
Definition next_pos (st : eval_state) : eval_state :=
  mkEval (stack st) (altstack st) (pc st) (pbegincodehash st) (vfExec st) (nOpCount st) (u32 (opcode_pos st + 1)) (execdata st).

Definition fRequireMinimal : bool := has_flag flags SCRIPT_VERIFY_MINIMALDATA.
Definition vchFalse : list Z := [].
Definition vchTrue : list Z := [1].
Definition of_bool (b : bool) : list Z := if b then vchTrue else vchFalse.

Definition nDefaultMaxNumSize : Z := 4.
Definition number (vch : list Z) : outcome Z := catch (CScriptNum vch fRequireMinimal nDefaultMaxNumSize).
Definition bad_stack {A} : outcome A := set_error SCRIPT_ERR_INVALID_STACK_OPERATION.

(** ** Control *)

Definition op_checklocktimeverify (st : eval_state) : outcome eval_state :=
  if negb (has_flag flags SCRIPT_VERIFY_CHECKLOCKTIMEVERIFY) then Ok st
  else
    match stack st with
    | [] => bad_stack
    | x :: _ =>
        nLockTime ← catch (CScriptNum x fRequireMinimal 5);
        if nLockTime <? 0 then set_error SCRIPT_ERR_NEGATIVE_LOCKTIME
        else
          ok ← assert_some (CheckLockTime nLockTime);
          if negb ok then set_error SCRIPT_ERR_UNSATISFIED_LOCKTIME else Ok st
    end.

Definition op_checksequenceverify (st : eval_state) : outcome eval_state :=
  if negb (has_flag flags SCRIPT_VERIFY_CHECKSEQUENCEVERIFY) then Ok st
  else
    match stack st with
    | [] => bad_stack
    | x :: _ =>
        nSequence ← catch (CScriptNum x fRequireMinimal 5);
        if nSequence <? 0 then set_error SCRIPT_ERR_NEGATIVE_LOCKTIME
        else if negb (Z.land nSequence Locks.SEQUENCE_LOCKTIME_DISABLE_FLAG =? 0) then Ok st
        else
          ok ← assert_some (CheckSequence nSequence);
          if negb ok then set_error SCRIPT_ERR_UNSATISFIED_LOCKTIME else Ok st
    end.

(** The argument of a condition. *)
Definition check_minimal_if (vch : list Z) : outcome () :=
  let bad := (1 <? length vch) || ((length vch =? 1)%nat && negb (vch.[0] =? 1)) in
  if bool_decide (sigversion = TAPSCRIPT) && bad then set_error SCRIPT_ERR_TAPSCRIPT_MINIMALIF
  else if bool_decide (sigversion = WITNESS_V0) && has_flag flags SCRIPT_VERIFY_MINIMALIF && bad then set_error SCRIPT_ERR_MINIMALIF
  else Ok ().

Definition op_if (opcode : Z) (fExec : bool) (st : eval_state) : outcome eval_state :=
  if fExec then
    match stack st with
    | [] => set_error SCRIPT_ERR_UNBALANCED_CONDITIONAL
    | vch :: s =>
        _ ← check_minimal_if vch;
        let fValue := CastToBool vch in
        let fValue := if opcode =? OP_NOTIF then negb fValue else fValue in
        Ok (with_cond (with_stack st s) (push_back (vfExec st) fValue))
    end
  else Ok (with_cond st (push_back (vfExec st) false)).

Definition op_else (st : eval_state) : outcome eval_state :=
  if empty (vfExec st) then set_error SCRIPT_ERR_UNBALANCED_CONDITIONAL
  else c ← assert_some (toggle_top (vfExec st)); Ok (with_cond st c).

Definition op_endif (st : eval_state) : outcome eval_state :=
  if empty (vfExec st) then set_error SCRIPT_ERR_UNBALANCED_CONDITIONAL
  else c ← assert_some (pop_back (vfExec st)); Ok (with_cond st c).

Definition op_verify (st : eval_state) : outcome eval_state :=
  match stack st with
  | [] => bad_stack
  | x :: s => if CastToBool x then Ok (with_stack st s) else set_error SCRIPT_ERR_VERIFY
  end.

(** ** Stack operations *)

(** [stacktop(-n-1)], and the stack without it. *)
Definition op_pick (roll : bool) (s : list (list Z)) : outcome (list (list Z)) :=
  match s with
  | x :: ((_ :: _) as s) =>
      n ← number x;
      let n := getint n in
      if (n <? 0) || (i32 (length s) <=? n) then bad_stack
      else
        vch ← assert_some (s !! Z.to_nat n);
        Ok (vch :: (if roll then delete (Z.to_nat n) s else s))
  | _ => bad_stack
  end.

Definition stack_op (opcode : Z) (s : list (list Z)) : outcome (list (list Z)) :=
  if opcode =? OP_2DROP then match s with _ :: _ :: s => Ok s | _ => bad_stack end
  else if opcode =? OP_2DUP then match s with x2 :: x1 :: _ => Ok (x2 :: x1 :: s) | _ => bad_stack end
  else if opcode =? OP_3DUP then match s with x3 :: x2 :: x1 :: _ => Ok (x3 :: x2 :: x1 :: s) | _ => bad_stack end
  else if opcode =? OP_2OVER then match s with _ :: _ :: x2 :: x1 :: _ => Ok (x2 :: x1 :: s) | _ => bad_stack end
  else if opcode =? OP_2ROT then
    match s with x6 :: x5 :: x4 :: x3 :: x2 :: x1 :: s => Ok (x2 :: x1 :: x6 :: x5 :: x4 :: x3 :: s) | _ => bad_stack end
  else if opcode =? OP_2SWAP then match s with x4 :: x3 :: x2 :: x1 :: s => Ok (x2 :: x1 :: x4 :: x3 :: s) | _ => bad_stack end
  else if opcode =? OP_IFDUP then match s with x :: _ => Ok (if CastToBool x then x :: s else s) | _ => bad_stack end
  else if opcode =? OP_DEPTH then Ok (serialize (length s) :: s)
  else if opcode =? OP_DROP then match s with _ :: s => Ok s | _ => bad_stack end
  else if opcode =? OP_DUP then match s with x :: _ => Ok (x :: s) | _ => bad_stack end
  else if opcode =? OP_NIP then match s with x2 :: _ :: s => Ok (x2 :: s) | _ => bad_stack end
  else if opcode =? OP_OVER then match s with _ :: x1 :: _ => Ok (x1 :: s) | _ => bad_stack end
  else if opcode =? OP_PICK then op_pick false s
  else if opcode =? OP_ROLL then op_pick true s
  else if opcode =? OP_ROT then match s with x3 :: x2 :: x1 :: s => Ok (x1 :: x3 :: x2 :: s) | _ => bad_stack end
  else if opcode =? OP_SWAP then match s with x2 :: x1 :: s => Ok (x1 :: x2 :: s) | _ => bad_stack end
  else if opcode =? OP_TUCK then match s with x2 :: x1 :: s => Ok (x2 :: x1 :: x2 :: s) | _ => bad_stack end
  else match s with x :: _ => Ok (serialize (length x) :: s) | _ => bad_stack end.

(** ** Comparison, arithmetic and hashing *)

Definition op_equal (verify : bool) (s : list (list Z)) : outcome (list (list Z)) :=
  match s with
  | x2 :: x1 :: s =>
      let fEqual := bool_decide (x1 = x2) in
      if verify then if fEqual then Ok s else set_error SCRIPT_ERR_EQUALVERIFY
      else Ok (of_bool fEqual :: s)
  | _ => bad_stack
  end.

Definition num_of_bool (b : bool) : Z := if b then 1 else 0.

(** [None] is a failed assertion. *)
Definition unary (opcode bn : Z) : option Z :=
  if opcode =? OP_1ADD then add_num bn 1
  else if opcode =? OP_1SUB then sub_num bn 1
  else if opcode =? OP_NEGATE then neg_num bn
  else if opcode =? OP_ABS then if bn <? 0 then neg_num bn else Some bn
  else if opcode =? OP_NOT then Some (num_of_bool (bn =? 0))
  else if opcode =? OP_0NOTEQUAL then Some (num_of_bool (negb (bn =? 0)))
  else None.

Definition op_unary (opcode : Z) (s : list (list Z)) : outcome (list (list Z)) :=
  match s with
  | x :: s => bn ← number x; bn ← assert_some (unary opcode bn); Ok (serialize bn :: s)
  | _ => bad_stack
  end.

Definition binary (opcode bn1 bn2 : Z) : option Z :=
  if opcode =? OP_ADD then add_num bn1 bn2
  else if opcode =? OP_SUB then sub_num bn1 bn2
  else if opcode =? OP_BOOLAND then Some (num_of_bool (negb (bn1 =? 0) && negb (bn2 =? 0)))
  else if opcode =? OP_BOOLOR then Some (num_of_bool (negb (bn1 =? 0) || negb (bn2 =? 0)))
  else if opcode =? OP_NUMEQUAL then Some (num_of_bool (bn1 =? bn2))
  else if opcode =? OP_NUMEQUALVERIFY then Some (num_of_bool (bn1 =? bn2))
  else if opcode =? OP_NUMNOTEQUAL then Some (num_of_bool (negb (bn1 =? bn2)))
  else if opcode =? OP_LESSTHAN then Some (num_of_bool (bn1 <? bn2))
  else if opcode =? OP_GREATERTHAN then Some (num_of_bool (bn2 <? bn1))
  else if opcode =? OP_LESSTHANOREQUAL then Some (num_of_bool (bn1 <=? bn2))
  else if opcode =? OP_GREATERTHANOREQUAL then Some (num_of_bool (bn2 <=? bn1))
  else if opcode =? OP_MIN then Some (if bn1 <? bn2 then bn1 else bn2)
  else if opcode =? OP_MAX then Some (if bn2 <? bn1 then bn1 else bn2)
  else None.

Definition op_binary (opcode : Z) (s : list (list Z)) : outcome (list (list Z)) :=
  match s with
  | x2 :: x1 :: s =>
      bn1 ← number x1;
      bn2 ← number x2;
      bn ← assert_some (binary opcode bn1 bn2);
      if opcode =? OP_NUMEQUALVERIFY then if CastToBool (serialize bn) then Ok s else set_error SCRIPT_ERR_NUMEQUALVERIFY
      else Ok (serialize bn :: s)
  | _ => bad_stack
  end.

Definition op_within (s : list (list Z)) : outcome (list (list Z)) :=
  match s with
  | x3 :: x2 :: x1 :: s =>
      bn1 ← number x1;
      bn2 ← number x2;
      bn3 ← number x3;
      Ok (of_bool ((bn2 <=? bn1) && (bn1 <? bn3)) :: s)
  | _ => bad_stack
  end.

Definition digest (opcode : Z) (vch : list Z) : option (list Z) :=
  if opcode =? OP_RIPEMD160 then Some (Ripemd160.Finalize (Ripemd160.Write (Ripemd160.CRIPEMD160_init junk) vch) (replicate 20 0)).2
  else if opcode =? OP_SHA1 then Some (Sha1.Finalize (Sha1.Write (Sha1.CSHA1_init junk) vch) (replicate 20 0)).2
  else if opcode =? OP_SHA256 then Some (Sha256.Finalize (Sha256.Write (Sha256.CSHA256_init junk) vch) (replicate 32 0)).2
  else if opcode =? OP_HASH160 then Hash.CHash160_Finalize junk (Hash.CHash256_Write (Sha256.CSHA256_init junk) vch) (replicate 20 0)
  else Hash.CHash256_Finalize (Hash.CHash256_Write (Sha256.CSHA256_init junk) vch) (replicate 32 0).

Definition op_hash (opcode : Z) (s : list (list Z)) : outcome (list (list Z)) :=
  match s with
  | x :: s => vchHash ← assert_some (digest opcode x); Ok (vchHash :: s)
  | _ => bad_stack
  end.

(** ** Signatures *)

Definition op_checksig (verify : bool) (st : eval_state) : outcome eval_state :=
  match stack st with
  | vchPubKey :: vchSig :: s =>
      '(fSuccess, d) ← EvalChecksig vchSig vchPubKey (pbegincodehash st) (execdata st);
      let st := with_exec st d in
      if verify then if (fSuccess : bool) then Ok (with_stack st s) else set_error SCRIPT_ERR_CHECKSIGVERIFY
      else Ok (with_stack st (of_bool fSuccess :: s))
  | _ => bad_stack
  end.

Definition op_checksigadd (st : eval_state) : outcome eval_state :=
  if bool_decide (sigversion = BASE \/ sigversion = WITNESS_V0) then set_error SCRIPT_ERR_BAD_OPCODE
  else
    match stack st with
    | pubkey :: n :: sig :: s =>
        num ← number n;
        '(success, d) ← EvalChecksig sig pubkey (pbegincodehash st) (execdata st);
        r ← assert_some (add_num num (num_of_bool success));
        Ok (with_stack (with_exec st d) (serialize r :: s))
    | _ => bad_stack
    end.

Fixpoint drop_signatures (scriptCode : list Z) (sigs : list (list Z)) : outcome (list Z) :=
  match sigs with
  | [] => Ok scriptCode
  | sig :: r => scriptCode ← drop_signature scriptCode sig; drop_signatures scriptCode r
  end.

(** Signatures and keys, the top ones first.  There are never more signatures
    than keys left, so the last branch is not taken. *)
Fixpoint multisig_loop (scriptCode : list Z) (keys sigs : list (list Z)) : outcome bool :=
  match sigs with
  | [] => Ok true
  | vchSig :: sigs' =>
      match keys with
      | vchPubKey :: keys' =>
          _ ← CheckSignatureEncoding vchSig;
          _ ← CheckPubKeyEncoding vchPubKey;
          fOk ← assert_some (CheckECDSASignature vchSig vchPubKey scriptCode sigversion);
          let left := if (fOk : bool) then sigs' else sigs in
          if (length keys' <? length left)%nat then Ok false else multisig_loop scriptCode keys' left
      | [] => Abort
      end
  end.

(** Removing the arguments; [ikey2] counts those that are not signatures. *)
Fixpoint cleanup (n ikey2 : nat) (fSuccess : bool) (s : list (list Z)) : outcome (list (list Z)) :=
  match n with
  | O => Ok s
  | S n' =>
      match s with
      | [] => set_error SCRIPT_ERR_UNKNOWN_ERROR
      | x :: s =>
          if negb fSuccess && has_flag flags SCRIPT_VERIFY_NULLFAIL && (ikey2 =? 0)%nat && negb (length x =? 0)%nat then
            set_error SCRIPT_ERR_SIG_NULLFAIL
          else cleanup n' (pred ikey2) fSuccess s
      end
  end.

Definition op_checkmultisig (verify : bool) (st : eval_state) : outcome eval_state :=
  if bool_decide (sigversion = TAPSCRIPT) then set_error SCRIPT_ERR_TAPSCRIPT_CHECKMULTISIG
  else
    let s := stack st in
    if (length s <? 1)%nat then bad_stack
    else
      nKeysCount ← number (default [] (s !! 0%nat));
      let nKeysCount := getint nKeysCount in
      if (nKeysCount <? 0) || (MAX_PUBKEYS_PER_MULTISIG <? nKeysCount) then set_error SCRIPT_ERR_PUBKEY_COUNT
      else
        let st := with_count st (nOpCount st + nKeysCount) in
        if MAX_OPS_PER_SCRIPT <? nOpCount st then set_error SCRIPT_ERR_OP_COUNT
        else if length s <? 2 + nKeysCount then bad_stack
        else
          let nK := Z.to_nat nKeysCount in
          nSigsCount ← number (default [] (s !! (nK + 1)%nat));
          let nSigsCount := getint nSigsCount in
          if (nSigsCount <? 0) || (nKeysCount <? nSigsCount) then set_error SCRIPT_ERR_SIG_COUNT
          else if length s <? 3 + nKeysCount + nSigsCount then bad_stack
          else
            let nS := Z.to_nat nSigsCount in
            let keys := take nK (drop 1 s) in
            let sigs := take nS (drop (nK + 2) s) in
            scriptCode ← drop_signatures (pbegincodehash st) sigs;
            fSuccess ← multisig_loop scriptCode keys sigs;
            s ← cleanup (nK + nS + 2) (nK + 2) fSuccess s;
            match (s : list (list Z)) with
            | [] => bad_stack
            | dummy :: s =>
                if has_flag flags SCRIPT_VERIFY_NULLDUMMY && negb (length dummy =? 0)%nat then set_error SCRIPT_ERR_SIG_NULLDUMMY
                else if verify then if (fSuccess : bool) then Ok (with_stack st s) else set_error SCRIPT_ERR_CHECKMULTISIGVERIFY
                else Ok (with_stack st (of_bool fSuccess :: s))
            end.

(** ** Evaluation *)

Definition is_disabled (opcode : Z) : bool :=
  bool_decide (opcode ∈ [OP_CAT; OP_SUBSTR; OP_LEFT; OP_RIGHT; OP_INVERT; OP_AND; OP_OR; OP_XOR; OP_2MUL; OP_2DIV; OP_MUL; OP_DIV; OP_MOD;
                         OP_LSHIFT; OP_RSHIFT]).

Definition is_stack_op (opcode : Z) : bool := ((OP_2DROP <=? opcode) && (opcode <=? OP_TUCK)) || (opcode =? OP_SIZE).
Definition is_unary (opcode : Z) : bool := bool_decide (opcode ∈ [OP_1ADD; OP_1SUB; OP_NEGATE; OP_ABS; OP_NOT; OP_0NOTEQUAL]).
Definition is_binary (opcode : Z) : bool :=
  bool_decide (opcode ∈ [OP_ADD; OP_SUB; OP_BOOLAND; OP_BOOLOR; OP_NUMEQUAL; OP_NUMEQUALVERIFY; OP_NUMNOTEQUAL; OP_LESSTHAN; OP_GREATERTHAN;
                         OP_LESSTHANOREQUAL; OP_GREATERTHANOREQUAL; OP_MIN; OP_MAX]).
Definition is_nop (opcode : Z) : bool :=
  bool_decide (opcode ∈ [OP_NOP1; OP_NOP4; OP_NOP5; OP_NOP6; OP_NOP7; OP_NOP8; OP_NOP9; OP_NOP10]).

Definition on_stack (st : eval_state) (r : outcome (list (list Z))) : outcome eval_state := s ← r; Ok (with_stack st s).

(** The operations that are not pushes of data. *)
Definition exec_op (opcode : Z) (fExec : bool) (st : eval_state) : outcome eval_state :=
  if (opcode =? OP_1NEGATE) || ((OP_1 <=? opcode) && (opcode <=? OP_16)) then
    Ok (with_stack st (serialize (opcode - (OP_1 - 1)) :: stack st))
  else if opcode =? OP_NOP then Ok st
  else if opcode =? OP_CHECKLOCKTIMEVERIFY then op_checklocktimeverify st
  else if opcode =? OP_CHECKSEQUENCEVERIFY then op_checksequenceverify st
  else if is_nop opcode then
    if has_flag flags SCRIPT_VERIFY_DISCOURAGE_UPGRADABLE_NOPS then set_error SCRIPT_ERR_DISCOURAGE_UPGRADABLE_NOPS else Ok st
  else if (opcode =? OP_IF) || (opcode =? OP_NOTIF) then op_if opcode fExec st
  else if opcode =? OP_ELSE then op_else st
  else if opcode =? OP_ENDIF then op_endif st
  else if opcode =? OP_VERIFY then op_verify st
  else if opcode =? OP_RETURN then set_error SCRIPT_ERR_OP_RETURN
  else if opcode =? OP_TOALTSTACK then
    match stack st with x :: s => Ok (with_stacks st s (x :: altstack st)) | [] => bad_stack end
  else if opcode =? OP_FROMALTSTACK then
    match altstack st with x :: a => Ok (with_stacks st (x :: stack st) a) | [] => set_error SCRIPT_ERR_INVALID_ALTSTACK_OPERATION end
  else if is_stack_op opcode then on_stack st (stack_op opcode (stack st))
  else if (opcode =? OP_EQUAL) || (opcode =? OP_EQUALVERIFY) then on_stack st (op_equal (opcode =? OP_EQUALVERIFY) (stack st))
  else if is_unary opcode then on_stack st (op_unary opcode (stack st))
  else if is_binary opcode then on_stack st (op_binary opcode (stack st))
  else if opcode =? OP_WITHIN then on_stack st (op_within (stack st))
  else if (OP_RIPEMD160 <=? opcode) && (opcode <=? OP_HASH256) then on_stack st (op_hash opcode (stack st))
  else if opcode =? OP_CODESEPARATOR then
    Ok (with_exec (with_codehash st (pc st)) (set_codeseparator_pos (execdata st) (opcode_pos st)))
  else if (opcode =? OP_CHECKSIG) || (opcode =? OP_CHECKSIGVERIFY) then op_checksig (opcode =? OP_CHECKSIGVERIFY) st
  else if opcode =? OP_CHECKSIGADD then op_checksigadd st
  else if (opcode =? OP_CHECKMULTISIG) || (opcode =? OP_CHECKMULTISIGVERIFY) then op_checkmultisig (opcode =? OP_CHECKMULTISIGVERIFY) st
  else set_error SCRIPT_ERR_BAD_OPCODE.

Definition pre_tapscript : bool := bool_decide (sigversion = BASE \/ sigversion = WITNESS_V0).

(** What is checked of every operation, executed or not: the count. *)
Definition check_op (opcode : Z) (vchPushValue : list Z) (st : eval_state) : outcome eval_state :=
  _ ← require (length vchPushValue <=? MAX_SCRIPT_ELEMENT_SIZE) SCRIPT_ERR_PUSH_SIZE;
  let st := if pre_tapscript && (OP_16 <? opcode) then with_count st (nOpCount st + 1) else st in
  _ ← require (negb (pre_tapscript && (OP_16 <? opcode) && (MAX_OPS_PER_SCRIPT <? nOpCount st))) SCRIPT_ERR_OP_COUNT;
  _ ← require (negb (is_disabled opcode)) SCRIPT_ERR_DISABLED_OPCODE;
  _ ← require (negb ((opcode =? OP_CODESEPARATOR) && bool_decide (sigversion = BASE) && has_flag flags SCRIPT_VERIFY_CONST_SCRIPTCODE))
        SCRIPT_ERR_OP_CODESEPARATOR;
  Ok st.

(** One operation. *)
Definition step (st : eval_state) : outcome eval_state :=
  let fExec := all_true (vfExec st) in
  match GetScriptOp (pc st) with
  | None => set_error SCRIPT_ERR_BAD_OPCODE
  | Some (opcode, vchPushValue, rest) =>
      st ← check_op opcode vchPushValue (with_pc st rest);
      st ← (if fExec && (opcode <=? OP_PUSHDATA4) then
              minimal ← ((if fRequireMinimal then assert_some (CheckMinimalPush vchPushValue opcode) else Ok true) : outcome bool);
              _ ← require minimal SCRIPT_ERR_MINIMALDATA;
              Ok (with_stack st (vchPushValue :: stack st))
            else if fExec || ((OP_IF <=? opcode) && (opcode <=? OP_ENDIF)) then exec_op opcode fExec st
            else Ok st);
      _ ← require (length (stack st) + length (altstack st) <=? MAX_STACK_SIZE) SCRIPT_ERR_STACK_SIZE;
      Ok (next_pos st)
  end.

(** Each operation takes at least a byte of the script. *)
Fixpoint run (fuel : nat) (st : eval_state) : outcome eval_state :=
  match pc st with
  | [] => Ok st
  | _ => match fuel with O => Abort | S fuel' => st ← step st; run fuel' st end
  end.

Definition start (s : list (list Z)) (script : list Z) (d : ScriptExecutionData) : eval_state :=
  mkEval s [] script script ConditionStack_init 0 0 (set_codeseparator_pos d 0xFFFFFFFF).

(** The stack and the execution data.  A failure that sets no error leaves the
    one set at the beginning. *)
Definition EvalScript (s : list (list Z)) (script : list Z) (d : ScriptExecutionData) : outcome (list (list Z) * ScriptExecutionData) :=
  if bool_decide (sigversion = TAPROOT) then Abort
  else if pre_tapscript && (MAX_SCRIPT_SIZE <? length script) then set_error SCRIPT_ERR_SCRIPT_SIZE
  else
    match run (length script) (start s script d) with
    | Abort => Abort
    | Fail e => set_error (default SCRIPT_ERR_UNKNOWN_ERROR e)
    | Ok st => if negb (empty (vfExec st)) then set_error SCRIPT_ERR_UNBALANCED_CONDITIONAL else Ok (stack st, execdata st)
    end.

End Eval.

End Interp.
