(* ===== verification/InterpTheory.v ===== *)
(** * What the script interpreter guarantees

    Evaluation ends and fails no assertion, stays within its limits, and only
    depends on the verification flags in that more flags accept less. *)
From stdpp Require Import prelude.
From S2P Require Import Prelude Serialize Uint256 HashStream Fips180 Sha2Theory Sha256 Sha256Theory Sha1 Ripemd160 Hash Script SigOps Locks Interp.

Module InterpTheory.
Import Script Interp.

(** ** Outcomes without failed assertions *)

Definition safe {A} (P : A -> Prop) (r : outcome A) : Prop := match r with Ok x => P x | Fail _ => True | Abort => False end.

Lemma safe_bind {A B} (P : A -> Prop) (Q : B -> Prop) (r : outcome A) (k : A -> outcome B) :
  safe P r -> (forall x, P x -> safe Q (k x)) -> safe Q (r ≫= k).
Proof. destruct r; cbn; auto. Qed.

Lemma safe_ok {A} (P : A -> Prop) x : P x -> safe P (Ok x).
Proof. done. Qed.
Lemma safe_error {A} (P : A -> Prop) e : safe P (set_error e).
Proof. done. Qed.
Lemma safe_weaken {A} (P Q : A -> Prop) r : safe P r -> (forall x, P x -> Q x) -> safe Q r.
Proof. destruct r; cbn; auto. Qed.
Lemma safe_require (Q : () -> Prop) b e : (b = true -> Q ()) -> safe Q (require b e).
Proof. destruct b; cbn; auto. Qed.
Lemma safe_guard {A} (Q : A -> Prop) b e (k : () -> outcome A) : (b = true -> safe Q (k ())) -> safe Q (require b e ≫= k).
Proof. destruct b; cbn; auto. Qed.
Lemma safe_assert {A} (P : A -> Prop) x : (exists y, x = Some y /\ P y) -> safe P (assert_some x).
Proof. by intros (y & -> & Hy). Qed.

Create HintDb safe discriminated.
#[export] Hint Resolve safe_ok safe_error : safe.

(** ** Items *)

Definition item_ok (x : list Z) : Prop := digits 8 x /\ length x <= MAX_SCRIPT_ELEMENT_SIZE.
Abbreviation items_ok := (Forall item_ok).

Lemma item_small x (n : nat) : digits 8 x -> (length x <= n)%nat -> n <= 520 -> item_ok x.
Proof. intros Hd Hl Hn. split; [done|]. unfold MAX_SCRIPT_ELEMENT_SIZE. lia. Qed.

Lemma item_false : item_ok vchFalse.
Proof. apply (item_small _ 0); [constructor|done|lia]. Qed.
Lemma item_bool b : item_ok (of_bool b).
Proof. destruct b; [|apply item_false]. apply (item_small _ 1); [|done|lia]. constructor; [unfold in_u; lia|constructor]. Qed.

Lemma item_number v : - 2 ^ 55 < v < 2 ^ 55 -> item_ok (serialize v).
Proof. intros Hv. destruct (serialize_decode v Hv) as (Hd & Hl & _). by apply (item_small _ 7). Qed.

(** A number of at most [n] bytes. *)
Lemma CScriptNum_bound vch b (n : nat) v :
  digits 8 vch -> CScriptNum vch b n = inr v -> (0 < n <= 7)%nat -> - 2 ^ (8 * n - 1) < v < 2 ^ (8 * n - 1).
Proof.
  intros Hd. unfold CScriptNum. case_if; [done|]. case_if; [done|]. intros [= <-] Hn.
  destruct vch as [|c l _] using rev_ind; [cbn; pose proof (Z.pow_pos_nonneg 2 (8 * n - 1)); lia|]. rewrite length_app in *. cbn [length] in *.
  rewrite set_vch_spec by (rewrite ?length_app; cbn [length]; done || lia). apply digits_app in Hd as [Hdl Hdc].
  pose proof (Z.mod_pos_bound c 128 ltac:(lia)) as Hc. pose proof (last_byte_bound l (c mod 128) Hdl ltac:(lia)) as Hm. fold (magnitude l c) in Hm.
  assert (2 ^ (8 * length l) * (c mod 128 + 1) <= 2 ^ (8 * n - 1)) as Hb.
  { transitivity (2 ^ (8 * length l) * 2 ^ 7); [apply Z.mul_le_mono_nonneg_l; lia|]. rewrite <- Z.pow_add_r by lia. apply Z.pow_le_mono_r; lia. }
  assert (0 <= magnitude l c) by (pose proof (Z.pow_pos_nonneg 2 (8 * length l)); nia). destruct (128 <=? c); lia.
Qed.

Lemma be_words_digits n l : digits 8 (be_words n l).
Proof. apply Forall_concat, Forall_map, Forall_forall. intros x _. apply Forall_rev, le_digits_digits. lia. Qed.
Lemma le_words_digits n l : digits 8 (le_words n l).
Proof. apply Forall_concat, Forall_map, Forall_forall. intros x _. apply le_digits_digits. lia. Qed.
Lemma le_words_length n l : length (le_words n l) = (n * length l)%nat.
Proof. unfold le_words. induction l as [|x l IH]; cbn [map concat length]; [lia|]. rewrite length_app, le_digits_length, IH. lia. Qed.

(** What the hashing operations compute. *)
Definition hash_of (opcode : Z) (x : list Z) : list Z :=
  if opcode =? OP_RIPEMD160 then Ripemd160.digest x
  else if opcode =? OP_SHA1 then Sha1.digest x
  else if opcode =? OP_SHA256 then Hash.sha256 x
  else if opcode =? OP_HASH160 then Ripemd160.digest (Hash.sha256 x)
  else Hash.sha256 (Hash.sha256 x).

Lemma digest_spec junk opcode x : length junk = 64%nat -> digest junk opcode x = Some (hash_of opcode x).
Proof.
  intros Hjunk. unfold digest, hash_of. repeat case_if.
  - f_equal. apply Ripemd160.Finalize_digest160; [|done]. apply (Ripemd160.Write_ok160 _ _ [] x). apply represents_nil; [lia|done].
  - f_equal. pose proof (Sha1.CSHA1_correct junk (replicate 20 0) [x] Hjunk eq_refl) as H. cbn [foldl concat] in H. by rewrite app_nil_r in H.
  - f_equal. by apply Hash.finalize256; [apply Hash.init256|].
  - by apply Hash.CHash160_digest; [|apply Hash.init256].
  - by apply Hash.CHash256_digest, Hash.init256.
Qed.

Lemma hash_of_ok opcode x : item_ok (hash_of opcode x).
Proof.
  assert (forall y, item_ok (Ripemd160.digest y)) as Hr.
  { intros y. apply (item_small _ 20); [apply le_words_digits| |lia]. unfold Ripemd160.digest. rewrite le_words_length.
    match goal with |- context [HashStream.transform_blocks 64 Ripemd160.compress ?n ?s ?m] => destruct (Ripemd160.Transform_blocks160 n s m eq_refl) as [_ ->] end. lia. }
  assert (forall y, item_ok (Hash.sha256 y)) as Hs.
  { intros y. apply (item_small _ 32); [apply Hash.sha256_digits|by rewrite Hash.sha256_length|lia]. }
  unfold hash_of. repeat case_if; try done. apply (item_small _ 20); [apply be_words_digits| |lia]. unfold Sha1.digest. rewrite be_words_length.
  match goal with |- context [HashStream.transform_blocks 64 Sha1.compress ?n ?s ?m] => destruct (Sha1.Transform_blocks1 n s m eq_refl) as [_ ->] end. lia.
Qed.

(** Arithmetic on numbers of four bytes. *)
Lemma i64_small a : - 2 ^ 62 < a < 2 ^ 62 -> i64 a = a.
Proof. intros Ha. unfold i64. apply swrap_small; [lia|]. unfold in_s. lia. Qed.

Lemma add_num_small a b : - 2 ^ 40 < a < 2 ^ 40 -> - 2 ^ 40 < b < 2 ^ 40 -> add_num a b = Some (a + b).
Proof.
  intros Ha Hb. unfold add_num, int64_max, int64_min. rewrite i64_small by lia.
  destruct (Z.lt_trichotomy b 0) as [Hlt|[->|Hgt]]; [|done|].
  - rewrite (proj2 (Z.leb_le _ a)), (proj2 (Z.ltb_lt b 0)) by lia. by rewrite andb_true_r, orb_true_r.
  - rewrite (proj2 (Z.leb_le a _)), (proj2 (Z.ltb_lt 0 b)) by lia. by rewrite orb_true_r.
Qed.

Lemma sub_num_small a b : - 2 ^ 40 < a < 2 ^ 40 -> - 2 ^ 40 < b < 2 ^ 40 -> sub_num a b = Some (a - b).
Proof.
  intros Ha Hb. unfold sub_num, int64_max, int64_min. rewrite i64_small by lia.
  destruct (Z.lt_trichotomy b 0) as [Hlt|[->|Hgt]]; [|done|].
  - rewrite (proj2 (Z.leb_le a _)), (proj2 (Z.ltb_lt b 0)) by lia. by rewrite andb_true_r, orb_true_r.
  - rewrite (proj2 (Z.leb_le _ a)), (proj2 (Z.ltb_lt 0 b)) by lia. by rewrite orb_true_r.
Qed.

Lemma neg_num_small a : - 2 ^ 40 < a < 2 ^ 40 -> neg_num a = Some (- a).
Proof. intros Ha. unfold neg_num, int64_min. rewrite i64_small by lia. case_if; [lia|done]. Qed.

Lemma num_of_bool_small b : - 2 ^ 32 < num_of_bool b < 2 ^ 32.
Proof. destruct b; cbn; lia. Qed.

Lemma unary_small opcode bn :
  is_unary opcode = true -> - 2 ^ 31 < bn < 2 ^ 31 -> exists v, unary opcode bn = Some v /\ - 2 ^ 33 < v < 2 ^ 33.
Proof.
  intros Ho Hb. apply bool_decide_eq_true in Ho. unfold unary. rewrite add_num_small, sub_num_small, neg_num_small by lia.
  repeat case_if; try (eexists; split; [done|]; pose proof (num_of_bool_small (bn =? 0)); pose proof (num_of_bool_small (negb (bn =? 0))); lia).
  exfalso. rewrite !elem_of_cons in Ho. by destruct Ho as [?|[?|[?|[?|[?|[?|?%elem_of_nil]]]]]].
Qed.

Lemma binary_small opcode a b :
  is_binary opcode = true -> - 2 ^ 31 < a < 2 ^ 31 -> - 2 ^ 31 < b < 2 ^ 31 -> exists v, binary opcode a b = Some v /\ - 2 ^ 33 < v < 2 ^ 33.
Proof.
  intros Ho Ha Hb. apply bool_decide_eq_true in Ho. unfold binary. rewrite add_num_small, sub_num_small by lia.
  repeat (match goal with |- context [if opcode =? ?c then _ else _] => destruct (opcode =? c) eqn:?; cases_bool end;
    [eexists; split; [done|]; repeat case_if; match goal with |- context [num_of_bool ?x] => pose proof (num_of_bool_small x) | _ => idtac end; lia|]).
  exfalso. rewrite !elem_of_cons in Ho. repeat (destruct Ho as [Ho|Ho]; [done|]). by apply elem_of_nil in Ho.
Qed.

(** ** What is asked of a checker

    It answers when it is asked for a key of 32 bytes in a taproot spend whose
    execution data is there, and changes only the hash it caches. *)

Definition exec_ready (v : SigVersion) (d : ScriptExecutionData) : Prop :=
  is_Some (m_annex d) /\ (v = TAPSCRIPT -> is_Some (m_tapleaf_hash d) /\ is_Some (m_codeseparator_pos d)).

Definition caches_hash (d d' : ScriptExecutionData) : Prop :=
  exists h, d' = mkExec (m_tapleaf_hash d) (m_codeseparator_pos d) (m_annex d) (m_validation_weight_left d) h.

Record checker_ok (checker : BaseSignatureChecker) (v : SigVersion) : Prop := {
  ecdsa_answers sig key code : v = BASE \/ v = WITNESS_V0 -> is_Some (CheckECDSASignature sig key code v);
  schnorr_answers sig key d : length key = 32%nat -> v = TAPROOT \/ v = TAPSCRIPT -> exec_ready v d ->
    safe (caches_hash d) (CheckSchnorrSignature sig key v d);
  locktime_answers n : is_Some (CheckLockTime n);
  sequence_answers n : is_Some (CheckSequence n)
}.

(** ** Limits and assertions *)

Section Safety.
Context {checker : BaseSignatureChecker} (CheckLowS : list Z -> bool) (junk : list Z) (flags : Z) (sigversion : SigVersion).
Context (Hck : checker_ok checker sigversion) (at_pc : list Z) (ops : Z).

Record inv (st : eval_state) : Prop := {
  inv_stack : items_ok (stack st);
  inv_alt : items_ok (altstack st);
  inv_pc : pc st = at_pc;
  inv_cond : 0 <= m_stack_size (vfExec st);
  inv_count : 0 <= ops <= nOpCount st /\ nOpCount st <= MAX_OPS_PER_SCRIPT;
  inv_exec : sigversion = TAPSCRIPT -> exec_ready sigversion (execdata st) /\ is_Some (m_validation_weight_left (execdata st))
}.

Lemma inv_with_stack st s : inv st -> items_ok s -> inv (with_stack st s).
Proof using. intros [] Hs. by split. Qed.
Lemma inv_with_cond st c : inv st -> 0 <= m_stack_size c -> inv (with_cond st c).
Proof using. intros [] Hc. by split. Qed.
Lemma inv_with_count st k : inv st -> nOpCount st <= k <= MAX_OPS_PER_SCRIPT -> inv (with_count st k).
Proof using. intros [] Hc. split; try done. cbn [nOpCount with_count]. lia. Qed.

Lemma number_safe x : item_ok x -> safe (fun v => - 2 ^ 31 < v < 2 ^ 31) (number flags x).
Proof using.
  intros [Hd _]. unfold number, catch, nDefaultMaxNumSize. destruct (CScriptNum x _ 4) as [|v] eqn:E; [done|]. cbn.
  by apply (CScriptNum_bound x (fRequireMinimal flags) 4 v) in E; [|done|lia].
Qed.

Lemma CheckSignatureEncoding_safe sig : safe (fun _ => True) (CheckSignatureEncoding CheckLowS flags sig).
Proof using. unfold CheckSignatureEncoding, IsLowDERSignature, require. repeat case_if; cbn; try done; by repeat (case_if; cbn). Qed.
Lemma CheckPubKeyEncoding_safe key : safe (fun _ => True) (CheckPubKeyEncoding flags sigversion key).
Proof using. unfold CheckPubKeyEncoding. by repeat case_if. Qed.
Lemma drop_signature_safe code sig : safe (fun _ => True) (drop_signature flags sigversion code sig).
Proof using. unfold drop_signature. case_if; [|done]. destruct (FindAndDelete _ _). by case_if. Qed.
Lemma drop_signatures_safe code sigs : safe (fun _ => True) (drop_signatures flags sigversion code sigs).
Proof using.
  revert code. induction sigs as [|sig sigs IH]; intros code; [done|]. cbn [drop_signatures]. eapply safe_bind; [apply drop_signature_safe|]. intros; apply IH.
Qed.

Lemma EvalChecksigPreTapscript_safe sig key code :
  sigversion = BASE \/ sigversion = WITNESS_V0 -> safe (fun _ => True) (EvalChecksigPreTapscript CheckLowS flags sigversion sig key code).
Proof using Hck.
  intros Hv. unfold EvalChecksigPreTapscript. eapply safe_bind; [apply drop_signature_safe|intros code' _].
  eapply safe_bind; [apply CheckSignatureEncoding_safe|intros _ _]. eapply safe_bind; [apply CheckPubKeyEncoding_safe|intros _ _].
  destruct (ecdsa_answers checker sigversion Hck sig key code' Hv) as [b Hb]. rewrite Hb. cbn. by case_if.
Qed.

Lemma EvalChecksigTapscript_safe sig key d :
  sigversion = TAPSCRIPT -> exec_ready sigversion d /\ is_Some (m_validation_weight_left d) ->
  safe (fun '(_, d') => exec_ready sigversion d' /\ is_Some (m_validation_weight_left d')) (EvalChecksigTapscript flags sigversion sig key d).
Proof using Hck.
  intros Hv [Hr [w Hw]]. unfold EvalChecksigTapscript.
  eapply (safe_bind (fun d1 => exec_ready sigversion d1 /\ is_Some (m_validation_weight_left d1))).
  { case_if; [|cbn; by eauto]. rewrite Hw. cbn. case_if; [done|]. split; [exact Hr|by eexists]. }
  intros d1 [Hr1 Hw1]. case_if; [done|]. destruct (length key =? 32)%nat eqn:Ek; cases_bool; [|case_if; [done|cbn; by eauto]].
  case_if; [|cbn; by eauto]. eapply safe_bind; [by apply (schnorr_answers checker sigversion Hck); auto|]. intros d2 [h ->]. by cbn.
Qed.

Lemma EvalChecksig_safe sig key code d :
  sigversion <> TAPROOT -> (sigversion = TAPSCRIPT -> exec_ready sigversion d /\ is_Some (m_validation_weight_left d)) ->
  safe (fun '(_, d') => sigversion = TAPSCRIPT -> exec_ready sigversion d' /\ is_Some (m_validation_weight_left d'))
    (EvalChecksig CheckLowS flags sigversion sig key code d).
Proof using Hck.
  intros Hv Hd. pose proof (EvalChecksigPreTapscript_safe sig key code) as Hp. pose proof (EvalChecksigTapscript_safe sig key d) as Ht.
  unfold EvalChecksig. destruct sigversion; try done; try (eapply safe_bind; [apply Hp; auto|done]).
  eapply safe_weaken; [by apply Ht; auto|]. by intros [? ?].
Qed.

Lemma multisig_loop_safe code keys sigs :
  sigversion = BASE \/ sigversion = WITNESS_V0 -> (length sigs <= length keys)%nat -> safe (fun _ => True) (multisig_loop CheckLowS flags sigversion code keys sigs).
Proof using Hck.
  intros Hv. revert sigs. induction keys as [|key keys IH]; intros [|sig sigs] Hl; try done; [cbn in Hl; lia|]. cbn [multisig_loop].
  eapply safe_bind; [apply CheckSignatureEncoding_safe|intros _ _]. eapply safe_bind; [apply CheckPubKeyEncoding_safe|intros _ _].
  destruct (ecdsa_answers checker sigversion Hck sig key code Hv) as [b ->]. cbn [assert_some mbind outcome_bind].
  case_if; [done|]. apply IH. lia.
Qed.

Lemma cleanup_safe n ikey2 ok s : items_ok s -> safe items_ok (cleanup flags n ikey2 ok s).
Proof using.
  revert ikey2 s. induction n as [|n IH]; intros ikey2 s Hs; [done|]. cbn [cleanup]. destruct Hs as [|x s Hx Hs]; [done|].
  case_if; [done|]. by apply IH.
Qed.

Ltac split_items := repeat match goal with H : Forall item_ok (_ :: _) |- _ => apply Forall_cons in H as [? ?] end.
Ltac solve_items := split_items; repeat (apply Forall_cons; split); auto using item_bool.

Lemma op_pick_safe roll s : items_ok s -> length s < 2 ^ 31 -> safe items_ok (op_pick flags roll s).
Proof using.
  intros Hs Hl. unfold op_pick. destruct s as [|x [|y s]]; [done..|]. split_items.
  eapply safe_bind; [by apply number_safe|]. intros n Hn. case_if; [done|].
  assert (i32 (length (y :: s)) = length (y :: s)) as E3 by (unfold i32; apply swrap_small; [lia|unfold in_s; cbn [length] in *; lia]).
  destruct (lookup_lt_is_Some_2 (y :: s) (Z.to_nat (getint n))) as [v Hv]; [lia|]. rewrite Hv. cbn [assert_some mbind outcome_bind safe].
  assert (items_ok (y :: s)) as Hys by (by constructor). apply Forall_cons. split; [by apply (Forall_lookup_1 _ _ _ _ Hys Hv)|].
  destruct roll; [by apply Forall_delete|done].
Qed.

Lemma stack_op_safe opcode s : items_ok s -> length s < 2 ^ 31 -> safe items_ok (stack_op flags opcode s).
Proof using.
  intros Hs Hl. unfold stack_op.
  repeat (match goal with |- context [if ?b then _ else _] => destruct b end;
    [first [by apply op_pick_safe
           |solve [repeat match goal with |- context [match ?s with [] => _ | _ => _ end] => destruct s; try done end; cbn [safe]; solve_items]
           |cbn [safe]; apply Forall_cons; split; [apply item_number; lia|done]
           |destruct s as [|x s]; [done|]; cbn [safe]; destruct (CastToBool x); solve_items]|]).
  destruct s as [|x s]; [done|]. cbn [safe]. split_items. pose proof H as [_ Hx]. unfold MAX_SCRIPT_ELEMENT_SIZE in Hx.
  apply Forall_cons. split; [apply item_number; lia|by constructor].
Qed.

Lemma op_equal_safe v s : items_ok s -> safe items_ok (op_equal v s).
Proof using. intros Hs. unfold op_equal. destruct s as [|x [|y s]]; [done..|]. destruct v; [case_if; [|done]|]; cbn [safe]; solve_items. Qed.

Lemma op_unary_safe opcode s : is_unary opcode = true -> items_ok s -> safe items_ok (op_unary flags opcode s).
Proof using.
  intros Ho Hs. destruct Hs as [|x s Hx Hs]; [done|]. cbn [op_unary]. eapply safe_bind; [by apply number_safe|]. intros bn Hbn.
  destruct (unary_small opcode bn Ho Hbn) as (v & -> & Hv). cbn [assert_some mbind outcome_bind safe]. constructor; [apply item_number; lia|done].
Qed.

Lemma op_binary_safe opcode s : is_binary opcode = true -> items_ok s -> safe items_ok (op_binary flags opcode s).
Proof using.
  intros Ho Hs. destruct s as [|x2 [|x1 s]]; [done..|]. split_items. cbn [op_binary]. eapply safe_bind; [by apply number_safe|]. intros a Ha.
  eapply safe_bind; [by apply number_safe|]. intros b Hb. destruct (binary_small opcode a b Ho Ha Hb) as (v & -> & Hv). cbn [assert_some mbind outcome_bind].
  case_if; [by case_if|]. cbn [safe]. constructor; [apply item_number; lia|done].
Qed.

Lemma op_within_safe s : items_ok s -> safe items_ok (op_within flags s).
Proof using.
  intros Hs. destruct s as [|x3 [|x2 [|x1 s]]]; [done..|]. split_items. cbn [op_within].
  do 3 (eapply safe_bind; [by apply number_safe|]; intros ? _). cbn [safe]. constructor; [apply item_bool|done].
Qed.

Lemma op_hash_safe opcode s : length junk = 64%nat -> items_ok s -> safe items_ok (op_hash junk opcode s).
Proof using.
  intros Hj Hs. destruct Hs as [|x s Hx Hs]; [done|]. cbn [op_hash]. rewrite digest_spec by done. cbn [assert_some mbind outcome_bind safe].
  constructor; [apply hash_of_ok|done].
Qed.

Lemma on_stack_safe st r : inv st -> safe items_ok r -> safe inv (on_stack st r).
Proof using. intros Hst Hr. unfold on_stack. eapply safe_bind; [exact Hr|]. intros s Hs. by apply inv_with_stack. Qed.

Lemma inv_with_exec st d :
  inv st -> (sigversion = TAPSCRIPT -> exec_ready sigversion d /\ is_Some (m_validation_weight_left d)) -> inv (with_exec st d).
Proof using. intros [] Hd. by split. Qed.

Lemma op_checksig_safe v st : sigversion <> TAPROOT -> inv st -> safe inv (op_checksig CheckLowS flags sigversion v st).
Proof using Hck.
  intros Hv Hst. pose proof (inv_stack st Hst) as Hs. unfold op_checksig. destruct (stack st) as [|key [|sig s]]; [done..|]. split_items.
  eapply safe_bind; [apply EvalChecksig_safe; [done|by apply inv_exec]|]. intros [b d] Hd. pose proof (inv_with_exec st d Hst Hd).
  destruct v; [destruct b; [|done]|]; apply inv_with_stack; solve_items.
Qed.

Lemma op_checksigadd_safe st : sigversion <> TAPROOT -> inv st -> safe inv (op_checksigadd CheckLowS flags sigversion st).
Proof using Hck.
  intros Hv Hst. pose proof (inv_stack st Hst) as Hs. unfold op_checksigadd. case_if; [done|]. destruct (stack st) as [|key [|n [|sig s]]]; [done..|]. split_items.
  eapply safe_bind; [by apply number_safe|]. intros num Hnum. eapply safe_bind; [apply EvalChecksig_safe; [done|by apply inv_exec]|]. intros [b d] Hd.
  cbn beta in Hnum. pose proof (num_of_bool_small b). rewrite add_num_small by lia. cbn [assert_some mbind outcome_bind safe].
  apply inv_with_stack; [by apply inv_with_exec|]. constructor; [apply item_number; lia|done].
Qed.

Lemma lookup_item (s : list (list Z)) n : items_ok s -> item_ok (default [] (s !! n)).
Proof using. intros Hs. destruct (s !! n) as [x|] eqn:E; [by apply (Forall_lookup_1 _ _ _ _ Hs E)|apply item_false]. Qed.

Lemma op_checkmultisig_safe v st : sigversion <> TAPROOT -> inv st -> safe inv (op_checkmultisig CheckLowS flags sigversion v st).
Proof using Hck.
  intros Hv Hst. pose proof (inv_stack st Hst) as Hs. pose proof (inv_count st Hst) as Hn. unfold op_checkmultisig. case_if; [done|].
  assert (sigversion = BASE \/ sigversion = WITNESS_V0) as Hpre by (clear -Hv E; destruct sigversion; auto; done). case_if; [done|].
  eapply safe_bind; [apply number_safe, lookup_item, Hs|]. intros k0 _. set (nK := getint k0). case_if; [done|]. cbn [nOpCount with_count].
  case_if; [done|]. case_if; [done|]. eapply safe_bind; [apply number_safe, lookup_item, Hs|]. intros k1 _. set (nS := getint k1).
  case_if; [done|]. case_if; [done|]. eapply safe_bind; [apply drop_signatures_safe|]. intros code _.
  eapply safe_bind; [apply multisig_loop_safe; [exact Hpre|]; rewrite !length_take, !length_drop; lia|]. intros ok _.
  eapply safe_bind; [apply cleanup_safe, Hs|]. intros s Hs'. destruct Hs' as [|dummy s Hd Hs']; [done|]. case_if; [done|].
  assert (inv (with_count st (nOpCount st + nK))) by (apply inv_with_count; [done|lia]).
  destruct v; [destruct ok; [|done]|]; apply inv_with_stack; solve_items.
Qed.

Lemma u32_nonneg x : 0 <= u32 x.
Proof using. apply uwrap_range. lia. Qed.

Lemma cond_op_safe st (f : ConditionStack -> option ConditionStack) :
  inv st -> (forall c, 0 < m_stack_size c -> exists c', f c = Some c' /\ 0 <= m_stack_size c') ->
  safe inv (if empty (vfExec st) then set_error SCRIPT_ERR_UNBALANCED_CONDITIONAL else c ← assert_some (f (vfExec st)); Ok (with_cond st c)).
Proof using.
  intros Hst Hf. unfold empty. pose proof (inv_cond st Hst). case_if; [done|]. destruct (Hf (vfExec st)) as (c' & -> & Hc'); [lia|].
  by apply inv_with_cond.
Qed.

Lemma op_else_safe st : inv st -> safe inv (op_else st).
Proof using.
  intros Hst. apply (cond_op_safe st toggle_top Hst). intros c Hc. unfold toggle_top. rewrite (proj2 (Z.ltb_lt _ _)) by done. cbn [negb].
  eexists. split; [done|]. repeat case_if; cbn [m_stack_size]; lia.
Qed.

Lemma op_endif_safe st : inv st -> safe inv (op_endif st).
Proof using.
  intros Hst. apply (cond_op_safe st pop_back Hst). intros c Hc. unfold pop_back. rewrite (proj2 (Z.ltb_lt _ _)) by done. cbn [negb].
  eexists. split; [done|]. apply u32_nonneg.
Qed.

Lemma op_if_safe opcode b st : inv st -> safe inv (op_if flags sigversion opcode b st).
Proof using.
  intros Hst. unfold op_if. destruct b; [|apply inv_with_cond; [done|apply u32_nonneg]].
  pose proof (inv_stack st Hst) as Hs. destruct (stack st) as [|x s]; [done|]. split_items.
  eapply (safe_bind (fun _ => True)); [unfold check_minimal_if; by repeat case_if|]. intros _ _.
  apply inv_with_cond; [by apply inv_with_stack|apply u32_nonneg].
Qed.

Lemma op_locktime_safe st x (f : Z -> option bool) (ok : Z -> bool) :
  inv st -> item_ok x -> (forall n, is_Some (f n)) ->
  safe inv (n ← catch (CScriptNum x (fRequireMinimal flags) 5);
            if n <? 0 then set_error SCRIPT_ERR_NEGATIVE_LOCKTIME
            else if ok n then Ok st
            else b ← assert_some (f n); if negb b then set_error SCRIPT_ERR_UNSATISFIED_LOCKTIME else Ok st).
Proof using.
  intros Hst Hx Hf. destruct (CScriptNum _ _ 5) as [|n]; [done|]. cbn [catch mbind outcome_bind]. case_if; [done|]. case_if; [done|].
  destruct (Hf n) as [b ->]. cbn [assert_some mbind outcome_bind]. by case_if.
Qed.

Lemma exec_op_safe opcode b st :
  length junk = 64%nat -> sigversion <> TAPROOT -> inv st -> length (stack st) < 2 ^ 31 ->
  safe inv (exec_op CheckLowS junk flags sigversion opcode b st).
Proof using Hck.
  intros Hj Hv Hst Hl. pose proof (inv_stack st Hst) as Hs. unfold exec_op.
  case_if. { apply inv_with_stack; [done|]. constructor; [|done]. apply item_number. unfold OP_1NEGATE, OP_1, OP_16 in *.
    assert (opcode = 79 \/ 81 <= opcode <= 96) as [->|?]; [|lia..]. apply orb_true_iff in E as [E|E]; cases_bool; lia. }
  case_if; [done|]. case_if.
  { unfold op_checklocktimeverify. case_if; [done|]. destruct (stack st) as [|x s]; [done|]. split_items.
    apply (op_locktime_safe st x CheckLockTime (fun _ => false)); [done|done|apply (locktime_answers checker sigversion Hck)]. }
  case_if.
  { unfold op_checksequenceverify. case_if; [done|]. destruct (stack st) as [|x s]; [done|]. split_items.
    apply (op_locktime_safe st x CheckSequence (fun n => negb (Z.land n Locks.SEQUENCE_LOCKTIME_DISABLE_FLAG =? 0))); [done|done|apply (sequence_answers checker sigversion Hck)]. }
  case_if; [by case_if|]. case_if; [by apply op_if_safe|]. case_if; [by apply op_else_safe|]. case_if; [by apply op_endif_safe|].
  case_if. { unfold op_verify. destruct (stack st) as [|x s]; [done|]. split_items. case_if; [by apply inv_with_stack|done]. }
  case_if; [done|]. case_if. { destruct (stack st) as [|x s] eqn:Es; [done|]. split_items. destruct Hst. split; try done. by constructor. }
  case_if. { pose proof (inv_alt st Hst) as Ha. destruct (altstack st) as [|x a]; [done|]. split_items. destruct Hst. split; try done. by constructor. }
  case_if; [by apply on_stack_safe; [|apply stack_op_safe]|]. case_if; [by apply on_stack_safe; [|apply op_equal_safe]|].
  destruct (is_unary opcode) eqn:Eu; [by apply on_stack_safe; [|apply op_unary_safe]|].
  destruct (is_binary opcode) eqn:Eb; [by apply on_stack_safe; [|apply op_binary_safe]|].
  case_if; [by apply on_stack_safe; [|apply op_within_safe]|]. case_if; [by apply on_stack_safe; [|apply op_hash_safe]|].
  case_if. { destruct Hst. split; try done. cbn [execdata with_exec]. intros Ht. specialize (inv_exec0 Ht) as ((Ha & Hr) & Hw). split; [|done].
    split; [done|]. intros _. cbn. split; [by apply Hr|by eexists]. }
  case_if; [by apply op_checksig_safe|]. case_if; [by apply op_checksigadd_safe|]. case_if; [by apply op_checkmultisig_safe|done].
Qed.

End Safety.

(** The operations of a script that count: those above [OP_16]. *)
Fixpoint count_ops (fuel : nat) (s : list Z) : Z :=
  match fuel with
  | O => 0
  | S fuel' => match GetScriptOp s with None => 0 | Some (opcode, _, r) => (if OP_16 <? opcode then 1 else 0) + count_ops fuel' r end
  end.

Lemma GetScriptOp_digits s opcode d r : digits 8 s -> GetScriptOp s = Some (opcode, d, r) -> in_u 8 opcode /\ digits 8 d /\ digits 8 r.
Proof.
  intros Hs. destruct s as [|c s]; [done|]. apply Forall_cons in Hs as [Hc Hs]. unfold GetScriptOp.
  case_if; [|intros [= <- <- <-]; split; [done|]; split; [constructor|done]].
  destruct (operand_size c s) as [[n t]|] eqn:Eo; [|done]. rewrite bind_some. case_if; [done|]. intros [= <- <- <-].
  assert (digits 8 t); [|split; [done|split; [by apply Forall_take|by apply Forall_drop]]].
  unfold operand_size in Eo. repeat (case_if_in Eo; simplify_eq); try done; by apply Forall_drop.
Qed.

Section Run.
Context {checker : BaseSignatureChecker} (CheckLowS : list Z -> bool) (junk : list Z) (flags : Z) (sigversion : SigVersion).

Definition counted (opcode : Z) : Z := if pre_tapscript sigversion && (OP_16 <? opcode) then 1 else 0.

Definition within (st : eval_state) : Prop := length (stack st) + length (altstack st) <= MAX_STACK_SIZE.

Lemma check_op_safe p ops r opcode d st :
  inv sigversion p ops st -> digits 8 d ->
  safe (fun st' => inv sigversion r (ops + counted opcode) st' /\ length d <= MAX_SCRIPT_ELEMENT_SIZE /\ stack st' = stack st /\ altstack st' = altstack st)
    (check_op flags sigversion opcode d (with_pc st r)).
Proof.
  intros [Hs Ha Hp Hc Ho He] Hd. unfold check_op, counted. cbn [nOpCount with_pc].
  apply safe_guard; intros Hl. apply safe_guard; intros Hn. apply safe_guard; intros _. apply safe_guard; intros _.
  cases_bool. cbn [safe]. destruct (pre_tapscript sigversion && (OP_16 <? opcode)); cbn [andb nOpCount with_count with_pc] in Hn; cases_bool;
    (split; [split; try done; cbn [nOpCount with_count with_pc]; lia|by split; [lia|]]).
Qed.

Lemma step_safe p ops st :
  checker_ok checker sigversion -> length junk = 64%nat -> sigversion <> TAPROOT -> digits 8 p -> inv sigversion p ops st -> length (stack st) < 2 ^ 31 ->
  safe (fun st' => exists opcode d r, GetScriptOp p = Some (opcode, d, r) /\ inv sigversion r (ops + counted opcode) st' /\ within st')
    (step CheckLowS junk flags sigversion st).
Proof.
  intros Hck Hj Hv Hp Hst Hw. unfold step. rewrite (inv_pc _ _ _ _ Hst). destruct (GetScriptOp p) as [[[opcode d] r]|] eqn:Eg; [|done].
  destruct (GetScriptOp_digits _ _ _ _ Hp Eg) as (Ho & Hd & Hr). eapply safe_bind; [by apply (check_op_safe p ops)|]. intros st1 (Hi & Hl & Hs & Ha).
  set (P := inv sigversion r (ops + counted opcode)). eapply (safe_bind P).
  { destruct (all_true (vfExec st) && (opcode <=? OP_PUSHDATA4)) eqn:Eb.
    - eapply (safe_bind (fun _ => True)).
      { case_if; [|done]. apply safe_assert. unfold CheckMinimalPush, OP_PUSHDATA4, in_u in *. cases_bool.
        rewrite (proj2 (Z.leb_le 0 opcode)), (proj2 (Z.leb_le opcode 78)) by lia. cbn. by eexists. }
      intros m _. apply safe_guard; intros _. apply inv_with_stack; [done|].
      constructor; [done|]. apply (inv_stack _ _ _ _ Hi).
    - case_if; [|done]. apply exec_op_safe; try done. by rewrite Hs. }
  intros st2 Hi2. apply safe_guard; intros Hb. cases_bool. cbn [safe].
  eexists _, _, _. split; [done|]. split; [|unfold within; cbn; lia]. destruct Hi2. by split.
Qed.

Lemma run_safe (fuel : nat) p ops st :
  checker_ok checker sigversion -> length junk = 64%nat -> sigversion <> TAPROOT -> digits 8 p -> inv sigversion p ops st -> length (stack st) < 2 ^ 31 -> (length p <= fuel)%nat ->
  safe (fun st' => (within st' \/ p = [] /\ st' = st) /\ inv sigversion [] (ops + if pre_tapscript sigversion then count_ops fuel p else 0) st') (run CheckLowS junk flags sigversion fuel st).
Proof.
  intros Hck Hj Hv. revert p ops st. induction fuel as [|fuel IH]; intros p ops st Hp Hst Hw Hf; cbn [run count_ops].
  - destruct p; [|cbn in Hf; lia]. rewrite (inv_pc _ _ _ _ Hst). cbn [safe]. split; [by right|]. case_if; by rewrite Z.add_0_r.
  - rewrite (inv_pc _ _ _ _ Hst). destruct p as [|c p]; [split; [by right|]; cbn; case_if; by rewrite Z.add_0_r|].
    eapply safe_bind; [by apply (step_safe (c :: p) ops)|]. intros st1 (opcode & d & r & Eg & Hi & Hw1). rewrite Eg.
    pose proof (GetScriptOp_shorter _ _ _ _ Eg). destruct (GetScriptOp_digits _ _ _ _ Hp Eg) as (_ & _ & Hr).
    eapply safe_weaken; [apply (IH r (ops + counted opcode)); [done..|unfold within, MAX_STACK_SIZE in Hw1; lia|lia]|].
    intros st2 [Hw2 Hi2]. split; [left; by destruct Hw2 as [?|[_ ->]]|].
    unfold counted in Hi2. destruct (pre_tapscript sigversion); cbn [andb] in Hi2; [by rewrite Z.add_assoc|by rewrite Z.add_0_r in Hi2].
Qed.

End Run.

Lemma EvalScript_safe {checker : BaseSignatureChecker} (CheckLowS : list Z -> bool) (junk : list Z) flags v s script d :
  checker_ok checker v -> length junk = 64%nat -> v <> TAPROOT ->
  (v = TAPSCRIPT -> is_Some (m_annex d) /\ is_Some (m_tapleaf_hash d) /\ is_Some (m_validation_weight_left d)) ->
  digits 8 script -> items_ok s -> length s < 2 ^ 31 ->
  match EvalScript CheckLowS junk flags v s script d with
  | Abort => False
  | Fail e => e <> None
  | Ok (s', d') =>
      items_ok s' /\ (script <> [] -> length s' <= MAX_STACK_SIZE) /\ (script = [] -> s' = s) /\
      (v <> TAPSCRIPT -> length script <= MAX_SCRIPT_SIZE /\ count_ops (length script) script <= MAX_OPS_PER_SCRIPT)
  end.
Proof.
  intros Hck Hj Hv Hd Hp Hs Hl. unfold EvalScript. rewrite bool_decide_eq_false_2 by done. case_if; [done|].
  assert (inv v script 0 (start s script d)) as Hi.
  { split; try done. intros Ht. destruct (Hd Ht) as (? & ? & ?). split; [|done]. split; [done|]. by intros _. }
  pose proof (run_safe CheckLowS junk flags v (length script) script 0 _ Hck Hj Hv Hp Hi Hl (le_n _)) as Hr.
  destruct (run _ _ _ _ _ _) as [st|e|] eqn:Er; [|by destruct e|done]. destruct Hr as [Hw' Hi']. case_if; [done|].
  split; [apply (inv_stack _ _ _ _ Hi')|].
  split; [intros; destruct Hw' as [Hw'|[? _]]; [unfold within in Hw'; lia|done]|]. split; [intros ->; by injection Er as <-|]. intros Ht.
  assert (pre_tapscript v = true) as Epre by (destruct v; [reflexivity|reflexivity|done..]). rewrite Epre in *.
  destruct (inv_count _ _ _ _ Hi'). cases_bool. lia.
Qed.


(** The checker of the base class, which accepts nothing, keeps the promises. *)
Lemma base_checker_ok v : checker_ok base_checker v.
Proof. split; [intros; cbn; eauto|done|intros; cbn; eauto|intros; cbn; eauto]. Qed.


(** ** The condition stack

    The vector of booleans the class stands for, the last element first, and
    the two integers it keeps of it. *)

Fixpoint first_false (l : list bool) : Z :=
  match l with
  | [] => NO_FALSE
  | b :: l => if forallb id l then if b then NO_FALSE else length l else first_false l
  end.
Definition abs (l : list bool) : ConditionStack := mkCond (length l) (first_false l).

Inductive cond_op := Push (b : bool) | Pop | Toggle.
Definition cond_step (o : cond_op) (c : ConditionStack) : option ConditionStack :=
  match o with Push b => Some (push_back c b) | Pop => pop_back c | Toggle => toggle_top c end.
Definition vector_step (o : cond_op) (l : list bool) : option (list bool) :=
  match o, l with
  | Push b, _ => Some (b :: l)
  | _, [] => None
  | Pop, _ :: l => Some l
  | Toggle, b :: l => Some (negb b :: l)
  end.
Fixpoint steps {A} (f : cond_op -> A -> option A) (ops : list cond_op) (x : A) : option A :=
  match ops with [] => Some x | o :: ops => x ← f o x; steps f ops x end.

Lemma first_false_range l : length l < NO_FALSE -> first_false l = NO_FALSE /\ forallb id l = true \/ 0 <= first_false l < length l /\ forallb id l = false.
Proof.
  induction l as [|b l IH]; cbn [length first_false forallb]; intros Hl; [by left|]. destruct IH as [[IH ->]|[IH ->]]; [lia|..].
  - destruct b; cbn; [by left|right; split; [lia|done]].
  - right. rewrite andb_false_r. split; [lia|done].
Qed.

Lemma cond_step_abs o l : length l + 1 < NO_FALSE -> cond_step o (abs l) = abs <$> vector_step o l.
Proof.
  intros Hl. pose proof (first_false_range l). destruct o as [b| |]; cbn [cond_step vector_step].
  - unfold push_back, abs. cbn [m_stack_size m_first_false_pos length fmap option_fmap option_map first_false].
    rewrite u32_small by (unfold in_u, NO_FALSE in *; lia). do 2 f_equal; [lia|]. destruct H as [[-> ->]|[H ->]]; [lia|by destruct b|].
    rewrite (proj2 (Z.eqb_neq _ _)) by lia. done.
  - destruct l as [|b l]; [done|]. cbn [length] in Hl. pose proof (first_false_range l). unfold pop_back, abs.
    cbn [m_stack_size m_first_false_pos length fmap option_fmap option_map first_false]. rewrite (proj2 (Z.ltb_lt _ _)) by lia. cbn [negb].
    rewrite u32_small by (unfold in_u, NO_FALSE in *; lia). do 2 f_equal; [lia|]. destruct H0 as [[-> ->]|[H0 ->]]; [lia|..].
    + destruct b; repeat case_if; unfold NO_FALSE in *; lia.
    + rewrite (proj2 (Z.eqb_neq _ _)) by lia. done.
  - destruct l as [|b l]; [done|]. cbn [length] in Hl. pose proof (first_false_range l). unfold toggle_top, abs.
    cbn [m_stack_size m_first_false_pos length fmap option_fmap option_map first_false]. rewrite (proj2 (Z.ltb_lt _ _)) by lia. cbn [negb].
    rewrite u32_small by (unfold in_u, NO_FALSE in *; lia). f_equal. destruct H0 as [[-> ->]|[H0 ->]]; [lia|..].
    + destruct b; cbn [negb]; [rewrite Z.eqb_refl; f_equal; lia|]. rewrite (proj2 (Z.eqb_neq _ _)) by lia. by rewrite (proj2 (Z.eqb_eq _ _)) by lia.
    + rewrite !(proj2 (Z.eqb_neq _ _)) by lia. done.
Qed.

(** The condition stack behaves as a vector of booleans: after the same pushes, pops and toggles of the top it is
    empty when the vector is, and all true when the vector has no false; an operation fails its assertion exactly
    on an empty vector. *)
Theorem ConditionStack_refines ops :
  length ops + 1 < NO_FALSE ->
  match steps vector_step ops [], steps cond_step ops ConditionStack_init with
  | Some l, Some c => empty c = bool_decide (l = []) /\ all_true c = forallb id l
  | None, None => True
  | _, _ => False
  end.
Proof.
  assert (forall l, length l + length ops + 1 < NO_FALSE ->
            steps cond_step ops (abs l) = abs <$> steps vector_step ops l /\
            (forall l', steps vector_step ops l = Some l' -> length l' <= length l + length ops)) as Hs.
  { induction ops as [|o ops IH]; intros l Hl; cbn [length steps] in *; [split; [done|intros ? [= <-]; lia]|].
    rewrite cond_step_abs by lia. destruct (vector_step o l) as [l1|] eqn:E; [|by split]. cbn [fmap option_fmap option_map mbind option_bind].
    assert (length l1 <= length l + 1) by (destruct o, l; simplify_eq/=; lia). destruct (IH l1) as [-> H1]; [lia|]. split; [done|]. intros l' Hl'. specialize (H1 l' Hl'). lia. }
  intros Hl. destruct (Hs [] ltac:(cbn [length]; lia)) as [He Hb]. change (abs []) with ConditionStack_init in He. rewrite He.
  destruct (steps vector_step ops []) as [l|]; [|done]. specialize (Hb l eq_refl). cbn [length] in Hb. cbn [fmap option_fmap option_map].
  split; [by destruct l|]. unfold all_true, abs. cbn [m_first_false_pos]. destruct (first_false_range l) as [[-> ->]|[H ->]]; [lia|done|]. apply Z.eqb_neq. lia.
Qed.

Lemma ConditionStack_refines_witness :
  match steps vector_step [Push true; Push false; Toggle; Pop] [], steps cond_step [Push true; Push false; Toggle; Pop] ConditionStack_init with
  | Some l, Some c => empty c = bool_decide (l = []) /\ all_true c = forallb id l
  | None, None => True
  | _, _ => False
  end.
Proof. apply (ConditionStack_refines [Push true; Push false; Toggle; Pop]). cbn. unfold NO_FALSE. lia. Defined.

End InterpTheory.
