(* ===== verification/Pubkey.v ===== *)
(** * Public keys ([pubkey.h], [pubkey.cpp])

    Keys as bytes, their serialization, extended keys, and the lax parser of
    DER signatures; the group operations of libsecp256k1 are an interface.
    The theorems: the lax parser reads the two integers of every signature the
    interpreter accepts as strict DER, and keys and extended keys survive
    being written and read back. *)
From stdpp Require Import prelude strings.
From S2P Require Import Prelude Uint256 BigNum HashStream Sha256 Hash Serialize Script Locks Interp.

Module Pubkey.
Import Serialize.

(** ** [libsecp256k1]

    A signature object is written by every call, whether it succeeds or not. *)
Class Secp256k1 := {
  secp256k1_pubkey : Type;
  secp256k1_xonly_pubkey : Type;
  secp256k1_ecdsa_signature : Type;
  secp256k1_ecdsa_recoverable_signature : Type;
  secp256k1_ec_pubkey_parse : list Z -> option secp256k1_pubkey;
  secp256k1_ec_pubkey_serialize : bool -> secp256k1_pubkey -> list Z;
  secp256k1_ec_pubkey_tweak_add : secp256k1_pubkey -> list Z -> option secp256k1_pubkey;
  secp256k1_ecdsa_signature_parse_compact : list Z -> bool * secp256k1_ecdsa_signature;
  secp256k1_ecdsa_signature_normalize : secp256k1_ecdsa_signature -> bool * secp256k1_ecdsa_signature;
  secp256k1_ecdsa_verify : secp256k1_ecdsa_signature -> list Z -> secp256k1_pubkey -> bool;
  secp256k1_ecdsa_recoverable_signature_parse_compact : list Z -> Z -> option secp256k1_ecdsa_recoverable_signature;
  secp256k1_ecdsa_recover : secp256k1_ecdsa_recoverable_signature -> list Z -> option secp256k1_pubkey;
  secp256k1_xonly_pubkey_parse : list Z -> option secp256k1_xonly_pubkey;
  secp256k1_xonly_pubkey_serialize : secp256k1_xonly_pubkey -> list Z;
  secp256k1_xonly_pubkey_from_pubkey : secp256k1_pubkey -> option (secp256k1_xonly_pubkey * Z);
  secp256k1_xonly_pubkey_tweak_add : secp256k1_xonly_pubkey -> list Z -> option secp256k1_pubkey;
  secp256k1_xonly_pubkey_tweak_add_check : list Z -> bool -> secp256k1_xonly_pubkey -> list Z -> bool;
  secp256k1_schnorrsig_verify : list Z -> list Z -> secp256k1_xonly_pubkey -> bool
}.

(** ** The lax DER parser

    The input from [pos] on; [inputlen - pos] is its length. *)

Definition tag_byte (b : Z) (input : list Z) : option (list Z) :=
  match input with [] => None | x :: r => if negb (x =? b) then None else Some r end.

Definition sequence_length (input : list Z) : option (list Z) :=
  match input with
  | [] => None
  | lenbyte :: r =>
      if negb (Z.land lenbyte 0x80 =? 0) then
        let lenbyte := lenbyte - 0x80 in
        if length r <? lenbyte then None else Some (drop (Z.to_nat lenbyte) r)
      else Some r
  end.

(** [while (lenbyte > 0 && input[pos] == 0)]: what is left of the count and of
    the input. *)
Fixpoint skip_zeros (lenbyte : nat) (input : list Z) : nat * list Z :=
  match lenbyte, input with
  | S lenbyte', x :: r => if x =? 0 then skip_zeros lenbyte' r else (lenbyte, input)
  | _, _ => (lenbyte, input)
  end.

Fixpoint read_size (lenbyte : nat) (len : Z) (input : list Z) : Z * list Z :=
  match lenbyte, input with
  | S lenbyte', x :: r => read_size lenbyte' (u64 (u64 (Z.shiftl len 8) + x)) r
  | _, _ => (len, input)
  end.

Definition integer_length (input : list Z) : option (Z * list Z) :=
  match input with
  | [] => None
  | lenbyte :: r =>
      if negb (Z.land lenbyte 0x80 =? 0) then
        let lenbyte := lenbyte - 0x80 in
        if length r <? lenbyte then None
        else
          let '(lenbyte, r) := skip_zeros (Z.to_nat lenbyte) r in
          if (4 <=? lenbyte)%nat then None else Some (read_size lenbyte 0 r)
      else Some (lenbyte, r)
  end.

(** An integer: its bytes and the rest. *)
Definition integer (input : list Z) : option (list Z * list Z) :=
  input ← tag_byte 0x02 input;
  '(len, input) ← integer_length input;
  if length input <? len then None else Some (take (Z.to_nat len) input, drop (Z.to_nat len) input).

(** [memcpy(tmpsig + 32 - len, ...)] into 32 bytes of zeros; [None] is an overflow. *)
Definition copy_value (v : list Z) : option (list Z) :=
  let '(len, v) := skip_zeros (length v) v in
  if (32 <? len)%nat then None else Some (replicate (32 - len) 0 ++ take len v).

Section Code.
Context `{Secp256k1} (junk junk128 : list Z).

Definition ecdsa_signature_parse_der_lax (input : list Z) : option secp256k1_ecdsa_signature :=
  input ← tag_byte 0x30 input;
  input ← sequence_length input;
  '(r, input) ← integer input;
  '(s, _) ← integer input;
  let '(overflow, sig) :=
    match copy_value r, copy_value s with
    | Some r, Some s => let '(ok, sig) := secp256k1_ecdsa_signature_parse_compact (r ++ s) in (negb ok, sig)
    | _, _ => (true, (secp256k1_ecdsa_signature_parse_compact (replicate 64 0)).2)
    end in
  Some (if overflow then (secp256k1_ecdsa_signature_parse_compact (replicate 64 0)).2 else sig).

(** ** [CPubKey]: 65 bytes, the first of which says how many count *)

Definition SIZE : nat := 65.
Definition COMPRESSED_SIZE : nat := 33.
Definition COMPACT_SIGNATURE_SIZE : nat := 65.
Definition GetLen (chHeader : Z) : nat :=
  if (chHeader =? 2) || (chHeader =? 3) then COMPRESSED_SIZE
  else if (chHeader =? 4) || (chHeader =? 6) || (chHeader =? 7) then SIZE
  else 0.
Definition Invalidate (vch : list Z) : list Z := <[0%nat := 0xFF]> vch.
Definition ValidSize (v : list Z) : bool := (0 <? length v)%nat && (GetLen v.[0] =? length v)%nat.
Definition Set' (vch data : list Z) : list Z :=
  let len := match data with [] => 0%nat | c :: _ => GetLen c end in
  if negb (len =? 0)%nat && (len =? length data)%nat then data ++ drop len vch else Invalidate vch.
(** A new object's bytes are [junk] but for the first. *)
Definition CPubKey_init (junk : list Z) : list Z := Invalidate junk.
Definition CPubKey (junk data : list Z) : list Z := Set' junk data.
Definition size (vch : list Z) : nat := GetLen vch.[0].
Definition bytes (vch : list Z) : list Z := take (size vch) vch.
Definition IsValid (vch : list Z) : bool := (0 <? size vch)%nat.
Definition IsCompressed (vch : list Z) : bool := (size vch =? COMPRESSED_SIZE)%nat.
Definition CPubKey_eqb (a b : list Z) : bool := (a.[0] =? b.[0]) && bool_decide (take (size a) a = take (size a) b).
Definition CPubKey_ltb (a b : list Z) : bool :=
  (a.[0] <? b.[0]) || ((a.[0] =? b.[0]) && (Blob.Compare (take (size a) a) (take (size a) b) <? 0)).

Definition CPubKey_Ser (vch : list Z) : list Z := WriteCompactSize (size vch) ++ bytes vch.
Definition CPubKey_Unser (vch : list Z) : Reader (list Z) :=
  len ← ReadCompactSize true;
  let len := u32 len in
  if len <=? SIZE then
    d ← read (Z.to_nat len);
    let vch := d ++ drop (Z.to_nat len) vch in
    mret (if negb (len =? size vch) then Invalidate vch else vch)
  else
    _ ← read (Z.to_nat len);
    mret (Invalidate vch).

Definition GetID (vch : list Z) : option (list Z) := Hash.Hash160 junk (bytes vch).
Definition CPubKey_GetHash (vch : list Z) : option (list Z) := Hash.Hash1 junk (bytes vch).

Definition Verify (vch hash vchSig : list Z) : bool :=
  if negb (IsValid vch) then false
  else
    match secp256k1_ec_pubkey_parse (bytes vch) with
    | None => false
    | Some pubkey =>
        match ecdsa_signature_parse_der_lax vchSig with
        | None => false
        | Some sig =>
            let sig := (secp256k1_ecdsa_signature_normalize sig).2 in
            secp256k1_ecdsa_verify sig hash pubkey
        end
    end.

Definition CheckLowS (vchSig : list Z) : bool :=
  match ecdsa_signature_parse_der_lax vchSig with
  | None => false
  | Some sig => negb (secp256k1_ecdsa_signature_normalize sig).1
  end.

Definition RecoverCompact (vch hash vchSig : list Z) : list Z * bool :=
  if negb (length vchSig =? COMPACT_SIGNATURE_SIZE)%nat then (vch, false)
  else
    let recid := Z.land (vchSig.[0] - 27) 3 in
    let fComp := negb (Z.land (vchSig.[0] - 27) 4 =? 0) in
    match secp256k1_ecdsa_recoverable_signature_parse_compact (drop 1 vchSig) recid with
    | None => (vch, false)
    | Some sig =>
        match secp256k1_ecdsa_recover sig hash with
        | None => (vch, false)
        | Some pubkey => (Set' vch (secp256k1_ec_pubkey_serialize fComp pubkey), true)
        end
    end.

Definition IsFullyValid (vch : list Z) : bool :=
  if negb (IsValid vch) then false else match secp256k1_ec_pubkey_parse (bytes vch) with Some _ => true | None => false end.

Definition Decompress (vch : list Z) : list Z * bool :=
  if negb (IsValid vch) then (vch, false)
  else
    match secp256k1_ec_pubkey_parse (bytes vch) with
    | None => (vch, false)
    | Some pubkey => (Set' vch (secp256k1_ec_pubkey_serialize false pubkey), true)
    end.

(** The child key, its chain code, and whether the derivation succeeded; [None]
    is a failed assertion. *)
Definition Derive (vch pubkeyChild ccChild : list Z) (nChild : Z) (cc : list Z) : option (list Z * list Z * bool) :=
  if negb (IsValid vch) || negb (Z.shiftr nChild 31 =? 0) || negb (size vch =? COMPRESSED_SIZE)%nat then None
  else
    let out := Hash.BIP32Hash junk128 cc nChild vch.[0] (drop 1 vch) (replicate 64 0) in
    let ccChild := drop 32 out in
    Some (
      match secp256k1_ec_pubkey_parse (bytes vch) with
      | None => (pubkeyChild, ccChild, false)
      | Some pubkey =>
          match secp256k1_ec_pubkey_tweak_add pubkey (take 32 out) with
          | None => (pubkeyChild, ccChild, false)
          | Some pubkey => (Set' pubkeyChild (secp256k1_ec_pubkey_serialize true pubkey), ccChild, true)
          end
      end).

(** ** [XOnlyPubKey]: 32 bytes *)

Definition XOnlyPubKey (b : list Z) : option (list Z) := if (length b =? 32)%nat then Some b else None.
Definition GetKeyIDs (m_keydata : list Z) : option (list (list Z)) :=
  id1 ← GetID (Set' (CPubKey_init (replicate 65 0)) (0x02 :: m_keydata));
  id2 ← GetID (Set' (CPubKey_init (replicate 65 0)) (0x03 :: m_keydata));
  Some [id1; id2].
Definition XOnly_IsFullyValid (m_keydata : list Z) : bool :=
  match secp256k1_xonly_pubkey_parse m_keydata with Some _ => true | None => false end.
Definition VerifySchnorr (m_keydata msg sigbytes : list Z) : option bool :=
  if negb (length sigbytes =? 64)%nat then None
  else Some (match secp256k1_xonly_pubkey_parse m_keydata with
             | None => false
             | Some pubkey => secp256k1_schnorrsig_verify sigbytes msg pubkey
             end).

Definition ascii_bytes (s : string) : list Z := map (fun a => Z.of_N (Ascii.N_of_ascii a)) (String.list_ascii_of_string s).
Definition HASHER_TAPTWEAK : Sha256.CSHA256 := Hash.TaggedHash junk (ascii_bytes "TapTweak").
Definition ComputeTapTweakHash (m_keydata : list Z) (merkle_root : option (list Z)) : list Z :=
  match merkle_root with
  | None => Hash.GetSHA256 (Hash.CHashWriter_write HASHER_TAPTWEAK m_keydata)
  | Some root => Hash.GetSHA256 (Hash.CHashWriter_write (Hash.CHashWriter_write HASHER_TAPTWEAK m_keydata) root)
  end.
Definition CheckTapTweak (m_keydata internal merkle_root : list Z) (parity : bool) : bool :=
  match secp256k1_xonly_pubkey_parse internal with
  | None => false
  | Some internal_key =>
      let tweak := ComputeTapTweakHash internal (Some merkle_root) in
      secp256k1_xonly_pubkey_tweak_add_check m_keydata parity internal_key tweak
  end.
(** [None] is a failed assertion. *)
Definition CreateTapTweak (m_keydata : list Z) (merkle_root : option (list Z)) : option (option (list Z * bool)) :=
  match secp256k1_xonly_pubkey_parse m_keydata with
  | None => Some None
  | Some base_point =>
      let tweak := ComputeTapTweakHash m_keydata merkle_root in
      match secp256k1_xonly_pubkey_tweak_add base_point tweak with
      | None => Some None
      | Some out =>
          match secp256k1_xonly_pubkey_from_pubkey out with
          | None => Some None
          | Some (out_xonly, parity) =>
              if (parity =? 0) || (parity =? 1) then Some (Some (secp256k1_xonly_pubkey_serialize out_xonly, negb (parity =? 0))) else None
          end
      end
  end.

(** ** [CExtPubKey] *)

Definition BIP32_EXTKEY_SIZE : nat := 74.
Definition BIP32_EXTKEY_WITH_VERSION_SIZE : nat := 78.
Record CExtPubKey := mkExt {
  version : list Z;
  nDepth : Z;
  vchFingerprint : list Z;
  nChild : Z;
  chaincode : list Z;
  pubkey : list Z
}.
Definition CExtPubKey_eqb (a b : CExtPubKey) : bool :=
  (nDepth a =? nDepth b) && bool_decide (take 4 (vchFingerprint a) = take 4 (vchFingerprint b)) && (nChild a =? nChild b) &&
  bool_decide (chaincode a = chaincode b) && CPubKey_eqb (pubkey a) (pubkey b).

(** The 74 bytes; [None] is a failed assertion. *)
Definition Encode (k : CExtPubKey) : option (list Z) :=
  if negb (size (pubkey k) =? COMPRESSED_SIZE)%nat then None
  else Some ([nDepth k] ++ take 4 (vchFingerprint k) ++ WriteBE32 (replicate 4 0) 0 (nChild k) ++ take 32 (chaincode k) ++
             take COMPRESSED_SIZE (pubkey k)).
(** [version] stays; a key that is not on the curve is replaced by a new one. *)
Definition Decode (k : CExtPubKey) (code : list Z) : CExtPubKey :=
  let nDepth := code.[0] in
  let vchFingerprint := take 4 (drop 1 code) in
  let nChild := ReadBE32 code 5 in
  let chaincode := take 32 (drop 9 code) in
  let pubkey := Set' (pubkey k) (take 33 (drop 41 code)) in
  let pubkey :=
    if ((nDepth =? 0) && (negb (nChild =? 0) || negb (ReadLE32 vchFingerprint 0 =? 0))) || negb (IsFullyValid pubkey)
    then CPubKey_init (replicate 65 0) else pubkey in
  mkExt (version k) nDepth vchFingerprint nChild chaincode pubkey.
Definition EncodeWithVersion (k : CExtPubKey) : option (list Z) := code ← Encode k; Some (take 4 (version k) ++ code).
Definition DecodeWithVersion (k : CExtPubKey) (code : list Z) : CExtPubKey :=
  Decode (mkExt (take 4 code) (nDepth k) (vchFingerprint k) (nChild k) (chaincode k) (pubkey k)) (drop 4 code).

Definition CExtPubKey_Derive (k out : CExtPubKey) (_nChild : Z) : option (CExtPubKey * bool) :=
  id ← GetID (pubkey k);
  '(key, cc, ok) ← Derive (pubkey k) (pubkey out) (chaincode out) _nChild (chaincode k);
  Some (mkExt (version out) (u8 (nDepth k + 1)) (take 4 id) _nChild cc key, ok).

End Code.

(** ** Strict DER *)

(** The bytes of an integer: at least one, not negative, no padding. *)
Definition der_minimal (v : list Z) : Prop := v <> [] /\ v.[0] < 128 /\ ((1 < length v)%nat -> v.[0] = 0 -> 128 <= v.[1]).
Definition der_signature (R S : list Z) (h : Z) : list Z :=
  0x30 :: (4 + length R + length S) :: 0x02 :: Z.of_nat (length R) :: R ++ 0x02 :: Z.of_nat (length S) :: S ++ [h].

(** Two lengths that add up. *)
Definition framed (s0 s1 s2 : Z) (R : list Z) (a : Z) (S : list Z) (h : Z) : list Z :=
  s0 :: s1 :: s2 :: Z.of_nat (length R) :: R ++ a :: Z.of_nat (length S) :: S ++ [h].

Lemma framed_length s0 s1 s2 R a S h : Z.of_nat (length (framed s0 s1 s2 R a S h)) = length R + length S + 7.
Proof. unfold framed. cbn [length]. rewrite length_app. cbn [length]. rewrite length_app. cbn [length]. lia. Qed.

Lemma framed_nth s0 s1 s2 R a S h (k : nat) i :
  i = length R + 4 + k -> (framed s0 s1 s2 R a S h).[Z.to_nat i] = (a :: Z.of_nat (length S) :: S ++ [h]).[k].
Proof.
  intros ->. unfold framed. replace (Z.to_nat (length R + 4 + k)) with (4 + (length R + k))%nat by lia. cbn [nth Nat.add].
  rewrite app_nth2 by lia. by replace (length R + k - length R)%nat with k by lia.
Qed.

Lemma framed_shape sig :
  digits 8 sig -> 9 <= length sig -> 5 + sig.[3] < length sig -> sig.[3] + sig.[Z.to_nat (5 + sig.[3])] + 7 = length sig ->
  exists s0 s1 s2 R a S h, sig = framed s0 s1 s2 R a S h.
Proof.
  intros Hd Hl. destruct sig as [|s0 [|s1 [|s2 [|s3 t]]]]; cbn [length] in *; try lia. change ((s0 :: s1 :: s2 :: s3 :: t).[3]) with s3.
  intros H3 Hs. repeat apply Forall_cons in Hd as [? Hd]. unfold in_u in *.
  exists s0, s1, s2, (take (Z.to_nat s3) t). assert (length (take (Z.to_nat s3) t) = Z.to_nat s3) as HR by (rewrite length_take; lia).
  pose proof (take_drop (Z.to_nat s3) t) as Ht. set (R := take _ t) in *. destruct (drop (Z.to_nat s3) t) as [|a [|b u]] eqn:Eu.
  1, 2: apply (f_equal length) in Eu; rewrite length_drop in Eu; cbn [length] in Eu; lia.
  assert ((s0 :: s1 :: s2 :: s3 :: t).[Z.to_nat (5 + s3)] = b) as Eb.
  { replace (Z.to_nat (5 + s3)) with (4 + (length R + 1))%nat by lia. cbn [nth Nat.add]. rewrite <- Ht, app_nth2 by lia.
    by replace (length R + 1 - length R)%nat with 1%nat by lia. }
  rewrite Eb in Hs. assert (digits 8 (R ++ a :: b :: u)) as (_ & Hab)%digits_app by (by rewrite Ht). repeat apply Forall_cons in Hab as [? Hab].
  apply (f_equal length) in Ht as Hlt. rewrite length_app in Hlt. cbn [length] in Hlt. unfold in_u in *.
  destruct (exists_last (l := u)) as (S & h & ->); [intros ->; cbn in Hlt; lia|]. rewrite length_app in Hlt. cbn [length] in Hlt.
  exists a, S, h. unfold framed. rewrite <- Ht. repeat f_equal; lia.
Qed.

Lemma minimal_bits v w : digits 8 v -> v <> [] ->
  (Z.land v.[0] 0x80 =? 0) = true /\ (1 <? length v) && (v.[0] =? 0) && (Z.land (v ++ w).[1] 0x80 =? 0) = false <-> der_minimal v.
Proof.
  intros Hd Hne. destruct v as [|a v]; [done|]. apply Forall_cons in Hd as [Ha Hd]. pose proof (Script.flag_80 a Ha) as Fa. cbn [nth] in *.
  unfold der_minimal. cbn [nth length]. destruct v as [|b v]; cbn [nth app length].
  - change (1 <? 1%nat) with false. rewrite !andb_false_l. rewrite <- negb_false_iff, Fa, Z.leb_gt. split; [intros [? _]; split; [done|split; [done|intros ?; lia]]|intros (_ & ? & _); done].
  - apply Forall_cons in Hd as [Hb _]. pose proof (Script.flag_80 b Hb) as Fb. rewrite <- negb_false_iff, Fa, Z.leb_gt.
    rewrite (proj2 (Z.ltb_lt 1 (S (S (length v))))) by lia. rewrite andb_true_l.
    destruct (Z.eqb_spec a 0) as [->|]; cbn [andb].
    + rewrite <- negb_true_iff, Fb, Z.leb_le. split; [intros [? ?]; done|intros (_ & ? & Hb1); split; [done|apply Hb1; [lia|done]]].
    + split; [intros [? _]; done|by intros (_ & ? & _)].
Qed.

Lemma guard_false (c e : bool) : (if c then false else e) = negb c && e.
Proof. by destruct c. Qed.

Lemma framed_valid s0 s1 s2 R a S h :
  digits 8 R -> digits 8 S ->
  (Interp.IsValidSignatureEncoding (framed s0 s1 s2 R a S h) = true <->
   s0 = 0x30 /\ s1 = 4 + length R + length S /\ s2 = 0x02 /\ a = 0x02 /\ der_minimal R /\ der_minimal S /\ length R + length S <= 66).
Proof.
  intros HR HS. set (sig := framed s0 s1 s2 R a S h).
  assert (sig.[3] = length R) as E3 by done. pose proof (framed_length s0 s1 s2 R a S h) as El. fold sig in El.
  pose proof (framed_nth s0 s1 s2 R a S h 1 (5 + length R) ltac:(lia)) as E5. pose proof (framed_nth s0 s1 s2 R a S h 0 (length R + 4) ltac:(lia)) as E4.
  pose proof (framed_nth s0 s1 s2 R a S h 2 (length R + 6) ltac:(lia)) as E6. pose proof (framed_nth s0 s1 s2 R a S h 3 (length R + 7) ltac:(lia)) as E7.
  fold sig in E4, E5, E6, E7. cbn [nth] in E4, E5, E6, E7. unfold Interp.IsValidSignatureEncoding. rewrite El, E3, E5, E4, E6, E7.
  change (sig.[0]) with s0. change (sig.[1]) with s1. change (sig.[2]) with s2.
  destruct R as [|r R]; [|destruct S as [|t S]].
  - split; [|by intros (_ & _ & _ & _ & (? & _) & _)]. intros Hv. exfalso. repeat (case_if_in Hv; [done|]). cbn [length] in *. cases_bool. done.
  - split; [|by intros (_ & _ & _ & _ & _ & (? & _) & _)]. intros Hv. exfalso. repeat (case_if_in Hv; [done|]). cbn [length] in *. cases_bool. done.
  - rewrite <- (minimal_bits (r :: R) (a :: Z.of_nat (length (t :: S)) :: (t :: S) ++ [h])), <- (minimal_bits (t :: S) [h]) by done.
    change (sig.[4]) with ((r :: R).[0]). change (sig.[5]) with (((r :: R) ++ a :: Z.of_nat (length (t :: S)) :: (t :: S) ++ [h]).[1]).
    change (((t :: S) ++ [h]).[0]) with ((t :: S).[0]).
    rewrite !guard_false, !negb_involutive, !andb_true_iff, !negb_true_iff, !Z.ltb_ge, !Z.leb_gt, !Z.eqb_eq, !Z.eqb_neq. cbn [length].
    split; [intros; destruct_and!|intros; destruct_and!]; repeat split; done || lia.
Qed.

(** ** The lax parser on strict signatures *)

(** The 32 bytes of a number, the high ones first. *)
Definition be32 (x : Z) : list Z := rev (le_digits 8 32 x).

Lemma skip_zeros_spec v : digits 8 v ->
  exists w, skip_zeros (length v) v = (length w, w) /\ digits 8 w /\ be_val w = be_val v /\ (w = [] \/ exists c w', w = c :: w' /\ c <> 0).
Proof.
  induction v as [|x v IH]; intros Hd; cbn [length skip_zeros]; [exists []; split; [done|split; [done|split; [done|by left]]]|].
  apply Forall_cons in Hd as [Hx Hd]. destruct (x =? 0) eqn:E; cases_bool.
  - subst x. destruct (IH Hd) as (w & -> & ? & Hw & ?). exists w. rewrite CBigNum.be_val_cons, Hw. repeat split; try done. lia.
  - exists (x :: v). repeat split; [by constructor|]. right. by exists x, v.
Qed.

Lemma rev_replicate {A} n (x : A) : rev (replicate n x) = replicate n x.
Proof. rewrite rev_alt. apply reverse_replicate. Qed.

Lemma copy_value_spec v : digits 8 v -> copy_value v = if be_val v <? 2 ^ 256 then Some (be32 (be_val v)) else None.
Proof.
  intros Hd. destruct (skip_zeros_spec v Hd) as (w & Hs & Hw & <- & Hc). unfold copy_value. rewrite Hs, take_ge by lia.
  pose proof (CBigNum.be_val_bound w Hw) as Hb. destruct (32 <? length w)%nat eqn:El; cases_bool.
  - rewrite (proj2 (Z.ltb_ge _ _)); [done|]. destruct Hc as [->|(c & w' & -> & Hc)]; [cbn in El; lia|].
    apply Forall_cons in Hw as [Hc8 Hw']. pose proof (CBigNum.be_val_bound w' Hw'). rewrite CBigNum.be_val_cons. cbn [length] in El. unfold in_u in Hc8.
    assert (2 ^ 256 <= 2 ^ (8 * length w')) by (apply Z.pow_le_mono_r; lia). nia.
  - assert (2 ^ (8 * length w) <= 2 ^ 256) by (apply Z.pow_le_mono_r; lia). rewrite (proj2 (Z.ltb_lt _ _)) by lia. f_equal.
    unfold be32. rewrite <- (rev_involutive (replicate _ 0 ++ w)). f_equal. rewrite rev_app_distr.
    assert (length (rev w ++ rev (replicate (32 - length w) 0)) = 32%nat) as Hl by (rewrite length_app, !length_rev, length_replicate; lia).
    set (l := rev w ++ _) in *. assert (le_val 8 l = be_val w) as Hv.
    { subst l. rewrite (le_val_app 8) by lia. rewrite rev_replicate, (le_val_replicate_0 8) by lia. unfold be_val. lia. }
    rewrite <- Hv, <- Hl, (le_digits_val 8); [done|lia|]. subst l. apply Forall_app. split; [by apply Forall_rev|].
    rewrite rev_replicate. apply Forall_replicate. done.
Qed.

Lemma integer_der (v rest : list Z) : length v < 128 -> integer (0x02 :: Z.of_nat (length v) :: v ++ rest) = Some (v, rest).
Proof.
  intros Hl. unfold integer, tag_byte, integer_length. cbn [Z.eqb Pos.eqb negb mbind option_bind].
  pose proof (Script.flag_80 (length v) ltac:(unfold in_u; lia)) as ->. rewrite (proj2 (Z.leb_gt _ _)) by lia. cbn [mbind option_bind].
  rewrite (proj2 (Z.ltb_ge _ _)) by (rewrite length_app; lia). rewrite Nat2Z.id, take_app_length, drop_app_length. done.
Qed.

(** The signature object for two integers; those that do not fit become the zeros that verify nothing. *)
Definition signature_of `{Secp256k1} (r s : Z) : secp256k1_ecdsa_signature :=
  let zero := (secp256k1_ecdsa_signature_parse_compact (replicate 64 0)).2 in
  if (r <? 2 ^ 256) && (s <? 2 ^ 256) then
    let '(ok, sig) := secp256k1_ecdsa_signature_parse_compact (be32 r ++ be32 s) in if ok then sig else zero
  else zero.

Lemma lax_der `{Secp256k1} R S : digits 8 R -> digits 8 S -> length R + length S <= 66 ->
  ecdsa_signature_parse_der_lax (0x30 :: (4 + length R + length S) :: 0x02 :: Z.of_nat (length R) :: R ++ 0x02 :: Z.of_nat (length S) :: S) =
  Some (signature_of (be_val R) (be_val S)).
Proof.
  intros HR HS Hl. unfold ecdsa_signature_parse_der_lax, tag_byte at 1, sequence_length. cbn [Z.eqb Pos.eqb negb mbind option_bind].
  pose proof (Script.flag_80 (4 + length R + length S) ltac:(unfold in_u; lia)) as ->. rewrite (proj2 (Z.leb_gt _ _)) by lia. cbn [mbind option_bind].
  rewrite integer_der by lia. cbn [mbind option_bind]. pose proof (integer_der S [] ltac:(lia)) as E. rewrite app_nil_r in E. rewrite E. cbn [mbind option_bind].
  rewrite !copy_value_spec by done. unfold signature_of. destruct (be_val R <? 2 ^ 256), (be_val S <? 2 ^ 256); cbn [andb]; try done.
  destruct (secp256k1_ecdsa_signature_parse_compact (be32 _ ++ _)) as [[] ?]; done.
Qed.

(** C31: A signature the interpreter accepts as strict DER is 30, its length, the two integers with their tags and
    lengths, neither negative nor padded, and the hash type; conversely everything of this form with up to 66 bytes
    of integers is accepted; and on such a signature the lax parser, which runs without the hash type, returns the
    object for exactly the two integers. *)
Theorem der_strict_lax `{Secp256k1} sig :
  digits 8 sig ->
  (Interp.IsValidSignatureEncoding sig = true <->
   exists R S h, sig = der_signature R S h /\ der_minimal R /\ der_minimal S /\ length R + length S <= 66) /\
  (forall R S h, sig = der_signature R S h -> length R + length S <= 66 ->
   ecdsa_signature_parse_der_lax (take (length sig - 1) sig) = Some (signature_of (be_val R) (be_val S))).
Proof.
  assert (forall R S h, digits 8 (der_signature R S h) -> digits 8 R /\ digits 8 S) as Hparts.
  { intros R S h Hd. unfold der_signature in Hd. repeat apply Forall_cons in Hd as [_ Hd]. apply digits_app in Hd as [HR Hd].
    repeat apply Forall_cons in Hd as [_ Hd]. by apply digits_app in Hd as [HS _]. }
  intros Hd. split; [split|].
  - intros Hv. destruct (framed_shape sig Hd) as (s0 & s1 & s2 & R & a & S & h & ->).
    1-3: unfold Interp.IsValidSignatureEncoding in Hv; repeat (case_if_in Hv; [done|]); cases_bool; lia.
    exists R, S, h. unfold framed in Hd. repeat apply Forall_cons in Hd as [_ Hd]. apply digits_app in Hd as [HR Hd].
    repeat apply Forall_cons in Hd as [_ Hd]. apply digits_app in Hd as [HS _]. apply framed_valid in Hv as (-> & -> & -> & -> & ? & ? & ?); done.
  - intros (R & S & h & -> & HR & HS & Hl). destruct (Hparts _ _ _ Hd). apply (framed_valid 0x30 (4 + length R + length S) 0x02 R 0x02 S h); done.
  - intros R S h -> Hl. destruct (Hparts _ _ _ Hd). rewrite <- lax_der by done. f_equal.
    assert (der_signature R S h = (0x30 :: (4 + length R + length S) :: 0x02 :: Z.of_nat (length R) :: R ++ 0x02 :: Z.of_nat (length S) :: S) ++ [h]) as ->.
    { unfold der_signature. cbn [app]. by rewrite <- app_assoc. }
    rewrite length_app, Nat.add_sub. apply take_app_length.
Qed.

(** ** Round trips *)

Lemma GetLen_cases c : GetLen c = 0%nat \/ GetLen c = 33%nat \/ GetLen c = 65%nat.
Proof. unfold GetLen. repeat case_if; auto. Qed.

Lemma Invalidate_spec vch : vch <> [] -> size (Invalidate vch) = 0%nat.
Proof. by destruct vch. Qed.

(** A key is stored as it is given or made invalid. *)
Lemma Set_spec vch data :
  length vch = SIZE ->
  length (Set' vch data) = SIZE /\
  if ValidSize data then bytes (Set' vch data) = data /\ (Set' vch data).[0] = data.[0] else IsValid (Set' vch data) = false.
Proof.
  intros Hl. assert (length (Invalidate vch) = SIZE /\ IsValid (Invalidate vch) = false) as Hi.
  { unfold Invalidate, IsValid. rewrite length_insert. split; [done|]. by rewrite Invalidate_spec by (intros ->; done). }
  unfold Set', ValidSize. destruct data as [|c data]; cbn [length]; [exact Hi|]. change ((c :: data).[0]) with c.
  rewrite (proj2 (Nat.ltb_lt 0 (S _))) by lia. rewrite andb_true_l. destruct (GetLen c =? S (length data))%nat eqn:El; [|rewrite andb_false_r; exact Hi].
  cases_bool. rewrite (proj2 (Nat.eqb_neq (GetLen c) 0)) by lia. cbn [negb andb]. pose proof (GetLen_cases c).
  split; [rewrite length_app, length_drop; cbn [length]; unfold SIZE in *; lia|]. split; [|done]. unfold bytes, size. cbn [app nth]. rewrite El.
  change (c :: data ++ _) with ((c :: data) ++ drop (S (length data)) vch). by apply take_app_length'.
Qed.

Lemma size_le vch : (size vch <= 65)%nat.
Proof. unfold size. pose proof (GetLen_cases vch.[0]). lia. Qed.

Lemma key_bytes_length vch : length vch = SIZE -> length (bytes vch) = size vch.
Proof. intros Hl. unfold bytes. pose proof (size_le vch). rewrite length_take, Hl. unfold SIZE. lia. Qed.

Lemma bytes_head vch : IsValid vch = true -> (bytes vch).[0] = vch.[0].
Proof. unfold IsValid, bytes. intros Hv. cases_bool. destruct (size vch) eqn:E; [lia|]. by destruct vch. Qed.

Lemma CPubKey_read vch vch0 rest :
  length vch = SIZE -> length vch0 = SIZE ->
  let k := bytes vch ++ drop (size vch) vch0 in
  CPubKey_Unser vch0 (CPubKey_Ser vch ++ rest) = inr (if negb (Z.of_nat (size vch) =? size k) then Invalidate k else k, rest).
Proof.
  intros Hl Hl0 k. pose proof (size_le vch) as Hs. pose proof (key_bytes_length vch Hl) as Hb. unfold CPubKey_Unser, CPubKey_Ser. rewrite <- app_assoc.
  rewrite (bind_inr _ _ _ _ _ (ReadCompactSize_app true (size vch) (bytes vch ++ rest) ltac:(unfold in_u; lia) ltac:(unfold MAX_SIZE; lia))).
  rewrite u32_small by (unfold in_u; lia). rewrite (proj2 (Z.leb_le _ _)) by (unfold SIZE; lia). rewrite Nat2Z.id.
  by rewrite (bind_inr _ _ _ _ _ (read_app (size vch) (bytes vch) rest Hb)).
Qed.

Lemma CPubKey_Unser_inv vch0 s k rest :
  length vch0 = SIZE -> digits 8 s -> CPubKey_Unser vch0 s = inr (k, rest) -> IsValid k = true -> s = CPubKey_Ser k ++ rest.
Proof.
  intros Hl0 Hd (len & s1 & H1 & H2)%bind_inv Hv. apply ReadCompactSize_inv in H1 as (-> & Hlen & Hmax & Hd1); [|done]. specialize (Hmax eq_refl).
  rewrite u32_small in H2 by (unfold in_u, MAX_SIZE in *; lia). unfold CPubKey_Ser. cbv zeta in H2. destruct (len <=? SIZE) eqn:El; cases_bool.
  - apply bind_inv in H2 as (d & s2 & Hr & Hk). apply read_inv in Hr as (-> & Hld). injection Hk as Hk ->. destruct (negb _) eqn:En; cases_bool.
    + subst k. exfalso. unfold IsValid in Hv. rewrite Invalidate_spec in Hv; [done|]. intros E%(f_equal length). rewrite length_app, length_drop in E.
      cbn [length] in E. unfold SIZE in *. lia.
    + rewrite Hk in En. unfold in_u in Hlen. assert (length d = size k) as Hdk by lia. unfold bytes. rewrite <- app_assoc, <- En, <- Hdk. do 2 f_equal.
      rewrite <- Hk. symmetry. apply take_app_length.
  - apply bind_inv in H2 as (d & s2 & Hr & Hk). injection Hk as <- <-. exfalso. unfold IsValid in Hv. rewrite Invalidate_spec in Hv; [done|]. by intros ->.
Qed.

(** Reading back a key that was written gives the same key, or an invalid one for an invalid one, whatever the
    object that is read into held; and the bytes a valid key is read from are those it is written as. *)
Theorem CPubKey_roundtrip vch vch0 rest :
  length vch = SIZE -> length vch0 = SIZE ->
  (exists k, CPubKey_Unser vch0 (CPubKey_Ser vch ++ rest) = inr (k, rest) /\ length k = SIZE /\ bytes k = bytes vch /\ IsValid k = IsValid vch /\
             (IsValid vch = true -> CPubKey_eqb k vch = true)) /\
  (forall s k, digits 8 s -> CPubKey_Unser vch0 s = inr (k, rest) -> IsValid k = true -> s = CPubKey_Ser k ++ rest).
Proof.
  intros Hl Hl0. split; [|by eauto using CPubKey_Unser_inv]. eexists. split; [by apply CPubKey_read|]. pose proof (size_le vch) as Hs.
  pose proof (key_bytes_length vch Hl) as Hb. unfold IsValid, CPubKey_eqb. destruct (size vch) as [|n] eqn:E.
  - assert (bytes vch = []) as -> by (unfold bytes; by rewrite E). rewrite app_nil_l, drop_0. destruct (negb _) eqn:E0; cases_bool.
    + assert (size (Invalidate vch0) = 0%nat) as E1 by (apply Invalidate_spec; by intros ->). unfold bytes. rewrite E1.
      split; [|done]. unfold Invalidate. by rewrite length_insert.
    + split; [done|]. unfold bytes. by rewrite <- (Nat2Z.inj _ _ E0).
  - assert ((bytes vch ++ drop (S n) vch0).[0] = vch.[0]) as Eh.
    { rewrite app_nth1 by lia. apply bytes_head. unfold IsValid. by rewrite E. }
    assert (size (bytes vch ++ drop (S n) vch0) = S n) as Esz by (unfold size; rewrite Eh; exact E). rewrite Esz, Z.eqb_refl. cbn [negb]. rewrite Esz.
    split; [rewrite length_app, Hb, length_drop; unfold SIZE in *; lia|]. split; [|split; [done|]].
    + unfold bytes at 1. rewrite Esz. by apply take_app_length'.
    + intros _. rewrite Eh, Z.eqb_refl. apply bool_decide_eq_true_2. rewrite take_app_length' by done. unfold bytes. by rewrite E.
Qed.

(** ** Extended keys *)

Record ext_ok (k : CExtPubKey) : Prop := {
  ok_fingerprint : length (vchFingerprint k) = 4%nat;
  ok_child : in_u 32 (nChild k);
  ok_chain : length (chaincode k) = 32%nat;
  ok_key : length (pubkey k) = SIZE
}.

(** A key at depth 0 has no parent and no number. *)
Definition rooted (k : CExtPubKey) : bool := negb ((nDepth k =? 0) && (negb (nChild k =? 0) || negb (ReadLE32 (vchFingerprint k) 0 =? 0))).

Lemma WriteBE32_bytes x : WriteBE32 (replicate 4 0) 0 x = rev (le_digits 8 4 x).
Proof. done. Qed.

Lemma fields_at d (fp be cc key : list Z) :
  length fp = 4%nat -> length be = 4%nat -> length cc = 32%nat -> length key = 33%nat ->
  let code := d :: fp ++ be ++ cc ++ key in
  length code = 74%nat /\ take 4 (drop 1 code) = fp /\ take 4 (drop 5 code) = be /\ take 32 (drop 9 code) = cc /\ take 33 (drop 41 code) = key.
Proof.
  intros Hf Hb Hc Hk code. subst code. split; [cbn [length]; rewrite !length_app; lia|]. cbn [drop].
  assert (forall (a l : list Z) m n, length a = m -> drop (m + n) (a ++ l) = drop n l) as D.
  { intros a l m n <-. by rewrite <- drop_drop, drop_app_length. }
  split; [by apply take_app_length'|]. rewrite (D fp _ 4%nat 0%nat) by done. split; [by apply take_app_length'|].
  rewrite (D fp _ 4%nat 4%nat), (D be _ 4%nat 0%nat) by done. split; [by apply take_app_length'|].
  rewrite (D fp _ 4%nat 36%nat), (D be _ 4%nat 32%nat), (D cc _ 32%nat 0%nat) by done. apply take_ge. lia.
Qed.

Section Ext.
Context `{Secp256k1}.

Lemma Decode_Encode k k0 code :
  ext_ok k -> length (pubkey k0) = SIZE -> Encode k = Some code -> IsFullyValid (pubkey k) = true -> rooted k = true ->
  length code = BIP32_EXTKEY_SIZE /\ CExtPubKey_eqb (Decode k0 code) k = true.
Proof.
  intros [Hf Hc Hcc Hk] Hk0 He Hv Hr. unfold Encode in He. destruct (negb _) eqn:Es; [done|]. cases_bool. apply (inj Some) in He as <-.
  rewrite WriteBE32_bytes, !take_ge by lia. cbn [app].
  assert (take COMPRESSED_SIZE (pubkey k) = bytes (pubkey k)) as Ek by (unfold bytes; by rewrite Es). rewrite Ek.
  destruct (fields_at (nDepth k) (vchFingerprint k) (rev (le_digits 8 4 (nChild k))) (chaincode k) (bytes (pubkey k))) as (Hl & E1 & E2 & E3 & E4); try done.
  { by rewrite key_bytes_length. }
  split; [done|]. unfold Decode. set (code := nDepth k :: _) in *. change (code.[0]) with (nDepth k). unfold ReadBE32, ReadBE. rewrite E1, E2, E3, E4.
  rewrite rev_involutive, (le_val_digits 8), Z.mod_small by (unfold in_u in Hc; lia).
  assert (ValidSize (bytes (pubkey k)) = true) as Hvs.
  { unfold ValidSize. rewrite key_bytes_length, Es by done. rewrite bytes_head by (unfold IsValid; by rewrite Es). change (GetLen (pubkey k).[0]) with (size (pubkey k)). by rewrite Es. }
  destruct (Set_spec (pubkey k0) (bytes (pubkey k)) Hk0) as [_ Hset]. rewrite Hvs in Hset. destruct Hset as [Hb0 Hh0].
  assert (size (Set' (pubkey k0) (bytes (pubkey k))) = 33%nat) as Hs0.
  { unfold size. rewrite Hh0, bytes_head by (unfold IsValid; by rewrite Es). exact Es. }
  assert (IsFullyValid (Set' (pubkey k0) (bytes (pubkey k))) = true) as ->.
  { unfold IsFullyValid in *. unfold IsValid in *. rewrite Hs0, Hb0. rewrite Es in Hv. exact Hv. }
  unfold rooted in Hr. apply negb_true_iff in Hr as ->. cbn [orb negb]. unfold CExtPubKey_eqb. cbn [nDepth vchFingerprint nChild chaincode pubkey].
  rewrite !Z.eqb_refl, !bool_decide_eq_true_2 by done. cbn [andb]. unfold CPubKey_eqb. rewrite Hh0, bytes_head, Z.eqb_refl by (unfold IsValid; by rewrite Es).
  cbn [andb]. rewrite Hs0. apply bool_decide_eq_true_2. transitivity (bytes (Set' (pubkey k0) (bytes (pubkey k)))).
  - set (K := Set' _ _) in *. unfold bytes. by rewrite Hs0.
  - rewrite Hb0. unfold bytes. by rewrite Es.
Qed.

Lemma code_fields code : length code = BIP32_EXTKEY_SIZE ->
  code = code.[0] :: take 4 (drop 1 code) ++ take 4 (drop 5 code) ++ take 32 (drop 9 code) ++ take 33 (drop 41 code).
Proof.
  intros Hl. destruct code as [|d code]; [done|]. cbn [nth drop]. f_equal. rewrite (take_ge (drop 40 code)) by (rewrite length_drop; cbn [length] in Hl; unfold BIP32_EXTKEY_SIZE in Hl; lia).
  rewrite <- (take_drop 4 code) at 1. f_equal. rewrite <- (take_drop 4 (drop 4 code)) at 1. f_equal. rewrite drop_drop.
  rewrite <- (take_drop 32 (drop (4 + 4) code)) at 1. by rewrite drop_drop.
Qed.

Lemma Encode_Decode k0 code :
  length (pubkey k0) = SIZE -> length code = BIP32_EXTKEY_SIZE -> digits 8 code -> IsValid (pubkey (Decode k0 code)) = true -> Encode (Decode k0 code) = Some code.
Proof.
  intros Hk0 Hl Hd Hv. unfold Decode in *. cbn [pubkey] in Hv. destruct (_ || _); [done|]. unfold Encode. cbn [pubkey nDepth vchFingerprint nChild chaincode].
  destruct (Set_spec (pubkey k0) (take 33 (drop 41 code)) Hk0) as [_ Hs]. destruct (ValidSize _) eqn:Evs; [|congruence]. destruct Hs as [Hb Hh].
  assert (length (take 33 (drop 41 code)) = 33%nat) as Hlk by (rewrite length_take, length_drop, Hl; done).
  assert (size (Set' (pubkey k0) (take 33 (drop 41 code))) = 33%nat) as Hs.
  { unfold ValidSize in Evs. cases_bool. unfold size. rewrite Hh. by rewrite H1, Hlk. }
  rewrite Hs. change (negb (33 =? COMPRESSED_SIZE)%nat) with false. cbv iota. f_equal.
  set (K := Set' _ _) in *. unfold bytes in Hb. rewrite Hs in Hb. unfold COMPRESSED_SIZE. rewrite Hb, WriteBE32_bytes.
  unfold ReadBE32, ReadBE. rewrite !take_take. change (4 `min` 4)%nat with 4%nat. change (32 `min` 32)%nat with 32%nat.
  assert (length (rev (take 4 (drop 5 code))) = 4%nat) as Hr by (rewrite length_rev, length_take, length_drop, Hl; done).
  rewrite <- Hr at 2. rewrite (le_digits_val 8), rev_involutive; [|lia|apply Forall_rev; by apply Forall_take, Forall_drop].
  cbn [app]. symmetry. by apply code_fields.
Qed.

(** Encoding and decoding an extended key are inverse to each other: the 74 bytes of a key on the curve that is not
    a numbered root decode to an equal key, and the bytes that decode to a valid key are those it encodes to; what
    is not on the curve, or a root with a number or a parent, decodes to an invalid key. *)
Theorem CExtPubKey_roundtrip k k0 code :
  ext_ok k -> length (pubkey k0) = SIZE ->
  (Encode k = Some code -> IsFullyValid (pubkey k) = true -> rooted k = true ->
     length code = BIP32_EXTKEY_SIZE /\ CExtPubKey_eqb (Decode k0 code) k = true) /\
  (length code = BIP32_EXTKEY_SIZE -> digits 8 code ->
     if IsValid (pubkey (Decode k0 code)) then Encode (Decode k0 code) = Some code /\ rooted (Decode k0 code) = true
     else rooted (Decode k0 code) = false \/ IsFullyValid (Set' (pubkey k0) (take 33 (drop 41 code))) = false).
Proof.
  intros Hk Hk0. split; [intros; by apply Decode_Encode|]. intros Hl Hd. destruct (IsValid _) eqn:Ev.
  - split; [by apply Encode_Decode|]. unfold Decode in *. cbn [pubkey] in Ev. unfold rooted. cbn [nDepth nChild vchFingerprint].
    destruct (_ || negb (IsFullyValid _)) eqn:E; [done|]. apply orb_false_iff in E as [-> _]. done.
  - unfold Decode in *. cbn [pubkey] in Ev. unfold rooted. cbn [nDepth nChild vchFingerprint]. destruct (_ || negb (IsFullyValid _)) eqn:E.
    + apply orb_true_iff in E as [->|E]; [by left|right]. by apply negb_true_iff.
    + right. unfold IsFullyValid. by rewrite Ev.
Qed.

End Ext.

(** ** Instances *)

(** Objects that are their bytes, with every key on the curve and signatures that are
    the digest followed by the key. *)
Definition plain_secp : Secp256k1 := {|
  secp256k1_pubkey := list Z;
  secp256k1_xonly_pubkey := list Z;
  secp256k1_ecdsa_signature := list Z;
  secp256k1_ecdsa_recoverable_signature := list Z;
  secp256k1_ec_pubkey_parse b := Some b;
  secp256k1_ec_pubkey_serialize _ p := p;
  secp256k1_ec_pubkey_tweak_add p _ := Some p;
  secp256k1_ecdsa_signature_parse_compact b := (true, b);
  secp256k1_ecdsa_signature_normalize s := (false, s);
  secp256k1_ecdsa_verify s h p := bool_decide (s = h ++ take 32 (drop 1 p));
  secp256k1_ecdsa_recoverable_signature_parse_compact b _ := Some b;
  secp256k1_ecdsa_recover s _ := Some s;
  secp256k1_xonly_pubkey_parse b := Some b;
  secp256k1_xonly_pubkey_serialize p := p;
  secp256k1_xonly_pubkey_from_pubkey p := Some (p, 0);
  secp256k1_xonly_pubkey_tweak_add p _ := Some p;
  secp256k1_xonly_pubkey_tweak_add_check q _ p _ := bool_decide (q = p);
  secp256k1_schnorrsig_verify s h p := bool_decide (s = h ++ p)
|}.

Definition sample_sig : list Z := [48; 7; 2; 1; 5; 2; 2; 0; 200; 1].
Lemma der_strict_lax_witness :
  Interp.IsValidSignatureEncoding sample_sig = true /\
  @ecdsa_signature_parse_der_lax plain_secp (take 9 sample_sig) = Some (@signature_of plain_secp 5 200).
Proof.
  destruct (@der_strict_lax plain_secp sample_sig (bytes_check sample_sig eq_refl)) as [Hv Hp]. split.
  - apply Hv. exists [5], [0; 200], 1. repeat split; cbn; try done; lia.
  - apply (Hp [5] [0; 200] 1); [done|cbn; lia].
Defined.

Definition sample_key : list Z := 2 :: replicate 32 7 ++ replicate 32 0.
Lemma CPubKey_roundtrip_witness :
  exists k, CPubKey_Unser (replicate 65 9) (CPubKey_Ser sample_key ++ [1]) = inr (k, [1]) /\ CPubKey_eqb k sample_key = true.
Proof.
  destruct (CPubKey_roundtrip sample_key (replicate 65 9) [1] eq_refl eq_refl) as [(k & H & _ & _ & _ & He) _].
  exists k. split; [exact H|]. by apply He.
Defined.

Definition sample_ext : CExtPubKey := mkExt [4; 136; 178; 30] 1 [1; 2; 3; 4] 7 (replicate 32 5) sample_key.
Lemma CExtPubKey_roundtrip_witness :
  exists code, Encode sample_ext = Some code /\ CExtPubKey_eqb (@Decode plain_secp sample_ext code) sample_ext = true.
Proof.
  eexists. split; [reflexivity|]. refine (proj2 (proj1 (@CExtPubKey_roundtrip plain_secp sample_ext sample_ext _ _ _) _ _ _)).
  all: try reflexivity. by split.
Defined.

End Pubkey.
