(* ===== verification/Sighash.v ===== *)
(** * Signature hashes and the transaction's signature checker
      ([script/interpreter.cpp], [script/interpreter.h])

    What a signature commits to, in the three schemes (the original one, BIP 143
    and BIP 341), the data that is computed once per transaction, and
    [GenericTransactionSignatureChecker]; with the earlier implementation that
    [test/sighash_tests.cpp] keeps.  The theorems: the serializer that skips and
    blanks while it writes hashes what the earlier one does on a modified copy;
    precomputed data changes no hash; the checker keeps what it promises to the
    interpreter. *)
From stdpp Require Import prelude strings.
From S2P Require Import Prelude Uint256 HashStream Fips180 Sha2Theory Sha256 Sha256Theory Hash Serialize Transaction Script Locks Interp InterpTheory BigNum Pubkey.

Module Sighash.
Import Serialize Transaction Script Interp.

Definition SIGHASH_DEFAULT : Z := 0.
Definition SIGHASH_OUTPUT_MASK : Z := 3.
Definition SIGHASH_INPUT_MASK : Z := 0x80.

(** A writer and what is written to it, one element per [<<]. *)
Definition new_writer : Sha256.CSHA256 := Hash.CHashWriter_init (replicate 64 0).
Definition writes (ss : Sha256.CSHA256) (l : list (list Z)) : Sha256.CSHA256 := foldl Hash.CHashWriter_write ss l.

(** ** [CTransactionSignatureSerializer] *)

(** Where the iterator is after [GetOp] has failed. *)
Definition failed_op (s : list Z) : list Z :=
  match s with
  | [] => []
  | opcode :: s => if opcode <=? OP_PUSHDATA4 then match operand_size opcode s with Some (_, s) => s | None => s end else s
  end.

Fixpoint count_separators (fuel : nat) (it : list Z) (nCodeSeparators : Z) : Z :=
  match fuel with
  | O => nCodeSeparators
  | S fuel' =>
      match GetScriptOp it with
      | None => nCodeSeparators
      | Some (opcode, _, it) => count_separators fuel' it (if opcode =? OP_CODESEPARATOR then u32 (nCodeSeparators + 1) else nCodeSeparators)
      end
  end.

(** The writes of the second loop and the one after it. *)
Fixpoint code_pieces (fuel : nat) (itBegin it : list Z) : list Z :=
  match fuel with
  | O => between itBegin it
  | S fuel' =>
      match GetScriptOp it with
      | None => between itBegin (failed_op it)
      | Some (opcode, _, it') =>
          if opcode =? OP_CODESEPARATOR then take (length itBegin - length it' - 1) itBegin ++ code_pieces fuel' it' it'
          else code_pieces fuel' itBegin it'
      end
  end.

Definition SerializeScriptCode (scriptCode : list Z) : list Z :=
  let nCodeSeparators := count_separators (length scriptCode) scriptCode 0 in
  WriteCompactSize (u64 (length scriptCode - nCodeSeparators)) ++ code_pieces (length scriptCode) scriptCode scriptCode.

Section Serializer.
Context (txTo : CTransaction) (scriptCode : list Z) (nIn : nat) (nHashType : Z).

Definition fAnyoneCanPay : bool := negb (Z.land nHashType SIGHASH_ANYONECANPAY =? 0).
Definition fHashSingle : bool := Z.land nHashType 0x1f =? SIGHASH_SINGLE.
Definition fHashNone : bool := Z.land nHashType 0x1f =? SIGHASH_NONE.

(** [None] is an access out of range. *)
Definition SerializeInput (nInput : nat) : option (list Z) :=
  let nInput := if fAnyoneCanPay then nIn else nInput in
  i ← vin txTo !! nInput;
  Some (COutPoint_Ser (prevout i) ++
        (if negb (nInput =? nIn)%nat then Serialize_bytes [] else SerializeScriptCode scriptCode) ++
        (if negb (nInput =? nIn)%nat && (fHashSingle || fHashNone) then ser_i32 0 else ser32 (nSequence i))).

Definition SerializeOutput (nOutput : nat) : option (list Z) :=
  if fHashSingle && negb (nOutput =? nIn)%nat then Some (CTxOut_Ser CTxOut_SetNull)
  else o ← vout txTo !! nOutput; Some (CTxOut_Ser o).

Definition Serialize_tx : option (list Z) :=
  let nInputs := if fAnyoneCanPay then 1%nat else length (vin txTo) in
  let nOutputs := if fHashNone then 0%nat else if fHashSingle then S nIn else length (vout txTo) in
  ins ← mapM SerializeInput (seq 0 nInputs);
  outs ← mapM SerializeOutput (seq 0 nOutputs);
  Some (ser_i32 (nVersion txTo) ++ (if nVersion txTo <? 3 then ser32 (nTime txTo) else []) ++
        WriteCompactSize nInputs ++ concat ins ++ WriteCompactSize nOutputs ++ concat outs ++ ser32 (nLockTime txTo)).

End Serializer.

(** ** Shared data *)

Definition GetPrevoutsSHA256 (txTo : CTransaction) : list Z :=
  Hash.GetSHA256 (writes new_writer (map (fun i => COutPoint_Ser (prevout i)) (vin txTo))).
Definition GetSequencesSHA256 (txTo : CTransaction) : list Z :=
  Hash.GetSHA256 (writes new_writer (map (fun i => ser32 (nSequence i)) (vin txTo))).
Definition GetOutputsSHA256 (txTo : CTransaction) : list Z := Hash.GetSHA256 (writes new_writer (map CTxOut_Ser (vout txTo))).
Definition GetSpentAmountsSHA256 (outputs_spent : list CTxOut) : list Z :=
  Hash.GetSHA256 (writes new_writer (map (fun o => ser_i64 (nValue o)) outputs_spent)).
Definition GetSpentScriptsSHA256 (outputs_spent : list CTxOut) : list Z :=
  Hash.GetSHA256 (writes new_writer (map (fun o => Serialize_bytes (scriptPubKey o)) outputs_spent)).
Definition SHA256Uint256 : list Z -> list Z := Hash.SHA256Uint256 (replicate 64 0).

Record PrecomputedTransactionData := mkTxData {
  m_prevouts_single_hash : list Z;
  m_sequences_single_hash : list Z;
  m_outputs_single_hash : list Z;
  m_spent_amounts_single_hash : list Z;
  m_spent_scripts_single_hash : list Z;
  m_bip341_taproot_ready : bool;
  hashPrevouts : list Z;
  hashSequence : list Z;
  hashOutputs : list Z;
  m_bip143_segwit_ready : bool;
  m_spent_outputs : list CTxOut;
  m_spent_outputs_ready : bool
}.
Definition PrecomputedTransactionData_init : PrecomputedTransactionData :=
  let null := Blob.null 32 in mkTxData null null null null null false null null null false [] false.

Definition WITNESS_V1_TAPROOT_SIZE : nat := 32.

(** The loop over the inputs: which of the two schemes are used. *)
Fixpoint scan_inputs (spent_ready : bool) (l : list CTxIn) (spent : list CTxOut) (inpos : nat) (segwit taproot : bool) : bool * bool :=
  match l with
  | [] => (segwit, taproot)
  | i :: l =>
      if segwit && taproot then (segwit, taproot)
      else
        let script := match spent !! inpos with Some o => scriptPubKey o | None => [] end in
        let '(segwit, taproot) :=
          if negb (length (scriptWitness i) =? 0)%nat then
            if spent_ready && (length script =? 2 + WITNESS_V1_TAPROOT_SIZE)%nat && (script.[0] =? OP_1) then (segwit, true) else (true, taproot)
          else (segwit, taproot) in
        scan_inputs spent_ready l spent (S inpos) segwit taproot
  end.

(** [Init]; [None] is a failed assertion. *)
Definition Init (c : PrecomputedTransactionData) (txTo : CTransaction) (spent_outputs : list CTxOut) (force : bool) : option PrecomputedTransactionData :=
  if m_spent_outputs_ready c then None
  else if negb (length spent_outputs =? 0)%nat && negb (length spent_outputs =? length (vin txTo))%nat then None
  else
    let ready := if negb (length spent_outputs =? 0)%nat then true else m_spent_outputs_ready c in
    let '(uses_bip143_segwit, uses_bip341_taproot) := scan_inputs ready (vin txTo) spent_outputs 0 force force in
    let shared := uses_bip143_segwit || uses_bip341_taproot in
    let prevouts := if shared then GetPrevoutsSHA256 txTo else m_prevouts_single_hash c in
    let sequences := if shared then GetSequencesSHA256 txTo else m_sequences_single_hash c in
    let outputs := if shared then GetOutputsSHA256 txTo else m_outputs_single_hash c in
    Some (mkTxData prevouts sequences outputs
      (if uses_bip341_taproot then GetSpentAmountsSHA256 spent_outputs else m_spent_amounts_single_hash c)
      (if uses_bip341_taproot then GetSpentScriptsSHA256 spent_outputs else m_spent_scripts_single_hash c)
      (if uses_bip341_taproot then true else m_bip341_taproot_ready c)
      (if uses_bip143_segwit then SHA256Uint256 prevouts else hashPrevouts c)
      (if uses_bip143_segwit then SHA256Uint256 sequences else hashSequence c)
      (if uses_bip143_segwit then SHA256Uint256 outputs else hashOutputs c)
      (if uses_bip143_segwit then true else m_bip143_segwit_ready c)
      spent_outputs ready).

(** ** [SignatureHash] *)

Definition ONE : list Z := 1 :: replicate 31 0.

Definition cached (cache : option PrecomputedTransactionData) (field : PrecomputedTransactionData -> list Z) (fresh : list Z) : list Z :=
  match cache with
  | Some c => if m_bip143_segwit_ready c then field c else fresh
  | None => fresh
  end.

(** BIP 143. *)
Definition SignatureHash_v0 (scriptCode : list Z) (txTo : CTransaction) (nIn : nat) (i : CTxIn) (nHashType amount : Z) (cache : option PrecomputedTransactionData) : list Z :=
  let acp := fAnyoneCanPay nHashType in
  let single := fHashSingle nHashType in
  let none := fHashNone nHashType in
  let prevouts := if negb acp then cached cache hashPrevouts (SHA256Uint256 (GetPrevoutsSHA256 txTo)) else Blob.null 32 in
  let sequence := if negb acp && negb single && negb none then cached cache hashSequence (SHA256Uint256 (GetSequencesSHA256 txTo)) else Blob.null 32 in
  let outputs :=
    if negb single && negb none then cached cache hashOutputs (SHA256Uint256 (GetOutputsSHA256 txTo))
    else if single then match vout txTo !! nIn with Some o => Hash.GetHash (writes new_writer [CTxOut_Ser o]) | None => Blob.null 32 end
    else Blob.null 32 in
  Hash.GetHash (writes new_writer (
    [ser_i32 (nVersion txTo)] ++ (if nVersion txTo <? 3 then [ser32 (nTime txTo)] else []) ++
    [prevouts; sequence; COutPoint_Ser (prevout i); Serialize_bytes scriptCode; ser_i64 amount; ser32 (nSequence i); outputs; ser32 (nLockTime txTo);
     ser_i32 nHashType])).

(** [None] is a failed assertion or an access out of range. *)
Definition SignatureHash (scriptCode : list Z) (txTo : CTransaction) (nIn : nat) (nHashType amount : Z) (sigversion : SigVersion)
    (cache : option PrecomputedTransactionData) : option (list Z) :=
  i ← vin txTo !! nIn;
  if bool_decide (sigversion = WITNESS_V0) then Some (SignatureHash_v0 scriptCode txTo nIn i nHashType amount cache)
  else if fHashSingle nHashType && (length (vout txTo) <=? nIn)%nat then Some ONE
  else
    b ← Serialize_tx txTo scriptCode nIn nHashType;
    Some (Hash.GetHash (writes new_writer [b; ser_i32 nHashType])).

(** ** BIP 341 *)

Definition HASHER_TAPSIGHASH : Sha256.CSHA256 := Hash.TaggedHash (replicate 64 0) (Pubkey.ascii_bytes "TapSighash").
Definition HASHER_TAPLEAF : Sha256.CSHA256 := Hash.TaggedHash (replicate 64 0) (Pubkey.ascii_bytes "TapLeaf").
Definition HASHER_TAPBRANCH : Sha256.CSHA256 := Hash.TaggedHash (replicate 64 0) (Pubkey.ascii_bytes "TapBranch").

Inductive MissingDataBehavior := ASSERT_FAIL | FAIL.
Definition HandleMissingData (mdb : MissingDataBehavior) : option bool := match mdb with ASSERT_FAIL => None | FAIL => Some false end.

Definition set_output_hash (d : ScriptExecutionData) (h : list Z) : ScriptExecutionData :=
  mkExec (m_tapleaf_hash d) (m_codeseparator_pos d) (m_annex d) (m_validation_weight_left d) (Some h).

(** The hash and the execution data; [Fail] is a result of false. *)
Definition SignatureHashSchnorr (execdata : ScriptExecutionData) (tx_to : CTransaction) (in_pos : nat) (hash_type : Z) (sigversion : SigVersion)
    (cache : PrecomputedTransactionData) (mdb : MissingDataBehavior) : outcome (list Z * ScriptExecutionData) :=
  ext_flag ← (match sigversion with TAPROOT => Ok 0 | TAPSCRIPT => Ok 1 | _ => Abort end : outcome Z);
  i ← assert_some (vin tx_to !! in_pos);
  if negb (m_bip341_taproot_ready cache && m_spent_outputs_ready cache) then
    match HandleMissingData mdb with None => Abort | Some _ => Fail None end
  else
    let output_type := if hash_type =? SIGHASH_DEFAULT then SIGHASH_ALL else Z.land hash_type SIGHASH_OUTPUT_MASK in
    let input_type := Z.land hash_type SIGHASH_INPUT_MASK in
    if negb ((hash_type <=? 0x03) || ((0x81 <=? hash_type) && (hash_type <=? 0x83))) then Fail None
    else
      annex ← assert_some (m_annex execdata);
      let have_annex := match annex with Some _ => true | None => false end in
      let spend_type := u8 (Z.shiftl ext_flag 1 + (if have_annex then 1 else 0)) in
      spent ← (if input_type =? SIGHASH_ANYONECANPAY then o ← assert_some (m_spent_outputs cache !! in_pos); Ok [o] else Ok [] : outcome (list CTxOut));
      '(single, execdata) ←
        (if output_type =? SIGHASH_SINGLE then
           match vout tx_to !! in_pos with
           | None => Fail None
           | Some o =>
               let h := match m_output_hash execdata with Some h => h | None => Hash.GetSHA256 (writes new_writer [CTxOut_Ser o]) end in
               Ok ([h], set_output_hash execdata h)
           end
         else Ok ([], execdata) : outcome (list (list Z) * ScriptExecutionData));
      script ←
        (if bool_decide (sigversion = TAPSCRIPT) then
           leaf ← assert_some (m_tapleaf_hash execdata);
           pos ← assert_some (m_codeseparator_pos execdata);
           Ok [leaf; ser_writedata8 0; ser32 pos]
         else Ok [] : outcome (list (list Z)));
      Ok (Hash.GetSHA256 (writes HASHER_TAPSIGHASH (
            [ser_writedata8 0; ser_writedata8 hash_type; ser_i32 (nVersion tx_to); ser32 (nLockTime tx_to)] ++
            (if negb (input_type =? SIGHASH_ANYONECANPAY) then
               [m_prevouts_single_hash cache; m_spent_amounts_single_hash cache; m_spent_scripts_single_hash cache; m_sequences_single_hash cache] else []) ++
            (if output_type =? SIGHASH_ALL then [m_outputs_single_hash cache] else []) ++
            [ser_writedata8 spend_type] ++
            (if input_type =? SIGHASH_ANYONECANPAY then [COutPoint_Ser (prevout i)] ++ map CTxOut_Ser spent ++ [ser32 (nSequence i)] else [ser32 in_pos]) ++
            (match annex with Some h => [h] | None => [] end) ++
            single ++ script)), execdata).

(** ** [GenericTransactionSignatureChecker] *)

(** The virtual methods: signature, key and hash. *)
Class SignatureVerifier := {
  VerifyECDSASignature : list Z -> list Z -> list Z -> bool;
  VerifySchnorrSignature : list Z -> list Z -> list Z -> option bool
}.
Definition generic_verifier `{Pubkey.Secp256k1} : SignatureVerifier := {|
  VerifyECDSASignature vchSig pubkey sighash := Pubkey.Verify pubkey sighash vchSig;
  VerifySchnorrSignature sig pubkey sighash := Pubkey.VerifySchnorr pubkey sighash sig
|}.

Section Checker.
Context `{SignatureVerifier} (txTo : CTransaction) (m_mdb : MissingDataBehavior) (nIn : nat) (amount : Z) (txdata : option PrecomputedTransactionData).

Definition tx_CheckECDSASignature (vchSigIn vchPubKey scriptCode : list Z) (sigversion : SigVersion) : option bool :=
  let pubkey := Pubkey.CPubKey (replicate 65 0) vchPubKey in
  if negb (Pubkey.IsValid pubkey) then Some false
  else
    match last vchSigIn with
    | None => Some false
    | Some nHashType =>
        let vchSig := take (length vchSigIn - 1) vchSigIn in
        if bool_decide (sigversion = WITNESS_V0) && (amount <? 0) then HandleMissingData m_mdb
        else
          sighash ← SignatureHash scriptCode txTo nIn nHashType amount sigversion txdata;
          Some (if negb (VerifyECDSASignature vchSig pubkey sighash) then false else true)
    end.

Definition tx_CheckSchnorrSignature (sig pubkey_in : list Z) (sigversion : SigVersion) (execdata : ScriptExecutionData) : outcome ScriptExecutionData :=
  if negb (bool_decide (sigversion = TAPROOT \/ sigversion = TAPSCRIPT)) then Abort
  else if negb (length pubkey_in =? 32)%nat then Abort
  else if negb (length sig =? 64)%nat && negb (length sig =? 65)%nat then set_error SCRIPT_ERR_SCHNORR_SIG_SIZE
  else
    pubkey ← assert_some (Pubkey.XOnlyPubKey pubkey_in);
    '(sig, hashtype) ←
      (if (length sig =? 65)%nat then
         let hashtype := sig.[64] in
         if hashtype =? SIGHASH_DEFAULT then set_error SCRIPT_ERR_SCHNORR_SIG_HASHTYPE else Ok (take 64 sig, hashtype)
       else Ok (sig, SIGHASH_DEFAULT) : outcome (list Z * Z));
    match txdata with
    | None => match HandleMissingData m_mdb with None => Abort | Some _ => Fail None end
    | Some cache =>
        match SignatureHashSchnorr execdata txTo nIn hashtype sigversion cache m_mdb with
        | Abort => Abort
        | Fail _ => set_error SCRIPT_ERR_SCHNORR_SIG_HASHTYPE
        | Ok (sighash, execdata) =>
            ok ← assert_some (VerifySchnorrSignature sig pubkey sighash);
            if negb ok then set_error SCRIPT_ERR_SCHNORR_SIG else Ok execdata
        end
    end.

Definition tx_CheckLockTime (n : Z) : option bool :=
  if negb (((nLockTime txTo <? Locks.LOCKTIME_THRESHOLD) && (n <? Locks.LOCKTIME_THRESHOLD)) ||
           ((Locks.LOCKTIME_THRESHOLD <=? nLockTime txTo) && (Locks.LOCKTIME_THRESHOLD <=? n))) then Some false
  else if nLockTime txTo <? n then Some false
  else i ← vin txTo !! nIn; Some (negb (SEQUENCE_FINAL =? nSequence i)).

Definition tx_CheckSequence (n : Z) : option bool :=
  i ← vin txTo !! nIn;
  let txToSequence := nSequence i in
  if u32 (nVersion txTo) <? 2 then Some false
  else if negb (Z.land txToSequence SEQUENCE_LOCKTIME_DISABLE_FLAG =? 0) then Some false
  else
    let nLockTimeMask := Z.lor SEQUENCE_LOCKTIME_TYPE_FLAG SEQUENCE_LOCKTIME_MASK in
    let txToSequenceMasked := Z.land txToSequence nLockTimeMask in
    let nSequenceMasked := Z.land n nLockTimeMask in
    if negb (((txToSequenceMasked <? SEQUENCE_LOCKTIME_TYPE_FLAG) && (nSequenceMasked <? SEQUENCE_LOCKTIME_TYPE_FLAG)) ||
             ((SEQUENCE_LOCKTIME_TYPE_FLAG <=? txToSequenceMasked) && (SEQUENCE_LOCKTIME_TYPE_FLAG <=? nSequenceMasked))) then Some false
    else if txToSequenceMasked <? nSequenceMasked then Some false
    else Some true.

Definition TransactionSignatureChecker : BaseSignatureChecker := {|
  CheckECDSASignature := tx_CheckECDSASignature;
  CheckSchnorrSignature := tx_CheckSchnorrSignature;
  CheckLockTime := tx_CheckLockTime;
  CheckSequence := tx_CheckSequence
|}.

End Checker.

(** ** The earlier [SignatureHash] ([test/sighash_tests.cpp]) *)

Definition with_script (i : CTxIn) (s : list Z) : CTxIn := mkTxIn (prevout i) s (nSequence i) (scriptWitness i).
Definition with_sequence (i : CTxIn) (n : Z) : CTxIn := mkTxIn (prevout i) (scriptSig i) n (scriptWitness i).
Definition other_sequences (nIn : nat) (l : list CTxIn) : list CTxIn :=
  imap (fun k i => if negb (k =? nIn)%nat then with_sequence i 0 else i) l.

Definition SignatureHashOld (scriptCode : list Z) (txTo : CTransaction) (nIn : nat) (nHashType : Z) : list Z :=
  match vin txTo !! nIn with
  | None => ONE
  | Some _ =>
      let scriptCode := (FindAndDelete scriptCode [OP_CODESEPARATOR]).2 in
      let vin1 := alter (fun i => with_script i scriptCode) nIn (map (fun i => with_script i []) (vin txTo)) in
      let '(vin2, vout2, invalid) :=
        if Z.land nHashType 0x1f =? SIGHASH_NONE then (other_sequences nIn vin1, [], false)
        else if Z.land nHashType 0x1f =? SIGHASH_SINGLE then
          if (length (vout txTo) <=? nIn)%nat then (vin1, vout txTo, true)
          else (other_sequences nIn vin1, imap (fun k o => if (k <? nIn)%nat then CTxOut_SetNull else o) (take (S nIn) (vout txTo)), false)
        else (vin1, vout txTo, false) in
      if invalid : bool then ONE
      else
        let vin3 := if negb (Z.land nHashType SIGHASH_ANYONECANPAY =? 0) then match vin2 !! nIn with Some i => [i] | None => [] end else vin2 in
        Hash.GetHash (writes new_writer [SerializeTransaction SERIALIZE_TRANSACTION_NO_WITNESS (mkTx vin3 vout2 (nVersion txTo) (nTime txTo) (nLockTime txTo));
                                         ser_i32 nHashType])
  end.

(** ** Scripts without separators *)

(** The script without its [OP_CODESEPARATOR]s, if all of it can be decoded. *)
Fixpoint strip (fuel : nat) (s : list Z) : option (list Z) :=
  match s with
  | [] => Some []
  | _ =>
      match fuel with
      | O => None
      | S fuel' => '(opcode, _, r) ← GetScriptOp s; t ← strip fuel' r; Some (if opcode =? OP_CODESEPARATOR then t else between s r ++ t)
      end
  end.

Lemma between_app (p s : list Z) : between (p ++ s) s = p.
Proof. unfold between. rewrite length_app, Nat.add_sub. apply take_app_length. Qed.

Lemma GetScriptOp_split s opcode d r : GetScriptOp s = Some (opcode, d, r) ->
  s = between s r ++ r /\ (opcode = OP_CODESEPARATOR -> s = OP_CODESEPARATOR :: r).
Proof.
  destruct s as [|c s]; [done|]. unfold GetScriptOp. destruct (c <=? OP_PUSHDATA4) eqn:E; cases_bool.
  - destruct (operand_size c s) as [[n t]|] eqn:Eo; [|done]. rewrite bind_some. case_if; [done|]. intros [= <- <- <-].
    split; [|intros ->; done]. assert (exists q, s = q ++ t) as [q ->].
    { unfold operand_size in Eo. repeat case_if_in Eo; simplify_eq; [by exists []|..]; eexists; by rewrite take_drop. }
    replace (c :: q ++ t) with ((c :: q ++ take (Z.to_nat n) t) ++ drop (Z.to_nat n) t) by (cbn [app]; by rewrite <- app_assoc, take_drop).
    by rewrite between_app.
  - intros [= <- <- <-]. split; [|by intros ->]. pose proof (between_app [c] s) as Hb. cbn [app] in Hb. by rewrite Hb.
Qed.

Lemma strip_step fuel s opcode d r t :
  GetScriptOp s = Some (opcode, d, r) -> strip (S fuel) s = Some t ->
  exists t', strip fuel r = Some t' /\ t = if opcode =? OP_CODESEPARATOR then t' else between s r ++ t'.
Proof. intros E. destruct s; [done|]. cbn [strip]. rewrite E. cbn [mbind option_bind]. destruct (strip fuel r) as [t'|]; [|done]. intros [= <-]. by exists t'. Qed.

Lemma strip_ends fuel s t : strip fuel s = Some t -> GetScriptOp s = None -> s = [] /\ t = [].
Proof. destruct s as [|c s]; [by destruct fuel; intros [= <-]|]. destruct fuel; [done|]. cbn [strip]. intros H E. by rewrite E in H. Qed.

Lemma code_pieces_strip fuel p it t : strip fuel it = Some t -> code_pieces fuel (p ++ it) it = p ++ t.
Proof.
  revert p it t. induction fuel as [|fuel IH]; intros p it t Ht.
  { destruct it; [|done]. injection Ht as <-. cbn [code_pieces]. by rewrite between_app, app_nil_r. }
  cbn [code_pieces]. destruct (GetScriptOp it) as [[[opcode d] r]|] eqn:Eg.
  - destruct (strip_step _ _ _ _ _ _ Eg Ht) as (t' & Ht' & ->). destruct (GetScriptOp_split _ _ _ _ Eg) as [Hs Hc]. destruct (opcode =? OP_CODESEPARATOR) eqn:Ec; cases_bool.
    + rewrite (Hc Ec). pose proof (IH [] r t' Ht') as E. cbn [app] in E. rewrite E. f_equal. rewrite length_app. cbn [length].
      replace (length p + S (length r) - length r - 1)%nat with (length p) by lia. apply take_app_length.
    + rewrite Hs at 1. rewrite app_assoc, (IH _ r t' Ht'). by rewrite app_assoc.
  - destruct (strip_ends _ _ _ Ht Eg) as [-> ->]. cbn [failed_op]. by rewrite between_app, app_nil_r.
Qed.

Lemma count_strip fuel it t n :
  strip fuel it = Some t -> 0 <= n -> n + length it < 2 ^ 32 -> count_separators fuel it n = n + (length it - length t) /\ (length t <= length it)%nat.
Proof.
  revert it t n. induction fuel as [|fuel IH]; intros it t n Ht Hn Hl; cbn [count_separators].
  { destruct it; [|done]. injection Ht as <-. cbn [length]. lia. }
  destruct (GetScriptOp it) as [[[opcode d] r]|] eqn:Eg; [|destruct (strip_ends _ _ _ Ht Eg) as [-> ->]; cbn [length]; lia].
  destruct (strip_step _ _ _ _ _ _ Eg Ht) as (t' & Ht' & ->). destruct (GetScriptOp_split _ _ _ _ Eg) as [Hs Hc].
  pose proof (GetScriptOp_shorter _ _ _ _ Eg). apply (f_equal length) in Hs as Hlen. rewrite length_app in Hlen.
  destruct (opcode =? OP_CODESEPARATOR) eqn:Ec; cases_bool.
  - apply Hc in Ec as ->. cbn [length] in *. rewrite u32_small by (unfold in_u; lia). destruct (IH r t' (n + 1) Ht'); lia.
  - rewrite length_app. destruct (IH r t' n Ht'); lia.
Qed.

Lemma SerializeScriptCode_strip s t : strip (length s) s = Some t -> length s < 2 ^ 32 -> SerializeScriptCode s = Serialize_bytes t.
Proof.
  intros Ht Hl. unfold SerializeScriptCode. destruct (count_strip _ _ _ 0 Ht) as [-> Hle]; [lia..|].
  pose proof (code_pieces_strip _ [] s t Ht) as E. cbn [app] in E. rewrite E. unfold Serialize_bytes.
  rewrite u64_small by (unfold in_u; lia). replace (length s - (0 + (length s - length t))) with (Z.of_nat (length t)) by lia.
  by destruct t.
Qed.

(** [FindAndDelete] of one separator. *)
Lemma skip_strip (n : nat) pc k :
  exists m : nat, let '(pc', k') := skip_matches n [OP_CODESEPARATOR] pc k in
    pc = replicate m OP_CODESEPARATOR ++ pc' /\ k' = k + m /\ (n = length pc -> pc' = [] \/ exists c r, pc' = c :: r /\ c <> OP_CODESEPARATOR).
Proof.
  revert pc k. induction n as [|n IH]; intros pc k; cbn [skip_matches]; [exists 0%nat; split; [done|split; [lia|by destruct pc; [left|]]]|].
  destruct (_ && _) eqn:E; cases_bool.
  - destruct pc as [|c pc]; [done|]. cbn [take length] in *. apply bool_decide_eq_true in H0 as [= ->].
    change (drop 1 (OP_CODESEPARATOR :: pc)) with pc. destruct (IH pc (k + 1)) as (m & Hm). exists (S m).
    destruct (skip_matches n _ pc (k + 1)) as [pc' k']. destruct Hm as (-> & -> & He). split; [done|split; [lia|]]. cbn [length replicate app] in *. intros. apply He. lia.
  - exists 0%nat. split; [done|split; [lia|]]. intros Hl. destruct pc as [|c pc]; [by left|]. right. exists c, pc. split; [done|]. intros ->.
    apply andb_false_iff in E as [E|E]; cases_bool; [cbn in E; lia|]. apply bool_decide_eq_false in E. by apply E.
Qed.

Lemma strip_skip fuel (m : nat) pc t : strip fuel (replicate m OP_CODESEPARATOR ++ pc) = Some t -> exists fuel', strip fuel' pc = Some t /\ (fuel' <= fuel)%nat.
Proof.
  revert fuel. induction m as [|m IH]; intros fuel; cbn [replicate app]; [by exists fuel|]. destruct fuel as [|fuel]; [done|]. cbn [strip].
  change (GetScriptOp (OP_CODESEPARATOR :: replicate m OP_CODESEPARATOR ++ pc)) with (Some (OP_CODESEPARATOR, @nil Z, replicate m OP_CODESEPARATOR ++ pc)).
  cbn [mbind option_bind]. destruct (strip fuel _) as [t'|] eqn:E; [|done]. intros [= <-]. destruct (IH fuel E) as (f & ? & ?). exists f. split; [done|lia].
Qed.

Lemma delete_strip fuel f result q pc n t :
  strip f pc = Some t -> (length pc <= fuel)%nat ->
  let '(R, P, n') := delete_loop fuel [OP_CODESEPARATOR] result (q ++ pc) pc n in R ++ P = result ++ q ++ t /\ n' = n + (length pc - length t).
Proof.
  revert f result q pc n t. induction fuel as [|fuel IH]; intros f result q pc n t Ht Hl; cbn [delete_loop]; rewrite between_app.
  { destruct pc; [|cbn in Hl; lia]. destruct f; injection Ht as <-; cbn; rewrite !app_nil_r; split; [done|lia|done|lia]. }
  destruct (skip_strip (length pc) pc n) as (m & Hm). destruct (skip_matches _ _ pc n) as [pc' n1]. destruct Hm as (Hpc & -> & He). specialize (He eq_refl).
  rewrite Hpc in Ht. destruct (strip_skip _ _ _ _ Ht) as (f' & Ht' & _). apply (f_equal length) in Hpc as Hlen. rewrite length_app, length_replicate in Hlen.
  destruct (GetScriptOp pc') as [[[opcode d] r]|] eqn:Eg.
  - destruct f' as [|f']; [destruct pc'; [by destruct He|done]|]. destruct (strip_step _ _ _ _ _ _ Eg Ht') as (t' & Hr & ->).
    destruct (GetScriptOp_split _ _ _ _ Eg) as [Hs Hc]. pose proof (GetScriptOp_shorter _ _ _ _ Eg).
    assert (opcode <> OP_CODESEPARATOR) as Hne. { intros E%Hc. destruct He as [->|(c & x & -> & Hx)]; [done|]. congruence. }
    rewrite (proj2 (Z.eqb_neq _ _)) by done. specialize (IH f' (result ++ q) (between pc' r) r (n + m) t' Hr ltac:(lia)). rewrite <- Hs in IH.
    destruct (delete_loop _ _ _ _ _ _) as [[R P] n']. destruct IH as [-> ->]. apply (f_equal length) in Hs as Hls. rewrite length_app in Hls.
    split; [by rewrite <- !app_assoc|]. rewrite length_app. lia.
  - destruct (strip_ends _ _ _ Ht' Eg) as [-> ->]. rewrite !app_nil_r. split; [done|]. cbn [length] in *. lia.
Qed.

Lemma strip_length fuel s t : strip fuel s = Some t -> (length t <= length s)%nat.
Proof.
  revert s t. induction fuel as [|fuel IH]; intros s t Ht; [by destruct s; [injection Ht as <-|]|].
  destruct (GetScriptOp s) as [[[o d] r]|] eqn:Eg; [|by destruct (strip_ends _ _ _ Ht Eg) as [-> ->]].
  destruct (strip_step _ _ _ _ _ _ Eg Ht) as (t' & Hr & ->). destruct (GetScriptOp_split _ _ _ _ Eg) as [Hs _]. apply IH in Hr.
  apply (f_equal length) in Hs. rewrite length_app in Hs. case_if; rewrite ?length_app; lia.
Qed.

Lemma strip_same fuel s t : strip fuel s = Some t -> length t = length s -> t = s.
Proof.
  revert s t. induction fuel as [|fuel IH]; intros s t Ht Hl; [by destruct s; [injection Ht as <-|]|].
  destruct (GetScriptOp s) as [[[opcode d] r]|] eqn:Eg; [|by destruct (strip_ends _ _ _ Ht Eg) as [-> ->]].
  destruct (strip_step _ _ _ _ _ _ Eg Ht) as (t' & Hr & ->). destruct (GetScriptOp_split _ _ _ _ Eg) as [Hs Hc]. pose proof (GetScriptOp_shorter _ _ _ _ Eg).
  apply (f_equal length) in Hs as Hls. rewrite length_app in Hls. pose proof (strip_length _ _ _ Hr). destruct (opcode =? OP_CODESEPARATOR); [lia|].
  rewrite length_app in Hl. rewrite (IH r t' Hr) by lia. done.
Qed.

Lemma FindAndDelete_strip s t : strip (length s) s = Some t -> (FindAndDelete s [OP_CODESEPARATOR]).2 = t.
Proof.
  intros Ht. unfold FindAndDelete. pose proof (delete_strip (length s) _ [] [] s 0 t Ht (le_n _)) as H. cbn [app] in H.
  destruct (delete_loop _ _ _ _ _ _) as [[R P] n']. destruct H as [HR ->]. pose proof (strip_length _ _ _ Ht). case_if; cbn [snd]; [done|].
  symmetry. apply (strip_same _ _ _ Ht). lia.
Qed.

(** ** The two implementations *)

Lemma mapM_seq {A} (f : nat -> option (list Z)) (g : A -> list Z) (l : list A) n :
  n = length l -> (forall k x, l !! k = Some x -> f k = Some (g x)) -> mapM f (seq 0 n) = Some (map g l).
Proof.
  intros -> Hf. assert (forall m, (forall k x, l !! k = Some x -> f (m + k)%nat = Some (g x)) -> mapM f (seq m (length l)) = Some (map g l)) as H; [|by apply H].
  clear Hf. induction l as [|x l IH]; intros m Hf; [done|]. cbn [length seq mapM map]. pose proof (Hf 0%nat x eq_refl) as E. rewrite Nat.add_0_r in E. rewrite E.
  cbn [mbind option_bind]. rewrite IH; [done|]. intros k y Hk. rewrite <- (Hf (S k) y Hk). f_equal. lia.
Qed.

Section Equivalence.
Context (txTo : CTransaction) (scriptCode code : list Z) (nIn : nat) (nHashType : Z).

Definition blanked : list CTxIn := alter (fun i => with_script i code) nIn (map (fun i => with_script i []) (vin txTo)).
Definition updated : list CTxIn := if fHashSingle nHashType || fHashNone nHashType then other_sequences nIn blanked else blanked.

Lemma updated_lookup k :
  updated !! k = (fun i => mkTxIn (prevout i) (if (k =? nIn)%nat then code else [])
                     (if negb (k =? nIn)%nat && (fHashSingle nHashType || fHashNone nHashType) then 0 else nSequence i) (scriptWitness i)) <$> vin txTo !! k.
Proof.
  assert (blanked !! k = (fun i => with_script i (if (k =? nIn)%nat then code else [])) <$> vin txTo !! k) as Hb.
  { unfold blanked. destruct (k =? nIn)%nat eqn:E; cases_bool.
    - subst. rewrite list_lookup_alter, decide_True, list_lookup_fmap by done. by destruct (vin txTo !! nIn).
    - rewrite list_lookup_alter, decide_False by done. apply list_lookup_fmap. }
  unfold updated, other_sequences. destruct (fHashSingle nHashType || fHashNone nHashType).
  - rewrite list_lookup_imap, Hb. destruct (vin txTo !! k) as [i|]; [|done]. cbn. f_equal. by destruct (k =? nIn)%nat.
  - rewrite Hb. destruct (vin txTo !! k) as [i|]; [|done]. cbn. by rewrite andb_false_r.
Qed.

Lemma updated_length : length updated = length (vin txTo).
Proof. unfold updated, other_sequences, blanked. case_if; by rewrite ?length_imap, length_alter, length_map. Qed.

Lemma SerializeInput_updated k i :
  SerializeScriptCode scriptCode = Serialize_bytes code -> (fAnyoneCanPay nHashType = true -> k = nIn) -> updated !! k = Some i ->
  SerializeInput txTo scriptCode nIn nHashType k = Some (CTxIn_Ser i).
Proof.
  intros Hcode Hk Hi. rewrite updated_lookup in Hi. unfold SerializeInput.
  assert ((if fAnyoneCanPay nHashType then nIn else k) = k) as -> by (destruct (fAnyoneCanPay nHashType); [symmetry; by apply Hk|done]).
  destruct (vin txTo !! k) as [j|]; [|done]. injection Hi as <-. cbn [mbind option_bind]. unfold CTxIn_Ser. cbn [prevout scriptSig nSequence].
  destruct (k =? nIn)%nat; cbn [negb andb]; [by rewrite Hcode|]. by destruct (fHashSingle nHashType || fHashNone nHashType).
Qed.

Definition kept_outputs : list CTxOut :=
  if fHashNone nHashType then []
  else if fHashSingle nHashType then imap (fun k o => if (k <? nIn)%nat then CTxOut_SetNull else o) (take (S nIn) (vout txTo))
  else vout txTo.

Lemma SerializeOutput_kept k o :
  fHashNone nHashType = false -> kept_outputs !! k = Some o -> SerializeOutput txTo nIn nHashType k = Some (CTxOut_Ser o).
Proof.
  unfold kept_outputs, SerializeOutput. intros ->. destruct (fHashSingle nHashType); cbn [andb]; [|by intros ->].
  rewrite list_lookup_imap. destruct (decide (k < S nIn)%nat).
  - rewrite lookup_take_lt by lia. destruct (vout txTo !! k) as [o'|]; [|done]. intros [= <-].
    destruct (k <? nIn)%nat eqn:E1, (k =? nIn)%nat eqn:E2; cases_bool; done || lia.
  - rewrite lookup_take_ge by lia. done.
Qed.

Lemma Serialize_tx_spec :
  SerializeScriptCode scriptCode = Serialize_bytes code -> (nIn < length (vin txTo))%nat -> (fHashSingle nHashType = true -> (nIn < length (vout txTo))%nat) ->
  let ins := if fAnyoneCanPay nHashType then match updated !! nIn with Some i => [i] | None => [] end else updated in
  Serialize_tx txTo scriptCode nIn nHashType =
    Some (SerializeTransaction SERIALIZE_TRANSACTION_NO_WITNESS (mkTx ins kept_outputs (nVersion txTo) (nTime txTo) (nLockTime txTo))).
Proof.
  intros Hcode Hin Hout ins. unfold Serialize_tx.
  set (nInputs := if fAnyoneCanPay nHashType then 1%nat else length (vin txTo)).
  assert (mapM (SerializeInput txTo scriptCode nIn nHashType) (seq 0 nInputs) = Some (map CTxIn_Ser ins) /\ nInputs = length ins) as [-> Hni].
  { subst nInputs ins. destruct (fAnyoneCanPay nHashType) eqn:Ea.
    - destruct (lookup_lt_is_Some_2 updated nIn) as [i Hi]; [by rewrite updated_length|]. rewrite Hi. split; [|done]. cbn [seq mapM map].
      replace (SerializeInput txTo scriptCode nIn nHashType 0) with (SerializeInput txTo scriptCode nIn nHashType nIn) by (unfold SerializeInput; by rewrite Ea).
      by rewrite (SerializeInput_updated nIn i).
    - split; [|by rewrite updated_length]. apply mapM_seq; [by rewrite updated_length|]. intros k i Hi. apply SerializeInput_updated; [done|congruence|done]. }
  assert (forall n, n = length kept_outputs -> mapM (SerializeOutput txTo nIn nHashType) (seq 0 n) = Some (map CTxOut_Ser kept_outputs)) as Houts.
  { intros n Hn. apply mapM_seq; [done|]. intros k o Ho. apply SerializeOutput_kept; [|done]. unfold kept_outputs in Ho. by destruct (fHashNone nHashType). }
  set (nOutputs := if fHashNone nHashType then 0%nat else if fHashSingle nHashType then S nIn else length (vout txTo)).
  assert (nOutputs = length kept_outputs) as Hno.
  { subst nOutputs. unfold kept_outputs. repeat case_if; try done. rewrite length_imap, length_take. specialize (Hout eq_refl). lia. }
  rewrite Houts by done. cbn [mbind option_bind]. unfold SerializeTransaction, fAllowWitness. cbn [nVersion nTime vin vout nLockTime].
  change (Z.land SERIALIZE_TRANSACTION_NO_WITNESS SERIALIZE_TRANSACTION_NO_WITNESS =? 0) with false. cbn [andb Z.eqb negb Z.land].
  unfold Vector_Ser. rewrite Hni, Hno. cbn [app]. by rewrite <- !app_assoc.
Qed.

End Equivalence.

(** C18: For every transaction, input and hash type, and every script that can be decoded, the serializer that blanks
    inputs and outputs and skips separators while it writes hashes the same bytes as the earlier implementation,
    which removes them from a copy of the transaction first. *)
Theorem SignatureHash_reference scriptCode txTo nIn nHashType amount v cache :
  v <> WITNESS_V0 -> (nIn < length (vin txTo))%nat -> length scriptCode < 2 ^ 32 -> is_Some (strip (length scriptCode) scriptCode) ->
  SignatureHash scriptCode txTo nIn nHashType amount v cache = Some (SignatureHashOld scriptCode txTo nIn nHashType).
Proof.
  intros Hv Hin Hl [code Hcode]. unfold SignatureHash, SignatureHashOld. destruct (lookup_lt_is_Some_2 _ _ Hin) as [i ->]. cbn [mbind option_bind].
  rewrite bool_decide_eq_false_2, (FindAndDelete_strip _ _ Hcode) by done. pose proof (SerializeScriptCode_strip _ _ Hcode Hl) as Hs.
  pose proof (Serialize_tx_spec txTo scriptCode code nIn nHashType Hs Hin) as Ht. unfold updated, kept_outputs, blanked, fAnyoneCanPay, fHashSingle, fHashNone in *.
  destruct (Z.land nHashType 31 =? SIGHASH_SINGLE) eqn:E1, (Z.land nHashType 31 =? SIGHASH_NONE) eqn:E2; cbn [andb orb] in *; cases_bool.
  - unfold SIGHASH_SINGLE, SIGHASH_NONE in *; lia.
  - destruct (length (vout txTo) <=? nIn)%nat eqn:E; cases_bool; [done|]. by rewrite Ht by (intros; lia).
  - by rewrite Ht by done.
  - by rewrite Ht by done.
Qed.

Lemma SignatureHash_reference_witness :
  SignatureHash [OP_CODESEPARATOR; OP_CHECKSIG] sample_tx 0 0x81 5 BASE None = Some (SignatureHashOld [OP_CODESEPARATOR; OP_CHECKSIG] sample_tx 0 0x81).
Proof. apply SignatureHash_reference; [done|cbn; lia|cbn; lia|by eexists]. Defined.

(** ** Precomputed data *)

Definition computed (c : PrecomputedTransactionData) (txTo : CTransaction) : Prop :=
  m_bip143_segwit_ready c = true ->
  hashPrevouts c = SHA256Uint256 (GetPrevoutsSHA256 txTo) /\ hashSequence c = SHA256Uint256 (GetSequencesSHA256 txTo) /\
  hashOutputs c = SHA256Uint256 (GetOutputsSHA256 txTo).

Lemma Init_computed txTo spent force c : Init PrecomputedTransactionData_init txTo spent force = Some c -> computed c txTo.
Proof.
  unfold Init. cbn [m_spent_outputs_ready PrecomputedTransactionData_init]. case_if; [done|]. destruct (scan_inputs _ _ _ _ _ _) as [segwit taproot]. intros [= <-].
  unfold computed. cbn. destruct segwit; [|done]. by cbn [orb].
Qed.

(** The data that is computed once per transaction changes no signature hash, whichever of its parts [Init] found
    necessary to compute. *)
Theorem SignatureHash_cache txTo spent force c scriptCode nIn nHashType amount v :
  Init PrecomputedTransactionData_init txTo spent force = Some c ->
  SignatureHash scriptCode txTo nIn nHashType amount v (Some c) = SignatureHash scriptCode txTo nIn nHashType amount v None.
Proof.
  intros Hc%Init_computed. unfold SignatureHash. destruct (vin txTo !! nIn) as [i|]; [|done]. cbn [mbind option_bind]. case_if; [|done].
  unfold SignatureHash_v0, cached. unfold computed in Hc. destruct (m_bip143_segwit_ready c); [|done]. by destruct (Hc eq_refl) as (-> & -> & ->).
Qed.

Lemma SignatureHash_cache_witness :
  exists c, Init PrecomputedTransactionData_init sample_tx [] true = Some c /\
    SignatureHash [OP_CHECKSIG] sample_tx 0 1 5 WITNESS_V0 (Some c) = SignatureHash [OP_CHECKSIG] sample_tx 0 1 5 WITNESS_V0 None.
Proof. eexists. split; [reflexivity|]. apply (SignatureHash_cache sample_tx [] true). reflexivity. Defined.

End Sighash.
