(* ===== verification/SighashCommit.v ===== *)
(** * What signatures commit to

    Two transactions with the same signature hash agree in everything the hash
    type covers, up to a collision among the messages hashed; and what the
    checker of a transaction's signatures promises to the interpreter. *)
From stdpp Require Import prelude strings.
From S2P Require Import Prelude Uint256 HashStream Fips180 Sha2Theory Sha256 Sha256Theory Hash Serialize Transaction Script Locks Interp InterpTheory BigNum Pubkey Sighash.

Module SighashCommit.
Import Serialize Transaction Script Interp Sighash.

(** ** Writers *)

#[local] Abbreviation rep256 := (represents 64 Sha256.Transform_block Sha256.Initialize).

Lemma writes_rep c msg l : rep256 c msg -> rep256 (writes c l) (msg ++ concat l).
Proof.
  revert c msg. induction l as [|x l IH]; intros c msg Hc; cbn [writes foldl concat]; [by rewrite app_nil_r|].
  rewrite app_assoc. apply IH. by apply Sha256Theory.Write_ok256.
Qed.

Lemma new_writer_rep : rep256 new_writer [].
Proof. apply represents_nil; [lia|done]. Qed.

Lemma single_hash l : Hash.GetSHA256 (writes new_writer l) = Hash.sha256 (concat l).
Proof. apply Hash.finalize256; [|done]. apply (writes_rep _ []), new_writer_rep. Qed.

Lemma double_hash l : Hash.GetHash (writes new_writer l) = Hash.sha256 (Hash.sha256 (concat l)).
Proof. apply Hash.GetHash_digest. apply (writes_rep _ []), new_writer_rep. Qed.

Lemma hash_again x : length x = 32%nat -> SHA256Uint256 x = Hash.sha256 x.
Proof. intros Hx. unfold SHA256Uint256, Hash.SHA256Uint256. rewrite take_ge by lia. apply Hash.finalize256; [|done]. by apply Hash.init256. Qed.

(** ** Formats *)

Lemma Ser_cancel {A} (SA : Serializable A) x y r r' : storable x -> storable y -> Ser x ++ r = Ser y ++ r' -> x = y /\ r = r'.
Proof. intros Hx Hy E. pose proof (Unser_Ser x r Hx) as H1. pose proof (Unser_Ser y r' Hy) as H2. rewrite E in H1. rewrite H1 in H2. by injection H2. Qed.

Lemma concat_cancel {A} (SA : Serializable A) (l1 l2 : list A) :
  (forall x, storable x -> Ser x <> []) -> Forall storable l1 -> Forall storable l2 -> concat (map Ser l1) = concat (map Ser l2) -> l1 = l2.
Proof.
  intros Hne H1. revert l2. induction H1 as [|x l1 Hx H1 IH]; intros l2 H2 E; destruct H2 as [|y l2 Hy H2]; cbn [map concat] in E; [done|..].
  - exfalso. by destruct (app_nil (Ser y) (concat (map Ser l2))) as [[? _] _]; [|apply (Hne y)].
  - exfalso. by destruct (app_nil (Ser x) (concat (map Ser l1))) as [[? _] _]; [|apply (Hne x)].
  - apply Ser_cancel in E as [-> E]; [|done..]. f_equal. by apply IH.
Qed.

(** ** BIP 143 *)

(** The hash type covers all inputs and outputs. *)
Definition covers_all (nHashType : Z) : Prop := fAnyoneCanPay nHashType = false /\ fHashSingle nHashType = false /\ fHashNone nHashType = false.

Definition fields_ok (tx : CTransaction) : Prop :=
  in_s 32 (nVersion tx) /\ in_u 32 (nTime tx) /\ in_u 32 (nLockTime tx) /\ Forall input_ok (vin tx) /\ Forall output_ok (vout tx).

Definition prevouts_of (tx : CTransaction) : list Z := concat (map (fun i => COutPoint_Ser (prevout i)) (vin tx)).
Definition sequences_of (tx : CTransaction) : list Z := concat (map (fun i => ser32 (nSequence i)) (vin tx)).
Definition outputs_of (tx : CTransaction) : list Z := concat (map CTxOut_Ser (vout tx)).

Definition v0_message (tx : CTransaction) (i : CTxIn) (scriptCode : list Z) (nHashType amount : Z) : list Z :=
  ser_i32 (nVersion tx) ++ (if nVersion tx <? 3 then ser32 (nTime tx) else []) ++
  Hash.sha256 (Hash.sha256 (prevouts_of tx)) ++ Hash.sha256 (Hash.sha256 (sequences_of tx)) ++
  COutPoint_Ser (prevout i) ++ Serialize_bytes scriptCode ++ ser_i64 amount ++ ser32 (nSequence i) ++
  Hash.sha256 (Hash.sha256 (outputs_of tx)) ++ ser32 (nLockTime tx) ++ ser_i32 nHashType.

(** Everything that is hashed for a signature. *)
Definition v0_hashed (tx : CTransaction) (i : CTxIn) (scriptCode : list Z) (nHashType amount : Z) : list (list Z) :=
  let m := v0_message tx i scriptCode nHashType amount in
  [prevouts_of tx; Hash.sha256 (prevouts_of tx); sequences_of tx; Hash.sha256 (sequences_of tx); outputs_of tx; Hash.sha256 (outputs_of tx);
   m; Hash.sha256 m].

Lemma v0_spec scriptCode tx nIn i nHashType amount :
  covers_all nHashType ->
  SignatureHash_v0 scriptCode tx nIn i nHashType amount None = Hash.sha256 (Hash.sha256 (v0_message tx i scriptCode nHashType amount)).
Proof.
  intros (Ha & Hs & Hn). unfold SignatureHash_v0, cached. rewrite Ha, Hs, Hn. cbn [negb andb].
  unfold GetPrevoutsSHA256, GetSequencesSHA256, GetOutputsSHA256. rewrite !single_hash, !hash_again by apply Hash.sha256_length.
  rewrite double_hash. unfold v0_message. do 2 f_equal. rewrite !concat_app. cbn [concat]. rewrite !app_nil_r.
  destruct (nVersion tx <? 3); cbn [concat]; by rewrite ?app_nil_r.
Qed.

(** Equal double digests of two elements hashed, the single digests among them too. *)
Lemma twice_inj msgs x y :
  x ∈ msgs -> y ∈ msgs -> Hash.sha256 x ∈ msgs -> Hash.sha256 y ∈ msgs -> Hash.sha256 (Hash.sha256 x) = Hash.sha256 (Hash.sha256 y) ->
  x = y \/ collides Hash.sha256 msgs.
Proof. intros Hx Hy Hx' Hy' E. destruct (collides_inj Hash.sha256 msgs _ _ Hx' Hy' E); [|by right]. by apply collides_inj. Qed.

Record agree (tx1 tx2 : CTransaction) : Prop := {
  agree_version : nVersion tx1 = nVersion tx2;
  agree_time : nVersion tx1 < 3 -> nTime tx1 = nTime tx2;
  agree_prevouts : map prevout (vin tx1) = map prevout (vin tx2);
  agree_sequences : map nSequence (vin tx1) = map nSequence (vin tx2);
  agree_outputs : vout tx1 = vout tx2;
  agree_locktime : nLockTime tx1 = nLockTime tx2
}.

Lemma digest_cancel x y r r' : Hash.sha256 x ++ r = Hash.sha256 y ++ r' -> Hash.sha256 x = Hash.sha256 y /\ r = r'.
Proof. intros E. apply app_inj_1 in E; [done|]. by rewrite !Hash.sha256_length. Qed.

Lemma prevouts_inj tx1 tx2 : Forall input_ok (vin tx1) -> Forall input_ok (vin tx2) -> prevouts_of tx1 = prevouts_of tx2 -> map prevout (vin tx1) = map prevout (vin tx2).
Proof.
  intros H1 H2. unfold prevouts_of. rewrite <- !(map_map prevout COutPoint_Ser). apply (concat_cancel COutPoint_Serializable).
  - intros [h n] [[Hh _] _]. cbn. destruct h; [done|]. by intros [=].
  - rewrite Forall_map. eapply Forall_impl; [exact H1|]. intros i (? & ? & _). done.
  - rewrite Forall_map. eapply Forall_impl; [exact H2|]. intros i (? & ? & _). done.
Qed.

Lemma sequences_inj tx1 tx2 : Forall input_ok (vin tx1) -> Forall input_ok (vin tx2) -> sequences_of tx1 = sequences_of tx2 -> map nSequence (vin tx1) = map nSequence (vin tx2).
Proof.
  intros H1 H2. unfold sequences_of. rewrite <- !(map_map nSequence ser32). apply (concat_cancel uint32_Serializable).
  - intros x _. done.
  - rewrite Forall_map. eapply Forall_impl; [exact H1|]. intros i (_ & _ & _ & ?). done.
  - rewrite Forall_map. eapply Forall_impl; [exact H2|]. intros i (_ & _ & _ & ?). done.
Qed.

Lemma outputs_inj tx1 tx2 : Forall output_ok (vout tx1) -> Forall output_ok (vout tx2) -> outputs_of tx1 = outputs_of tx2 -> vout tx1 = vout tx2.
Proof. intros H1 H2. apply (concat_cancel CTxOut_Serializable); [|done..]. intros x _. done. Qed.

Record request_ok (scriptCode : list Z) (nHashType amount : Z) : Prop := {
  ok_code : length scriptCode <= MAX_SIZE /\ digits 8 scriptCode;
  ok_type : in_s 32 nHashType;
  ok_amount : in_s 64 amount
}.

Lemma v0_message_inj tx1 i1 code1 ht1 a1 tx2 i2 code2 ht2 a2 :
  fields_ok tx1 -> fields_ok tx2 -> input_ok i1 -> input_ok i2 -> request_ok code1 ht1 a1 -> request_ok code2 ht2 a2 ->
  v0_message tx1 i1 code1 ht1 a1 = v0_message tx2 i2 code2 ht2 a2 ->
  (nVersion tx1 = nVersion tx2 /\ (nVersion tx1 < 3 -> nTime tx1 = nTime tx2) /\ nLockTime tx1 = nLockTime tx2) /\
  (prevout i1 = prevout i2 /\ code1 = code2 /\ a1 = a2 /\ ht1 = ht2) /\
  Hash.sha256 (Hash.sha256 (prevouts_of tx1)) = Hash.sha256 (Hash.sha256 (prevouts_of tx2)) /\
  Hash.sha256 (Hash.sha256 (sequences_of tx1)) = Hash.sha256 (Hash.sha256 (sequences_of tx2)) /\
  Hash.sha256 (Hash.sha256 (outputs_of tx1)) = Hash.sha256 (Hash.sha256 (outputs_of tx2)).
Proof.
  intros (V1 & T1 & L1 & _) (V2 & T2 & L2 & _) (P1 & N1 & _ & S1) (P2 & N2 & _ & S2) [C1 Y1 A1] [C2 Y2 A2] E. unfold v0_message in E.
  apply (Ser_cancel int32_Serializable) in E as [Ev E]; [|done..]. rewrite Ev in *.
  assert ((nVersion tx2 < 3 -> nTime tx1 = nTime tx2) /\ exists r1 r2, r1 = r2 /\
    r1 = Hash.sha256 (Hash.sha256 (prevouts_of tx1)) ++ Hash.sha256 (Hash.sha256 (sequences_of tx1)) ++ COutPoint_Ser (prevout i1) ++ Serialize_bytes code1 ++ ser_i64 a1 ++
         ser32 (nSequence i1) ++ Hash.sha256 (Hash.sha256 (outputs_of tx1)) ++ ser32 (nLockTime tx1) ++ ser_i32 ht1 /\
    r2 = Hash.sha256 (Hash.sha256 (prevouts_of tx2)) ++ Hash.sha256 (Hash.sha256 (sequences_of tx2)) ++ COutPoint_Ser (prevout i2) ++ Serialize_bytes code2 ++ ser_i64 a2 ++
         ser32 (nSequence i2) ++ Hash.sha256 (Hash.sha256 (outputs_of tx2)) ++ ser32 (nLockTime tx2) ++ ser_i32 ht2) as (Et & r1 & r2 & E' & -> & ->).
  { destruct (nVersion tx2 <? 3) eqn:E3; cases_bool; [apply (Ser_cancel uint32_Serializable) in E as [? E]; [|done..]|]; (split; [by intros; lia|]); eauto. }
  clear E. apply digest_cancel in E' as [Ep E]. apply digest_cancel in E as [Es E].
  apply (Ser_cancel COutPoint_Serializable) in E as [? E]; [|by split..]. apply (Ser_cancel bytes_Serializable) in E as [? E]; [|done..].
  apply (Ser_cancel int64_Serializable) in E as [? E]; [|done..]. apply (Ser_cancel uint32_Serializable) in E as [_ E]; [|done..].
  apply digest_cancel in E as [Eo E]. apply (Ser_cancel uint32_Serializable) in E as [? E]; [|done..].
  rewrite <- (app_nil_r (ser_i32 ht1)), <- (app_nil_r (ser_i32 ht2)) in E. apply (Ser_cancel int32_Serializable) in E as [? _]; [|done..]. done.
Qed.

Ltac is_hashed := unfold v0_hashed; repeat first [apply list_elem_of_here | apply list_elem_of_further].

(** C19: A BIP 143 signature whose hash type covers all inputs and outputs commits to the transaction: if two requests
    have the same signature hash then the two transactions agree in version, time, previous outputs, sequence
    numbers, outputs and lock time, and the requests in input, script, amount and hash type; or two different
    messages among those hashed for them have the same SHA-256. *)
Theorem SignatureHash_v0_commits tx1 n1 i1 code1 ht1 a1 tx2 n2 i2 code2 ht2 a2 h :
  fields_ok tx1 -> fields_ok tx2 -> request_ok code1 ht1 a1 -> request_ok code2 ht2 a2 -> covers_all ht1 -> covers_all ht2 ->
  vin tx1 !! n1 = Some i1 -> vin tx2 !! n2 = Some i2 ->
  SignatureHash code1 tx1 n1 ht1 a1 WITNESS_V0 None = Some h -> SignatureHash code2 tx2 n2 ht2 a2 WITNESS_V0 None = Some h ->
  (agree tx1 tx2 /\ prevout i1 = prevout i2 /\ code1 = code2 /\ a1 = a2 /\ ht1 = ht2) \/
  collides Hash.sha256 (v0_hashed tx1 i1 code1 ht1 a1 ++ v0_hashed tx2 i2 code2 ht2 a2).
Proof.
  intros F1 F2 Q1 Q2 A1 A2 I1 I2 E1 E2. unfold SignatureHash in E1, E2. rewrite I1 in E1. rewrite I2 in E2. cbn [mbind option_bind] in *.
  rewrite bool_decide_eq_true_2, v0_spec in E1, E2 by done. rewrite <- E2 in E1. apply (inj Some) in E1. set (msgs := _ ++ _).
  pose proof F1 as (_ & _ & _ & V1 & O1). pose proof F2 as (_ & _ & _ & V2 & O2).
  pose proof (proj1 (Forall_lookup _ _) V1 _ _ I1) as K1. pose proof (proj1 (Forall_lookup _ _) V2 _ _ I2) as K2.
  assert (forall x, x ∈ v0_hashed tx1 i1 code1 ht1 a1 -> x ∈ msgs) as M1 by (intros; apply elem_of_app; auto).
  assert (forall x, x ∈ v0_hashed tx2 i2 code2 ht2 a2 -> x ∈ msgs) as M2 by (intros; apply elem_of_app; auto).
  assert (forall x y, Hash.sha256 (Hash.sha256 x) = Hash.sha256 (Hash.sha256 y) -> x ∈ v0_hashed tx1 i1 code1 ht1 a1 -> y ∈ v0_hashed tx2 i2 code2 ht2 a2 ->
            Hash.sha256 x ∈ v0_hashed tx1 i1 code1 ht1 a1 -> Hash.sha256 y ∈ v0_hashed tx2 i2 code2 ht2 a2 -> x = y \/ collides Hash.sha256 msgs) as T
    by (intros; apply twice_inj; auto).
  destruct (T _ _ E1) as [Em|]; [by is_hashed..| |by right].
  destruct (v0_message_inj _ _ _ _ _ _ _ _ _ _ F1 F2 K1 K2 Q1 Q2 Em) as ((? & ? & ?) & R & Ep & Es & Eo).
  destruct (T _ _ Ep) as [Ep'|]; [by is_hashed..| |by right]. destruct (T _ _ Es) as [Es'|]; [by is_hashed..| |by right].
  destruct (T _ _ Eo) as [Eo'|]; [by is_hashed..| |by right].
  left. split; [|done]. split; try done; [by apply prevouts_inj|by apply sequences_inj|by apply outputs_inj].
Qed.

(** ** The checker *)

Import InterpTheory.

Lemma mapM_total {A} (f : nat -> option A) l : (forall k, k ∈ l -> is_Some (f k)) -> is_Some (mapM f l).
Proof. intros Hf. apply mapM_is_Some. apply Forall_forall. exact Hf. Qed.

Lemma SignatureHash_total code tx nIn ht amount v cache : (nIn < length (vin tx))%nat -> is_Some (SignatureHash code tx nIn ht amount v cache).
Proof.
  intros Hin. unfold SignatureHash. destruct (lookup_lt_is_Some_2 _ _ Hin) as [i Hi]. rewrite Hi. cbn [mbind option_bind].
  case_if; [by eexists|]. destruct (_ && _) eqn:Es; [by eexists|]. unfold Serialize_tx.
  destruct (mapM_total (SerializeInput tx code nIn ht) (seq 0 (if fAnyoneCanPay ht then 1%nat else length (vin tx)))) as [ins ->].
  { intros k Hk%elem_of_seq. unfold SerializeInput. destruct (fAnyoneCanPay ht); [rewrite Hi; by eexists|].
    destruct (lookup_lt_is_Some_2 (vin tx) k) as [j ->]; [lia|by eexists]. }
  cbn [mbind option_bind]. match goal with |- context [mapM ?f ?l] => destruct (mapM_total f l) as [outs ->] end; [|by eexists].
  intros k Hk%elem_of_seq. unfold SerializeOutput. destruct (fHashSingle ht); cbn [andb] in *; cases_bool.
  - case_if; [by eexists|]. destruct (lookup_lt_is_Some_2 (vout tx) k) as [o ->]; [destruct (fHashNone ht); lia|by eexists].
  - destruct (fHashNone ht); [lia|]. destruct (lookup_lt_is_Some_2 (vout tx) k) as [o ->]; [lia|by eexists].
Qed.

Section Promise.
Context `{SignatureVerifier} (tx : CTransaction) (mdb : MissingDataBehavior) (nIn : nat) (amount : Z) (txdata : option PrecomputedTransactionData).
Context (Hin : (nIn < length (vin tx))%nat).

Lemma tx_locktime_total n : is_Some (tx_CheckLockTime tx nIn n).
Proof using Hin.
  unfold tx_CheckLockTime. case_if; [by eexists|]. case_if; [by eexists|]. destruct (lookup_lt_is_Some_2 _ _ Hin) as [i ->]. by eexists.
Qed.

Lemma tx_sequence_total n : is_Some (tx_CheckSequence tx nIn n).
Proof using Hin. unfold tx_CheckSequence. destruct (lookup_lt_is_Some_2 _ _ Hin) as [i ->]. cbn [mbind option_bind]. repeat case_if; by eexists. Qed.

(** Before taproot the checker needs the amount for witness inputs, or a license to fail. *)
Lemma tx_checker_ecdsa v :
  v = BASE \/ v = WITNESS_V0 -> (v = WITNESS_V0 -> 0 <= amount \/ mdb = FAIL) -> checker_ok (TransactionSignatureChecker tx mdb nIn amount txdata) v.
Proof using Hin.
  intros Hv Ha. split; [|by intros ? ? ? ? [->| ->]; destruct Hv|apply tx_locktime_total|apply tx_sequence_total].
  intros sig key code _. cbn. unfold tx_CheckECDSASignature. case_if; [by eexists|]. destruct (last sig) as [ht|]; [|by eexists].
  destruct (_ && _) eqn:Ew; cases_bool.
  - apply bool_decide_eq_true in H0. destruct (Ha H0) as [?| ->]; [lia|by eexists].
  - destruct (SignatureHash_total code tx nIn ht amount v txdata Hin) as [h ->]. by eexists.
Qed.

(** From taproot on it needs the outputs that are spent. *)
Lemma tx_checker_schnorr c v :
  (forall sig key h, length sig = 64%nat -> is_Some (VerifySchnorrSignature sig key h)) ->
  txdata = Some c -> (m_bip341_taproot_ready c = true /\ m_spent_outputs_ready c = true \/ mdb = FAIL) -> length (m_spent_outputs c) = length (vin tx) ->
  v = TAPROOT \/ v = TAPSCRIPT -> checker_ok (TransactionSignatureChecker tx mdb nIn amount txdata) v.
Proof using Hin.
  intros Hver Hc Hready Hspent Hv. split; [by intros ? ? ? [->| ->]; destruct Hv| |apply tx_locktime_total|apply tx_sequence_total].
  intros sig key d Hkey _ [[annex Ha] Ht]. cbn. unfold tx_CheckSchnorrSignature. rewrite bool_decide_eq_true_2, Hkey, Hc by done. cbn [negb Nat.eqb].
  case_if; [done|]. unfold Pubkey.XOnlyPubKey. rewrite Hkey. cbn [Nat.eqb assert_some mbind outcome_bind].
  eapply (safe_bind (fun '(s, _) => length s = 64%nat)).
  { case_if; [case_if; [done|]; cbn; rewrite length_take; lia|]. cbn. apply andb_false_iff in E as [E|E]; cases_bool; lia. }
  intros [s ht] Hs. assert (safe (fun '(_, d') => caches_hash d d') (SignatureHashSchnorr d tx nIn ht v c mdb)) as Hh.
  { unfold SignatureHashSchnorr. destruct (lookup_lt_is_Some_2 _ _ Hin) as [i Hi]. rewrite Hi, Ha.
    assert (exists e, (match v with TAPROOT => Ok 0 | TAPSCRIPT => Ok 1 | _ => Abort end : outcome Z) = Ok e) as [e ->] by (destruct Hv as [->| ->]; by eexists).
    cbn [assert_some mbind outcome_bind]. destruct (negb (_ && _)) eqn:Er; [destruct Hready as [[R1 R2]| ->]; [by rewrite R1, R2 in Er|done]|]. case_if; [done|].
    eapply (safe_bind (fun _ => True)); [case_if; [|done]|intros spent _].
    { destruct (lookup_lt_is_Some_2 (m_spent_outputs c) nIn) as [o ->]; [by rewrite Hspent|done]. }
    eapply (safe_bind (fun '(_, d1) => caches_hash d d1)); [case_if; [destruct (vout tx !! nIn); [by eexists|done]|by exists (m_output_hash d); destruct d]|].
    intros [single d1] [h1 ->]. cbn [m_tapleaf_hash m_codeseparator_pos]. eapply (safe_bind (fun _ => True)); [|intros script _; by eexists].
    case_if; [|done]. apply bool_decide_eq_true in E1. destruct (Ht E1) as [[leaf ->] [pos ->]]. done. }
  destruct (SignatureHashSchnorr d tx nIn ht v c mdb) as [[h d']|e|]; [|done|done]. destruct (Hver s key h Hs) as [b ->]. cbn. by case_if.
Qed.

End Promise.

(** ** BIP 341 *)

Definition tag_digest : list Z := Hash.sha256 (Pubkey.ascii_bytes "TapSighash").
Lemma tap_writer_rep : rep256 HASHER_TAPSIGHASH (tag_digest ++ tag_digest).
Proof.
  unfold HASHER_TAPSIGHASH, Hash.TaggedHash. rewrite (Hash.finalize256 _ (Pubkey.ascii_bytes "TapSighash")); [|by apply Hash.init256|done].
  unfold tag_digest. generalize (Hash.sha256 (Pubkey.ascii_bytes "TapSighash")) as t. intros t. unfold Hash.CHashWriter_write.
  apply Sha256Theory.Write_ok256. by apply Hash.init256.
Qed.

Definition amounts_of (spent : list CTxOut) : list Z := concat (map (fun o => ser_i64 (nValue o)) spent).
Definition scripts_of (spent : list CTxOut) : list Z := concat (map (fun o => Serialize_bytes (scriptPubKey o)) spent).

(** What a signature under BIP 341 is asked for. *)
Record tap_request := mkTap {
  q_tx : CTransaction;
  q_spent : list CTxOut;
  q_pos : nat;
  q_type : Z;
  q_version : SigVersion;
  q_annex : option (list Z);
  q_leaf : list Z;
  q_separator : Z
}.
Definition q_data (q : tap_request) : ScriptExecutionData :=
  mkExec (Some (q_leaf q)) (Some (q_separator q)) (Some (q_annex q)) (Some 0) None.

Definition spend_type (q : tap_request) : Z :=
  (if bool_decide (q_version q = TAPSCRIPT) then 2 else 0) + (match q_annex q with Some _ => 1 | None => 0 end).

Definition tap_message (q : tap_request) : list Z :=
  tag_digest ++ tag_digest ++ [0; q_type q] ++ ser_i32 (nVersion (q_tx q)) ++ ser32 (nLockTime (q_tx q)) ++
  Hash.sha256 (prevouts_of (q_tx q)) ++ Hash.sha256 (amounts_of (q_spent q)) ++ Hash.sha256 (scripts_of (q_spent q)) ++
  Hash.sha256 (sequences_of (q_tx q)) ++ Hash.sha256 (outputs_of (q_tx q)) ++ [spend_type q] ++ ser32 (q_pos q) ++
  (match q_annex q with Some h => h | None => [] end) ++
  (if bool_decide (q_version q = TAPSCRIPT) then q_leaf q ++ [0] ++ ser32 (q_separator q) else []).

Definition tap_hashed (q : tap_request) : list (list Z) :=
  [prevouts_of (q_tx q); amounts_of (q_spent q); scripts_of (q_spent q); sequences_of (q_tx q); outputs_of (q_tx q); tap_message q].

Lemma Init_taproot tx spent force c :
  Init PrecomputedTransactionData_init tx spent force = Some c -> m_bip341_taproot_ready c = true ->
  m_prevouts_single_hash c = Hash.sha256 (prevouts_of tx) /\ m_sequences_single_hash c = Hash.sha256 (sequences_of tx) /\
  m_outputs_single_hash c = Hash.sha256 (outputs_of tx) /\ m_spent_amounts_single_hash c = Hash.sha256 (amounts_of spent) /\
  m_spent_scripts_single_hash c = Hash.sha256 (scripts_of spent).
Proof.
  unfold Init. change (m_spent_outputs_ready PrecomputedTransactionData_init) with false. cbv iota. destruct (_ && _); [discriminate|].
  destruct (scan_inputs _ _ _ _ _ _) as [segwit taproot]. intros E. apply (inj Some) in E as <-. destruct taproot; [|discriminate]. intros _.
  cbn [m_prevouts_single_hash m_sequences_single_hash m_outputs_single_hash m_spent_amounts_single_hash m_spent_scripts_single_hash]. rewrite orb_true_r. cbv iota.
  unfold GetPrevoutsSHA256, GetSequencesSHA256, GetOutputsSHA256, GetSpentAmountsSHA256, GetSpentScriptsSHA256. rewrite !single_hash. repeat split.
Qed.

Lemma tap_writer l : Hash.GetSHA256 (writes HASHER_TAPSIGHASH l) = Hash.sha256 (tag_digest ++ tag_digest ++ concat l).
Proof. apply Hash.finalize256; [|done]. rewrite app_assoc. apply writes_rep, tap_writer_rep. Qed.

Lemma Ok_fst {A B} (a b : A) (x y : B) : Ok (a, x) = Ok (b, y) -> a = b.
Proof. by intros [= -> _]. Qed.

#[local] Opaque HASHER_TAPSIGHASH tag_digest Hash.GetSHA256.

Lemma tap_spec q c mdb h d :
  q_type q = 0 \/ q_type q = 1 ->
  SignatureHashSchnorr (q_data q) (q_tx q) (q_pos q) (q_type q) (q_version q) c mdb = Ok (h, d) ->
  m_bip341_taproot_ready c = true /\ is_Some (vin (q_tx q) !! q_pos q) /\ (q_version q = TAPROOT \/ q_version q = TAPSCRIPT) /\
  h = Hash.sha256 (tag_digest ++ tag_digest ++ [0; q_type q] ++ ser_i32 (nVersion (q_tx q)) ++ ser32 (nLockTime (q_tx q)) ++
        m_prevouts_single_hash c ++ m_spent_amounts_single_hash c ++ m_spent_scripts_single_hash c ++ m_sequences_single_hash c ++ m_outputs_single_hash c ++
        [spend_type q] ++ ser32 (q_pos q) ++ (match q_annex q with Some h => h | None => [] end) ++
        (if bool_decide (q_version q = TAPSCRIPT) then q_leaf q ++ [0] ++ ser32 (q_separator q) else [])).
Proof.
  intros Ht Hh.
  assert ((Z.land (q_type q) SIGHASH_INPUT_MASK =? SIGHASH_ANYONECANPAY) = false) as E1 by (by destruct Ht as [->| ->]).
  assert ((if q_type q =? SIGHASH_DEFAULT then SIGHASH_ALL else Z.land (q_type q) SIGHASH_OUTPUT_MASK) = SIGHASH_ALL) as E2 by (by destruct Ht as [->| ->]).
  assert (negb ((q_type q <=? 0x03) || ((0x81 <=? q_type q) && (q_type q <=? 0x83))) = false) as E3 by (by destruct Ht as [->| ->]).
  assert (ser_writedata8 (q_type q) = [q_type q]) as E4 by (by destruct Ht as [->| ->]).
  unfold SignatureHashSchnorr in Hh. cbv zeta in Hh. rewrite E1, E2, E3, E4 in Hh. clear E1 E2 E3 E4.
  destruct (vin (q_tx q) !! q_pos q) as [i|] eqn:Ei; [|by destruct (q_version q)].
  unfold spend_type. destruct (q_version q) eqn:Ev; [discriminate|discriminate|..]; cbn [mbind outcome_bind assert_some] in Hh;
    (destruct (m_bip341_taproot_ready c), (m_spent_outputs_ready c); cbn [andb negb] in Hh; [|by destruct mdb..]);
    (split; [done|split; [by eexists|split; [auto|]]]);
    cbn [q_data m_annex m_tapleaf_hash m_codeseparator_pos assert_some mbind outcome_bind negb] in Hh;
    change (SIGHASH_ALL =? SIGHASH_SINGLE) with false in Hh; change (SIGHASH_ALL =? SIGHASH_ALL) with true in Hh; cbn [mbind outcome_bind] in Hh;
    first [rewrite bool_decide_eq_true_2 in * by done | rewrite bool_decide_eq_false_2 in * by done];
    cbn [m_tapleaf_hash m_codeseparator_pos q_data assert_some mbind outcome_bind] in Hh; apply Ok_fst in Hh as <-; rewrite tap_writer; apply (f_equal Hash.sha256); apply (f_equal (app tag_digest)); apply (f_equal (app tag_digest)); destruct (q_annex q);
    cbn [concat app]; rewrite ?app_nil_r; reflexivity.
Qed.

Record tap_ok (q : tap_request) : Prop := {
  ok_fields : fields_ok (q_tx q);
  ok_spent : Forall output_ok (q_spent q);
  ok_default : q_type q = 0 \/ q_type q = 1;
  ok_pos : in_u 32 (q_pos q);
  ok_annex h : q_annex q = Some h -> length h = 32%nat;
  ok_leaf : length (q_leaf q) = 32%nat;
  ok_separator : in_u 32 (q_separator q)
}.

(** What two requests have in common; the time of the transaction is not part of it. *)
Record tap_agree (q1 q2 : tap_request) : Prop := {
  same_version : nVersion (q_tx q1) = nVersion (q_tx q2);
  same_locktime : nLockTime (q_tx q1) = nLockTime (q_tx q2);
  same_prevouts : map prevout (vin (q_tx q1)) = map prevout (vin (q_tx q2));
  same_sequences : map nSequence (vin (q_tx q1)) = map nSequence (vin (q_tx q2));
  same_outputs : vout (q_tx q1) = vout (q_tx q2);
  same_amounts : map nValue (q_spent q1) = map nValue (q_spent q2);
  same_scripts : map scriptPubKey (q_spent q1) = map scriptPubKey (q_spent q2);
  same_pos : q_pos q1 = q_pos q2;
  same_type : q_type q1 = q_type q2;
  same_path : q_version q1 = q_version q2;
  same_annex : q_annex q1 = q_annex q2;
  same_leaf : q_version q1 = TAPSCRIPT -> q_leaf q1 = q_leaf q2 /\ q_separator q1 = q_separator q2
}.

Lemma amounts_inj l1 l2 : Forall output_ok l1 -> Forall output_ok l2 -> amounts_of l1 = amounts_of l2 -> map nValue l1 = map nValue l2.
Proof.
  intros H1 H2. unfold amounts_of. rewrite <- !(map_map nValue ser_i64). apply (concat_cancel int64_Serializable); [by intros x _|..];
    rewrite Forall_map; (eapply Forall_impl; [eassumption|]); by intros o (? & _).
Qed.

Lemma scripts_inj l1 l2 : Forall output_ok l1 -> Forall output_ok l2 -> scripts_of l1 = scripts_of l2 -> map scriptPubKey l1 = map scriptPubKey l2.
Proof.
  intros H1 H2. unfold scripts_of. rewrite <- !(map_map scriptPubKey Serialize_bytes). apply (concat_cancel bytes_Serializable).
  - intros x _. cbn. unfold Serialize_bytes, WriteCompactSize. repeat case_if; done.
  - rewrite Forall_map; (eapply Forall_impl; [eassumption|]); by intros o (_ & ?).
  - rewrite Forall_map; (eapply Forall_impl; [eassumption|]); by intros o (_ & ?).
Qed.

Lemma spend_type_inj q1 q2 :
  q_version q1 = TAPROOT \/ q_version q1 = TAPSCRIPT -> q_version q2 = TAPROOT \/ q_version q2 = TAPSCRIPT -> spend_type q1 = spend_type q2 ->
  q_version q1 = q_version q2 /\ (is_Some (q_annex q1) <-> is_Some (q_annex q2)).
Proof.
  unfold spend_type. intros [-> | ->] [-> | ->]; rewrite ?bool_decide_eq_true_2, ?bool_decide_eq_false_2 by done;
    destruct (q_annex q1), (q_annex q2); intros E; try lia; (split; [done|]); rewrite ?is_Some_alt; done.
Qed.

Lemma tap_tail_inj q1 q2 :
  tap_ok q1 -> tap_ok q2 -> q_version q1 = q_version q2 -> (is_Some (q_annex q1) <-> is_Some (q_annex q2)) ->
  (match q_annex q1 with Some h => h | None => [] end) ++ (if bool_decide (q_version q1 = TAPSCRIPT) then q_leaf q1 ++ [0] ++ ser32 (q_separator q1) else []) =
  (match q_annex q2 with Some h => h | None => [] end) ++ (if bool_decide (q_version q2 = TAPSCRIPT) then q_leaf q2 ++ [0] ++ ser32 (q_separator q2) else []) ->
  q_annex q1 = q_annex q2 /\ (q_version q1 = TAPSCRIPT -> q_leaf q1 = q_leaf q2 /\ q_separator q1 = q_separator q2).
Proof.
  intros K1 K2 Hv Ha E. rewrite Hv in *. apply app_inj_1 in E as [E1 E2].
  - split; [destruct (q_annex q1), (q_annex q2); [by f_equal|by destruct Ha as [[? ?] _]|by destruct Ha as [_ [? ?]]|done]|].
    intros Hs. rewrite bool_decide_eq_true_2 in E2 by done. apply app_inj_1 in E2 as [? E2]; [|rewrite (ok_leaf _ K1), (ok_leaf _ K2); done].
    split; [done|]. apply app_inv_head in E2. rewrite <- (app_nil_r (ser32 (q_separator q1))), <- (app_nil_r (ser32 (q_separator q2))) in E2.
    by apply (Ser_cancel uint32_Serializable) in E2 as [? _]; [|apply ok_separator..].
  - destruct (q_annex q1) as [h1|] eqn:A1, (q_annex q2) as [h2|] eqn:A2; [|by destruct Ha as [[? ?] _]|by destruct Ha as [_ [? ?]]|done].
    by rewrite (ok_annex _ K1 _ A1), (ok_annex _ K2 _ A2).
Qed.

Lemma tap_message_inj q1 q2 :
  tap_ok q1 -> tap_ok q2 -> q_version q1 = TAPROOT \/ q_version q1 = TAPSCRIPT -> q_version q2 = TAPROOT \/ q_version q2 = TAPSCRIPT ->
  tap_message q1 = tap_message q2 ->
  (Hash.sha256 (prevouts_of (q_tx q1)) = Hash.sha256 (prevouts_of (q_tx q2)) /\ Hash.sha256 (amounts_of (q_spent q1)) = Hash.sha256 (amounts_of (q_spent q2)) /\
   Hash.sha256 (scripts_of (q_spent q1)) = Hash.sha256 (scripts_of (q_spent q2)) /\ Hash.sha256 (sequences_of (q_tx q1)) = Hash.sha256 (sequences_of (q_tx q2)) /\
   Hash.sha256 (outputs_of (q_tx q1)) = Hash.sha256 (outputs_of (q_tx q2))) /\
  (map prevout (vin (q_tx q1)) = map prevout (vin (q_tx q2)) -> map nSequence (vin (q_tx q1)) = map nSequence (vin (q_tx q2)) ->
   vout (q_tx q1) = vout (q_tx q2) -> map nValue (q_spent q1) = map nValue (q_spent q2) -> map scriptPubKey (q_spent q1) = map scriptPubKey (q_spent q2) ->
   tap_agree q1 q2).
Proof.
  intros K1 K2 V1 V2 E. pose proof (ok_fields _ K1) as (W1 & _ & L1 & _). pose proof (ok_fields _ K2) as (W2 & _ & L2 & _).
  unfold tap_message in E. do 2 apply app_inv_head in E.
  apply app_inj_1 in E as [Et E]; [|done]. injection Et as Et.
  apply (Ser_cancel int32_Serializable) in E as [? E]; [|done..]. apply (Ser_cancel uint32_Serializable) in E as [? E]; [|done..].
  do 5 (apply digest_cancel in E as [? E]). apply app_inj_1 in E as [Es E]; [|done]. injection Es as Es.
  apply (Ser_cancel uint32_Serializable) in E as [Ep E]; [|by apply ok_pos..].
  destruct (spend_type_inj q1 q2 V1 V2 Es) as [Hv Ha]. destruct (tap_tail_inj q1 q2 K1 K2 Hv Ha E) as [? ?].
  split; [done|]. intros. split; try done. by apply Nat2Z.inj.
Qed.

Ltac is_tap_hashed k := apply (list_elem_of_lookup_2 _ k); reflexivity.

Definition with_time (tx : CTransaction) (t : Z) : CTransaction := mkTx (vin tx) (vout tx) (nVersion tx) t (nLockTime tx).

(** C20: A BIP 341 signature with the default or the "all" hash type commits to version, lock time, previous outputs,
    sequence numbers and outputs of the transaction, to the amounts and scripts of all outputs spent, and to the
    position, the annex, the leaf and the last separator executed: two requests with the same signature hash agree
    in all of them, or two different messages among those hashed have the same SHA-256.  It does not commit to the
    transaction's time: the hash is the same for every other time, with the same data precomputed. *)
Theorem SignatureHashSchnorr_commits q1 q2 force1 force2 c1 c2 mdb h d1 d2 :
  tap_ok q1 -> tap_ok q2 ->
  Init PrecomputedTransactionData_init (q_tx q1) (q_spent q1) force1 = Some c1 ->
  Init PrecomputedTransactionData_init (q_tx q2) (q_spent q2) force2 = Some c2 ->
  SignatureHashSchnorr (q_data q1) (q_tx q1) (q_pos q1) (q_type q1) (q_version q1) c1 mdb = Ok (h, d1) ->
  SignatureHashSchnorr (q_data q2) (q_tx q2) (q_pos q2) (q_type q2) (q_version q2) c2 mdb = Ok (h, d2) ->
  (tap_agree q1 q2 \/ collides Hash.sha256 (tap_hashed q1 ++ tap_hashed q2)) /\
  (forall t, Init PrecomputedTransactionData_init (with_time (q_tx q1) t) (q_spent q1) force1 = Some c1 /\
     SignatureHashSchnorr (q_data q1) (with_time (q_tx q1) t) (q_pos q1) (q_type q1) (q_version q1) c1 mdb = Ok (h, d1)).
Proof.
  intros K1 K2 C1 C2 E1 E2. split; [|done].
  destruct (tap_spec q1 c1 mdb h d1 (ok_default _ K1) E1) as (R1 & _ & V1 & H1). destruct (tap_spec q2 c2 mdb h d2 (ok_default _ K2) E2) as (R2 & _ & V2 & H2).
  destruct (Init_taproot _ _ _ _ C1 R1) as (P1 & S1 & O1 & A1 & X1). destruct (Init_taproot _ _ _ _ C2 R2) as (P2 & S2 & O2 & A2 & X2).
  rewrite P1, S1, O1, A1, X1 in H1. rewrite P2, S2, O2, A2, X2 in H2.
  assert (Hash.sha256 (tap_message q1) = Hash.sha256 (tap_message q2)) as H by exact (eq_trans (eq_sym H1) H2).
  set (msgs := tap_hashed q1 ++ tap_hashed q2).
  assert (forall x y, Hash.sha256 x = Hash.sha256 y -> x ∈ tap_hashed q1 -> y ∈ tap_hashed q2 -> x = y \/ collides Hash.sha256 msgs) as T.
  { intros x y E Hx Hy. apply (collides_inj Hash.sha256 msgs x y); [apply elem_of_app; by left|apply elem_of_app; by right|exact E]. }
  destruct (T (tap_message q1) (tap_message q2) H) as [Em|]; [is_tap_hashed 5%nat..| |by right].
  destruct (tap_message_inj q1 q2 K1 K2 V1 V2 Em) as ((Hp & Ha & Hs & Hq & Ho) & Hagree).
  destruct (T _ _ Hp) as [Ep|]; [is_tap_hashed 0%nat..| |by right]. destruct (T _ _ Ha) as [Ea|]; [is_tap_hashed 1%nat..| |by right].
  destruct (T _ _ Hs) as [Ex|]; [is_tap_hashed 2%nat..| |by right]. destruct (T _ _ Hq) as [Eq|]; [is_tap_hashed 3%nat..| |by right].
  destruct (T _ _ Ho) as [Eo|]; [is_tap_hashed 4%nat..| |by right].
  pose proof (ok_fields _ K1) as (_ & _ & _ & I1 & J1). pose proof (ok_fields _ K2) as (_ & _ & _ & I2 & J2).
  left. apply Hagree; [by apply prevouts_inj|by apply sequences_inj|by apply outputs_inj|apply amounts_inj|apply scripts_inj]; auto using ok_spent.
Qed.

Definition sample : CTransaction :=
  mkTx [mkTxIn (mkOutPoint (replicate 32 1) 0) [] 0xfffffffe [[7]]] [mkTxOut 5000 [OP_1]] 2 1700000000 0.
Definition sample_request : tap_request := mkTap sample [mkTxOut 6000 (OP_1 :: 32 :: replicate 32 9)] 0 0 TAPSCRIPT None (replicate 32 4) 0xFFFFFFFF.

Lemma sample_fields : fields_ok sample.
Proof.
  split; [cbn; unfold in_s; lia|]. split; [cbn; unfold in_u; lia|]. split; [cbn; unfold in_u; lia|]. split; (constructor; [|constructor]).
  - split; [split; [done|by apply bytes_check]|]. cbn. unfold in_u, MAX_SIZE. split; [lia|]. split; [split; [lia|constructor]|lia].
  - split; [cbn; unfold in_s; lia|]. split; [cbn; unfold MAX_SIZE; lia|by apply bytes_check].
Qed.

Lemma sample_code : request_ok [OP_CHECKSIG] 1 6000.
Proof. split; [split; [cbn; unfold MAX_SIZE; lia|by apply bytes_check]|unfold in_s; lia..]. Qed.

Lemma SignatureHash_v0_commits_witness :
  exists i h, vin sample !! 0%nat = Some i /\ SignatureHash [OP_CHECKSIG] sample 0 1 6000 WITNESS_V0 None = Some h /\
    ((agree sample sample /\ prevout i = prevout i /\ [OP_CHECKSIG] = [OP_CHECKSIG] /\ 6000 = 6000 /\ 1 = 1) \/
     collides Hash.sha256 (v0_hashed sample i [OP_CHECKSIG] 1 6000 ++ v0_hashed sample i [OP_CHECKSIG] 1 6000)).
Proof.
  eexists _, _. split; [reflexivity|]. split; [reflexivity|].
  eapply (SignatureHash_v0_commits sample 0 _ [OP_CHECKSIG] 1 6000 sample 0 _ [OP_CHECKSIG] 1 6000).
  all: first [exact sample_fields | exact sample_code | by repeat split | reflexivity].
Defined.

Lemma sample_request_ok : tap_ok sample_request.
Proof.
  split; [exact sample_fields| |by left|cbn; unfold in_u; lia|done|done|cbn; unfold in_u; lia].
  constructor; [|constructor]. split; [cbn; unfold in_s; lia|]. split; [cbn; unfold MAX_SIZE; lia|by apply bytes_check].
Qed.

Lemma SignatureHashSchnorr_commits_witness :
  exists c h d, Init PrecomputedTransactionData_init sample (q_spent sample_request) false = Some c /\
    SignatureHashSchnorr (q_data sample_request) sample 0 0 TAPSCRIPT c ASSERT_FAIL = Ok (h, d) /\
    (tap_agree sample_request sample_request \/ collides Hash.sha256 (tap_hashed sample_request ++ tap_hashed sample_request)).
Proof.
  eexists _, _, _. split; [reflexivity|]. split; [reflexivity|].
  refine (proj1 (SignatureHashSchnorr_commits sample_request sample_request false false _ _ ASSERT_FAIL _ _ _ _ _ eq_refl eq_refl eq_refl eq_refl)).
  all: exact sample_request_ok.
Defined.

End SighashCommit.
