(* ===== verification/SigCache.v ===== *)
(** * The cache of valid signatures ([script/sigcache.cpp], [util/hasher.h])

    [CSignatureCache] over any set that may forget, and the two methods of
    [CachingTransactionSignatureChecker]; then the threads of the script check
    queue, which share one cache and hold its lock only while they look up or
    insert.  [None] is an access out of range or a failed assertion. *)
From stdpp Require Import prelude list strings.
From S2P Require Import Prelude Uint256 HashStream Fips180 Sha2Theory Sha256 Sha256Theory Hash Serialize Transaction CuckooCache CuckooTheory Interp Pubkey Sighash SighashCommit.

Module SigCache.
Import Hash.

#[local] Abbreviation rep256 := (represents 64 Sha256.Transform_block Sha256.Initialize).

Definition DEFAULT_MAX_SIG_CACHE_SIZE : Z := 32.
Definition MAX_MAX_SIG_CACHE_SIZE : Z := 16384.

(** On a little-endian machine. *)
Definition SignatureCacheHasher (hash_select : nat) (key : list Z) : Z := u32 (ReadLE32 key (4 * hash_select)).

(** The size in bytes of the option [-maxsigcachesize], and the set-up of the cache. *)
Definition nMaxCacheSize (arg : Z) : Z := u64 (Z.min (Z.max 0 (Z.quot arg 2)) MAX_MAX_SIG_CACHE_SIZE * 2 ^ 20).
Definition InitSignatureCache (log2f : Z -> Z) (arg : Z) : CuckooCache.cache (list Z) * Z :=
  CuckooCache.setup_bytes (Blob.null 32) log2f 32 CuckooCache.cache_init (nMaxCacheSize arg).

Section Code.
Context {S : Type} `{ForgetfulSet S (list Z)} `{Pubkey.Secp256k1}.

Record CSignatureCache := mkSigCache {
  m_salted_hasher_ecdsa : Sha256.CSHA256;
  m_salted_hasher_schnorr : Sha256.CSHA256;
  setValid : S
}.
Definition with_set (c : CSignatureCache) (s : S) : CSignatureCache := mkSigCache (m_salted_hasher_ecdsa c) (m_salted_hasher_schnorr c) s.

Definition PADDING_ECDSA : list Z := 69 :: replicate 31 0.
Definition PADDING_SCHNORR : list Z := 83 :: replicate 31 0.

(** [junk] is in the buffers of the hashers, [nonce] is random. *)
Definition CSignatureCache_init (junk nonce : list Z) (s : S) : CSignatureCache :=
  mkSigCache (Sha256.Write (Sha256.Write (Sha256.CSHA256_init junk) nonce) PADDING_ECDSA)
    (Sha256.Write (Sha256.Write (Sha256.CSHA256_init junk) nonce) PADDING_SCHNORR) s.

Definition ComputeEntryECDSA (c : CSignatureCache) (hash vchSig pubkey : list Z) : list Z :=
  (Sha256.Finalize (Sha256.Write (Sha256.Write (Sha256.Write (m_salted_hasher_ecdsa c) hash) (Pubkey.bytes pubkey)) vchSig) (Blob.null 32)).2.
Definition ComputeEntrySchnorr (c : CSignatureCache) (hash sig pubkey : list Z) : list Z :=
  (Sha256.Finalize (Sha256.Write (Sha256.Write (Sha256.Write (m_salted_hasher_schnorr c) hash) pubkey) sig) (Blob.null 32)).2.

Definition Get (c : CSignatureCache) (entry : list Z) (erase : bool) : option (CSignatureCache * bool) :=
  '(s, b) ← set_contains (setValid c) entry erase; Some (with_set c s, b).
Definition Set' (c : CSignatureCache) (entry : list Z) : option CSignatureCache :=
  s ← set_insert (setValid c) entry; Some (with_set c s).

Definition VerifyECDSASignature (store : bool) (c : CSignatureCache) (vchSig pubkey sighash : list Z) : option (CSignatureCache * bool) :=
  let entry := ComputeEntryECDSA c sighash vchSig pubkey in
  '(c, found) ← Get c entry (negb store);
  if (found : bool) then Some (c, true)
  else if negb (Pubkey.Verify pubkey sighash vchSig) then Some (c, false)
  else c ← (if store then Set' c entry else Some c); Some (c, true).

Definition VerifySchnorrSignature (store : bool) (c : CSignatureCache) (sig pubkey sighash : list Z) : option (CSignatureCache * bool) :=
  let entry := ComputeEntrySchnorr c sighash sig pubkey in
  '(c, found) ← Get c entry (negb store);
  if (found : bool) then Some (c, true)
  else
    valid ← Pubkey.VerifySchnorr pubkey sighash sig;
    if negb valid then Some (c, false)
    else c ← (if store then Set' c entry else Some c); Some (c, true).

(** ** Calls *)

Inductive query :=
| ECDSA (vchSig pubkey sighash : list Z)
| Schnorr (sig pubkey sighash : list Z).

Definition entry (c : CSignatureCache) (q : query) : list Z :=
  match q with
  | ECDSA vchSig pubkey sighash => ComputeEntryECDSA c sighash vchSig pubkey
  | Schnorr sig pubkey sighash => ComputeEntrySchnorr c sighash sig pubkey
  end.

(** The check without a cache, and the call with it. *)
Definition verify (q : query) : option bool :=
  match q with
  | ECDSA vchSig pubkey sighash => Some (Pubkey.Verify pubkey sighash vchSig)
  | Schnorr sig pubkey sighash => Pubkey.VerifySchnorr pubkey sighash sig
  end.
Definition call (store : bool) (c : CSignatureCache) (q : query) : option (CSignatureCache * bool) :=
  match q with
  | ECDSA vchSig pubkey sighash => VerifyECDSASignature store c vchSig pubkey sighash
  | Schnorr sig pubkey sighash => VerifySchnorrSignature store c sig pubkey sighash
  end.

(** What the callers pass: a valid key object, a hash, and a signature of 64 bytes for the second kind. *)
Definition query_ok (q : query) : Prop :=
  match q with
  | ECDSA _ pubkey sighash => length pubkey = 65%nat /\ Pubkey.IsValid pubkey = true /\ length sighash = 32%nat
  | Schnorr sig pubkey sighash => length sig = 64%nat /\ length pubkey = 32%nat /\ length sighash = 32%nat
  end.

(** The bytes that are hashed to the entry of a query. *)
Definition message (nonce : list Z) (q : query) : list Z :=
  match q with
  | ECDSA vchSig pubkey sighash => nonce ++ PADDING_ECDSA ++ sighash ++ Pubkey.bytes pubkey ++ vchSig
  | Schnorr sig pubkey sighash => nonce ++ PADDING_SCHNORR ++ sighash ++ pubkey ++ sig
  end.

Definition salted (junk nonce : list Z) (c : CSignatureCache) : Prop :=
  exists s, c = CSignatureCache_init junk nonce s.

Lemma entry_message junk nonce c q : length junk = 64%nat -> salted junk nonce c -> entry c q = sha256 (message nonce q).
Proof using.
  intros Hj [s ->]. assert (forall p, rep256 (Sha256.Write (Sha256.Write (Sha256.CSHA256_init junk) nonce) p) (nonce ++ p)) as Hr.
  { intros p. apply Sha256Theory.Write_ok256. by apply init256. }
  destruct q as [vchSig pubkey sighash|sig pubkey sighash]; apply finalize256; try done; cbn [message].
  - rewrite (app_assoc nonce), (app_assoc (nonce ++ _)), (app_assoc ((nonce ++ _) ++ _)). do 3 apply Sha256Theory.Write_ok256. apply Hr.
  - rewrite (app_assoc nonce), (app_assoc (nonce ++ _)), (app_assoc ((nonce ++ _) ++ _)). do 3 apply Sha256Theory.Write_ok256. apply Hr.
Qed.

Lemma bytes_first k : length k = 65%nat -> Pubkey.IsValid k = true -> (Pubkey.bytes k).[0] = k.[0] /\ length (Pubkey.bytes k) = Pubkey.size k.
Proof using.
  intros Hl Hv. unfold Pubkey.IsValid in Hv. apply Nat.ltb_lt in Hv. destruct k as [|x k]; [done|]. unfold Pubkey.bytes.
  assert (Pubkey.size (x :: k) <= 65)%nat as Hs by (unfold Pubkey.size, Pubkey.GetLen, Pubkey.SIZE, Pubkey.COMPRESSED_SIZE; repeat case_match; lia).
  split; [|rewrite length_take; lia]. destruct (Pubkey.size (x :: k)); [lia|done].
Qed.

(** Different queries hash different bytes, but for what the key objects hold behind their keys. *)
Lemma message_verify nonce q q' : query_ok q -> query_ok q' -> message nonce q = message nonce q' -> verify q = verify q'.
Proof using.
  destruct q as [s1 k1 h1|s1 k1 h1], q' as [s2 k2 h2|s2 k2 h2]; cbn [query_ok message verify]; intros Hq Hq' Hm; apply app_inv_head in Hm.
  - apply app_inv_head in Hm. destruct Hq as (Hl1 & Hv1 & Hh1), Hq' as (Hl2 & Hv2 & Hh2). apply app_inj_1 in Hm as [-> Hm]; [|congruence].
    destruct (bytes_first k1 Hl1 Hv1) as [F1 L1], (bytes_first k2 Hl2 Hv2) as [F2 L2].
    assert (k1.[0] = k2.[0]) as E0.
    { rewrite <- F1, <- F2. unfold Pubkey.IsValid in *. apply Nat.ltb_lt in Hv1, Hv2. destruct (Pubkey.bytes k1), (Pubkey.bytes k2); cbn in *; try lia. congruence. }
    assert (Pubkey.size k1 = Pubkey.size k2) as Es by (unfold Pubkey.size; by rewrite E0). apply app_inj_1 in Hm as [Hb ->]; [|congruence].
    unfold Pubkey.Verify. by rewrite Hb, Hv1, Hv2.
  - done.
  - done.
  - apply app_inv_head in Hm. destruct Hq as (Hl1 & Hv1 & Hh1), Hq' as (Hl2 & Hv2 & Hh2). apply app_inj_1 in Hm as [-> Hm]; [|congruence].
    apply app_inj_1 in Hm as [-> ->]; [done|congruence].
Qed.

(** ** Threads

    A call looks its entry up under the lock; if it is not found it verifies
    without the lock; if it is to be stored it takes the lock again. *)

Inductive thread :=
| Idle
| Asking (q : query) (store : bool)
| Verifying (q : query) (store : bool)
| Storing (q : query)
| Answered (q : query) (b : bool).

(** The queries that were stored are kept for the theorem. *)
Record state := mkState { cache : CSignatureCache; threads : list thread; stored : list query }.

Inductive step (i : nat) : state -> state -> Prop :=
| step_ask c ts l q store : ts !! i = Some Idle -> query_ok q -> step i (mkState c ts l) (mkState c (<[i := Asking q store]> ts) l)
| step_get c c' ts l q store (b : bool) : ts !! i = Some (Asking q store) -> Get c (entry c q) (negb store) = Some (c', b) ->
    step i (mkState c ts l) (mkState c' (<[i := if b then Answered q true else Verifying q store]> ts) l)
| step_verify c ts l q (store b : bool) : ts !! i = Some (Verifying q store) -> verify q = Some b ->
    step i (mkState c ts l) (mkState c (<[i := if b then if store then Storing q else Answered q true else Answered q false]> ts) l)
| step_set c c' ts l q : ts !! i = Some (Storing q) -> Set' c (entry c q) = Some c' ->
    step i (mkState c ts l) (mkState c' (<[i := Answered q true]> ts) (q :: l))
| step_return c ts l q b : ts !! i = Some (Answered q b) -> step i (mkState c ts l) (mkState c (<[i := Idle]> ts) l).

Definition any_step (st st' : state) : Prop := exists i, step i st st'.

(** Any number of threads, and a cache of nothing but null entries. *)
Definition initial (junk nonce : list Z) (s : S) (n : nat) : state := mkState (CSignatureCache_init junk nonce s) (replicate n Idle) [].
Definition fresh (s : S) : Prop := set_ok s /\ forall e, set_elem s e -> e = Blob.null 32.

Section Shared.
Context (junk nonce : list Z) (Hj : length junk = 64%nat).

(** An entry found for a query that is not valid. *)
Definition confused (l : list query) (q : query) : Prop :=
  sha256 (message nonce q) = Blob.null 32 \/ collides sha256 (map (message nonce) (q :: l)).

Definition thread_ok (l : list query) (t : thread) : Prop :=
  match t with
  | Idle => True
  | Asking q _ | Verifying q _ => query_ok q
  | Storing q => query_ok q /\ verify q = Some true
  | Answered q b => query_ok q /\ (verify q = Some b \/ confused l q)
  end.

Record state_ok (st : state) : Prop := {
  st_salted : salted junk nonce (cache st);
  st_set : set_ok (setValid (cache st));
  st_elems e : set_elem (setValid (cache st)) e -> e = Blob.null 32 \/ exists q, q ∈ stored st /\ e = sha256 (message nonce q);
  st_stored q : q ∈ stored st -> query_ok q /\ verify q = Some true;
  st_threads i t : threads st !! i = Some t -> thread_ok (stored st) t
}.

Lemma confused_mono l q q' : confused l q -> confused (q' :: l) q.
Proof using.
  clear Hj. intros [?|Hc]; [by left|right]. eapply collides_mono; [|exact Hc]. intros m. cbn [map]. rewrite !elem_of_cons. tauto.
Qed.
Lemma thread_ok_mono l q t : thread_ok l t -> thread_ok (q :: l) t.
Proof using. clear Hj. destruct t; cbn; try done. intros [? [?|?]]; split; auto using confused_mono. Qed.

Lemma set_thread l l' (ts : list thread) (i : nat) t : (forall t, thread_ok l t -> thread_ok l' t) -> (forall j x, ts !! j = Some x -> thread_ok l x) -> thread_ok l' t ->
  forall j x, <[i := t]> ts !! j = Some x -> thread_ok l' x.
Proof using. clear Hj. intros Hm Hts Ht j x [(-> & -> & _)|[_ Hx]]%list_lookup_insert_Some; [done|]. eapply Hm, Hts, Hx. Qed.

(** What is found for a query is there for it, or by confusion. *)
Lemma found_ok st q : state_ok st -> query_ok q -> set_elem (setValid (cache st)) (entry (cache st) q) -> verify q = Some true \/ confused (stored st) q.
Proof using Hj.
  intros Hok Hq He. rewrite (entry_message junk nonce) in He by (done || apply (st_salted _ Hok)). destruct (st_elems _ Hok _ He) as [?|(q' & Hin & Heq)]; [right; by left|].
  destruct (st_stored _ Hok _ Hin) as [Hq' Hv']. destruct (decide (message nonce q = message nonce q')) as [Hm|Hm]; [left; rewrite <- Hv'; by eapply message_verify|].
  right. right. exists (message nonce q), (message nonce q'). split; [by left|]. split; [right; by apply list_elem_of_fmap_2|done].
Qed.

Lemma step_ok i st st' : state_ok st -> step i st st' -> state_ok st'.
Proof using Hj.
  intros Hok Hs. pose proof (fun q => found_ok st q Hok) as Hf. destruct Hok as [Hsalt Hset Hel Hsto Hts]. destruct Hs as [c ts l q store Ht Hq|c c' ts l q store b Ht Hg|c ts l q store b Ht Hv|c c' ts l q Ht Hset'|c ts l q b Ht]; cbn [cache threads stored] in *.
  - split; try done. cbn. by eapply set_thread.
  - pose proof (Hts _ _ Ht) as Hq. cbn in Hq. unfold Get in Hg. destruct (set_contains_ok (setValid c) (entry c q) (negb store) Hset) as (s' & b' & Es & Hok' & Hb & Hsub).
    rewrite Es in Hg. cbn in Hg. injection Hg as <- <-. destruct Hsalt as [s ->]. split; cbn; try done.
    + by exists s'.
    + intros e He. by apply Hel, Hsub.
    + eapply set_thread; [done|done|]. destruct b'; [|done]. cbn. split; [done|]. apply Hf; [done|by apply Hb].
  - pose proof (Hts _ _ Ht) as Hq. split; try done. cbn. eapply set_thread; [done|done|]. destruct b; [destruct store|]; cbn; auto.
  - destruct (Hts _ _ Ht) as [Hq Hv]. unfold Set' in Hset'. destruct (set_insert_ok (setValid c) (entry c q) Hset) as (s' & Es & Hok' & Hsub).
    rewrite Es in Hset'. cbn in Hset'. injection Hset' as <-. pose proof (entry_message junk nonce c q Hj Hsalt) as Hent. destruct Hsalt as [s ->]. split; cbn; try done.
    + by exists s'.
    + intros e He. destruct (Hsub e He) as [Ho| ->]; [|right; exists q; split; [by left|done]]. destruct (Hel e Ho) as [?|(q' & ? & ?)]; [by left|right; exists q'; split; [by right|done]].
    + intros q' [->|Hin]%elem_of_cons; [done|by apply Hsto].
    + eapply set_thread; [intros t; apply thread_ok_mono|done|]. cbn. auto.
  - split; try done. cbn. by eapply set_thread.
Qed.

Lemma initial_ok s n : fresh s -> state_ok (initial junk nonce s n).
Proof using.
  clear Hj. intros [Hs Hf]. split; cbn; try done; [by exists s|intros e He; left; by apply Hf|intros q; by rewrite elem_of_nil|].
  intros i t Ht. by apply lookup_replicate in Ht as [-> _].
Qed.

Lemma reachable_ok s n st : fresh s -> rtc any_step (initial junk nonce s n) st -> state_ok st.
Proof using Hj.
  intros Hf. apply (rtc_ind_r state_ok); [by apply initial_ok|]. intros st1 st2 _ [i Hs] Hok. by eapply step_ok.
Qed.

Definition remaining (t : thread) : nat := match t with Asking _ _ => 3 | Verifying _ _ => 2 | Storing _ => 1 | _ => 0 end.
Definition asks (t : thread) : option query := match t with Asking q _ | Verifying q _ | Storing q | Answered q _ => Some q | Idle => None end.

(** A call in progress can always take its next step, and is nearer to its end then. *)
Lemma step_progress st i t : state_ok st -> threads st !! i = Some t -> (0 < remaining t)%nat ->
  exists st' t', step i st st' /\ threads st' !! i = Some t' /\ (remaining t' < remaining t)%nat /\ asks t' = asks t.
Proof using Hj.
  intros Hok Ht Hr. pose proof (st_threads _ Hok i t Ht) as Htok. pose proof (st_set _ Hok) as Hset. destruct st as [c ts l]. cbn [threads cache stored] in *.
  assert (forall t', <[i := t']> ts !! i = Some t') as Hins by (intros; apply list_lookup_insert_eq; by eapply lookup_lt_Some).
  destruct t as [|q store|q store|q|q b]; cbn [remaining thread_ok] in *; [lia| | | |lia].
  - destruct (set_contains_ok (setValid c) (entry c q) (negb store) Hset) as (s' & b & Es & _).
    assert (Get c (entry c q) (negb store) = Some (with_set c s', b)) as Hg by (unfold Get; by rewrite Es).
    eexists _, _. split; [by eapply step_get|]. split; [apply Hins|]. destruct b; cbn; split; (lia || done).
  - assert (exists b, verify q = Some b) as [b Hv].
    { destruct q; cbn in *; [eauto|]. unfold Pubkey.VerifySchnorr. destruct Htok as [-> _]. cbn. eauto. }
    eexists _, _. split; [by eapply step_verify|]. split; [apply Hins|]. destruct b, store; cbn; split; (lia || done).
  - destruct (set_insert_ok (setValid c) (entry c q) Hset) as (s' & Es & _). assert (Set' c (entry c q) = Some (with_set c s')) as Hg by (unfold Set'; by rewrite Es).
    eexists _, _. split; [by eapply step_set|]. split; [apply Hins|]. cbn. split; (lia || done).
Qed.

End Shared.

(** C15: However many threads share the cache and however their calls interleave, the answer a call gets is the one
    the check of its signature gives, unless the entry of the query is null or collides with that of a query
    that was stored. *)
Theorem signature_cache_sound junk nonce s n st i q b :
  length junk = 64%nat -> fresh s -> rtc any_step (initial junk nonce s n) st -> threads st !! i = Some (Answered q b) ->
  verify q = Some b \/ confused nonce (stored st) q.
Proof. intros Hj Hf Hr Ht. exact (proj2 (st_threads _ _ _ (reachable_ok junk nonce Hj s n st Hf Hr) i _ Ht)). Qed.


Lemma entry_with_set c s q : entry (with_set c s) q = entry c q.
Proof.
  destruct q; cbn [entry]; unfold ComputeEntryECDSA, ComputeEntrySchnorr; cbn [m_salted_hasher_ecdsa m_salted_hasher_schnorr with_set]; reflexivity.
Qed.

Lemma call_eq store c q :
  call store c q =
    ('(c1, found) ← Get c (entry c q) (negb store);
     if (found : bool) then Some (c1, true)
     else valid ← verify q; if negb valid then Some (c1, false) else c2 ← (if store then Set' c1 (entry c q) else Some c1); Some (c2, true)).
Proof.
  destruct q as [sig key h|sig key h]; cbn [call entry verify]; unfold VerifyECDSASignature, VerifySchnorrSignature; cbv zeta.
  - by destruct (Get c (ComputeEntryECDSA c h sig key) (negb store)) as [[c1 []]|].
  - by destruct (Get c (ComputeEntrySchnorr c h sig key) (negb store)) as [[c1 []]|].
Qed.

(** Without other threads the steps of a call are those of the method. *)
Lemma call_steps i c ts l q store c' b :
  ts !! i = Some (Asking q store) -> call store c q = Some (c', b) ->
  exists l', rtc (step i) (mkState c ts l) (mkState c' (<[i := Answered q b]> ts) l').
Proof.
  intros Ht. rewrite call_eq. destruct (Get c (entry c q) (negb store)) as [[c1 found]|] eqn:Eg; [|done]. cbn [mbind option_bind].
  assert (entry c1 q = entry c q) as He. { unfold Get in Eg. destruct (set_contains _ _ _) as [[s1 b1]|]; [|done]. cbn in Eg. injection Eg as <- _. apply entry_with_set. }
  assert (forall t, <[i := t]> ts !! i = Some t) as Hins by (intros; apply list_lookup_insert_eq; by eapply lookup_lt_Some).
  pose proof (step_get i c c1 ts l q store found Ht Eg) as S1. destruct found; [intros [= <- <-]; exists l; by apply rtc_once|].
  destruct (verify q) as [v|] eqn:Ev; [|done]. cbn [mbind option_bind]. pose proof (step_verify i c1 _ l q store v (Hins _) Ev) as S2. rewrite list_insert_insert_eq in S2.
  destruct v; cbn [negb]; [|intros [= <- <-]; exists l; by econstructor; [exact S1|apply rtc_once]].
  destruct store; [|intros [= <- <-]; exists l; by econstructor; [exact S1|apply rtc_once]].
  destruct (Set' c1 (entry c q)) as [c2|] eqn:Es; [|done]. intros [= <- <-]. rewrite <- He in Es. pose proof (step_set i c1 c2 _ l q (Hins _) Es) as S3.
  rewrite list_insert_insert_eq in S3. exists (q :: l). do 2 (econstructor; [eassumption|]). by apply rtc_once.
Qed.

End Code.

(** ** With the cache of [cuckoocache.h] *)

Lemma SignatureCacheHasher_range k e : in_u 32 (SignatureCacheHasher k e).
Proof. apply in_u_u32. Qed.

#[export] Instance signature_set : ForgetfulSet (CuckooCache.cache (list Z)) (list Z) :=
  CuckooTheory.cuckoo_set (Blob.null 32) SignatureCacheHasher SignatureCacheHasher_range.

Lemma InitSignatureCache_fresh log2f arg : fresh (InitSignatureCache log2f arg).1.
Proof.
  unfold InitSignatureCache, CuckooCache.setup_bytes.
  assert (0 <= nMaxCacheSize arg <= 2 ^ 34) as Hn.
  { unfold nMaxCacheSize, MAX_MAX_SIG_CACHE_SIZE. rewrite u64_small; [lia|]. unfold in_u. lia. }
  assert (0 <= nMaxCacheSize arg / 32 <= 2 ^ 29) as Hd by (split; [apply Z.div_pos; lia|apply Z.div_le_upper_bound; lia]).
  rewrite u32_small by (unfold in_u; lia).
  destruct (CuckooTheory.setup_valid (Blob.null 32) SignatureCacheHasher log2f (nMaxCacheSize arg / 32)) as (Hv & _ & He & _); [lia|lia|]. done.
Qed.

(** An epoch is 45 percent of the cache, rounded down, for every value of [-maxsigcachesize] up to 5825; beyond,
    the product with 45 no longer fits in 32 bits, and for 8192, say, an epoch has 13 percent of the cache. *)
Theorem epoch_size_overflow log2f arg :
  let c := (InitSignatureCache log2f arg).1 in
  let huge := (InitSignatureCache log2f 8192).1 in
  (arg <= 5825 -> CuckooCache.epoch_size c = Z.max 1 (45 * CuckooCache.size c / 100)) /\
  CuckooCache.size huge = 134217728 /\ CuckooCache.epoch_size huge = 17448304 /\ 45 * CuckooCache.size huge / 100 = 60397977.
Proof.
  cbn zeta. split; [|done]. intros Ha. unfold InitSignatureCache, CuckooCache.setup_bytes, CuckooCache.setup. cbn [fst CuckooCache.epoch_size CuckooCache.size].
  assert (Z.quot arg 2 <= 2912) as Hq by (destruct (Z.le_gt_cases 0 arg); [rewrite Z.quot_div_nonneg by lia; apply Z.lt_succ_r, Z.div_lt_upper_bound; lia|pose proof (Z.quot_le_mono arg 0 2); change (0 ÷ 2) with 0 in *; lia]).
  unfold nMaxCacheSize, MAX_MAX_SIG_CACHE_SIZE. set (m := Z.min _ _). assert (0 <= m <= 2912) as Hm by (subst m; lia). clearbody m.
  rewrite u64_small by (unfold in_u; lia). replace (m * 2 ^ 20 / 32) with (m * 32768) by (replace (m * 2 ^ 20) with (m * 32768 * 32) by lia; by rewrite Z.div_mul).
  rewrite (u32_small (m * _)) by (unfold in_u; lia). rewrite u32_small by (unfold in_u; lia). done.
Qed.

Definition sample_query : query :=
  ECDSA ([0x30; 68; 2; 32] ++ replicate 32 9 ++ [2; 32] ++ replicate 32 7) (2 :: replicate 64 7) (replicate 32 9).
#[local] Existing Instance Pubkey.plain_secp.
Definition sample_start : state := initial (replicate 64 0) (replicate 32 5) (InitSignatureCache Z.log2 0).1 2.
Definition sample_asking : state := mkState (cache sample_start) [Idle; Asking sample_query true] [].

Lemma sample_reachable : rtc any_step sample_start sample_asking.
Proof. apply rtc_once. exists 1%nat. by apply (step_ask 1 (cache sample_start) [Idle; Idle] [] sample_query true). Qed.


Lemma sample_answered : exists c, call true (cache sample_asking) sample_query = Some (c, true).
Proof. eexists. vm_compute. reflexivity. Qed.

Lemma signature_cache_sound_witness :
  exists st : @state (CuckooCache.cache (list Z)), threads st !! 1%nat = Some (Answered sample_query true) /\
    (verify sample_query = Some true \/ confused (replicate 32 5) (stored st) sample_query).
Proof.
  destruct sample_answered as [c Hc]. destruct (call_steps 1 (cache sample_asking) [Idle; Asking sample_query true] [] sample_query true c true eq_refl Hc) as [l Hr].
  exists (mkState c [Idle; Answered sample_query true] l). split; [done|].
  apply (signature_cache_sound (replicate 64 0) (replicate 32 5) (InitSignatureCache Z.log2 0).1 2 (mkState c [Idle; Answered sample_query true] l) 1 sample_query true eq_refl);
    [apply InitSignatureCache_fresh| |done].
  etrans; [apply sample_reachable|]. eapply rtc_subrel; [|exact Hr]. intros st st' Hs. by exists 1%nat.
Defined.

End SigCache.
