(* ===== verification/VerifyScript.v ===== *)
(** * Verifying the script of an input ([script/interpreter.cpp])

    Witness scripts, taproot commitments, witness programs and [VerifyScript],
    over the evaluation of scripts.  Stacks are lists with the top first, the
    witness included: its last item comes first. *)
From stdpp Require Import prelude strings.
From S2P Require Import Prelude Uint256 HashStream Sha256 Hash Serialize Transaction Script Locks Interp BigNum Pubkey Sighash.

Module VerifyScript.
Import Serialize Script Interp.

Definition WITNESS_V0_SCRIPTHASH_SIZE : nat := 32.
Definition WITNESS_V0_KEYHASH_SIZE : nat := 20.
Definition WITNESS_V1_TAPROOT_SIZE : nat := 32.
Definition TAPROOT_LEAF_MASK : Z := 0xfe.
Definition TAPROOT_LEAF_TAPSCRIPT : Z := 0xc0.
Definition TAPROOT_CONTROL_BASE_SIZE : nat := 33.
Definition TAPROOT_CONTROL_NODE_SIZE : nat := 32.
Definition TAPROOT_CONTROL_MAX_NODE_COUNT : nat := 128.
Definition TAPROOT_CONTROL_MAX_SIZE : nat := TAPROOT_CONTROL_BASE_SIZE + TAPROOT_CONTROL_NODE_SIZE * TAPROOT_CONTROL_MAX_NODE_COUNT.
Definition ANNEX_TAG : Z := 0x50.
Definition VALIDATION_WEIGHT_OFFSET : Z := 50.

(** ** Taproot *)

Definition ComputeTapleafHash (leaf_version : Z) (script : list Z) : list Z :=
  Hash.GetSHA256 (Sighash.writes Sighash.HASHER_TAPLEAF [ser_writedata8 leaf_version; Serialize_bytes script]).

Definition tap_branch (k node : list Z) : list Z :=
  Hash.GetSHA256 (Sighash.writes Sighash.HASHER_TAPBRANCH (if Blob.Compare k node <? 0 then [k; node] else [node; k])).

Definition ComputeTaprootMerkleRoot (control tapleaf_hash : list Z) : list Z :=
  let path_len := ((length control - TAPROOT_CONTROL_BASE_SIZE) / TAPROOT_CONTROL_NODE_SIZE)%nat in
  for_range 0 path_len
    (fun i k => tap_branch k (take TAPROOT_CONTROL_NODE_SIZE (drop (TAPROOT_CONTROL_BASE_SIZE + TAPROOT_CONTROL_NODE_SIZE * i) control))) tapleaf_hash.

Section Verify.
Context `{Pubkey.Secp256k1} {checker : BaseSignatureChecker} (junk : list Z) (flags : Z).

#[local] Abbreviation CheckLowS := Pubkey.CheckLowS.

(** [None] is a failed assertion. *)
Definition VerifyTaprootCommitment (control program tapleaf_hash : list Z) : option bool :=
  if negb (TAPROOT_CONTROL_BASE_SIZE <=? length control)%nat then None
  else if negb (32 <=? length program)%nat then None
  else
    p ← Pubkey.XOnlyPubKey (take (TAPROOT_CONTROL_BASE_SIZE - 1) (drop 1 control));
    q ← Pubkey.XOnlyPubKey program;
    let merkle_root := ComputeTaprootMerkleRoot control tapleaf_hash in
    Some (Pubkey.CheckTapTweak (replicate 64 0) q p merkle_root (negb (Z.land control.[0] 1 =? 0))).

(** ** Witness scripts *)

(** Whether the script ends at an [OP_SUCCESSx], the rest unread. *)
Fixpoint success_loop (fuel : nat) (pc : list Z) : outcome bool :=
  match pc with
  | [] => Ok false
  | _ =>
      match fuel with
      | O => Abort
      | S fuel' =>
          match GetScriptOp pc with
          | None => set_error SCRIPT_ERR_BAD_OPCODE
          | Some (opcode, _, pc) =>
              if IsOpSuccess opcode then
                if has_flag flags SCRIPT_VERIFY_DISCOURAGE_OP_SUCCESS then set_error SCRIPT_ERR_DISCOURAGE_OP_SUCCESS else Ok true
              else success_loop fuel' pc
          end
      end
  end.

Definition ExecuteWitnessScript (s : list (list Z)) (exec_script : list Z) (sigversion : SigVersion) (execdata : ScriptExecutionData) : outcome () :=
  success ←
    (if bool_decide (sigversion = TAPSCRIPT) then
       success ← success_loop (length exec_script) exec_script;
       if (success : bool) then Ok true
       else _ ← require (length s <=? MAX_STACK_SIZE) SCRIPT_ERR_STACK_SIZE; Ok false
     else Ok false : outcome bool);
  if (success : bool) then Ok ()
  else
    _ ← require (forallb (fun elem => length elem <=? MAX_SCRIPT_ELEMENT_SIZE) s) SCRIPT_ERR_PUSH_SIZE;
    '(s, _) ← EvalScript CheckLowS junk flags sigversion s exec_script execdata;
    match s with
    | [x] => if CastToBool x then Ok () else set_error SCRIPT_ERR_EVAL_FALSE
    | _ => set_error SCRIPT_ERR_CLEANSTACK
    end.

Definition key_hash_script (program : list Z) : list Z := [OP_DUP; OP_HASH160] ++ push_data program ++ [OP_EQUALVERIFY; OP_CHECKSIG].

(** The annex is taken off, if there is one. *)
Definition take_annex (s : list (list Z)) : list (list Z) * option (list Z) :=
  match s with
  | (c :: _ as annex) :: x :: s' =>
      if c =? ANNEX_TAG then (x :: s', Some (Hash.GetSHA256 (Sighash.writes Sighash.new_writer [Serialize_bytes annex]))) else (s, None)
  | _ => (s, None)
  end.

Definition VerifyTaprootScript (witness s : list (list Z)) (program : list Z) (annex : option (list Z)) : outcome () :=
  match s with
  | control :: script :: s =>
      if (length control <? TAPROOT_CONTROL_BASE_SIZE)%nat || (TAPROOT_CONTROL_MAX_SIZE <? length control)%nat ||
         negb ((length control - TAPROOT_CONTROL_BASE_SIZE) mod TAPROOT_CONTROL_NODE_SIZE =? 0)%nat
      then set_error SCRIPT_ERR_TAPROOT_WRONG_CONTROL_SIZE
      else
        let leaf := Z.land control.[0] TAPROOT_LEAF_MASK in
        let tapleaf_hash := ComputeTapleafHash leaf script in
        ok ← assert_some (VerifyTaprootCommitment control program tapleaf_hash);
        if negb ok then set_error SCRIPT_ERR_WITNESS_PROGRAM_MISMATCH
        else if leaf =? TAPROOT_LEAF_TAPSCRIPT then
          let weight := length (Vector_Ser Serialize_bytes (rev witness)) + VALIDATION_WEIGHT_OFFSET in
          ExecuteWitnessScript s script TAPSCRIPT (mkExec (Some tapleaf_hash) None (Some annex) (Some weight) None)
        else if has_flag flags SCRIPT_VERIFY_DISCOURAGE_UPGRADABLE_TAPROOT_VERSION then set_error SCRIPT_ERR_DISCOURAGE_UPGRADABLE_TAPROOT_VERSION
        else Ok ()
  | _ => Abort
  end.

Definition VerifyWitnessProgram (witness : list (list Z)) (witversion : Z) (program : list Z) (is_p2sh : bool) : outcome () :=
  if witversion =? 0 then
    if (length program =? WITNESS_V0_SCRIPTHASH_SIZE)%nat then
      match witness with
      | [] => set_error SCRIPT_ERR_WITNESS_PROGRAM_WITNESS_EMPTY
      | exec_script :: s =>
          let hash_exec_script := (Sha256.Finalize (Sha256.Write (Sha256.CSHA256_init junk) exec_script) (Blob.null 32)).2 in
          if negb (Blob.Compare hash_exec_script program =? 0) then set_error SCRIPT_ERR_WITNESS_PROGRAM_MISMATCH
          else ExecuteWitnessScript s exec_script WITNESS_V0 ScriptExecutionData_init
      end
    else if (length program =? WITNESS_V0_KEYHASH_SIZE)%nat then
      if negb (length witness =? 2)%nat then set_error SCRIPT_ERR_WITNESS_PROGRAM_MISMATCH
      else ExecuteWitnessScript witness (key_hash_script program) WITNESS_V0 ScriptExecutionData_init
    else set_error SCRIPT_ERR_WITNESS_PROGRAM_WRONG_LENGTH
  else if (witversion =? 1) && (length program =? WITNESS_V1_TAPROOT_SIZE)%nat && negb is_p2sh then
    if negb (has_flag flags SCRIPT_VERIFY_TAPROOT) then Ok ()
    else
      match witness with
      | [] => set_error SCRIPT_ERR_WITNESS_PROGRAM_WITNESS_EMPTY
      | _ =>
          let '(s, annex) := take_annex witness in
          match s with
          | [sig] => _ ← CheckSchnorrSignature sig program TAPROOT (mkExec None None (Some annex) None None); Ok ()
          | _ => VerifyTaprootScript witness s program annex
          end
      end
  else if has_flag flags SCRIPT_VERIFY_DISCOURAGE_UPGRADABLE_WITNESS_PROGRAM then set_error SCRIPT_ERR_DISCOURAGE_UPGRADABLE_WITNESS_PROGRAM
  else Ok ().

(** ** [VerifyScript] *)

Definition Eval (s : list (list Z)) (script : list Z) : outcome (list (list Z)) :=
  '(s, _) ← EvalScript CheckLowS junk flags BASE s script ScriptExecutionData_init; Ok s.

(** The stack must end with something true on it. *)
Definition check_true (s : list (list Z)) : outcome () :=
  match s with
  | [] => set_error SCRIPT_ERR_EVAL_FALSE
  | x :: _ => if CastToBool x then Ok () else set_error SCRIPT_ERR_EVAL_FALSE
  end.

(** A failure that sets no error leaves the one of the last success. *)
Definition last_error {A} (r : outcome A) : outcome A := match r with Fail None => set_error SCRIPT_ERR_OK | _ => r end.

Definition resize1 (s : list (list Z)) : list (list Z) := [default [] (last s)].

(** The witness program of a script, if it is one: the stack, and whether there was one. *)
Definition witness_part (witness : list (list Z)) (script : list Z) (malleated : bool) (e : ScriptError) (is_p2sh : bool) (s : list (list Z))
    (hadWitness : bool) : outcome (list (list Z) * bool) :=
  if has_flag flags SCRIPT_VERIFY_WITNESS then
    match IsWitnessProgram script with
    | Some (witnessversion, witnessprogram) =>
        witnessversion ← assert_some witnessversion;
        if malleated then set_error e
        else _ ← last_error (VerifyWitnessProgram witness witnessversion witnessprogram is_p2sh); Ok (resize1 s, true)
    | None => Ok (s, hadWitness)
    end
  else Ok (s, hadWitness).

(** Pay to script hash. *)
Definition p2sh_part (witness : list (list Z)) (scriptSig scriptPubKey : list Z) (stackCopy s : list (list Z)) (hadWitness : bool) :
    outcome (list (list Z) * bool) :=
  if has_flag flags SCRIPT_VERIFY_P2SH && IsPayToScriptHash scriptPubKey then
    if negb (IsPushOnly scriptSig) then set_error SCRIPT_ERR_SIG_PUSHONLY
    else
      match stackCopy with
      | [] => Abort
      | pubKey2 :: s =>
          s ← Eval s pubKey2;
          _ ← check_true s;
          witness_part witness pubKey2 (negb (bool_decide (scriptSig = push_data pubKey2))) SCRIPT_ERR_WITNESS_MALLEATED_P2SH true s hadWitness
      end
  else Ok (s, hadWitness).

Definition VerifyScript (scriptSig scriptPubKey : list Z) (witness : list (list Z)) : outcome () :=
  if has_flag flags SCRIPT_VERIFY_SIGPUSHONLY && negb (IsPushOnly scriptSig) then set_error SCRIPT_ERR_SIG_PUSHONLY
  else
    s ← Eval [] scriptSig;
    let stackCopy := if has_flag flags SCRIPT_VERIFY_P2SH then s else [] in
    s ← Eval s scriptPubKey;
    _ ← check_true s;
    '(s, hadWitness) ← witness_part witness scriptPubKey (negb (length scriptSig =? 0)%nat) SCRIPT_ERR_WITNESS_MALLEATED false s false;
    '(s, hadWitness) ← p2sh_part witness scriptSig scriptPubKey stackCopy s hadWitness;
    _ ← (if has_flag flags SCRIPT_VERIFY_CLEANSTACK then
           if negb (has_flag flags SCRIPT_VERIFY_P2SH) || negb (has_flag flags SCRIPT_VERIFY_WITNESS) then Abort
           else require (length s =? 1)%nat SCRIPT_ERR_CLEANSTACK
         else Ok () : outcome ());
    if has_flag flags SCRIPT_VERIFY_WITNESS then
      if negb (has_flag flags SCRIPT_VERIFY_P2SH) then Abort
      else require (hadWitness || (length witness =? 0)%nat) SCRIPT_ERR_WITNESS_UNEXPECTED
    else Ok ().

End Verify.

End VerifyScript.
