(* ===== verification/SoftFork.v ===== *)
(** * Verification flags are soft forks

    What [script/interpreter.h] states of the verification flags: the scripts
    acceptable under more flags are acceptable under fewer.  A relation between
    outcomes, the rules that carry it through the monad, and the evaluation of
    scripts and [VerifyScript] under two sets of flags. *)
From stdpp Require Import prelude strings.
From S2P Require Import Prelude Uint256 Hash Serialize Transaction Script Locks Interp BigNum Pubkey Sighash VerifyScript.

Module SoftFork.
Import Script Interp VerifyScript.

(** ** Outcomes that accept less *)

Definition stricter {A} (r1 r2 : outcome A) : Prop := forall x, r1 = Ok x -> r2 = Ok x.
#[local] Infix "⊑" := stricter (at level 70).

#[export] Instance stricter_preorder {A} : PreOrder (@stricter A).
Proof. split; [by intros r x|]. intros r1 r2 r3 H1 H2 x Hx. auto. Qed.

Lemma stricter_fail {A} e (r : outcome A) : Fail e ⊑ r.
Proof. by intros x. Qed.
Lemma stricter_abort {A} (r : outcome A) : Abort ⊑ r.
Proof. by intros x. Qed.
Lemma stricter_bind {A B} (r1 r2 : outcome A) (k1 k2 : A -> outcome B) : r1 ⊑ r2 -> (forall x, k1 x ⊑ k2 x) -> (r1 ≫= k1) ⊑ (r2 ≫= k2).
Proof. intros Hr Hk y. destruct r1 as [x|e|]; [|done..]. rewrite (Hr x eq_refl). apply Hk. Qed.
Lemma stricter_guard {A} (c1 c2 : bool) e1 e2 (r1 r2 : outcome A) :
  (c2 = true -> c1 = true) -> r1 ⊑ r2 -> (if c1 then set_error e1 else r1) ⊑ (if c2 then set_error e2 else r2).
Proof. intros Hc Hr. destruct c1; [apply stricter_fail|]. destruct c2; [by discriminate Hc|done]. Qed.
Lemma stricter_require (c1 c2 : bool) e1 e2 : (c1 = true -> c2 = true) -> require c1 e1 ⊑ require c2 e2.
Proof. intros Hc. destruct c1; [by rewrite Hc|apply stricter_fail]. Qed.

Create HintDb soft discriminated.
#[export] Hint Resolve stricter_fail stricter_abort : soft.
#[export] Hint Extern 0 (stricter ?r ?r) => (exact (reflexivity r)) : soft.

(** Case analysis on what both sides share. *)
Ltac soft_step :=
  match goal with
  | |- stricter ?r ?r => reflexivity
  | |- stricter (set_error _) _ => apply stricter_fail
  | |- stricter bad_stack _ => apply stricter_fail
  | |- stricter (Fail _) _ => apply stricter_fail
  | |- stricter Abort _ => apply stricter_abort
  | |- stricter (mbind _ _) (mbind _ _) => apply stricter_bind; [|intros ?]
  | |- stricter (match ?x with _ => _ end) (match ?x with _ => _ end) => destruct x
  end.
Ltac soft := repeat (soft_step; auto with soft).

(** ** Evaluation *)

Section Flags.
Context {checker : BaseSignatureChecker} (CheckLowS : list Z -> bool) (junk : list Z) (more fewer : Z) (sigversion : SigVersion).
Context (Hsub : Z.land fewer more = fewer).

Lemma flag_mono f : has_flag fewer f = true -> has_flag more f = true.
Proof using Hsub.
  unfold has_flag. intros Hf. cases_bool. apply negb_true_iff, Z.eqb_neq. intros E. apply Hf. rewrite <- Hsub.
  rewrite <- Z.land_assoc, E. apply Z.land_0_r.
Qed.

Lemma guard_flag {A} f c e (r1 r2 : outcome A) : r1 ⊑ r2 -> (if has_flag more f && c then set_error e else r1) ⊑ (if has_flag fewer f && c then set_error e else r2).
Proof using Hsub. intros Hr. apply stricter_guard; [|done]. rewrite !andb_true_iff. intros [? ?]. split; [by apply flag_mono|done]. Qed.

Lemma number_soft vch n : catch (CScriptNum vch (fRequireMinimal more) n) ⊑ catch (CScriptNum vch (fRequireMinimal fewer) n).
Proof using Hsub.
  unfold CScriptNum, fRequireMinimal. case_if; [apply stricter_fail|]. destruct (has_flag fewer SCRIPT_VERIFY_MINIMALDATA) eqn:E1.
  - rewrite (flag_mono _ E1). reflexivity.
  - cbn [andb]. case_if; [apply stricter_fail|reflexivity].
Qed.

Lemma CheckSignatureEncoding_soft sig : CheckSignatureEncoding CheckLowS more sig ⊑ CheckSignatureEncoding CheckLowS fewer sig.
Proof using Hsub.
  unfold CheckSignatureEncoding. case_if; [reflexivity|]. apply guard_flag. apply stricter_bind.
  - destruct (has_flag fewer SCRIPT_VERIFY_LOW_S) eqn:E1; [by rewrite (flag_mono _ E1)|]. intros [] _. done.
  - intros _. apply guard_flag. reflexivity.
Qed.

Lemma CheckPubKeyEncoding_soft key : CheckPubKeyEncoding more sigversion key ⊑ CheckPubKeyEncoding fewer sigversion key.
Proof using Hsub. unfold CheckPubKeyEncoding. apply guard_flag. rewrite <- !andb_assoc. apply guard_flag. reflexivity. Qed.

Lemma drop_signature_soft code sig : drop_signature more sigversion code sig ⊑ drop_signature fewer sigversion code sig.
Proof using Hsub.
  unfold drop_signature. case_if; [|reflexivity]. destruct (FindAndDelete _ _) as [found code']. rewrite !(andb_comm (0 <? found)). apply guard_flag. reflexivity.
Qed.

Lemma EvalChecksigPreTapscript_soft sig key code :
  EvalChecksigPreTapscript CheckLowS more sigversion sig key code ⊑ EvalChecksigPreTapscript CheckLowS fewer sigversion sig key code.
Proof using Hsub.
  unfold EvalChecksigPreTapscript. apply stricter_bind; [apply drop_signature_soft|intros code'].
  apply stricter_bind; [apply CheckSignatureEncoding_soft|intros _]. apply stricter_bind; [apply CheckPubKeyEncoding_soft|intros _].
  apply stricter_bind; [reflexivity|intros ok]. rewrite !(andb_comm (negb ok)), <- !andb_assoc. apply guard_flag. reflexivity.
Qed.

Lemma EvalChecksig_soft sig key code d :
  EvalChecksig CheckLowS more sigversion sig key code d ⊑ EvalChecksig CheckLowS fewer sigversion sig key code d.
Proof using Hsub.
  pose proof (EvalChecksigPreTapscript_soft sig key code) as Hpre. unfold EvalChecksig, EvalChecksigTapscript.
  destruct sigversion; [by apply stricter_bind..|reflexivity|]. apply stricter_bind; [reflexivity|intros d']. soft.
  rewrite <- (andb_true_r (has_flag more _)), <- (andb_true_r (has_flag fewer _)). apply guard_flag. reflexivity.
Qed.

Lemma guard_flag_alone {A} f e (r1 r2 : outcome A) : r1 ⊑ r2 -> (if has_flag more f then set_error e else r1) ⊑ (if has_flag fewer f then set_error e else r2).
Proof using Hsub. rewrite <- (andb_true_r (has_flag more f)), <- (andb_true_r (has_flag fewer f)). apply guard_flag. Qed.

Lemma op_checklocktimeverify_soft st : op_checklocktimeverify more st ⊑ op_checklocktimeverify fewer st.
Proof using Hsub.
  unfold op_checklocktimeverify. destruct (has_flag fewer SCRIPT_VERIFY_CHECKLOCKTIMEVERIFY) eqn:E.
  - rewrite (flag_mono _ E). cbn [negb]. soft. apply number_soft.
  - cbn [negb]. intros x. case_if; [done|]. destruct (stack st); [done|]. destruct (catch _) as [n| |]; [|done..]. cbn [mbind outcome_bind].
    case_if; [done|]. destruct (assert_some _) as [b| |]; [|done..]. cbn [mbind outcome_bind]. by case_if.
Qed.

Lemma op_checksequenceverify_soft st : op_checksequenceverify more st ⊑ op_checksequenceverify fewer st.
Proof using Hsub.
  unfold op_checksequenceverify. destruct (has_flag fewer SCRIPT_VERIFY_CHECKSEQUENCEVERIFY) eqn:E.
  - rewrite (flag_mono _ E). cbn [negb]. soft. apply number_soft.
  - cbn [negb]. intros x. case_if; [done|]. destruct (stack st); [done|]. destruct (catch _) as [n| |]; [|done..]. cbn [mbind outcome_bind].
    case_if; [done|]. case_if; [done|]. destruct (assert_some _) as [b| |]; [|done..]. cbn [mbind outcome_bind]. by case_if.
Qed.

Lemma op_if_soft opcode b st : op_if more sigversion opcode b st ⊑ op_if fewer sigversion opcode b st.
Proof using Hsub.
  unfold op_if. soft. unfold check_minimal_if. case_if; [apply stricter_fail|].
  rewrite !(andb_comm (bool_decide (sigversion = WITNESS_V0))), <- !andb_assoc. apply guard_flag. reflexivity.
Qed.

Lemma stack_op_soft opcode s : stack_op more opcode s ⊑ stack_op fewer opcode s.
Proof using Hsub. unfold stack_op, op_pick. soft; apply number_soft. Qed.
Lemma op_unary_soft opcode s : op_unary more opcode s ⊑ op_unary fewer opcode s.
Proof using Hsub. unfold op_unary. soft; apply number_soft. Qed.
Lemma op_binary_soft opcode s : op_binary more opcode s ⊑ op_binary fewer opcode s.
Proof using Hsub. unfold op_binary. soft; apply number_soft. Qed.
Lemma op_within_soft s : op_within more s ⊑ op_within fewer s.
Proof using Hsub. unfold op_within. soft; apply number_soft. Qed.

Lemma op_checksig_soft v st : op_checksig CheckLowS more sigversion v st ⊑ op_checksig CheckLowS fewer sigversion v st.
Proof using Hsub. unfold op_checksig. soft; apply EvalChecksig_soft. Qed.
Lemma op_checksigadd_soft st : op_checksigadd CheckLowS more sigversion st ⊑ op_checksigadd CheckLowS fewer sigversion st.
Proof using Hsub. unfold op_checksigadd. soft; [apply number_soft|apply EvalChecksig_soft]. Qed.

Lemma drop_signatures_soft code sigs : drop_signatures more sigversion code sigs ⊑ drop_signatures fewer sigversion code sigs.
Proof using Hsub.
  revert code. induction sigs as [|sig sigs IH]; intros code; [reflexivity|]. cbn [drop_signatures].
  apply stricter_bind; [apply drop_signature_soft|]. intros; apply IH.
Qed.

Lemma multisig_loop_soft code keys sigs : multisig_loop CheckLowS more sigversion code keys sigs ⊑ multisig_loop CheckLowS fewer sigversion code keys sigs.
Proof using Hsub.
  revert sigs. induction keys as [|key keys IH]; intros [|sig sigs]; cbn [multisig_loop]; [reflexivity..|].
  apply stricter_bind; [apply CheckSignatureEncoding_soft|intros _]. apply stricter_bind; [apply CheckPubKeyEncoding_soft|intros _].
  apply stricter_bind; [reflexivity|intros ok]. case_if; [reflexivity|apply IH].
Qed.

Lemma cleanup_soft n i ok s : cleanup more n i ok s ⊑ cleanup fewer n i ok s.
Proof using Hsub.
  revert i s. induction n as [|n IH]; intros i s; cbn [cleanup]; [reflexivity|]. destruct s as [|x s]; [reflexivity|].
  rewrite !(andb_comm (negb ok)), <- !andb_assoc. apply guard_flag. apply IH.
Qed.

Lemma op_checkmultisig_soft v st : op_checkmultisig CheckLowS more sigversion v st ⊑ op_checkmultisig CheckLowS fewer sigversion v st.
Proof using Hsub.
  unfold op_checkmultisig. case_if; [reflexivity|]. case_if; [reflexivity|]. apply stricter_bind; [apply number_soft|intros k].
  case_if; [reflexivity|]. case_if; [reflexivity|]. case_if; [reflexivity|]. apply stricter_bind; [apply number_soft|intros m].
  case_if; [reflexivity|]. case_if; [reflexivity|]. apply stricter_bind; [apply drop_signatures_soft|intros code].
  apply stricter_bind; [apply multisig_loop_soft|intros ok]. apply stricter_bind; [apply cleanup_soft|intros s]. destruct s as [|dummy s]; [reflexivity|].
  apply guard_flag. reflexivity.
Qed.

Lemma exec_op_soft opcode b st : exec_op CheckLowS junk more sigversion opcode b st ⊑ exec_op CheckLowS junk fewer sigversion opcode b st.
Proof using Hsub.
  unfold exec_op, on_stack.
  soft; auto using op_checklocktimeverify_soft, op_checksequenceverify_soft, op_if_soft, stack_op_soft, op_unary_soft, op_binary_soft, op_within_soft,
    op_checksig_soft, op_checksigadd_soft, op_checkmultisig_soft.
  apply guard_flag_alone. reflexivity.
Qed.

Lemma check_op_soft opcode d st : check_op more sigversion opcode d st ⊑ check_op fewer sigversion opcode d st.
Proof using Hsub.
  unfold check_op. soft. apply stricter_require. rewrite !negb_true_iff, !andb_false_iff. intros [?|Hm]; [by left|right].
  destruct (has_flag fewer _) eqn:E; [|done]. by rewrite (flag_mono _ E) in Hm.
Qed.

Lemma step_soft st : step CheckLowS junk more sigversion st ⊑ step CheckLowS junk fewer sigversion st.
Proof using Hsub.
  unfold step. destruct (GetScriptOp (pc st)) as [[[opcode d] r]|]; [|reflexivity]. apply stricter_bind; [apply check_op_soft|intros st1].
  apply stricter_bind; [|reflexivity]. case_if; [|case_if; [apply exec_op_soft|reflexivity]]. unfold fRequireMinimal.
  destruct (has_flag fewer SCRIPT_VERIFY_MINIMALDATA) eqn:E1; [by rewrite (flag_mono _ E1)|]. cbn [mbind outcome_bind].
  intros x. destruct (has_flag more _); [|done]. destruct (assert_some _) as [[]| |]; by cbn.
Qed.

Lemma run_soft fuel st : run CheckLowS junk more sigversion fuel st ⊑ run CheckLowS junk fewer sigversion fuel st.
Proof using Hsub.
  revert st. induction fuel as [|fuel IH]; intros st; cbn [run]; [reflexivity|]. destruct (pc st); [reflexivity|].
  apply stricter_bind; [apply step_soft|exact IH].
Qed.

Lemma EvalScript_soft s script d : EvalScript CheckLowS junk more sigversion s script d ⊑ EvalScript CheckLowS junk fewer sigversion s script d.
Proof using Hsub.
  unfold EvalScript. case_if; [reflexivity|]. case_if; [reflexivity|]. intros x. pose proof (run_soft (length script) (start s script d)) as Hr.
  destruct (run CheckLowS junk more _ _ _) as [st|e|]; [|done..]. by rewrite (Hr st eq_refl).
Qed.

End Flags.

(** ** [VerifyScript] *)

(** What the assertions at the end of [VerifyScript] ask of the flags. *)
Definition consistent (flags : Z) : Prop :=
  (has_flag flags SCRIPT_VERIFY_WITNESS = true -> has_flag flags SCRIPT_VERIFY_P2SH = true) /\
  (has_flag flags SCRIPT_VERIFY_CLEANSTACK = true -> has_flag flags SCRIPT_VERIFY_P2SH = true /\ has_flag flags SCRIPT_VERIFY_WITNESS = true).

Section Verify.
Context `{Pubkey.Secp256k1} {checker : BaseSignatureChecker} (junk : list Z) (more fewer : Z) (Hsub : Z.land fewer more = fewer).

Lemma success_loop_soft fuel pc : success_loop more fuel pc ⊑ success_loop fewer fuel pc.
Proof using Hsub.
  revert pc. induction fuel as [|fuel IH]; intros pc; cbn [success_loop]; [reflexivity|]. destruct pc; [reflexivity|].
  destruct (GetScriptOp _) as [[[opcode d] r]|]; [|reflexivity]. case_if; [|apply IH]. apply (guard_flag_alone more fewer Hsub). reflexivity.
Qed.

Lemma ExecuteWitnessScript_soft s script v d : ExecuteWitnessScript junk more s script v d ⊑ ExecuteWitnessScript junk fewer s script v d.
Proof using Hsub.
  unfold ExecuteWitnessScript. apply stricter_bind.
  - case_if; [|reflexivity]. apply stricter_bind; [apply success_loop_soft|reflexivity].
  - intros ok. destruct ok; [reflexivity|]. apply stricter_bind; [reflexivity|intros _]. apply stricter_bind; [by apply EvalScript_soft|reflexivity].
Qed.

Lemma VerifyTaprootScript_soft w s program annex : VerifyTaprootScript junk more w s program annex ⊑ VerifyTaprootScript junk fewer w s program annex.
Proof using Hsub.
  unfold VerifyTaprootScript. destruct s as [|control [|script s]]; [reflexivity..|]. case_if; [reflexivity|]. apply stricter_bind; [reflexivity|intros ok].
  case_if; [reflexivity|]. case_if; [apply ExecuteWitnessScript_soft|]. apply (guard_flag_alone more fewer Hsub). reflexivity.
Qed.

Lemma VerifyWitnessProgram_soft w v program p2sh : VerifyWitnessProgram junk more w v program p2sh ⊑ VerifyWitnessProgram junk fewer w v program p2sh.
Proof using Hsub.
  unfold VerifyWitnessProgram. destruct (v =? 0); [soft; apply ExecuteWitnessScript_soft|]. destruct (_ && _ && _).
  - destruct (has_flag fewer SCRIPT_VERIFY_TAPROOT) eqn:E; [|by intros []].
    rewrite (flag_mono more fewer Hsub _ E). cbn [negb]. destruct w as [|x w]; [reflexivity|]. destruct (take_annex _) as [s annex].
    destruct s as [|sig [|y s]]; [apply VerifyTaprootScript_soft|reflexivity|apply VerifyTaprootScript_soft].
  - apply (guard_flag_alone more fewer Hsub). reflexivity.
Qed.

Lemma witness_part_soft w script m e p2sh s had :
  if has_flag fewer SCRIPT_VERIFY_WITNESS then witness_part junk more w script m e p2sh s had ⊑ witness_part junk fewer w script m e p2sh s had
  else witness_part junk fewer w script m e p2sh s had = Ok (s, had).
Proof using Hsub.
  unfold witness_part. destruct (has_flag fewer SCRIPT_VERIFY_WITNESS) eqn:E; [|done]. rewrite (flag_mono more fewer Hsub _ E).
  destruct (IsWitnessProgram script) as [[v program]|]; [|reflexivity]. apply stricter_bind; [reflexivity|intros v']. case_if; [reflexivity|].
  apply stricter_bind; [|reflexivity]. pose proof (VerifyWitnessProgram_soft w v' program p2sh) as Hp. unfold last_error.
  destruct (VerifyWitnessProgram junk more _ _ _ _) as [[]|[]|]; [|apply stricter_fail..|apply stricter_abort]. by rewrite (Hp () eq_refl).
Qed.

Lemma Eval_soft s script : Eval junk more s script ⊑ Eval junk fewer s script.
Proof using Hsub. unfold Eval. apply stricter_bind; [by apply EvalScript_soft|reflexivity]. Qed.

Lemma p2sh_part_soft w sig pk copy s had r :
  has_flag fewer SCRIPT_VERIFY_WITNESS = true -> p2sh_part junk more w sig pk copy s had = Ok r ->
  has_flag fewer SCRIPT_VERIFY_P2SH = true -> p2sh_part junk fewer w sig pk copy s had = Ok r.
Proof using Hsub.
  intros Hw Hr Hp. enough (p2sh_part junk more w sig pk copy s had ⊑ p2sh_part junk fewer w sig pk copy s had) as Hs by (by apply Hs).
  unfold p2sh_part. rewrite Hp, (flag_mono more fewer Hsub _ Hp). cbn [andb].
  case_if; [|reflexivity]. case_if; [reflexivity|]. destruct copy as [|x copy]; [reflexivity|]. apply stricter_bind; [apply Eval_soft|intros s1].
  apply stricter_bind; [reflexivity|intros _].
  pose proof (witness_part_soft w x (negb (bool_decide (sig = push_data x))) SCRIPT_ERR_WITNESS_MALLEATED_P2SH true s1 had) as H1. by rewrite Hw in H1.
Qed.

Lemma p2sh_part_legacy w sig pk copy s had r s' had' :
  has_flag fewer SCRIPT_VERIFY_WITNESS = false -> p2sh_part junk more w sig pk copy s had = Ok r ->
  exists r', p2sh_part junk fewer w sig pk (if has_flag fewer SCRIPT_VERIFY_P2SH then copy else []) s' had' = Ok r'.
Proof using Hsub.
  intros Hw. unfold p2sh_part. destruct (has_flag fewer SCRIPT_VERIFY_P2SH) eqn:Hp; [|by eexists]. rewrite (flag_mono more fewer Hsub _ Hp). cbn [andb].
  case_if; [|by eexists]. case_if; [done|]. destruct copy as [|x copy]; [done|]. intros Hr.
  destruct (Eval junk more copy x) as [s1| |] eqn:Ev; [|done..]. rewrite (Eval_soft _ _ _ Ev). cbn [mbind outcome_bind] in *.
  destruct (check_true s1) as [[]| |]; [|done..]. cbn [mbind outcome_bind] in *.
  pose proof (witness_part_soft w x (negb (bool_decide (sig = push_data x))) SCRIPT_ERR_WITNESS_MALLEATED_P2SH true s1 had') as H1. rewrite Hw in H1.
  rewrite H1. by eexists.
Qed.

End Verify.

(** C11: Every verification flag is a soft fork: whatever [VerifyScript] accepts under some flags it also accepts under
    any part of them that satisfies the assertions of [VerifyScript]. *)
Theorem VerifyScript_soft_fork `{Pubkey.Secp256k1} {checker : BaseSignatureChecker} junk more fewer scriptSig scriptPubKey witness :
  Z.land fewer more = fewer -> consistent fewer ->
  VerifyScript junk more scriptSig scriptPubKey witness = Ok () -> VerifyScript junk fewer scriptSig scriptPubKey witness = Ok ().
Proof.
  intros Hsub [Hwit Hclean]. unfold VerifyScript. set (F := has_flag fewer) in *. set (M := has_flag more).
  assert (forall f, F f = true -> M f = true) as Hmono by (intros f; by apply flag_mono).
  destruct (M SCRIPT_VERIFY_SIGPUSHONLY && _) eqn:E1; [done|]. assert (F SCRIPT_VERIFY_SIGPUSHONLY && negb (IsPushOnly scriptSig) = false) as ->.
  { destruct (F SCRIPT_VERIFY_SIGPUSHONLY) eqn:E; [|done]. by rewrite (Hmono _ E) in E1. }
  destruct (Eval junk more [] scriptSig) as [s1| |] eqn:V1; [|done..]. rewrite (Eval_soft junk more fewer Hsub _ _ _ V1). cbn [mbind outcome_bind].
  destruct (Eval junk more s1 scriptPubKey) as [s2| |] eqn:V2; [|done..]. rewrite (Eval_soft junk more fewer Hsub _ _ _ V2). cbn [mbind outcome_bind].
  destruct (check_true s2) as [[]| |]; [|done..]. cbn [mbind outcome_bind].
  pose proof (witness_part_soft junk more fewer Hsub witness scriptPubKey (negb (length scriptSig =? 0)%nat) SCRIPT_ERR_WITNESS_MALLEATED false s2 false) as W.
  fold F in W.
  destruct (witness_part junk more _ _ _ _ _ _ _) as [[s3 had3]| |] eqn:V3; [|done..]. cbn [mbind outcome_bind].
  destruct (p2sh_part junk more _ _ _ _ _ _) as [[s4 had4]| |] eqn:V4; [|done..]. cbn [mbind outcome_bind].
  destruct (F SCRIPT_VERIFY_WITNESS) eqn:FW.
  - rewrite (W _ eq_refl). specialize (Hwit eq_refl). rewrite Hwit, (Hmono _ Hwit), (Hmono _ FW) in *. cbn [mbind outcome_bind].
    rewrite (p2sh_part_soft junk more fewer Hsub _ _ _ _ _ _ _ FW V4 Hwit). cbn [mbind outcome_bind negb orb].
    destruct (F SCRIPT_VERIFY_CLEANSTACK) eqn:FC; [by rewrite (Hmono _ FC)|]. cbn [mbind outcome_bind].
    destruct (M SCRIPT_VERIFY_CLEANSTACK); [|done]. by destruct (require (length s4 =? 1)%nat _) as [[]| |].
  - intros _. rewrite W. cbn [mbind outcome_bind].
    assert (exists copy, (if F SCRIPT_VERIFY_P2SH then s1 else []) = (if F SCRIPT_VERIFY_P2SH then copy else []) /\
              exists r, p2sh_part junk more witness scriptSig scriptPubKey copy s3 had3 = Ok r) as (copy & -> & r & V5).
    { exists (if M SCRIPT_VERIFY_P2SH then s1 else []). split; [|by eexists]. destruct (F SCRIPT_VERIFY_P2SH) eqn:FP; [by rewrite (Hmono _ FP)|done]. }
    destruct (p2sh_part_legacy junk more fewer Hsub _ _ _ _ _ _ _ s2 false FW V5) as [[s5 had5] V6]. fold F in V6. rewrite V6. cbn [mbind outcome_bind].
    destruct (F SCRIPT_VERIFY_CLEANSTACK) eqn:FC; [|done]. by destruct (Hclean eq_refl).
Qed.

Lemma VerifyScript_soft_fork_witness :
  @VerifyScript Pubkey.plain_secp base_checker (replicate 64 0) (Z.lor SCRIPT_VERIFY_P2SH SCRIPT_VERIFY_DERSIG) [OP_1] [OP_1; OP_EQUAL] [] = Ok ().
Proof.
  apply (@VerifyScript_soft_fork Pubkey.plain_secp base_checker (replicate 64 0)
    (Z.lor (Z.lor SCRIPT_VERIFY_P2SH SCRIPT_VERIFY_DERSIG) (Z.lor SCRIPT_VERIFY_WITNESS SCRIPT_VERIFY_CLEANSTACK))).
  - reflexivity.
  - split; discriminate.
  - vm_compute. reflexivity.
Defined.

End SoftFork.
