(* ===== verification/VerifyTheory.v ===== *)
(** * What [VerifyScript] guarantees

    No assertion of the verification of scripts can fail, the one about pay to
    script hash included. *)
From stdpp Require Import prelude strings.
From S2P Require Import Prelude Uint256 HashStream Fips180 Sha2Theory Sha256 Sha256Theory Hash Serialize Transaction Script Locks Interp InterpTheory BigNum Pubkey Sighash VerifyScript SoftFork.

Module VerifyTheory.
Import Script Interp InterpTheory VerifyScript SoftFork.

Section Safety.
Context `{Pubkey.Secp256k1} {checker : BaseSignatureChecker} (junk : list Z) (flags : Z).
Context (Hj : length junk = 64%nat) (Hbase : checker_ok checker BASE) (Hv0 : checker_ok checker WITNESS_V0).

Lemma Eval_safe s script :
  digits 8 script -> items_ok s -> length s < 2 ^ 31 -> safe (fun s' => items_ok s' /\ length s' < 2 ^ 31) (Eval junk flags s script).
Proof using Hj Hbase.
  intros Hd Hs Hl. unfold Eval.
  pose proof (EvalScript_safe Pubkey.CheckLowS junk flags BASE s script ScriptExecutionData_init Hbase Hj ltac:(done) ltac:(done) Hd Hs Hl) as Hlim.
  destruct (EvalScript _ _ _ _ _ _ _) as [[s' d']|e|]; [|done..]. cbn. destruct Hlim as (Hi & Hne & Hnil & _). split; [done|].
  destruct script as [|c script]; [by rewrite (Hnil eq_refl)|]. specialize (Hne ltac:(done)). unfold MAX_STACK_SIZE in Hne. lia.
Qed.

Lemma success_loop_safe fuel pc : (length pc <= fuel)%nat -> safe (fun _ => True) (success_loop flags fuel pc).
Proof using.
  clear Hj Hbase Hv0. revert pc. induction fuel as [|fuel IH]; intros [|c pc] Hl; [done|cbn in Hl; lia|done|]. cbn [success_loop].
  destruct (GetScriptOp (c :: pc)) as [[[opcode d] r]|] eqn:Eg; [|done]. case_if; [by case_if|].
  apply IH. pose proof (GetScriptOp_shorter _ _ _ _ Eg). cbn [length] in *. lia.
Qed.

Lemma ExecuteWitnessScript_safe s script v d :
  checker_ok checker v -> v <> TAPROOT ->
  (v = TAPSCRIPT -> is_Some (m_annex d) /\ is_Some (m_tapleaf_hash d) /\ is_Some (m_validation_weight_left d)) ->
  digits 8 script -> Forall (digits 8) s -> length s < 2 ^ 31 -> safe (fun _ => True) (ExecuteWitnessScript junk flags s script v d).
Proof using Hj.
  intros Hck Hv Hd Hp Hs Hl. unfold ExecuteWitnessScript. eapply (safe_bind (fun _ => True)).
  { case_bool_decide; [|done]. eapply safe_bind; [by apply success_loop_safe|]. intros [] _; [done|]. by apply safe_guard. }
  intros [] _; [done|]. apply safe_guard. intros Hf.
  pose proof (EvalScript_safe Pubkey.CheckLowS junk flags v s script d Hck Hj Hv Hd Hp) as Hlim. destruct (EvalScript _ _ _ _ _ _ _) as [[s' d']|e|].
  - cbn. destruct s' as [|x [|]]; [done| |done]. by case_if.
  - done.
  - apply Hlim; [|done]. rewrite forallb_forall in Hf. rewrite Forall_forall in *. intros x Hx. split; [by apply Hs|].
    by apply Z.leb_le, Hf, list_elem_of_In.
Qed.

Definition taproot_checker : Prop := checker_ok checker TAPROOT /\ checker_ok checker TAPSCRIPT.

Lemma take_annex_stack (P : list Z -> Prop) witness s annex :
  take_annex witness = (s, annex) -> witness <> [] -> Forall P witness -> Forall P s /\ s <> [] /\ (length s <= length witness)%nat.
Proof using.
  clear. destruct witness as [|[|c l] [|x w]]; cbn [take_annex]; [done|by intros [= <- <-]..|].
  destruct (c =? ANNEX_TAG); intros [= <- <-] _ Hw; [|done]. apply Forall_cons in Hw as [_ Hw]. cbn [length]. split; [done|]. split; [done|lia].
Qed.

Lemma XOnlyPubKey_some l : length l = 32%nat -> is_Some (Pubkey.XOnlyPubKey l).
Proof using. clear. intros Hl. unfold Pubkey.XOnlyPubKey. rewrite Hl. cbn. eauto. Qed.

Lemma VerifyTaprootScript_safe witness s program annex :
  taproot_checker -> length program = 32%nat -> Forall (digits 8) s -> (2 <= length s)%nat -> length s < 2 ^ 31 ->
  safe (fun _ => True) (VerifyTaprootScript junk flags witness s program annex).
Proof using Hj.
  intros [Htr Hts] Hp Hs Hl1 Hl2. destruct s as [|control [|script s]]; [cbn in Hl1; lia..|]. apply Forall_cons in Hs as [Hc [Hsc Hs]%Forall_cons].
  unfold VerifyTaprootScript. destruct (_ || _) eqn:E; [done|]. apply orb_false_elim in E as [[E1 _]%orb_false_elim _]. apply Nat.ltb_ge in E1.
  eapply (safe_bind (fun _ => True)).
  - apply safe_assert. unfold VerifyTaprootCommitment. rewrite (proj2 (Nat.leb_le _ _) E1), Hp. cbn [negb Nat.leb].
    destruct (XOnlyPubKey_some (take (TAPROOT_CONTROL_BASE_SIZE - 1) (drop 1 control))) as [k ->].
    { rewrite length_take, length_drop. unfold TAPROOT_CONTROL_BASE_SIZE in *. lia. }
    destruct (XOnlyPubKey_some program Hp) as [q ->]. cbn. eauto.
  - intros ok _. case_if; [done|]. case_if; [|by case_if]. apply ExecuteWitnessScript_safe; try done. cbn [length] in *. lia.
Qed.

Lemma key_hash_digits program : digits 8 program -> length program = 20%nat -> digits 8 (key_hash_script program).
Proof using.
  clear. intros Hd Hl. unfold key_hash_script, push_data. rewrite Hl. change (20%nat <? OP_PUSHDATA1) with true. cbn [app].
  repeat (constructor; [by split; vm_compute|]). apply digits_app. split; [done|]. repeat (constructor; [by split; vm_compute|]). constructor.
Qed.

Lemma VerifyWitnessProgram_safe witness v program is_p2sh :
  (is_p2sh = false -> v = 1 -> length program = 32%nat -> witness <> [] -> has_flag flags SCRIPT_VERIFY_TAPROOT = true -> taproot_checker) ->
  Forall (digits 8) witness -> digits 8 program -> length witness < 2 ^ 31 ->
  safe (fun _ => True) (VerifyWitnessProgram junk flags witness v program is_p2sh).
Proof using Hj Hv0.
  intros Ht Hw Hp Hl. unfold VerifyWitnessProgram. case_if; [|case_if; [|by case_if]].
  - case_if; [|case_if; [|done]].
    + destruct witness as [|script s]; [done|]. apply Forall_cons in Hw as [? ?]. case_if; [done|].
      apply ExecuteWitnessScript_safe; try done. cbn [length] in Hl. lia.
    + case_if; [done|]. apply ExecuteWitnessScript_safe; try done. by apply key_hash_digits.
  - destruct (has_flag flags SCRIPT_VERIFY_TAPROOT) eqn:Ef; [|done]. cbn [negb]. destruct witness as [|w ws] eqn:Ew; [done|]. rewrite <- Ew in *.
    assert (witness <> []) as Hne by (by rewrite Ew). clear w ws Ew. cases_bool. assert (taproot_checker) as Hck by (apply Ht; try done; by destruct is_p2sh).
    destruct (take_annex witness) as [s annex] eqn:Ea. destruct (take_annex_stack _ _ _ _ Ea Hne Hw) as (Hs & Hsne & Hsl).
    assert (length s < 2 ^ 31) as Hs31 by lia. destruct s as [|sig [|script s]]; [done| |].
    + eapply safe_bind; [|done]. apply (schnorr_answers _ _ (proj1 Hck)); [done|by left|]. split; [eauto|done].
    + apply VerifyTaprootScript_safe; try done. cbn. lia.
Qed.

Lemma IsWitnessProgram_some script v program :
  IsWitnessProgram script = Some (v, program) -> digits 8 script -> is_Some v /\ digits 8 program.
Proof using.
  clear. unfold IsWitnessProgram. case_if; [done|]. destruct (_ && _) eqn:E1; [done|]. case_if; [|done]. intros [= <- <-] Hd. split; [|by apply Forall_drop].
  unfold DecodeOP_N. case_if; [eauto|]. cases_bool. rewrite (proj2 (Z.leb_le _ _)), (proj2 (Z.leb_le _ _)) by lia. eauto.
Qed.

Lemma last_error_safe {A} (P : A -> Prop) r : safe P r -> safe P (last_error r).
Proof using. by destruct r as [|[]|]. Qed.

Definition is_taproot (script : list Z) : Prop := exists program, IsWitnessProgram script = Some (Some 1, program) /\ length program = 32%nat.

Lemma witness_part_safe witness script malleated e is_p2sh s had :
  (is_p2sh = false -> is_taproot script -> witness <> [] -> has_flag flags SCRIPT_VERIFY_TAPROOT = true -> taproot_checker) ->
  Forall (digits 8) witness -> digits 8 script -> length witness < 2 ^ 31 ->
  safe (fun _ => True) (witness_part junk flags witness script malleated e is_p2sh s had).
Proof using Hj Hv0.
  intros Ht Hw Hp Hl. unfold witness_part. case_if; [|done]. destruct (IsWitnessProgram script) as [[v program]|] eqn:Ei; [|done].
  destruct (IsWitnessProgram_some _ _ _ Ei Hp) as [[v' ->] Hpd]. cbn [assert_some mbind outcome_bind]. case_if; [done|].
  eapply safe_bind; [|done]. apply last_error_safe, VerifyWitnessProgram_safe; try done.
  intros Hb -> Hl32 Hne Hf. apply Ht; try done. by exists program.
Qed.

(** A pay-to-script-hash output cannot be spent with nothing on the stack. *)
Lemma p2sh_nonempty script s' : IsPayToScriptHash script = true -> Eval junk flags [] script <> Ok s'.
Proof using.
  clear. unfold IsPayToScriptHash. intros Hp. cases_bool. destruct script as [|c script]; [done|]. cbn [nth] in *. subst c.
  unfold Eval, EvalScript. case_bool_decide; [done|]. destruct (_ && _); [done|].
  assert (step Pubkey.CheckLowS junk flags BASE (start [] (OP_HASH160 :: script) ScriptExecutionData_init) = bad_stack) as Hs by reflexivity.
  cbn [run length pc start] in *. by rewrite Hs.
Qed.

Lemma p2sh_part_safe witness scriptSig scriptPubKey stackCopy s had :
  (has_flag flags SCRIPT_VERIFY_P2SH = true -> IsPayToScriptHash scriptPubKey = true -> stackCopy <> []) ->
  items_ok stackCopy -> length stackCopy < 2 ^ 31 -> Forall (digits 8) witness -> length witness < 2 ^ 31 ->
  safe (fun _ => True) (p2sh_part junk flags witness scriptSig scriptPubKey stackCopy s had).
Proof using Hj Hbase Hv0.
  intros Hne Hs Hl Hw Hwl. unfold p2sh_part. destruct (_ && _) eqn:E; [|done]. apply andb_true_iff in E as [E1 E2]. specialize (Hne E1 E2).
  case_if; [done|]. destruct stackCopy as [|key rest]; [done|]. apply Forall_cons in Hs as [[Hk _] Hs]. cbn [length] in Hl.
  eapply safe_bind; [apply Eval_safe; [done..|lia]|]. intros s' _. eapply (safe_bind (fun _ => True)).
  { destruct s'; [done|]. cbn. by case_if. }
  intros _ _. by apply witness_part_safe.
Qed.

(** For flags that satisfy the assertions of [VerifyScript] verifying the scripts of an input always ends with a
    verdict: no assertion or out-of-range access of the interpreter can be reached by what the two scripts and
    the witness contain, as long as the signature checker answers; for taproot signatures it only has to when a
    taproot output is spent with a witness. *)
Theorem VerifyScript_safe scriptSig scriptPubKey witness :
  consistent flags ->
  (is_taproot scriptPubKey -> witness <> [] -> has_flag flags SCRIPT_VERIFY_TAPROOT = true -> taproot_checker) ->
  digits 8 scriptSig -> digits 8 scriptPubKey -> Forall (digits 8) witness -> length witness < 2 ^ 31 ->
  VerifyScript junk flags scriptSig scriptPubKey witness <> Abort.
Proof using Hj Hbase Hv0.
  intros [Hc1 Hc2] Ht Hsig Hpk Hw Hl. cut (safe (fun _ => True) (VerifyScript junk flags scriptSig scriptPubKey witness)); [by intros Hs Ha; rewrite Ha in Hs|].
  unfold VerifyScript. destruct (_ && _); [done|]. eapply safe_bind; [by apply Eval_safe|]. intros s1 [Hs1 Hl1].
  pose proof (Eval_safe s1 scriptPubKey Hpk Hs1 Hl1) as He. pose proof (p2sh_nonempty scriptPubKey) as Hne.
  destruct (Eval junk flags s1 scriptPubKey) as [s2|e|] eqn:E2; [|done..]. cbn [mbind outcome_bind].
  eapply (safe_bind (fun _ => True)); [destruct s2; [done|]; cbn; by case_if|]. intros _ _.
  eapply safe_bind; [by apply witness_part_safe|]. intros [s3 had] _.
  eapply safe_bind.
  { apply p2sh_part_safe; try done; [|by case_if..]. intros Ef Hp. rewrite Ef. intros ->. by apply (Hne s2). }
  intros [s4 had'] _. eapply (safe_bind (fun _ => True)).
  - destruct (has_flag flags SCRIPT_VERIFY_CLEANSTACK); [|done]. destruct (Hc2 eq_refl) as [-> ->]. cbn [negb orb]. by apply safe_require.
  - intros _ _. destruct (has_flag flags SCRIPT_VERIFY_WITNESS); [|done]. rewrite (Hc1 eq_refl). cbn [negb]. by apply safe_require.
Qed.

End Safety.
End VerifyTheory.
