(* ===== verification/InputScripts.v ===== *)
(** * The scripts of a transaction's inputs ([validation.cpp])

    [CScriptCheck] and [CheckInputScripts], with the cache of script
    executions, the flags a block is checked with ([GetBlockScriptFlags]), the
    flags of the mempool ([policy/policy.h]) and the names of script errors
    ([script/script_error.cpp]). *)
From stdpp Require Import prelude strings.
From S2P Require Import Prelude Uint256 HashStream Fips180 Sha2Theory Sha256 Sha256Theory Hash Params Kernel Serialize Transaction Coins CoinsTheory BlockCoins TxCheck Script Locks CuckooCache Interp InterpTheory BigNum Pubkey Sighash SighashCommit SigCache VerifyScript SoftFork VerifyTheory.

Module InputScripts.
Import Serialize Transaction Coins TxCheck Script Interp Sighash VerifyScript.

(** ** Flags *)

Definition MANDATORY_SCRIPT_VERIFY_FLAGS : Z := SCRIPT_VERIFY_P2SH.
Definition STANDARD_SCRIPT_VERIFY_FLAGS : Z :=
  foldl Z.lor MANDATORY_SCRIPT_VERIFY_FLAGS
    [SCRIPT_VERIFY_DERSIG; SCRIPT_VERIFY_STRICTENC; SCRIPT_VERIFY_MINIMALDATA; SCRIPT_VERIFY_NULLDUMMY; SCRIPT_VERIFY_DISCOURAGE_UPGRADABLE_NOPS;
     SCRIPT_VERIFY_CLEANSTACK; SCRIPT_VERIFY_MINIMALIF; SCRIPT_VERIFY_NULLFAIL; SCRIPT_VERIFY_CHECKLOCKTIMEVERIFY;
     SCRIPT_VERIFY_CHECKSEQUENCEVERIFY; SCRIPT_VERIFY_LOW_S; SCRIPT_VERIFY_WITNESS; SCRIPT_VERIFY_DISCOURAGE_UPGRADABLE_WITNESS_PROGRAM;
     SCRIPT_VERIFY_WITNESS_PUBKEYTYPE; SCRIPT_VERIFY_CONST_SCRIPTCODE; SCRIPT_VERIFY_DISCOURAGE_UPGRADABLE_TAPROOT_VERSION;
     SCRIPT_VERIFY_DISCOURAGE_OP_SUCCESS; SCRIPT_VERIFY_DISCOURAGE_UPGRADABLE_PUBKEYTYPE].
Definition STANDARD_NOT_MANDATORY_VERIFY_FLAGS : Z := Z.land STANDARD_SCRIPT_VERIFY_FLAGS (u32 (Z.lnot MANDATORY_SCRIPT_VERIFY_FLAGS)).

(** The flags of a block: its hash, if the index entry has one, and the time of the block before it, if there is one. *)
Definition GetBlockScriptFlags (main : bool) (BIP16Exception : list Z) (phashBlock : option (list Z)) (prevTime : option Z) : Z :=
  let flags := SCRIPT_VERIFY_NONE in
  let flags :=
    if Blob.IsNull BIP16Exception || match phashBlock with None => true | Some h => negb (bool_decide (h = BIP16Exception)) end
    then Z.lor flags (Z.lor SCRIPT_VERIFY_P2SH SCRIPT_VERIFY_WITNESS) else flags in
  let enabled := match prevTime with Some t => Kernel.IsBTC16BIPsEnabled main t | None => false end in
  let pprev := match prevTime with Some _ => true | None => false end in
  let flags := if enabled then Z.lor flags SCRIPT_VERIFY_DERSIG else flags in
  let flags := if pprev then Z.lor flags SCRIPT_VERIFY_CHECKLOCKTIMEVERIFY else flags in
  let flags := if enabled then Z.lor flags (Z.lor SCRIPT_VERIFY_CHECKSEQUENCEVERIFY SCRIPT_VERIFY_NULLDUMMY) else flags in
  if pprev then Z.lor flags SCRIPT_VERIFY_TAPROOT else flags.

(** ** Script errors *)

Definition ScriptErrorString (serror : ScriptError) : string :=
  match serror with
  | SCRIPT_ERR_OK => "No error"
  | SCRIPT_ERR_EVAL_FALSE => "Script evaluated without error but finished with a false/empty top stack element"
  | SCRIPT_ERR_VERIFY => "Script failed an OP_VERIFY operation"
  | SCRIPT_ERR_EQUALVERIFY => "Script failed an OP_EQUALVERIFY operation"
  | SCRIPT_ERR_CHECKMULTISIGVERIFY => "Script failed an OP_CHECKMULTISIGVERIFY operation"
  | SCRIPT_ERR_CHECKSIGVERIFY => "Script failed an OP_CHECKSIGVERIFY operation"
  | SCRIPT_ERR_NUMEQUALVERIFY => "Script failed an OP_NUMEQUALVERIFY operation"
  | SCRIPT_ERR_SCRIPT_SIZE => "Script is too big"
  | SCRIPT_ERR_PUSH_SIZE => "Push value size limit exceeded"
  | SCRIPT_ERR_OP_COUNT => "Operation limit exceeded"
  | SCRIPT_ERR_STACK_SIZE => "Stack size limit exceeded"
  | SCRIPT_ERR_SIG_COUNT => "Signature count negative or greater than pubkey count"
  | SCRIPT_ERR_PUBKEY_COUNT => "Pubkey count negative or limit exceeded"
  | SCRIPT_ERR_BAD_OPCODE => "Opcode missing or not understood"
  | SCRIPT_ERR_DISABLED_OPCODE => "Attempted to use a disabled opcode"
  | SCRIPT_ERR_INVALID_STACK_OPERATION => "Operation not valid with the current stack size"
  | SCRIPT_ERR_INVALID_ALTSTACK_OPERATION => "Operation not valid with the current altstack size"
  | SCRIPT_ERR_OP_RETURN => "OP_RETURN was encountered"
  | SCRIPT_ERR_UNBALANCED_CONDITIONAL => "Invalid OP_IF construction"
  | SCRIPT_ERR_NEGATIVE_LOCKTIME => "Negative locktime"
  | SCRIPT_ERR_UNSATISFIED_LOCKTIME => "Locktime requirement not satisfied"
  | SCRIPT_ERR_SIG_HASHTYPE => "Signature hash type missing or not understood"
  | SCRIPT_ERR_SIG_DER => "Non-canonical DER signature"
  | SCRIPT_ERR_MINIMALDATA => "Data push larger than necessary"
  | SCRIPT_ERR_SIG_PUSHONLY => "Only push operators allowed in signatures"
  | SCRIPT_ERR_SIG_HIGH_S => "Non-canonical signature: S value is unnecessarily high"
  | SCRIPT_ERR_SIG_NULLDUMMY => "Dummy CHECKMULTISIG argument must be zero"
  | SCRIPT_ERR_MINIMALIF => "OP_IF/NOTIF argument must be minimal"
  | SCRIPT_ERR_SIG_NULLFAIL => "Signature must be zero for failed CHECK(MULTI)SIG operation"
  | SCRIPT_ERR_DISCOURAGE_UPGRADABLE_NOPS => "NOPx reserved for soft-fork upgrades"
  | SCRIPT_ERR_DISCOURAGE_UPGRADABLE_WITNESS_PROGRAM => "Witness version reserved for soft-fork upgrades"
  | SCRIPT_ERR_DISCOURAGE_UPGRADABLE_TAPROOT_VERSION => "Taproot version reserved for soft-fork upgrades"
  | SCRIPT_ERR_DISCOURAGE_OP_SUCCESS => "OP_SUCCESSx reserved for soft-fork upgrades"
  | SCRIPT_ERR_DISCOURAGE_UPGRADABLE_PUBKEYTYPE => "Public key version reserved for soft-fork upgrades"
  | SCRIPT_ERR_PUBKEYTYPE => "Public key is neither compressed or uncompressed"
  | SCRIPT_ERR_CLEANSTACK => "Stack size must be exactly one after execution"
  | SCRIPT_ERR_WITNESS_PROGRAM_WRONG_LENGTH => "Witness program has incorrect length"
  | SCRIPT_ERR_WITNESS_PROGRAM_WITNESS_EMPTY => "Witness program was passed an empty witness"
  | SCRIPT_ERR_WITNESS_PROGRAM_MISMATCH => "Witness program hash mismatch"
  | SCRIPT_ERR_WITNESS_MALLEATED => "Witness requires empty scriptSig"
  | SCRIPT_ERR_WITNESS_MALLEATED_P2SH => "Witness requires only-redeemscript scriptSig"
  | SCRIPT_ERR_WITNESS_UNEXPECTED => "Witness provided for non-witness script"
  | SCRIPT_ERR_WITNESS_PUBKEYTYPE => "Using non-compressed keys in segwit"
  | SCRIPT_ERR_SCHNORR_SIG_SIZE => "Invalid Schnorr signature size"
  | SCRIPT_ERR_SCHNORR_SIG_HASHTYPE => "Invalid Schnorr signature hash type"
  | SCRIPT_ERR_SCHNORR_SIG => "Invalid Schnorr signature"
  | SCRIPT_ERR_TAPROOT_WRONG_CONTROL_SIZE => "Invalid Taproot control block size"
  | SCRIPT_ERR_TAPSCRIPT_VALIDATION_WEIGHT => "Too much signature validation relative to witness weight"
  | SCRIPT_ERR_TAPSCRIPT_CHECKMULTISIG => "OP_CHECKMULTISIG(VERIFY) is not available in tapscript"
  | SCRIPT_ERR_TAPSCRIPT_MINIMALIF => "OP_IF/NOTIF argument must be minimal in tapscript"
  | SCRIPT_ERR_OP_CODESEPARATOR => "Using OP_CODESEPARATOR in non-witness script"
  | SCRIPT_ERR_SIG_FINDANDDELETE => "Signature is found in scriptCode"
  | SCRIPT_ERR_UNKNOWN_ERROR => "unknown error"
  end.

(** ** Checks *)

Record CScriptCheck := mkScriptCheck {
  m_tx_out : CTxOut;
  ptxTo : CTransaction;
  nIn : nat;
  nFlags : Z;
  cacheStore : bool;
  txdata : PrecomputedTransactionData
}.

Section Code.
(** [verifier store] are the answers of the caching checker; [junk] is what
    buffers of hashers hold.  [None] is a failed assertion. *)
Context {S : Type} {V : CoinsView S} (usage : Coin -> Z) {E : Type} `{ForgetfulSet E (list Z)}.
Context `{Pubkey.Secp256k1} (verifier : bool -> SignatureVerifier) (junk : list Z).

Abbreviation Cache := (@CCoinsViewCache S).

(** [CScriptCheck::operator()]: the result, and the error it leaves. *)
Definition check_script (c : CScriptCheck) : option (bool * ScriptError) :=
  i ← vin (ptxTo c) !! nIn c;
  match
    VerifyScript (checker := @TransactionSignatureChecker (verifier (cacheStore c)) (ptxTo c) ASSERT_FAIL (nIn c) (nValue (m_tx_out c)) (Some (txdata c)))
      junk (nFlags c) (scriptSig i) (scriptPubKey (m_tx_out c)) (rev (scriptWitness i))
  with
  | Ok _ => Some (true, SCRIPT_ERR_OK)
  | Fail e => Some (false, default SCRIPT_ERR_UNKNOWN_ERROR e)
  | Abort => None
  end.

Record exec_cache := mkExecCache { g_scriptExecutionCacheHasher : Sha256.CSHA256; g_scriptExecutionCache : E }.

(** The hasher of [InitScriptExecutionCache]. *)
Definition script_hasher (nonce : list Z) : Sha256.CSHA256 := Sha256.Write (Sha256.Write (Sha256.CSHA256_init junk) nonce) nonce.

Definition hashCacheEntry (ec : exec_cache) (tx : CTransaction) (flags : Z) : list Z :=
  (Sha256.Finalize (Sha256.Write (Sha256.Write (g_scriptExecutionCacheHasher ec) (ComputeWitnessHash tx)) (le_digits 8 4 flags)) (Blob.null 32)).2.

(** The outputs that are spent. *)
Fixpoint get_spent (inputs : Cache) (l : list CTxIn) : option (list CTxOut * Cache) :=
  match l with
  | [] => Some ([], inputs)
  | txin :: l =>
      let '(coin, inputs) := AccessCoin usage inputs (prevout txin) in
      if IsSpent coin then None else '(outs, inputs) ← get_spent inputs l; Some (out coin :: outs, inputs)
  end.

(** What the failure of an input's script is reported as. *)
Definition script_failure (check : CScriptCheck) (e : ScriptError) : option verdict :=
  '(ok, _) ←
    (if has_flag (nFlags check) STANDARD_NOT_MANDATORY_VERIFY_FLAGS then
       check_script (mkScriptCheck (m_tx_out check) (ptxTo check) (nIn check)
         (Z.land (nFlags check) (u32 (Z.lnot STANDARD_NOT_MANDATORY_VERIFY_FLAGS))) (cacheStore check) (txdata check))
     else Some (false, SCRIPT_ERR_OK));
  Some (if (ok : bool) then Invalid TX_NOT_STANDARD ("non-mandatory-script-verify-flag (" +:+ ScriptErrorString e +:+ ")")
        else Invalid TX_CONSENSUS ("mandatory-script-verify-flag-failed (" +:+ ScriptErrorString e +:+ ")")).

Fixpoint run_checks (checks : list CScriptCheck) : option verdict :=
  match checks with
  | [] => Some Valid
  | check :: checks =>
      '(ok, e) ← check_script check;
      if (ok : bool) then run_checks checks else script_failure check e
  end.

(** One check for every input. *)
Definition all_checks (tx : CTransaction) (flags : Z) (cacheSigStore : bool) (txdata : PrecomputedTransactionData) : option (list CScriptCheck) :=
  mapM (fun i => o ← m_spent_outputs txdata !! i; Some (mkScriptCheck o tx i flags cacheSigStore txdata)) (seq 0 (length (vin tx))).

(** The verdict, the checks left to the caller, and what is changed.  [parallel] is whether [pvChecks] is given. *)
Definition CheckInputScripts (tx : CTransaction) (inputs : Cache) (flags : Z) (cacheSigStore cacheFullScriptStore : bool)
    (txdata : PrecomputedTransactionData) (parallel : bool) (ec : exec_cache) :
    option (verdict * list CScriptCheck * Cache * PrecomputedTransactionData * exec_cache) :=
  if IsCoinBase tx then Some (Valid, [], inputs, txdata, ec)
  else
    let entry := hashCacheEntry ec tx flags in
    '(s, found) ← set_contains (g_scriptExecutionCache ec) entry (negb cacheFullScriptStore);
    let ec := mkExecCache (g_scriptExecutionCacheHasher ec) s in
    if (found : bool) then Some (Valid, [], inputs, txdata, ec)
    else
      '(txdata, inputs) ←
        (if negb (m_spent_outputs_ready txdata) then
           '(spent_outputs, inputs) ← get_spent inputs (vin tx);
           txdata ← Init txdata tx spent_outputs false;
           Some (txdata, inputs)
         else Some (txdata, inputs));
      if negb (length (m_spent_outputs txdata) =? length (vin tx))%nat then None
      else
        checks ← all_checks tx flags cacheSigStore txdata;
        if (parallel : bool) then Some (Valid, checks, inputs, txdata, ec)
        else
          v ← run_checks checks;
          match (v : verdict) with
          | Invalid _ _ => Some (v, [], inputs, txdata, ec)
          | Valid =>
              s ← (if cacheFullScriptStore then set_insert (g_scriptExecutionCache ec) entry else Some (g_scriptExecutionCache ec));
              Some (Valid, [], inputs, txdata, mkExecCache (g_scriptExecutionCacheHasher ec) s)
          end.

End Code.

End InputScripts.
