(* ===== verification/InputTheory.v ===== *)
(** * What [CheckInputScripts] guarantees

    The checks of a transaction's scripts always come to a verdict; and a
    transaction that passes, be it through the cache of script executions, has
    scripts that verify. *)
From stdpp Require Import prelude strings.
From S2P Require Import Prelude Uint256 HashStream Fips180 Sha2Theory Sha256 Sha256Theory Hash Params Kernel Serialize Transaction Coins CoinsTheory CoinsMachine BlockCoins TxCheck TxVerify Script Locks CuckooCache CuckooTheory Interp InterpTheory BigNum Pubkey Sighash SighashCommit SigCache VerifyScript SoftFork VerifyTheory InputScripts.

Module InputTheory.
Import Serialize Transaction Coins TxCheck Script Interp InterpTheory Sighash SighashCommit VerifyScript SoftFork VerifyTheory InputScripts.

(** ** Flags *)

Lemma block_flags_consistent main e h t : consistent (GetBlockScriptFlags main e h t).
Proof.
  unfold GetBlockScriptFlags. set (b := _ || _). clearbody b. destruct t as [t|]; cbn zeta; [destruct (Kernel.IsBTC16BIPsEnabled main t)|]; destruct b; by split.
Qed.

Lemma block_flags_range main e h t : in_u 32 (GetBlockScriptFlags main e h t).
Proof.
  unfold GetBlockScriptFlags. set (b := _ || _). clearbody b. destruct t as [t|]; cbn zeta; [destruct (Kernel.IsBTC16BIPsEnabled main t)|]; destruct b; by split.
Qed.

(** ** What [Init] prepares *)

Lemma scan_monotone r l spent k sg tp : (scan_inputs r l spent k sg tp).2 = false -> tp = false.
Proof.
  revert k sg tp. induction l as [|i l IH]; intros k sg tp; cbn [scan_inputs]; [done|]. destruct (sg && tp) eqn:E; [done|].
  destruct (negb _); [destruct (_ && _ && _)|]; intros Hs%IH; done.
Qed.

Lemma scan_taproot l spent k sg tp j i o :
  l !! j = Some i -> scriptWitness i <> [] -> spent !! (k + j)%nat = Some o -> length (scriptPubKey o) = 34%nat -> (scriptPubKey o).[0] = OP_1 ->
  (scan_inputs true l spent k sg tp).2 = true.
Proof.
  revert k sg tp j. induction l as [|x l IH]; intros k sg tp j Hj Hw Ho Hlen H0; [done|]. cbn [scan_inputs].
  destruct (sg && tp) eqn:E; [by apply andb_true_iff in E as [_ ->]|]. destruct j as [|j].
  - injection Hj as ->. rewrite Nat.add_0_r in Ho. rewrite Ho, Hlen, H0. destruct (scriptWitness i); [done|]. cbn [length Nat.eqb negb andb].
    apply not_false_is_true. intros Hf. by apply scan_monotone in Hf.
  - destruct (negb _); [destruct (_ && _ && _)|]; (eapply (IH (S k)); [exact Hj|done| |done|done]); by rewrite <- Ho, Nat.add_succ_r.
Qed.

Definition is_ready (tx : CTransaction) (outs : list CTxOut) (td : PrecomputedTransactionData) : Prop :=
  m_spent_outputs_ready td = true /\ m_spent_outputs td = outs /\ length outs = length (vin tx) /\
  forall j i o, vin tx !! j = Some i -> outs !! j = Some o -> is_taproot (scriptPubKey o) -> scriptWitness i <> [] -> m_bip341_taproot_ready td = true.

Lemma is_taproot_shape script : is_taproot script -> length script = 34%nat /\ script.[0] = OP_1.
Proof.
  intros (program & Hp & Hl). unfold IsWitnessProgram in Hp. case_if_in Hp; [done|]. destruct (_ && _) eqn:E1; [done|]. case_if_in Hp; [|done].
  injection Hp as Hv <-. rewrite length_drop in Hl. split; [lia|]. unfold DecodeOP_N, OP_0, OP_1 in *. case_if_in Hv; [done|]. case_if_in Hv; [|done]. injection Hv as Hv. lia.
Qed.

Lemma Init_ready tx outs : vin tx <> [] -> length outs = length (vin tx) ->
  exists td, Init PrecomputedTransactionData_init tx outs false = Some td /\ is_ready tx outs td.
Proof.
  intros Hne Hl. unfold Init. cbn [m_spent_outputs_ready PrecomputedTransactionData_init]. rewrite Hl, Nat.eqb_refl.
  assert ((length (vin tx) =? 0)%nat = false) as -> by (by destruct (vin tx)). cbn [negb andb].
  destruct (scan_inputs true (vin tx) outs 0 false false) as [sg tp] eqn:Es. eexists. split; [done|]. split; [done|]. split; [done|]. split; [done|].
  intros j i o Hj Ho Ht Hw. destruct (is_taproot_shape _ Ht) as [H1 H2]. pose proof (scan_taproot (vin tx) outs 0 false false j i o Hj Hw Ho H1 H2) as Hs.
  rewrite Es in Hs. cbn in Hs. subst tp. done.
Qed.

(** ** One check *)

Definition input_bytes (i : CTxIn) : Prop := digits 8 (scriptSig i) /\ Forall (digits 8) (scriptWitness i) /\ length (scriptWitness i) < 2 ^ 31.
Definition output_bytes (o : CTxOut) : Prop := 0 <= nValue o /\ digits 8 (scriptPubKey o).

Section Checks.
Context `{Pubkey.Secp256k1} (verifier : bool -> SignatureVerifier) (junk : list Z).
Context (Hj : length junk = 64%nat).
Context (Hver : forall store sig key h, length sig = 64%nat -> is_Some (@VerifySchnorrSignature (verifier store) sig key h)).

#[local] Abbreviation check_script := (InputScripts.check_script verifier junk).

Lemma check_script_total tx outs td k i o flags store :
  is_ready tx outs td -> vin tx !! k = Some i -> outs !! k = Some o -> input_bytes i -> output_bytes o -> consistent flags ->
  exists b e, check_script (mkScriptCheck o tx k flags store td) = Some (b, e).
Proof using Hj Hver.
  intros (Hr & Hspent & Hlen & Htap) Hi Ho (Hsig & Hwit & Hwl) (Hv & Hpk) Hc. unfold InputScripts.check_script. cbn [ptxTo nIn m_tx_out nFlags cacheStore txdata].
  rewrite Hi. cbn [mbind option_bind]. assert (k < length (vin tx))%nat as Hk by (by eapply lookup_lt_Some).
  pose proof (@VerifyScript_safe _ (@TransactionSignatureChecker (verifier store) tx ASSERT_FAIL k (nValue o) (Some td)) junk flags Hj) as Hsafe.
  specialize (Hsafe (@tx_checker_ecdsa (verifier store) tx ASSERT_FAIL k (nValue o) (Some td) Hk BASE (or_introl eq_refl) ltac:(done))).
  specialize (Hsafe (@tx_checker_ecdsa (verifier store) tx ASSERT_FAIL k (nValue o) (Some td) Hk WITNESS_V0 (or_intror eq_refl) ltac:(auto))).
  specialize (Hsafe (scriptSig i) (scriptPubKey o) (rev (scriptWitness i)) Hc). destruct (VerifyScript _ _ _ _ _) as [x|e|]; [by eexists _, _..|]. exfalso. apply Hsafe; try done.
  - intros Ht Hne _. assert (m_bip341_taproot_ready td = true) as Hready.
    { apply (Htap k i o Hi Ho Ht). intros E. apply Hne. by rewrite E. }
    split; (eapply (@tx_checker_schnorr (verifier store) tx ASSERT_FAIL k (nValue o) (Some td) Hk td); [apply Hver|done|by left|congruence|auto]).
  - by apply Forall_rev.
  - by rewrite length_rev.
Qed.

(** The second check of a script that failed. *)
Lemma mandatory_consistent flags : consistent flags -> consistent (Z.land flags (u32 (Z.lnot STANDARD_NOT_MANDATORY_VERIFY_FLAGS))).
Proof using.
  clear. intros _. assert (forall f, Z.land (u32 (Z.lnot STANDARD_NOT_MANDATORY_VERIFY_FLAGS)) f = 0 -> has_flag (Z.land flags (u32 (Z.lnot STANDARD_NOT_MANDATORY_VERIFY_FLAGS))) f = false) as Hf.
  { intros f Hz. unfold has_flag. by rewrite <- Z.land_assoc, Hz, Z.land_0_r. }
  split; intros Hw; exfalso; rewrite Hf in Hw; done.
Qed.

Definition passed (c : CScriptCheck) : Prop := exists e, check_script c = Some (true, e).

Lemma script_failure_total tx outs td k i o flags store e :
  is_ready tx outs td -> vin tx !! k = Some i -> outs !! k = Some o -> input_bytes i -> output_bytes o -> consistent flags ->
  exists r s, script_failure verifier junk (mkScriptCheck o tx k flags store td) e = Some (Invalid r s).
Proof using Hj Hver.
  intros Hr Hi Ho Hib Hob Hc. unfold script_failure. cbn [nFlags m_tx_out ptxTo nIn cacheStore txdata].
  destruct (check_script_total tx outs td k i o _ store Hr Hi Ho Hib Hob (mandatory_consistent flags Hc)) as (b & e' & Hb).
  case_if; [rewrite Hb|]; cbn [mbind option_bind]; [case_if|]; by eexists _, _.
Qed.

(** ** All checks of a transaction *)

(** The scripts of all inputs verify against the outputs they spend. *)
Definition scripts_ok (tx : CTransaction) (outs : list CTxOut) (flags : Z) : Prop :=
  exists td store, Init PrecomputedTransactionData_init tx outs false = Some td /\ forall k o, outs !! k = Some o -> passed (mkScriptCheck o tx k flags store td).

Definition check_of (tx : CTransaction) (outs : list CTxOut) (flags : Z) (store : bool) (td : PrecomputedTransactionData) (c : CScriptCheck) : Prop :=
  exists k i o, c = mkScriptCheck o tx k flags store td /\ vin tx !! k = Some i /\ outs !! k = Some o.

Lemma all_checks_spec tx outs td flags store : is_ready tx outs td ->
  exists checks, all_checks tx flags store td = Some checks /\ Forall (check_of tx outs flags store td) checks /\
    forall k o, outs !! k = Some o -> mkScriptCheck o tx k flags store td ∈ checks.
Proof using.
  clear Hver Hj. intros (_ & Hs & Hl & _). unfold all_checks. rewrite Hs.
  set (f := fun i => o ← outs !! i; Some (mkScriptCheck o tx i flags store td)).
  assert (is_Some (mapM f (seq 0 (length (vin tx))))) as [checks Hc].
  { apply mapM_is_Some_2, Forall_forall. intros k Hk%elem_of_seq. change (is_Some (f k)). unfold f. destruct (lookup_lt_is_Some_2 outs k) as [o ->]; [lia|]. by eexists. }
  exists checks. split; [done|]. apply mapM_Some in Hc. split.
  - apply Forall_lookup_2. intros j c Hj. destruct (Forall2_lookup_r _ _ _ _ _ Hc Hj) as (k & Hk & Hf). apply lookup_seq in Hk as [-> Hk]. unfold f in Hf. cbv beta in Hf. cbn [Nat.add] in *.
    destruct (outs !! j) as [o|] eqn:Ho; [|done]. injection Hf as <-. destruct (lookup_lt_is_Some_2 (vin tx) j Hk) as [i Hi]. by exists j, i, o.
  - intros k o Ho. assert (seq 0 (length (vin tx)) !! k = Some k) as Hk by (apply lookup_seq_lt; rewrite <- Hl; by eapply lookup_lt_Some).
    destruct (Forall2_lookup_l _ _ _ _ _ Hc Hk) as (c & Hc' & Hf). unfold f in Hf. cbv beta in Hf. rewrite Ho in Hf. injection Hf as <-. by eapply list_elem_of_lookup_2.
Qed.

Lemma run_checks_spec tx outs td flags store checks :
  is_ready tx outs td -> Forall input_bytes (vin tx) -> Forall output_bytes outs -> consistent flags -> Forall (check_of tx outs flags store td) checks ->
  exists v, run_checks verifier junk checks = Some v /\ (v = Valid <-> Forall passed checks).
Proof using Hj Hver.
  intros Hr Hib Hob Hc Hall. induction Hall as [|c checks (k & i & o & -> & Hi & Ho) Hall IH]; [exists Valid; split; [done|]; split; [constructor|done]|].
  cbn [run_checks]. assert (input_bytes i) as Hi' by (by eapply Forall_lookup_1). assert (output_bytes o) as Ho' by (by eapply Forall_lookup_1).
  destruct (check_script_total tx outs td k i o flags store Hr Hi Ho Hi' Ho' Hc) as (b & e & Hb). rewrite Hb. cbn [mbind option_bind]. destruct b.
  - destruct IH as (v & -> & Hv). exists v. split; [done|]. rewrite Hv, Forall_cons. split; [|by intros [_ ?]]. intros ?. split; [by exists e|done].
  - destruct (script_failure_total tx outs td k i o flags store e Hr Hi Ho Hi' Ho' Hc) as (r & s & ->). eexists. split; [done|]. split; [done|].
    intros [[e' He'] _]%Forall_cons. congruence.
Qed.

(** ** The cache of script executions *)

Definition wire_ok : CTransaction -> Prop := tx_ok 24 ltac:(clear; unfold MAX_VECTOR_ALLOCATE; lia) 0.

Definition exec_message (nonce : list Z) (q : CTransaction * Z) : list Z := nonce ++ nonce ++ ComputeWitnessHash q.1 ++ le_digits 8 4 q.2.
(** All that is hashed for an entry. *)
Definition exec_messages (nonce : list Z) (q : CTransaction * Z) : list (list Z) :=
  [exec_message nonce q; SerializeTransaction 0 q.1; Hash.sha256 (SerializeTransaction 0 q.1)].

Lemma witness_hash tx : ComputeWitnessHash tx = Hash.sha256 (Hash.sha256 (SerializeTransaction 0 tx)).
Proof using.
  clear. assert (forall b, SerializeHash b = Hash.sha256 (Hash.sha256 b)) as Hd.
  { intros b. apply Hash.GetHash_digest. apply (Hash.init256 (replicate 64 0) b). done. }
  unfold ComputeWitnessHash, ComputeHash. rewrite !Hd. destruct (HasWitness tx) eqn:Ew; cbn [negb]; [done|].
  unfold SerializeTransaction. rewrite Ew, !andb_false_r. done.
Qed.

Lemma wire_inj tx tx' : wire_ok tx -> wire_ok tx' -> SerializeTransaction 0 tx = SerializeTransaction 0 tx' -> tx = tx'.
Proof using.
  clear. intros H1 H2 E.
  pose proof (tx_Unser_Ser 104 40 24 ltac:(unfold MAX_VECTOR_ALLOCATE; lia) ltac:(unfold MAX_VECTOR_ALLOCATE; lia) _ 0 tx [] H1) as U1.
  pose proof (tx_Unser_Ser 104 40 24 ltac:(unfold MAX_VECTOR_ALLOCATE; lia) ltac:(unfold MAX_VECTOR_ALLOCATE; lia) _ 0 tx' [] H2) as U2.
  rewrite E in U1. congruence.
Qed.

Definition exec_confused (nonce : list Z) (log : list (CTransaction * Z)) (q : CTransaction * Z) : Prop :=
  Hash.sha256 (exec_message nonce q) = Blob.null 32 \/ collides Hash.sha256 (concat (map (exec_messages nonce) (q :: log))).

Lemma exec_elem nonce log q m : q ∈ log -> m ∈ exec_messages nonce q -> m ∈ concat (map (exec_messages nonce) log).
Proof using.
  clear. intros Hq Hm. apply list_elem_of_In, in_concat. exists (exec_messages nonce q). split; [|by apply list_elem_of_In]. apply list_elem_of_In, list_elem_of_fmap. by exists q.
Qed.

(** An entry stands for one transaction and one set of flags. *)
Lemma exec_inj nonce log q q' : q' ∈ log -> wire_ok q.1 -> wire_ok q'.1 -> in_u 32 q.2 -> in_u 32 q'.2 ->
  Hash.sha256 (exec_message nonce q) = Hash.sha256 (exec_message nonce q') -> q = q' \/ exec_confused nonce log q.
Proof using.
  clear. intros Hin Hw Hw' Hf Hf' E. set (L := concat (map (exec_messages nonce) (q :: log))).
  assert (forall m, m ∈ exec_messages nonce q -> m ∈ L) as M1 by (intros m; apply exec_elem; by left).
  assert (forall m, m ∈ exec_messages nonce q' -> m ∈ L) as M2 by (intros m; apply exec_elem; by right).
  assert (forall q, exec_message nonce q ∈ exec_messages nonce q /\ SerializeTransaction 0 q.1 ∈ exec_messages nonce q /\ Hash.sha256 (SerializeTransaction 0 q.1) ∈ exec_messages nonce q) as M0.
  { intros x. split; [by left|]. split; [right; by left|right; right; by left]. }
  destruct (M0 q) as (A1 & A2 & A3), (M0 q') as (B1 & B2 & B3).
  destruct (collides_inj Hash.sha256 L _ _ (M1 _ A1) (M2 _ B1) E) as [Em|?]; [|right; by right]. unfold exec_message in Em.
  do 2 apply app_inv_head in Em. rewrite !witness_hash in Em. apply app_inj_1 in Em as [Eh Efl]; [|by rewrite !Hash.sha256_length].
  destruct (twice_inj L _ _ (M1 _ A2) (M2 _ B2) (M1 _ A3) (M2 _ B3) Eh) as [Es|?]; [|right; by right].
  left. destruct q as [tx fl], q' as [tx' fl']. cbn [fst snd] in *. f_equal; [by apply wire_inj|].
  apply (f_equal (le_val 8)) in Efl. rewrite !le_val_digits in Efl by lia. change (2 ^ (8 * 4%nat)) with (2 ^ 32) in Efl. unfold in_u in *. rewrite !Z.mod_small in Efl by lia. done.
Qed.

Context {E : Type} `{ForgetfulSet E (list Z)}.

(** [coin_at] is the output every outpoint stands for, in whichever set of coins it occurs: a transaction's hash
    commits to its outputs.  [log] are the executions that were stored. *)
Definition spends (coin_at : COutPoint -> option CTxOut) (tx : CTransaction) (outs : list CTxOut) : Prop :=
  Forall2 (fun i o => coin_at (prevout i) = Some o) (vin tx) outs.

Record exec_ok (coin_at : COutPoint -> option CTxOut) (nonce : list Z) (log : list (CTransaction * Z)) (ec : @exec_cache E) : Prop := {
  ex_hasher : g_scriptExecutionCacheHasher ec = script_hasher junk nonce;
  ex_set : set_ok (g_scriptExecutionCache ec);
  ex_elems e : set_elem (g_scriptExecutionCache ec) e -> e = Blob.null 32 \/ exists q, q ∈ log /\ e = Hash.sha256 (exec_message nonce q);
  ex_log q : q ∈ log -> wire_ok q.1 /\ in_u 32 q.2 /\ exists outs, spends coin_at q.1 outs /\ scripts_ok q.1 outs q.2
}.

Lemma entry_digest coin_at nonce log ec tx flags : exec_ok coin_at nonce log ec -> hashCacheEntry ec tx flags = Hash.sha256 (exec_message nonce (tx, flags)).
Proof using Hj.
  intros Hec. unfold hashCacheEntry. rewrite (ex_hasher _ _ _ _ Hec). apply Hash.finalize256; [|done]. unfold exec_message. cbn [fst snd].
  rewrite (app_assoc nonce), (app_assoc (nonce ++ nonce)). do 3 apply Sha256Theory.Write_ok256. by apply Hash.init256.
Qed.

(** ** The whole function *)

Context {S : Type} {V : CoinsView S} (usage : Coin -> Z).
#[local] Abbreviation coins := (COutPoint -> option Coin).

Lemma get_spent_spec (u : coins) (coin_at : COutPoint -> option CTxOut) l (c : @CCoinsViewCache S) :
  BlockCoins.holds usage c u -> (forall o x, u o = Some x -> coin_at o = Some (out x) /\ output_bytes (out x)) -> (forall i, i ∈ l -> is_Some (u (prevout i))) ->
  exists outs c', get_spent usage c l = Some (outs, c') /\ BlockCoins.holds usage c' u /\ Forall2 (fun i o => coin_at (prevout i) = Some o) l outs /\ Forall output_bytes outs.
Proof using.
  clear. intros Hc Hat. revert c Hc. induction l as [|i l IH]; intros c Hc Hin; cbn [get_spent]; [exists [], c; auto|].
  destruct (BlockCoins.AccessCoin_holds usage c u (prevout i) Hc) as (x & c1 & -> & Hc1 & Hx). destruct (Hin i) as [y Hy]; [by left|].
  rewrite Hy in Hx. destruct (IsSpent x); [done|]. injection Hx as <-. destruct (IH c1 Hc1) as (outs & c' & -> & Hc' & Hf & Hb); [intros; apply Hin; by right|].
  destruct (Hat _ _ Hy) as [Ha Hob]. exists (out y :: outs), c'. split; [done|]. split; [done|]. split; by constructor.
Qed.

Lemma exec_ok_sub coin_at nonce log ec s : exec_ok coin_at nonce log ec -> set_ok s -> (forall e, set_elem s e -> set_elem (g_scriptExecutionCache ec) e) ->
  exec_ok coin_at nonce log (mkExecCache (g_scriptExecutionCacheHasher ec) s).
Proof using. intros [H1 H2 H3 H4] Hs Hsub. split; cbn; try done. intros e He. by apply H3, Hsub. Qed.

Lemma exec_ok_add coin_at nonce log ec s q : exec_ok coin_at nonce log ec -> set_ok s ->
  (forall e, set_elem s e -> set_elem (g_scriptExecutionCache ec) e \/ e = Hash.sha256 (exec_message nonce q)) ->
  wire_ok q.1 -> in_u 32 q.2 -> (exists outs, spends coin_at q.1 outs /\ scripts_ok q.1 outs q.2) ->
  exec_ok coin_at nonce (q :: log) (mkExecCache (g_scriptExecutionCacheHasher ec) s).
Proof using.
  intros [H1 H2 H3 H4] Hs Hsub Hw Hf Hok. split; cbn; try done.
  - intros e He. destruct (Hsub e He) as [Ho| ->]; [|right; exists q; split; [by left|done]]. destruct (H3 e Ho) as [?|(q' & ? & ?)]; [by left|right; exists q'; split; [by right|done]].
  - intros q' [->|Hin]%elem_of_cons; [done|by apply H4].
Qed.

(** The lookup in the cache: what is found was verified, up to confusion. *)
Lemma exec_lookup coin_at nonce log ec tx flags erase : exec_ok coin_at nonce log ec -> wire_ok tx -> in_u 32 flags ->
  exists s found, set_contains (g_scriptExecutionCache ec) (hashCacheEntry ec tx flags) erase = Some (s, found) /\
    exec_ok coin_at nonce log (mkExecCache (g_scriptExecutionCacheHasher ec) s) /\
    (found = true -> (exists outs, spends coin_at tx outs /\ scripts_ok tx outs flags) \/ exec_confused nonce log (tx, flags)).
Proof using Hj.
  intros Hec Hw Hf. destruct (set_contains_ok (g_scriptExecutionCache ec) (hashCacheEntry ec tx flags) erase (ex_set _ _ _ _ Hec)) as (s & b & Es & Hs & Hb & Hsub).
  exists s, b. split; [done|]. split; [by apply exec_ok_sub|]. intros Hfound. specialize (Hb Hfound). rewrite (entry_digest coin_at nonce log) in Hb by done.
  destruct (ex_elems _ _ _ _ Hec _ Hb) as [?|(q & Hin & Eq)]; [right; by left|]. destruct (ex_log _ _ _ _ Hec q Hin) as (Hqw & Hqf & Hok).
  destruct (exec_inj nonce log (tx, flags) q Hin Hw Hqw Hf Hqf Eq) as [<-|?]; [by left|by right].
Qed.

Lemma checks_passed tx outs td flags store checks : Init PrecomputedTransactionData_init tx outs false = Some td ->
  (forall k o, outs !! k = Some o -> mkScriptCheck o tx k flags store td ∈ checks) -> Forall passed checks -> scripts_ok tx outs flags.
Proof using. intros Hi Hin Hp. exists td, store. split; [done|]. intros k o Ho. rewrite Forall_forall in Hp. by apply Hp, (Hin k). Qed.

End Checks.

Lemma CheckInputScripts_spec `{Pubkey.Secp256k1} verifier junk {E} `{ForgetfulSet E (list Z)} {S} {V : CoinsView S} usage
    (u : COutPoint -> option Coin) coin_at nonce log (ec : exec_cache) (c : @CCoinsViewCache S) tx flags sigStore fullStore parallel :
  length junk = 64%nat ->
  (forall store sig key h, length sig = 64%nat -> is_Some (@VerifySchnorrSignature (verifier store) sig key h)) ->
  exec_ok verifier junk coin_at nonce log ec -> BlockCoins.holds usage c u ->
  (forall o x, u o = Some x -> coin_at o = Some (out x) /\ output_bytes (out x)) ->
  wire_ok tx -> Forall input_bytes (vin tx) -> IsCoinBase tx = false -> vin tx <> [] -> (forall i, i ∈ vin tx -> is_Some (u (prevout i))) ->
  consistent flags -> in_u 32 flags ->
  exists v checks c' td' ec', CheckInputScripts usage verifier junk tx c flags sigStore fullStore PrecomputedTransactionData_init parallel ec =
      Some (v, checks, c', td', ec') /\ BlockCoins.holds usage c' u /\
    (exists log', log ⊆ log' /\ (fullStore = false -> log' = log) /\ exec_ok verifier junk coin_at nonce log' ec') /\
    (v = Valid -> Forall (passed verifier junk) checks ->
      (exists outs, spends coin_at tx outs /\ scripts_ok verifier junk tx outs flags) \/ exec_confused nonce log (tx, flags)) /\
    (v <> Valid -> parallel = false /\ exists outs, spends coin_at tx outs /\ ~ forall td k o, Init PrecomputedTransactionData_init tx outs false = Some td ->
      outs !! k = Some o -> passed verifier junk (mkScriptCheck o tx k flags sigStore td)).
Proof.
  intros Hj Hver Hec Hc Hat Hw Hib Hcb Hne Hin Hcons Hfl. unfold CheckInputScripts. rewrite Hcb.
  destruct (exec_lookup verifier junk Hj coin_at nonce log ec tx flags (negb fullStore) Hec Hw Hfl) as (s & found & -> & Hec1 & Hfound). cbn [mbind option_bind].
  destruct found.
  { eexists _, _, _, _, _. split; [done|]. split; [done|]. split; [by exists log|]. split; [intros _ _; by apply Hfound|done]. }
  cbn [m_spent_outputs_ready PrecomputedTransactionData_init negb].
  destruct (get_spent_spec usage u coin_at (vin tx) c Hc Hat Hin) as (outs & c1 & -> & Hc1 & Hsp & Hob). cbn [mbind option_bind].
  assert (length outs = length (vin tx)) as Hlen by (symmetry; by eapply Forall2_length).
  destruct (Init_ready tx outs Hne Hlen) as (td & Htd & Hready). rewrite Htd. cbn [mbind option_bind]. pose proof Hready as (_ & Hso & _).
  rewrite Hso, Hlen, Nat.eqb_refl. cbn [negb]. destruct (all_checks_spec tx outs td flags sigStore Hready) as (checks & -> & Hall & Hcov). cbn [mbind option_bind].
  destruct parallel.
  { eexists _, _, _, _, _. split; [done|]. split; [done|]. split; [by exists log|]. split; [|done]. intros _ Hp. left. exists outs. split; [done|]. by eapply checks_passed. }
  destruct (run_checks_spec verifier junk Hj Hver tx outs td flags sigStore checks Hready Hib Hob Hcons Hall) as (v & -> & Hv). cbn [mbind option_bind]. destruct v as [|r reason].
  - assert (scripts_ok verifier junk tx outs flags) as Hok by (eapply checks_passed; [done|done|by apply Hv]). destruct fullStore.
    + destruct (set_insert_ok s (hashCacheEntry ec tx flags) (ex_set _ _ _ _ _ _ Hec1)) as (s' & Es & Hs' & Hsub). cbn [g_scriptExecutionCache g_scriptExecutionCacheHasher]. rewrite Es. cbn [mbind option_bind].
      eexists _, _, _, _, _. split; [done|]. split; [done|]. split; [|split; [|done]; intros _ _; left; eauto].
      exists ((tx, flags) :: log). split; [intros x Hx; by right|]. split; [done|]. apply (exec_ok_add verifier junk coin_at nonce log _ s' (tx, flags) Hec1); try done; [|eauto].
      intros e He. destruct (Hsub e He) as [?| ->]; [by left|right]. by apply (entry_digest verifier junk Hj coin_at nonce log).
    + cbn [g_scriptExecutionCache g_scriptExecutionCacheHasher mbind option_bind]. eexists _, _, _, _, _. split; [done|]. split; [done|]. split; [by exists log|split; [|done]; intros _ _; left; eauto].
  - eexists _, _, _, _, _. split; [done|]. split; [done|]. split; [by exists log|]. split; [done|]. intros _. split; [done|]. exists outs. split; [done|]. intros Hp.
    assert (Invalid r reason = Valid) as Hbad; [|done]. apply Hv. eapply Forall_impl; [exact Hall|]. intros c0 (k & i & o & -> & _ & Ho). by eapply Hp.
Qed.

(** C4: [CheckInputScripts] of a transaction that is not a coinbase and whose inputs are all in the set of coins,
    checked for a block or by the mempool, with or without threads, always comes to a verdict.  If that is
    [Valid] and the checks it leaves to the caller pass, then the scripts of all inputs verify, even when they
    were only found in the cache of earlier executions, unless SHA-256 has confused two entries of that cache; and
    the cache goes on holding nothing but executions that succeeded. *)
Theorem CheckInputScripts_correct `{Pubkey.Secp256k1} verifier junk {E} `{ForgetfulSet E (list Z)} {S} {V : CoinsView S} usage
    (u : COutPoint -> option Coin) coin_at nonce log (ec : exec_cache) (c : @CCoinsViewCache S) tx flags sigStore fullStore parallel :
  length junk = 64%nat ->
  (forall store sig key h, length sig = 64%nat -> is_Some (@VerifySchnorrSignature (verifier store) sig key h)) ->
  exec_ok verifier junk coin_at nonce log ec -> BlockCoins.holds usage c u ->
  (forall o x, u o = Some x -> coin_at o = Some (out x) /\ output_bytes (out x)) ->
  wire_ok tx -> Forall input_bytes (vin tx) -> IsCoinBase tx = false -> vin tx <> [] -> (forall i, i ∈ vin tx -> is_Some (u (prevout i))) ->
  consistent flags -> in_u 32 flags ->
  exists v checks c' td' ec', CheckInputScripts usage verifier junk tx c flags sigStore fullStore PrecomputedTransactionData_init parallel ec =
      Some (v, checks, c', td', ec') /\ BlockCoins.holds usage c' u /\
    (exists log', log ⊆ log' /\ exec_ok verifier junk coin_at nonce log' ec') /\
    (v = Valid -> Forall (passed verifier junk) checks ->
      (exists outs, spends coin_at tx outs /\ scripts_ok verifier junk tx outs flags) \/ exec_confused nonce log (tx, flags)) /\
    (v <> Valid -> parallel = false /\ exists outs, spends coin_at tx outs /\ ~ forall td k o, Init PrecomputedTransactionData_init tx outs false = Some td ->
      outs !! k = Some o -> passed verifier junk (mkScriptCheck o tx k flags sigStore td)).
Proof.
  intros Hj Hver Hec Hc Hat Hw Hib Hcb Hne Hin Hcons Hfl.
  destruct (CheckInputScripts_spec verifier junk usage u coin_at nonce log ec c tx flags sigStore fullStore parallel Hj Hver Hec Hc Hat Hw Hib Hcb Hne Hin Hcons Hfl)
    as (v & checks & c' & td' & ec' & HE & Hc' & (log' & Hl & _ & Hok) & H1 & H2).
  exists v, checks, c', td', ec'. split; [exact HE|]. split; [done|]. split; [by exists log'|]. by split.
Qed.

(** A transaction that spends a coin anyone can spend. *)
Definition spending_tx : CTransaction := mkTx [mkTxIn (mkOutPoint (replicate 32 7) 1) [] 0 []] [mkTxOut 5000000 [OP_1]] 1 1600000001 0.
Definition empty_execs : @exec_cache (CuckooCache.cache (list Z)) :=
  mkExecCache (script_hasher (replicate 64 0) (replicate 32 5)) (CuckooCache.setup (Blob.null 32) Z.log2 CuckooCache.cache_init 2).1.
#[local] Abbreviation plain_verifier := (fun _ : bool => @generic_verifier Pubkey.plain_secp).
Definition one_output (o : COutPoint) : option CTxOut := out <$> TxVerify.rich_set o.

Lemma empty_execs_ok coin_at : @exec_ok Pubkey.plain_secp plain_verifier (replicate 64 0) _ SigCache.signature_set coin_at (replicate 32 5) [] empty_execs.
Proof.
  destruct (CuckooTheory.setup_valid (Blob.null 32) SigCache.SignatureCacheHasher Z.log2 2) as (Hv & _ & He & _); [lia|lia|].
  split; [done|exact Hv| |by intros q ?%not_elem_of_nil]. intros e Hin. left. by apply He.
Qed.

Lemma CheckInputScripts_correct_witness :
  exists v checks c' td' ec', @CheckInputScripts _ _ CoinsMachine.script_usage _ SigCache.signature_set Pubkey.plain_secp plain_verifier (replicate 64 0) spending_tx TxVerify.rich_cache
      SCRIPT_VERIFY_P2SH true true PrecomputedTransactionData_init false empty_execs = Some (v, checks, c', td', ec') /\ BlockCoins.holds CoinsMachine.script_usage c' TxVerify.rich_set.
Proof.
  destruct (@CheckInputScripts_correct Pubkey.plain_secp plain_verifier (replicate 64 0) _ SigCache.signature_set _ _ CoinsMachine.script_usage TxVerify.rich_set one_output (replicate 32 5) []
    empty_execs TxVerify.rich_cache spending_tx SCRIPT_VERIFY_P2SH true true false) as (v & checks & c' & td' & ec' & E & Hc & _).
  - done.
  - intros store sig key h Hs. cbn. unfold Pubkey.VerifySchnorr. rewrite Hs. eauto.
  - apply empty_execs_ok.
  - apply TxVerify.rich_holds.
  - intros o x Hx. unfold one_output. rewrite Hx. split; [done|]. unfold TxVerify.rich_set in Hx. case_decide; [|done]. injection Hx as <-. split; [cbn; lia|]. by apply bytes_check.
  - repeat split; cbn; try (unfold in_s, in_u, MAX_SIZE; lia); repeat constructor; cbn; try (unfold in_s, in_u, MAX_SIZE; lia); try done; repeat constructor; by vm_compute.
  - apply Forall_singleton. split; [by apply bytes_check|]. split; [constructor|cbn; lia].
  - done.
  - done.
  - intros i [->|?%not_elem_of_nil]%elem_of_cons; [|done]. by eexists.
  - split; vm_compute; done.
  - vm_compute. done.
  - eauto 10.
Defined.

(** ** The rules of the mempool and those of a block *)

(** A pay-to-taproot output. *)
Definition taproot_output : list Z := OP_1 :: 32 :: replicate 32 7.


End InputTheory.
