(* ===== verification/ScriptPatterns.v ===== *)
(** * What the usual scripts check

    [OP_CHECKMULTISIG] finds the signatures among the keys in order. *)
From stdpp Require Import prelude.
From S2P Require Import Prelude Serialize Uint256 HashStream Fips180 Sha2Theory Sha256 Sha256Theory Sha1 Ripemd160 Hash Script SigOps Locks Interp InterpTheory.

Module ScriptPatterns.
Import Script Interp InterpTheory.

(** ** Multisignatures *)

(** Each signature is valid for a key of its own, the keys in the order of the signatures. *)
Definition signed_in_order (valid : list Z -> list Z -> Prop) (sigs keys : list (list Z)) : Prop :=
  exists ks, ks `sublist_of` keys /\ Forall2 valid sigs ks.

Lemma signed_nil valid keys : signed_in_order valid [] keys.
Proof. exists []. split; [apply sublist_nil_l|constructor]. Qed.

Lemma signed_short valid sigs keys : (length keys < length sigs)%nat -> ~ signed_in_order valid sigs keys.
Proof. intros Hl (ks & Hs & Hf). apply sublist_length in Hs. apply Forall2_length in Hf. lia. Qed.

(** Trying the keys in order loses nothing. *)
Lemma signed_cons valid sig sigs key keys `{Hd : Decision (valid sig key)} :
  signed_in_order valid (sig :: sigs) (key :: keys) <-> signed_in_order valid (if decide (valid sig key) then sigs else sig :: sigs) keys.
Proof.
  split.
  - intros (ks & Hs & Hf). inversion Hf as [|? k ? ks' Hk Hf']; subst. apply sublist_cons_r in Hs as [Hs|(? & [= <- <-] & Hs)].
    + case_decide; [|by eexists]. exists ks'. split; [|done]. etrans; [|exact Hs]. by apply sublist_cons.
    + rewrite decide_True by done. by eexists.
  - case_decide as Hv; intros (ks & Hs & Hf).
    + exists (key :: ks). split; [by constructor|by constructor].
    + exists ks. split; [by constructor|done].
Qed.

Section MultiSig.
Context {checker : BaseSignatureChecker} (CheckLowS : list Z -> bool) (flags : Z) (sigversion : SigVersion).

Definition valid_for (code sig key : list Z) : Prop := CheckECDSASignature sig key code sigversion = Some true.
#[local] Instance valid_for_dec code sig key : Decision (valid_for code sig key).
Proof. unfold valid_for. apply _. Defined.

Lemma multisig_loop_spec code keys sigs :
  (length sigs <= length keys)%nat ->
  (forall sig, sig ∈ sigs -> CheckSignatureEncoding CheckLowS flags sig = Ok ()) ->
  (forall key, key ∈ keys -> CheckPubKeyEncoding flags sigversion key = Ok ()) ->
  (forall sig key, is_Some (CheckECDSASignature sig key code sigversion)) ->
  exists b : bool, multisig_loop CheckLowS flags sigversion code keys sigs = Ok b /\ (b = true <-> signed_in_order (valid_for code) sigs keys).
Proof.
  intros Hl Hs Hk Ha. revert sigs Hl Hs. induction keys as [|key keys IH]; intros sigs Hl Hs.
  { destruct sigs; [|cbn in Hl; lia]. exists true. split; [done|]. split; [intros _; apply signed_nil|done]. }
  destruct sigs as [|sig sigs]; [exists true; split; [done|]; split; [intros _; apply signed_nil|done]|]. cbn [multisig_loop].
  rewrite Hs, Hk by left. cbn [mbind outcome_bind]. pose proof (Ha sig key) as [b Hb]. rewrite Hb. cbn [assert_some mbind outcome_bind].
  set (l := if b then sigs else sig :: sigs). assert (signed_in_order (valid_for code) (sig :: sigs) (key :: keys) <-> signed_in_order (valid_for code) l keys) as Hiff.
  { rewrite signed_cons. subst l. destruct b; [by rewrite decide_True by exact Hb|rewrite decide_False by (unfold valid_for; congruence); done]. }
  setoid_rewrite Hiff.
  case_if. { exists false. split; [done|]. split; [done|]. intros H. exfalso. by apply signed_short in H; [|lia]. }
  apply IH; [intros; apply Hk; by right|lia|]. intros x Hx. apply Hs. subst l. destruct b; [by right|done].
Qed.

Lemma cleanup_spec n i b (s : list (list Z)) :
  (n <= length s)%nat ->
  cleanup flags n i b s =
    if negb b && has_flag flags SCRIPT_VERIFY_NULLFAIL && existsb (fun x => negb (length x =? 0)%nat) (drop i (take n s))
    then set_error SCRIPT_ERR_SIG_NULLFAIL else Ok (drop n s).
Proof.
  revert i s. induction n as [|n IH]; intros i s Hl; cbn [cleanup]; [rewrite take_0, drop_nil; by rewrite andb_false_r|].
  destruct s as [|x s]; [cbn in Hl; lia|]. cbn [length] in Hl. cbn [take]. rewrite IH by lia.
  destruct i as [|i]; cbn [drop pred Nat.eqb existsb]; [|by rewrite andb_false_r].
  destruct (negb b && has_flag flags SCRIPT_VERIFY_NULLFAIL); cbn [andb]; [|done]. by destruct (negb (length x =? 0)%nat).
Qed.

Definition multisig_result (verify b : bool) (sigs : list (list Z)) (dummy : list Z) (st : eval_state) (rest : list (list Z)) : outcome eval_state :=
  if negb b && has_flag flags SCRIPT_VERIFY_NULLFAIL && existsb (fun x => negb (length x =? 0)%nat) sigs then set_error SCRIPT_ERR_SIG_NULLFAIL
  else if has_flag flags SCRIPT_VERIFY_NULLDUMMY && negb (length dummy =? 0)%nat then set_error SCRIPT_ERR_SIG_NULLDUMMY
  else if verify then if b then Ok (with_stack st rest) else set_error SCRIPT_ERR_CHECKMULTISIGVERIFY
  else Ok (with_stack st (of_bool b :: rest)).

(** C21: [OP_CHECKMULTISIG] of m signatures and n keys answers whether there are m of the keys, in their order, for which
    the signatures are valid one by one, although it tries each key once and never goes back; then it has removed
    its arguments and one item more, which with [SCRIPT_VERIFY_NULLDUMMY] has to be empty, as with
    [SCRIPT_VERIFY_NULLFAIL] all signatures have to be when it answers no. *)
Theorem op_checkmultisig_spec verify st kc sc keys sigs dummy rest code :
  stack st = kc :: keys ++ sc :: sigs ++ dummy :: rest ->
  sigversion <> TAPSCRIPT ->
  number flags kc = Ok (Z.of_nat (length keys)) -> number flags sc = Ok (Z.of_nat (length sigs)) ->
  (length sigs <= length keys)%nat -> length keys <= MAX_PUBKEYS_PER_MULTISIG -> nOpCount st + length keys <= MAX_OPS_PER_SCRIPT ->
  drop_signatures flags sigversion (pbegincodehash st) sigs = Ok code ->
  (forall sig, sig ∈ sigs -> CheckSignatureEncoding CheckLowS flags sig = Ok ()) ->
  (forall key, key ∈ keys -> CheckPubKeyEncoding flags sigversion key = Ok ()) ->
  (forall sig key, is_Some (CheckECDSASignature sig key code sigversion)) ->
  exists b : bool,
    op_checkmultisig CheckLowS flags sigversion verify st = multisig_result verify b sigs dummy (with_count st (nOpCount st + length keys)) rest /\
    (b = true <-> signed_in_order (valid_for code) sigs keys).
Proof.
  intros Hst Hv Hkc Hsc Hl Hmax Hops Hd Hs Hk Ha. destruct (multisig_loop_spec code keys sigs Hl Hs Hk Ha) as (b & Hloop & Hb).
  exists b. split; [|done]. unfold op_checkmultisig. rewrite bool_decide_eq_false_2 by done. rewrite Hst.
  set (s := kc :: keys ++ sc :: sigs ++ dummy :: rest).
  assert (length s = (3 + length keys + length sigs + length rest)%nat) as Hlen by (subst s; cbn [length]; rewrite !length_app; cbn [length]; rewrite length_app; cbn [length]; lia).
  assert (s !! 0%nat = Some kc) as -> by done. assert (s !! (length keys + 1)%nat = Some sc) as Hsc'.
  { rewrite Nat.add_1_r. change (s !! S (length keys)) with ((keys ++ sc :: sigs ++ dummy :: rest) !! length keys). by rewrite lookup_app_r, Nat.sub_diag by lia. }
  assert (forall n : nat, n <= 20 -> getint n = n) as Hg by (intros n Hn; unfold getint, int_max, int_min; rewrite !(proj2 (Z.ltb_ge _ _)) by lia; done).
  unfold MAX_PUBKEYS_PER_MULTISIG, MAX_OPS_PER_SCRIPT in *. rewrite (proj2 (Nat.ltb_ge _ _)) by lia. unfold default, from_option, id. rewrite Hkc. cbn [mbind outcome_bind nOpCount with_count].
  rewrite !Hg by lia. rewrite Nat2Z.id, Hsc'. rewrite Hsc. cbn [mbind outcome_bind]. rewrite Hg by lia. rewrite Nat2Z.id.
  rewrite !(proj2 (Z.ltb_ge _ _)) by lia. cbn [orb pbegincodehash with_count].
  assert (take (length keys) (drop 1 s) = keys) as -> by (apply take_app_length).
  assert (drop (length keys + 2) s = sigs ++ dummy :: rest) as Hdrop.
  { subst s. rewrite (Nat.add_comm _ 2). cbn [drop Nat.add]. change (sc :: sigs ++ dummy :: rest) with ([sc] ++ (sigs ++ dummy :: rest)). rewrite app_assoc.
    apply drop_app_length'. rewrite length_app. cbn [length]. lia. }
  rewrite Hdrop, take_app_length, Hd. cbn [mbind outcome_bind]. rewrite Hloop. cbn [mbind outcome_bind].
  rewrite cleanup_spec by lia. rewrite skipn_firstn_comm, Hdrop. replace (length keys + length sigs + 2 - (length keys + 2))%nat with (length sigs) by lia.
  rewrite take_app_length. replace (drop (length keys + length sigs + 2) s) with (dummy :: rest).
  - unfold multisig_result. by destruct (negb b && has_flag flags SCRIPT_VERIFY_NULLFAIL && existsb _ sigs).
  - replace (length keys + length sigs + 2)%nat with (length keys + 2 + length sigs)%nat by lia. by rewrite <- drop_drop, Hdrop, drop_app_length.
Qed.

End MultiSig.

(** A checker to which a key is the signature it accepts. *)
Definition key_checker : BaseSignatureChecker := {|
  CheckECDSASignature sig key _ _ := Some (bool_decide (sig = key));
  CheckSchnorrSignature _ _ _ _ := Fail None;
  CheckLockTime _ := Some false;
  CheckSequence _ := Some false
|}.
Definition two_of_three : eval_state :=
  mkEval ([3] :: [[2]; [7]; [1]] ++ [2] :: [[2]; [1]] ++ [] :: []) [] [] [OP_CHECKMULTISIG] ConditionStack_init 0 0 ScriptExecutionData_init.

Lemma op_checkmultisig_spec_witness :
  exists b : bool,
    op_checkmultisig (checker := key_checker) (fun _ => true) 0 BASE false two_of_three =
      multisig_result 0 false b [[2]; [1]] [] (with_count two_of_three 3) [] /\
    (b = true <-> signed_in_order (valid_for (checker := key_checker) BASE [OP_CHECKMULTISIG]) [[2]; [1]] [[2]; [7]; [1]]).
Proof.
  apply (op_checkmultisig_spec (checker := key_checker) (fun _ => true) 0 BASE false two_of_three [3] [2] [[2]; [7]; [1]] [[2]; [1]] [] [] [OP_CHECKMULTISIG]);
    try reflexivity; try discriminate; try (cbn; lia).
  - intros sig [->|[->|[]%elem_of_nil]%elem_of_cons]%elem_of_cons; reflexivity.
  - intros sig key. by eexists.
Defined.

End ScriptPatterns.
