(* ===== verification/Stake.v ===== *)
(** * Proof of stake of a block ([kernel.cpp], [validation.cpp])

    [CheckProofOfStake] and [NowpContextualBlockChecks]: the kernel of a
    coinstake and its signature, the set of stakes seen, and what is written to
    the index entry of a block: entropy bit, stake modifier and checksum. *)
From stdpp Require Import prelude gmap strings.
From S2P Require Import Prelude ArithUint256 Uint256 Chain ChainTheory BigNum Params Kernel Serialize Transaction Coins TxCheck Script BlockCheck Interp Pubkey Sighash VerifyScript.

Module Stake.
Import Transaction TxCheck BlockCheck Script Interp Sighash VerifyScript.

(** ** Definitions *)

Definition NORMAL_SERIALIZE_SIZE : Z := 80.

#[export] Instance index_outpoint_eq_dec : EqDecision Chain.COutPoint.
Proof. solve_decision. Defined.

(** What is written to an index entry. *)
Definition set_hashProofOfStake (b : CBlockIndex) (x : list Z) : CBlockIndex := {|
  Chain.phashBlock := Chain.phashBlock b; Chain.pprev := Chain.pprev b; Chain.pskip := Chain.pskip b; Chain.nHeight := Chain.nHeight b;
  Chain.nFile := Chain.nFile b; Chain.nDataPos := Chain.nDataPos b; Chain.nUndoPos := Chain.nUndoPos b; Chain.nChainTrust := Chain.nChainTrust b;
  Chain.nTx := Chain.nTx b; Chain.nChainTx := Chain.nChainTx b; Chain.nStatus := Chain.nStatus b; Chain.nVersion := Chain.nVersion b;
  Chain.hashMerkleRoot := Chain.hashMerkleRoot b; Chain.nTime := Chain.nTime b; Chain.nBits := Chain.nBits b; Chain.nNonce := Chain.nNonce b;
  Chain.nSequenceId := Chain.nSequenceId b; Chain.nTimeMax := Chain.nTimeMax b; Chain.nMint := Chain.nMint b;
  Chain.nMoneySupply := Chain.nMoneySupply b; Chain.nFlags := Chain.nFlags b; Chain.nStakeModifier := Chain.nStakeModifier b;
  Chain.nStakeModifierChecksum := Chain.nStakeModifierChecksum b; Chain.prevoutStake := Chain.prevoutStake b;
  Chain.nStakeTime := Chain.nStakeTime b; Chain.hashProofOfStake := x |}.
Definition set_stake (b : CBlockIndex) (o : Chain.COutPoint) (t : Z) : CBlockIndex := {|
  Chain.phashBlock := Chain.phashBlock b; Chain.pprev := Chain.pprev b; Chain.pskip := Chain.pskip b; Chain.nHeight := Chain.nHeight b;
  Chain.nFile := Chain.nFile b; Chain.nDataPos := Chain.nDataPos b; Chain.nUndoPos := Chain.nUndoPos b; Chain.nChainTrust := Chain.nChainTrust b;
  Chain.nTx := Chain.nTx b; Chain.nChainTx := Chain.nChainTx b; Chain.nStatus := Chain.nStatus b; Chain.nVersion := Chain.nVersion b;
  Chain.hashMerkleRoot := Chain.hashMerkleRoot b; Chain.nTime := Chain.nTime b; Chain.nBits := Chain.nBits b; Chain.nNonce := Chain.nNonce b;
  Chain.nSequenceId := Chain.nSequenceId b; Chain.nTimeMax := Chain.nTimeMax b; Chain.nMint := Chain.nMint b;
  Chain.nMoneySupply := Chain.nMoneySupply b; Chain.nFlags := Chain.nFlags b; Chain.nStakeModifier := Chain.nStakeModifier b;
  Chain.nStakeModifierChecksum := Chain.nStakeModifierChecksum b; Chain.prevoutStake := o;
  Chain.nStakeTime := t; Chain.hashProofOfStake := Chain.hashProofOfStake b |}.
Definition set_checksum (b : CBlockIndex) (x : Z) : CBlockIndex := {|
  Chain.phashBlock := Chain.phashBlock b; Chain.pprev := Chain.pprev b; Chain.pskip := Chain.pskip b; Chain.nHeight := Chain.nHeight b;
  Chain.nFile := Chain.nFile b; Chain.nDataPos := Chain.nDataPos b; Chain.nUndoPos := Chain.nUndoPos b; Chain.nChainTrust := Chain.nChainTrust b;
  Chain.nTx := Chain.nTx b; Chain.nChainTx := Chain.nChainTx b; Chain.nStatus := Chain.nStatus b; Chain.nVersion := Chain.nVersion b;
  Chain.hashMerkleRoot := Chain.hashMerkleRoot b; Chain.nTime := Chain.nTime b; Chain.nBits := Chain.nBits b; Chain.nNonce := Chain.nNonce b;
  Chain.nSequenceId := Chain.nSequenceId b; Chain.nTimeMax := Chain.nTimeMax b; Chain.nMint := Chain.nMint b;
  Chain.nMoneySupply := Chain.nMoneySupply b; Chain.nFlags := Chain.nFlags b; Chain.nStakeModifier := Chain.nStakeModifier b;
  Chain.nStakeModifierChecksum := x; Chain.prevoutStake := Chain.prevoutStake b;
  Chain.nStakeTime := Chain.nStakeTime b; Chain.hashProofOfStake := Chain.hashProofOfStake b |}.

Section Code.
(** [FindTx] is the position of a transaction in the transaction index, with the
    header of its block and the transaction itself, from the cache or from disk;
    [InvalidateBlock] is what the index is after that function; [GetRand] is the
    shuffle and [junk] what the buffers of hashers hold. *)
Context `{!BN} `{Pubkey.Secp256k1} (junk : list Z) (GetHash : CTransaction -> list Z).
Context (g_txindex : bool) (FindTx : list Z -> option (Z * CBlockHeader * CTransaction)).
Context (GetRand : nat -> nat) (InvalidateBlock : Chain.heap -> Chain.ptr -> Chain.heap).
Context (params : Params) (hashGenesisBlock : list Z) (testnet : bool) (m_block_index : gmap (list Z) Chain.ptr).

Definition stake_error (reason : string) : block_verdict := BlockInvalid BLOCK_CONSENSUS reason.

(** The result, the state and [hashProofOfStake]; [None] is a failed assertion
    or a read outside of a vector. *)
Definition CheckProofOfStake (h : Chain.heap) (pindexPrev : Chain.ptr) (tx : CTransaction) (nBits nTimeTx : Z) :
    option (bool * block_verdict * list Z) :=
  let null := Blob.null 32 in
  if negb (IsCoinStake tx) then Some (false, BlockValid, null)
  else
    txin ← vin tx !! 0%nat;
    if negb g_txindex then Some (false, BlockValid, null)
    else
      match FindTx (hash (prevout txin)) with
      | None => Some (false, BlockValid, null)
      | Some (nTxOffset, header, txPrev) =>
          if bool_decide (GetHash txPrev <> hash (prevout txin)) then Some (false, BlockValid, null)
          else
            prevOut ← vout txPrev !! Z.to_nat (n (prevout txin));
            txdata ← Init PrecomputedTransactionData_init tx [] false;
            match
              VerifyScript (checker := @TransactionSignatureChecker generic_verifier tx FAIL 0 (nValue prevOut) (Some txdata))
                junk SCRIPT_VERIFY_P2SH (scriptSig txin) (scriptPubKey prevOut) (rev (scriptWitness txin))
            with
            | Abort => None
            | Fail _ => Some (false, stake_error "invalid-pos-script", null)
            | Ok _ =>
                '(ok, proof) ← Kernel.CheckStakeKernelHash SerializeHash h params nBits pindexPrev (CBlockHeader_GetHash header) (hTime header)
                                 (u32 (nTxOffset + NORMAL_SERIALIZE_SIZE)) (nTime txPrev) (map nValue (vout txPrev)) (n (prevout txin)) nTimeTx;
                Some (if (ok : bool) then (true, BlockValid, default null proof) else (false, stake_error "check-kernel-failed", default null proof))
            end
      end.

(** The stakes that were seen, the index, and its entries to be written. *)
Record stake_state := mkStake {
  index : Chain.heap;
  setStakeSeen : gset (COutPoint * Z);
  m_dirty_blockindex : gset Chain.ptr
}.

(** The entry with entropy bit, modifier and proof. *)
Definition stake_fields (b : CBlockIndex) (nEntropyBit nStakeModifier : Z) (fGenerated : bool) : option CBlockIndex :=
  let '(ok, b) := Chain.SetStakeEntropyBit b nEntropyBit in
  if (ok : bool) then Some (Chain.SetStakeModifier b nStakeModifier fGenerated) else None.

(** The checksum is computed with the fields set; they are put back afterwards.
    [None] is an access through a null pointer or a failed assertion. *)
Definition NowpContextualBlockChecks (block : CBlock) (pindex : Chain.ptr) (fJustCheck : bool) (st : stake_state) :
    option (bool * block_verdict * stake_state) :=
  let h := index st in
  b ← h !! pindex;
  '(ok, verdict, hashProofOfStake) ←
    (match vtx block with
     | _ :: tx :: _ =>
         if IsCoinStake tx then
           pindexPrev ← Chain.pprev b;
           CheckProofOfStake h pindexPrev tx (nBits (header block)) (if negb (nTime tx =? 0) then nTime tx else hTime (header block))
         else Some (true, BlockValid, Blob.null 32)
     | _ => Some (true, BlockValid, Blob.null 32)
     end);
  if negb (ok : bool) then Some (false, verdict, st)
  else
    let '(o, t) := GetProofOfStake block in
    if IsProofOfStake block && Chain.IsProofOfStake b && bool_decide (Chain.mkOutPoint (hash o) (n o) = Chain.prevoutStake b) then
      Some (false, verdict, mkStake (InvalidateBlock h pindex) (setStakeSeen st) (m_dirty_blockindex st))
    else if IsProofOfStake block && bool_decide ((o, t) ∈ setStakeSeen st) then Some (false, verdict, st)
    else
      let nEntropyBit := Kernel.GetStakeEntropyBit_block (CBlockHeader_GetHash (header block)) in
      r ← Kernel.ComputeNextStakeModifier SerializeHash GetRand h m_block_index params pindex;
      match (r : option (Z * bool)) with
      | None => Some (false, verdict, st)
      | Some (nStakeModifier, fGeneratedStakeModifier) =>
          match stake_fields b nEntropyBit nStakeModifier fGeneratedStakeModifier with
          | None => Some (false, verdict, st)
          | Some b1 =>
              nStakeModifierChecksum ←
                Kernel.GetStakeModifierChecksum SerializeHash (<[pindex := set_hashProofOfStake b1 hashProofOfStake]> h) hashGenesisBlock pindex;
              if negb (Kernel.CheckStakeModifierCheckpoints testnet (Chain.nHeight b) nStakeModifierChecksum) then Some (false, verdict, st)
              else if fJustCheck then Some (true, verdict, st)
              else
                let b := if IsProofOfStake block then set_hashProofOfStake (set_stake b (Chain.mkOutPoint (hash o) (n o)) t) hashProofOfStake else b in
                let seen := if IsProofOfStake block then {[ (o, Chain.nTime b) ]} ∪ setStakeSeen st else setStakeSeen st in
                match stake_fields b nEntropyBit nStakeModifier fGeneratedStakeModifier with
                | None => Some (false, verdict, mkStake (<[pindex := b]> h) seen (m_dirty_blockindex st))
                | Some b => Some (true, verdict, mkStake (<[pindex := set_checksum b nStakeModifierChecksum]> h) seen ({[ pindex ]} ∪ m_dirty_blockindex st))
                end
          end
      end.

End Code.

(** ** What the checks write *)

(** Two entries at the same place in the chain. *)
Definition same_place (b b' : CBlockIndex) : Prop :=
  Chain.phashBlock b' = Chain.phashBlock b /\ Chain.pprev b' = Chain.pprev b /\ Chain.pskip b' = Chain.pskip b /\ Chain.nHeight b' = Chain.nHeight b /\
  Chain.nTime b' = Chain.nTime b /\ Chain.nChainTrust b' = Chain.nChainTrust b /\ Chain.nStatus b' = Chain.nStatus b.

Lemma same_place_trans b b1 b2 : same_place b b1 -> same_place b b2 -> same_place b1 b2.
Proof. unfold same_place. intuition congruence. Qed.

Lemma stake_fields_spec b bit m g b' : stake_fields b bit m g = Some b' ->
  same_place b b' /\ Chain.prevoutStake b' = Chain.prevoutStake b /\ Chain.hashProofOfStake b' = Chain.hashProofOfStake b.
Proof. unfold stake_fields, Chain.SetStakeEntropyBit, Chain.SetStakeModifier. repeat case_if; intros [= <-]; done. Qed.

(** The checksum depends on flags, modifier and proof, and on the entry before. *)
Lemma checksum_ext Hash (h : Chain.heap) genesis p b b' x :
  Chain.pprev b <> Some p -> same_place b b' -> Chain.nFlags b' = Chain.nFlags b -> Chain.hashProofOfStake b' = Chain.hashProofOfStake b ->
  Chain.nStakeModifier b' = Chain.nStakeModifier b ->
  Kernel.GetStakeModifierChecksum Hash (<[p := b]> h) genesis p = Some x -> Kernel.GetStakeModifierChecksum Hash (<[p := b']> h) genesis p = Some x.
Proof.
  intros Hp (Eh & Ep & _) Ef Eproof Em. unfold Kernel.GetStakeModifierChecksum. rewrite !lookup_insert_eq, !bind_some. unfold Chain.GetBlockHash. rewrite Eh, Ep, Ef, Eproof, Em.
  destruct (Chain.pprev b) as [q|]; [|done]. assert (q <> p) by congruence. by rewrite !lookup_insert_ne by done.
Qed.

(** The fields are set the same way twice. *)
Lemma stake_fields_twice b b0 bit m g b1 :
  same_place b b0 -> Chain.nFlags b0 = Chain.nFlags b -> stake_fields b bit m g = Some b1 ->
  exists b2, stake_fields b0 bit m g = Some b2 /\ same_place b b2 /\ Chain.nFlags b2 = Chain.nFlags b1 /\ Chain.nStakeModifier b2 = Chain.nStakeModifier b1 /\
    Chain.hashProofOfStake b2 = Chain.hashProofOfStake b0 /\ Chain.prevoutStake b2 = Chain.prevoutStake b0.
Proof.
  intros (E1 & E2 & E3 & E4 & E5 & E6 & E7) Ef. unfold stake_fields, Chain.SetStakeEntropyBit, Chain.SetStakeModifier. case_if; [done|]. intros [= <-].
  eexists. split; [done|]. unfold same_place. destruct g; cbn; rewrite ?Ef; repeat split; done.
Qed.

Lemma contextual_checks_spec `{!BN} `{Pubkey.Secp256k1} junk GetHash g_txindex FindTx GetRand InvalidateBlock params genesis testnet idx
    block p b fJustCheck st ok v st' :
  index st !! p = Some b ->
  NowpContextualBlockChecks junk GetHash g_txindex FindTx GetRand InvalidateBlock params genesis testnet idx block p fJustCheck st = Some (ok, v, st') ->
  (ok = false -> st' = st \/ index st' = InvalidateBlock (index st) p /\ setStakeSeen st' = setStakeSeen st) /\
  (ok = true -> fJustCheck = true -> st' = st) /\
  (ok = true -> fJustCheck = false -> exists b', index st' = <[p := b']> (index st) /\ same_place b b' /\
     (Chain.pprev b <> Some p -> (IsProofOfStake block = false -> Chain.hashProofOfStake b = Blob.null 32) ->
      Kernel.GetStakeModifierChecksum SerializeHash (index st') genesis p = Some (Chain.nStakeModifierChecksum b')) /\
     setStakeSeen st' = (if IsProofOfStake block then {[ ((GetProofOfStake block).1, Chain.nTime b) ]} else ∅) ∪ setStakeSeen st) /\
  (ok = true -> IsProofOfStake block = true -> GetProofOfStake block ∉ setStakeSeen st).
Proof.
  intros Hb. unfold NowpContextualBlockChecks. rewrite Hb, bind_some.
  match goal with |- context [mbind _ ?m] => destruct m as [[[ok1 v1] proof]|] eqn:Eck; [|done] end. rewrite bind_some.
  destruct ok1; cbn [negb]; [|intros [= <- <- <-]; repeat split; auto; done]. destruct (GetProofOfStake block) as [o t] eqn:Eo. cbn [fst].
  destruct (IsProofOfStake block && Chain.IsProofOfStake b && _) eqn:E1; [intros [= <- <- <-]; repeat split; auto; done|].
  destruct (IsProofOfStake block && bool_decide _) eqn:E2; [intros [= <- <- <-]; repeat split; auto; done|].
  assert (IsProofOfStake block = true -> (o, t) ∉ setStakeSeen st) as Hseen.
  { intros Hs. rewrite Hs in E2. cbn [andb] in E2. by apply bool_decide_eq_false in E2. }
  destruct (Kernel.ComputeNextStakeModifier _ _ _ _ _ _) as [[[m g]|]|]; [|intros [= <- <- <-]; repeat split; auto; done|done]. rewrite bind_some.
  destruct (stake_fields b _ m g) as [b1|] eqn:Eb1; [|intros [= <- <- <-]; repeat split; auto; done].
  destruct (Kernel.GetStakeModifierChecksum _ _ _ _) as [x|] eqn:Ex; [|done]. rewrite bind_some.
  case_if; [intros [= <- <- <-]; repeat split; auto; done|]. destruct fJustCheck; [intros [= <- <- <-]; repeat split; auto; done|].
  set (b0 := if IsProofOfStake block then _ else b).
  assert (same_place b b0 /\ Chain.nFlags b0 = Chain.nFlags b /\ Chain.nTime b0 = Chain.nTime b) as (Hs0 & Hf0 & Ht0) by (subst b0; by destruct (IsProofOfStake block)).
  destruct (stake_fields_twice b b0 _ m g b1 Hs0 Hf0 Eb1) as (b2 & -> & Hs2 & Hf2 & Hm2 & Hp2 & _). destruct (stake_fields_spec _ _ _ _ _ Eb1) as (Hs1 & _ & Hp1).
  intros [= <- <- <-]. split; [done|]. split; [done|]. split; [|by intros _]. intros _ _. eexists. cbn [index setStakeSeen]. split; [done|]. split; [exact Hs2|].
  split; [|rewrite Ht0; destruct (IsProofOfStake block); [done|by rewrite union_empty_l_L]].
  intros Hpp Hproof. eapply checksum_ext; [| | | | |exact Ex]; cbn; [by rewrite (proj1 (proj2 Hs1))|by eapply same_place_trans|done| |done].
  rewrite Hp2. subst b0. destruct (IsProofOfStake block) eqn:Eps; [done|]. rewrite Hproof by done.
  unfold IsProofOfStake in Eps. destruct (vtx block) as [|? [|? ?]]; [by injection Eck|by injection Eck|]. rewrite Eps in Eck. by injection Eck.
Qed.



(** C26: The output that a coinstake names is read from the transaction that made it before anything else is known of it:
    an index past the last output is a read outside of the vector. *)
Theorem CheckProofOfStake_unchecked_index `{!BN} `{Pubkey.Secp256k1} junk GetHash FindTx params h pindexPrev tx txin rest nBits nTimeTx offset header txPrev :
  IsCoinStake tx = true -> vin tx = txin :: rest -> FindTx (hash (prevout txin)) = Some (offset, header, txPrev) -> GetHash txPrev = hash (prevout txin) ->
  length (vout txPrev) <= n (prevout txin) ->
  CheckProofOfStake junk GetHash true FindTx params h pindexPrev tx nBits nTimeTx = None.
Proof.
  intros Hcs Hin Hf Hh Hn. unfold CheckProofOfStake. rewrite Hcs, Hin. cbn [negb lookup list_lookup mbind option_bind]. rewrite Hf, bool_decide_eq_false_2 by (by intros []).
  rewrite lookup_ge_None_2 by lia. done.
Qed.

(** ** A chain of two blocks, and a third with a stake *)

Definition stake_prev : CTransaction := mkTx [] [mkTxOut 100000000000000 [OP_1]] 3 0 0.
Definition stake_tx : CTransaction := mkTx [mkTxIn (mkOutPoint (repeat 6 32) 0) [] 0 []] [mkTxOut 0 []; mkTxOut 100000000000000 [OP_1]] 3 0 0.
Definition stake_block (t : Z) : CBlock := mkBlock (mkHeader 4 (repeat 2 32) (repeat 0 32) t 0x2000ffff 0 0) [mkTx [] [] 3 0 0; stake_tx] [].
Definition stake_entry (prev : option Chain.ptr) (height t flags : Z) : CBlockIndex := {|
  Chain.phashBlock := repeat height 32; Chain.pprev := prev; Chain.pskip := None; Chain.nHeight := height; Chain.nFile := 0; Chain.nDataPos := 0;
  Chain.nUndoPos := 0; Chain.nChainTrust := BaseUint.zero 8; Chain.nTx := 0; Chain.nChainTx := 0; Chain.nStatus := 0;
  Chain.nVersion := 0; Chain.hashMerkleRoot := Blob.null 32; Chain.nTime := t; Chain.nBits := 0; Chain.nNonce := 0;
  Chain.nSequenceId := 0; Chain.nTimeMax := 0; Chain.nMint := 0; Chain.nMoneySupply := 0; Chain.nFlags := flags;
  Chain.nStakeModifier := 0; Chain.nStakeModifierChecksum := 0;
  Chain.prevoutStake := Chain.mkOutPoint (Blob.null 32) 0; Chain.nStakeTime := 0; Chain.hashProofOfStake := Blob.null 32 |}.
Definition stake_time : Z := 1700447700.
Definition stake_index : Chain.heap :=
  {[ 1%positive := stake_entry None 0 1700000000 4; 2%positive := stake_entry (Some 1%positive) 1 1700000100 0;
     3%positive := stake_entry (Some 2%positive) 2 stake_time 1 ]}.
Definition stake_find (h : list Z) : option (Z * CBlockHeader * CTransaction) := Some (0, mkHeader 4 (repeat 1 32) (repeat 0 32) 1690000000 0 0 0, stake_prev).
#[local] Abbreviation check_stake := (@NowpContextualBlockChecks CBigNum.Z_BN Pubkey.plain_secp (repeat 0 64) (fun _ => repeat 6 32) true stake_find (fun k => k) (fun h _ => h)
  CMainParams (repeat 0 32) false ∅).

Definition stake_start : stake_state := mkStake stake_index ∅ ∅.

Definition accepted {A} (r : option (bool * block_verdict * A)) : bool := match r with Some (true, BlockValid, _) => true | _ => false end.

Lemma accepted_Some {A} (r : option (bool * block_verdict * A)) : accepted r = true -> exists st', r = Some (true, BlockValid, st').
Proof. destruct r as [[[[] []] st']|]; try done. by exists st'. Qed.

Lemma stake_accepted : exists st', check_stake (stake_block stake_time) 3%positive false stake_start = Some (true, BlockValid, st').
Proof. apply accepted_Some. vm_compute. reflexivity. Qed.



Definition bad_stake : CTransaction := mkTx [mkTxIn (mkOutPoint (repeat 6 32) 1) [] 0 []] [mkTxOut 0 []; mkTxOut 100000000000000 [OP_1]] 3 0 0.

Lemma CheckProofOfStake_unchecked_index_witness :
  @CheckProofOfStake CBigNum.Z_BN Pubkey.plain_secp (repeat 0 64) (fun _ => repeat 6 32) true stake_find CMainParams stake_index 2%positive bad_stake 0x2000ffff stake_time = None.
Proof.
  apply (@CheckProofOfStake_unchecked_index CBigNum.Z_BN Pubkey.plain_secp _ _ _ _ _ _ _ (mkTxIn (mkOutPoint (repeat 6 32) 1) [] 0 []) [] _ _ 0
    (mkHeader 4 (repeat 1 32) (repeat 0 32) 1690000000 0 0 0) stake_prev); [reflexivity..|cbn; lia].
Defined.

End Stake.
