(* ===== verification/ConnectBlock.v ===== *)
(** * Connecting a block ([validation.cpp])

    [CChainState::ConnectBlock]: the proof of stake, the rules for a block by
    itself, the rule against overwritten coins, and for each transaction its
    inputs and fees, relative locks, signature operations, scripts and the update
    of the coins; then the reward, the script checks that were queued, and what is
    recorded in the index. *)
From stdpp Require Import prelude gmap strings.
From S2P Require Import Prelude ArithUint256 Uint256 Params Kernel Chain BigNum Serialize Transaction Coins CoinsTheory CoinsMachine Undo BlockCoins TxCheck TxVerify Locks Subsidy BlockCheck SigOps CuckooCache Interp Pubkey Sighash VerifyScript InputScripts Stake.

Module ConnectBlock.
Import Transaction Coins Undo BlockCoins TxCheck TxVerify BlockCheck Sighash InputScripts Stake.

Definition BIP34_IMPLIES_BIP30_LIMIT : Z := 1983702.

(** The amounts recorded in an index entry. *)
Definition set_money (b : CBlockIndex) (nMint nMoneySupply : Z) : CBlockIndex := {|
  Chain.phashBlock := Chain.phashBlock b; Chain.pprev := Chain.pprev b; Chain.pskip := Chain.pskip b; Chain.nHeight := Chain.nHeight b;
  Chain.nFile := Chain.nFile b; Chain.nDataPos := Chain.nDataPos b; Chain.nUndoPos := Chain.nUndoPos b; Chain.nChainTrust := Chain.nChainTrust b;
  Chain.nTx := Chain.nTx b; Chain.nChainTx := Chain.nChainTx b; Chain.nStatus := Chain.nStatus b; Chain.nVersion := Chain.nVersion b;
  Chain.hashMerkleRoot := Chain.hashMerkleRoot b; Chain.nTime := Chain.nTime b; Chain.nBits := Chain.nBits b; Chain.nNonce := Chain.nNonce b;
  Chain.nSequenceId := Chain.nSequenceId b; Chain.nTimeMax := Chain.nTimeMax b; Chain.nMint := nMint;
  Chain.nMoneySupply := nMoneySupply; Chain.nFlags := Chain.nFlags b; Chain.nStakeModifier := Chain.nStakeModifier b;
  Chain.nStakeModifierChecksum := Chain.nStakeModifierChecksum b; Chain.prevoutStake := Chain.prevoutStake b;
  Chain.nStakeTime := Chain.nStakeTime b; Chain.hashProofOfStake := Chain.hashProofOfStake b |}.

(** What the node is configured with and what it knows of the chain. *)
Record Node := mkNode {
  params : Params;
  main : bool;
  hashGenesisBlock : list Z;
  BIP16Exception : list Z;
  hashAssumeValid : list Z;
  nMinimumChainWork : list Z;
  m_block_index : gmap (list Z) Chain.ptr;
  pindexBestHeader : Chain.ptr;
  g_parallel_script_checks : bool;
  g_txindex : bool
}.

(** ** Whether scripts are checked *)

(** Not for the ancestors of a block that is assumed to be valid, when the best
    header is far enough ahead. *)
Definition script_checks (node : Node) (h : Chain.heap) (pindex : Chain.ptr) (b : CBlockIndex) : option bool :=
  if Blob.IsNull (hashAssumeValid node) then Some true
  else
    match m_block_index node !! hashAssumeValid node with
    | None => Some true
    | Some it =>
        a ← Chain.GetAncestor h it (Chain.nHeight b);
        if negb (bool_decide (a = Some pindex)) then Some true
        else
          a ← Chain.GetAncestor h (pindexBestHeader node) (Chain.nHeight b);
          if negb (bool_decide (a = Some pindex)) then Some true
          else
            best ← h !! pindexBestHeader node;
            if BaseUint.ltb 8 (Chain.nChainTrust best) (nMinimumChainWork node) then Some true
            else
              t ← Chain.GetBlockProofEquivalentTime best b best (nPowTargetSpacing (params node));
              Some (t <=? 60 * 60 * 24 * 7 * 2)
    end.

Section Code.
(** As in the files of the parts; [WriteUndoDataForBlock] stores undo data and
    updates the index entry; [skipZeroValue i] is what the variable of that name
    happens to be for transaction [i]. *)
Context {S : Type} {V : CoinsView S} (usage : Coin -> Z) (GetHash : CTransaction -> list Z).
Context {E : Type} `{ForgetfulSet E (list Z)} `{!BN} `{Pubkey.Secp256k1} (verifier : bool -> SignatureVerifier) (junk : list Z).
Context (FindTx : list Z -> option (Z * CTransaction)) (FindStake : list Z -> option (Z * CBlockHeader * CTransaction)).
Context (GetRand : nat -> nat) (InvalidateBlock : Chain.heap -> Chain.ptr -> Chain.heap).
Context (D64 : list Z -> nat -> list Z) (signet_blocks : bool) (CheckPOW : CBlockHeader -> bool) (CheckSignetBlockSolution CheckBlockSignature : CBlock -> bool).
Context (WriteUndoDataForBlock : CBlockUndo -> CBlockIndex -> bool * CBlockIndex) (skipZeroValue : nat -> bool) (node : Node).
Abbreviation Cache := (@CCoinsViewCache S).
Abbreviation TxCache := (gmap (list Z) (Z * CTransaction)).

(** The variables of the loop. *)
Record connect_state := mkConnect {
  view : Cache;
  cachedTxs : TxCache;
  nFees : Z;
  nStakeReward : Z;
  nValueIn : Z;
  nValueOut : Z;
  nSigOpsCost : Z;
  vChecks : list CScriptCheck;
  vtxundo : CBlockUndo;
  execs : @exec_cache E
}.

(** [view.AccessCoin] of each input, for its value and for its height. *)
Fixpoint sum_inputs (c : Cache) (acc : Z) (l : list CTxIn) : Z * Cache :=
  match l with
  | [] => (acc, c)
  | i :: r => let '(x, c) := AccessCoin usage c (prevout i) in sum_inputs c (i64 (acc + nValue (out x))) r
  end.
Fixpoint input_heights (c : Cache) (l : list CTxIn) : list Z * Cache :=
  match l with
  | [] => ([], c)
  | i :: r => let '(x, c) := AccessCoin usage c (prevout i) in let '(hs, c) := input_heights c r in (nHeight x :: hs, c)
  end.

(** The inputs of a transaction; the outer option is a failed assertion or an
    exception. *)
Definition connect_inputs (h : Chain.heap) (pindex : Chain.ptr) (height nTimeBlock nLockTimeFlags : Z) (st : connect_state) (tx : CTransaction) :
    option (block_verdict * connect_state) :=
  if IsCoinBase tx then
    vo ← GetValueOut tx;
    Some (BlockValid, mkConnect (view st) (cachedTxs st) (nFees st) (nStakeReward st) (nValueIn st) (i64 (nValueOut st + vo))
                        (nSigOpsCost st) (vChecks st) (vtxundo st) (execs st))
  else
    '(v, txfee, c, txs) ← CheckTxInputs usage GetHash FindTx (params node) (g_txindex node) tx (view st) (cachedTxs st) height
                            (if negb (nTime tx =? 0) then nTime tx else nTimeBlock);
    match (v : verdict) with
    | Invalid _ reason =>
        Some (BlockInvalid BLOCK_CONSENSUS reason,
              mkConnect c txs (nFees st) (nStakeReward st) (nValueIn st) (nValueOut st) (nSigOpsCost st) (vChecks st) (vtxundo st) (execs st))
    | Valid =>
        let '(vi, c) := sum_inputs c (nValueIn st) (vin tx) in
        vo ← GetValueOut tx;
        let fees := if IsCoinStake tx then nFees st else i64 (nFees st + txfee) in
        let stake := if IsCoinStake tx then txfee else nStakeReward st in
        let st := mkConnect c txs fees stake vi (i64 (nValueOut st + vo)) (nSigOpsCost st) (vChecks st) (vtxundo st) (execs st) in
        if negb (MoneyRange fees) then Some (BlockInvalid BLOCK_CONSENSUS "bad-txns-accumulated-fee-outofrange", st)
        else
          let '(prevheights, c) := input_heights c (vin tx) in
          let st := mkConnect c txs fees stake vi (nValueOut st) (nSigOpsCost st) (vChecks st) (vtxundo st) (execs st) in
          '(final, _) ← Locks.SequenceLocks h tx nLockTimeFlags prevheights pindex;
          Some (if (final : bool) then BlockValid else BlockInvalid BLOCK_CONSENSUS "bad-txns-nonfinal", st)
    end.

(** Signature operations. *)
Definition connect_sigops (flags : Z) (st : connect_state) (tx : CTransaction) : option (block_verdict * connect_state) :=
  '(cost, c) ← SigOps.GetTransactionSigOpCost usage tx (view st) flags;
  let total := i64 (nSigOpsCost st + cost) in
  let st := mkConnect c (cachedTxs st) (nFees st) (nStakeReward st) (nValueIn st) (nValueOut st) total (vChecks st) (vtxundo st) (execs st) in
  Some (if MAX_BLOCK_SIGOPS_COST <? total then BlockInvalid BLOCK_CONSENSUS "bad-blk-sigops" else BlockValid, st).

(** Scripts: results are cached only when the block is not going to be connected. *)
Definition connect_scripts (fScriptChecks fJustCheck : bool) (flags : Z) (st : connect_state) (tx : CTransaction) : option (block_verdict * connect_state) :=
  if IsCoinBase tx || negb fScriptChecks then Some (BlockValid, st)
  else
    '(v, checks, c, _, ec) ← CheckInputScripts usage verifier junk tx (view st) flags fJustCheck fJustCheck PrecomputedTransactionData_init
                               (g_parallel_script_checks node) (execs st);
    let st := mkConnect c (cachedTxs st) (nFees st) (nStakeReward st) (nValueIn st) (nValueOut st) (nSigOpsCost st) (vChecks st ++ checks) (vtxundo st) ec in
    Some (match (v : verdict) with Invalid _ reason => BlockInvalid BLOCK_CONSENSUS reason | Valid => BlockValid end, st).

(** The coins; no undo data is kept for the first transaction. *)
Definition connect_coins (i : nat) (height : Z) (st : connect_state) (tx : CTransaction) : option connect_state :=
  match UpdateCoins usage GetHash tx (view st) height (skipZeroValue i) with
  | inl _ => None
  | inr (undo, c) =>
      Some (mkConnect c (cachedTxs st) (nFees st) (nStakeReward st) (nValueIn st) (nValueOut st) (nSigOpsCost st) (vChecks st)
              (if (0 <? i)%nat then vtxundo st ++ [undo] else vtxundo st) (execs st))
  end.

(** One check after the other, up to the first that fails. *)
Definition and_then (r : option (block_verdict * connect_state)) (f : connect_state -> option (block_verdict * connect_state)) :
    option (block_verdict * connect_state) :=
  '(v, st) ← r;
  match (v : block_verdict) with BlockInvalid _ _ => Some (v, st) | BlockValid => f st end.

Fixpoint connect_txs (h : Chain.heap) (pindex : Chain.ptr) (height nTimeBlock nLockTimeFlags flags : Z) (fScriptChecks fJustCheck : bool)
    (i : nat) (st : connect_state) (l : list CTransaction) : option (block_verdict * connect_state) :=
  match l with
  | [] => Some (BlockValid, st)
  | tx :: r =>
      and_then (connect_inputs h pindex height nTimeBlock nLockTimeFlags st tx) (fun st =>
      and_then (connect_sigops flags st tx) (fun st =>
      and_then (connect_scripts fScriptChecks fJustCheck flags st tx) (fun st =>
        st ← connect_coins i height st tx;
        connect_txs h pindex height nTimeBlock nLockTimeFlags flags fScriptChecks fJustCheck (Datatypes.S i) st r)))
  end.

(** The rule against overwritten coins, for one transaction and for all. *)
Fixpoint overwrites (c : Cache) (txid : list Z) (o : Z) (vo : list CTxOut) : bool * Cache :=
  match vo with
  | [] => (false, c)
  | _ :: r => let '(have, c) := HaveCoin usage c (mkOutPoint txid (u32 o)) in if have then (true, c) else overwrites c txid (o + 1) r
  end.
Fixpoint any_overwrites (c : Cache) (l : list CTransaction) : bool * Cache :=
  match l with
  | [] => (false, c)
  | tx :: r => let '(b, c) := overwrites c (GetHash tx) 0 (vout tx) in if b then (true, c) else any_overwrites c r
  end.

(** The reward checks. *)
Definition check_reward (block : CBlock) (height : Z) (st : connect_state) : option block_verdict :=
  reward ← Subsidy.GetBlockReward height (params node);
  let blockReward := i64 (nFees st + reward) in
  if IsProofOfStake block && (blockReward <? nStakeReward st) then Some (BlockInvalid BLOCK_CONSENSUS "bad-cs-amount")
  else
    cb ← head (vtx block);
    cb_out ← GetValueOut cb;
    Some (if (if IsProofOfWork block then blockReward else 0) <? cb_out then BlockInvalid BLOCK_CONSENSUS "bad-cb-amount" else BlockValid).

(** [control.Wait()]: whether all checks that were queued pass. *)
Definition control_wait (checks : list CScriptCheck) : option bool :=
  results ← mapM (check_script verifier junk) checks;
  Some (forallb fst results).

(** How the function ends: it returns true, or false with the state it was given
    marked or not, or with an error of the node. *)
Inductive connect_result := Connected | NotConnected (v : block_verdict) | NodeError.

(** What it may change besides: the coins, the caches, the stakes and the index,
    and the mark on the block that it was checked. *)
Record connect_out := mkOut {
  o_view : Cache;
  o_txs : TxCache;
  o_execs : @exec_cache E;
  o_stake : stake_state;
  o_fChecked : bool
}.

(** Once the block is accepted: amounts, undo data, validity, best block. *)
Definition record_block (pindex : Chain.ptr) (b : CBlockIndex) (prevSupply : Z) (s : stake_state) (fChecked : bool) (st : connect_state) :
    option (connect_result * connect_out) :=
  let b := set_money b (i64 (i64 (nValueOut st - nValueIn st) + nFees st)) (i64 (i64 (prevSupply + nValueOut st) - nValueIn st)) in
  let '(written, b) := WriteUndoDataForBlock (vtxundo st) b in
  let s := mkStake (<[pindex := b]> (index s)) (setStakeSeen s) (m_dirty_blockindex s) in
  if negb written then Some (NodeError, mkOut (view st) (cachedTxs st) (execs st) s fChecked)
  else
    valid ← Chain.IsValid b Chain.BLOCK_VALID_SCRIPTS;
    s ← (if (valid : bool) then Some s
         else '(_, b) ← Chain.RaiseValidity b Chain.BLOCK_VALID_SCRIPTS;
              Some (mkStake (<[pindex := b]> (index s)) (setStakeSeen s) ({[ pindex ]} ∪ m_dirty_blockindex s)));
    Some (Connected, mkOut (SetBestBlock (view st) (Chain.phashBlock b)) (cachedTxs st) (execs st) s fChecked).

(** After the checks of the block by itself.  The hash of the index entry was
    read before, so that [fEnforceBIP30] is false. *)
Definition connect_transactions (block : CBlock) (pindex : Chain.ptr) (b : CBlockIndex) (fJustCheck : bool) (s : stake_state) (fChecked : bool)
    (c : Cache) (txs : TxCache) (ec : @exec_cache E) : option (connect_result * connect_out) :=
  let h := index s in
  let height := Chain.nHeight b in
  fScriptChecks ← script_checks node h pindex b;
  pprev ← Chain.pprev b;
  bp ← h !! pprev;
  pindexBIP34height ← Chain.GetAncestor h pprev (BIP34Height (params node));
  let '(dup, c) := if BIP34_IMPLIES_BIP30_LIMIT <=? height then any_overwrites c (vtx block) else (false, c) in
  if (dup : bool) then Some (NotConnected (BlockInvalid BLOCK_CONSENSUS "bad-txns-BIP30"), mkOut c txs ec s fChecked)
  else
    let nLockTimeFlags := if Kernel.IsBTC16BIPsEnabled (main node) (Chain.nTime bp) then Z.lor 0 Locks.LOCKTIME_VERIFY_SEQUENCE else 0 in
    let flags := GetBlockScriptFlags (main node) (BIP16Exception node) (Some (Chain.phashBlock b)) (Some (Chain.nTime bp)) in
    '(v, st) ← connect_txs h pindex height (hTime (header block)) nLockTimeFlags flags fScriptChecks fJustCheck 0
                 (mkConnect c txs 0 0 0 0 0 [] [] ec) (vtx block);
    let out := mkOut (view st) (cachedTxs st) (execs st) s fChecked in
    match (v : block_verdict) with
    | BlockInvalid _ _ => Some (NotConnected v, out)
    | BlockValid =>
        r ← check_reward block height st;
        match (r : block_verdict) with
        | BlockInvalid _ _ => Some (NotConnected r, out)
        | BlockValid =>
            passed ← control_wait (vChecks st);
            if negb (passed : bool) then Some (NotConnected (BlockInvalid BLOCK_CONSENSUS "block-validation-failed"), out)
            else if fJustCheck then Some (Connected, out)
            else record_block pindex b (Chain.nMoneySupply bp) s fChecked st
        end
    end.

(** [None] is a failed assertion, an exception or undefined behaviour. *)
Definition ConnectBlock (block : CBlock) (fChecked : bool) (pindex : Chain.ptr) (fJustCheck : bool) (s : stake_state) (c : Cache) (txs : TxCache)
    (ec : @exec_cache E) : option (connect_result * connect_out) :=
  b ← index s !! pindex;
  let block_hash := CBlockHeader_GetHash (header block) in
  if bool_decide (Chain.phashBlock b <> block_hash) then None
  else
    '(ok, v, s) ← (if (Chain.nStakeModifier b =? 0) && (Chain.nStakeModifierChecksum b =? 0) then
                     NowpContextualBlockChecks junk GetHash (g_txindex node) FindStake GetRand InvalidateBlock (params node) (hashGenesisBlock node)
                       (negb (main node)) (m_block_index node) block pindex fJustCheck s
                   else Some (true, BlockValid, s));
    if negb (ok : bool) then Some (NotConnected v, mkOut c txs ec s fChecked)
    else
      '(v, fChecked) ← CheckBlock D64 GetHash (main node) signet_blocks CheckPOW CheckSignetBlockSolution CheckBlockSignature fChecked block
                         (negb fJustCheck) (negb fJustCheck) true;
      match (v : block_verdict) with
      | BlockInvalid BLOCK_MUTATED _ => Some (NodeError, mkOut c txs ec s fChecked)
      | BlockInvalid _ _ => Some (NotConnected v, mkOut c txs ec s fChecked)
      | BlockValid =>
          b ← index s !! pindex;
          hashPrevBlock ← (match Chain.pprev b with None => Some (Blob.null 32) | Some p => bp ← index s !! p; Some (Chain.phashBlock bp) end);
          let '(best, c) := Cache_GetBestBlock c in
          if bool_decide (hashPrevBlock <> best) then None
          else if bool_decide (block_hash = hashGenesisBlock node) then
            Some (Connected, mkOut (if fJustCheck then c else SetBestBlock c (Chain.phashBlock b)) txs ec s fChecked)
          else connect_transactions block pindex b fJustCheck s fChecked c txs ec
      end.

End Code.

End ConnectBlock.
