(* ===== verification/ConnectTheory.v ===== *)
(** * What a connected block does to the money and to the coins

    The value of the set of coins after [ConnectBlock] is at most the value
    before and the reward of the block, so that no chain of blocks makes more
    money than the rewards add up to; and the scripts of all inputs of a
    connected block verify. *)
From stdpp Require Import prelude gmap strings.
From S2P Require Import Prelude ArithUint256 Uint256 Params Kernel Chain BigNum Serialize Transaction Coins CoinsTheory CoinsMachine Undo BlockCoins TxCheck TxVerify Locks Subsidy BlockCheck SigOps CuckooCache Interp Pubkey Sighash SigCache VerifyScript SoftFork InputScripts InputTheory Stake ConnectBlock.

Module ConnectTheory.
Import Serialize Transaction Coins CoinsTheory CoinsMachine Undo BlockCoins TxCheck TxVerify BlockCheck Sighash InputScripts InputTheory Stake ConnectBlock.

(** ** The value of a set of coins

    Summed over a list of outpoints; what is outside of it does not change. *)

Definition supply (D : list COutPoint) (u : coins) : Z := sumZ (value_of u) D.

Lemma supply_ext D u v : (forall o, u o = v o) -> supply D u = supply D v.
Proof. intros H. unfold supply, sumZ. induction D as [|o D IH]; cbn [foldr]; [done|]. unfold value_of at 1 3. by rewrite H, IH. Qed.

Definition coin_value (x : option Coin) : Z := match x with Some x => nValue (out x) | None => 0 end.

Lemma supply_set D u o x :
  NoDup D -> o ∈ D -> supply D (set_coin u o x) = supply D u - value_of u o + coin_value x.
Proof.
  intros Hnd Ho. induction D as [|d D IH]; [by apply not_elem_of_nil in Ho|]. apply NoDup_cons in Hnd as [Hni Hnd].
  unfold supply in *. cbn [sumZ foldr]. fold (sumZ (value_of (set_coin u o x)) D) (sumZ (value_of u) D).
  destruct (decide (d = o)) as [->|Hne].
  - assert (value_of (set_coin u o x) o = coin_value x) as -> by (unfold value_of, set_coin; by rewrite decide_True).
    assert (sumZ (value_of (set_coin u o x)) D = sumZ (value_of u) D) as ->; [|lia].
    clear IH Ho Hnd. induction D as [|d D IH]; [done|]. apply not_elem_of_cons in Hni as [Hne Hni]. cbn [sumZ foldr].
    fold (sumZ (value_of (set_coin u o x)) D) (sumZ (value_of u) D). rewrite IH by done. f_equal. unfold value_of, set_coin. by rewrite decide_False by done.
  - apply elem_of_cons in Ho as [->|Ho]; [done|]. rewrite IH by done.
    assert (value_of (set_coin u o x) d = value_of u d) as -> by (unfold value_of, set_coin; by rewrite decide_False by done). lia.
Qed.

Lemma supply_removed D u l :
  NoDup D -> NoDup l -> (forall o, o ∈ l -> o ∈ D) -> supply D (removed l u) = supply D u - sumZ (value_of u) l.
Proof.
  intros HD. induction l as [|o l IH]; intros Hnd Hin; [cbn [sumZ foldr]; rewrite Z.sub_0_r; by apply supply_ext|].
  apply NoDup_cons in Hnd as [Hni Hnd]. rewrite (supply_ext D _ (set_coin (removed l u) o None)).
  - rewrite supply_set by (try done; apply Hin; by left). rewrite IH by (try done; intros; apply Hin; by right).
    assert (value_of (removed l u) o = value_of u o) as -> by (unfold value_of, removed; by rewrite decide_False by done).
    cbn [sumZ foldr coin_value]. fold (sumZ (value_of u) l). lia.
  - intros o'. unfold removed, set_coin. destruct (decide (o' = o)) as [->|Hne]; [by rewrite decide_True by left|].
    destruct (decide (o' ∈ l)); [by rewrite decide_True by (by right)|]. rewrite decide_False; [done|]. by apply not_elem_of_cons.
Qed.

Section Created.
Context (GetHash : CTransaction -> list Z) (tx : CTransaction) (height : Z) (skip : bool).

Lemma supply_created D u vo k :
  NoDup D -> (forall o, is_Some (output_at GetHash tx k vo o) -> o ∈ D /\ u o = None) -> Forall (fun o => 0 <= nValue o) vo ->
  supply D (over (created_from GetHash tx height skip k vo) u) <= supply D u + total vo.
Proof using.
  intros HD. revert k. induction vo as [|x vo IH]; intros k Hout Hv.
  { cbn [total foldr]. rewrite Z.add_0_r. apply Z.eq_le_incl, supply_ext. intros o. unfold over, created_from, output_at. by destruct (_ && _). }
  inversion Hv as [|? ? Hx Hv']; subst. set (o := mkOutPoint (GetHash tx) k). set (w := over (created_from GetHash tx height skip (k + 1) vo) u).
  destruct (Hout o) as [HoD Hou]; [rewrite output_at_cons, decide_True by done; by eexists|].
  assert (w o = None) as Hwo by (unfold w, over, created_from; by rewrite output_at_self).
  assert (supply D w <= supply D u + total vo) as Hw.
  { apply IH; [|done]. intros o' Ho'. apply Hout. rewrite output_at_cons. case_decide; [by eexists|done]. }
  rewrite (supply_ext D _ (if skipped (coin_of tx height x) skip then w else set_coin w o (Some (coin_of tx height x)))).
  - cbn [total foldr]. fold (total vo). destruct (skipped (coin_of tx height x) skip); [lia|]. rewrite supply_set by done.
    unfold value_of. rewrite Hwo. cbn [coin_value coin_of Coin_init out]. lia.
  - intros o'. unfold over, created_from. rewrite output_at_cons. fold o. destruct (decide (o' = o)) as [->|Hne].
    + cbn. destruct (skipped (coin_of tx height x) skip); [by rewrite Hwo, Hou|]. unfold set_coin. by rewrite decide_True.
    + unfold w, set_coin, over, created_from. destruct (skipped (coin_of tx height x) skip); [done|]. by rewrite decide_False.
Qed.

(** What a transaction does to the value of the set. *)
Lemma supply_tx D u :
  NoDup D -> (forall o, o ∈ prevouts tx -> o ∈ D) -> (forall o, is_Some (output_at GetHash tx 0 (vout tx) o) -> o ∈ D) ->
  outputs_ok GetHash u tx -> NoDup (prevouts tx) -> Forall (fun o => 0 <= nValue o) (vout tx) ->
  supply D (apply_tx GetHash height skip u tx) <=
    supply D u - (if IsCoinBase tx then 0 else sum_in u (vin tx)) + total (vout tx).
Proof using.
  intros HD Hpre Hout (_ & _ & Hnew) Hnd Hv. unfold apply_tx. etransitivity; [apply supply_created; [done| |done]|].
  - intros o Ho. split; [by apply Hout|]. destruct (IsCoinBase tx); [by apply Hnew|]. unfold removed. case_decide; [done|by apply Hnew].
  - destruct (IsCoinBase tx); [lia|]. rewrite supply_removed by done.
    assert (sumZ (value_of u) (prevouts tx) = sum_in u (vin tx)) as ->; [|lia].
    unfold prevouts, sumZ, sum_in. generalize (vin tx). induction l as [|i l IH]; cbn [map foldr]; [done|]. by rewrite IH.
Qed.

End Created.

(** ** The coins are only read *)

Section Reads.
Context {S : Type} {V : CoinsView S} (usage : Coin -> Z) (u : coins).
Abbreviation holds := (@BlockCoins.holds S V usage).

Lemma sum_inputs_holds l c acc : holds c u -> holds (sum_inputs usage c acc l).2 u.
Proof using.
  revert c acc. induction l as [|i l IH]; intros c acc Hc; cbn [sum_inputs]; [done|].
  destruct (AccessCoin_holds usage c u (prevout i) Hc) as (x & c1 & -> & Hc1 & _). by apply IH.
Qed.

Lemma input_heights_holds l c : holds c u -> holds (input_heights usage c l).2 u.
Proof using.
  revert c. induction l as [|i l IH]; intros c Hc; cbn [input_heights]; [done|].
  destruct (AccessCoin_holds usage c u (prevout i) Hc) as (x & c1 & -> & Hc1 & _). specialize (IH c1 Hc1). by destruct (input_heights usage c1 l).
Qed.

Lemma p2sh_loop_reads l c k r c' : holds c u -> SigOps.p2sh_loop usage c k l = Some (r, c') -> holds c' u.
Proof using.
  revert c k. induction l as [|i l IH]; intros c k Hc; cbn [SigOps.p2sh_loop]; [by intros [= _ <-]|].
  destruct (AccessCoin_holds usage c u (prevout i) Hc) as (x & c1 & -> & Hc1 & _). case_if; [done|]. by apply IH.
Qed.

Lemma witness_loop_reads l c flags k r c' : holds c u -> SigOps.witness_sigop_loop usage c flags k l = Some (r, c') -> holds c' u.
Proof using.
  revert c k. induction l as [|i l IH]; intros c k Hc; cbn [SigOps.witness_sigop_loop]; [by intros [= _ <-]|].
  destruct (AccessCoin_holds usage c u (prevout i) Hc) as (x & c1 & -> & Hc1 & _). case_if; [done|].
  destruct (SigOps.CountWitnessSigOps _ _ _ _); [|done]. rewrite bind_some. by apply IH.
Qed.

Lemma sigop_cost_reads tx c flags r c' : holds c u -> SigOps.GetTransactionSigOpCost usage tx c flags = Some (r, c') -> holds c' u.
Proof using.
  intros Hc. unfold SigOps.GetTransactionSigOpCost. case_if; [by intros [= _ <-]|]. case_if.
  - unfold SigOps.GetP2SHSigOpCount. destruct (if IsCoinBase tx then _ else _) as [[k c1]|] eqn:Ek; [|done]. rewrite !bind_some. apply witness_loop_reads.
    destruct (IsCoinBase tx); [by injection Ek as _ <-|]. by eapply p2sh_loop_reads.
  - rewrite bind_some. by apply witness_loop_reads.
Qed.

Lemma get_spent_reads l c outs c' : holds c u -> get_spent usage c l = Some (outs, c') -> holds c' u.
Proof using.
  revert c outs. induction l as [|i l IH]; intros c outs Hc; cbn [get_spent]; [by intros [= _ <-]|].
  destruct (AccessCoin_holds usage c u (prevout i) Hc) as (x & c1 & -> & Hc1 & _). case_if; [done|].
  destruct (get_spent usage c1 l) as [[outs1 c2]|] eqn:Eg; [|done]. rewrite bind_some. intros [= _ <-]. by eapply IH.
Qed.

Lemma overwrites_spec id k vo c : holds c u ->
  holds (overwrites usage c id k vo).2 u /\
  ((overwrites usage c id k vo).1 = false -> forall j, (j < length vo)%nat -> u (mkOutPoint id (u32 (k + j))) = None).
Proof using.
  revert k c. induction vo as [|x vo IH]; intros k c [Hok Hc]; cbn [overwrites]; [split; [done|]; cbn; lia|].
  pose proof (HaveCoin_spec usage c (mkOutPoint id (u32 k)) Hok) as HH. destruct (HaveCoin usage c _) as [b c1]. destruct HH as (Hok1 & Hu1 & _ & _ & ->).
  assert (holds c1 u) as Hc1 by (split; [done|]; intros o; by rewrite Hu1). rewrite Hc.
  destruct (bool_decide _) eqn:Eb; [by split|]. destruct (IH (k + 1) c1 Hc1) as [H1 H2]. split; [done|]. intros Hf j Hj.
  destruct j as [|j]; [rewrite Z.add_0_r; apply bool_decide_eq_false in Eb; by apply eq_None_not_Some|].
  replace (k + Datatypes.S j) with (k + 1 + j) by lia. apply H2; [done|]. cbn in Hj. lia.
Qed.

Lemma any_overwrites_spec (GetHash : CTransaction -> list Z) l c : holds c u ->
  holds (any_overwrites usage GetHash c l).2 u /\
  ((any_overwrites usage GetHash c l).1 = false -> forall tx j, tx ∈ l -> (j < length (vout tx))%nat -> u (mkOutPoint (GetHash tx) (u32 j)) = None).
Proof using.
  revert c. induction l as [|tx l IH]; intros c Hc; cbn [any_overwrites]; [split; [done|]; by intros _ ? ? ?%not_elem_of_nil|].
  pose proof (overwrites_spec (GetHash tx) 0 (vout tx) c Hc) as [H1 H2]. destruct (overwrites usage c (GetHash tx) 0 (vout tx)) as [b c1]. cbn in H1, H2.
  destruct b; [by split|]. destruct (IH c1 H1) as [H3 H4]. split; [done|]. intros Hf tx' j [->|Hin]%elem_of_cons Hj; [by apply H2|by apply H4].
Qed.

End Reads.

(** ** One transaction *)

(** Coins as connected blocks leave them. *)
Definition coins_ok (u : coins) : Prop := forall o x, u o = Some x -> restorable x /\ nHeight x < 2 ^ 31 /\ 0 <= nValue (out x).

Lemma coins_ok_heights u : coins_ok u -> heights_ok u.
Proof. intros Hu o x Hx. destruct (Hu o x Hx) as ((Hs & _ & Hh) & Hh' & _). split; [unfold in_u; lia|done]. Qed.

Lemma apply_tx_ok GetHash height skip u tx :
  coins_ok u -> 0 < height < 2 ^ 31 -> well_formed tx -> coins_ok (apply_tx GetHash height skip u tx).
Proof.
  intros Hu Hh Hwf o x. unfold apply_tx, over, created_from. destruct (output_at GetHash tx 0 (vout tx) o) as [y|] eqn:Ey; cbn [mbind option_bind].
  2: { intros Hx. destruct (IsCoinBase tx); [by apply (Hu o)|]. unfold removed in Hx. case_decide; [done|by apply (Hu o)]. }
  destruct (skipped _ skip) eqn:Es.
  { intros Hx. destruct (IsCoinBase tx); [by apply (Hu o)|]. unfold removed in Hx. case_decide; [done|by apply (Hu o)]. }
  intros [= <-]. unfold output_at in Ey. destruct (_ && _); [|done]. pose proof (Forall_lookup_1 _ _ _ _ (wf_values _ Hwf) Ey) as Hv. cbn beta in Hv.
  unfold in_money in Hv. apply orb_false_iff in Es as [Es _]. cbn [coin_of Coin_init nHeight out] in *.
  assert (uwrap 31 height = height) as Eh by (apply uwrap_small; unfold in_u; lia). rewrite Eh.
  split; [|lia]. split; [unfold IsSpent, CTxOut_IsNull; cbn; lia|]. split; [done|]. cbn. rewrite Eh. lia.
Qed.

Lemma value_in_money tx : well_formed tx -> Forall (fun o => 0 <= nValue o) (vout tx) /\ Forall (fun o => CTxOut_IsNull o = false) (vout tx) /\ length (vout tx) <= 2 ^ 32.
Proof.
  intros Hwf. pose proof (wf_values _ Hwf) as Hv. split; [|split].
  - eapply Forall_impl; [exact Hv|]. unfold in_money. intros; lia.
  - eapply Forall_impl; [exact Hv|]. unfold in_money, CTxOut_IsNull. intros; lia.
  - pose proof (wf_size _ Hwf) as Hs. unfold MAX_BLOCK_WEIGHT, SerializeTransaction, Vector_Ser in Hs. rewrite !length_app in Hs.
    pose proof (sumZ_length CTxOut_Ser (vout tx)) as Hl. assert (sumZ (fun _ => 1) (vout tx) <= sumZ (fun o => length (CTxOut_Ser o)) (vout tx)) as H1.
    { apply sumZ_le. intros o _. unfold CTxOut_Ser. rewrite !length_app. assert (length (ser_i64 (nValue o)) = 8%nat) as -> by done. lia. }
    rewrite sumZ_const in H1. lia.
Qed.

Section Block.
Context {S : Type} {V : CoinsView S} (usage : Coin -> Z) (usage_empty : usage coinEmpty = 0) (GetHash : CTransaction -> list Z).
Context {E : Type} `{ForgetfulSet E (list Z)} `{Pubkey.Secp256k1} (verifier : bool -> SignatureVerifier) (junk : list Z).
Context (FindTx : list Z -> option (Z * CTransaction)) (skipZeroValue : nat -> bool) (node : Node).
Context (h : Chain.heap) (pindex : Chain.ptr) (height nTimeBlock nLockTimeFlags flags : Z) (fScriptChecks fJustCheck : bool).
Context (Hheight : 0 < height < 2 ^ 31).
#[local] Abbreviation holds := (@BlockCoins.holds S V usage).
#[local] Abbreviation state := (@connect_state S E).
#[local] Abbreviation connect_inputs := (connect_inputs usage GetHash FindTx node h pindex height nTimeBlock nLockTimeFlags).
#[local] Abbreviation connect_sigops := (connect_sigops usage flags).
#[local] Abbreviation connect_scripts := (connect_scripts usage verifier junk node fScriptChecks fJustCheck flags).
#[local] Abbreviation connect_coins := (connect_coins usage GetHash skipZeroValue).
#[local] Abbreviation connect_txs := (connect_txs usage GetHash verifier junk FindTx skipZeroValue node h pindex height nTimeBlock nLockTimeFlags flags fScriptChecks fJustCheck).

(** What the amounts of the loop say of a transaction. *)
Definition amounts (u : coins) (st : state) (tx : CTransaction) (st' : state) : Prop :=
  (IsCoinBase tx = true -> nFees st' = nFees st /\ nStakeReward st' = nStakeReward st) /\
  (IsCoinBase tx = false -> (forall i, i ∈ vin tx -> is_Some (u (prevout i))) /\
    (IsCoinStake tx = true -> nFees st' = nFees st /\ sum_in u (vin tx) + nStakeReward st' = total (vout tx)) /\
    (IsCoinStake tx = false -> nStakeReward st' = nStakeReward st /\ sum_in u (vin tx) = total (vout tx) + (nFees st' - nFees st))).

Lemma inputs_present u t l : inputs_valid (params node) u height t 0 l -> forall i, i ∈ l -> is_Some (u (prevout i)).
Proof using. intros [HF _] i Hi. rewrite Forall_forall in HF. destruct (HF i Hi) as (x & -> & _). by eauto. Qed.

Lemma connect_inputs_spec (st : state) tx st' u :
  holds (view st) u -> coins_ok u -> well_formed tx -> in_money (nFees st) -> connect_inputs st tx = Some (BlockValid, st') ->
  holds (view st') u /\ vChecks st' = vChecks st /\ execs st' = execs st /\ in_money (nFees st') /\ amounts u st tx st'.
Proof using Hheight.
  intros Hc Hu Hwf Hm. unfold ConnectBlock.connect_inputs, amounts. destruct (value_out tx Hwf) as [Hvo Hmo]. rewrite Hvo. destruct (IsCoinBase tx) eqn:Ecb.
  { rewrite bind_some. intros [= <-]. cbn. do 4 (split; [done|]). by split. }
  set (t := if negb (nTime tx =? 0) then nTime tx else nTimeBlock). destruct (CheckTxInputs _ _ _ _ _ _ _ _ _ _) as [[[[v fee] c1] txs1]|] eqn:EC; [|done]. rewrite bind_some.
  destruct v as [|? ?]; [|done].
  assert (holds c1 u /\ (forall i, i ∈ vin tx -> is_Some (u (prevout i))) /\
    (IsCoinStake tx = true -> sum_in u (vin tx) + fee = total (vout tx)) /\ (IsCoinStake tx = false -> 0 <= fee <= MAX_MONEY /\ sum_in u (vin tx) = total (vout tx) + fee)) as (Hc1 & Hin & Hstake & Hfee).
  { destruct (IsCoinStake tx) eqn:Ecs.
    - destruct (CheckTxInputs_coinstake usage GetHash FindTx (params node) u (coins_ok_heights u Hu) (g_txindex node) (view st) (cachedTxs st) tx height t fee c1 txs1) as (H1 & H2 & H3); [done|lia|done..|].
      split; [done|]. split; [by eapply inputs_present|]. done.
    - destruct (CheckTxInputs_spec usage GetHash FindTx (params node) u (coins_ok_heights u Hu) (g_txindex node) (view st) (cachedTxs st) tx height t) as (v & f & c' & E1 & H1 & H2 & H3); [done|lia|done..|].
      rewrite E1 in EC. injection EC as -> -> -> <-. destruct (proj1 H2 eq_refl) as [Hiv Hmin]. specialize (H3 eq_refl). split; [done|]. split; [by eapply inputs_present|]. split; [done|]. intros _.
      destruct Hiv as [_ Hmax]. pose proof (min_fee_paid tx t Hwf) as Hp. change MIN_TX_FEE with 1000 in Hp. unfold in_money in Hmo. split; [|done]. lia. }
  pose proof (sum_inputs_holds usage u (vin tx) c1 (nValueIn st) Hc1) as Hc2. destruct (sum_inputs usage c1 (nValueIn st) (vin tx)) as [vi c2]. cbn [snd] in Hc2. rewrite bind_some.
  destruct (negb (MoneyRange _)) eqn:Emr; [done|]. apply negb_false_iff, MoneyRange_spec in Emr.
  pose proof (input_heights_holds usage u (vin tx) c2 Hc2) as Hc3. destruct (input_heights usage c2 (vin tx)) as [hs c3]. cbn [snd] in Hc3.
  destruct (Locks.SequenceLocks _ _ _ _ _) as [[final l]|]; [|done]. rewrite bind_some. destruct final; [|done]. intros [= <-]. cbn [view vChecks execs nFees nStakeReward].
  split; [done|]. split; [done|]. split; [done|]. split; [done|]. split; [done|]. intros _. split; [done|]. split; intros Hcs; rewrite Hcs in *.
  - split; [done|by apply Hstake].
  - split; [done|]. destruct (Hfee eq_refl) as [Hf Hs]. unfold in_money, MAX_MONEY, COIN in *. unfold i64. rewrite swrap_small by (try lia; unfold in_s; lia). lia.
Qed.

Lemma CheckInputScripts_reads tx c fl a b td par (ec : @exec_cache E) v checks c' td' ec' u :
  holds c u -> CheckInputScripts usage verifier junk tx c fl a b td par ec = Some (v, checks, c', td', ec') -> holds c' u.
Proof using.
  intros Hc. unfold CheckInputScripts. case_if; [by intros [= _ _ <- _ _]|]. destruct (set_contains _ _ _) as [[s found]|]; [|done]. rewrite bind_some.
  destruct found; [by intros [= _ _ <- _ _]|].
  match goal with |- context [mbind _ ?m] => destruct m as [[td1 c1]|] eqn:Es; [|done] end. rewrite bind_some.
  assert (holds c1 u) as Hc1.
  { destruct (negb (m_spent_outputs_ready td)); [|by injection Es as _ <-]. destruct (get_spent usage c (vin tx)) as [[outs c2]|] eqn:Eg; [|done]. rewrite bind_some in Es.
    destruct (Init _ _ _ _); [|done]. injection Es as _ <-. by eapply get_spent_reads. }
  case_if; [done|]. destruct (all_checks _ _ _ _); [|done]. rewrite bind_some. case_if; [by intros [= _ _ <- _ _]|].
  destruct (run_checks _ _ _) as [[|? ?]|]; [|by intros [= _ _ <- _ _]|done]. rewrite bind_some.
  match goal with |- context [mbind _ ?m] => destruct m; [|done] end. by intros [= _ _ <- _ _].
Qed.

Lemma connect_sigops_spec (st : state) tx v st' u :
  holds (view st) u -> connect_sigops st tx = Some (v, st') ->
  holds (view st') u /\ vChecks st' = vChecks st /\ execs st' = execs st /\ nFees st' = nFees st /\ nStakeReward st' = nStakeReward st.
Proof using.
  intros Hc. unfold ConnectBlock.connect_sigops. destruct (SigOps.GetTransactionSigOpCost _ _ _ _) as [[cost c]|] eqn:Eg; [|done]. rewrite bind_some. intros [= _ <-]. cbn.
  split; [by eapply sigop_cost_reads|done].
Qed.

Lemma connect_scripts_spec (st : state) tx v st' u :
  holds (view st) u -> connect_scripts st tx = Some (v, st') -> holds (view st') u /\ nFees st' = nFees st /\ nStakeReward st' = nStakeReward st.
Proof using.
  intros Hc. unfold ConnectBlock.connect_scripts. case_if; [by intros [= _ <-]|]. destruct (CheckInputScripts _ _ _ _ _ _ _ _ _ _ _) as [[[[[v1 checks] c] td] ec]|] eqn:Eg; [|done].
  rewrite bind_some. intros [= _ <-]. cbn. split; [by eapply CheckInputScripts_reads|done].
Qed.

Lemma connect_coins_spec i (st : state) tx st' u :
  holds (view st) u -> outputs_ok GetHash u tx -> inputs_ok u tx -> connect_coins i height st tx = Some st' ->
  holds (view st') (apply_tx GetHash height (skipZeroValue i) u tx) /\ vChecks st' = vChecks st /\ execs st' = execs st /\
  nFees st' = nFees st /\ nStakeReward st' = nStakeReward st.
Proof using usage_empty Hheight.
  intros Hc Hout Hin. unfold ConnectBlock.connect_coins.
  destruct (UpdateCoins_holds usage usage_empty GetHash height Hheight (skipZeroValue i) tx (view st) u Hc Hout Hin) as (undo & c' & -> & Hc' & _). by intros [= <-].
Qed.

(** The four parts of an iteration. *)
Lemma connect_txs_cons i (st : state) tx l stf :
  connect_txs i st (tx :: l) = Some (BlockValid, stf) ->
  exists st1 st2 st3 st4, connect_inputs st tx = Some (BlockValid, st1) /\ connect_sigops st1 tx = Some (BlockValid, st2) /\
    connect_scripts st2 tx = Some (BlockValid, st3) /\ connect_coins i height st3 tx = Some st4 /\ connect_txs (Datatypes.S i) st4 l = Some (BlockValid, stf).
Proof using.
  cbn [ConnectBlock.connect_txs]. unfold and_then. destruct (connect_inputs st tx) as [[[|? ?] st1]|]; [|done|done]. rewrite bind_some.
  destruct (connect_sigops st1 tx) as [[[|? ?] st2]|] eqn:E2; [|done|done]. rewrite bind_some.
  destruct (connect_scripts st2 tx) as [[[|? ?] st3]|] eqn:E3; [|done|done]. rewrite bind_some.
  destruct (connect_coins i height st3 tx) as [st4|] eqn:E4; [|done]. rewrite bind_some. intros Hl. by exists st1, st2, st3, st4.
Qed.

(** *** The loop

    [all] are the transactions of the block, [done] those that are connected.
    Coins at outpoints of the block come from transactions already connected, and
    what these spent stays spent; so no two transactions of a connected block
    have the same id. *)
#[local] Abbreviation outputs_of tx o := (is_Some (output_at GetHash tx 0 (vout tx) o)).

Record run_inv (all done : list CTransaction) (u : coins) (st : state) : Prop := {
  ri_holds : holds (view st) u;
  ri_coins : coins_ok u;
  ri_fees : in_money (nFees st);
  ri_done : done ⊆ all;
  ri_out tx o : tx ∈ all -> outputs_of tx o -> is_Some (u o) -> exists a, a ∈ done /\ hash o = GetHash a;
  ri_spent a o : a ∈ done -> IsCoinBase a = false -> o ∈ prevouts a -> u o = None;
  ri_src a o tx : a ∈ done -> IsCoinBase a = false -> o ∈ prevouts a -> tx ∈ all -> outputs_of tx o -> exists a', a' ∈ done /\ hash o = GetHash a'
}.

(** An id stands for the inputs of a transaction. *)
Definition ids_ok (all : list CTransaction) : Prop :=
  forall a b, a ∈ all -> b ∈ all -> GetHash a = GetHash b -> prevouts a = prevouts b /\ IsCoinBase a = IsCoinBase b.

Lemma step_new all done u st tx :
  run_inv all done u st -> ids_ok all -> tx ∈ all -> well_formed tx -> (IsCoinBase tx = true -> done = []) ->
  (IsCoinBase tx = false -> forall i, i ∈ vin tx -> is_Some (u (prevout i))) ->
  (forall a, a ∈ done -> GetHash a <> GetHash tx) /\ outputs_ok GetHash u tx /\ inputs_ok u tx.
Proof using.
  intros Hinv Hids Htx Hwf Hcb Hin. assert (forall a, a ∈ done -> GetHash a <> GetHash tx) as Hne.
  { intros a Ha Eq. destruct (Hids a tx (ri_done _ _ _ _ Hinv a Ha) Htx Eq) as [Ep Ec]. destruct (IsCoinBase tx) eqn:Ecb; [rewrite (Hcb eq_refl) in Ha; by apply not_elem_of_nil in Ha|].
    pose proof (wf_vin _ Hwf) as Hne. destruct (vin tx) as [|i l] eqn:Ev; [done|]. destruct (Hin eq_refl i) as [x Hx]; [by left|].
    rewrite (ri_spent _ _ _ _ Hinv a (prevout i) Ha Ec) in Hx; [done|]. rewrite Ep. unfold prevouts. rewrite Ev. by left. }
  destruct (value_in_money tx Hwf) as (_ & Hnn & Hlen). split; [done|]. split; [split; [done|]; split; [done|]|].
  - intros o Ho. apply eq_None_not_Some. intros Hs. destruct (ri_out _ _ _ _ Hinv tx o Htx Ho Hs) as (a & Ha & Eh). apply (Hne a Ha). rewrite <- Eh. by apply output_hash.
  - intros Ecb. split; [apply (wf_inputs _ Hwf)|]. intros i Hi. destruct (Hin Ecb i Hi) as [x Hx]. exists x. split; [done|]. by apply (ri_coins _ _ _ _ Hinv (prevout i)).
Qed.

Lemma step_inv all done u st tx skip st' :
  run_inv all done u st -> tx ∈ all -> well_formed tx -> (forall a, a ∈ done -> GetHash a <> GetHash tx) -> outputs_ok GetHash u tx -> inputs_ok u tx ->
  holds (view st') (apply_tx GetHash height skip u tx) -> in_money (nFees st') ->
  run_inv all (tx :: done) (apply_tx GetHash height skip u tx) st'.
Proof using Hheight.
  intros Hinv Htx Hwf Hne (_ & _ & Hfresh) Hin Hh Hf.
  assert (forall o, is_Some (apply_tx GetHash height skip u tx o) -> outputs_of tx o \/ is_Some (u o)) as Hap.
  { intros o Ho. unfold apply_tx, over in Ho. destruct (created_from GetHash tx height skip 0 (vout tx) o) eqn:Ec; [left; eapply created_outputs; by rewrite Ec|right].
    destruct (IsCoinBase tx); [done|]. unfold removed in Ho. by case_decide. }
  split; [done|by apply apply_tx_ok, Hwf; [apply (ri_coins _ _ _ _ Hinv)|]|done| | | |].
  - intros a [->|Ha]%elem_of_cons; [done|by apply (ri_done _ _ _ _ Hinv)].
  - intros tx' o Htx' Ho Hs. destruct (Hap o Hs) as [Ht|Hu]; [exists tx; split; [by left|by apply output_hash]|].
    destruct (ri_out _ _ _ _ Hinv tx' o Htx' Ho Hu) as (a & Ha & E'). exists a. split; [by right|done].
  - intros a o Ha Ecb Hp. apply eq_None_not_Some. intros Hs. apply elem_of_cons in Ha as [->|Ha].
    + destruct (Hap o Hs) as [Ho|_].
      * destruct (Hin Ecb) as [_ Hi]. apply list_elem_of_fmap in Hp as (i & -> & Hi'). destruct (Hi i Hi') as (x & Hx & _). by rewrite (Hfresh _ Ho) in Hx.
      * revert Hs. unfold apply_tx, over. destruct (created_from _ _ _ _ _ _ o) eqn:Ec; [|rewrite Ecb; unfold removed; rewrite decide_True by done; by intros []].
        destruct (Hin Ecb) as [_ Hi]. apply list_elem_of_fmap in Hp as (i & -> & Hi'). destruct (Hi i Hi') as (x & Hx & _). rewrite (Hfresh (prevout i)) in Hx; [done|].
        eapply created_outputs. by rewrite Ec.
    + destruct (Hap o Hs) as [Ho|[x Hx]]; [|by rewrite (ri_spent _ _ _ _ Hinv a o Ha Ecb Hp) in Hx].
      destruct (ri_src _ _ _ _ Hinv a o tx Ha Ecb Hp Htx Ho) as (a' & Ha' & Eh). apply (Hne a' Ha'). rewrite <- Eh. by apply output_hash.
  - intros a o tx' Ha Ecb Hp Htx' Ho. apply elem_of_cons in Ha as [->|Ha].
    + destruct (Hin Ecb) as [_ Hi]. apply list_elem_of_fmap in Hp as (i & -> & Hi'). destruct (Hi i Hi') as (x & Hx & _).
      destruct (ri_out _ _ _ _ Hinv tx' (prevout i) Htx' Ho) as (a & Ha & E'); [by eauto|]. exists a. split; [by right|done].
    + destruct (ri_src _ _ _ _ Hinv a o tx' Ha Ecb Hp Htx' Ho) as (a' & Ha' & E'). exists a'. split; [by right|done].
Qed.

Lemma connect_step all done u i (st : state) tx l stf :
  run_inv all done u st -> ids_ok all -> tx ∈ all -> well_formed tx -> (IsCoinBase tx = true -> done = []) ->
  connect_txs i st (tx :: l) = Some (BlockValid, stf) ->
  exists st2 st', let u' := apply_tx GetHash height (skipZeroValue i) u tx in
    connect_txs (Datatypes.S i) st' l = Some (BlockValid, stf) /\ run_inv all (tx :: done) u' st' /\ amounts u st tx st' /\ outputs_ok GetHash u tx /\
    holds (view st2) u /\ vChecks st2 = vChecks st /\ execs st2 = execs st /\
    exists st3, connect_scripts st2 tx = Some (BlockValid, st3) /\ vChecks st' = vChecks st3 /\ execs st' = execs st3.
Proof using usage_empty Hheight.
  intros Hinv Hids Htx Hwf Hcb Hl. destruct (connect_txs_cons i st tx l stf Hl) as (st1 & st2 & st3 & st4 & E1 & E2 & E3 & E4 & E5).
  destruct (connect_inputs_spec st tx st1 u (ri_holds _ _ _ _ Hinv) (ri_coins _ _ _ _ Hinv) Hwf (ri_fees _ _ _ _ Hinv) E1) as (Hc1 & Hv1 & Hx1 & Hf1 & Ham).
  destruct (connect_sigops_spec st1 tx _ st2 u Hc1 E2) as (Hc2 & Hv2 & Hx2 & Hf2 & Hs2). destruct (connect_scripts_spec st2 tx _ st3 u Hc2 E3) as (Hc3 & Hf3 & Hs3).
  destruct (step_new all done u st tx Hinv Hids Htx Hwf Hcb) as (Hne & Hout & Hin); [intros Ecb; by apply (proj2 Ham)|].
  destruct (connect_coins_spec i st3 tx st4 u Hc3 Hout Hin E4) as (Hc4 & Hv4 & Hx4 & Hf4 & Hs4). assert (nFees st4 = nFees st1) as Ef by congruence. assert (nStakeReward st4 = nStakeReward st1) as Es by congruence.
  exists st2, st4. cbn zeta. split; [done|]. split; [apply (step_inv all done u st); try done; congruence|]. split; [unfold amounts in *; by rewrite Ef, Es|].
  split; [done|]. split; [done|]. split; [congruence|]. split; [congruence|]. exists st3. split; [done|]. split; congruence.
Qed.

(** The outpoints that a block names are among [D]. *)
Definition covers (D : list COutPoint) (all : list CTransaction) : Prop :=
  NoDup D /\ forall tx, tx ∈ all -> (forall o, o ∈ prevouts tx -> o ∈ D) /\ (forall o, outputs_of tx o -> o ∈ D).

(** Money made or destroyed by one transaction. *)
Lemma step_supply D all u i (st : state) tx st' :
  covers D all -> tx ∈ all -> well_formed tx -> outputs_ok GetHash u tx -> amounts u st tx st' ->
  let u' := apply_tx GetHash height (skipZeroValue i) u tx in
  (IsCoinBase tx = true -> supply D u' + nFees st' <= supply D u + nFees st + total (vout tx) /\ nStakeReward st' = nStakeReward st) /\
  (IsCoinBase tx = false -> IsCoinStake tx = true -> supply D u' + nFees st' <= supply D u + nFees st + nStakeReward st') /\
  (IsCoinBase tx = false -> IsCoinStake tx = false -> supply D u' + nFees st' <= supply D u + nFees st /\ nStakeReward st' = nStakeReward st).
Proof using.
  intros [HD Hcov] Htx Hwf Hout [Hcb Hncb]. destruct (Hcov tx Htx) as [Hp Ho]. destruct (value_in_money tx Hwf) as (Hv & _ & _).
  pose proof (supply_tx GetHash tx height (skipZeroValue i) D u HD Hp Ho Hout (wf_inputs _ Hwf) Hv) as Hs. cbn zeta. split; [|split].
  - intros Ecb. rewrite Ecb in Hs. destruct (Hcb Ecb) as [-> ->]. lia.
  - intros Ecb Ecs. rewrite Ecb in Hs. destruct (Hncb Ecb) as (_ & Hst & _). destruct (Hst Ecs) as [-> ?]. lia.
  - intros Ecb Ecs. rewrite Ecb in Hs. destruct (Hncb Ecb) as (_ & _ & Hpl). destruct (Hpl Ecs) as [-> ?]. lia.
Qed.

(** Transactions that are neither coinbase nor coinstake. *)
Lemma plain_txs all done u i (st : state) l stf :
  run_inv all done u st -> ids_ok all -> l ⊆ all -> Forall well_formed l -> Forall (fun tx => IsCoinBase tx = false) l -> Forall (fun tx => IsCoinStake tx = false) l ->
  connect_txs i st l = Some (BlockValid, stf) ->
  exists done' u', run_inv all done' u' stf /\ nStakeReward stf = nStakeReward st /\ forall D, covers D all -> supply D u' + nFees stf <= supply D u + nFees st.
Proof using usage_empty Hheight.
  intros Hinv Hids. revert done u i st Hinv. induction l as [|tx l IH]; intros done u i st Hinv Hsub Hwf Hcb Hcs Hl.
  { injection Hl as <-. exists done, u. split; [done|]. split; [done|]. intros; lia. }
  inversion Hwf as [|? ? Hw Hwf']; subst. inversion Hcb as [|? ? Hc Hcb']; subst. inversion Hcs as [|? ? Hs Hcs']; subst. assert (tx ∈ all) as Htx by (apply Hsub; by left).
  destruct (connect_step all done u i st tx l stf Hinv Hids Htx Hw ltac:(congruence) Hl) as (_ & st' & Hl' & Hinv' & Ham & Hout & _).
  destruct (IH _ _ (Datatypes.S i) _ Hinv') as (done' & u' & Hi & Hst & Hsup); [intros a Ha; apply Hsub; by right|done..|]. exists done', u'. split; [done|].
  pose proof (proj2 (proj2 Ham Hc)) as [_ Hpl]. split; [rewrite Hst; by apply Hpl|]. intros D HD.
  destruct (step_supply D all u i st tx st' HD Htx Hw Hout Ham) as (_ & _ & H3). destruct (H3 Hc Hs) as [H4 _]. specialize (Hsup D HD). lia.
Qed.

(** All transactions of a block. *)
Lemma block_supply block u (st stf : state) :
  run_inv (vtx block) [] u st -> ids_ok (vtx block) -> generated_rules block -> Forall well_formed (vtx block) ->
  connect_txs 0 st (vtx block) = Some (BlockValid, stf) ->
  exists done u' cb, run_inv (vtx block) done u' stf /\ head (vtx block) = Some cb /\ well_formed cb /\ forall D, covers D (vtx block) ->
    supply D u' + nFees stf <= supply D u + nFees st + total (vout cb) + (if IsProofOfStake block then nStakeReward stf else 0).
Proof using usage_empty Hheight.
  intros Hinv Hids Hgen Hwf Hl. destruct (gr_coinbase _ Hgen) as [Hne Hcb]. pose proof (gr_coinstake _ Hgen) as Hcs. unfold IsProofOfStake.
  remember (vtx block) as all eqn:Eall in *. destruct all as [|cb rest]; [done|]. destruct Hcb as [Ecb Hrest]. apply coinbase_first_Forall in Hrest. cbn [drop] in Hcs.
  inversion Hwf as [|? ? Hw Hwf']; subst. set (all := cb :: rest) in *. assert (cb ∈ all) as Hin by by left.
  destruct (connect_step all [] u 0 st cb rest stf Hinv Hids Hin Hw ltac:(done) Hl) as (_ & st1 & Hl1 & Hinv1 & Ham1 & Hout1 & _).
  destruct rest as [|tx rest].
  { injection Hl1 as <-. exists [cb], (apply_tx GetHash height (skipZeroValue 0) u cb), cb. split; [done|]. split; [done|]. split; [done|]. intros D HD.
    destruct (step_supply D all u 0 st cb st1 HD Hin Hw Hout1 Ham1) as (H1 & _ & _). destruct (H1 Ecb). lia. }
  inversion Hwf' as [|? ? Hwt Hwf'']; subst. inversion Hrest as [|? ? Hct Hrest']; subst. assert (tx ∈ all) as Htx by (right; by left).
  destruct (connect_step all [cb] _ 1 st1 tx rest stf Hinv1 Hids Htx Hwt ltac:(congruence) Hl1) as (_ & st2 & Hl2 & Hinv2 & Ham2 & Hout2 & _).
  destruct (plain_txs all _ _ 2 st2 rest stf Hinv2 Hids) as (past & u' & Hi & Hst & Hsup); [intros a Ha; right; by right|done..|].
  exists past, u', cb. split; [done|]. split; [done|]. split; [done|]. intros D HD. specialize (Hsup D HD).
  destruct (step_supply D all u 0 st cb st1 HD Hin Hw Hout1 Ham1) as (H1 & _ & _). destruct (H1 Ecb) as [H1' _].
  destruct (step_supply D all _ 1 st1 tx st2 HD Htx Hwt Hout2 Ham2) as (_ & H2 & H3). rewrite Hst. destruct (IsCoinStake tx); [specialize (H2 Hct eq_refl); lia|].
  destruct (H3 Hct eq_refl). lia.
Qed.

(** *** Scripts

    [coin_at] is the output an outpoint stands for, as in [InputTheory]. *)
Context (coin_at : COutPoint -> option CTxOut) (nonce : list Z) (log : list (CTransaction * Z)).
#[local] Abbreviation passed := (InputTheory.passed verifier junk).
#[local] Abbreviation exec_ok := (InputTheory.exec_ok verifier junk coin_at nonce log).

Definition named (u : coins) : Prop := forall o x, u o = Some x -> coin_at o = Some (out x) /\ output_bytes (out x).
(** Transactions as they are read from the network, whose ids stand for their outputs. *)
Definition readable (tx : CTransaction) : Prop :=
  wire_ok tx /\ Forall input_bytes (vin tx) /\ forall o x, output_at GetHash tx 0 (vout tx) o = Some x -> coin_at o = Some x /\ output_bytes x.
Definition verified (tx : CTransaction) : Prop :=
  (exists outs, spends coin_at tx outs /\ scripts_ok verifier junk tx outs flags) \/ exec_confused nonce log (tx, flags).

Lemma named_apply skip u tx : named u -> readable tx -> named (apply_tx GetHash height skip u tx).
Proof using.
  intros Hu (_ & _ & Hout) o x. unfold apply_tx, over, created_from. destruct (output_at GetHash tx 0 (vout tx) o) as [y|] eqn:Ey; cbn [mbind option_bind].
  - destruct (skipped _ skip); [|intros [= <-]; by apply Hout]. destruct (IsCoinBase tx); [by apply Hu|]. unfold removed. case_decide; [done|by apply Hu].
  - destruct (IsCoinBase tx); [by apply Hu|]. unfold removed. case_decide; [done|by apply Hu].
Qed.

Context (Hj : length junk = 64%nat) (Hscripts : fScriptChecks = true) (Hjust : fJustCheck = false) (Hflags : SoftFork.consistent flags) (Hrange : in_u 32 flags).
Context (Hver : forall store sig key hash, length sig = 64%nat -> is_Some (@VerifySchnorrSignature (verifier store) sig key hash)).

Lemma connect_scripts_verify (st st' : state) tx u :
  holds (view st) u -> named u -> exec_ok (execs st) -> readable tx -> well_formed tx -> IsCoinBase tx = false -> (forall i, i ∈ vin tx -> is_Some (u (prevout i))) ->
  connect_scripts st tx = Some (BlockValid, st') ->
  exec_ok (execs st') /\ (Forall passed (vChecks st') -> Forall passed (vChecks st) /\ verified tx).
Proof using Hj Hscripts Hjust Hflags Hrange Hver.
  intros Hc Hu Hec (Hw & Hib & _) Hwf Hcb Hin. unfold ConnectBlock.connect_scripts. rewrite Hcb, Hscripts, Hjust. cbn [negb orb].
  destruct (CheckInputScripts_spec verifier junk usage u coin_at nonce log (execs st) (view st) tx flags false false (g_parallel_script_checks node) Hj Hver Hec Hc Hu Hw Hib Hcb
    (wf_vin _ Hwf) Hin Hflags Hrange) as (v & checks & c' & td & ec' & -> & _ & (log' & _ & Hlog & Hok) & Hv & _).
  rewrite bind_some. destruct v as [|? ?]; [|done]. intros [= <-]. cbn [execs vChecks]. rewrite (Hlog eq_refl) in Hok. split; [done|].
  rewrite Forall_app. intros [Hp1 Hp2]. split; [done|]. by apply Hv.
Qed.

Lemma coinbase_scripts (st st' : state) tx : IsCoinBase tx = true -> connect_scripts st tx = Some (BlockValid, st') -> st' = st.
Proof using. intros Hcb. unfold ConnectBlock.connect_scripts. rewrite Hcb. by intros [= <-]. Qed.

Lemma plain_scripts all past u i (st : state) l stf :
  run_inv all past u st -> ids_ok all -> l ⊆ all -> Forall well_formed l -> Forall (fun tx => IsCoinBase tx = false) l -> Forall readable l -> named u -> exec_ok (execs st) ->
  connect_txs i st l = Some (BlockValid, stf) ->
  Forall passed (vChecks stf) -> Forall passed (vChecks st) /\ Forall verified l.
Proof using usage_empty Hheight Hj Hscripts Hjust Hflags Hrange Hver.
  intros Hinv Hids. revert past u i st Hinv. induction l as [|tx l IH]; intros past u i st Hinv Hsub Hwf Hcb Hrd Hu Hec Hl Hp.
  { injection Hl as <-. by split. }
  apply Forall_cons in Hwf as [Hw Hwf'], Hcb as [Hc Hcb'], Hrd as [Hr Hrd']. assert (tx ∈ all) as Htx by (apply Hsub; by left).
  destruct (connect_step all past u i st tx l stf Hinv Hids Htx Hw ltac:(congruence) Hl) as (st2 & st' & Hl' & Hinv' & Ham & _ & Hc2 & Hv2 & Hx2 & st3 & E3 & Hv3 & Hx3).
  destruct (connect_scripts_verify st2 st3 tx u) as [Hec3 Hver3]; [done|done|by rewrite Hx2|done|done|done|by apply (proj2 Ham Hc)|done|].
  destruct (IH (tx :: past) _ (Datatypes.S i) st' Hinv') as [Hp' Hl2]; [intros a Ha; apply Hsub; by right|done..|by apply named_apply|by rewrite Hx3|done|done|].
  rewrite Hv3 in Hp'. destruct (Hver3 Hp') as [Hp2 Hv]. rewrite Hv2 in Hp2. split; [done|]. by constructor.
Qed.

Lemma block_scripts block u (st stf : state) :
  run_inv (vtx block) [] u st -> ids_ok (vtx block) -> generated_rules block -> Forall well_formed (vtx block) -> Forall readable (vtx block) -> named u -> exec_ok (execs st) ->
  connect_txs 0 st (vtx block) = Some (BlockValid, stf) -> Forall passed (vChecks stf) ->
  Forall verified (tail (vtx block)).
Proof using usage_empty Hheight Hj Hscripts Hjust Hflags Hrange Hver.
  intros Hinv Hids Hgen Hwf Hrd Hu Hec Hl Hp. destruct (gr_coinbase _ Hgen) as [Hne Hcb]. destruct (vtx block) as [|cb rest]; [done|]. destruct Hcb as [Ecb Hrest].
  apply coinbase_first_Forall in Hrest. apply Forall_cons in Hwf as [Hw Hwf'], Hrd as [Hr Hrd']. cbn [tail].
  destruct (connect_step _ [] u 0 st cb rest stf Hinv Hids ltac:(by left) Hw ltac:(done) Hl) as (st2 & st1 & Hl1 & Hinv1 & _ & _ & _ & Hv2 & Hx2 & st3 & E3 & Hv3 & Hx3).
  apply coinbase_scripts in E3 as ->; [|done]. eapply plain_scripts; try done; [intros a Ha; by right|by apply named_apply|]. rewrite Hx3, Hx2. exact Hec.
Qed.

End Block.

(** The reward bounds what the block makes. *)
Lemma check_reward_spec {S E} (node : Node) block height (st : @connect_state S E) cb :
  check_reward node block height st = Some BlockValid -> head (vtx block) = Some cb -> well_formed cb -> in_money (nFees st) ->
  exists r, Subsidy.GetBlockReward height (params node) = Some r /\
    total (vout cb) + (if IsProofOfStake block then nStakeReward st else 0) <= nFees st + r.
Proof.
  unfold check_reward. destruct (Subsidy.GetBlockReward _ _) as [r|] eqn:Er; [|done]. rewrite bind_some. apply Subsidy.reward_range in Er. intros Hr Hcb Hwf Hf.
  exists r. split; [done|]. rewrite Hcb in Hr. rewrite bind_some in Hr. destruct (value_out cb Hwf) as [Hvo Hmo]. rewrite Hvo, bind_some in Hr. unfold in_money, MAX_MONEY, COIN in *.
  assert (i64 (nFees st + r) = nFees st + r) as Ei by (apply swrap_small; [lia|unfold in_s; lia]). rewrite Ei in Hr. unfold IsProofOfWork in Hr.
  destruct (IsProofOfStake block); cbn [andb negb] in Hr; [case_if_in Hr; [done|]|]; case_if_in Hr; try done; lia.
Qed.

(** ** The whole function *)

Section Whole.
Context {S : Type} {V : CoinsView S} (usage : Coin -> Z) (GetHash : CTransaction -> list Z).
Context {E : Type} `{ForgetfulSet E (list Z)} `{!BN} `{Pubkey.Secp256k1} (verifier : bool -> SignatureVerifier) (junk : list Z).
Context (FindTx : list Z -> option (Z * CTransaction)) (FindStake : list Z -> option (Z * CBlockHeader * CTransaction)).
Context (GetRand : nat -> nat) (InvalidateBlock : Chain.heap -> Chain.ptr -> Chain.heap).
Context (D64 : list Z -> nat -> list Z) (signet_blocks : bool) (CheckPOW : CBlockHeader -> bool) (CheckSignetBlockSolution CheckBlockSignature : CBlock -> bool).
Context (WriteUndoDataForBlock : CBlockUndo -> CBlockIndex -> bool * CBlockIndex) (skipZeroValue : nat -> bool) (node : Node).
#[local] Abbreviation holds := (@BlockCoins.holds S V usage).
#[local] Abbreviation state := (@connect_state S E).
#[local] Abbreviation connect := (ConnectBlock usage GetHash verifier junk FindTx FindStake GetRand InvalidateBlock D64 signet_blocks CheckPOW
  CheckSignetBlockSolution CheckBlockSignature WriteUndoDataForBlock skipZeroValue node).
#[local] Abbreviation rules := (block_rules D64 GetHash signet_blocks CheckPOW CheckSignetBlockSolution).

Lemma best_holds c hash u : holds c u -> holds (SetBestBlock c hash) u.
Proof using. intros [Hok Hu]. by split. Qed.

Lemma GetBestBlock_holds c u : holds c u -> holds (Cache_GetBestBlock c).2 u.
Proof using.
  intros [Hok Hu]. pose proof (Cache_GetBestBlock_spec usage c Hok) as HG. destruct (Cache_GetBestBlock c) as [hash c']. destruct HG as (Hok' & Hu' & _).
  split; [done|]. intros o. by rewrite Hu'.
Qed.

(** A block that was connected: the transactions were run from the coins given,
    with the flags of the block, and the reward and the scripts were checked. *)
Record connected_by (block : CBlock) (pindex : Chain.ptr) (b : CBlockIndex) (u : coins) (ec : @exec_cache E) (fScriptChecks : bool) (flags : Z) (c' : @CCoinsViewCache S) : Prop := {
  cb_run : exists h nl (st stf : state), holds (view st) u /\ nFees st = 0 /\ vChecks st = [] /\ execs st = ec /\
    connect_txs usage GetHash verifier junk FindTx skipZeroValue node h pindex (Chain.nHeight b) (hTime (header block)) nl flags fScriptChecks false 0 st (vtx block) =
      Some (BlockValid, stf) /\
    check_reward node block (Chain.nHeight b) stf = Some BlockValid /\ control_wait verifier junk (vChecks stf) = Some true /\
    exists hash, c' = SetBestBlock (view stf) hash;
  cb_flags : exists t, flags = GetBlockScriptFlags (main node) (BIP16Exception node) (Some (Chain.phashBlock b)) (Some t);
  cb_checks : Blob.IsNull (hashAssumeValid node) = true -> fScriptChecks = true;
  cb_new : BIP34_IMPLIES_BIP30_LIMIT <= Chain.nHeight b -> forall tx j, tx ∈ vtx block -> (j < length (vout tx))%nat -> u (mkOutPoint (GetHash tx) (u32 j)) = None
}.

Lemma record_block_view pindex b supply0 s fChecked (st : state) out :
  record_block WriteUndoDataForBlock pindex b supply0 s fChecked st = Some (Connected, out) -> exists hash, o_view out = SetBestBlock (view st) hash.
Proof using.
  unfold record_block. destruct (WriteUndoDataForBlock _ _) as [w b1]. case_if; [done|]. destruct (Chain.IsValid _ _) as [valid|]; [|done]. rewrite bind_some.
  match goal with |- context [mbind _ ?m] => destruct m; [|done] end. rewrite bind_some. intros [= <-]. by eexists.
Qed.

Lemma connect_transactions_spec block pindex b s fChecked c txs ec out u :
  holds c u -> connect_transactions usage GetHash verifier junk FindTx WriteUndoDataForBlock skipZeroValue node block pindex b false s fChecked c txs ec = Some (Connected, out) ->
  exists scripts flags, connected_by block pindex b u ec scripts flags (o_view out).
Proof using.
  intros Hc. unfold connect_transactions. destruct (script_checks node (index s) pindex b) as [scripts|] eqn:Es; [|done]. rewrite bind_some.
  destruct (Chain.pprev b) as [p|]; [|done]. rewrite bind_some. destruct (index s !! p) as [bp|]; [|done]. rewrite bind_some.
  destruct (Chain.GetAncestor _ _ _); [|done]. rewrite bind_some.
  destruct (if BIP34_IMPLIES_BIP30_LIMIT <=? Chain.nHeight b then _ else _) as [dup c1] eqn:Ed. destruct dup; [done|].
  assert (holds c1 u /\ (BIP34_IMPLIES_BIP30_LIMIT <= Chain.nHeight b -> forall tx j, tx ∈ vtx block -> (j < length (vout tx))%nat -> u (mkOutPoint (GetHash tx) (u32 j)) = None)) as [Hc1 Hnew].
  { case_if_in Ed; [|injection Ed as <-; split; [done|lia]]. pose proof (any_overwrites_spec usage u GetHash (vtx block) c Hc) as [H1' H2']. rewrite Ed in H1', H2'. split; [done|]. intros _. by apply H2'. }
  destruct (connect_txs _ _ _ _ _ _ _ _ _ _ _ _ _ _ _ _ _ _) as [[[|? ?] stf]|] eqn:El; [|done|done]. rewrite bind_some.
  destruct (check_reward node block (Chain.nHeight b) stf) as [[|? ?]|] eqn:Er; [|done|done]. rewrite bind_some.
  destruct (control_wait _ _ _) as [[|]|] eqn:Ew; [|done|done]. rewrite bind_some. cbn [negb]. intros Hrec. destruct (record_block_view _ _ _ _ _ _ _ Hrec) as [hash Ho].
  eexists scripts, _. split; [|by eexists| |done].
  - eexists _, _, (mkConnect c1 txs 0 0 0 0 0 [] [] ec), stf. cbn [view nFees vChecks execs]. split; [done|]. split; [done|]. split; [done|]. split; [done|]. split; [exact El|]. split; [done|]. split; [done|]. by exists hash.
  - intros Hnull. unfold script_checks in Es. rewrite Hnull in Es. by injection Es.
Qed.

Lemma same_place_refl b : same_place b b.
Proof using. by repeat split. Qed.

(** The rules for the block by itself, whether they are checked now or were before. *)
Lemma CheckBlock_rules fChecked block f :
  block_bytes block < 2 ^ 62 -> (fChecked = true -> rules block) ->
  CheckBlock D64 GetHash (main node) signet_blocks CheckPOW CheckSignetBlockSolution CheckBlockSignature fChecked block true true true = Some (BlockValid, f) -> rules block.
Proof using.
  intros Hb Hf. destruct fChecked; [intros _; by apply Hf|]. intros Hck.
  destruct (CheckBlock_unmarked D64 GetHash (main node) signet_blocks CheckPOW CheckSignetBlockSolution CheckBlockSignature block Hb) as (v & f' & E' & _ & Hv).
  rewrite E' in Hck. injection Hck as -> _. by apply Hv.
Qed.

Lemma ConnectBlock_spec block fChecked pindex b s c txs ec out u :
  holds c u -> index s !! pindex = Some b -> block_bytes block < 2 ^ 62 -> (fChecked = true -> rules block) ->
  connect block fChecked pindex false s c txs ec = Some (Connected, out) ->
  rules block /\
  (CBlockHeader_GetHash (header block) = hashGenesisBlock node /\ holds (o_view out) u \/
   exists b' scripts flags, same_place b b' /\ connected_by block pindex b' u ec scripts flags (o_view out)).
Proof using.
  intros Hc Hb Hbytes Hmark. unfold ConnectBlock. rewrite Hb, bind_some. destruct (bool_decide (Chain.phashBlock b <> _)); [done|].
  match goal with |- context [mbind _ ?m] => destruct m as [[[ok v] s1]|] eqn:Es; [|done] end. rewrite bind_some. destruct ok; cbn [negb]; [|done].
  destruct (CheckBlock _ _ _ _ _ _ _ _ _ _ _ _) as [[v1 f1]|] eqn:Ec; [|done]. rewrite bind_some. destruct v1 as [|r ?]; [|by destruct r].
  assert (exists b', index s1 !! pindex = Some b' /\ same_place b b') as (b' & Hb' & Hsame).
  { case_if_in Es; [|injection Es as _ <-; exists b; split; [done|apply same_place_refl]].
    destruct (contextual_checks_spec _ _ _ _ _ _ _ _ _ _ _ _ _ _ _ _ _ _ Hb Es) as (_ & _ & Hw & _). destruct (Hw eq_refl eq_refl) as (b' & -> & Hsame & _).
    exists b'. split; [apply lookup_insert_eq|done]. }
  rewrite Hb', bind_some. match goal with |- context [mbind _ ?m] => destruct m as [prev|]; [|done] end. rewrite bind_some.
  pose proof (GetBestBlock_holds c u Hc) as Hc1. destruct (Cache_GetBestBlock c) as [best c1]. cbn [snd] in Hc1. destruct (bool_decide (prev <> best)); [done|].
  pose proof (CheckBlock_rules fChecked block f1 Hbytes Hmark Ec) as Hrules. destruct (bool_decide (_ = hashGenesisBlock node)) eqn:Eg.
  - intros [= <-]. split; [done|]. left. apply bool_decide_eq_true in Eg. split; [done|]. cbn. by apply best_holds.
  - intros Hct. split; [done|]. right. destruct (connect_transactions_spec _ _ _ _ _ _ _ _ _ _ Hc1 Hct) as (scripts & flags & Hcb). by exists b', scripts, flags.
Qed.

(** No output of the block is a coin yet; from a height on this is checked. *)
Definition new_outputs (u : coins) (block : CBlock) : Prop :=
  forall tx o, tx ∈ vtx block -> is_Some (output_at GetHash tx 0 (vout tx) o) -> u o = None.

Lemma connected_new block pindex b u ec scripts flags c' :
  connected_by block pindex b u ec scripts flags c' -> Forall well_formed (vtx block) ->
  (Chain.nHeight b < BIP34_IMPLIES_BIP30_LIMIT -> new_outputs u block) -> new_outputs u block.
Proof using.
  intros Hcb Hwf Hnew. destruct (Z.lt_ge_cases (Chain.nHeight b) BIP34_IMPLIES_BIP30_LIMIT) as [Hlt|Hge]; [by apply Hnew|]. intros tx o Htx [x Hx].
  unfold output_at in Hx. destruct (bool_decide (hash o = GetHash tx)) eqn:Eh; [|done]. apply bool_decide_eq_true in Eh. destruct (0 <=? n o) eqn:En; [|done]. cbn [andb] in Hx. cases_bool.
  rewrite Z.sub_0_r in Hx. apply lookup_lt_Some in Hx as Hl. rewrite Forall_forall in Hwf. destruct (value_in_money tx (Hwf tx Htx)) as (_ & _ & Hlen).
  pose proof (cb_new _ _ _ _ _ _ _ _ Hcb Hge tx (Z.to_nat (n o)) Htx Hl) as Hu. rewrite Z2Nat.id, u32_small in Hu by (try lia; unfold in_u; lia). rewrite <- Eh in Hu. by destruct o.
Qed.

Lemma start_inv block u (st : state) : holds (view st) u -> coins_ok u -> nFees st = 0 -> new_outputs u block -> run_inv usage GetHash (vtx block) [] u st.
Proof using.
  intros Hc Hu Hf Hnew. split; [done|done|rewrite Hf; unfold in_money, MAX_MONEY, COIN; lia|by intros ? ?%not_elem_of_nil| |by intros ? ? ?%not_elem_of_nil|by intros ? ? ? ?%not_elem_of_nil].
  intros tx o Htx Ho [x Hx]. by rewrite (Hnew tx o Htx Ho) in Hx.
Qed.

Lemma connected_supply block pindex b u ec scripts flags c' :
  usage coinEmpty = 0 -> connected_by block pindex b u ec scripts flags c' -> rules block -> coins_ok u -> 0 < Chain.nHeight b < 2 ^ 31 -> ids_ok GetHash (vtx block) ->
  (Chain.nHeight b < BIP34_IMPLIES_BIP30_LIMIT -> new_outputs u block) ->
  exists u' r, holds c' u' /\ coins_ok u' /\ Subsidy.GetBlockReward (Chain.nHeight b) (params node) = Some r /\
    forall D, covers GetHash D (vtx block) -> supply D u' <= supply D u + r.
Proof using.
  intros Hempty Hcb Hrules Hu Hh Hids Hnew. pose proof (br_txs _ _ _ _ _ _ Hrules) as Hwf. pose proof (connected_new _ _ _ _ _ _ _ _ Hcb Hwf Hnew) as Hfresh.
  destruct (cb_run _ _ _ _ _ _ _ _ Hcb) as (h & nl & st & stf & Hc & Hf & _ & _ & Hl & Hr & _ & hash & ->).
  pose proof (start_inv block u st Hc Hu Hf Hfresh) as Hinv.
  destruct (block_supply usage Hempty GetHash verifier junk FindTx skipZeroValue node h pindex (Chain.nHeight b) (hTime (header block)) nl flags scripts false Hh block u st stf
    Hinv Hids (br_generated _ _ _ _ _ _ Hrules) Hwf Hl) as (done' & u' & cb & Hinv' & Hhead & Hwcb & Hsup).
  destruct (check_reward_spec node block (Chain.nHeight b) stf cb Hr Hhead Hwcb (ri_fees _ _ _ _ _ _ Hinv')) as (r & Er & Hb).
  exists u', r. split; [by apply best_holds, (ri_holds _ _ _ _ _ _ Hinv')|]. split; [apply (ri_coins _ _ _ _ _ _ Hinv')|]. split; [done|].
  intros D HD. specialize (Hsup D HD). rewrite Hf in Hsup. lia.
Qed.


Lemma control_wait_passed checks : control_wait verifier junk checks = Some true -> Forall (passed verifier junk) checks.
Proof using.
  unfold control_wait. destruct (mapM _ checks) as [rs|] eqn:Em; [|done]. rewrite bind_some. intros [= Hf]. apply mapM_Some in Em.
  induction Em as [|c [ok e] checks rs Hc Em IH]; [constructor|]. cbn [forallb fst] in Hf. apply andb_prop in Hf as [-> Hf]. constructor; [by exists e|by apply IH].
Qed.


End Whole.

(** ** A chain of blocks *)

Definition touched (GetHash : CTransaction -> list Z) (tx : CTransaction) : list COutPoint :=
  prevouts tx ++ map (fun k => mkOutPoint (GetHash tx) (Z.of_nat k)) (seq 0 (length (vout tx))).

Lemma touched_spec GetHash tx o : o ∈ prevouts tx \/ is_Some (output_at GetHash tx 0 (vout tx) o) -> o ∈ touched GetHash tx.
Proof.
  intros [Ho|[x Hx]]; apply elem_of_app; [by left|right]. unfold output_at in Hx. destruct (bool_decide _) eqn:Eh; [|done]. apply bool_decide_eq_true in Eh.
  destruct (0 <=? n o) eqn:En; [|done]. cbn [andb] in Hx. cases_bool. rewrite Z.sub_0_r in Hx. apply lookup_lt_Some in Hx. apply list_elem_of_fmap. exists (Z.to_nat (n o)).
  split; [rewrite Z2Nat.id by lia; rewrite <- Eh; by destruct o|]. apply elem_of_seq. lia.
Qed.

(** Outpoints, and with them all those of a block. *)
Lemma cover_extend GetHash D l : NoDup D -> exists D', covers GetHash (D ++ D') l.
Proof.
  intros HD. set (T := remove_dups (concat (map (touched GetHash) l))). exists (filter (fun o => o ∉ D) T). split.
  - apply NoDup_app. split; [done|]. split; [|apply NoDup_filter, NoDup_remove_dups]. intros o Ho [Hn _]%list_elem_of_filter. done.
  - assert (forall tx o, tx ∈ l -> o ∈ touched GetHash tx -> o ∈ D ++ filter (fun o => o ∉ D) T) as Ht.
    { intros tx o Htx Ho. apply elem_of_app. destruct (decide (o ∈ D)); [by left|right]. apply list_elem_of_filter. split; [done|]. apply elem_of_remove_dups.
      apply list_elem_of_In, in_concat. exists (touched GetHash tx). split; [|by apply list_elem_of_In]. apply list_elem_of_In. by apply list_elem_of_fmap_2. }
    intros tx Htx. split; intros o Ho; apply (Ht tx o Htx), touched_spec; auto.
Qed.

Lemma supply_app D D' u : supply (D ++ D') u = supply D u + supply D' u.
Proof. unfold supply, sumZ. induction D as [|o D IH]; [done|]. cbn [app foldr]. rewrite IH. lia. Qed.

Lemma supply_nonneg D u : coins_ok u -> 0 <= supply D u.
Proof. intros Hu. apply sumZ_nonneg. intros o _. unfold value_of. destruct (u o) as [x|] eqn:Ex; [|lia]. by apply (Hu o). Qed.

Section Chain.
Context {S : Type} {V : CoinsView S} (usage : Coin -> Z) (usage_empty : usage coinEmpty = 0) (GetHash : CTransaction -> list Z).
Context {E : Type} `{ForgetfulSet E (list Z)} `{!BN} `{Pubkey.Secp256k1} (prm : Params).

(** A block at a height takes the set of coins [u] to [u'].  All else that the
    node knows, has cached or is given may differ from block to block. *)
Definition connects (height : Z) (u u' : coins) : Prop :=
  exists verifier junk FindTx FindStake GetRand InvalidateBlock D64 signet CheckPOW CheckSignet CheckSig WriteUndo skip node block fChecked pindex b s c txs ec out,
    params node = prm /\ BlockCoins.holds usage c u /\ index s !! pindex = Some b /\ Chain.nHeight b = height /\ block_bytes block < 2 ^ 62 /\
    (fChecked = true -> block_rules D64 GetHash signet CheckPOW CheckSignet block) /\ CBlockHeader_GetHash (header block) <> hashGenesisBlock node /\
    ids_ok GetHash (vtx block) /\ (height < BIP34_IMPLIES_BIP30_LIMIT -> new_outputs GetHash u block) /\
    @ConnectBlock S V usage GetHash E _ _ _ verifier junk FindTx FindStake GetRand InvalidateBlock D64 signet CheckPOW CheckSignet CheckSig WriteUndo skip node
      block fChecked pindex false s c txs ec = Some (Connected, out) /\
    BlockCoins.holds usage (o_view out) u'.

(** The sets of coins after blocks at heights one, two, and so on. *)
Inductive chain : nat -> coins -> Prop :=
  | chain_genesis : chain 0 (fun _ => None)
  | chain_block k u u' : chain k u -> connects (Datatypes.S k) u u' -> chain (Datatypes.S k) u'.

Lemma chain_issued k u : chain k u -> k < 2 ^ 31 -> coins_ok u /\ forall D, NoDup D -> supply D u <= Subsidy.issued prm k.
Proof using usage_empty.
  induction 1 as [|k u u' Hch IH Hco]; intros Hk.
  { split; [done|]. intros D _. unfold supply, sumZ. induction D as [|o D IH]; [done|]. cbn [foldr]. unfold value_of at 1. lia. }
  destruct (IH ltac:(lia)) as [Hu Hsup]. destruct Hco as (verifier & junk & FindTx & FindStake & GetRand & Inv & D64 & signet & pow & csignet & csig & wu & skip & node & block &
    fChecked & pindex & b & s & c & txs & ec & out & Hprm & Hc & Hb & Hh & Hbytes & Hmark & Hgen & Hids & Hnew & Hconn & Hout).
  destruct (ConnectBlock_spec usage GetHash verifier junk FindTx FindStake GetRand Inv D64 signet pow csignet csig wu skip node block fChecked pindex b s c txs ec out u Hc Hb Hbytes Hmark Hconn)
    as [Hrules [[Hg _]|(b' & scripts & flags & Hsame & Hcb)]]; [done|]. destruct Hsame as (_ & _ & _ & Eh & _). rewrite Hh in Eh.
  destruct (connected_supply usage GetHash verifier junk FindTx D64 signet pow csignet skip node block pindex b' u ec scripts flags (o_view out) usage_empty Hcb Hrules Hu) as (u1 & r & H1' & Hu1 & Er & Hs);
    [rewrite Eh; lia|done|by rewrite Eh|]. rewrite Eh, Hprm in Er.
  assert (forall o, u' o = u1 o) as Heq by (intros o; destruct Hout as [_ H2'], H1' as [_ H3']; by rewrite <- H2', H3').
  split; [intros o x Hx; rewrite Heq in Hx; by apply (Hu1 o)|]. intros D HD. destruct (cover_extend GetHash D (vtx block) HD) as [D' Hcov]. specialize (Hs _ Hcov).
  rewrite (supply_ext D u' u1 Heq). rewrite !supply_app in Hs. pose proof (supply_nonneg D' u1 Hu1). specialize (Hsup (D ++ D') (proj1 Hcov)). rewrite supply_app in Hsup.
  cbn [Subsidy.issued]. rewrite Er. cbn [from_option id]. lia.
Qed.

End Chain.


(** ** A block that is connected

    On top of five blocks, one that pays its reward and a fee, and spends a coin. *)

Definition paying_coin : Coin := mkCoin (mkTxOut 5001000 [81]) false 3 false 1600000000.
Definition paying_outpoint : COutPoint := mkOutPoint (replicate 32 7) 1.
Definition paying_cache : @CCoinsViewCache CoinsMachine.CCoinsView :=
  mkCache tt (replicate 32 4) {[ paying_outpoint := mkEntry paying_coin (Z.lor DIRTY FRESH) ]} 1.
Definition paying_set : coins := fun o => if decide (o = paying_outpoint) then Some paying_coin else None.
Definition reward_tx : CTransaction := mkTx [mkTxIn COutPoint_default [1; 2] 0 []] [mkTxOut 10001000 [81]] 1 1600000900 0.
Definition paying_tx : CTransaction := mkTx [mkTxIn paying_outpoint [] 0 []] [mkTxOut 5000000 [81]] 1 1600000001 0.
Definition time_hash (tx : CTransaction) : list Z := le_digits 8 32 (nTime tx).
Definition fifth_block : CBlock := mkBlock (mkHeader 4 (replicate 32 4) (time_hash reward_tx) 1600000900 0 0 0) [reward_tx; paying_tx] [].
(** The entries of a chain whose last block is [block]. *)
Definition sample_entry (block : CBlock) (height k : nat) : CBlockIndex := {|
  Chain.phashBlock := if (k =? height)%nat then CBlockHeader_GetHash (header block) else replicate 32 (Z.of_nat k);
  Chain.pprev := match k with O => None | Datatypes.S k' => Some (Pos.of_succ_nat k') end;
  Chain.pskip := None; Chain.nHeight := k; Chain.nFile := 0; Chain.nDataPos := 0;
  Chain.nUndoPos := 0; Chain.nChainTrust := BaseUint.zero 8; Chain.nTx := 0; Chain.nChainTx := 0; Chain.nStatus := 0;
  Chain.nVersion := 0; Chain.hashMerkleRoot := Blob.null 32; Chain.nTime := 1600000000 + k; Chain.nBits := 0; Chain.nNonce := 0;
  Chain.nSequenceId := 0; Chain.nTimeMax := 0; Chain.nMint := 0; Chain.nMoneySupply := 0; Chain.nFlags := 0;
  Chain.nStakeModifier := 1; Chain.nStakeModifierChecksum := 0;
  Chain.prevoutStake := Chain.mkOutPoint (Blob.null 32) 0; Chain.nStakeTime := 0; Chain.hashProofOfStake := Blob.null 32 |}.
Definition sample_index (block : CBlock) (height : nat) : stake_state :=
  mkStake (list_to_map (map (fun k => (Pos.of_succ_nat k, sample_entry block height k)) (seq 0 (Datatypes.S height)))) ∅ ∅.
Definition sample_node : Node := mkNode CMainParams true (replicate 32 255) (Blob.null 32) (Blob.null 32) (BaseUint.zero 8) ∅ 1%positive true true.
#[local] Abbreviation plain_verifier := (fun _ : bool => @generic_verifier Pubkey.plain_secp).
#[local] Abbreviation connect_sample := (@ConnectBlock _ _ CoinsMachine.script_usage time_hash _ SigCache.signature_set CBigNum.Z_BN Pubkey.plain_secp plain_verifier (replicate 64 0)
  (fun _ => None) (fun _ => None) (fun k => k) (fun h _ => h) first_half false (fun _ => true) (fun _ => true) (fun _ => true) (fun _ b => (true, b)) (fun _ => true) sample_node).
#[local] Abbreviation connect_fifth := (connect_sample fifth_block false 6%positive false (sample_index fifth_block 5) paying_cache ∅ empty_execs).

Definition connected {A} (r : option (connect_result * A)) : bool := match r with Some (Connected, _) => true | _ => false end.

Lemma connected_Some {A} (r : option (connect_result * A)) : connected r = true -> exists out, r = Some (Connected, out).
Proof. destruct r as [[[| |] out]|]; try done. by exists out. Qed.

Lemma fifth_connected : exists out, connect_fifth = Some (Connected, out).
Proof. apply connected_Some. vm_compute. reflexivity. Qed.

Lemma paying_holds : BlockCoins.holds CoinsMachine.script_usage paying_cache paying_set.
Proof.
  split; [split; [exact I|split; [|reflexivity]]|].
  - apply map_Forall_singleton. split; [by left; split; [|right; right]|]. done.
  - intros o. unfold cache_utxo, paying_cache, paying_set. cbn [cacheCoins base]. case_decide as Eo; [subst; by rewrite lookup_singleton_eq|]. by rewrite lookup_singleton_ne.
Qed.

Lemma paying_ok : coins_ok paying_set.
Proof. intros o x. unfold paying_set. case_decide; [|done]. intros [= <-]. split; [|cbn; lia]. by split. Qed.

Lemma fifth_ids : ids_ok time_hash (vtx fifth_block).
Proof.
  intros a b [->|[->|[]%not_elem_of_nil]%elem_of_cons]%elem_of_cons [->|[->|[]%not_elem_of_nil]%elem_of_cons]%elem_of_cons Heq; [split; reflexivity| | |split; reflexivity];
    vm_compute in Heq; discriminate.
Qed.

Lemma fifth_new : new_outputs time_hash paying_set fifth_block.
Proof.
  intros tx o Htx Ho%output_hash. unfold paying_set. case_decide as Eo; [|done]. subst o. apply elem_of_cons in Htx as [->|[->|[]%not_elem_of_nil]%elem_of_cons]; vm_compute in Ho; discriminate.
Qed.


(** The outputs of the coin and of the block. *)
Definition fifth_outputs (o : COutPoint) : option CTxOut :=
  match output_at time_hash reward_tx 0 (vout reward_tx) o, output_at time_hash paying_tx 0 (vout paying_tx) o with
  | Some x, _ => Some x
  | _, Some x => Some x
  | _, _ => out <$> paying_set o
  end.

Lemma sample_readable tx y :
  vout tx = [y] -> wire_ok tx -> Forall input_bytes (vin tx) -> fifth_outputs (mkOutPoint (time_hash tx) 0) = Some y -> output_bytes y -> readable time_hash fifth_outputs tx.
Proof.
  intros Hy Hw Hi Hn Hb. split; [exact Hw|]. split; [exact Hi|]. rewrite Hy. intros [h k] x. unfold output_at. cbn [hash n].
  destruct (bool_decide _) eqn:Eh; [|done]. apply bool_decide_eq_true in Eh as ->. cbn [andb]. destruct (0 <=? k) eqn:Ek; [|done]. cases_bool. rewrite Z.sub_0_r. intros Hx.
  apply lookup_lt_Some in Hx as Hl. cbn [length] in Hl. assert (k = 0) as -> by lia. injection Hx as <-. by split.
Qed.

Lemma fifth_readable : Forall (readable time_hash fifth_outputs) (vtx fifth_block).
Proof.
  repeat apply Forall_cons_2; [..|by apply Forall_nil_2].
  - apply (sample_readable reward_tx (mkTxOut 10001000 [81])); [reflexivity| |apply Forall_singleton|vm_compute; reflexivity|].
    + repeat split; cbn; try (unfold in_s, in_u, MAX_SIZE; lia); repeat constructor; cbn; try (unfold in_s, in_u, MAX_SIZE; lia); try done; repeat constructor; by vm_compute.
    + split; [by apply bytes_check|]. split; [constructor|cbn; lia].
    + split; [cbn; lia|by apply bytes_check].
  - apply (sample_readable paying_tx (mkTxOut 5000000 [81])); [reflexivity| |apply Forall_singleton|vm_compute; reflexivity|].
    + repeat split; cbn; try (unfold in_s, in_u, MAX_SIZE; lia); repeat constructor; cbn; try (unfold in_s, in_u, MAX_SIZE; lia); try done; repeat constructor; by vm_compute.
    + split; [by apply bytes_check|]. split; [constructor|cbn; lia].
    + split; [cbn; lia|by apply bytes_check].
Qed.

Lemma fifth_named : named fifth_outputs paying_set.
Proof.
  intros o x. unfold paying_set at 1. case_decide as Eo; [|done]. subst o. intros [= <-]. split; [vm_compute; reflexivity|]. split; [cbn; lia|by apply bytes_check].
Qed.



(** The first block after the genesis block. *)
Definition first_tx : CTransaction := mkTx [mkTxIn COutPoint_default [1; 2] 0 []] [mkTxOut 12600000000000 [81]] 1 1600000900 0.
Definition first_block : CBlock := mkBlock (mkHeader 4 (replicate 32 0) (time_hash first_tx) 1600000900 0 0 0) [first_tx] [].
Definition first_cache : @CCoinsViewCache CoinsMachine.CCoinsView := mkCache tt (replicate 32 0) ∅ 0.
#[local] Abbreviation connect_first := (connect_sample first_block false 2%positive false (sample_index first_block 1) first_cache ∅ empty_execs).

Lemma first_connected : exists out, connect_first = Some (Connected, out).
Proof. apply connected_Some. vm_compute. reflexivity. Qed.

Lemma first_chain : exists u, @chain _ _ CoinsMachine.script_usage time_hash _ SigCache.signature_set CBigNum.Z_BN Pubkey.plain_secp CMainParams 1 u.
Proof.
  destruct first_connected as [out Hout]. assert (BlockCoins.holds CoinsMachine.script_usage first_cache (fun _ => None)) as Hc by (by split; [split; [exact I|split; [apply map_Forall_empty|]]|]).
  assert (index (sample_index first_block 1) !! 2%positive = Some (sample_entry first_block 1 1)) as Hb by reflexivity.
  assert (block_bytes first_block < 2 ^ 62) as Hbytes by (vm_compute; reflexivity). assert (false = true -> block_rules first_half time_hash false (fun _ => true) (fun _ => true) first_block) as Hmark by discriminate.
  assert (CBlockHeader_GetHash (header first_block) <> hashGenesisBlock sample_node) as Hgen by (vm_compute; discriminate).
  assert (ids_ok time_hash (vtx first_block)) as Hids by (intros a b [->|[]%not_elem_of_nil]%elem_of_cons [->|[]%not_elem_of_nil]%elem_of_cons _; split; reflexivity).
  assert (new_outputs time_hash (fun _ => None) first_block) as Hnew by (intros ? ? _ _; reflexivity).
  destruct (@ConnectBlock_spec _ _ CoinsMachine.script_usage time_hash _ SigCache.signature_set CBigNum.Z_BN Pubkey.plain_secp plain_verifier (replicate 64 0) (fun _ => None) (fun _ => None)
    (fun k => k) (fun h _ => h) first_half false (fun _ => true) (fun _ => true) (fun _ => true) (fun _ b => (true, b)) (fun _ => true) sample_node
    first_block false 2%positive _ _ _ _ _ _ _ Hc Hb Hbytes Hmark Hout) as [Hrules [[Hg _]|(b' & scripts & flags & Hsame & Hcb)]]; [by destruct (Hgen Hg)|].
  destruct Hsame as (_ & _ & _ & Eh & _). change (Chain.nHeight (sample_entry first_block 1 1)) with 1 in Eh.
  destruct (connected_supply _ _ _ _ _ _ _ _ _ _ _ _ _ _ _ _ _ _ _ eq_refl Hcb Hrules ltac:(done) ltac:(rewrite Eh; lia) Hids ltac:(intros _; exact Hnew)) as (u' & r & Hu' & _).
  exists u'. apply (chain_block _ _ _ 0 (fun _ => None)); [constructor|].
  exists plain_verifier, (replicate 64 0), (fun _ => None), (fun _ => None), (fun k => k), (fun h _ => h), first_half, false, (fun _ => true), (fun _ => true), (fun _ => true),
    (fun _ b => (true, b)), (fun _ => true), sample_node, first_block, false, 2%positive, (sample_entry first_block 1 1), (sample_index first_block 1), first_cache, ∅, empty_execs, out.
  split; [reflexivity|]. split; [exact Hc|]. split; [exact Hb|]. split; [reflexivity|]. split; [exact Hbytes|]. split; [exact Hmark|]. split; [exact Hgen|].
  split; [exact Hids|]. split; [intros _; exact Hnew|]. split; [exact Hout|exact Hu'].
Qed.


End ConnectTheory.
