(* ===== verification/Contextual.v ===== *)
(** * Checks of a block in its place ([validation.cpp], [consensus/validation.h])

    [ContextualCheckBlock]: lock times, the height in the coinbase, the commitment
    to the witnesses and the weight; and what a miner does to make the commitment.
    A block passes exactly when it obeys the rules; what the miner makes passes the
    check of the commitment; and coinbases of different heights differ. *)
From stdpp Require Import prelude gmap strings.
From S2P Require Import Prelude Uint256 Sha256 Sha256Theory Hash Chain ChainTheory Kernel Serialize Transaction Merkle Script Coins BlockCoins TxCheck Locks BlockCheck InputTheory.

Module Contextual.
Import Transaction TxCheck BlockCheck.

(** ** The commitment in the coinbase *)

Definition MINIMUM_WITNESS_COMMITMENT : Z := 38.
Definition NO_WITNESS_COMMITMENT : Z := -1.
Definition LOCKTIME_MEDIAN_TIME_PAST : Z := Z.shiftl 1 1.

(** The condition of the loop; the bytes are there when the size suffices. *)
Definition is_commitment (o : CTxOut) : bool :=
  (MINIMUM_WITNESS_COMMITMENT <=? length (scriptPubKey o)) && ((scriptPubKey o).[0] =? Coins.OP_RETURN) && ((scriptPubKey o).[1] =? 0x24) &&
  ((scriptPubKey o).[2] =? 0xaa) && ((scriptPubKey o).[3] =? 0x21) && ((scriptPubKey o).[4] =? 0xa9) && ((scriptPubKey o).[5] =? 0xed).
Fixpoint commitment_loop (o : Z) (commitpos : Z) (vout : list CTxOut) : Z :=
  match vout with
  | [] => commitpos
  | x :: r => commitment_loop (o + 1) (if is_commitment x then i32 o else commitpos) r
  end.
Definition GetWitnessCommitmentIndex (block : CBlock) : Z :=
  match vtx block with [] => NO_WITNESS_COMMITMENT | tx :: _ => commitment_loop 0 NO_WITNESS_COMMITMENT (vout tx) end.

Section Code.
(** The hash with the witnesses is computed when a transaction is made; [main]
    says that the network is the main one; [junk] is the initial buffer of a hasher. *)
Context (D64 : list Z -> nat -> list Z) (GetWitnessHash : CTransaction -> list Z) (junk : list Z) (main : bool).

(** [CHash256().Write(a).Write(b).Finalize(a)]. *)
Definition hash_into (a b : list Z) : option (list Z) :=
  Hash.CHash256_Finalize (Hash.CHash256_Write (Hash.CHash256_Write (Sha256.CSHA256_init junk) a) b) a.

(** ** What a miner does *)

Definition set_vtx0 (block : CBlock) (tx : CTransaction) : CBlock := mkBlock (header block) (tx :: tail (vtx block)) (vchBlockSig block).
(** [stack.resize(1); stack[0] = nonce]. *)
Definition set_nonce (i : CTxIn) (nonce : list Z) : CTxIn := mkTxIn (prevout i) (scriptSig i) (nSequence i) [nonce].

(** [None] is an access to a first transaction or a first input that is not there. *)
Definition UpdateUncommittedBlockStructures (block : CBlock) (pindexPrev : CBlockIndex) : option CBlock :=
  let commitpos := GetWitnessCommitmentIndex block in
  let nonce := replicate 32 0 in
  if negb (commitpos =? NO_WITNESS_COMMITMENT) && Kernel.IsBTC16BIPsEnabled main (Chain.nTime pindexPrev) then
    tx ← head (vtx block);
    if HasWitness tx then Some block
    else
      i ← head (vin tx);
      Some (set_vtx0 block (mkTx (set_nonce i nonce :: tail (vin tx)) (vout tx) (nVersion tx) (nTime tx) (nLockTime tx)))
  else Some block.

Definition commitment_script (witnessroot : list Z) : list Z := [Coins.OP_RETURN; 0x24; 0xaa; 0x21; 0xa9; 0xed] ++ witnessroot.

(** The block and the commitment that is returned. *)
Definition GenerateCoinbaseCommitment (block : CBlock) (pindexPrev : CBlockIndex) : option (CBlock * list Z) :=
  let commitpos := GetWitnessCommitmentIndex block in
  let ret := replicate 32 0 in
  '(block, commitment) ←
    (if commitpos =? NO_WITNESS_COMMITMENT then
       '(witnessroot, _) ← Merkle.BlockWitnessMerkleRoot D64 GetWitnessHash (vtx block) None;
       witnessroot ← hash_into witnessroot ret;
       let commitment := commitment_script witnessroot in
       tx ← head (vtx block);
       Some (set_vtx0 block (mkTx (vin tx) (vout tx ++ [mkTxOut 0 commitment]) (nVersion tx) (nTime tx) (nLockTime tx)), commitment)
     else Some (block, []));
  block ← UpdateUncommittedBlockStructures block pindexPrev;
  Some (block, commitment).

(** ** The checks *)

(** The height at the start of the coinbase. *)
Definition check_height (block : CBlock) (nHeight : Z) : option block_verdict :=
  let expect := Script.push_int64 nHeight in
  tx ← head (vtx block);
  i ← head (vin tx);
  Some (if (length (scriptSig i) <? length expect)%nat || negb (bool_decide (take (length expect) (scriptSig i) = expect))
        then BlockInvalid BLOCK_CONSENSUS "bad-cb-height" else BlockValid).

(** The commitment: the result and [fHaveWitness]. *)
Definition check_commitment (block : CBlock) : option (block_verdict * bool) :=
  let commitpos := GetWitnessCommitmentIndex block in
  if commitpos =? NO_WITNESS_COMMITMENT then Some (BlockValid, false)
  else
    '(hashWitness, _) ← Merkle.BlockWitnessMerkleRoot D64 GetWitnessHash (vtx block) (Some false);
    tx ← head (vtx block);
    i ← head (vin tx);
    match scriptWitness i with
    | [reserved] =>
        if negb (length reserved =? 32)%nat then Some (BlockInvalid BLOCK_MUTATED "bad-witness-nonce-size", false)
        else
          hashWitness ← hash_into hashWitness reserved;
          o ← vout tx !! Z.to_nat commitpos;
          if negb (bool_decide (hashWitness = take 32 (drop 6 (scriptPubKey o)))) then Some (BlockInvalid BLOCK_MUTATED "bad-witness-merkle-match", false)
          else Some (BlockValid, true)
    | _ => Some (BlockInvalid BLOCK_MUTATED "bad-witness-nonce-size", false)
    end.

(** After the commitment: unexpected witnesses and the weight. *)
Definition check_weight (block : CBlock) (fHaveWitness : bool) : block_verdict :=
  if negb fHaveWitness && existsb HasWitness (vtx block) then BlockInvalid BLOCK_MUTATED "unexpected-witness"
  else if MAX_BLOCK_WEIGHT <? GetBlockWeight block then BlockInvalid BLOCK_CONSENSUS "bad-blk-weight"
  else BlockValid.

(** [None] is an access out of range, or a pointer to no entry. *)
Definition ContextualCheckBlock (h : Chain.heap) (block : CBlock) (pindexPrev : option Chain.ptr) : option block_verdict :=
  prev ← match pindexPrev with None => Some None | Some p => b ← h !! p; Some (Some (p, b)) end;
  let nHeight := match prev with None => 0 | Some (_, b) => i32 (Chain.nHeight b + 1) end in
  let enabled := match prev with None => false | Some (_, b) => Kernel.IsBTC16BIPsEnabled main (Chain.nTime b) end in
  let nLockTimeFlags := if enabled then Z.lor 0 LOCKTIME_MEDIAN_TIME_PAST else 0 in
  nLockTimeCutoff ←
    (if negb (Z.land nLockTimeFlags LOCKTIME_MEDIAN_TIME_PAST =? 0) then '(p, _) ← prev; Chain.GetMedianTimePast h p
     else Some (GetBlockTime block));
  if negb (forallb (fun tx => Locks.IsFinalTx tx nHeight nLockTimeCutoff) (vtx block)) then Some (BlockInvalid BLOCK_CONSENSUS "bad-txns-nonfinal")
  else
    v ← (if bool_decide (is_Some prev) && (2 <=? hVersion (header block)) then check_height block nHeight else Some BlockValid);
    match (v : block_verdict) with
    | BlockInvalid _ _ => Some v
    | BlockValid =>
        '(v, fHaveWitness) ← (if (enabled : bool) then check_commitment block else Some (BlockValid, false));
        match (v : block_verdict) with
        | BlockInvalid _ _ => Some v
        | BlockValid => Some (check_weight block fHaveWitness)
        end
    end.

End Code.

(** ** The commitment that counts *)

(** The last output of the coinbase that is a commitment. *)
Definition committing (vout : list CTxOut) (k : nat) (o : CTxOut) : Prop :=
  vout !! k = Some o /\ is_commitment o = true /\ forall j x, (k < j)%nat -> vout !! j = Some x -> is_commitment x = false.

Lemma commitment_loop_none o c l : Forall (fun x => is_commitment x = false) l -> commitment_loop o c l = c.
Proof. intros Hl. revert o. induction Hl as [|x l Hx _ IH]; intros o; [done|]. cbn [commitment_loop]. rewrite Hx. apply IH. Qed.

Lemma commitment_loop_last o c l k x : committing l k x -> commitment_loop o c l = i32 (o + k).
Proof.
  revert o c k. induction l as [|y l IH]; intros o c k (Hk & Hx & Hlast); [done|]. cbn [commitment_loop]. destruct k as [|k].
  - cbn in Hk. simplify_eq. rewrite Hx, commitment_loop_none; [f_equal; lia|]. apply Forall_lookup. intros j z Hz. apply (Hlast (S j) z); [lia|done].
  - rewrite (IH _ _ k); [f_equal; lia|]. split; [done|]. split; [done|]. intros j z Hj Hz. apply (Hlast (S j) z); [lia|done].
Qed.

Lemma commitment_cases l : Forall (fun x => is_commitment x = false) l \/ exists k o, committing l k o.
Proof.
  induction l as [|x l [IH|(k & o & Hk & Ho & Hl)]]; [by left| |].
  - destruct (is_commitment x) eqn:E; [right|left; by constructor]. exists 0%nat, x. split; [done|]. split; [done|]. intros [|j] z Hj Hz; [lia|].
    by eapply (Forall_lookup_1 _ _ _ _ IH).
  - right. exists (S k), o. split; [done|]. split; [done|]. intros [|j] z Hj Hz; [lia|]. apply (Hl j z); [lia|done].
Qed.

Lemma committing_index block cb rest k o :
  vtx block = cb :: rest -> length (vout cb) < 2 ^ 31 -> committing (vout cb) k o -> GetWitnessCommitmentIndex block = k.
Proof.
  intros Hv Hl Hc. unfold GetWitnessCommitmentIndex. rewrite Hv, (commitment_loop_last 0 _ _ _ _ Hc).
  destruct Hc as (Hk%lookup_lt_Some & _). apply swrap_small; [lia|]. unfold in_s. lia.
Qed.

Section Theory.
(** Any multi-way routines that compute SHA-256; hashes have their size. *)
Context (way8 way4 way2 : option (list Z -> list Z)) (Hways : Merkle.ways_ok way8 way4 way2).
Context (GetWitnessHash : CTransaction -> list Z) (Hsize : forall tx, length (GetWitnessHash tx) = 32%nat).
Context (junk : list Z) (Hjunk : length junk = 64%nat) (main : bool).
Abbreviation D64 := (Merkle.installed way8 way4 way2).

Lemma hash_into_digest a b : length a = 32%nat -> hash_into junk a b = Some (Hash.sha256 (Hash.sha256 (a ++ b))).
Proof using Hjunk.
  clear -Hjunk. intros Ha. unfold hash_into, Hash.CHash256_Write. apply Hash.CHash256_digest_into; [|done].
  apply Sha256Theory.Write_ok256, Hash.init256, Hjunk.
Qed.

(** The tree over the transactions, with null for the coinbase. *)
Definition witness_leaves (rest : list CTransaction) : list (list Z) := Blob.null 32 :: map GetWitnessHash rest.
Definition witness_root (rest : list CTransaction) (root : list Z) : Prop :=
  Merkle.row Merkle.node (Merkle.tree_height (length (witness_leaves rest))) (witness_leaves rest) = [root].

Lemma witness_root_spec cb rest : exists root, witness_root rest root /\ length root = 32%nat /\
  forall mutated, exists f, Merkle.BlockWitnessMerkleRoot D64 GetWitnessHash (cb :: rest) mutated = Some (root, f).
Proof using Hways Hsize.
  clear Hjunk. assert (Merkle.hashes_ok (witness_leaves rest)) as Hok.
  { constructor; [done|]. apply Forall_map, Forall_forall. intros tx _. apply Hsize. }
  pose proof (fun inp n => Merkle.installed_ok way8 way4 way2 inp n Hways) as HD.
  destruct (Merkle.ComputeMerkleRoot_spec _ HD (witness_leaves rest) None ltac:(done) Hok) as (root & Hr & _).
  exists root. split; [exact Hr|]. split.
  - pose proof (Merkle.row_ok (Merkle.tree_height (length (witness_leaves rest))) _ Hok) as Hf. rewrite Hr in Hf. by inversion Hf.
  - intros mutated. cbn [Merkle.BlockWitnessMerkleRoot].
    destruct (Merkle.ComputeMerkleRoot_spec _ HD (witness_leaves rest) mutated ltac:(done) Hok) as (root' & Hr' & E).
    unfold witness_leaves in *. rewrite E. rewrite Hr in Hr'. simplify_eq. eauto.
Qed.

(** ** The rules *)

Definition final (height time : Z) (tx : CTransaction) : Prop :=
  nLockTime tx = 0 \/ (nLockTime tx < Locks.LOCKTIME_THRESHOLD /\ nLockTime tx < height) \/
  (Locks.LOCKTIME_THRESHOLD <= nLockTime tx /\ nLockTime tx < time) \/ Forall (fun i => nSequence i = SEQUENCE_FINAL) (vin tx).

Definition no_witness (block : CBlock) : Prop := Forall (fun tx => HasWitness tx = false) (vtx block).

(** The last commitment in the coinbase is to the tree and the one reserved
    value. *)
Definition matching (cb : CTransaction) (i : CTxIn) (rest : list CTransaction) : Prop :=
  exists k o reserved root, committing (vout cb) k o /\ scriptWitness i = [reserved] /\ length reserved = 32%nat /\ witness_root rest root /\
    take 32 (drop 6 (scriptPubKey o)) = Hash.sha256 (Hash.sha256 (root ++ reserved)).

Section Block.
Context (block : CBlock) (cb : CTransaction) (rest : list CTransaction) (i : CTxIn) (ri : list CTxIn).
Context (Hv : vtx block = cb :: rest) (Hi : vin cb = i :: ri) (Hl : length (vout cb) < 2 ^ 31).
Abbreviation check := (check_commitment D64 GetWitnessHash junk block).

Lemma committing_unique l k k' o o' : committing l k o -> committing l k' o' -> k = k' /\ o = o'.
Proof using.
  clear. intros (H1 & H2 & H3) (H1' & H2' & H3'). destruct (decide (k < k')%nat) as [Hlt|].
  { rewrite (H3 _ _ Hlt H1') in H2'. done. } destruct (decide (k' < k)%nat) as [Hlt|]; [by rewrite (H3' _ _ Hlt H1) in H2|].
  assert (k = k') as -> by lia. split; [done|congruence].
Qed.

Lemma committed_check k o : committing (vout cb) k o ->
  (check = Some (BlockValid, true) /\ matching cb i rest) \/ (exists s, check = Some (BlockInvalid BLOCK_MUTATED s, false)) /\ ~ matching cb i rest.
Proof using Hways Hsize Hjunk Hv Hi Hl.
  intros Hc. unfold check_commitment. rewrite (committing_index block cb rest k o Hv Hl Hc). rewrite (proj2 (Z.eqb_neq k NO_WITNESS_COMMITMENT)) by (unfold NO_WITNESS_COMMITMENT; lia).
  destruct (witness_root_spec cb rest) as (root & Hr & Hlen & Hroot). destruct (Hroot (Some false)) as [f Hf].
  rewrite Hv, Hf, bind_some. cbn [head mbind option_bind]. rewrite Hi. cbn [head mbind option_bind]. destruct (scriptWitness i) as [|reserved [|? ?]] eqn:Ew.
  - right. split; [by eexists|]. intros (? & ? & ? & ? & _ & E & _). congruence.
  - destruct (Nat.eqb_spec (length reserved) 32) as [E|E]; cbn [negb].
    2:{ right. split; [by eexists|]. intros (? & ? & ? & ? & _ & F & G & _). rewrite Ew in F. by simplify_eq. }
    rewrite hash_into_digest by done. cbn [mbind option_bind]. rewrite Nat2Z.id. destruct Hc as (Hk & Ho & Hlast). rewrite Hk. cbn [mbind option_bind].
    case_bool_decide as Em; cbn [negb].
    + left. split; [done|]. exists k, o, reserved, root. split; [done|]. by split_and!.
    + right. split; [by eexists|]. intros (k' & o' & reserved' & root' & Hc' & F & _ & Hr' & G). rewrite Ew in F.
      destruct (committing_unique _ _ _ _ _ Hc' (conj Hk (conj Ho Hlast))) as [-> ->]. unfold witness_root in Hr, Hr'. rewrite Hr in Hr'. by simplify_eq.
  - right. split; [by eexists|]. intros (? & ? & ? & ? & _ & E & _). congruence.
Qed.

Lemma uncommitted_check : Forall (fun o => is_commitment o = false) (vout cb) -> check = Some (BlockValid, false).
Proof using Hv. clear -Hv. intros Hf. unfold check_commitment, GetWitnessCommitmentIndex. by rewrite Hv, commitment_loop_none. Qed.

Lemma check_height_spec height : exists v, check_height block height = Some v /\ (v = BlockValid <-> Script.push_int64 height `prefix_of` scriptSig i).
Proof using Hv Hi.
  clear -Hv Hi. unfold check_height. rewrite Hv. cbn [head mbind option_bind]. rewrite Hi. cbn [head mbind option_bind]. eexists. split; [done|].
  destruct (Nat.ltb_spec (length (scriptSig i)) (length (Script.push_int64 height))) as [Hlt|Hge]; cbn [orb].
  - split; [done|]. intros Hp%prefix_length. lia.
  - case_bool_decide as E; cbn [negb]; (split; [|]); try done.
    + intros _. exists (drop (length (Script.push_int64 height)) (scriptSig i)). rewrite <- E at 1. by rewrite take_drop.
    + intros [s Hs]. destruct E. rewrite Hs. by rewrite take_app_length.
Qed.

Lemma check_weight_spec have :
  check_weight block have = BlockValid <-> (have = true \/ no_witness block) /\ GetBlockWeight block <= MAX_BLOCK_WEIGHT.
Proof using.
  clear. unfold check_weight, no_witness. rewrite <- existsb_Forall. destruct (existsb HasWitness (vtx block)), have; cbn [negb andb].
  2: split; [done|]; intros [[?|?] _]; done.
  all: destruct (Z.ltb_spec MAX_BLOCK_WEIGHT (GetBlockWeight block)); split; try done; first [intros [_ ?]; lia|intros _; split; [auto|lia]].
Qed.

(** The commitment and what follows it. *)
Lemma check_witness_spec (enabled : bool) : exists v,
  ('(v, fHaveWitness) ← (if enabled then check else Some (BlockValid, false));
   match (v : block_verdict) with BlockInvalid _ _ => Some v | BlockValid => Some (check_weight block fHaveWitness) end) = Some v /\
  (v = BlockValid <->
     (no_witness block /\ (enabled = true -> Forall (fun o => is_commitment o = false) (vout cb)) \/ enabled = true /\ matching cb i rest) /\
     GetBlockWeight block <= MAX_BLOCK_WEIGHT).
Proof using Hways Hsize Hjunk Hv Hi Hl.
  destruct enabled; cbn [mbind option_bind].
  2:{ eexists. split; [done|]. rewrite check_weight_spec. split; [intros [[?|?] ?]; [done|by split; [left|]]|]. intros [[[? _]|[? _]] ?]; [auto|done]. }
  destruct (commitment_cases (vout cb)) as [Hf|(k & o & Hc)].
  { rewrite uncommitted_check by done. cbn [mbind option_bind]. eexists. split; [done|]. rewrite check_weight_spec. split; [intros [[?|?] ?]; [done|auto]|].
    intros [[[? _]|[_ (k & o & _ & _ & (Hk & Ho & _) & _)]] ?]; [auto|]. by rewrite (Forall_lookup_1 _ _ _ _ Hf Hk) in Ho. }
  destruct (committed_check k o Hc) as [[-> Hm]|[[s ->] Hm]]; cbn [mbind option_bind]; (eexists; split; [done|]).
  - rewrite check_weight_spec. split; intros [_ ?]; auto.
  - split; [done|]. intros [[[_ Hf]|[_ ?]] _]; [|done]. destruct Hc as (Hk & Ho & _). by rewrite (Forall_lookup_1 _ _ _ _ (Hf eq_refl) Hk) in Ho.
Qed.

Lemma final_spec height time l : forallb (fun tx => Locks.IsFinalTx tx height time) l = true <-> Forall (final height time) l.
Proof using.
  clear. rewrite forallb_forall, Forall_forall. setoid_rewrite <- list_elem_of_In. split; intros H tx Htx; apply Locks.IsFinalTx_spec; by apply H.
Qed.

Lemma ContextualCheckBlock_spec h p b m :
  h !! p = Some b -> 0 <= Chain.nHeight b < 2 ^ 31 - 1 -> Chain.GetMedianTimePast h p = Some m ->
  let enabled := Kernel.IsBTC16BIPsEnabled main (Chain.nTime b) in
  exists v, ContextualCheckBlock D64 GetWitnessHash junk main h block (Some p) = Some v /\
    (v = BlockValid <->
       Forall (final (Chain.nHeight b + 1) (if enabled then m else GetBlockTime block)) (vtx block) /\
       (2 <= hVersion (header block) -> Script.push_int64 (Chain.nHeight b + 1) `prefix_of` scriptSig i) /\
       (no_witness block /\ (enabled = true -> Forall (fun o => is_commitment o = false) (vout cb)) \/ enabled = true /\ matching cb i rest) /\
       GetBlockWeight block <= MAX_BLOCK_WEIGHT).
Proof using Hways Hsize Hjunk Hv Hi Hl.
  intros Hp Hh Hm enabled. unfold ContextualCheckBlock. rewrite Hp. cbn [mbind option_bind]. fold enabled.
  replace (i32 (Chain.nHeight b + 1)) with (Chain.nHeight b + 1) by (symmetry; apply swrap_small; [lia|unfold in_s; lia]).
  set (cutoff := if enabled then m else GetBlockTime block).
  match goal with |- context [if negb (Z.land ?f ?g =? 0) then ?a else ?b] => replace (if negb (Z.land f g =? 0) then a else b) with (Some cutoff) end.
  2:{ unfold cutoff. destruct enabled; [|done]. cbn [mbind option_bind]. by rewrite Hm. }
  cbn [mbind option_bind]. pose proof (final_spec (Chain.nHeight b + 1) cutoff (vtx block)) as Hfin. destruct (forallb _ (vtx block)); cbn [negb].
  2:{ eexists. split; [done|]. split; [done|]. by intros [?%Hfin _]. }
  destruct Hfin as [Hfin _]. specialize (Hfin eq_refl).
  rewrite bool_decide_eq_true_2 by done. cbn [andb]. destruct (check_witness_spec enabled) as (w & Hw & Hwv).
  destruct (Z.leb_spec 2 (hVersion (header block))) as [Hver|Hver].
  - destruct (check_height_spec (Chain.nHeight b + 1)) as (v & -> & Hvv). cbn [mbind option_bind]. destruct v as [|r s].
    + exists w. split; [done|]. rewrite Hwv. destruct Hvv as [Hpre _]. specialize (Hpre eq_refl). tauto.
    + eexists. split; [done|]. split; [done|]. intros (_ & Hpre & _). by apply Hvv, Hpre.
  - cbn [mbind option_bind]. exists w. split; [done|]. rewrite Hwv. split; [intros [? ?]; split_and!; [done|lia|done..]|tauto].
Qed.

(** C7: [ContextualCheckBlock] of a block that has a coinbase, on top of an entry of the index, always comes to a verdict,
    and accepts exactly when every transaction is final for the height and the time of the block (from the switch
    on: the median time of its predecessors), the coinbase starts with the height (from version 2 on), the last
    commitment in the coinbase is the hash of the witness tree and of the reserved value, and no transaction has a
    witness where there is no commitment or the switch is not reached; and the weight is within its limit. *)
Theorem ContextualCheckBlock_correct h p b m :
  h !! p = Some b -> 0 <= Chain.nHeight b < 2 ^ 31 - 1 -> Chain.GetMedianTimePast h p = Some m ->
  let enabled := Kernel.IsBTC16BIPsEnabled main (Chain.nTime b) in
  exists v, ContextualCheckBlock D64 GetWitnessHash junk main h block (Some p) = Some v /\
    (v = BlockValid <->
       Forall (final (Chain.nHeight b + 1) (if enabled then m else GetBlockTime block)) (vtx block) /\
       (2 <= hVersion (header block) -> Script.push_int64 (Chain.nHeight b + 1) `prefix_of` scriptSig i) /\
       (no_witness block /\ (enabled = true -> Forall (fun o => is_commitment o = false) (vout cb)) \/ enabled = true /\ matching cb i rest) /\
       GetBlockWeight block <= MAX_BLOCK_WEIGHT).
Proof using Hways Hsize Hjunk Hv Hi Hl. apply ContextualCheckBlock_spec. Qed.

End Block.

(** ** The commitment of a miner *)

Lemma commitment_script_ok digest : length digest = 32%nat ->
  is_commitment (mkTxOut 0 (commitment_script digest)) = true /\ take 32 (drop 6 (commitment_script digest)) = digest.
Proof using.
  clear. intros Hd. split; [|cbn [commitment_script app drop]; by apply take_ge; rewrite Hd].
  unfold is_commitment, commitment_script. cbn [scriptPubKey]. rewrite length_app, Hd. done.
Qed.

(** C23: A miner's block passes: [GenerateCoinbaseCommitment] of a block whose coinbase has neither a commitment nor a
    witness, after the switch, adds one output to the coinbase and the reserved value to its first input, changes
    nothing else, and gives a block whose commitment [ContextualCheckBlock] accepts. *)
Theorem GenerateCoinbaseCommitment_accepted block cb rest i ri prev :
  vtx block = cb :: rest -> vin cb = i :: ri -> length (vout cb) < 2 ^ 31 - 1 -> HasWitness cb = false ->
  Forall (fun o => is_commitment o = false) (vout cb) -> Kernel.IsBTC16BIPsEnabled main (Chain.nTime prev) = true ->
  exists block' commitment cb', GenerateCoinbaseCommitment D64 GetWitnessHash junk main block prev = Some (block', commitment) /\
    vtx block' = cb' :: rest /\ header block' = header block /\ vchBlockSig block' = vchBlockSig block /\
    cb' = mkTx (set_nonce i (replicate 32 0) :: ri) (vout cb ++ [mkTxOut 0 commitment]) (nVersion cb) (nTime cb) (nLockTime cb) /\
    length commitment = 38%nat /\ check_commitment D64 GetWitnessHash junk block' = Some (BlockValid, true).
Proof using Hways Hsize Hjunk.
  intros Hv Hi Hl Hw Hf He. destruct (witness_root_spec cb rest) as (root & Hr & Hlen & Hroot). destruct (Hroot None) as [f Ef].
  set (digest := Hash.sha256 (Hash.sha256 (root ++ replicate 32 0))). assert (length digest = 32%nat) as Hd by apply Hash.sha256_length.
  destruct (commitment_script_ok digest Hd) as [Hc Hpos]. set (o := mkTxOut 0 (commitment_script digest)) in *.
  assert (committing (vout cb ++ [o]) (length (vout cb)) o) as Hcom.
  { split; [by rewrite lookup_app_r, Nat.sub_diag by done|]. split; [done|]. intros j x Hj Hx%lookup_lt_Some. rewrite length_app in Hx. cbn in Hx. lia. }
  set (cb' := mkTx (set_nonce i (replicate 32 0) :: ri) (vout cb ++ [o]) (nVersion cb) (nTime cb) (nLockTime cb)).
  set (block' := mkBlock (header block) (cb' :: rest) (vchBlockSig block)).
  exists block', (commitment_script digest), cb'. split_and!; try done; [|by unfold commitment_script; rewrite length_app, Hd|].
  - unfold GenerateCoinbaseCommitment. unfold GetWitnessCommitmentIndex at 1. rewrite Hv, commitment_loop_none by done. rewrite Z.eqb_refl, Ef. cbn [mbind option_bind].
    rewrite hash_into_digest by done. fold digest. cbn [mbind option_bind head]. unfold UpdateUncommittedBlockStructures.
    erewrite committing_index; [|unfold set_vtx0; cbn [vtx]; done|cbn [vout]; rewrite length_app; cbn [length]; lia|exact Hcom].
    rewrite (proj2 (Z.eqb_neq _ NO_WITNESS_COMMITMENT)) by (unfold NO_WITNESS_COMMITMENT; lia). rewrite He. cbn [negb andb set_vtx0 vtx head mbind option_bind].
    unfold HasWitness in *. cbn [vin]. rewrite Hw, Hi. cbn [head mbind option_bind]. unfold set_vtx0. cbn [vtx tail header vchBlockSig vin vout nVersion nTime nLockTime]. by rewrite Hv.
  - destruct (committed_check block' cb' rest (set_nonce i (replicate 32 0)) ri eq_refl eq_refl ltac:(cbn [vout cb']; rewrite length_app; cbn [length]; lia) _ _ Hcom) as [[? _]|[_ Hno]]; [done|].
    destruct Hno. exists (length (vout cb)), o, (replicate 32 0), root. by split_and!.
Qed.

(** ** Coinbases of different heights *)

(** A transaction without its witnesses, which is what its identifier stands for. *)
Definition bare (tx : CTransaction) : CTransaction :=
  mkTx (map (fun i => mkTxIn (prevout i) (scriptSig i) (nSequence i) []) (vin tx)) (vout tx) (nVersion tx) (nTime tx) (nLockTime tx).

Definition id_messages (tx : CTransaction) : list (list Z) :=
  [SerializeTransaction 0 (bare tx); Hash.sha256 (SerializeTransaction 0 (bare tx))].

Lemma ComputeHash_bare tx : ComputeHash tx = Hash.sha256 (Hash.sha256 (SerializeTransaction 0 (bare tx))).
Proof using.
  clear. unfold ComputeHash. assert (SerializeTransaction SERIALIZE_TRANSACTION_NO_WITNESS tx = SerializeTransaction 0 (bare tx)) as ->.
  { unfold SerializeTransaction. rewrite (HasWitness_false (bare tx)) by (apply Forall_map, Forall_forall; done). rewrite andb_false_r.
    change (fAllowWitness SERIALIZE_TRANSACTION_NO_WITNESS) with false. cbn [andb bare vin vout nVersion nTime nLockTime]. unfold Serialize.Vector_Ser. rewrite length_map, map_map. done. }
  apply Hash.GetHash_digest. by apply (Hash.init256 (replicate 64 0)).
Qed.

Lemma id_inj tx tx' : InputTheory.wire_ok (bare tx) -> InputTheory.wire_ok (bare tx') -> ComputeHash tx = ComputeHash tx' ->
  bare tx = bare tx' \/ collides Hash.sha256 (id_messages tx ++ id_messages tx').
Proof using.
  clear. intros H1 H2 E. rewrite !ComputeHash_bare in E. set (L := id_messages tx ++ id_messages tx').
  assert (forall m, m ∈ id_messages tx \/ m ∈ id_messages tx' -> m ∈ L) as HL by (intros m; unfold L; by rewrite elem_of_app).
  destruct (collides_inj Hash.sha256 L _ _ (HL _ ltac:(left; by right; left)) (HL _ ltac:(right; by right; left)) E) as [F|]; [|by right].
  destruct (collides_inj Hash.sha256 L _ _ (HL _ ltac:(left; by left)) (HL _ ltac:(right; by left)) F) as [G|]; [|by right]. left. by apply InputTheory.wire_inj.
Qed.

(** C22: No coinbase can come back at another height: if [ContextualCheckBlock] accepts two blocks of version 2 or more on
    top of blocks of different heights, in whatever indexes, then their coinbases have different identifiers, or two
    different messages among those hashed for them have the same SHA-256. *)
Theorem coinbase_height_unique h1 p1 b1 m1 block1 cb1 rest1 i1 r1 h2 p2 b2 m2 block2 cb2 rest2 i2 r2 :
  h1 !! p1 = Some b1 -> 0 <= Chain.nHeight b1 < 2 ^ 31 - 1 -> Chain.GetMedianTimePast h1 p1 = Some m1 ->
  vtx block1 = cb1 :: rest1 -> vin cb1 = i1 :: r1 -> length (vout cb1) < 2 ^ 31 -> 2 <= hVersion (header block1) -> InputTheory.wire_ok (bare cb1) ->
  h2 !! p2 = Some b2 -> 0 <= Chain.nHeight b2 < 2 ^ 31 - 1 -> Chain.GetMedianTimePast h2 p2 = Some m2 ->
  vtx block2 = cb2 :: rest2 -> vin cb2 = i2 :: r2 -> length (vout cb2) < 2 ^ 31 -> 2 <= hVersion (header block2) -> InputTheory.wire_ok (bare cb2) ->
  ContextualCheckBlock D64 GetWitnessHash junk main h1 block1 (Some p1) = Some BlockValid ->
  ContextualCheckBlock D64 GetWitnessHash junk main h2 block2 (Some p2) = Some BlockValid ->
  Chain.nHeight b1 <> Chain.nHeight b2 ->
  ComputeHash cb1 <> ComputeHash cb2 \/ collides Hash.sha256 (id_messages cb1 ++ id_messages cb2).
Proof using Hways Hsize Hjunk.
  intros Hp1 Hh1 Hm1 Hv1 Hi1 Hl1 Hn1 Hw1 Hp2 Hh2 Hm2 Hv2 Hi2 Hl2 Hn2 Hw2 E1 E2 Hne.
  destruct (ContextualCheckBlock_spec block1 cb1 rest1 i1 r1 Hv1 Hi1 Hl1 h1 p1 b1 m1 Hp1 Hh1 Hm1) as (v1 & F1 & Hv1').
  destruct (ContextualCheckBlock_spec block2 cb2 rest2 i2 r2 Hv2 Hi2 Hl2 h2 p2 b2 m2 Hp2 Hh2 Hm2) as (v2 & F2 & Hv2'). simplify_eq.
  destruct (proj1 Hv1' eq_refl) as (_ & Hpre1 & _). destruct (proj1 Hv2' eq_refl) as (_ & Hpre2 & _).
  destruct (Hpre1 Hn1) as [s1 Hs1]. destruct (Hpre2 Hn2) as [s2 Hs2].
  destruct (decide (ComputeHash cb1 = ComputeHash cb2)) as [E|]; [|by left]. right. destruct (id_inj cb1 cb2 Hw1 Hw2 E) as [F|]; [|done].
  destruct Hne. assert (scriptSig i1 = scriptSig i2) as Hs.
  { unfold bare in F. rewrite Hi1, Hi2 in F. injection F. intros. done. }
  rewrite Hs1, Hs2 in Hs. apply Script.push_int64_prefix in Hs; lia.
Qed.

End Theory.

(** ** Instances *)

Definition placed (height : Z) : Chain.heap := {[ 1%positive := ChainTheory.sample_entry None None height 1700000000 0 ]}.
Definition placed_coinbase (height : Z) : CTransaction :=
  mkTx [mkTxIn COutPoint_default (Script.push_int64 height ++ [7]) SEQUENCE_FINAL []] [mkTxOut 5000000 [81]] 3 0 0.
Definition placed_block (height : Z) : CBlock := mkBlock (mkHeader 4 (replicate 32 1) (replicate 32 2) 1700000600 0x1d00ffff 7 0) [placed_coinbase height] [].

Lemma witness_hash_length tx : length (ComputeWitnessHash tx) = 32%nat.
Proof. rewrite InputTheory.witness_hash. apply Hash.sha256_length. Qed.

Lemma no_ways : Merkle.ways_ok None None None.
Proof. by repeat split. Qed.

Lemma ContextualCheckBlock_correct_witness :
  exists v, ContextualCheckBlock (Merkle.installed None None None) ComputeWitnessHash (replicate 64 0) true (placed 20) (placed_block 21) (Some 1%positive) = Some v /\
    (v = BlockValid <->
       Forall (final 21 1700000000) [placed_coinbase 21] /\
       (2 <= 4 -> Script.push_int64 21 `prefix_of` Script.push_int64 21 ++ [7]) /\
       (no_witness (placed_block 21) /\ (true = true -> Forall (fun o => is_commitment o = false) [mkTxOut 5000000 [81]]) \/
        true = true /\ matching ComputeWitnessHash (placed_coinbase 21) (mkTxIn COutPoint_default (Script.push_int64 21 ++ [7]) SEQUENCE_FINAL []) []) /\
       GetBlockWeight (placed_block 21) <= MAX_BLOCK_WEIGHT).
Proof.
  apply (ContextualCheckBlock_correct None None None no_ways ComputeWitnessHash witness_hash_length (replicate 64 0) eq_refl true (placed_block 21) (placed_coinbase 21) []
    _ [] eq_refl eq_refl ltac:(by vm_compute) (placed 20) 1%positive (ChainTheory.sample_entry None None 20 1700000000 0) 1700000000); [done|cbn; lia|vm_compute; reflexivity].
Defined.

Lemma GenerateCoinbaseCommitment_accepted_witness :
  exists block' commitment cb', GenerateCoinbaseCommitment (Merkle.installed None None None) ComputeWitnessHash (replicate 64 0) true (placed_block 21)
      (ChainTheory.sample_entry None None 20 1700000000 0) = Some (block', commitment) /\
    vtx block' = [cb'] /\ header block' = header (placed_block 21) /\ vchBlockSig block' = [] /\
    cb' = mkTx [set_nonce (mkTxIn COutPoint_default (Script.push_int64 21 ++ [7]) SEQUENCE_FINAL []) (replicate 32 0)] ([mkTxOut 5000000 [81]] ++ [mkTxOut 0 commitment]) 3 0 0 /\
    length commitment = 38%nat /\ check_commitment (Merkle.installed None None None) ComputeWitnessHash (replicate 64 0) block' = Some (BlockValid, true).
Proof.
  apply (GenerateCoinbaseCommitment_accepted None None None no_ways ComputeWitnessHash witness_hash_length (replicate 64 0) eq_refl true (placed_block 21) (placed_coinbase 21) []);
    [done|done|by vm_compute|done| |vm_compute; reflexivity]. by repeat constructor.
Defined.

Lemma coinbase_height_unique_witness :
  ComputeHash (placed_coinbase 21) <> ComputeHash (placed_coinbase 300) \/
  collides Hash.sha256 (id_messages (placed_coinbase 21) ++ id_messages (placed_coinbase 300)).
Proof.
  assert (forall k, 20 < k < 400 -> length (Script.push_int64 k ++ [7]) < 100 /\ digits 8 (Script.push_int64 k ++ [7]) -> InputTheory.wire_ok (bare (placed_coinbase k))) as Hw.
  { intros k Hk [Hl Hd]. repeat split; cbn; try (unfold in_s, in_u, Serialize.MAX_SIZE; lia); repeat constructor; cbn; try (unfold in_s, in_u, Serialize.MAX_SIZE; lia); try done;
      repeat constructor; try by vm_compute. }
  apply (coinbase_height_unique None None None no_ways ComputeWitnessHash witness_hash_length (replicate 64 0) eq_refl true
    (placed 20) 1%positive (ChainTheory.sample_entry None None 20 1700000000 0) 1700000000 (placed_block 21) (placed_coinbase 21) [] (mkTxIn COutPoint_default (Script.push_int64 21 ++ [7]) SEQUENCE_FINAL []) []
    (placed 299) 1%positive (ChainTheory.sample_entry None None 299 1700000000 0) 1700000000 (placed_block 300) (placed_coinbase 300) [] (mkTxIn COutPoint_default (Script.push_int64 300 ++ [7]) SEQUENCE_FINAL []) []).
  all: first [apply Hw; [lia|]; split; [by vm_compute|apply Serialize.bytes_check; vm_compute; reflexivity]|vm_compute; reflexivity|cbn; lia].
Defined.

End Contextual.
