(* ===== verification/BlockIndex.v ===== *)
(** * Accepting headers ([validation.cpp], [node/blockstorage.cpp])

    The block index of a node: looking up and adding entries, the checks of a
    header in its place, marking the descendants of failed blocks, and
    [ProcessNewBlockHeaders]. *)
From stdpp Require Import prelude gmap strings.
From S2P Require Import Prelude ArithUint256 Uint256 Params BigNum Chain Pow Serialize Transaction BlockCheck.

Module BlockIndex.
Import Transaction BlockCheck.

(** [m_block_index], the entries it points to, the best header, the entries to
    be written to disk, the blocks found to be invalid (a set, visited in some
    order), the flag that [IsPosDGWenabled] keeps between calls, the best invalid
    block and the candidates for the tip. *)
Record BlockManager := mkManager {
  m_block_index : gmap (list Z) Chain.ptr;
  entries : Chain.heap;
  pindexBestHeader : option Chain.ptr;
  m_dirty_blockindex : gset Chain.ptr;
  m_failed_blocks : list Chain.ptr;
  DGWenabled : bool;
  m_best_invalid : option Chain.ptr;
  setBlockIndexCandidates : gset Chain.ptr
}.

Definition with_entries (m : BlockManager) (h : Chain.heap) (dirty : gset Chain.ptr) : BlockManager :=
  mkManager (m_block_index m) h (pindexBestHeader m) dirty (m_failed_blocks m) (DGWenabled m) (m_best_invalid m) (setBlockIndexCandidates m).
Definition with_flag (m : BlockManager) (f : bool) : BlockManager :=
  mkManager (m_block_index m) (entries m) (pindexBestHeader m) (m_dirty_blockindex m) (m_failed_blocks m) f (m_best_invalid m) (setBlockIndexCandidates m).

Definition LookupBlockIndex (m : BlockManager) (hash : list Z) : option Chain.ptr := m_block_index m !! hash.

(** [CBlockIndex::GetBlockHeader]. *)
Definition GetBlockHeader (h : Chain.heap) (b : CBlockIndex) : option CBlockHeader :=
  prev ← match Chain.pprev b with None => Some (Blob.null 32) | Some q => bq ← h !! q; Some (Chain.GetBlockHash bq) end;
  Some (mkHeader (Chain.nVersion b) prev (Chain.hashMerkleRoot b) (Chain.nTime b) (Chain.nBits b) (Chain.nNonce b) (Chain.nFlags b)).

(** ** New entries *)

(** [CBlockIndex(block)], with the hash and the sequence number set. *)
Definition CBlockIndex_of_header (block : CBlockHeader) (hash : list Z) : CBlockIndex := {|
  Chain.phashBlock := hash; Chain.pprev := None; Chain.pskip := None; Chain.nHeight := 0; Chain.nFile := 0; Chain.nDataPos := 0; Chain.nUndoPos := 0;
  Chain.nChainTrust := BaseUint.zero 8; Chain.nTx := 0; Chain.nChainTx := 0; Chain.nStatus := 0; Chain.nVersion := hVersion block;
  Chain.hashMerkleRoot := hashMerkleRoot block; Chain.nTime := hTime block; Chain.nBits := nBits block; Chain.nNonce := nNonce block;
  Chain.nSequenceId := 0; Chain.nTimeMax := 0; Chain.nMint := 0; Chain.nMoneySupply := 0; Chain.nFlags := nFlags block; Chain.nStakeModifier := 0;
  Chain.nStakeModifierChecksum := 0; Chain.prevoutStake := Chain.mkOutPoint (Blob.null 32) 0xffffffff; Chain.nStakeTime := 0;
  Chain.hashProofOfStake := Blob.null 32 |}.

Definition set_prev (b : CBlockIndex) (pprev : Chain.ptr) (nHeight : Z) : CBlockIndex := {|
  Chain.phashBlock := Chain.phashBlock b; Chain.pprev := Some pprev; Chain.pskip := Chain.pskip b; Chain.nHeight := nHeight;
  Chain.nFile := Chain.nFile b; Chain.nDataPos := Chain.nDataPos b; Chain.nUndoPos := Chain.nUndoPos b; Chain.nChainTrust := Chain.nChainTrust b;
  Chain.nTx := Chain.nTx b; Chain.nChainTx := Chain.nChainTx b; Chain.nStatus := Chain.nStatus b; Chain.nVersion := Chain.nVersion b;
  Chain.hashMerkleRoot := Chain.hashMerkleRoot b; Chain.nTime := Chain.nTime b; Chain.nBits := Chain.nBits b; Chain.nNonce := Chain.nNonce b;
  Chain.nSequenceId := Chain.nSequenceId b; Chain.nTimeMax := Chain.nTimeMax b; Chain.nMint := Chain.nMint b;
  Chain.nMoneySupply := Chain.nMoneySupply b; Chain.nFlags := Chain.nFlags b; Chain.nStakeModifier := Chain.nStakeModifier b;
  Chain.nStakeModifierChecksum := Chain.nStakeModifierChecksum b; Chain.prevoutStake := Chain.prevoutStake b;
  Chain.nStakeTime := Chain.nStakeTime b; Chain.hashProofOfStake := Chain.hashProofOfStake b |}.
Definition set_trust (b : CBlockIndex) (nTimeMax : Z) (nChainTrust : list Z) : CBlockIndex := {|
  Chain.phashBlock := Chain.phashBlock b; Chain.pprev := Chain.pprev b; Chain.pskip := Chain.pskip b; Chain.nHeight := Chain.nHeight b;
  Chain.nFile := Chain.nFile b; Chain.nDataPos := Chain.nDataPos b; Chain.nUndoPos := Chain.nUndoPos b; Chain.nChainTrust := nChainTrust;
  Chain.nTx := Chain.nTx b; Chain.nChainTx := Chain.nChainTx b; Chain.nStatus := Chain.nStatus b; Chain.nVersion := Chain.nVersion b;
  Chain.hashMerkleRoot := Chain.hashMerkleRoot b; Chain.nTime := Chain.nTime b; Chain.nBits := Chain.nBits b; Chain.nNonce := Chain.nNonce b;
  Chain.nSequenceId := Chain.nSequenceId b; Chain.nTimeMax := nTimeMax; Chain.nMint := Chain.nMint b;
  Chain.nMoneySupply := Chain.nMoneySupply b; Chain.nFlags := Chain.nFlags b; Chain.nStakeModifier := Chain.nStakeModifier b;
  Chain.nStakeModifierChecksum := Chain.nStakeModifierChecksum b; Chain.prevoutStake := Chain.prevoutStake b;
  Chain.nStakeTime := Chain.nStakeTime b; Chain.hashProofOfStake := Chain.hashProofOfStake b |}.

(** [pprev], [nHeight] and [BuildSkip], where the predecessor is known. *)
Definition link_prev (index : gmap (list Z) Chain.ptr) (h : Chain.heap) (p : Chain.ptr) (hashPrevBlock : list Z) : option Chain.heap :=
  match index !! hashPrevBlock with
  | None => Some h
  | Some q =>
      b ← h !! p;
      bq ← h !! q;
      Chain.BuildSkip (<[p := set_prev b q (i32 (Chain.nHeight bq + 1))]> h) p
  end.

(** The entry of a header and the manager; a new entry is at an address that is
    not in use. *)
Definition AddToBlockIndex (m : BlockManager) (block : CBlockHeader) : option (Chain.ptr * BlockManager) :=
  let hash := CBlockHeader_GetHash block in
  match m_block_index m !! hash with
  | Some p => Some (p, m)
  | None =>
      let p := fresh (dom (entries m)) in
      let index := <[hash := p]> (m_block_index m) in
      h ← link_prev index (<[p := CBlockIndex_of_header block hash]> (entries m)) p (hashPrevBlock block);
      b ← h !! p;
      prev ← match Chain.pprev b with None => Some None | Some q => bq ← h !! q; Some (Some bq) end;
      let nTimeMax := match prev with None => Chain.nTime b | Some bq => Z.max (Chain.nTimeMax bq) (Chain.nTime b) end in
      let b := if negb (Z.land (nFlags block) Chain.BLOCK_PROOF_OF_STAKE =? 0) then Chain.SetProofOfStake b else b in
      trust ← Chain.GetBlockTrust b;
      let b := set_trust b nTimeMax
                 (BaseUint.add_assign 8 (match prev with None => BaseUint.of_u64 8 0 | Some bq => Chain.nChainTrust bq end) trust) in
      '(_, b) ← Chain.RaiseValidity b Chain.BLOCK_VALID_TREE;
      best ← match pindexBestHeader m with
             | None => Some (Some p)
             | Some q => bq ← h !! q; Some (if BaseUint.ltb 8 (Chain.nChainTrust bq) (Chain.nChainTrust b) then Some p else Some q)
             end;
      Some (p, mkManager index (<[p := b]> h) best ({[ p ]} ∪ m_dirty_blockindex m) (m_failed_blocks m) (DGWenabled m)
                    (m_best_invalid m) (setBlockIndexCandidates m))
  end.

(** The last checkpoint that is known; checkpoints are in the order of their heights. *)
Fixpoint find_checkpoint (m : BlockManager) (l : list (Z * list Z)) : option Chain.ptr :=
  match l with
  | [] => None
  | (_, hash) :: r => match LookupBlockIndex m hash with Some p => Some p | None => find_checkpoint m r end
  end.
Definition GetLastCheckpoint (m : BlockManager) (checkpoints : list (Z * list Z)) : option Chain.ptr := find_checkpoint m (rev checkpoints).

(** ** Text *)

(** [0x%08x]. *)
Definition hex_digit (d : Z) : string := String.substring (Z.to_nat d) 1 "0123456789abcdef".
Fixpoint hex_digits (n : nat) (x : Z) (s : string) : string :=
  match n with O => s | S n' => hex_digits n' (x / 16) (hex_digit (x mod 16) +:+ s) end.
Definition bad_version (nVersion : Z) : string := "bad-version(0x" +:+ hex_digits 8 (u32 nVersion) ")".

(** ** The checks of a header *)

Section Code.
(** [GetAdjustedTime] is an argument where it is read; [CheckPOW] is the check of
    the proof of work, which needs the hash of that proof. *)
Context `{!BN} (params : Params) (regtest : bool) (hashGenesisBlock : list Z) (fCheckpointsEnabled : bool) (checkpoints : list (Z * list Z)).
Context (CheckPOW : CBlockHeader -> bool).

Definition is_stake_header (block : CBlockHeader) : bool := negb (Z.land (nFlags block) Chain.BLOCK_PROOF_OF_STAKE =? 0).

Definition CheckBlockHeader (block : CBlockHeader) (fCheckPOW : bool) : block_verdict :=
  if fCheckPOW && negb (CheckPOW block) then BlockInvalid BLOCK_INVALID_HEADER "high-hash" else BlockValid.

(** The rule for forks before a checkpoint. *)
Definition check_checkpoint (m : BlockManager) (nHeight : Z) : option bool :=
  if fCheckpointsEnabled then
    match GetLastCheckpoint m checkpoints with
    | None => Some true
    | Some p => b ← entries m !! p; Some (negb (nHeight <? Chain.nHeight b))
    end
  else Some true.

(** The verdict and the flag of the retarget; [None] is a failed assertion. *)
Definition ContextualCheckBlockHeader (m : BlockManager) (block : CBlockHeader) (pindexPrev : Chain.ptr) (nAdjustedTime : Z) :
    option (block_verdict * bool) :=
  b ← entries m !! pindexPrev;
  let nHeight := i32 (Chain.nHeight b + 1) in
  '(target, f) ← Pow.GetNextTargetRequired (entries m) regtest (DGWenabled m) (Some pindexPrev) (is_stake_header block) params;
  if negb (nBits block =? target) then Some (BlockInvalid BLOCK_INVALID_HEADER "bad-diffbits", f)
  else
    after ← check_checkpoint m nHeight;
    if negb (after : bool) then Some (BlockInvalid BLOCK_CHECKPOINT "bad-fork-prior-to-checkpoint", f)
    else
      median ← Chain.GetMedianTimePast (entries m) pindexPrev;
      if (hTime block <=? median) || (hTime block + MAX_FUTURE_BLOCK_TIME <? Chain.GetBlockTime b) then Some (BlockInvalid BLOCK_INVALID_HEADER "time-too-old", f)
      else if i64 (nAdjustedTime + MAX_FUTURE_BLOCK_TIME) <? hTime block then Some (BlockInvalid BLOCK_TIME_FUTURE "time-too-new", f)
      else if (hVersion block <? 2) || (hVersion block <? 4) then Some (BlockInvalid BLOCK_INVALID_HEADER (bad_version (hVersion block)), f)
      else Some (BlockValid, f).

(** ** Descendants of failed blocks *)

(** [invalid_walk]: the blocks from [walk] down to [failed] are marked.  The fuel
    is the difference of their heights. *)
Fixpoint mark_failed (fuel : nat) (h : Chain.heap) (dirty : gset Chain.ptr) (walk failed : Chain.ptr) : option (Chain.heap * gset Chain.ptr) :=
  if bool_decide (walk = failed) then Some (h, dirty)
  else
    match fuel with
    | O => None
    | S fuel' =>
        b ← h !! walk;
        q ← Chain.pprev b;
        mark_failed fuel' (<[walk := Chain.set_nStatus b (Z.lor (Chain.nStatus b) Chain.BLOCK_FAILED_CHILD)]> h) ({[ walk ]} ∪ dirty) q failed
    end.

(** The loop over the failed blocks: the marks, if one of them is an ancestor. *)
Fixpoint failed_loop (m : BlockManager) (p : Chain.ptr) (b : CBlockIndex) (l : list Chain.ptr) : option (option (Chain.heap * gset Chain.ptr)) :=
  match l with
  | [] => Some None
  | f :: r =>
      bf ← entries m !! f;
      a ← Chain.GetAncestor (entries m) p (Chain.nHeight bf);
      if bool_decide (a = Some f) then
        if Z.land (Chain.nStatus bf) Chain.BLOCK_FAILED_VALID =? 0 then None
        else marked ← mark_failed (Z.to_nat (Chain.nHeight b - Chain.nHeight bf)) (entries m) (m_dirty_blockindex m) p f; Some (Some marked)
      else failed_loop m p b r
  end.

(** [InvalidChainFound], with the tip of the active chain, which has to be there;
    the messages it writes are left out. *)
Definition InvalidChainFound (m : BlockManager) (tip : option Chain.ptr) (pindexNew : Chain.ptr) : option BlockManager :=
  b ← entries m !! pindexNew;
  better ← match m_best_invalid m with
           | None => Some true
           | Some i => bi ← entries m !! i; Some (BaseUint.gtb 8 (Chain.nChainTrust b) (Chain.nChainTrust bi))
           end;
  let best_invalid := if (better : bool) then Some pindexNew else m_best_invalid m in
  best ← match pindexBestHeader m with
         | None => Some None
         | Some best => a ← Chain.GetAncestor (entries m) best (Chain.nHeight b); Some (if bool_decide (a = Some pindexNew) then tip else Some best)
         end;
  _ ← tip;
  Some (mkManager (m_block_index m) (entries m) best (m_dirty_blockindex m) (m_failed_blocks m) (DGWenabled m) best_invalid (setBlockIndexCandidates m)).

Definition InvalidBlockFound (m : BlockManager) (tip : option Chain.ptr) (pindex : Chain.ptr) (result : BlockValidationResult) : option BlockManager :=
  match result with
  | BLOCK_MUTATED => Some m
  | _ =>
      b ← entries m !! pindex;
      InvalidChainFound
        (mkManager (m_block_index m) (<[pindex := Chain.set_nStatus b (Z.lor (Chain.nStatus b) Chain.BLOCK_FAILED_VALID)]> (entries m)) (pindexBestHeader m)
           ({[ pindex ]} ∪ m_dirty_blockindex m) (if bool_decide (pindex ∈ m_failed_blocks m) then m_failed_blocks m else m_failed_blocks m ++ [pindex])
           (DGWenabled m) (m_best_invalid m) (setBlockIndexCandidates m ∖ {[ pindex ]})) tip pindex
  end.

(** ** [AcceptBlockHeader] *)

(** The result, the state, the entry that is found or made and the manager. *)
Definition AcceptBlockHeader (m : BlockManager) (block : CBlockHeader) (nAdjustedTime : Z) : option (bool * block_verdict * option Chain.ptr * BlockManager) :=
  let hash := CBlockHeader_GetHash block in
  let add m := '(p, m) ← AddToBlockIndex m block; Some (true, BlockValid, Some p, m) in
  if bool_decide (hash = hashGenesisBlock) then add m
  else
    match m_block_index m !! hash with
    | Some p =>
        b ← entries m !! p;
        if negb (Z.land (Chain.nStatus b) Chain.BLOCK_FAILED_MASK =? 0) then Some (false, BlockInvalid BLOCK_CACHED_INVALID "duplicate", Some p, m)
        else Some (true, BlockValid, Some p, m)
    | None =>
        match CheckBlockHeader block (negb (is_stake_header block)) with
        | BlockInvalid _ _ as v => Some (false, v, None, m)
        | BlockValid =>
            match m_block_index m !! hashPrevBlock block with
            | None => Some (false, BlockInvalid BLOCK_MISSING_PREV "prev-blk-not-found", None, m)
            | Some prev =>
                b ← entries m !! prev;
                if negb (Z.land (Chain.nStatus b) Chain.BLOCK_FAILED_MASK =? 0) then Some (false, BlockInvalid BLOCK_INVALID_PREV "bad-prevblk", None, m)
                else
                  '(v, f) ← ContextualCheckBlockHeader m block prev nAdjustedTime;
                  let m := with_flag m f in
                  match (v : block_verdict) with
                  | BlockInvalid _ _ => Some (false, v, None, m)
                  | BlockValid =>
                      valid ← Chain.IsValid b Chain.BLOCK_VALID_SCRIPTS;
                      marked ← (if (valid : bool) then Some None else failed_loop m prev b (m_failed_blocks m));
                      match marked with
                      | Some (h, dirty) => Some (false, BlockInvalid BLOCK_INVALID_PREV "bad-prevblk", None, with_entries m h dirty)
                      | None => add m
                      end
                  end
            end
        end
    end.

(** ** [ProcessNewBlockHeaders] *)

Definition POW_HEADER_COOLING : Z := 70.

(** The steps up to one that says to stop. *)
Fixpoint until_stop {A St} (step : A -> St -> option (bool * St)) (l : list A) (st : St) : option (bool * St) :=
  match l with
  | [] => Some (true, st)
  | x :: r => '(go, st) ← step x st; if (go : bool) then until_stop step r st else Some (false, st)
  end.

(** The verdict on the last header, the temperature, [ppindex], and the manager. *)
Record header_state := mkHeaders { h_state : block_verdict; nPoSTemperature : Z; ppindex : option Chain.ptr; manager : BlockManager }.

(** One header, and the time at which it is looked at. *)
Definition process_header (nCooling : Z) (x : CBlockHeader * Z) (st : header_state) : option (bool * header_state) :=
  '(accepted, v, pindex, m) ← AcceptBlockHeader (manager st) x.1 x.2;
  if negb (accepted : bool) then Some (false, mkHeaders v (i32 (nPoSTemperature st + POW_HEADER_COOLING)) (ppindex st) m)
  else
    let t := if is_stake_header x.1 then i32 (nPoSTemperature st + 1) else Z.max (i32 (nPoSTemperature st - nCooling)) 0 in
    Some (true, mkHeaders v t pindex m).

(** [None] is also the access to the first of no headers. *)
Definition ProcessNewBlockHeaders (m : BlockManager) (temperature : Z) (lastAcceptedHeader : list Z) (headers : list (CBlockHeader * Z)) :
    option (bool * header_state) :=
  '(first, _) ← head headers;
  let jumped := bool_decide (hashPrevBlock first <> lastAcceptedHeader) && negb (Blob.IsNull lastAcceptedHeader) in
  until_stop (process_header (if jumped then 0 else POW_HEADER_COOLING)) headers
    (mkHeaders BlockValid (if jumped then i32 (temperature + u64 (18 + length headers) / 10) else temperature) None m).

End Code.

End BlockIndex.
