(* ===== verification/IndexExtension.v ===== *)
(** * Block indexes that grow

    An index that grows keeps its entries but for their status.  Whatever the
    code computes by walking to predecessors stays the same: ancestors, median
    times and targets. *)
From stdpp Require Import prelude gmap.
From S2P Require Import Prelude ArithUint256 Compact Uint256 Params BigNum Chain ChainTheory Pow.

Module IndexExtension.

(** The same entry, but for the status. *)
Definition same_but_status (b b' : CBlockIndex) : Prop := exists s, b' = set_nStatus b s.

#[export] Instance same_but_status_equiv : Equivalence same_but_status.
Proof.
  split.
  - intros b. exists (nStatus b). by destruct b.
  - intros b b' [s ->]. exists (nStatus b). by destruct b.
  - intros b b' b'' [s ->] [s' ->]. by exists s'.
Qed.

Definition extends (h h' : heap) : Prop := forall p b, h !! p = Some b -> exists b', h' !! p = Some b' /\ same_but_status b b'.

#[export] Instance extends_preorder : PreOrder extends.
Proof.
  split.
  - intros h p b Hp. by exists b.
  - intros h1 h2 h3 H12 H23 p b Hp. destruct (H12 p b Hp) as (b' & Hp' & Hb). destruct (H23 p b' Hp') as (b'' & Hp'' & Hb'). exists b''. split; [done|]. by transitivity b'.
Qed.

Lemma extends_insert_new h p b : h !! p = None -> extends h (<[p := b]> h).
Proof. intros Hp q bq Hq. exists bq. split; [|done]. rewrite lookup_insert_ne; [done|]. congruence. Qed.

Lemma extends_status h p b s : h !! p = Some b -> extends h (<[p := set_nStatus b s]> h) /\ extends (<[p := set_nStatus b s]> h) h.
Proof.
  intros Hp. split; intros q bq Hq.
  - destruct (decide (q = p)) as [->|]; [|by exists bq; rewrite lookup_insert_ne]. rewrite lookup_insert_eq. simplify_eq. eexists. split; [done|]. by exists s.
  - destruct (decide (q = p)) as [->|]; [|rewrite lookup_insert_ne in Hq by done; by exists bq]. rewrite lookup_insert_eq in Hq. simplify_eq. exists b. split; [done|].
    symmetry. by exists s.
Qed.

(** A lookup on the way, in both indexes. *)
Ltac walk Hx H :=
  match type of H with
  | context [?h !! ?p] =>
      let b := fresh "b" in let E := fresh "E" in let E' := fresh "E" in let s := fresh "s" in
      destruct (h !! p) as [b|] eqn:E; [|done]; destruct (Hx _ _ E) as (? & E' & s & ->); rewrite E'; clear E E'; cbn [mbind option_bind] in *
  end.

Section Walks.
Context (h h' : heap) (Hx : extends h h').

Lemma parent_n_extends n p r : parent_n h n p = Some r -> parent_n h' n p = Some r.
Proof using Hx. revert p. induction n as [|n IH]; intros p H; [done|]. cbn [parent_n] in *. walk Hx H. cbn. destruct (pprev b); [|done]. by apply IH. Qed.

Lemma GetAncestor_loop_extends fuel height p k r : GetAncestor_loop h fuel height p k = Some r -> GetAncestor_loop h' fuel height p k = Some r.
Proof using Hx.
  revert p k. induction fuel as [|fuel IH]; intros p k H; cbn [GetAncestor_loop] in *; [done|]. case_if; [done|]. walk Hx H. cbn [pskip pprev set_nStatus].
  destruct (pskip b); [case_if; [by apply IH|]|]; (destruct (pprev b); [by apply IH|done]).
Qed.

Lemma GetAncestor_extends p height r : GetAncestor h p height = Some r -> GetAncestor h' p height = Some r.
Proof using Hx.
  unfold GetAncestor. intros H. walk Hx H. cbn. case_if; [done|]. destruct (GetAncestor_loop h _ _ _ _) eqn:E; [|done]. by rewrite (GetAncestor_loop_extends _ _ _ _ _ E).
Qed.

Lemma collect_times_extends n p r : collect_times h n p = Some r -> collect_times h' n p = Some r.
Proof using Hx.
  revert p r. induction n as [|n IH]; intros p r H; [done|]. destruct p as [p|]; [|done]. cbn [collect_times] in *. walk Hx H. cbn.
  destruct (collect_times h n (pprev b)) eqn:E; [|done]. by rewrite (IH _ _ E).
Qed.

Lemma GetMedianTimePast_extends p r : GetMedianTimePast h p = Some r -> GetMedianTimePast h' p = Some r.
Proof using Hx.
  unfold GetMedianTimePast. destruct (collect_times h _ _) eqn:E; [|done]. by rewrite (collect_times_extends _ _ _ E).
Qed.

Lemma GetLastBlockIndex_loop_extends fuel p f r : GetLastBlockIndex_loop h fuel p f = Some r -> GetLastBlockIndex_loop h' fuel p f = Some r.
Proof using Hx.
  revert p. induction fuel as [|fuel IH]; intros p H; cbn [GetLastBlockIndex_loop] in *; walk Hx H; cbn; (destruct (pprev b); [|done]);
    change (IsProofOfStake (set_nStatus b s)) with (IsProofOfStake b); case_if; try done. by apply IH.
Qed.

Lemma GetLastBlockIndex_extends p f r : GetLastBlockIndex h p f = Some r -> GetLastBlockIndex h' p f = Some r.
Proof using Hx.
  unfold GetLastBlockIndex. intros H. destruct p as [p|]; [|done]. walk Hx H. cbn. destruct (GetLastBlockIndex_loop h _ _ _) eqn:E; [|done].
  by rewrite (GetLastBlockIndex_loop_extends _ _ _ _ E).
Qed.

(** ** Targets *)

Lemma skip_other_kind_extends fuel p f r : Pow.skip_other_kind h fuel p f = Some r -> Pow.skip_other_kind h' fuel p f = Some r.
Proof using Hx.
  revert p. induction fuel as [|fuel IH]; intros p H; cbn [Pow.skip_other_kind] in *; walk Hx H;
    change (IsProofOfStake (set_nStatus b s)) with (IsProofOfStake b); (case_if; [done|]); cbn [pprev set_nStatus]; destruct (pprev b); try done. by apply IH.
Qed.

Lemma dgw_loop_extends fuel f past n k p avg r : Pow.dgw_loop h fuel f past n k p avg = Some r -> Pow.dgw_loop h' fuel f past n k p avg = Some r.
Proof using Hx.
  revert k p avg. induction n as [|n IH]; intros k p avg H; [done|]. cbn [Pow.dgw_loop] in *. walk Hx H. cbn [nBits pprev set_nStatus].
  match type of H with context [if k =? 1 then ?x else ?y] => destruct (if k =? 1 then x else y); [|done] end. cbn [mbind option_bind] in *.
  destruct (negb (k =? past)); [|cbn [mbind option_bind] in *; by apply IH]. destruct (pprev b); [|done]. cbn [mbind option_bind] in *.
  destruct (Pow.skip_other_kind h _ _ _) eqn:Ed; [|done]. rewrite (skip_other_kind_extends _ _ _ _ Ed). cbn [mbind option_bind] in *. by apply IH.
Qed.

Lemma DarkGravityWave_extends p params f r : Pow.DarkGravityWave h p params f = Some r -> Pow.DarkGravityWave h' p params f = Some r.
Proof using Hx.
  unfold Pow.DarkGravityWave. intros H. destruct p as [p|]; [|done]. walk Hx H. cbn [nHeight set_nStatus]. case_if; [done|].
  destruct (Pow.dgw_loop h _ _ _ _ _ _ _) as [[q avg]|] eqn:Ed; [|done]. rewrite (dgw_loop_extends _ _ _ _ _ _ _ _ Ed). cbn [mbind option_bind] in *.
  walk Hx H. exact H.
Qed.

Lemma next_pos_extends fuel p r : Pow.next_pos h fuel p = Some r -> Pow.next_pos h' fuel p = Some r.
Proof using Hx.
  revert p. induction fuel as [|fuel IH]; intros p H; cbn [Pow.next_pos] in *; (destruct p as [p|]; [|done]); walk Hx H;
    change (IsProofOfStake (set_nStatus b s)) with (IsProofOfStake b); (case_if; [done|]); [done|]. by apply IH.
Qed.

Lemma count_pos_extends fuel params p k r : Pow.count_pos h fuel params p k = Some r -> Pow.count_pos h' fuel params p k = Some r.
Proof using Hx.
  revert p k. induction fuel as [|fuel IH]; intros p k H; cbn [Pow.count_pos] in *; walk Hx H; cbn [pprev set_nStatus];
    (destruct (Pow.next_pos h _ _) as [next|] eqn:Ed; [|done]); rewrite (next_pos_extends _ _ _ Ed); cbn [mbind option_bind] in *; (destruct next; [|done]); (case_if; [done|]); [done|].
  by apply IH.
Qed.

Lemma IsPosDGWenabled_extends f p params r : Pow.IsPosDGWenabled h f p params = Some r -> Pow.IsPosDGWenabled h' f p params = Some r.
Proof using Hx.
  unfold Pow.IsPosDGWenabled. intros H. case_if; [done|]. destruct p as [p|]; [|done]. walk Hx H. cbn [nHeight set_nStatus].
  destruct (Pow.count_pos h _ _ _ _) eqn:Ed; [|done]. by rewrite (count_pos_extends _ _ _ _ _ Ed).
Qed.

Lemma GetNextTargetRequired_extends `{!BN} regtest f p stake params r :
  Pow.GetNextTargetRequired h regtest f p stake params = Some r -> Pow.GetNextTargetRequired h' regtest f p stake params = Some r.
Proof using Hx.
  unfold Pow.GetNextTargetRequired. intros Hr. destruct p as [p|]; [|done]. walk Hx Hr.
  destruct (GetLastBlockIndex h (Some p) stake) as [prev|] eqn:E1; [|done]. rewrite (GetLastBlockIndex_extends _ _ _ E1). cbn [mbind option_bind] in *.
  destruct prev as [prev|]; [|done]. cbn [mbind option_bind] in *. walk Hx Hr. cbn [pprev set_nStatus]. destruct (pprev b0) as [pp|]; [|done].
  destruct (GetLastBlockIndex h (Some pp) stake) as [prevprev|] eqn:E2; [|done]. rewrite (GetLastBlockIndex_extends _ _ _ E2). cbn [mbind option_bind] in *.
  destruct prevprev as [prevprev|]; [|done]. cbn [mbind option_bind] in *. walk Hx Hr. cbn [pprev set_nStatus nBits nHeight]. destruct (pprev b1); [|done].
  unfold GetBlockTime in *. cbn [nTime set_nStatus]. case_if; [done|].
  match type of Hr with context [if stake then ?x else ?y] => set (z := if stake then x else y) in Hr; assert (forall r, z = Some r -> (if stake then
    '(r, s) ← Pow.IsPosDGWenabled h' f (Some prev) params; Some (negb r, s) else Some (false, f)) = Some r) as Hz; [|destruct z as [[early g]|]; [|done]; rewrite (Hz _ eq_refl)] end.
  { unfold z. intros [? ?] Hz. destruct stake; [|done]. destruct (Pow.IsPosDGWenabled h f (Some prev) params) as [[? ?]|] eqn:E3; [|done]. by rewrite (IsPosDGWenabled_extends _ _ _ _ E3). }
  cbn [mbind option_bind] in *. case_if; [done|]. destruct (Pow.DarkGravityWave h _ _ _) eqn:E4; [|done]. by rewrite (DarkGravityWave_extends _ _ _ _ E4).
Qed.

End Walks.

End IndexExtension.
