(* ===== verification/HeaderTheory.v ===== *)
(** * The block index that headers build

    Whatever headers a node is sent, its index is a tree with the genesis block
    as its root, in which every entry records its header, obeys the rules for a
    header on top of its predecessor, and has the trust and the maximal time that
    follow from them; and until a block is found to be invalid the best header has
    the most trust.  But the flags of
    an entry are those that the sender of the header chose. *)
From stdpp Require Import prelude gmap strings.
From S2P Require Import Prelude ArithUint256 Compact Uint256 Params BigNum Chain ChainTheory ChainSearch Pow Serialize Transaction BlockCheck BlockIndex IndexExtension.

Module HeaderTheory.
Import Transaction BlockCheck BlockIndex IndexExtension.

(** A header with other flags; the hash does not cover them. *)
Definition with_flags (block : CBlockHeader) (f : Z) : CBlockHeader :=
  mkHeader (hVersion block) (hashPrevBlock block) (hashMerkleRoot block) (hTime block) (nBits block) (nNonce block) f.

Lemma GetHash_flags block f : CBlockHeader_GetHash (with_flags block f) = CBlockHeader_GetHash block.
Proof. unfold CBlockHeader_GetHash, with_flags. cbn [hVersion hashPrevBlock hashMerkleRoot hTime nBits nNonce]. reflexivity. Qed.

#[local] Opaque CBlockHeader_GetHash.

Section Headers.
Context `{!BN} (params : Params) (regtest : bool) (hashGenesisBlock : list Z) (fCheckpointsEnabled : bool) (checkpoints : list (Z * list Z)).
Context (CheckPOW : CBlockHeader -> bool).

Abbreviation trust b := (le_val 32 (Chain.nChainTrust b)).

(** ** The invariant *)

(** An entry on top of its predecessor. *)
Record child_ok (h : Chain.heap) (b : CBlockIndex) (q : Chain.ptr) (bq : CBlockIndex) : Prop := {
  co_header : exists block, GetBlockHeader h b = Some block /\ CBlockHeader_GetHash block = Chain.phashBlock b /\
    (Chain.IsProofOfStake b = true \/ CheckPOW block = true);
  co_target : exists f f', Pow.GetNextTargetRequired h regtest f (Some q) (Chain.IsProofOfStake b) params = Some (Chain.nBits b, f');
  co_time : exists m, Chain.GetMedianTimePast h q = Some m /\ m < Chain.nTime b /\ Chain.nTime bq <= Chain.nTime b + MAX_FUTURE_BLOCK_TIME;
  co_version : 4 <= Chain.nVersion b;
  co_max : Chain.nTimeMax b = Z.max (Chain.nTimeMax bq) (Chain.nTime b);
  co_trust : exists t, Chain.GetBlockTrust b = Some t /\ trust b = (trust bq + le_val 32 t) mod 2 ^ 256
}.

Record index_ok (m : BlockManager) : Prop := {
  io_wf : wf_index (entries m);
  io_keys : forall hash p, m_block_index m !! hash = Some p <-> exists b, entries m !! p = Some b /\ Chain.phashBlock b = hash;
  io_root : exists p b, entries m !! p = Some b /\ Chain.phashBlock b = hashGenesisBlock /\
    forall q bq, entries m !! q = Some bq -> Chain.pprev bq = None -> q = p;
  io_child : forall p b q bq, entries m !! p = Some b -> Chain.pprev b = Some q -> entries m !! q = Some bq -> child_ok (entries m) b q bq;
  io_limbs : forall p b, entries m !! p = Some b -> BaseUint.wf 8 (Chain.nChainTrust b);
  io_best : exists p b, pindexBestHeader m = Some p /\ entries m !! p = Some b;
  io_failed : Forall (fun f => exists b, entries m !! f = Some b /\ Z.land (Chain.nStatus b) Chain.BLOCK_FAILED_VALID <> 0) (m_failed_blocks m);
  io_invalid : forall i, m_best_invalid m = Some i -> is_Some (entries m !! i)
}.

(** No entry has more trust than the best header. *)
Definition best_most (m : BlockManager) : Prop :=
  forall p b q bq, pindexBestHeader m = Some p -> entries m !! p = Some b -> entries m !! q = Some bq -> trust bq <= trust b.

(** ** What stays the same when an index grows *)

Lemma GetBlockHeader_extends h h' b r : extends h h' -> GetBlockHeader h b = Some r -> GetBlockHeader h' b = Some r.
Proof using.
  intros Hx H'. unfold GetBlockHeader in *. destruct (Chain.pprev b) as [q|]; [|done]. destruct (h !! q) as [bq|] eqn:E; [|done].
  destruct (Hx _ _ E) as (b' & -> & s & ->). exact H'.
Qed.

Lemma GetBlockHeader_status h b s : GetBlockHeader h (Chain.set_nStatus b s) = GetBlockHeader h b.
Proof using. done. Qed.

Lemma child_ok_extends h h' b b' q bq bq' :
  extends h h' -> same_but_status b b' -> same_but_status bq bq' -> child_ok h b q bq -> child_ok h' b' q bq'.
Proof using.
  intros Hx [s ->] [s' ->] [H1 H2 H3 H4 H5 H6]. split; try done.
  - destruct H1 as (block & Hb & Hh & Hw). exists block. split; [|done]. rewrite GetBlockHeader_status. by apply (GetBlockHeader_extends h).
  - destruct H2 as (f & f' & Hf). exists f, f'. by apply (GetNextTargetRequired_extends h).
  - destruct H3 as (m & Hm & ?). exists m. split; [|done]. by apply (GetMedianTimePast_extends h).
Qed.

(** Only statuses differ. *)
Lemma wf_index_status h h' : extends h h' -> extends h' h -> wf_index h -> wf_index h'.
Proof using.
  intros Hx Hx' [H1 H2 H3]. split.
  - intros p b Hp. destruct (Hx' p b Hp) as (b0 & Hp0 & s & ->). exact (H1 p _ Hp0).
  - intros p b Hp. destruct (Hx' p b Hp) as (b0 & Hp0 & s & ->). specialize (H2 p _ Hp0). cbn [Chain.pprev Chain.set_nStatus Chain.nHeight] in H2.
    destruct (Chain.pprev b) as [q|]; [|done]. destruct H2 as (bq & Hq & Hh). destruct (Hx q bq Hq) as (bq' & Hq' & s' & ->). eauto.
  - intros p b r Hp Hs. destruct (Hx' p b Hp) as (b0 & Hp0 & s & ->). by apply (parent_n_extends h h' Hx), (H3 p _ r Hp0).
Qed.

(** ** A new entry *)

Definition new_entry (block : CBlockHeader) (q : Chain.ptr) (bq : CBlockIndex) (s : option Chain.ptr) (t : list Z) : CBlockIndex := {|
  Chain.phashBlock := CBlockHeader_GetHash block; Chain.pprev := Some q; Chain.pskip := s; Chain.nHeight := Chain.nHeight bq + 1; Chain.nFile := 0;
  Chain.nDataPos := 0; Chain.nUndoPos := 0; Chain.nChainTrust := BaseUint.add_assign 8 (Chain.nChainTrust bq) t; Chain.nTx := 0; Chain.nChainTx := 0;
  Chain.nStatus := Chain.BLOCK_VALID_TREE; Chain.nVersion := hVersion block; Chain.hashMerkleRoot := hashMerkleRoot block; Chain.nTime := hTime block;
  Chain.nBits := nBits block; Chain.nNonce := nNonce block; Chain.nSequenceId := 0; Chain.nTimeMax := Z.max (Chain.nTimeMax bq) (hTime block);
  Chain.nMint := 0; Chain.nMoneySupply := 0; Chain.nFlags := nFlags block; Chain.nStakeModifier := 0; Chain.nStakeModifierChecksum := 0;
  Chain.prevoutStake := Chain.mkOutPoint (Blob.null 32) 0xffffffff; Chain.nStakeTime := 0; Chain.hashProofOfStake := Blob.null 32 |}.

Lemma lor_one f : Z.land f 1 <> 0 -> Z.lor f 1 = f.
Proof using.
  intros Hf. apply Z.bits_inj'. intros k Hk. rewrite Z.lor_spec. destruct (decide (k = 0)) as [->|].
  - rewrite orb_true_r. symmetry. rewrite Z.bit0_odd. change 1 with (Z.ones 1) in Hf. rewrite Z.land_ones, Zmod_odd in Hf by lia. by destruct (Z.odd f).
  - change 1 with (2 ^ 0). rewrite Z.pow2_bits_false by lia. apply orb_false_r.
Qed.

Lemma stake_flag b block : Chain.nFlags b = nFlags block ->
  (if negb (Z.land (nFlags block) Chain.BLOCK_PROOF_OF_STAKE =? 0) then Chain.SetProofOfStake b else b) = b.
Proof using.
  intros Hf. destruct (Z.eqb_spec (Z.land (nFlags block) Chain.BLOCK_PROOF_OF_STAKE) 0) as [|Hne]; [done|]. cbn [negb]. unfold Chain.SetProofOfStake.
  rewrite Hf, lor_one by done. rewrite <- Hf. by destruct b.
Qed.

Lemma link_prev_new m block q bq p :
  let hash := CBlockHeader_GetHash block in
  wf_index (entries m) -> m_block_index m !! hash = None -> m_block_index m !! hashPrevBlock block = Some q -> entries m !! q = Some bq -> entries m !! p = None ->
  Chain.nHeight bq < 2 ^ 31 - 1 ->
  exists s, Chain.GetAncestor (entries m) q (Chain.GetSkipHeight (Chain.nHeight bq + 1)) = Some s /\
    link_prev (<[hash := p]> (m_block_index m)) (<[p := CBlockIndex_of_header block hash]> (entries m)) p (hashPrevBlock block) =
      Some (<[p := Chain.set_pskip (set_prev (CBlockIndex_of_header block hash) q (Chain.nHeight bq + 1)) s]> (entries m)).
Proof using.
  intros hash Hwf Hnew Hprev Hq Hp Hh. pose proof (wi_height _ Hwf q bq Hq) as Hhq. assert (q <> p) as Hqp by congruence.
  pose proof (GetAncestor_spec _ Hwf q bq (Chain.GetSkipHeight (Chain.nHeight bq + 1)) Hq) as Ha. eexists. split; [exact Ha|].
  unfold link_prev. rewrite lookup_insert_ne by (intros E; rewrite E in Hnew; congruence). rewrite Hprev, lookup_insert_eq. cbn [mbind option_bind].
  rewrite lookup_insert_ne by done. rewrite Hq. cbn [mbind option_bind]. rewrite insert_insert_eq.
  replace (i32 (Chain.nHeight bq + 1)) with (Chain.nHeight bq + 1) by (symmetry; apply swrap_small; [lia|unfold in_s; lia]).
  unfold Chain.BuildSkip. rewrite lookup_insert_eq. cbn [mbind option_bind Chain.pprev set_prev Chain.nHeight].
  rewrite (GetAncestor_extends (entries m) _ (extends_insert_new _ _ _ Hp) _ _ _ Ha). cbn [mbind option_bind]. by rewrite insert_insert_eq.
Qed.

Lemma AddToBlockIndex_new m block q bq best bbest :
  let hash := CBlockHeader_GetHash block in
  wf_index (entries m) -> m_block_index m !! hash = None -> m_block_index m !! hashPrevBlock block = Some q -> entries m !! q = Some bq ->
  Chain.nHeight bq < 2 ^ 31 - 1 -> in_u 32 (nBits block) -> pindexBestHeader m = Some best -> entries m !! best = Some bbest ->
  exists p s t, entries m !! p = None /\ Chain.GetAncestor (entries m) q (Chain.GetSkipHeight (Chain.nHeight bq + 1)) = Some s /\
    BaseUint.wf 8 t /\ let b := new_entry block q bq s t in Chain.GetBlockTrust b = Some t /\
    AddToBlockIndex m block = Some (p, mkManager (<[hash := p]> (m_block_index m)) (<[p := b]> (entries m))
      (if BaseUint.ltb 8 (Chain.nChainTrust bbest) (Chain.nChainTrust b) then Some p else Some best) ({[ p ]} ∪ m_dirty_blockindex m) (m_failed_blocks m) (DGWenabled m)
      (m_best_invalid m) (setBlockIndexCandidates m)).
Proof using.
  intros hash Hwf Hnew Hprev Hq Hh Hbits Hbest Hbb. set (p := fresh (dom (entries m))). assert (entries m !! p = None) as Hp by apply not_elem_of_dom, is_fresh.
  destruct (link_prev_new m block q bq p Hwf Hnew Hprev Hq Hp Hh) as (s & Hs & Hlink). destruct (GetBlockTrust_spec (new_entry block q bq s []) Hbits) as (t & Ht & Hwt & _).
  exists p, s, t. split; [done|]. split; [done|]. split; [done|]. cbv zeta. split; [exact Ht|].
  fold hash in Hlink. unfold AddToBlockIndex. fold hash. rewrite Hnew. fold p. rewrite Hlink, bind_some, lookup_insert_eq, bind_some. cbn [Chain.pprev Chain.set_pskip set_prev].
  assert (q <> p) as Hqp by congruence. rewrite lookup_insert_ne by done. rewrite Hq, !bind_some. rewrite stake_flag by done.
  change (Chain.GetBlockTrust (Chain.set_pskip _ _)) with (Chain.GetBlockTrust (new_entry block q bq s [])). rewrite Ht, bind_some.
  change (Chain.RaiseValidity _ _) with (Some (true, new_entry block q bq s t)). rewrite bind_some. cbv beta iota. rewrite Hbest.
  assert (best <> p) by congruence. rewrite lookup_insert_ne by done. rewrite Hbb, !bind_some, insert_insert_eq. done.
Qed.

Section Add.
Context (m : BlockManager) (Hm : index_ok m) (block : CBlockHeader) (p q : Chain.ptr) (bq : CBlockIndex) (s : option Chain.ptr) (t : list Z).
Context (Hp : entries m !! p = None) (Hq : entries m !! q = Some bq) (Hh : Chain.nHeight bq < 2 ^ 31 - 1).
Context (Hs : Chain.GetAncestor (entries m) q (Chain.GetSkipHeight (Chain.nHeight bq + 1)) = Some s) (Ht : BaseUint.wf 8 t).
Abbreviation b := (new_entry block q bq s t).
Abbreviation h' := (<[p := b]> (entries m)).

Lemma added_extends : extends (entries m) h'.
Proof using Hp. by apply extends_insert_new. Qed.

(** An entry of the new index is the new one or an old one. *)
Lemma added_cases r br : h' !! r = Some br -> r = p /\ br = b \/ entries m !! r = Some br.
Proof using. rewrite lookup_insert_Some. intros [[<- <-]|[_ ?]]; [by left|by right]. Qed.

Lemma added_old r br : entries m !! r = Some br -> h' !! r = Some br.
Proof using Hp. intros Hr. rewrite lookup_insert_ne; [done|]. congruence. Qed.

Lemma added_wf : wf_index h'.
Proof using Hm Hp Hq Hh Hs.
  pose proof (io_wf m Hm) as Hwf. pose proof (wi_height _ Hwf q bq Hq) as Hhq. split.
  - intros r br [[-> ->]|Hr]%added_cases; [cbn; lia|by apply (wi_height _ Hwf r)].
  - intros r br [[-> ->]|Hr]%added_cases; [cbn; exists bq; split; [by apply added_old|done]|]. pose proof (wi_prev _ Hwf r br Hr) as Hprev.
    destruct (Chain.pprev br) as [r'|]; [|done]. destruct Hprev as (b' & Hb' & ?). exists b'. split; [by apply added_old|done].
  - intros r br x [[-> ->]|Hr]%added_cases Hx; [|apply (parent_n_extends _ _ added_extends); by apply (wi_skip _ Hwf r)]. cbn [Chain.pskip new_entry Chain.nHeight] in *. rewrite Hx in Hs.
    pose proof (GetSkipHeight_bound (Chain.nHeight bq + 1) ltac:(lia)) as Hk. rewrite (GetAncestor_spec _ Hwf q bq) in Hs by done.
    rewrite (proj2 (Z.leb_le 0 _)), (proj2 (Z.leb_le _ (Chain.nHeight bq))) in Hs by lia. cbn [andb] in Hs. injection Hs as Hs.
    replace (Z.to_nat _) with (S (Z.to_nat (Chain.nHeight bq - Chain.GetSkipHeight (Chain.nHeight bq + 1)))) by lia. cbn [parent_n]. rewrite lookup_insert_eq. cbn [mbind option_bind Chain.pprev new_entry].
    by apply (parent_n_extends _ _ added_extends).
Qed.

Lemma added_keys hash r : let index := <[CBlockHeader_GetHash block := p]> (m_block_index m) in
  m_block_index m !! CBlockHeader_GetHash block = None ->
  index !! hash = Some r <-> exists br, h' !! r = Some br /\ Chain.phashBlock br = hash.
Proof using Hm Hp.
  intros index Hnew. unfold index. rewrite lookup_insert_Some. split.
  - intros [[<- <-]|[Hne Hr]]; [exists b; by rewrite lookup_insert_eq|]. apply (io_keys m Hm) in Hr as (br & Hr & ?). exists br. split; [by apply added_old|done].
  - intros (br & [[-> ->]|Hr]%added_cases & <-); [by left|]. assert (m_block_index m !! Chain.phashBlock br = Some r) as Hk by (apply (io_keys m Hm); eauto).
    right. split; [|done]. intros E. rewrite E in Hnew. congruence.
Qed.

Lemma added_trust : BaseUint.wf 8 (Chain.nChainTrust b) /\ trust b = (trust bq + le_val 32 t) mod 2 ^ 256.
Proof using Hm Hq Ht. apply (BaseUint.add_assign_spec 8); [|done]. by apply (io_limbs m Hm q). Qed.

Lemma added_header : m_block_index m !! hashPrevBlock block = Some q -> GetBlockHeader h' b = Some block.
Proof using Hm Hp Hq.
  intros (bq' & Hq' & Hhash)%(io_keys m Hm). rewrite Hq in Hq'. injection Hq' as <-.
  unfold GetBlockHeader. cbn [Chain.pprev new_entry]. rewrite (added_old _ _ Hq). cbn. unfold Chain.GetBlockHash. rewrite Hhash. by destruct block.
Qed.

(** The entry obeys the rules that were checked against the old index. *)
Lemma added_child f f' median :
  m_block_index m !! hashPrevBlock block = Some q ->
  (is_stake_header block = true \/ CheckPOW block = true) ->
  Pow.GetNextTargetRequired (entries m) regtest f (Some q) (is_stake_header block) params = Some (nBits block, f') ->
  Chain.GetMedianTimePast (entries m) q = Some median -> median < hTime block -> Chain.nTime bq <= hTime block + MAX_FUTURE_BLOCK_TIME -> 4 <= hVersion block ->
  Chain.GetBlockTrust b = Some t -> child_ok h' b q bq.
Proof using Hm Hp Hq Ht.
  intros Hprev Hw Hn Hmed H1 H2 H3 Htr. split.
  - exists block. split; [by apply added_header|]. split; [done|exact Hw].
  - exists f, f'. by apply (GetNextTargetRequired_extends _ _ added_extends).
  - exists median. split; [by apply (GetMedianTimePast_extends _ _ added_extends)|done].
  - done.
  - done.
  - exists t. split; [done|apply added_trust].
Qed.

Lemma added_best best bbest : pindexBestHeader m = Some best -> entries m !! best = Some bbest ->
  exists r br, (if BaseUint.ltb 8 (Chain.nChainTrust bbest) (Chain.nChainTrust b) then Some p else Some best) = Some r /\ h' !! r = Some br /\
    (best_most m -> forall x bx, h' !! x = Some bx -> trust bx <= trust br).
Proof using Hm Hp Hq Ht.
  intros Hb Hbb. rewrite (BaseUint.ltb_spec 8) by (first [by apply (io_limbs m Hm best)|apply added_trust]).
  destruct (Z.ltb_spec (trust bbest) (trust b)) as [Hlt|Hge].
  - exists p, b. split; [done|]. split; [by rewrite lookup_insert_eq|]. intros Hmax x bx [[-> ->]|Hx]%added_cases; [lia|]. specialize (Hmax _ _ x bx Hb Hbb Hx). lia.
  - exists best, bbest. split; [done|]. split; [by apply added_old|]. intros Hmax x bx [[-> ->]|Hx]%added_cases; [lia|]. by apply (Hmax best bbest x).
Qed.

Lemma added_ok best dirty flag invalid candidates :
  m_block_index m !! CBlockHeader_GetHash block = None -> child_ok h' b q bq ->
  (exists r br, best = Some r /\ h' !! r = Some br) ->
  (forall i, invalid = Some i -> is_Some (h' !! i)) ->
  index_ok (mkManager (<[CBlockHeader_GetHash block := p]> (m_block_index m)) h' best dirty (m_failed_blocks m) flag invalid candidates).
Proof using Hm Hp Hq Hh Hs Ht.
  intros Hnew Hchild Hbest Hinv. split; cbn [entries m_block_index pindexBestHeader m_failed_blocks m_best_invalid].
  - apply added_wf.
  - intros hash r. by apply added_keys.
  - destruct (io_root m Hm) as (r & br & Hr & Hg & Hroot). exists r, br. split; [by apply added_old|]. split; [done|].
    intros x bx [[-> ->]|Hx]%added_cases Hn; [done|]. by apply (Hroot x bx).
  - intros r br x bx [[-> ->]|Hr]%added_cases Hn Hx.
    + cbn in Hn. injection Hn as <-. rewrite (added_old _ _ Hq) in Hx. injection Hx as <-. exact Hchild.
    + pose proof (wi_prev _ (io_wf m Hm) r br Hr) as Hprev. rewrite Hn in Hprev. destruct Hprev as (bx' & Hx' & _). rewrite (added_old _ _ Hx') in Hx. injection Hx as <-.
      apply (child_ok_extends (entries m) h' br br x bx' bx' added_extends); [reflexivity|reflexivity|]. by apply (io_child m Hm r).
  - intros r br [[-> ->]|Hr]%added_cases; [apply added_trust|by apply (io_limbs m Hm r)].
  - exact Hbest.
  - eapply Forall_impl; [exact (io_failed m Hm)|]. cbn. intros x (bx & Hx & ?). exists bx. split; [by apply added_old|done].
  - exact Hinv.
Qed.

End Add.

(** ** Marks on the descendants of failed blocks *)

(** Only statuses change, and they only gain bits. *)
Definition marked (h h' : Chain.heap) : Prop :=
  extends h h' /\ extends h' h /\
  forall p b b' x, h !! p = Some b -> h' !! p = Some b' -> Z.land (Chain.nStatus b) x <> 0 -> Z.land (Chain.nStatus b') x <> 0.

Lemma marked_refl h : marked h h.
Proof using. split; [reflexivity|]. split; [reflexivity|]. intros. by simplify_eq. Qed.

Lemma marked_trans h1 h2 h3 : marked h1 h2 -> marked h2 h3 -> marked h1 h3.
Proof using.
  intros (A & A' & Ax) (B & B' & Bx). split; [by transitivity h2|]. split; [by transitivity h2|]. intros p b b' x Hp Hp' Hx.
  destruct (A p b Hp) as (b2 & Hp2 & _). by apply (Bx p b2 b' x), (Ax p b b2 x).
Qed.

Lemma land_lor_ne a c x : Z.land a x <> 0 -> Z.land (Z.lor a c) x <> 0.
Proof using. rewrite Z.land_lor_distr_l. intros Ha E. apply Z.lor_eq_0_iff in E as [? _]. done. Qed.

Lemma marked_insert h p b c : h !! p = Some b -> marked h (<[p := Chain.set_nStatus b (Z.lor (Chain.nStatus b) c)]> h).
Proof using.
  intros Hp. destruct (extends_status h p b (Z.lor (Chain.nStatus b) c) Hp) as [A A']. split; [done|]. split; [done|].
  intros r br br' x Hr Hr' Hx. destruct (decide (r = p)) as [->|]; [|rewrite lookup_insert_ne in Hr' by done; by simplify_eq].
  rewrite lookup_insert_eq in Hr'. simplify_eq. by apply land_lor_ne.
Qed.

Lemma mark_failed_spec n h dirty walk failed : parent_n h n walk = Some failed ->
  exists h' dirty', mark_failed n h dirty walk failed = Some (h', dirty') /\ marked h h'.
Proof using.
  revert h dirty walk. induction n as [|n IH]; intros h dirty walk Hn; cbn [mark_failed].
  - cbn in Hn. injection Hn as ->. rewrite bool_decide_eq_true_2 by done. exists h, dirty. split; [done|apply marked_refl].
  - case_bool_decide; [exists h, dirty; split; [done|apply marked_refl]|]. cbn [parent_n] in Hn. destruct (h !! walk) as [b|] eqn:E; [|done].
    cbn [mbind option_bind] in *. destruct (Chain.pprev b) as [q|]; [|done]. cbn [mbind option_bind] in *.
    pose proof (marked_insert h walk b Chain.BLOCK_FAILED_CHILD E) as Hm. destruct Hm as (A & A' & Ax).
    destruct (IH _ ({[ walk ]} ∪ dirty) q (parent_n_extends _ _ A _ _ _ Hn)) as (h' & dirty' & He & Hm'). exists h', dirty'. split; [done|]. by eapply marked_trans.
Qed.

Lemma marked_ok m h' dirty : index_ok m -> marked (entries m) h' -> index_ok (with_entries m h' dirty).
Proof using.
  intros [H1 H2 H3 H4 H5 H6 H7 H8] (A & A' & Ax).
  assert (forall p b', h' !! p = Some b' -> exists b, entries m !! p = Some b /\ same_but_status b b') as Hback.
  { intros p b' Hp. destruct (A' p b' Hp) as (b & Hb & Hs). exists b. by split. }
  split; cbn [entries m_block_index pindexBestHeader m_failed_blocks with_entries].
  - by apply (wf_index_status (entries m)).
  - intros hash p. rewrite H2. split.
    + intros (b & Hb & <-). destruct (A p b Hb) as (b' & Hb' & s & ->). eauto.
    + intros (b' & Hb' & <-). destruct (Hback p b' Hb') as (b & Hb & s & ->). eauto.
  - destruct H3 as (p & b & Hp & Hg & Hroot). destruct (A p b Hp) as (b' & Hb' & s & ->). exists p, (Chain.set_nStatus b s). split; [done|]. split; [done|].
    intros q bq' Hq Hn. destruct (Hback q bq' Hq) as (bq & Hbq & s' & ->). by apply (Hroot q bq).
  - intros p b' q bq' Hp Hn Hq. destruct (Hback p b' Hp) as (b & Hb & Hs). destruct (Hback q bq' Hq) as (bq & Hbq & Hsq).
    apply (child_ok_extends (entries m) h' b b' q bq bq' A Hs Hsq). apply (H4 p); [done| |done]. by destruct Hs as [s ->].
  - intros p b' Hp. destruct (Hback p b' Hp) as (b & Hb & s & ->). by apply (H5 p b).
  - destruct H6 as (p & b & Hbest & Hp). destruct (A p b Hp) as (b' & Hb' & _). by exists p, b'.
  - eapply Forall_impl; [exact H7|]. cbn. intros f (b & Hf & Hx). destruct (A f b Hf) as (b' & Hb' & _). exists b'. split; [done|]. by apply (Ax f b b').
  - intros i Hi. destruct (H8 i Hi) as [b Hb]. destruct (A i b Hb) as (b' & Hb' & _). by exists b'.
Qed.

Lemma marked_best m h' dirty : marked (entries m) h' -> best_most m -> best_most (with_entries m h' dirty).
Proof using.
  intros (_ & A' & _) Hmost p b' q bq' Hbest Hp Hq. destruct (A' p b' Hp) as (b & Hb & s & ->), (A' q bq' Hq) as (bq & Hbq & s' & ->).
  exact (Hmost p _ q _ Hbest Hb Hbq).
Qed.

Lemma failed_loop_spec m p b l : index_ok m -> entries m !! p = Some b ->
  Forall (fun f => exists bf, entries m !! f = Some bf /\ Z.land (Chain.nStatus bf) Chain.BLOCK_FAILED_VALID <> 0) l ->
  exists r, failed_loop m p b l = Some r /\
    match r with
    | None => Forall (fun f => ~ is_anc (entries m) f p) l
    | Some (h', _) => marked (entries m) h' /\ ~ Forall (fun f => ~ is_anc (entries m) f p) l
    end.
Proof using.
  intros Hm Hp. pose proof (io_wf m Hm) as Hwf. induction 1 as [|f l (bf & Hf & Hbit) _ IH]; [by exists None|]. cbn [failed_loop]. rewrite Hf. cbn [mbind option_bind].
  rewrite (GetAncestor_spec _ Hwf p b) by done. cbn [mbind option_bind]. case_bool_decide as Ea.
  - destruct ((0 <=? Chain.nHeight bf) && (Chain.nHeight bf <=? Chain.nHeight b)); [|done]. rewrite (proj2 (Z.eqb_neq _ _)) by done.
    destruct (mark_failed_spec _ (entries m) (m_dirty_blockindex m) p f Ea) as (h' & dirty' & -> & Hmk). eexists. split; [done|]. split; [exact Hmk|].
    intros [Hno _]%Forall_cons. apply Hno. eexists. exact Ea.
  - destruct IH as (r & -> & Hr). exists r. split; [done|]. destruct r as [[h' ?]|]; [destruct Hr as [? Hr]; split; [done|]; intros [_ ?]%Forall_cons; done|]. constructor; [|done]. intros [n Hn]. apply Ea.
    destruct (decide (n <= Chain.nHeight b)) as [Hle|]; [|rewrite (parent_n_below _ Hwf n p b) in Hn by (done || lia); done].
    destruct (parent_n_height _ Hwf n p b Hp Hle) as (f' & bf' & Hn' & Hf' & Hh). rewrite Hn in Hn'. simplify_eq.
    pose proof (wi_height _ Hwf f' bf Hf) as Hhf. rewrite (proj2 (Z.leb_le 0 _)), (proj2 (Z.leb_le _ (Chain.nHeight b))) by lia. cbn [andb]. rewrite <- Hn. f_equal. lia.
Qed.

(** ** Blocks found to be invalid *)

Lemma index_ok_fields m best dirty failed flag invalid candidates :
  index_ok m -> (exists p b, best = Some p /\ entries m !! p = Some b) ->
  Forall (fun f => exists b, entries m !! f = Some b /\ Z.land (Chain.nStatus b) Chain.BLOCK_FAILED_VALID <> 0) failed ->
  (forall i, invalid = Some i -> is_Some (entries m !! i)) ->
  index_ok (mkManager (m_block_index m) (entries m) best dirty failed flag invalid candidates).
Proof using. by intros []. Qed.

Lemma InvalidChainFound_ok m tip bt p b : index_ok m -> entries m !! tip = Some bt -> entries m !! p = Some b ->
  exists m', InvalidChainFound m (Some tip) p = Some m' /\ index_ok m' /\ entries m' = entries m /\ m_block_index m' = m_block_index m /\
    m_failed_blocks m' = m_failed_blocks m.
Proof using.
  intros Hm Htip Hp. unfold InvalidChainFound. rewrite Hp. cbn [mbind option_bind].
  assert (exists better : bool, match m_best_invalid m with
           | None => Some true
           | Some i => bi ← entries m !! i; Some (BaseUint.gtb 8 (Chain.nChainTrust b) (Chain.nChainTrust bi))
           end = Some better) as [better ->].
  { destruct (m_best_invalid m) as [i|] eqn:Ei; [|eauto]. destruct (io_invalid m Hm i Ei) as [bi ->]. cbn. eauto. }
  destruct (io_best m Hm) as (best & bb & -> & Hbb). rewrite (GetAncestor_spec _ (io_wf m Hm) best bb) by done. cbn [mbind option_bind].
  eexists. split; [done|]. split; [|done]. apply index_ok_fields; [done| |apply (io_failed m Hm)|].
  - case_bool_decide; eauto.
  - destruct better; [intros i [= <-]; eauto|apply (io_invalid m Hm)].
Qed.

(** The block is marked, remembered, and the index stays as it should be. *)
Lemma InvalidBlockFound_ok m tip bt p result : index_ok m -> entries m !! tip = Some bt -> is_Some (entries m !! p) ->
  exists m', InvalidBlockFound m (Some tip) p result = Some m' /\ index_ok m' /\ marked (entries m) (entries m') /\ m_block_index m' = m_block_index m /\
    (result <> BLOCK_MUTATED -> p ∈ m_failed_blocks m').
Proof using.
  intros Hm Htip [b Hp]. assert (result = BLOCK_MUTATED \/ result <> BLOCK_MUTATED) as [->|Hne] by (destruct result; first [by left|by right]); [exists m; split; [done|]; split; [done|]; split; [apply marked_refl|done]|].
  pose proof (marked_insert (entries m) p b Chain.BLOCK_FAILED_VALID Hp) as Hmk. pose proof (marked_ok m _ ({[ p ]} ∪ m_dirty_blockindex m) Hm Hmk) as Hm1.
  unfold InvalidBlockFound. rewrite Hp. cbn [mbind option_bind].
  set (failed := if bool_decide (p ∈ m_failed_blocks m) then m_failed_blocks m else m_failed_blocks m ++ [p]).
  set (h' := <[p := _]> (entries m)) in *. assert (p ∈ failed) as Hin by (unfold failed; case_bool_decide; [done|apply elem_of_app; right; constructor]).
  assert (index_ok (mkManager (m_block_index m) h' (pindexBestHeader m) ({[ p ]} ∪ m_dirty_blockindex m) failed (DGWenabled m) (m_best_invalid m)
                      (setBlockIndexCandidates m ∖ {[ p ]}))) as Hm2.
  { apply (index_ok_fields (with_entries m h' ({[ p ]} ∪ m_dirty_blockindex m))); [done|apply (io_best _ Hm1)| |apply (io_invalid _ Hm1)].
    unfold failed. case_bool_decide; [apply (io_failed _ Hm1)|]. apply Forall_app. split; [apply (io_failed _ Hm1)|]. constructor; [|done].
    eexists. split; [apply lookup_insert_eq|]. cbn [Chain.nStatus Chain.set_nStatus]. rewrite Z.land_lor_distr_l. intros [_ E]%Z.lor_eq_0_iff. done. }
  destruct Hmk as (A & A' & Ax). destruct (A tip bt Htip) as (bt' & Htip' & _).
  destruct (InvalidChainFound_ok _ tip bt' p _ Hm2 Htip' (lookup_insert_eq _ _ _)) as (m' & E & Hm' & Ee & Ei & Ef). rewrite E.
  exists m'. rewrite Ee, Ei, Ef. assert (forall (A0 : option BlockManager) r, match result with BLOCK_MUTATED => r | _ => A0 end = A0) as Hres by (by destruct result).
  split; [by rewrite Hres|]. split; [done|]. split; [by split|done].
Qed.

(** ** Accepting a header *)

Lemma checkpoint_total m height : index_ok m -> is_Some (check_checkpoint fCheckpointsEnabled checkpoints m height).
Proof using.
  intros Hm. unfold check_checkpoint. case_if; [|done]. unfold GetLastCheckpoint. destruct (find_checkpoint m (rev checkpoints)) as [p|] eqn:Ef; [|done].
  assert (exists hash, m_block_index m !! hash = Some p) as [hash Hp].
  { revert Ef. induction (rev checkpoints) as [|[k hash] l IH]; cbn [find_checkpoint]; [done|]. destruct (LookupBlockIndex m hash) eqn:El; [intros [= ->]; eauto|done]. }
  apply (io_keys m Hm) in Hp as (b & -> & _). cbn. eauto.
Qed.

(** What a header on top of an entry has to satisfy. *)
Record header_rules (m : BlockManager) (block : CBlockHeader) (q : Chain.ptr) (bq : CBlockIndex) (target now : Z) : Prop := {
  hr_bits : nBits block = target;
  hr_checkpoint : check_checkpoint fCheckpointsEnabled checkpoints m (Chain.nHeight bq + 1) = Some true;
  hr_median : exists median, Chain.GetMedianTimePast (entries m) q = Some median /\ median < hTime block;
  hr_early : Chain.nTime bq <= hTime block + MAX_FUTURE_BLOCK_TIME;
  hr_late : hTime block <= i64 (now + MAX_FUTURE_BLOCK_TIME);
  hr_version : 4 <= hVersion block
}.

Lemma ContextualCheckBlockHeader_spec m block q bq now target f :
  index_ok m -> entries m !! q = Some bq -> Chain.nHeight bq < 2 ^ 31 - 1 ->
  Pow.GetNextTargetRequired (entries m) regtest (DGWenabled m) (Some q) (is_stake_header block) params = Some (target, f) ->
  exists v, ContextualCheckBlockHeader params regtest fCheckpointsEnabled checkpoints m block q now = Some (v, f) /\
    (v = BlockValid <-> header_rules m block q bq target now).
Proof using.
  intros Hm Hq Hh Ht. pose proof (wi_height _ (io_wf m Hm) q bq Hq) as Hhq. unfold ContextualCheckBlockHeader. rewrite Hq. cbn [mbind option_bind]. rewrite Ht. cbn [mbind option_bind].
  replace (i32 (Chain.nHeight bq + 1)) with (Chain.nHeight bq + 1) by (symmetry; apply swrap_small; [lia|unfold in_s; lia]).
  destruct (Z.eqb_spec (nBits block) target) as [Eb|Eb]; cbn [negb]; [|eexists; split; [done|]; split; [done|]; by intros []].
  destruct (checkpoint_total m (Chain.nHeight bq + 1) Hm) as [after Ha]. rewrite Ha. cbn [mbind option_bind].
  destruct after; cbn [negb]; [|eexists; split; [done|]; split; [done|]; intros []; congruence].
  destruct (GetMedianTimePast_spec (entries m) q bq (io_wf m Hm) Hq) as (_ & med & _ & _ & Emed & _). rewrite Emed. cbn [mbind option_bind]. unfold Chain.GetBlockTime.
  destruct (Z.leb_spec (hTime block) med) as [Hle|Hgt]; cbn [orb].
  { eexists. split; [done|]. split; [done|]. intros [_ _ (med' & Em & Hlt) _ _ _]. rewrite Emed in Em. injection Em as <-. lia. }
  destruct (Z.ltb_spec (hTime block + MAX_FUTURE_BLOCK_TIME) (Chain.nTime bq)) as [Hlt|Hge]; [eexists; split; [done|]; split; [done|]; intros []; lia|].
  destruct (Z.ltb_spec (i64 (now + MAX_FUTURE_BLOCK_TIME)) (hTime block)) as [Hlt|Hge']; [eexists; split; [done|]; split; [done|]; intros []; lia|].
  destruct (Z.ltb_spec (hVersion block) 4) as [H4|H4]; [rewrite orb_true_r; eexists; split; [done|]; split; [done|]; intros []; lia|].
  rewrite (proj2 (Z.ltb_ge (hVersion block) 2)) by lia. eexists. split; [done|]. split; [|done]. intros _. split; try done. eauto.
Qed.

(** When an unknown header is accepted. *)
Definition acceptable (m : BlockManager) (block : CBlockHeader) (now : Z) : Prop :=
  (is_stake_header block = true \/ CheckPOW block = true) /\
  exists q bq target f, m_block_index m !! hashPrevBlock block = Some q /\ entries m !! q = Some bq /\
    Z.land (Chain.nStatus bq) Chain.BLOCK_FAILED_MASK = 0 /\
    Pow.GetNextTargetRequired (entries m) regtest (DGWenabled m) (Some q) (is_stake_header block) params = Some (target, f) /\
    header_rules m block q bq target now /\
    (Chain.IsValid bq Chain.BLOCK_VALID_SCRIPTS = Some true \/ Forall (fun x => ~ is_anc (entries m) x q) (m_failed_blocks m)).

(** The predecessor is not at the last height, and its retarget asserts nothing. *)
Definition extensible (m : BlockManager) (block : CBlockHeader) : Prop :=
  in_u 32 (nBits block) /\
  forall q bq, m_block_index m !! hashPrevBlock block = Some q -> entries m !! q = Some bq ->
    Chain.nHeight bq < 2 ^ 31 - 1 /\ is_Some (Pow.GetNextTargetRequired (entries m) regtest (DGWenabled m) (Some q) (is_stake_header block) params).

Abbreviation Accept := (AcceptBlockHeader params regtest hashGenesisBlock fCheckpointsEnabled checkpoints CheckPOW).

(** The result of the call and what it leaves. *)
Definition outcome (m : BlockManager) (block : CBlockHeader) (ok : bool) (v : block_verdict) (p : option Chain.ptr) (m' : BlockManager) : Prop :=
  index_ok m' /\ extends (entries m) (entries m') /\ (best_most m -> best_most m') /\
  if ok then
    v = BlockValid /\ exists q, p = Some q /\ m_block_index m' !! CBlockHeader_GetHash block = Some q /\
      (m_block_index m !! CBlockHeader_GetHash block = None -> exists b, entries m' !! q = Some b /\ GetBlockHeader (entries m') b = Some block)
  else v <> BlockValid /\ m_block_index m' = m_block_index m.

Lemma index_ok_flag m f : index_ok m -> index_ok (with_flag m f).
Proof using. by intros []. Qed.

Lemma outcome_refused m block v p f : index_ok m -> v <> BlockValid -> outcome m block false v p (with_flag m f).
Proof using. intros Hm Hv. split; [by apply index_ok_flag|]. by split. Qed.

Lemma outcome_known m block q : index_ok m -> m_block_index m !! CBlockHeader_GetHash block = Some q -> outcome m block true BlockValid (Some q) m.
Proof using. intros Hm Hq. do 3 (split; [done|]). split; [done|]. exists q. split; [done|]. split; [done|]. rewrite Hq. done. Qed.

Lemma with_flag_same m : with_flag m (DGWenabled m) = m.
Proof using. by destruct m. Qed.

(** Adding a header that obeys the rules. *)
Lemma add_outcome m block q bq target f now :
  index_ok m -> CBlockHeader_GetHash block <> hashGenesisBlock -> m_block_index m !! CBlockHeader_GetHash block = None ->
  (is_stake_header block = true \/ CheckPOW block = true) ->
  m_block_index m !! hashPrevBlock block = Some q -> entries m !! q = Some bq -> Chain.nHeight bq < 2 ^ 31 - 1 -> in_u 32 (nBits block) ->
  Pow.GetNextTargetRequired (entries m) regtest (DGWenabled m) (Some q) (is_stake_header block) params = Some (target, f) ->
  header_rules m block q bq target now ->
  exists p m', AddToBlockIndex (with_flag m f) block = Some (p, m') /\ outcome m block true BlockValid (Some p) m'.
Proof using.
  intros Hm Hg Hnew Hw Hprev Hq Hh Hbits Ht [R1 _ (med & R3 & R3') R4 _ R6]. destruct (io_best m Hm) as (best & bbest & Hbest & Hbb). subst target.
  destruct (AddToBlockIndex_new (with_flag m f) block q bq best bbest (io_wf m Hm) Hnew Hprev Hq Hh Hbits Hbest Hbb) as (p & s & t & Hp & Hs & Hwt & Htr & Hadd).
  eexists _, _. split; [exact Hadd|]. cbn [m_block_index entries m_failed_blocks DGWenabled with_flag] in *.
  destruct (added_best m Hm block p q bq s t Hp Hq Hwt best bbest Hbest Hbb) as (r & br & Er & Hr & Hmost).
  split; [|split; [by apply extends_insert_new|split; [|split; [done|]]]].
  3:{ exists p. split; [done|]. cbn [m_block_index entries]. rewrite lookup_insert_eq. split; [done|]. intros _. eexists. rewrite lookup_insert_eq. split; [done|].
      by apply (added_header m Hm). }
  2:{ intros Hm' x bx y by_. cbn [entries pindexBestHeader]. rewrite Er. intros [= <-] Hx. rewrite Hr in Hx. injection Hx as <-. by apply Hmost. }
  apply (added_ok m Hm); [done..| | |].
  - by apply (added_child m Hm block p q bq s t Hp Hq Hwt (DGWenabled m) f med).
  - by exists r, br.
  - intros i Hi. destruct (io_invalid m Hm i Hi) as [bi Hbi]. exists bi. by apply added_old.
Qed.

(** A call that returns, leaves what it should, and accepts what is acceptable. *)
Definition decides (m : BlockManager) (block : CBlockHeader) (now : Z) (r : option (bool * block_verdict * option Chain.ptr * BlockManager)) : Prop :=
  exists ok v p m', r = Some (ok, v, p, m') /\ outcome m block ok v p m' /\ (ok = true <-> acceptable m block now).

Lemma decides_refused m block now v p f : index_ok m -> v <> BlockValid -> ~ acceptable m block now -> decides m block now (Some (false, v, p, with_flag m f)).
Proof using. intros Hm Hv Hno. exists false, v, p, (with_flag m f). split; [done|]. split; [by apply outcome_refused|]. split; [done|]. intros ?. done. Qed.

Lemma decides_refused_same m block now v p : index_ok m -> v <> BlockValid -> ~ acceptable m block now -> decides m block now (Some (false, v, p, m)).
Proof using. intros Hm Hv Hno. pose proof (decides_refused m block now v p (DGWenabled m) Hm Hv Hno) as Hd. by rewrite with_flag_same in Hd. Qed.

(** After the checks of the header: the failed blocks. *)
Lemma decides_checked m block now q bq f :
  index_ok m -> entries m !! q = Some bq -> Z.land (Chain.nStatus bq) Chain.BLOCK_FAILED_MASK = 0 ->
  (acceptable m block now <-> Chain.IsValid bq Chain.BLOCK_VALID_SCRIPTS = Some true \/ Forall (fun x => ~ is_anc (entries m) x q) (m_failed_blocks m)) ->
  (exists p m', AddToBlockIndex (with_flag m f) block = Some (p, m') /\ outcome m block true BlockValid (Some p) m') ->
  decides m block now
    (valid ← Chain.IsValid bq Chain.BLOCK_VALID_SCRIPTS;
     marked ← (if (valid : bool) then Some None else failed_loop (with_flag m f) q bq (m_failed_blocks (with_flag m f)));
     match marked with
     | Some (h, dirty) => Some (false, BlockInvalid BLOCK_INVALID_PREV "bad-prevblk", None, with_entries (with_flag m f) h dirty)
     | None => '(p, m) ← AddToBlockIndex (with_flag m f) block; Some (true, BlockValid, Some p, m)
     end).
Proof using.
  intros Hm Hq Es Hacc (p & m' & Hadd & Hout).
  assert (acceptable m block now -> decides m block now ('(p, m) ← AddToBlockIndex (with_flag m f) block; Some (true, BlockValid, Some p, m))) as Hok.
  { intros Ha. rewrite Hadd. cbn [mbind option_bind]. eexists _, _, _, _. by split. }
  unfold Chain.IsValid in *. change (negb (Z.land Chain.BLOCK_VALID_SCRIPTS (u32 (Z.lnot Chain.BLOCK_VALID_MASK)) =? 0)) with false in *. rewrite Es in *. cbn [negb Z.eqb mbind option_bind] in *.
  destruct (Chain.BLOCK_VALID_SCRIPTS <=? Z.land (Chain.nStatus bq) Chain.BLOCK_VALID_MASK); [apply Hok, Hacc; by left|].
  destruct (failed_loop_spec (with_flag m f) q bq (m_failed_blocks m) (index_ok_flag m f Hm) Hq (io_failed m Hm)) as (r & Hloop & Hres).
  change (m_failed_blocks (with_flag m f)) with (m_failed_blocks m). rewrite Hloop. cbn [mbind option_bind].
  destruct r as [[h' dirty]|]; [|apply Hok, Hacc; by right]. destruct Hres as [Hmk Hno]. eexists false, _, _, _. split; [done|]. split.
  - split; [by apply marked_ok; [apply index_ok_flag|]|]. split; [apply Hmk|]. split; [intros Hbm; by apply (marked_best (with_flag m f) h' dirty)|done].
  - split; [done|]. intros [?|?]%Hacc; [congruence|done].
Qed.

Lemma accept_new m block now :
  index_ok m -> extensible m block -> CBlockHeader_GetHash block <> hashGenesisBlock -> m_block_index m !! CBlockHeader_GetHash block = None ->
  decides m block now (Accept m block now).
Proof using.
  intros Hm [Hbits Hext] Hg Hnew. unfold AcceptBlockHeader. rewrite bool_decide_eq_false_2 by done. rewrite Hnew. unfold CheckBlockHeader.
  destruct (negb (is_stake_header block) && negb (CheckPOW block)) eqn:Ew.
  { apply decides_refused_same; [done..|]. apply andb_true_iff in Ew as [Ew Ew']. apply negb_true_iff in Ew, Ew'. intros [[?|?] _]; congruence. }
  assert (is_stake_header block = true \/ CheckPOW block = true) as Hw by (destruct (is_stake_header block), (CheckPOW block); auto; done).
  destruct (m_block_index m !! hashPrevBlock block) as [q|] eqn:Hprev; [|apply decides_refused_same; [done..|]; intros (_ & ? & ? & ? & ? & E & _); congruence].
  pose proof Hprev as (bq & Hq & _)%(io_keys m Hm). rewrite Hq. cbn [mbind option_bind]. destruct (Hext q bq eq_refl Hq) as [Hh [[target f] Ht]].
  destruct (Z.eqb_spec (Z.land (Chain.nStatus bq) Chain.BLOCK_FAILED_MASK) 0) as [Es|Es]; cbn [negb].
  2:{ apply decides_refused_same; [done..|]. intros (_ & q' & bq' & ? & ? & E & E' & ? & _). congruence. }
  destruct (ContextualCheckBlockHeader_spec m block q bq now target f Hm Hq Hh Ht) as (v & -> & Hv). cbn [mbind option_bind].
  assert (acceptable m block now <-> header_rules m block q bq target now /\
    (Chain.IsValid bq Chain.BLOCK_VALID_SCRIPTS = Some true \/ Forall (fun x => ~ is_anc (entries m) x q) (m_failed_blocks m))) as Hacc.
  { split; [intros (_ & q' & bq' & target' & f' & E1 & E2 & _ & E3 & H1 & H2)|intros [H1 H2]; split; [done|]; by exists q, bq, target, f].
    assert (q' = q) as -> by congruence. assert (bq' = bq) as -> by congruence. assert (target' = target) as -> by congruence. by split. }
  destruct v as [|r s]; [|apply decides_refused; [done..|]; rewrite Hacc; intros [H1%Hv _]; done]. pose proof (proj1 Hv eq_refl) as Hr.
  apply decides_checked; [done..|rewrite Hacc; tauto|]. by apply (add_outcome m block q bq target f now).
Qed.

(** [AcceptBlockHeader] on any header. *)
Lemma AcceptBlockHeader_spec m block now :
  index_ok m -> extensible m block ->
  exists ok v p m', Accept m block now = Some (ok, v, p, m') /\ outcome m block ok v p m' /\
    match m_block_index m !! CBlockHeader_GetHash block with
    | None => ok = true <-> acceptable m block now
    | Some q => m' = m /\ p = Some q
    end.
Proof using.
  intros Hm Hext. destruct (m_block_index m !! CBlockHeader_GetHash block) as [q|] eqn:Hk.
  - pose proof Hk as (b & Hb & _)%(io_keys m Hm). unfold AcceptBlockHeader. case_bool_decide.
    + unfold AddToBlockIndex. rewrite Hk. cbn [mbind option_bind]. exists true, BlockValid, (Some q), m. split; [done|]. split; [|done].
      by apply outcome_known.
    + rewrite Hk, Hb. cbn [mbind option_bind]. case_if; eexists _, _, _, _; (split; [done|]); (split; [|done]); [by split|by apply outcome_known].
  - apply accept_new; try done. intros Hg. destruct (io_root m Hm) as (p & b & Hp & Hh & _). assert (m_block_index m !! hashGenesisBlock = Some p) as Hr by (apply (io_keys m Hm); eauto).
    rewrite Hg in Hk. congruence.
Qed.

(** ** From the genesis block on *)

Definition empty_manager : BlockManager := mkManager ∅ ∅ None ∅ [] false None ∅.

Definition genesis_entry (g : CBlockHeader) (t : list Z) : CBlockIndex :=
  Chain.set_nStatus (set_trust (CBlockIndex_of_header g (CBlockHeader_GetHash g)) (hTime g) (BaseUint.add_assign 8 (BaseUint.of_u64 8 0) t)) Chain.BLOCK_VALID_TREE.

Lemma AddToBlockIndex_genesis g : hashPrevBlock g <> CBlockHeader_GetHash g -> in_u 32 (nBits g) ->
  exists p t, BaseUint.wf 8 t /\
    AddToBlockIndex empty_manager g =
      Some (p, mkManager {[ CBlockHeader_GetHash g := p ]} {[ p := genesis_entry g t ]} (Some p) {[ p ]} [] false None ∅).
Proof using.
  intros Hne Hbits. destruct (GetBlockTrust_spec (CBlockIndex_of_header g (CBlockHeader_GetHash g)) Hbits) as (t & Ht & Hwt & _).
  exists (fresh (dom (∅ : Chain.heap))), t. split; [done|]. unfold AddToBlockIndex. cbn [m_block_index entries empty_manager]. rewrite lookup_empty.
  set (p := fresh _). unfold link_prev. rewrite lookup_insert_ne, lookup_empty by done. rewrite bind_some, lookup_insert_eq, bind_some.
  cbn [Chain.pprev CBlockIndex_of_header]. rewrite bind_some, stake_flag by done. rewrite Ht, bind_some. change (Chain.RaiseValidity _ _) with (Some (true, genesis_entry g t)).
  rewrite bind_some. cbv beta iota. cbn [pindexBestHeader m_dirty_blockindex]. rewrite ?bind_some, insert_insert_eq. by repeat f_equal.
Qed.

Lemma genesis_ok g p t : BaseUint.wf 8 t -> CBlockHeader_GetHash g = hashGenesisBlock ->
  let m := mkManager {[ CBlockHeader_GetHash g := p ]} {[ p := genesis_entry g t ]} (Some p) {[ p ]} [] false None ∅ in
  index_ok m /\ best_most m.
Proof using.
  intros Hwt Hg m. split.
  - split; cbn [entries m_block_index pindexBestHeader m_failed_blocks m_best_invalid m].
    + split; intros q b; [intros [<- <-]%lookup_singleton_Some; by cbn..|intros r [<- <-]%lookup_singleton_Some; done].
    + intros hash q. rewrite lookup_singleton_Some. split; [intros [<- <-]; eexists; by rewrite lookup_singleton_eq|]. intros (b & [<- <-]%lookup_singleton_Some & <-). done.
    + exists p, (genesis_entry g t). rewrite lookup_singleton_eq. split; [done|]. split; [exact Hg|]. by intros q bq [<- _]%lookup_singleton_Some.
    + by intros q b r br [<- <-]%lookup_singleton_Some.
    + intros q b [<- <-]%lookup_singleton_Some. apply (BaseUint.add_assign_spec 8); [apply (BaseUint.val_0_of_u64 8); lia|done].
    + exists p, (genesis_entry g t). by rewrite lookup_singleton_eq.
    + constructor.
    + done.
  - intros q b r br _. cbn [entries m]. intros [<- <-]%lookup_singleton_Some [<- <-]%lookup_singleton_Some. lia.
Qed.

Lemma genesis_index g p0 m0 : CBlockHeader_GetHash g = hashGenesisBlock -> hashPrevBlock g <> CBlockHeader_GetHash g -> in_u 32 (nBits g) ->
  AddToBlockIndex empty_manager g = Some (p0, m0) -> index_ok m0 /\ best_most m0.
Proof using.
  intros Hg Hne Hbits Hadd. destruct (AddToBlockIndex_genesis g Hne Hbits) as (p & t & Hwt & Hadd'). rewrite Hadd in Hadd'. injection Hadd' as -> ->.
  by apply genesis_ok.
Qed.

(** A header is looked at; a block is found to be invalid while there is a tip. *)
Inductive accept_step (m m' : BlockManager) : Prop :=
| accept_step_intro block now ok v p : extensible m block -> Accept m block now = Some (ok, v, p, m') -> accept_step m m'.
Inductive fail_step (m m' : BlockManager) : Prop :=
| fail_step_intro tip p result : is_Some (entries m !! tip) -> is_Some (entries m !! p) -> InvalidBlockFound m (Some tip) p result = Some m' -> fail_step m m'.

Lemma accept_step_ok m m' : accept_step m m' -> index_ok m -> index_ok m' /\ (best_most m -> best_most m').
Proof using.
  intros [block now ok v p Hext He] Hm. destruct (AcceptBlockHeader_spec m block now Hm Hext) as (? & ? & ? & m1 & He' & (H1 & _ & H2 & _) & _).
  rewrite He in He'. by simplify_eq.
Qed.

Lemma fail_step_ok m m' : fail_step m m' -> index_ok m -> index_ok m'.
Proof using.
  intros [tip p result [bt Ht] Hp He] Hm. destruct (InvalidBlockFound_ok m tip bt p result Hm Ht Hp) as (m1 & He' & H1 & _). rewrite He in He'. by simplify_eq.
Qed.

Lemma steps_ok m m' : rtc (fun a b => accept_step a b \/ fail_step a b) m m' -> index_ok m -> index_ok m'.
Proof using. induction 1 as [|m1 m2 m3 [Hs|Hs] _ IH]; [done|intros Hm; apply IH; by apply (accept_step_ok m1)|intros Hm; apply IH; by apply (fail_step_ok m1)]. Qed.

Lemma accepts_best m m' : rtc accept_step m m' -> index_ok m -> best_most m -> best_most m'.
Proof using. induction 1 as [|m1 m2 m3 Hs _ IH]; [done|]. intros Hm Hb. destruct (accept_step_ok m1 m2 Hs Hm). by apply IH; auto. Qed.

Lemma accept_then_fail m0 m1 m2 block now ok v p tip q result :
  extensible m0 block -> Accept m0 block now = Some (ok, v, p, m1) ->
  is_Some (entries m1 !! tip) -> is_Some (entries m1 !! q) -> InvalidBlockFound m1 (Some tip) q result = Some m2 ->
  rtc (fun a b => accept_step a b \/ fail_step a b) m0 m2.
Proof using. intros H1 H2 H3 H4 H5. eapply rtc_l; [left; exact (accept_step_intro _ _ _ _ _ _ _ H1 H2)|]. apply rtc_once. right. exact (fail_step_intro _ _ _ _ _ H3 H4 H5). Qed.

(** ** Batches of headers *)

Lemma index_grows m m' hash p : index_ok m -> index_ok m' -> extends (entries m) (entries m') ->
  m_block_index m !! hash = Some p -> m_block_index m' !! hash = Some p.
Proof using.
  intros Hm Hm' Hx (b & Hb & <-)%(io_keys m Hm). destruct (Hx p b Hb) as (b' & Hb' & s & ->). apply (io_keys m' Hm'). by exists (Chain.set_nStatus b s).
Qed.

Abbreviation process := (process_header params regtest hashGenesisBlock fCheckpointsEnabled checkpoints CheckPOW).

(** One header: whether it was accepted, and then it is in the index. *)
Lemma process_header_ok cooling x st : index_ok (manager st) -> extensible (manager st) x.1 ->
  exists go st', process cooling x st = Some (go, st') /\ index_ok (manager st') /\ extends (entries (manager st)) (entries (manager st')) /\
    accept_step (manager st) (manager st') /\ (go = true <-> h_state st' = BlockValid) /\
    (go = true -> exists q, ppindex st' = Some q /\ m_block_index (manager st') !! CBlockHeader_GetHash x.1 = Some q).
Proof using.
  intros Hm Hext. destruct (AcceptBlockHeader_spec (manager st) x.1 x.2 Hm Hext) as (ok & v & p & m' & He & (Hm' & Hx & _ & Hok) & _).
  pose proof (accept_step_intro _ _ _ _ _ _ _ Hext He) as Hs. unfold process_header. rewrite He. cbn [mbind option_bind].
  destruct ok; cbn [negb]; eexists _, _; (split; [done|]); cbn [manager ppindex h_state]; (split; [done|]); (split; [done|]); (split; [done|]).
  - destruct Hok as [-> (q & -> & Hq & _)]. split; [done|]. eauto.
  - destruct Hok as [Hv _]. split; [|done]. by split.
Qed.

Lemma process_headers_ok cooling l st : index_ok (manager st) -> h_state st = BlockValid ->
  (forall m x, rtc accept_step (manager st) m -> x ∈ l -> extensible m x.1) ->
  exists r st', until_stop (process cooling) l st = Some (r, st') /\ index_ok (manager st') /\ extends (entries (manager st)) (entries (manager st')) /\
    rtc accept_step (manager st) (manager st') /\ (r = true <-> h_state st' = BlockValid) /\
    (r = true -> Forall (fun x => is_Some (m_block_index (manager st') !! CBlockHeader_GetHash x.1)) l).
Proof using.
  revert st. induction l as [|x l IH]; intros st Hm Hv Hext; cbn [until_stop].
  - exists true, st. split; [done|]. split; [done|]. split; [reflexivity|]. split; [constructor|]. by split.
  - destruct (process_header_ok cooling x st Hm) as (go & st1 & -> & Hm1 & Hx1 & Hs1 & Hv1 & Hin1); [apply Hext; [constructor|left]|]. cbn [mbind option_bind].
    destruct go; [|exists false, st1; split; [done|]; split; [done|]; split; [done|]; split; [by apply rtc_once|]; by split].
    destruct (IH st1 Hm1) as (r & st' & -> & Hm' & Hx' & Hs' & Hv' & Hin'); [by apply Hv1|intros m y Hr Hy; apply Hext; [by eapply rtc_l|by right]|].
    exists r, st'. split; [done|]. split; [done|]. split; [by transitivity (entries (manager st1))|]. split; [by eapply rtc_l|]. split; [done|].
    intros Hr. constructor; [|by apply Hin']. destruct (Hin1 eq_refl) as (q & _ & Hq). exists q. by apply (index_grows (manager st1)).
Qed.

(** [ProcessNewBlockHeaders] returns; it says so when all headers are accepted, which then are in the index. *)
Lemma ProcessNewBlockHeaders_ok m temperature lastAccepted headers : index_ok m -> headers <> [] ->
  (forall m' x, rtc accept_step m m' -> x ∈ headers -> extensible m' x.1) ->
  exists r st, ProcessNewBlockHeaders params regtest hashGenesisBlock fCheckpointsEnabled checkpoints CheckPOW m temperature lastAccepted headers = Some (r, st) /\
    index_ok (manager st) /\ rtc accept_step m (manager st) /\ (r = true <-> h_state st = BlockValid) /\
    (r = true -> Forall (fun x => is_Some (m_block_index (manager st) !! CBlockHeader_GetHash x.1)) headers).
Proof using.
  intros Hm Hne Hext. unfold ProcessNewBlockHeaders. destruct headers as [|[first t] l]; [done|]. cbn [head mbind option_bind].
  destruct (process_headers_ok (if bool_decide (hashPrevBlock first <> lastAccepted) && negb (Blob.IsNull lastAccepted) then 0 else POW_HEADER_COOLING) ((first, t) :: l)
    (mkHeaders BlockValid (if bool_decide (hashPrevBlock first <> lastAccepted) && negb (Blob.IsNull lastAccepted)
       then i32 (temperature + u64 (18 + length ((first, t) :: l)) / 10) else temperature) None m) Hm eq_refl Hext) as (r & st & He & H1 & _ & H2 & H3 & H4).
  exists r, st. split; [exact He|]. by split.
Qed.

(** ** The history of an index *)

(** C6: Whatever headers a node is sent after the genesis block, and
    whatever blocks it finds to be invalid, its index is a tree in which every
    entry obeys the rules for its header; an unknown header is accepted exactly if
    it is acceptable, is then stored as it was sent, and otherwise nothing is added;
    an invalid block is marked and remembered.  While there are no invalid blocks,
    the best header is the one with the most trust. *)
Theorem header_index g p0 m0 m :
  CBlockHeader_GetHash g = hashGenesisBlock -> hashPrevBlock g <> CBlockHeader_GetHash g -> in_u 32 (nBits g) ->
  AddToBlockIndex empty_manager g = Some (p0, m0) ->
  rtc (fun a b => accept_step a b \/ fail_step a b) m0 m ->
  index_ok m /\ (rtc accept_step m0 m -> best_most m) /\
  (forall block now, extensible m block -> exists ok v p m', Accept m block now = Some (ok, v, p, m') /\ outcome m block ok v p m' /\
     match m_block_index m !! CBlockHeader_GetHash block with
     | None => ok = true <-> acceptable m block now
     | Some q => m' = m /\ p = Some q
     end) /\
  (forall tip p result, is_Some (entries m !! tip) -> is_Some (entries m !! p) ->
     exists m', InvalidBlockFound m (Some tip) p result = Some m' /\ index_ok m' /\ marked (entries m) (entries m') /\ m_block_index m' = m_block_index m /\
       (result <> BLOCK_MUTATED -> p ∈ m_failed_blocks m')).
Proof using.
  intros Hg Hne Hbits Hadd Hsteps. destruct (genesis_index g p0 m0 Hg Hne Hbits Hadd) as [Hok Hbest]. pose proof (steps_ok m0 m Hsteps Hok) as Hm.
  split; [done|]. split; [intros Ha; by apply (accepts_best m0)|]. split; [intros; by apply AcceptBlockHeader_spec|].
  intros tip q result [bt Ht] Hq. by apply (InvalidBlockFound_ok m tip bt).
Qed.

(** ** The flags of a header *)

Lemma acceptable_flags m block f now : is_stake_header (with_flags block f) = is_stake_header block -> CheckPOW (with_flags block f) = CheckPOW block ->
  acceptable m block now -> acceptable m (with_flags block f) now.
Proof using.
  intros E1 E2 [Hw (q & bq & target & f' & H1 & H2 & H3 & H4 & [] & H6)]. split; [by rewrite E1, E2|]. exists q, bq, target, f'. rewrite E1. by split_and!.
Qed.

(** C27: Nothing protects the flags of a header but the one that says
    that it is of a proof-of-stake block: where a new header is accepted, so is
    every header with other flags instead; it has the same hash, and the
    flags that were sent are those of the entry. *)
Theorem header_flags_trusted m block f now v p m1 :
  index_ok m -> extensible m block -> m_block_index m !! CBlockHeader_GetHash block = None ->
  is_stake_header (with_flags block f) = is_stake_header block -> CheckPOW (with_flags block f) = CheckPOW block ->
  Accept m block now = Some (true, v, p, m1) ->
  exists q b m2, Accept m (with_flags block f) now = Some (true, BlockValid, Some q, m2) /\
    m_block_index m2 !! CBlockHeader_GetHash block = Some q /\ entries m2 !! q = Some b /\ Chain.nFlags b = f.
Proof using.
  intros Hm Hext Hnew E1 E2 Ha. destruct (AcceptBlockHeader_spec m block now Hm Hext) as (ok & v' & p' & m' & Ha' & _ & Hacc).
  rewrite Ha in Ha'. injection Ha' as <- <- <- <-. rewrite Hnew in Hacc. pose proof (acceptable_flags m block f now E1 E2 (proj1 Hacc eq_refl)) as Hf.
  assert (extensible m (with_flags block f)) as Hext' by (unfold extensible; rewrite E1; exact Hext).
  destruct (AcceptBlockHeader_spec m (with_flags block f) now Hm Hext') as (ok & v2 & p2 & m2 & Ha2 & Hout & Hacc2).
  rewrite GetHash_flags, Hnew in Hacc2. apply Hacc2 in Hf as ->. destruct Hout as (_ & _ & _ & -> & q & -> & Hq & Hst).
  rewrite GetHash_flags in Hq, Hst. destruct (Hst Hnew) as (b & Hb & Hhead). exists q, b, m2. split; [done|]. split; [done|]. split; [done|].
  unfold GetBlockHeader in Hhead. destruct (match Chain.pprev b with None => _ | Some _ => _ end); [|done]. cbn in Hhead. by injection Hhead.
Qed.

End Headers.

(** ** Samples *)

Lemma extensible_at `{!BN} params regtest m block q bq c : in_u 32 (nBits block) ->
  m_block_index m !! hashPrevBlock block = Some q -> entries m !! q = Some bq -> Chain.nHeight bq < 2 ^ 31 - 1 ->
  Pow.GetNextTargetRequired (entries m) regtest (DGWenabled m) (Some q) (is_stake_header block) params = Some c -> extensible params regtest m block.
Proof. intros Hb Hq Hbq Hh Hc. split; [done|]. intros q' bq' Hq' Hbq'. assert (q' = q) as -> by congruence. assert (bq' = bq) as -> by congruence. by rewrite Hc. Qed.

(** A genesis header, two headers on top of it, and one on top of the first. *)
Definition sample_genesis : CBlockHeader := mkHeader 4 (Blob.null 32) (replicate 32 1) 1600000000 0x1f00ffff 7 0.
Definition sample_bits : Z := 0x2000ffff.
Definition sample_header : CBlockHeader := mkHeader 4 (CBlockHeader_GetHash sample_genesis) (replicate 32 2) 1600000100 sample_bits 8 0.
Definition sample_child : CBlockHeader := mkHeader 4 (CBlockHeader_GetHash sample_header) (replicate 32 3) 1600000200 sample_bits 9 0.

Abbreviation sample_hash := (CBlockHeader_GetHash sample_genesis).
Abbreviation sample_checkpoints := [(0, sample_hash)].
Abbreviation sample_work := (fun _ : CBlockHeader => true).
Abbreviation sample_accept := (@AcceptBlockHeader CBigNum.Z_BN CMainParams false sample_hash true sample_checkpoints sample_work).

Definition sample_m0 : BlockManager := from_option snd empty_manager (AddToBlockIndex empty_manager sample_genesis).
Definition sample_m1 : BlockManager := from_option snd empty_manager (sample_accept sample_m0 sample_header 1600000300).
Definition sample_m2 : BlockManager := default empty_manager (InvalidBlockFound sample_m1 (Some 1%positive) 2%positive BLOCK_CONSENSUS).
Definition sample_entry : CBlockIndex := genesis_entry sample_genesis (default [] (Chain.GetBlockTrust (genesis_entry sample_genesis []))).

Lemma sample_extensible : @extensible CBigNum.Z_BN CMainParams false sample_m0 sample_header.
Proof.
  assert (in_u 32 (nBits sample_header)) as H1 by (vm_compute; split; [discriminate|reflexivity]).
  assert (m_block_index sample_m0 !! hashPrevBlock sample_header = Some 1%positive) as H2 by (vm_compute; reflexivity).
  assert (entries sample_m0 !! 1%positive = Some sample_entry) as H3 by (vm_compute; reflexivity).
  assert (Chain.nHeight sample_entry < 2 ^ 31 - 1) as H4 by (vm_compute; reflexivity).
  assert (@Pow.GetNextTargetRequired CBigNum.Z_BN (entries sample_m0) false (DGWenabled sample_m0) (Some 1%positive) (is_stake_header sample_header) CMainParams =
    Some (sample_bits, false)) as H5 by (vm_compute; reflexivity).
  exact (@extensible_at CBigNum.Z_BN CMainParams false sample_m0 sample_header 1%positive sample_entry (sample_bits, false) H1 H2 H3 H4 H5).
Qed.

Lemma sample_added : AddToBlockIndex empty_manager sample_genesis = Some (1%positive, sample_m0).
Proof. vm_compute. reflexivity. Qed.
Lemma sample_accepted : sample_accept sample_m0 sample_header 1600000300 = Some (true, BlockValid, Some 2%positive, sample_m1).
Proof. vm_compute. reflexivity. Qed.
Lemma sample_failed : InvalidBlockFound sample_m1 (Some 1%positive) 2%positive BLOCK_CONSENSUS = Some sample_m2.
Proof. vm_compute. reflexivity. Qed.
Lemma sample_entries : bool_decide (is_Some (entries sample_m1 !! 1%positive)) && bool_decide (is_Some (entries sample_m1 !! 2%positive)) = true.
Proof. vm_compute. reflexivity. Qed.
Lemma sample_refused : fst <$> sample_accept sample_m2 sample_child 1600000300 = Some (false, BlockInvalid BLOCK_INVALID_PREV "bad-prevblk", None).
Proof. vm_compute. reflexivity. Qed.
Lemma sample_genesis_fields : bool_decide (hashPrevBlock sample_genesis <> CBlockHeader_GetHash sample_genesis) && (0 <=? nBits sample_genesis) && (nBits sample_genesis <? 2 ^ 32) = true.
Proof. vm_compute. reflexivity. Qed.
Lemma sample_unknown : m_block_index sample_m0 !! CBlockHeader_GetHash sample_header = None.
Proof. vm_compute. reflexivity. Qed.
Lemma sample_failed_blocks : m_failed_blocks sample_m2 = [2%positive].
Proof. vm_compute. reflexivity. Qed.

#[local] Opaque CBlockHeader_GetHash sample_m0 sample_m1 sample_m2 AcceptBlockHeader InvalidBlockFound AddToBlockIndex.

Abbreviation sample_ok := (@index_ok CBigNum.Z_BN CMainParams false sample_hash sample_work).
Abbreviation sample_accept_step :=
  (@accept_step CBigNum.Z_BN CMainParams false sample_hash true sample_checkpoints sample_work).

Lemma sample_steps : rtc (fun a b => sample_accept_step a b \/ fail_step a b) sample_m0 sample_m2.
Proof.
  pose proof sample_entries as [E1%bool_decide_eq_true E2%bool_decide_eq_true]%andb_true_iff.
  exact (@accept_then_fail CBigNum.Z_BN CMainParams false sample_hash true sample_checkpoints sample_work
    sample_m0 sample_m1 sample_m2 sample_header 1600000300 true BlockValid (Some 2%positive) 1%positive 2%positive BLOCK_CONSENSUS
    sample_extensible sample_accepted E1 E2 sample_failed).
Qed.

(** A header is accepted, its block fails, and the header after it is refused. *)
Lemma header_index_witness :
  sample_ok sample_m2 /\ m_failed_blocks sample_m2 = [2%positive] /\
  fst <$> sample_accept sample_m2 sample_child 1600000300 = Some (false, BlockInvalid BLOCK_INVALID_PREV "bad-prevblk", None).
Proof.
  split; [|split; [exact sample_failed_blocks|exact sample_refused]].
  pose proof sample_genesis_fields as [[E1%bool_decide_eq_true E2%Z.leb_le]%andb_true_iff E3%Z.ltb_lt]%andb_true_iff.
  exact (proj1 (@header_index CBigNum.Z_BN CMainParams false sample_hash true sample_checkpoints sample_work
    sample_genesis 1%positive sample_m0 sample_m2 eq_refl E1 (conj E2 E3) sample_added sample_steps)).
Defined.

Lemma sample_m0_ok : sample_ok sample_m0.
Proof.
  pose proof sample_genesis_fields as [[E1%bool_decide_eq_true E2%Z.leb_le]%andb_true_iff E3%Z.ltb_lt]%andb_true_iff.
  exact (proj1 (@genesis_index CBigNum.Z_BN CMainParams false sample_hash sample_work sample_genesis 1%positive sample_m0 eq_refl E1 (conj E2 E3) sample_added)).
Qed.

(** The header with the entropy and the modifier bits set by its sender. *)
Lemma header_flags_trusted_witness :
  exists q b m, sample_accept sample_m0 (with_flags sample_header 6) 1600000300 = Some (true, BlockValid, Some q, m) /\
    m_block_index m !! CBlockHeader_GetHash sample_header = Some q /\ entries m !! q = Some b /\ Chain.nFlags b = 6.
Proof.
  exact (@header_flags_trusted CBigNum.Z_BN CMainParams false sample_hash true sample_checkpoints sample_work
    sample_m0 sample_header 6 1600000300 BlockValid (Some 2%positive) sample_m1 sample_m0_ok sample_extensible sample_unknown eq_refl eq_refl sample_accepted).
Defined.

End HeaderTheory.
